(* ===== verification/_CoqProject ===== *)
-Q . S2P
Prelude.v
Errno.v
Host.v
Arena.v
Stage2.v
PageTable.v
Translation.v
Seccomp.v
RbTree.v
Regions.v
UserCopy.v
Mmap.v
Coherence.v
Mapping.v
Protect.v
Calls.v
PidNs.v
Guest.v
Futex.v
SysV.v
Msg.v
FdTable.v
Names.v
MountTable.v
Paths.v
Mounts.v
Cred.v
IdMap.v
Namespaces.v
