(* ===== verification/Prelude.v ===== *)
(** * nabi: Linux system calls on macOS

    nabi runs arm64 Linux programs on a Mac. The guest runs on a virtual
    processor of Hypervisor.framework; its system calls trap to nabi, a host
    process, which answers them with its own bookkeeping and the host's calls.
    A guest process is a host process; fork writes a checkpoint and a new host
    process is rebuilt from it. What guest processes share - namespaces, mounts,
    IPC objects, credentials - is therefore in files, and what one process has -
    memory, descriptors, futexes, filters - in its own memory.

    The development models the parts of nabi with state of their own, one file
    or group of files for each, and proves what each promises. Paths below are
    under src/src or src/include of the repository.

    ** The parts

    - Prelude.v: integers of the C types as [Z] with their truncations, the
      monad [outcome] of code that may panic, with want of memory told apart, fail
      an assertion, exit or go through a bad pointer, loops, lists, and the tactics.
    - Errno.v (linux/errno.h, common.h): error numbers and their conversions.
    - Memory. Host.v is the host's mmap, munmap, pwrite and files as an interface
      with its documented laws and a host that satisfies them. Arena.v
      (mm/arena.c) is the memory the guest's pages come from, and its handover to
      a forked child. Stage2.v (lib/vmm_arm64.c) is the registry of host pages
      behind guest-physical blocks over the hypervisor's interface [HvOps];
      PageTable.v (mm/pt_arm64.c) the page tables; Translation.v the invariant
      of both. RbTree.v (util/tree.h) and Regions.v (mm/mm.c) are the region map,
      structs in a heap with the tree and the list that point to them.
      UserCopy.v (base.c) is the copies to and from the guest. Mmap.v (mm/mmap.c,
      mm/mm.c) has every memory call as one handler over all of these;
      Coherence.v, Mapping.v and Protect.v prove what the calls keep, and Calls.v
      states it of the calls as the guest makes them.
    - Guest.v: guest memory as the later files use it, the interface [GuestMem],
      with the proof that UserCopy.v provides it.
    - Seccomp.v (proc/seccomp.c): the filter verifier, interpreter and chain.
    - IPC. Futex.v (ipc/futex.c) has the queues and the sleeping threads, as
      atomic steps of any number of threads. SysV.v (ipc/sysv.c) has the store of
      IPC objects as programs over single file system calls that interleave, and
      Msg.v (ipc/msg.c) message queues, byte by byte, on top of it.
    - Files. FdTable.v (fs/fs.c) has the descriptor tables over the host's
      descriptors ([HostFds]). Names.v has C strings and names; MountTable.v and
      Mounts.v (fs/mount.c) the mount tables, their propagation and the mount
      calls; Paths.v (fs/fs.c, fs/procfs.c) the resolution of names through them
      and the permission rules, over the host's files ([HostFs]).
    - Processes. PidNs.v (proc/pidns.c, proc/credtab.c) has the tables of pid
      namespaces and of published credentials. Cred.v (proc/process.c) has ids,
      groups, capabilities and securebits, with what exec and a child's resume
      do to them; [view] hands them to the permission rules of Paths.v, and
      PidNs.v's table has what peers are told. IdMap.v (proc/namespace.c) has the
      maps of user namespaces and the offsets of time namespaces; Namespaces.v
      (proc/namespace.c, the namespace half of proc/fork.c, sys/time.c) the
      namespaces themselves as counted objects, on PidNs.v, MountTable.v, SysV.v
      and IdMap.v for what they hold.

    ** How code becomes definitions

    A struct is a [Record], an enumeration an inductive type, and a function a
    function of the same name with the state it works on as an argument and a
    result; [sys_] marks a system call. A loop is structural, or has fuel. A
    pointer is an address in a heap where it can dangle (regions, futex entries,
    namespaces), and a read through one that leads nowhere is [Stop Faulted];
    otherwise what it points to is inlined. A lock makes what it covers one
    step; where code runs without one, or over files, the steps interleave. Where
    the code calls the host, the hypervisor or another program, the call is a
    field of a type class, its documented behaviour the laws of a second class,
    and a concrete instance runs the examples and shows that the laws can hold.

    ** What is proved

    Every theorem that leaves something out says what in the comment before it,
    and names the example that shows why where the code fails there.

    - Memory: along calls with arguments in bounds, each returns unless the host
      gives no memory or a mapping flag is unknown, and keeps the region map,
      both translation stages and the host in agreement; the kernel's
      translation is the processor's; what each of mmap, munmap, mprotect, mseal
      and brk does to every page and its contents; what seals keep; that a
      handover keeps every byte, and that replaying stage 2 rebuilds it.
    - Containers: the red-black tree stays ordered and balanced; software
      translation is exact; copies do what memory does.
    - Seccomp: a verified filter without wrapping operands runs to a value
      inside its memory; of the answers the most severe prevails, killing the
      process aside.
    - IPC: no wake-up is lost in a fair run, queues never hold a freed entry, and
      wakes and requeues are exact; racing openers of a key agree on one object
      with its bookkeeping filled in; a queue file is a list of messages.
    - Files: along calls on its own descriptors the guest never gets at nabi's;
      exec and fork keep what they should; names with one leading slash do not
      leave the guest's root when its links are such names, resolution is one
      walk with links expanded in place, and always ends; nabi's /sys and
      read-only mounts not reached over a link refuse writes; private mounts are
      not reached from other namespaces while their number is not given out
      again, and with fewer than 64 tables binds reach, and unmounts leave,
      exactly the peers.
    - Processes: children are numbered consistently in every pid namespace; ids
      and capabilities only shrink without root, and dropping root is for good;
      the namespaces of a process that starts in the initial time and pid
      namespaces are counted right under any calls but clone; unshare and clone
      move what was asked, and clocks that run are not moved, while no two
      processes give out one number; a hostname is that of one namespace; id
      maps are written once, by the rules, and mean what they say.

    Runs of the definitions on concrete states show that the hypotheses of the
    theorems can hold; the examples on what the code does not keep are defects
    of the code, evaluated.

    ** Bounds and fuel

    Fuel is chosen from the data so that it cannot run out, and the theorems say
    that the code returns: the number of regions for loops over the map, twice
    the number of spans and one in the arena, the pages of a buffer and two for a
    copy, the length of a filter for its run, the bytes between a queue's ends
    over a record's header, the tables there are for the ancestors of a pid
    namespace, 22 expansions for a name (one more than the code allows before it
    gives up), the length of the text for numbers, maps and options. The copy of
    the arena's spans, and the retries of an IPC key, have the fuel as an
    argument; the first is enough when it is the longest span, the second leaves
    a process spinning, which is shown not to happen.

    ** What is not modelled

    The host's file operations behind read, write, stat and the like, /proc as
    text, binder, sockets and netlink, event queues, signals, the loading of
    programs, waiting and limits, timers, semaphores and shared memory beyond
    their store, POSIX message queues, control groups, the virtual processor's
    registers and exits, and the x86 port: conversions around host calls, or
    behaviour the host decides. Failure of malloc and calloc is not modelled. *)

From Stdlib Require Export ZArith Lia.
From stdpp Require Export base tactics decidable option list list_numbers numbers gmap.

#[global] Open Scope Z_scope.

(** * Machine integers

    A [w]-bit unsigned C integer is a [Z] in [0, 2^w); every operation that can
    leave the range is followed by the truncation the C type performs. *)

Definition u8 (x : Z) : Z := x mod 2^8.
Definition u16 (x : Z) : Z := x mod 2^16.
Definition u32 (x : Z) : Z := x mod 2^32.
Definition u64 (x : Z) : Z := x mod 2^64.

(** Two's-complement readings. *)
Definition s32 (x : Z) : Z := (x + 2^31) mod 2^32 - 2^31.
Definition s64 (x : Z) : Z := (x + 2^63) mod 2^64 - 2^63.

(** [a & b] used as a condition. *)
Definition has (a b : Z) : bool := negb (Z.land a b =? 0).

(** [x & ~(g - 1)] for a power of two [g = 2^n], on 64 bits. *)
Definition align_down (n x : Z) : Z := Z.shiftl (Z.shiftr x n) n.

(** [static inline uint64_t roundup(uint64_t x, uint64_t y)]. *)
Definition roundup (x y : Z) : Z := u64 (x + y - 1) / y * y.

(** [static inline uint64_t rounddown(uint64_t x, uint64_t y)]. *)
Definition rounddown (x y : Z) : Z := x / y * y.

Lemma u8_range x : 0 ≤ u8 x < 2^8.
Proof. apply Z.mod_pos_bound; lia. Qed.
Lemma u16_range x : 0 ≤ u16 x < 2^16.
Proof. apply Z.mod_pos_bound; lia. Qed.
Lemma u32_range x : 0 ≤ u32 x < 2^32.
Proof. apply Z.mod_pos_bound; lia. Qed.
Lemma u64_range x : 0 ≤ u64 x < 2^64.
Proof. apply Z.mod_pos_bound; lia. Qed.

Lemma u8_small x : 0 ≤ x < 2^8 → u8 x = x.
Proof. apply Z.mod_small. Qed.
Lemma u16_small x : 0 ≤ x < 2^16 → u16 x = x.
Proof. apply Z.mod_small. Qed.
Lemma u32_small x : 0 ≤ x < 2^32 → u32 x = x.
Proof. apply Z.mod_small. Qed.
Lemma u64_small x : 0 ≤ x < 2^64 → u64 x = x.
Proof. apply Z.mod_small. Qed.

Lemma s32_small x : -2^31 ≤ x < 2^31 → s32 x = x.
Proof. intros. unfold s32. rewrite Z.mod_small; lia. Qed.
Lemma s64_small x : -2^63 ≤ x < 2^63 → s64 x = x.
Proof. intros. unfold s64. rewrite Z.mod_small; lia. Qed.

Create HintDb nabi.
Create Rewrite HintDb width.
Create Rewrite HintDb list_simpl.
#[export] Hint Resolve u8_range u16_range u32_range u64_range : nabi.
#[export] Hint Rewrite u8_small u16_small u32_small u64_small s32_small s64_small using lia : width.

(** Expose the ranges of every truncation in sight to [lia]. *)
Ltac pose_ranges :=
  repeat match goal with
  | |- context [u16 ?x] => lazymatch goal with H : 0 ≤ u16 x < _ |- _ => fail | _ => pose proof (u16_range x) end
  | |- context [u32 ?x] => lazymatch goal with H : 0 ≤ u32 x < _ |- _ => fail | _ => pose proof (u32_range x) end
  | |- context [u64 ?x] => lazymatch goal with H : 0 ≤ u64 x < _ |- _ => fail | _ => pose proof (u64_range x) end
  end.

(** Turn boolean tests in the hypotheses into propositions [lia] reads. *)
Ltac bool_to_prop :=
  repeat match goal with
  | H : (_ && _)%bool = true |- _ => apply andb_true_iff in H; destruct H
  | H : (_ || _)%bool = false |- _ => apply orb_false_iff in H; destruct H
  | H : negb _ = true |- _ => apply negb_true_iff in H
  | H : negb _ = false |- _ => apply negb_false_iff in H
  | H : (_ =? _) = true |- _ => apply Z.eqb_eq in H
  | H : (_ =? _) = false |- _ => apply Z.eqb_neq in H
  | H : (_ <? _) = true |- _ => apply Z.ltb_lt in H
  | H : (_ <? _) = false |- _ => apply Z.ltb_ge in H
  | H : (_ <=? _) = true |- _ => apply Z.leb_le in H
  | H : (_ <=? _) = false |- _ => apply Z.leb_gt in H
  | H : (_ >=? _) = true |- _ => apply Z.geb_le in H
  | H : (_ >=? _) = false |- _ => rewrite Z.geb_leb in H
  | H : (_ >? _) = true |- _ => apply Z.gtb_lt in H
  | H : (_ >? _) = false |- _ => rewrite Z.gtb_ltb in H
  end.

(** Case split on the first boolean test of the goal. *)
Ltac case_bool :=
  match goal with
  | |- context [if ?b then _ else _] => let E := fresh "E" in destruct b eqn:E
  end.

(** [lia] with quotients and remainders by constants. *)
Ltac lia_mod := Z.to_euclidean_division_equations; lia.

(** * Alignment *)

Lemma roundup_spec x y :
  0 < y → 0 ≤ x → x + y - 1 < 2^64 →
  x ≤ roundup x y < x + y ∧ roundup x y mod y = 0.
Proof.
  intros Hy Hx Hb. unfold roundup. rewrite u64_small by lia.
  split; [|apply Z.mod_mul; lia].
  pose proof (Z.div_mod (x + y - 1) y ltac:(lia)) as Hd.
  pose proof (Z.mod_pos_bound (x + y - 1) y Hy). nia.
Qed.

Lemma roundup_aligned x y :
  0 < y → 0 ≤ x → x + y - 1 < 2^64 → x mod y = 0 → roundup x y = x.
Proof.
  intros Hy Hx Hb Hm. unfold roundup. rewrite u64_small by lia.
  apply Z.mod_divide in Hm as [q ->]; [|lia].
  replace (q * y + y - 1) with (q * y + (y - 1)) by lia.
  rewrite Z.div_add_l by lia. rewrite (Z.div_small (y - 1)) by lia. lia.
Qed.

Lemma align_down_spec n x : 0 ≤ n → align_down n x = x / 2^n * 2^n.
Proof.
  intros Hn. unfold align_down.
  by rewrite Z.shiftl_mul_pow2, Z.shiftr_div_pow2 by done.
Qed.

(** * Process outcomes

    [panic] and a failed [assert] end the process, [_exit] ends it with a
    status, [OutOfFuel] is a loop that was not given enough iterations;
    everything else returns. [NoMemory] is a [panic] over a host call that gave
    no memory (growing a table, or creating, extending or mapping the arena's
    file), [Panicked] any other. *)

Inductive stop := Panicked | NoMemory | Asserted | Exited (status : Z) | Faulted | OutOfFuel.

Inductive outcome (A : Type) := Ret (a : A) | Stop (why : stop).
Arguments Ret {A} a.
Arguments Stop {A} why.

#[global] Instance outcome_ret : MRet outcome := λ A a, Ret a.
#[global] Instance outcome_bind : MBind outcome := λ A B f m,
  match m with Ret a => f a | Stop w => Stop w end.

Definition is_ret {A} (o : outcome A) : bool := match o with Ret _ => true | Stop _ => false end.

Definition ret_or {A} (d : A) (o : outcome A) : A := match o with Ret a => a | Stop _ => d end.

Lemma ret_or_eq {A} (d : A) o : is_ret o = true → o = Ret (ret_or d o).
Proof. by destruct o. Qed.

(** [assert(b)]. *)
Definition assert_c (b : bool) : outcome unit := if b then Ret tt else Stop Asserted.

Lemma bind_ret {A B} (m : outcome A) (f : A → outcome B) b :
  m ≫= f = Ret b ↔ ∃ a, m = Ret a ∧ f a = Ret b.
Proof.
  destruct m as [a|w]; simpl; [|by split; [|intros (? & ? & ?)]].
  split; [eauto|]. by intros (a' & [= <-] & ?).
Qed.

(** A [for] loop over the values its counter takes. *)
Fixpoint for_each {A S} (f : A → S → outcome S) (l : list A) (s : S) : outcome S :=
  match l with
  | [] => Ret s
  | x :: l => s ← f x s; for_each f l s
  end.

Lemma for_each_app {A S} (f : A → S → outcome S) l k s :
  for_each f (l ++ k) s = (s ← for_each f l s; for_each f k s).
Proof. revert s. induction l as [|x l IH]; intros s; simpl; [done|]. by destruct (f x s); simpl. Qed.

(** The values 0, step, 2 step, ... below [size]. *)
Definition counter (step size : Z) : list Z :=
  (λ i, Z.of_nat i * step) <$> seq 0 (Z.to_nat ((size + step - 1) / step)).

Lemma elem_of_counter step size x :
  0 < step → 0 ≤ size → x ∈ counter step size ↔ x mod step = 0 ∧ 0 ≤ x < size.
Proof.
  intros Hs Hz. unfold counter. rewrite list_elem_of_fmap. split.
  - intros (i & -> & Hi%elem_of_seq). split; [by apply Z.mod_mul; lia|].
    pose proof (Z.mul_div_le (size + step - 1) step Hs). nia.
  - intros [Hm Hx]. exists (Z.to_nat (x / step)).
    pose proof (Z.div_mod x step ltac:(lia)). pose proof (Z.div_pos x step).
    split; [rewrite Z2Nat.id; lia|]. apply elem_of_seq. split; [lia|].
    assert (x / step < (size + step - 1) / step); [|lia].
    assert ((x + step) / step ≤ (size + step - 1) / step) as Hle.
    + apply Z.div_le_mono; [lia|].
      pose proof (Z.div_mod (size + step - 1) step ltac:(lia)). lia.
    + replace (x + step) with (x + 1 * step) in Hle by lia. rewrite Z.div_add in Hle by lia. lia.
Qed.

Lemma NoDup_counter step size : 0 < step → NoDup (counter step size).
Proof. intros Hs. apply NoDup_fmap_2; [|apply NoDup_seq]. intros i j Hij. nia. Qed.

Lemma length_counter step size :
  0 < step → 0 ≤ size → Z.of_nat (length (counter step size)) = (size + step - 1) / step.
Proof.
  intros Hs Hz. unfold counter. rewrite length_fmap, length_seq, Z2Nat.id; [done|].
  apply Z.div_pos; lia.
Qed.

(** * Errno values (include/linux/errno.h) *)

Definition EPERM : Z := 1.
Definition ENOENT : Z := 2.
Definition ESRCH : Z := 3.
Definition EINTR : Z := 4.
Definition EIO : Z := 5.
Definition ENXIO : Z := 6.
Definition E2BIG : Z := 7.
Definition EBADF : Z := 9.
Definition ECHILD : Z := 10.
Definition EAGAIN : Z := 11.
Definition ENOMEM : Z := 12.
Definition EACCES : Z := 13.
Definition EFAULT : Z := 14.
Definition EBUSY : Z := 16.
Definition EEXIST : Z := 17.
Definition ENODEV : Z := 19.
Definition ENOTDIR : Z := 20.
Definition EISDIR : Z := 21.
Definition EINVAL : Z := 22.
Definition EMFILE : Z := 24.
Definition EFBIG : Z := 27.
Definition ENOSPC : Z := 28.
Definition EROFS : Z := 30.
Definition ERANGE : Z := 34.
Definition ENAMETOOLONG : Z := 36.
Definition ENOSYS : Z := 38.
Definition ENOTEMPTY : Z := 39.
Definition ELOOP : Z := 40.
Definition ENOMSG : Z := 42.
Definition EIDRM : Z := 43.
Definition EOVERFLOW : Z := 75.
Definition EUSERS : Z := 87.
Definition EMSGSIZE : Z := 90.
Definition EOPNOTSUPP : Z := 95.
Definition ETIMEDOUT : Z := 110.

(** * Little-endian memory images

    A byte is a [Z] in [0, 256); [le_store n z] is the [n]-byte image of an
    integer and [le_load] reads one back. *)

Fixpoint le_load (l : list Z) : Z :=
  match l with
  | [] => 0
  | b :: t => b + 256 * le_load t
  end.

Fixpoint le_store (n : nat) (z : Z) : list Z :=
  match n with
  | O => []
  | S n => z mod 256 :: le_store n (z / 256)
  end.

Lemma length_le_store n z : length (le_store n z) = n.
Proof. revert z; induction n; intros; simpl; auto. Qed.

Lemma le_load_store n z : le_load (le_store n z) = z mod 256 ^ Z.of_nat n.
Proof.
  revert z; induction n as [|n IH]; intros z; simpl le_store; simpl le_load.
  { by rewrite Z.pow_0_r, Z.mod_1_r. }
  rewrite IH, Nat2Z.inj_succ, Z.pow_succ_r by lia.
  by rewrite Z.rem_mul_r by (try apply Z.pow_pos_nonneg; lia).
Qed.

Lemma le_load_store_small n z :
  0 ≤ z < 256 ^ Z.of_nat n → le_load (le_store n z) = z.
Proof. intros. rewrite le_load_store. by apply Z.mod_small. Qed.

Lemma le_store_bytes n z : Forall (λ b, 0 ≤ b < 256) (le_store n z).
Proof.
  revert z; induction n; intros; simpl; constructor; auto.
  apply Z.mod_pos_bound; lia.
Qed.

Lemma le_load_range l :
  Forall (λ b, 0 ≤ b < 256) l → 0 ≤ le_load l < 256 ^ Z.of_nat (length l).
Proof.
  induction 1 as [|b t Hb Ht IH]; simpl le_load; simpl length; [simpl; lia|].
  rewrite Nat2Z.inj_succ, Z.pow_succ_r by lia. lia.
Qed.

#[export] Hint Rewrite length_le_store : list_simpl.

Arguments le_store : simpl never.
Arguments le_load : simpl never.

(** * Lists *)

(** Every two entries at different positions are related. *)
Fixpoint pairwise {A} (R : A → A → Prop) (l : list A) : Prop :=
  match l with
  | [] => True
  | x :: l => Forall (R x) l ∧ pairwise R l
  end.

Section Pairwise.
Context {A : Type} (R : A → A → Prop).

Lemma pairwise_app l k :
  pairwise R (l ++ k) ↔
  pairwise R l ∧ pairwise R k ∧ ∀ x y, x ∈ l → y ∈ k → R x y.
Proof.
  induction l as [|x l IH]; simpl; [set_solver|].
  rewrite IH, Forall_app, !Forall_forall. set_solver.
Qed.

Lemma pairwise_perm `{!Symmetric R} l k : l ≡ₚ k → pairwise R l → pairwise R k.
Proof.
  induction 1 as [|x l k Hp IH|x y l|]; simpl; auto.
  - intros [? ?]. split; [by rewrite <- Hp|auto].
  - intros (Hx & Hy & ?). apply Forall_cons in Hx as [? ?].
    split; [constructor; [by symmetry|done]|done].
Qed.

#[global] Instance pairwise_proper `{!Symmetric R} : Proper ((≡ₚ) ==> iff) (pairwise R).
Proof. intros l k Hp. split; by apply pairwise_perm. Qed.

Lemma pairwise_filter (P : A → Prop) `{!∀ x, Decision (P x)} l :
  pairwise R l → pairwise R (filter P l).
Proof.
  induction l as [|x l IH]; simpl; [done|]. intros [Hx Hl].
  destruct (decide (P x)).
  - rewrite filter_cons_True by done. simpl. split; [|auto].
    rewrite Forall_forall in *. intros y [_ Hy]%list_elem_of_filter. auto.
  - rewrite filter_cons_False by done. auto.
Qed.

Lemma pairwise_elem `{!Symmetric R} l x y :
  pairwise R l → x ∈ l → y ∈ l → x ≠ y → R x y.
Proof.
  induction l as [|z l IH]; simpl; [set_solver|]. intros [Hz Hl].
  rewrite Forall_forall in Hz. rewrite !elem_of_cons.
  intros [->|Hx] [->|Hy] Hne; [done|auto|symmetry; auto|auto].
Qed.

End Pairwise.

Lemma pairwise_bind {A B} (R : A → A → Prop) (S : B → B → Prop) (f : A → list B) l :
  (∀ x, pairwise S (f x)) →
  (∀ x y x' y', R x y → x' ∈ f x → y' ∈ f y → S x' y') →
  pairwise R l → pairwise S (l ≫= f).
Proof.
  intros H1 H2. induction l as [|x l IH]; simpl; [done|]. intros [Hx Hl].
  apply pairwise_app. split; [auto|]. split; [auto|].
  intros x' y' Hx' (y & Hy' & Hy)%list_elem_of_bind.
  rewrite Forall_forall in Hx. eauto.
Qed.


(** How many entries a test holds for. *)
Fixpoint count {A} (f : A → bool) (l : list A) : nat :=
  match l with
  | [] => 0
  | x :: l => (if f x then 1 else 0) + count f l
  end.

Lemma count_ext {A} (f g : A → bool) l : (∀ x, x ∈ l → f x = g x) → count f l = count g l.
Proof.
  induction l as [|x l IH]; simpl; [done|]. intros Hfg.
  rewrite (Hfg x) by left. f_equal. apply IH. intros y Hy. apply Hfg. by right.
Qed.

(** Two tests that differ at one entry only. *)
Lemma count_step {A} (f g : A → bool) l x :
  NoDup l → x ∈ l → (∀ y, y ∈ l → y ≠ x → f y = g y) →
  (count f l + (if g x then 1 else 0) = count g l + (if f x then 1 else 0))%nat.
Proof.
  induction l as [|z l IH]; simpl; [by intros _ ?%elem_of_nil|].
  intros [Hz Hnd]%NoDup_cons Hx Hfg. apply elem_of_cons in Hx as [->|Hx].
  - rewrite (count_ext f g l); [lia|]. intros y Hy. apply Hfg; [by right|]. by intros ->.
  - rewrite (Hfg z); [|left|by intros ->].
    specialize (IH Hnd Hx). ospecialize (IH _); [|lia].
    intros y Hy. apply Hfg. by right.
Qed.

Lemma count_length {A} (f : A → bool) l : (count f l ≤ length l)%nat.
Proof. induction l as [|x l IH]; simpl; [done|]. destruct (f x); lia. Qed.

Lemma count_none {A} (f : A → bool) l : (∀ x, x ∈ l → f x = false) → count f l = 0%nat.
Proof.
  intros Hf. rewrite (count_ext f (λ _, false)) by done. clear Hf. by induction l.
Qed.

Lemma count_zero {A} (f : A → bool) l : count f l = 0%nat → ∀ x, x ∈ l → f x = false.
Proof.
  induction l as [|z l IH]; simpl; [by intros _ x ?%elem_of_nil|].
  intros Hc x [->|Hx]%elem_of_cons; [by destruct (f z)|]. apply IH; [|done]. destruct (f z); lia.
Qed.

Lemma count_pos {A} (f : A → bool) l : count f l ≠ 0%nat → ∃ x, x ∈ l ∧ f x = true.
Proof.
  induction l as [|z l IH]; simpl; [done|]. destruct (f z) eqn:E; [exists z; split; [left|done]|].
  intros (x & Hx & Hf)%IH. exists x. split; [by right|done].
Qed.

(** [a[i] = a[--n]]: entry [i] goes and the last one takes its place. *)
Definition swap_remove {A} (i : nat) (l : list A) : list A :=
  match last l with
  | None => l
  | Some x => take (length l - 1) (<[i := x]> l)
  end.

Lemma swap_remove_split {A} (i : nat) (l : list A) x :
  l !! i = Some x →
  ∃ k, swap_remove i l = take i l ++ k ∧ k ≡ₚ drop (S i) l.
Proof.
  intros Hi. destruct l as [|z l _] using rev_ind; [done|].
  unfold swap_remove. rewrite last_snoc, length_app, Nat.add_sub.
  apply lookup_snoc_Some in Hi as [[Hlt Hi]|[-> <-]].
  - rewrite insert_app_l, take_app_length' by (rewrite ?length_insert; lia).
    rewrite take_app_le, drop_app_le by lia.
    exists (z :: drop (S i) l). split.
    + rewrite insert_take_drop by done. done.
    + by rewrite Permutation_app_comm.
  - exists []. rewrite take_app_length, drop_ge by (rewrite length_app; simpl; lia).
    split; [|done]. rewrite app_nil_r, insert_app_r_alt, Nat.sub_diag by done.
    by rewrite take_app_length.
Qed.

(** An element that occurs once splits a list one way. *)
Lemma pivot_inj {A} (x : A) a b c d :
  NoDup (a ++ x :: b) → a ++ x :: b = c ++ x :: d → a = c ∧ b = d.
Proof.
  revert c. induction a as [|y a IH]; intros [|z c]; simpl.
  - by intros _ [= ->].
  - intros [Hx _]%NoDup_cons [= -> E]. rewrite E in Hx. set_solver.
  - intros [Hx _]%NoDup_cons [= -> E]. set_solver.
  - intros [_ Hnd]%NoDup_cons [= -> E]. destruct (IH c Hnd E) as [-> ->]. done.
Qed.

(** A list falls into two parts, one with a property and one without, in at
    most one way. *)
Lemma partition_inj {A} (P : A → Prop) a b c d :
  a ++ b = c ++ d → (∀ x, x ∈ a → P x) → (∀ x, x ∈ b → ¬ P x) →
  (∀ x, x ∈ c → P x) → (∀ x, x ∈ d → ¬ P x) → a = c ∧ b = d.
Proof.
  revert c. induction a as [|x a IH]; intros [|y c]; simpl.
  - auto.
  - intros -> _ Hb Hc _. destruct (Hb y ltac:(left) (Hc y ltac:(left))).
  - intros <- Ha _ _ Hd. destruct (Hd x ltac:(left) (Ha x ltac:(left))).
  - intros [= -> E] Ha Hb Hc Hd. destruct (IH c E) as [-> ->]; set_solver.
Qed.
