(* ===== verification/Errno.v ===== *)
(** Error numbers, include/linux/errno.h: the table of Linux's error numbers
    with the macros of include/linux/const.h that turn it into the conversions
    from and to the host's, and the wrapper of include/common.h that every host
    call's answer goes through.

    The host's numbers are those of macOS's <sys/errno.h>. *)

From S2P Require Import Prelude.

(** One line of the table: a number both systems have, one only Linux has, a
    second name, a number only the host has. *)
Inductive decl :=
| Decl (linux darwin : Z)
| Specific (linux : Z)
| Alias (linux : Z)
| From (linux darwin : Z).

Definition LINUX_ERRNO : list decl := [
  Decl 1 1 (* EPERM *);
  Decl 2 2 (* ENOENT *);
  Decl 3 3 (* ESRCH *);
  Decl 4 4 (* EINTR *);
  Decl 5 5 (* EIO *);
  Decl 6 6 (* ENXIO *);
  Decl 7 7 (* E2BIG *);
  Decl 8 8 (* ENOEXEC *);
  Decl 9 9 (* EBADF *);
  Decl 10 10 (* ECHILD *);
  Decl 11 35 (* EAGAIN *);
  Decl 12 12 (* ENOMEM *);
  Decl 13 13 (* EACCES *);
  Decl 14 14 (* EFAULT *);
  Decl 15 15 (* ENOTBLK *);
  Decl 16 16 (* EBUSY *);
  Decl 17 17 (* EEXIST *);
  Decl 18 18 (* EXDEV *);
  Decl 19 19 (* ENODEV *);
  Decl 20 20 (* ENOTDIR *);
  Decl 21 21 (* EISDIR *);
  Decl 22 22 (* EINVAL *);
  Decl 23 23 (* ENFILE *);
  Decl 24 24 (* EMFILE *);
  Decl 25 25 (* ENOTTY *);
  Decl 26 26 (* ETXTBSY *);
  Decl 27 27 (* EFBIG *);
  Decl 28 28 (* ENOSPC *);
  Decl 29 29 (* ESPIPE *);
  Decl 30 30 (* EROFS *);
  Decl 31 31 (* EMLINK *);
  Decl 32 32 (* EPIPE *);
  Decl 33 33 (* EDOM *);
  Decl 34 34 (* ERANGE *);
  Decl 35 11 (* EDEADLK *);
  Decl 36 63 (* ENAMETOOLONG *);
  Decl 37 77 (* ENOLCK *);
  Decl 38 78 (* ENOSYS *);
  Decl 39 66 (* ENOTEMPTY *);
  Decl 40 62 (* ELOOP *);
  Alias 11 (* EWOULDBLOCK *);
  Decl 42 91 (* ENOMSG *);
  Decl 43 90 (* EIDRM *);
  Specific 44 (* ECHRNG *);
  Specific 45 (* EL2NSYNC *);
  Specific 46 (* EL3HLT *);
  Specific 47 (* EL3RST *);
  Specific 48 (* ELNRNG *);
  Specific 49 (* EUNATCH *);
  Specific 50 (* ENOCSI *);
  Specific 51 (* EL2HLT *);
  Specific 52 (* EBADE *);
  Specific 53 (* EBADR *);
  Specific 54 (* EXFULL *);
  Specific 55 (* ENOANO *);
  Specific 56 (* EBADRQC *);
  Specific 57 (* EBADSLT *);
  Alias 35 (* EDEADLOCK *);
  Specific 59 (* EBFONT *);
  Decl 60 99 (* ENOSTR *);
  Decl 61 96 (* ENODATA *);
  Decl 62 101 (* ETIME *);
  Decl 63 98 (* ENOSR *);
  Specific 64 (* ENONET *);
  Specific 65 (* ENOPKG *);
  Decl 66 71 (* EREMOTE *);
  Decl 67 97 (* ENOLINK *);
  Specific 68 (* EADV *);
  Specific 69 (* ESRMNT *);
  Specific 70 (* ECOMM *);
  Decl 71 100 (* EPROTO *);
  Decl 72 95 (* EMULTIHOP *);
  Specific 73 (* EDOTDOT *);
  Decl 74 94 (* EBADMSG *);
  Decl 75 84 (* EOVERFLOW *);
  Specific 76 (* ENOTUNIQ *);
  Specific 77 (* EBADFD *);
  Specific 78 (* EREMCHG *);
  Specific 79 (* ELIBACC *);
  Specific 80 (* ELIBBAD *);
  Specific 81 (* ELIBSCN *);
  Specific 82 (* ELIBMAX *);
  Specific 83 (* ELIBEXEC *);
  Decl 84 92 (* EILSEQ *);
  Specific 85 (* ERESTART *);
  Specific 86 (* ESTRPIPE *);
  Decl 87 68 (* EUSERS *);
  Decl 88 38 (* ENOTSOCK *);
  Decl 89 39 (* EDESTADDRREQ *);
  Decl 90 40 (* EMSGSIZE *);
  Decl 91 41 (* EPROTOTYPE *);
  Decl 92 42 (* ENOPROTOOPT *);
  Decl 93 43 (* EPROTONOSUPPORT *);
  Decl 94 44 (* ESOCKTNOSUPPORT *);
  Decl 95 102 (* EOPNOTSUPP *);
  Alias 95 (* ENOTSUP *);
  Decl 96 46 (* EPFNOSUPPORT *);
  Decl 97 47 (* EAFNOSUPPORT *);
  Decl 98 48 (* EADDRINUSE *);
  Decl 99 49 (* EADDRNOTAVAIL *);
  Decl 100 50 (* ENETDOWN *);
  Decl 101 51 (* ENETUNREACH *);
  Decl 102 52 (* ENETRESET *);
  Decl 103 53 (* ECONNABORTED *);
  Decl 104 54 (* ECONNRESET *);
  Decl 105 55 (* ENOBUFS *);
  Decl 106 56 (* EISCONN *);
  Decl 107 57 (* ENOTCONN *);
  Decl 108 58 (* ESHUTDOWN *);
  Decl 109 59 (* ETOOMANYREFS *);
  Decl 110 60 (* ETIMEDOUT *);
  Decl 111 61 (* ECONNREFUSED *);
  Decl 112 64 (* EHOSTDOWN *);
  Decl 113 65 (* EHOSTUNREACH *);
  Decl 114 37 (* EALREADY *);
  Decl 115 36 (* EINPROGRESS *);
  Decl 116 70 (* ESTALE *);
  Specific 117 (* EUCLEAN *);
  Specific 118 (* ENOTNAM *);
  Specific 119 (* ENAVAIL *);
  Specific 120 (* EISNAM *);
  Specific 121 (* EREMOTEIO *);
  Decl 122 69 (* EDQUOT *);
  Specific 123 (* ENOMEDIUM *);
  Specific 124 (* EMEDIUMTYPE *);
  Decl 125 89 (* ECANCELED *);
  Specific 126 (* ENOKEY *);
  Specific 127 (* EKEYEXPIRED *);
  Specific 128 (* EKEYREVOKED *);
  Specific 129 (* EKEYREJECTED *);
  Decl 130 105 (* EOWNERDEAD *);
  Decl 131 104 (* ENOTRECOVERABLE *);
  Specific 132 (* ERFKILL *);
  Specific 133 (* EHWPOISON *);
  From 1 79 (* EPERM from EFTYPE *);
  From 1 80 (* EPERM from EAUTH *);
  From 1 81 (* EPERM from ENEEDAUTH *);
  From 8 85 (* ENOEXEC from EBADEXEC *);
  From 8 86 (* ENOEXEC from EBADARCH *);
  From 8 88 (* ENOEXEC from EBADMACHO *);
  From 61 93 (* ENODATA from ENOATTR *);
  From 1 103 (* EPERM from ENOPOLICY *);
  From 1 72 (* EPERM from EBADRPC *);
  From 95 45 (* EOPNOTSUPP from ENOTSUP *)
].

Section Errno.

(** The value of __COUNTER__ where the table is expanded: LINUX_SPECIFIC is
    [-10 - __COUNTER__], a different number at each use. *)
Variable counter : Z.

(** The cases of the switch: host number and Linux number. *)
Fixpoint cases (c : Z) (l : list decl) : list (Z * Z * bool) :=
  match l with
  | [] => []
  | Decl n d :: l => (d, n, true) :: cases c l
  | Specific n :: l => (-10 - c, n, true) :: cases (c + 1) l
  | Alias _ :: l => cases c l
  | From n d :: l => (d, n, false) :: cases c l
  end.

Fixpoint switch (get : Z * Z * bool → option (Z * Z)) (val : Z) (l : list (Z * Z * bool)) : Z :=
  match l with
  | [] => -1
  | e :: l => match get e with
              | Some (k, r) => if val =? k then r else switch get val l
              | None => switch get val l
              end
  end.

Definition darwin_to_linux_errno_raw (val : Z) : Z :=
  switch (λ '(d, n, _), Some (d, n)) val (cases counter LINUX_ERRNO).

Definition linux_to_darwin_errno (val : Z) : Z :=
  switch (λ '(d, n, both), if both : bool then Some (n, d) else None) val (cases counter LINUX_ERRNO).

Definition darwin_to_linux_errno (e : Z) : Z :=
  let r := darwin_to_linux_errno_raw e in if 0 <? r then r else EINVAL.

Definition _syswrap (sys_ret errno : Z) : Z :=
  if (sys_ret <? 0) && negb (errno =? 0) then - darwin_to_linux_errno errno else sys_ret.

End Errno.

(** ** What the conversions promise *)

Definition linux_of (e : decl) : Z :=
  match e with Decl n _ | Specific n | Alias n | From n _ => n end.

Lemma cases_linux c l d n b : (d, n, b) ∈ cases c l → ∃ e, e ∈ l ∧ linux_of e = n.
Proof.
  revert c. induction l as [|e l IH]; intros c; cbn; [by intros ?%elem_of_nil|].
  assert (∀ c', (d, n, b) ∈ cases c' l → ∃ e0, e0 ∈ e :: l ∧ linux_of e0 = n) as Hrec.
  { intros c' (e0 & ? & ?)%IH. exists e0. split; [by right|done]. }
  destruct e; try apply Hrec; intros [[= -> -> ->]|?]%elem_of_cons; eauto; eexists; (split; [left|done]).
Qed.

Lemma raw_value c v :
  darwin_to_linux_errno_raw c v = -1 ∨ ∃ e, e ∈ LINUX_ERRNO ∧ linux_of e = darwin_to_linux_errno_raw c v.
Proof.
  unfold darwin_to_linux_errno_raw. generalize (cases_linux c LINUX_ERRNO). generalize (cases c LINUX_ERRNO).
  intros l Hl. induction l as [|[[d n] b] l IH]; cbn; [by left|]. destruct (v =? d).
  - right. apply (Hl d n b). left.
  - apply IH. intros d' n' b' Hin. apply (Hl d' n' b'). by right.
Qed.

Lemma table_range : Forall (λ e, 1 ≤ linux_of e ≤ 133) LINUX_ERRNO.
Proof. unfold LINUX_ERRNO. repeat (constructor; [cbn; lia|]). constructor. Qed.

Lemma errno_range c e : 1 ≤ darwin_to_linux_errno c e ≤ 133.
Proof.
  unfold darwin_to_linux_errno. destruct (raw_value c e) as [->|(d & Hd & <-)]; [done|].
  pose proof (proj1 (Forall_forall _ _) table_range d Hd) as Hr. cbn beta in Hr.
  cbn zeta. rewrite (proj2 (Z.ltb_lt 0 (linux_of d))) by lia. lia.
Qed.

(** No failing host call reads as a success: whatever the host's error
    number, known to the table or not, the guest is handed a negative answer
    that is one of Linux's error numbers; an answer that is not a failure is
    handed on. *)
Theorem syswrap_error c ret errno :
  (ret < 0 → errno ≠ 0 → -133 ≤ _syswrap c ret errno ≤ -1) ∧ (0 ≤ ret → _syswrap c ret errno = ret).
Proof.
  unfold _syswrap. pose proof (errno_range c errno). split.
  - intros Hr He. rewrite (proj2 (Z.ltb_lt _ _)), (proj2 (Z.eqb_neq _ _)) by done. cbn. lia.
  - intros Hr. by rewrite (proj2 (Z.ltb_ge _ _)).
Qed.

(** Numbers only Linux has never get in the way of one the host has. *)
Lemma switch_positive v l : 0 < v → ∀ c c', 0 ≤ c → 0 ≤ c' →
  switch (λ '(d, n, _), Some (d, n)) v (cases c l) = switch (λ '(d, n, _), Some (d, n)) v (cases c' l).
Proof.
  intros Hv. induction l as [|[n d|n|n|n d] l IH]; intros c c' Hc Hc'; cbn; try (by rewrite (IH c c')); [done|].
  rewrite (proj2 (Z.eqb_neq v (-10 - c))), (proj2 (Z.eqb_neq v (-10 - c'))) by lia. apply IH; lia.
Qed.

Lemma raw_positive c v : 0 ≤ c → 0 < v → darwin_to_linux_errno_raw c v = darwin_to_linux_errno_raw 0 v.
Proof. intros Hc Hv. by apply switch_positive. Qed.

(** The two conversions agree: a number both systems have goes to the host
    and back, and a number only the host has arrives as the table says. *)
Theorem errno_roundtrip c :
  0 ≤ c →
  Forall (λ e, match e with
    | Decl n d => linux_to_darwin_errno c n = d ∧ darwin_to_linux_errno c d = n
    | From n d => darwin_to_linux_errno c d = n
    | _ => True
    end) LINUX_ERRNO.
Proof.
  intros Hc.
  assert (Forall (λ e, match e with
    | Decl n d => linux_to_darwin_errno c n = d ∧ 0 < d ∧ darwin_to_linux_errno 0 d = n
    | From n d => 0 < d ∧ darwin_to_linux_errno 0 d = n
    | _ => True end) LINUX_ERRNO) as Hall.
  { unfold LINUX_ERRNO at 1. repeat (constructor; [by vm_compute|]). constructor. }
  eapply Forall_impl; [exact Hall|]. intros [n d|n|n|n d]; try done; unfold darwin_to_linux_errno.
  - intros (H1 & Hd & H2). rewrite (raw_positive c d Hc Hd). exact (conj H1 H2).
  - intros (Hd & H2). rewrite (raw_positive c d Hc Hd). exact H2.
Qed.

Lemma errno_roundtrip_witness : darwin_to_linux_errno 7 45 = EOPNOTSUPP ∧ linux_to_darwin_errno 7 11 = 35.
Proof.
  pose proof (errno_roundtrip 7 ltac:(done)) as Hall. rewrite Forall_forall in Hall. split.
  - exact (Hall (From 95 45) ltac:(apply (list_elem_of_lookup_2 _ 143); by vm_compute)).
  - exact (proj1 (Hall (Decl 11 35) ltac:(apply (list_elem_of_lookup_2 _ 10); by vm_compute))).
Defined.

Lemma syswrap_error_witness : -133 ≤ _syswrap 0 (-1) 106 ≤ -1.
Proof. by apply (syswrap_error 0 (-1) 106). Defined.
