(* ===== verification/Host.v ===== *)
(** The host kernel as the memory layer uses it: the calls src/mm/arena.c and
    src/mm/mmap.c make on the host's address space and files, the documented
    laws of those calls, and one concrete host that satisfies them. *)

From S2P Require Import Prelude.

(** The unit in which the host maps memory (STAGE2_GRANULE,
    include/arm64/vm.h: 16KiB on Apple Silicon). *)
Definition HOST_PAGE : Z := 0x4000.

(** What stands behind a mapped byte of the host's address space. *)
Inductive backing :=
| Private (fd off : Z)   (* MAP_PRIVATE of a file: copy on write *)
| Shared (fd off : Z)    (* MAP_SHARED of a file *)
| Foreign.               (* anything the memory layer did not map *)

#[global] Instance backing_eq_dec : EqDecision backing.
Proof. solve_decision. Defined.

Definition backed_by (fd : Z) (b : option backing) : bool :=
  match b with
  | Some (Private f _) | Some (Shared f _) => f =? fd
  | _ => false
  end.

(** The bytes [off, off + n) of a mapping request. *)
Definition back_at (b : backing) (d : Z) : backing :=
  match b with
  | Private fd off => Private fd (off + d)
  | Shared fd off => Shared fd (off + d)
  | Foreign => Foreign
  end.

Definition in_range (a n x : Z) : bool := (a <=? x) && (x <? a + n).

Inductive write_result := Wrote (n : Z) | WriteEintr | WriteError.

(** The calls, and three observations of the host's state: what backs an
    address, the byte an address holds and the byte a file holds. *)
Class HostOps (H : Type) := {
  h_back : H → Z → option backing;
  h_mem : H → Z → Z;
  h_file : H → Z → Z → Z;
  h_open : H → Z → bool;
  h_fsize : H → Z → Z;
  h_mkstemp : H → option Z * H;
  h_setfd : H → Z → bool;
  h_close : H → Z → H;
  h_ftruncate : H → Z → Z → bool * H;
  h_fstat : H → Z → bool;
  h_mmap : H → Z → Z → backing → option Z * H;
  h_munmap : H → Z → Z → H;
  h_pwrite : H → Z → Z → Z → Z → write_result * H;
  h_punchhole : H → Z → Z → Z → H;
  h_realloc : H → Z → bool;
}.

(** Two hosts agree on everything the memory layer observes. *)
Definition host_eq {H} `{HostOps H} (h h' : H) : Prop :=
  (∀ a, h_back h' a = h_back h a) ∧
  (∀ a, h_back h a ≠ None → h_mem h' a = h_mem h a) ∧
  (∀ fd o, h_file h' fd o = h_file h fd o) ∧
  (∀ fd, h_open h' fd = h_open h fd) ∧
  (∀ fd, h_fsize h' fd = h_fsize h fd).

(** The documented behaviour the memory layer relies on; a file reads as zeros
    past its end, which is what extending it makes of those bytes. *)
Class HostLaws (H : Type) `{HostOps H} := {
  mkstemp_some h fd h' : h_mkstemp h = (Some fd, h') →
    0 ≤ fd ∧ h_open h fd = false ∧ h_fsize h' fd = 0 ∧ (∀ o, h_file h' fd o = 0) ∧
    (∀ a, h_back h' a = h_back h a ∧ backed_by fd (h_back h a) = false) ∧
    (∀ a, h_back h a ≠ None → h_mem h' a = h_mem h a) ∧
    (∀ f, f ≠ fd → h_open h' f = h_open h f ∧ h_fsize h' f = h_fsize h f) ∧
    (∀ f o, f ≠ fd → h_file h' f o = h_file h f o) ∧ h_open h' fd = true;
  mkstemp_none h h' : h_mkstemp h = (None, h') → host_eq h h';
  ftruncate_ok h fd n h' : h_ftruncate h fd n = (true, h') → h_fsize h fd ≤ n →
    (∀ a, h_back h' a = h_back h a) ∧
    (∀ a, h_back h a ≠ None → h_mem h' a = h_mem h a) ∧
    (∀ f o, h_file h' f o = h_file h f o) ∧ (∀ f, h_open h' f = h_open h f) ∧
    (∀ f, h_fsize h' f = if f =? fd then n else h_fsize h f);
  ftruncate_fail h fd n h' : h_ftruncate h fd n = (false, h') → host_eq h h';
  mmap_some h hint n b p h' : h_mmap h hint n b = (Some p, h') →
    0 < n → n mod HOST_PAGE = 0 →
    0 < p ∧ p mod HOST_PAGE = 0 ∧ p + n ≤ 2^47 ∧
    (∀ a, p ≤ a < p + n → h_back h a = None) ∧
    (∀ a, h_back h' a = if in_range p n a then Some (back_at b (a - p)) else h_back h a) ∧
    (∀ a, h_back h a ≠ None → h_mem h' a = h_mem h a) ∧
    (∀ fd off a, b = Private fd off → p ≤ a < p + n →
       h_mem h' a = h_file h fd (off + (a - p))) ∧
    (∀ f o, h_file h' f o = h_file h f o) ∧
    (∀ f, h_open h' f = h_open h f) ∧ (∀ f, h_fsize h' f = h_fsize h f);
  mmap_none h hint n b h' : h_mmap h hint n b = (None, h') → host_eq h h';
  munmap_law h p n : p mod HOST_PAGE = 0 → 0 < n → n mod HOST_PAGE = 0 →
    let h' := h_munmap h p n in
    (∀ a, h_back h' a = if in_range p n a then None else h_back h a) ∧
    (∀ a, h_back h' a ≠ None → h_mem h' a = h_mem h a) ∧
    (∀ f o, h_file h' f o = h_file h f o) ∧
    (∀ f, h_open h' f = h_open h f) ∧ (∀ f, h_fsize h' f = h_fsize h f);
  pwrite_wrote h fd p n off r h' : h_pwrite h fd p n off = (Wrote r, h') →
    0 ≤ r ≤ n ∧ (∀ a, h_back h' a = h_back h a) ∧
    (∀ a, h_back h a ≠ None → backed_by fd (h_back h a) = false → h_mem h' a = h_mem h a) ∧
    (∀ f o, h_file h' f o =
       if (f =? fd) && in_range off r o then h_mem h (p + (o - off)) else h_file h f o) ∧
    (∀ f, h_open h' f = h_open h f) ∧
    (∀ f, h_fsize h' f =
       if (f =? fd) && (0 <? r) then Z.max (h_fsize h f) (off + r) else h_fsize h f);
  pwrite_eintr h fd p n off h' : h_pwrite h fd p n off = (WriteEintr, h') → host_eq h h';
  close_law h fd : let h' := h_close h fd in
    (∀ a, h_back h' a = h_back h a) ∧
    (∀ a, h_back h a ≠ None → h_mem h' a = h_mem h a) ∧
    (∀ f o, f ≠ fd → h_file h' f o = h_file h f o) ∧
    (∀ f, h_open h' f = if f =? fd then false else h_open h f) ∧
    (∀ f, f ≠ fd → h_fsize h' f = h_fsize h f);
  punchhole_law h fd off n : let h' := h_punchhole h fd off n in
    (∀ a, h_back h' a = h_back h a) ∧
    (∀ a, h_back h a ≠ None →
       (∀ d, 0 ≤ d < n → h_back h a ≠ Some (Private fd (off + d)) ∧
                         h_back h a ≠ Some (Shared fd (off + d))) →
       h_mem h' a = h_mem h a) ∧
    (∀ f o, (f =? fd) && in_range off n o = false → h_file h' f o = h_file h f o) ∧
    (∀ f, h_open h' f = h_open h f) ∧ (∀ f, h_fsize h' f = h_fsize h f);
  file_past_end h fd o : h_fsize h fd ≤ o → h_file h fd o = 0;
  realloc_bound h n : h_realloc h n = true → n ≤ 2^47;
}.

Lemma host_eq_refl {H} `{HostOps H} (h : H) : host_eq h h.
Proof. by repeat split. Qed.

(** * A concrete host

    Mappings are a log of requests, newest first, an entry without backing
    being an unmapping; addresses are handed out above everything the log
    mentions. It takes every request that fits the address space. *)

Record toy := mk_toy {
  t_log : list (Z * Z * option backing);
  t_mem : Z → Z;
  t_files : Z → Z → Z;
  t_sizes : Z → Z;
  t_fds : list Z;
}.

Definition toy_boot : toy :=
  mk_toy [] (λ _, 0) (λ _ _, 0) (λ _, 0) [].

Fixpoint log_back (l : list (Z * Z * option backing)) (a : Z) : option backing :=
  match l with
  | [] => None
  | (p, n, b) :: l => if in_range p n a then (λ b, back_at b (a - p)) <$> b else log_back l a
  end.

Fixpoint log_end (l : list (Z * Z * option backing)) : Z :=
  match l with
  | [] => 0x100000000
  | (p, n, _) :: l => Z.max (p + n) (log_end l)
  end.

Definition back_fd (b : option backing) : Z :=
  match b with Some (Private f _) | Some (Shared f _) => f | _ => 0 end.

Definition toy_fresh_fd (t : toy) : Z :=
  1 + foldr Z.max 2 (t_fds t ++ ((λ e, back_fd e.2) <$> t_log t)).

Definition toy_place (t : toy) (hint : Z) : Z :=
  let e := roundup (log_end (t_log t)) HOST_PAGE in
  if (log_end (t_log t) <=? hint) && (hint mod HOST_PAGE =? 0) then hint else e.

Definition toy_file (t : toy) (fd o : Z) : Z :=
  if o <? t_sizes t fd then t_files t fd o else 0.

(** Whole pages. *)
Definition toy_pages (n : Z) : Z := n + (- n) mod HOST_PAGE.

Definition toy_mmap (t : toy) (hint n : Z) (b : backing) : option Z * toy :=
  let p := toy_place t hint in
  let n := toy_pages n in
  if (log_end (t_log t) <=? p) && (p + n <=? 2^47) then
    (Some p,
     mk_toy ((p, n, Some b) :: t_log t)
       (λ a, if in_range p n a
             then match b with Private fd off => toy_file t fd (off + (a - p)) | _ => 0 end
             else t_mem t a)
       (t_files t) (t_sizes t) (t_fds t))
  else (None, t).

Definition toy_pwrite (t : toy) (fd p n off : Z) : write_result * toy :=
  if n <? 0 then (WriteError, t)
  else
    (Wrote n,
     mk_toy (t_log t) (t_mem t)
       (λ f o, if (f =? fd) && in_range off n o then t_mem t (p + (o - off)) else toy_file t f o)
       (λ f, if (f =? fd) && (0 <? n) then Z.max (t_sizes t f) (off + n) else t_sizes t f)
       (t_fds t)).

#[global] Instance toy_ops : HostOps toy := {|
  h_back t := log_back (t_log t);
  h_mem := t_mem;
  h_file := toy_file;
  h_open t fd := bool_decide (fd ∈ t_fds t);
  h_fsize := t_sizes;
  h_mkstemp t :=
    let fd := toy_fresh_fd t in
    (Some fd, mk_toy (t_log t) (t_mem t) (λ f, if f =? fd then λ _, 0 else t_files t f)
                (λ f, if f =? fd then 0 else t_sizes t f) (fd :: t_fds t));
  h_setfd t _ := true;
  h_close t fd := mk_toy (t_log t) (t_mem t) (t_files t) (t_sizes t)
                    (filter (λ f, f ≠ fd) (t_fds t));
  h_ftruncate t fd n :=
    (true, mk_toy (t_log t) (t_mem t) (toy_file t)
             (λ f, if f =? fd then n else t_sizes t f) (t_fds t));
  h_fstat t fd := bool_decide (fd ∈ t_fds t);
  h_mmap := toy_mmap;
  h_munmap t p n := mk_toy ((p, n, None) :: t_log t) (t_mem t) (t_files t) (t_sizes t) (t_fds t);
  h_pwrite := toy_pwrite;
  h_punchhole t fd off n :=
    mk_toy (t_log t) (t_mem t)
      (λ f o, if (f =? fd) && in_range off n o then 0 else t_files t f o)
      (t_sizes t) (t_fds t);
  h_realloc _ n := n <=? 2^47;
|}.

Lemma log_end_low l : 0x100000000 ≤ log_end l.
Proof. induction l as [|[[p n] b] l IH]; simpl; lia. Qed.

Lemma log_back_above l a : log_end l ≤ a → log_back l a = None.
Proof.
  induction l as [|[[p n] b] l IH]; simpl; [done|]. intros Ha.
  unfold in_range. destruct (a <? p + n) eqn:E; [bool_to_prop; lia|].
  rewrite andb_false_r. apply IH. lia.
Qed.

Lemma log_back_fd l a b :
  log_back l a = Some b → ∃ e, e ∈ l ∧ back_fd e.2 = back_fd (Some b).
Proof.
  induction l as [|[[p n] b'] l IH]; simpl; [done|].
  destruct (in_range p n a).
  - destruct b' as [b'|]; simpl; [|done]. intros [= <-].
    exists (p, n, Some b'). split; [left|]. by destruct b'.
  - intros (e & He & Hf)%IH. exists e. split; [by right|done].
Qed.

Lemma foldr_max_ge (l : list Z) x z : x ∈ l → x ≤ foldr Z.max z l.
Proof. induction 1; simpl; lia. Qed.

Lemma foldr_max_base (l : list Z) z : z ≤ foldr Z.max z l.
Proof. induction l; simpl; lia. Qed.

Lemma toy_fresh_back t a : backed_by (toy_fresh_fd t) (log_back (t_log t) a) = false.
Proof.
  destruct (log_back (t_log t) a) as [b|] eqn:E; [|done].
  apply log_back_fd in E as (e & He & Hf).
  assert (back_fd (Some b) < toy_fresh_fd t).
  { unfold toy_fresh_fd. rewrite <- Hf.
    pose proof (foldr_max_ge (t_fds t ++ ((λ e, back_fd e.2) <$> t_log t)) (back_fd e.2) 2).
    ospecialize (H _); [|lia]. apply elem_of_app. right. by apply (list_elem_of_fmap_2 (λ e, back_fd e.2)). }
  destruct b; simpl in *; try done; by apply Z.eqb_neq; lia.
Qed.

Lemma toy_fresh_closed t : toy_fresh_fd t ∉ t_fds t.
Proof.
  intros Hin. unfold toy_fresh_fd in *.
  pose proof (foldr_max_ge (t_fds t ++ ((λ e, back_fd e.2) <$> t_log t)) _ 2
    ltac:(apply elem_of_app; left; exact Hin)). lia.
Qed.

Lemma toy_place_ok t hint :
  log_end (t_log t) ≤ toy_place t hint → toy_place t hint mod HOST_PAGE = 0.
Proof.
  unfold toy_place. case_bool; [by bool_to_prop|]. intros _.
  unfold roundup. apply Z.mod_mul. done.
Qed.

Lemma toy_file_past t fd o : t_sizes t fd ≤ o → toy_file t fd o = 0.
Proof. intros. unfold toy_file. by rewrite (proj2 (Z.ltb_ge _ _)). Qed.

(** Growing a file over its old contents shows the old contents. *)
Lemma toy_file_grow t lg m sz fds fd o :
  t_sizes t fd ≤ sz fd → toy_file (mk_toy lg m (toy_file t) sz fds) fd o = toy_file t fd o.
Proof.
  intros. unfold toy_file at 1. simpl. destruct (o <? sz fd) eqn:E; [done|].
  bool_to_prop. by rewrite toy_file_past by lia.
Qed.

Lemma toy_mkstemp_law t :
  let fd := toy_fresh_fd t in let t' := (h_mkstemp t).2 in
  0 ≤ fd ∧ h_open t fd = false ∧ h_fsize t' fd = 0 ∧ (∀ o, h_file t' fd o = 0) ∧
  (∀ a, h_back t' a = h_back t a ∧ backed_by fd (h_back t a) = false) ∧
  (∀ a, h_back t a ≠ None → h_mem t' a = h_mem t a) ∧
  (∀ f, f ≠ fd → h_open t' f = h_open t f ∧ h_fsize t' f = h_fsize t f) ∧
  (∀ f o, f ≠ fd → h_file t' f o = h_file t f o) ∧ h_open t' fd = true.
Proof.
  simpl. pose proof (toy_fresh_closed t).
  pose proof (foldr_max_base (t_fds t ++ ((λ e, back_fd e.2) <$> t_log t)) 2).
  rewrite Z.eqb_refl. split; [unfold toy_fresh_fd; lia|].
  split; [by apply bool_decide_eq_false|]. split; [done|].
  split; [intros o; unfold toy_file; simpl; rewrite Z.eqb_refl; by destruct (o <? 0)|].
  split; [intros a; split; [done|apply toy_fresh_back]|]. split; [done|].
  split; [intros f Hf; split|].
  - apply bool_decide_ext. rewrite elem_of_cons. naive_solver.
  - by rewrite (proj2 (Z.eqb_neq _ _)).
  - split; [|apply bool_decide_eq_true; left].
    intros f o Hf. unfold toy_file. simpl. by rewrite (proj2 (Z.eqb_neq _ _)).
Qed.

Lemma toy_mmap_law t hint n b p t' :
  toy_mmap t hint n b = (Some p, t') → 0 < n →
  let n := toy_pages n in
  0 < p ∧ p mod HOST_PAGE = 0 ∧ p + n ≤ 2^47 ∧
  (∀ a, p ≤ a < p + n → h_back t a = None) ∧
  (∀ a, h_back t' a = if in_range p n a then Some (back_at b (a - p)) else h_back t a) ∧
  (∀ a, h_back t a ≠ None → h_mem t' a = h_mem t a) ∧
  (∀ fd off a, b = Private fd off → p ≤ a < p + n →
     h_mem t' a = h_file t fd (off + (a - p))).
Proof.
  intros Hm Hn0. assert (0 < toy_pages n) as Hn by (unfold toy_pages; pose proof (Z.mod_pos_bound (- n) HOST_PAGE eq_refl); lia).
  revert Hm. cbv zeta. unfold toy_mmap. cbv zeta. generalize dependent (toy_pages n). clear n Hn0. intros n Hn.
  destruct (_ && _) eqn:E; [|done]. intros [= <- <-]. bool_to_prop.
  pose proof (log_end_low (t_log t)). pose proof (toy_place_ok t hint).
  simpl. split; [lia|]. split; [auto|]. split; [lia|]. split; [|split; [done|split]].
  - intros a Ha. apply log_back_above. lia.
  - intros a Ha. destruct (in_range _ _ a) eqn:Ei; [|done].
    unfold in_range in Ei. bool_to_prop. rewrite log_back_above in Ha by lia. done.
  - intros fd off a -> Ha. unfold in_range.
    by rewrite !(proj2 (Z.leb_le _ _)), (proj2 (Z.ltb_lt _ _)) by lia.
Qed.

Lemma toy_pwrite_file t fd p n off f o :
  0 ≤ n →
  h_file (toy_pwrite t fd p n off).2 f o =
  if (f =? fd) && in_range off n o then h_mem t (p + (o - off)) else h_file t f o.
Proof.
  intros Hn. unfold toy_pwrite. rewrite (proj2 (Z.ltb_ge n 0)) by lia. simpl.
  unfold toy_file at 1. simpl. unfold in_range.
  destruct (f =? fd) eqn:Ef; simpl.
  2: { destruct (o <? _) eqn:Eo; [done|]. bool_to_prop. by rewrite toy_file_past. }
  destruct ((off <=? o) && (o <? off + n)) eqn:Ei.
  - bool_to_prop. rewrite (proj2 (Z.ltb_lt 0 n)), (proj2 (Z.ltb_lt o _)) by lia. done.
  - destruct (0 <? n); case_bool; try done; bool_to_prop; by rewrite toy_file_past by lia.
Qed.

#[global] Instance toy_laws : HostLaws toy.
Proof.
  split.
  - intros t fd h' Hm. pose proof (toy_mkstemp_law t) as Hl. rewrite Hm in Hl.
    injection Hm as <- _. exact Hl.
  - done.
  - intros t fd n h' [= <-] Hn. simpl in *. repeat split; try done.
    intros f o. apply toy_file_grow. destruct (f =? fd) eqn:E; bool_to_prop; subst; lia.
  - done.
  - intros t hint n b p h' Hm Hn Hnm. pose proof (toy_mmap_law _ _ _ _ _ _ Hm Hn).
    assert (toy_pages n = n) as En by (unfold toy_pages; apply Z.mod_opp_l_z in Hnm; [lia|done]).
    unfold h_mmap in Hm. simpl in Hm. unfold toy_mmap in Hm. cbv zeta in *. rewrite En in *.
    destruct (_ && _); [|done]. injection Hm as <- <-.
    repeat match goal with H : _ ∧ _ |- _ => destruct H end. repeat split; try done; lia.
  - intros t hint n b h' Hm. simpl in Hm. unfold toy_mmap in Hm. destruct (_ && _); [done|].
    injection Hm as <-. apply host_eq_refl.
  - intros t p n _ _ _. repeat split; try done.
  - intros t fd p n off r h' Hw. simpl in Hw. pose proof (toy_pwrite_file t fd p n off) as Hf.
    unfold toy_pwrite in *. destruct (n <? 0) eqn:E; [done|]. injection Hw as <- <-. bool_to_prop.
    split; [lia|]. repeat split; try done. intros f o. apply Hf; lia.
  - intros t fd p n off h' Hw. simpl in Hw. unfold toy_pwrite in Hw. by destruct (n <? 0).
  - intros t fd. repeat split; try done. intros f. simpl.
    destruct (f =? fd) eqn:E; bool_to_prop.
    + apply bool_decide_eq_false. subst. rewrite list_elem_of_filter. naive_solver.
    + apply bool_decide_ext. rewrite list_elem_of_filter. naive_solver.
  - intros t fd off n. repeat split; try done. intros f o Hf. simpl. unfold toy_file. simpl. by rewrite Hf.
  - intros t fd o Ho. by apply toy_file_past.
  - intros t n Hn. by apply Z.leb_le.
Qed.

(** * Descriptors, stores and paging advice

    The remaining calls of src/mm/mm.c, src/mm/mmap.c and src/base.c. A call
    that fails answers [None] (or [false]) and leaves its reason in
    [h_errno], in the host's own numbering. A path is an abstract name. *)
Class HostIO (H : Type) := {
  h_errno : H → Z;
  h_dup : H → Z → option Z * H;
  h_getfl : H → Z → option Z;
  h_getpath : H → Z → option Z;
  h_fdid : H → Z → option (Z * Z);
  h_openrw : H → Z → option Z * H;
  h_pread : H → Z → Z → Z → Z → option Z * H;
  h_store : H → Z → list Z → H;
  h_mlock : H → Z → Z → bool * H;
  h_munlock : H → Z → Z → bool * H;
  h_msync : H → Z → Z → Z → bool * H;
  h_mincore : H → Z → Z → option (list Z) * H;
  h_icache : H → Z → Z → H;
}.

(** Two addresses that show the same byte of a shared file. *)
Definition aliased {H} `{HostOps H} (h : H) (a b : Z) : Prop :=
  ∃ fd o, h_back h a = Some (Shared fd o) ∧ h_back h b = Some (Shared fd o).

(** A new descriptor for an open file: [fd] was free, everything else is as it
    was. *)
Definition new_fd {H} `{HostOps H} (h : H) (fd : Z) (h' : H) : Prop :=
  0 ≤ fd ∧ h_open h fd = false ∧ h_open h' fd = true ∧
  (∀ a, h_back h' a = h_back h a) ∧
  (∀ a, h_back h a ≠ None → h_mem h' a = h_mem h a) ∧
  (∀ f, f ≠ fd → h_open h' f = h_open h f ∧ h_fsize h' f = h_fsize h f) ∧
  (∀ f o, f ≠ fd → h_file h' f o = h_file h f o).

(** Memory [p, p + n) has taken the bytes [v 0, v 1, ...]: a byte elsewhere is
    as it was unless a shared file shows it the change, and so is every file
    that is not mapped shared there. *)
Record stored {H} `{HostOps H} (h : H) (p n : Z) (v : Z → Z) (h' : H) : Prop := {
  st_back a : h_back h' a = h_back h a;
  st_mem a : h_back h a ≠ None → (∀ b, p ≤ b < p + n → b ≠ a → ¬ aliased h b a) →
    h_mem h' a = if in_range p n a then v (a - p) else h_mem h a;
  st_file f o : (∀ b, p ≤ b < p + n → h_back h b ≠ Some (Shared f o)) →
    h_file h' f o = h_file h f o;
  st_open f : h_open h' f = h_open h f;
  st_fsize f : h_fsize h' f = h_fsize h f;
}.

Definition host_pages (p n : Z) : Z := (p mod HOST_PAGE + n + HOST_PAGE - 1) / HOST_PAGE.

Class HostIOLaws (H : Type) `{HostOps H, HostIO H} := {
  dup_some h fd d h' : h_dup h fd = (Some d, h') → new_fd h d h';
  dup_none h fd h' : h_dup h fd = (None, h') → host_eq h h';
  openrw_some h path d h' : h_openrw h path = (Some d, h') → new_fd h d h';
  openrw_none h path h' : h_openrw h path = (None, h') → host_eq h h';
  pread_some h fd p n off r h' : h_pread h fd p n off = (Some r, h') →
    0 ≤ r ≤ n ∧ stored h p r (λ d, h_file h fd (off + d)) h';
  pread_none h fd p n off h' : h_pread h fd p n off = (None, h') → host_eq h h';
  store_law h p l : stored h p (Z.of_nat (length l)) (λ d, l !!! Z.to_nat d) (h_store h p l);
  mmap_shared h hint n fd off p h' : h_mmap h hint n (Shared fd off) = (Some p, h') → 0 < n →
    ∃ pages, n ≤ pages ∧ pages mod HOST_PAGE = 0 ∧ 0 < p ∧ p mod HOST_PAGE = 0 ∧
    (∀ a, p ≤ a < p + pages → h_back h a = None) ∧
    (∀ a, h_back h' a = if in_range p pages a then Some (Shared fd (off + (a - p))) else h_back h a) ∧
    (∀ a, h_back h a ≠ None → h_mem h' a = h_mem h a) ∧
    (∀ f o, h_file h' f o = h_file h f o) ∧
    (∀ f, h_open h' f = h_open h f) ∧ (∀ f, h_fsize h' f = h_fsize h f);
  mlock_law h p n b h' : h_mlock h p n = (b, h') → host_eq h h';
  munlock_law h p n b h' : h_munlock h p n = (b, h') → host_eq h h';
  msync_law h p n f b h' : h_msync h p n f = (b, h') → host_eq h h';
  mincore_law h p n v h' : h_mincore h p n = (v, h') → host_eq h h';
  mincore_length h p n v h' : h_mincore h p n = (Some v, h') →
    Z.of_nat (length v) = host_pages p n;
  icache_law h p n : host_eq h (h_icache h p n);
}.

(** The concrete host's descriptors are all readable and writable, its files
    have no names, every mapped page is resident. *)
Definition toy_dup (t : toy) (fd : Z) : option Z * toy :=
  if bool_decide (fd ∈ t_fds t) then
    let d := toy_fresh_fd t in
    (Some d, mk_toy (t_log t) (t_mem t) (λ f, if f =? d then t_files t fd else t_files t f)
               (λ f, if f =? d then t_sizes t fd else t_sizes t f) (d :: t_fds t))
  else (None, t).

Definition toy_store (t : toy) (p n : Z) (v : Z → Z) : toy :=
  mk_toy (t_log t) (λ a, if in_range p n a then v (a - p) else t_mem t a)
    (t_files t) (t_sizes t) (t_fds t).

#[global] Instance toy_io : HostIO toy := {|
  h_errno _ := 9;
  h_dup := toy_dup;
  h_getfl t fd := if bool_decide (fd ∈ t_fds t) then Some 2 else None;
  h_getpath _ _ := None;
  h_fdid t fd := if bool_decide (fd ∈ t_fds t) then Some (1, fd) else None;
  h_openrw t _ := (None, t);
  h_pread t fd p n off :=
    if bool_decide (fd ∈ t_fds t) && (0 <=? n)
    then (Some n, toy_store t p n (λ d, toy_file t fd (off + d))) else (None, t);
  h_store t p l := toy_store t p (Z.of_nat (length l)) (λ d, l !!! Z.to_nat d);
  h_mlock t _ _ := (true, t);
  h_munlock t _ _ := (true, t);
  h_msync t _ _ _ := (true, t);
  h_mincore t p n := if 0 <=? n then (Some (replicate (Z.to_nat (host_pages p n)) 1), t) else (None, t);
  h_icache t _ _ := t;
|}.

Lemma toy_store_law t p n v : stored t p n v (toy_store t p n v).
Proof. by split. Qed.

#[global] Instance toy_io_laws : HostIOLaws toy.
Proof.
  split; simpl; try (intros; simplify_eq; apply host_eq_refl).
  - intros t fd d h'. unfold toy_dup. destruct (bool_decide _); [|done]. intros [= <- <-].
    destruct (toy_mkstemp_law t) as (? & ? & _ & _ & _ & _ & Ho & Hf & ?).
    unfold new_fd. simpl in *. do 3 (split; [done|]). do 2 (split; [done|]). split.
    + intros f Hne. split; [by apply Ho|]. by rewrite (proj2 (Z.eqb_neq _ _)).
    + intros f o Hne. unfold toy_file. simpl. by rewrite (proj2 (Z.eqb_neq _ _)).
  - intros t fd h'. unfold toy_dup. destruct (bool_decide _); [done|]. intros [= <-]. apply host_eq_refl.
  - intros t fd p n off r h'. destruct (_ && _) eqn:E; [|done]. intros [= <- <-]. bool_to_prop.
    split; [lia|]. apply toy_store_law.
  - intros t fd p n off h'. destruct (_ && _); [done|]. intros [= <-]. apply host_eq_refl.
  - intros. apply toy_store_law.
  - intros t hint n fd off p h' Hm Hn. pose proof (toy_mmap_law _ _ _ _ _ _ Hm Hn) as Hl. cbv zeta in Hl.
    exists (toy_pages n). unfold toy_pages at 1 2.
    pose proof (Z.mod_pos_bound (- n) HOST_PAGE eq_refl). split; [lia|].
    split. { rewrite Z.add_mod_idemp_r by done. by rewrite Z.add_opp_diag_r. }
    unfold toy_mmap in Hm. cbv zeta in Hm. destruct (_ && _); [|done]. injection Hm as <- <-.
    destruct Hl as (? & ? & _ & ? & ? & ? & _). repeat split; done.
  - intros t p n v h'. destruct (0 <=? n); intros [= <- <-]; apply host_eq_refl.
  - intros t p n v h'. destruct (0 <=? n) eqn:E; [|done]. intros [= <- <-]. bool_to_prop.
    rewrite length_replicate, Z2Nat.id; [done|]. unfold host_pages.
    pose proof (Z.mod_pos_bound p HOST_PAGE eq_refl). apply Z.div_pos; unfold HOST_PAGE in *; lia.
Qed.
