(* ===== verification/Arena.v ===== *)
(** The guest-physical memory arena, src/mm/arena.c: the table of live spans,
    allocation, release, the handover copy and the resumed process's private
    mappings. The host's calls come through [HostOps]. [off_t] arithmetic is
    over the integers where the code stays in [off_t] and truncated where it
    passes through [size_t]. *)

From S2P Require Import Prelude Host.

Definition ARENA_GRANULE : Z := 0x4000.
Definition ARENA_GROW_STEP : Z := Z.shiftl 4 20.
Definition ARENA_INIT_SPANS : Z := 1024.
Definition ARENA_WRITE_MAX : Z := Z.shiftl 1 30.

(** [sizeof(struct arena_span)]. *)
Definition sizeof_arena_span : Z := 32.

Record arena_span := mk_span {
  sp_addr : Z;
  sp_size : Z;
  sp_off : Z;
  sp_priv : bool;
}.

#[global] Instance arena_span_eq_dec : EqDecision arena_span.
Proof. solve_decision. Defined.

(** The file's static variables; [nr_arena_spans] is the length of the list. *)
Record arena := mk_arena {
  arena_backing_fd : Z;
  arena_brk : Z;
  arena_capacity : Z;
  arena_spans : list arena_span;
  arena_spans_cap : Z;
}.

Definition arena_boot : arena := mk_arena (-1) 0 0 [] 0.

Definition set_spans (l : list arena_span) (a : arena) : arena :=
  mk_arena (arena_backing_fd a) (arena_brk a) (arena_capacity a) l (arena_spans_cap a).
Definition set_brk (b : Z) (a : arena) : arena :=
  mk_arena (arena_backing_fd a) b (arena_capacity a) (arena_spans a) (arena_spans_cap a).
Definition set_capacity (c : Z) (a : arena) : arena :=
  mk_arena (arena_backing_fd a) (arena_brk a) c (arena_spans a) (arena_spans_cap a).
Definition set_cap (c : Z) (a : arena) : arena :=
  mk_arena (arena_backing_fd a) (arena_brk a) (arena_capacity a) (arena_spans a) c.

Definition sp_end (s : arena_span) : Z := sp_off s + sp_size s.

(** [hi <= slo || lo >= shi], negated. *)
Definition overlaps (lo hi : Z) (s : arena_span) : bool :=
  negb ((hi <=? sp_off s) || (sp_end s <=? lo)).

Section Arena.
Context {H : Type} `{HostOps H}.

Definition arena_span_record (h : H) (addr size off : Z) (priv : bool) (a : arena)
  : outcome arena :=
  a ←
    (if Z.of_nat (length (arena_spans a)) =? arena_spans_cap a then
       let want := if arena_spans_cap a =? 0 then ARENA_INIT_SPANS
                   else u64 (arena_spans_cap a * 2) in
       if h_realloc h (u64 (want * sizeof_arena_span)) then Ret (set_cap want a)
       else Stop NoMemory
     else Ret a);
  Ret (set_spans (arena_spans a ++ [mk_span addr size off priv]) a).

(** The loop of [arena_span_forget], at index [i]. *)
Fixpoint forget_loop (fuel : nat) (h : H) (lo hi : Z) (i : nat) (a : arena)
  : outcome arena :=
  match fuel with
  | O => Stop OutOfFuel
  | S fuel =>
      match arena_spans a !! i with
      | None => Ret a
      | Some s =>
          let slo := sp_off s in
          let shi := sp_end s in
          let put s' := set_spans (<[i := s']> (arena_spans a)) a in
          if (hi <=? slo) || (lo >=? shi) then forget_loop fuel h lo hi (S i) a
          else if (lo <=? slo) && (hi >=? shi) then
            forget_loop fuel h lo hi i (set_spans (swap_remove i (arena_spans a)) a)
          else if lo <=? slo then
            let cut := hi - slo in
            forget_loop fuel h lo hi (S i)
              (put (mk_span (sp_addr s + cut) (sp_size s - cut) (sp_off s + cut) (sp_priv s)))
          else if hi >=? shi then
            forget_loop fuel h lo hi (S i)
              (put (mk_span (sp_addr s) (lo - slo) (sp_off s) (sp_priv s)))
          else
            a' ← arena_span_record h (sp_addr s + (hi - slo)) (shi - hi) hi (sp_priv s)
                   (put (mk_span (sp_addr s) (lo - slo) (sp_off s) (sp_priv s)));
            forget_loop fuel h lo hi (S i) a'
      end
  end.

(** Each span is visited once and a hole adds one span that is then skipped. *)
Definition forget_fuel (a : arena) : nat := S (2 * length (arena_spans a)).

Definition arena_span_forget (h : H) (off size : Z) (a : arena) : outcome arena :=
  forget_loop (forget_fuel a) h off (off + size) 0 a.

Fixpoint spans_offset_of (l : list arena_span) (addr : Z) : Z :=
  match l with
  | [] => -1
  | s :: l =>
      if (sp_addr s <=? addr) && (addr <? sp_addr s + sp_size s)
      then sp_off s + (addr - sp_addr s)
      else spans_offset_of l addr
  end.

Definition arena_offset_of (a : arena) (addr : Z) : Z := spans_offset_of (arena_spans a) addr.

(** [None] is the null pointer. *)
Fixpoint spans_hva_of (l : list arena_span) (off : Z) : option Z :=
  match l with
  | [] => None
  | s :: l =>
      if (sp_off s <=? off) && (off <? sp_end s)
      then Some (sp_addr s + (off - sp_off s))
      else spans_hva_of l off
  end.

Definition arena_hva_of (a : arena) (off : Z) : option Z := spans_hva_of (arena_spans a) off.

Definition arena_span_forget_addr (h : H) (addr size : Z) (a : arena) : outcome arena :=
  let off := arena_offset_of a addr in
  if 0 <=? off then arena_span_forget h off size a else Ret a.

Definition arena_unmap (addr size : Z) (a : arena) (h : H) : outcome (arena * H) :=
  let size := roundup size ARENA_GRANULE in
  a ← arena_span_forget_addr h addr size a;
  Ret (a, h_munmap h addr size).

Definition arena_fd (a : arena) : Z := arena_backing_fd a.

Definition arena_init (a : arena) (h : H) : outcome (arena * H) :=
  if 0 <=? arena_backing_fd a then Ret (a, h)
  else
    match h_mkstemp h with
    | (None, _) => Stop NoMemory
    | (Some fd, h) =>
        if h_setfd h fd
        then Ret (mk_arena fd 0 0 (arena_spans a) (arena_spans_cap a), h)
        else Stop NoMemory
    end.

(** The result is the host address and the offset. *)
Definition arena_alloc (size : Z) (a : arena) (h : H) : outcome (Z * Z * arena * H) :=
  '(a, h) ← (if arena_backing_fd a <? 0 then arena_init a h else Ret (a, h));
  let size := roundup size ARENA_GRANULE in
  let off := arena_brk a in
  let a := set_brk (s64 (arena_brk a + size)) a in
  '(a, h) ←
    (if arena_capacity a <? arena_brk a then
       let want := s64 (roundup (u64 (arena_brk a)) ARENA_GROW_STEP) in
       match h_ftruncate h (arena_backing_fd a) want with
       | (true, h) => Ret (set_capacity want a, h)
       | (false, _) => Stop NoMemory
       end
     else Ret (a, h));
  match h_mmap h 0 size (Private (arena_backing_fd a) off) with
  | (None, _) => Stop NoMemory
  | (Some p, h) =>
      a ← arena_span_record h p size off false a;
      Ret (p, off, a, h)
  end.

(** The first span at [haddr] and [off] takes the new size. *)
Fixpoint resize_span (haddr off size : Z) (l : list arena_span) : option (list arena_span) :=
  match l with
  | [] => None
  | s :: l =>
      if (sp_addr s =? haddr) && (sp_off s =? off)
      then Some (mk_span (sp_addr s) size (sp_off s) (sp_priv s) :: l)
      else cons s <$> resize_span haddr off size l
  end.

(** [haddr = 0] is the null pointer, as is the result [None]. *)
Definition arena_extend (off old_size new_size haddr : Z) (a : arena) (h : H)
  : outcome (option Z * arena * H) :=
  if (arena_backing_fd a <? 0) || (haddr =? 0) then Ret (None, a, h)
  else
    let old_r := roundup old_size ARENA_GRANULE in
    let new_r := roundup new_size ARENA_GRANULE in
    if new_r <=? old_r then Ret (Some haddr, a, h)
    else if negb (off + old_r =? arena_brk a) then Ret (None, a, h)
    else
      let add := new_r - old_r in
      let want_end := arena_brk a + add in
      let '(ok, a, h) :=
        if arena_capacity a <? want_end then
          let want := s64 (roundup (u64 want_end) ARENA_GROW_STEP) in
          match h_ftruncate h (arena_backing_fd a) want with
          | (true, h) => (true, set_capacity want a, h)
          | (false, h) => (false, a, h)
          end
        else (true, a, h) in
      if negb ok then Ret (None, a, h)
      else
        let hint := haddr + old_r in
        match h_mmap h hint add (Private (arena_backing_fd a) (arena_brk a)) with
        | (None, h) => Ret (None, a, h)
        | (Some p, h) =>
            if negb (p =? hint) then Ret (None, a, h_munmap h p add)
            else
              let a := set_brk want_end a in
              match resize_span haddr off new_r (arena_spans a) with
              | Some l => Ret (Some haddr, set_spans l a, h)
              | None =>
                  a ← arena_span_record h p add (arena_brk a - add) false a;
                  Ret (Some haddr, a, h)
              end
        end.

Definition arena_free (off size : Z) (a : arena) (h : H) : outcome (arena * H) :=
  if arena_backing_fd a <? 0 then Ret (a, h)
  else
    let size := roundup size ARENA_GRANULE in
    a ← arena_span_forget h off size a;
    Ret (a, h_punchhole h (arena_backing_fd a) off size).

(** The copy of one span: [left] bytes at [p] to [off]; [false] is the error
    return. *)
Fixpoint write_span (fuel : nat) (fd p left off : Z) (h : H) : outcome (bool * H) :=
  if 0 <? left then
    match fuel with
    | O => Stop OutOfFuel
    | S fuel =>
        let want := if ARENA_WRITE_MAX <? left then ARENA_WRITE_MAX else left in
        match h_pwrite h fd p want off with
        | (WriteEintr, h) => write_span fuel fd p left off h
        | (WriteError, h) => Ret (false, h)
        | (Wrote n, h) => write_span fuel fd (p + n) (left - n) (off + n) h
        end
    end
  else Ret (true, h).

Fixpoint write_spans (fuel : nat) (fd : Z) (l : list arena_span) (h : H)
  : outcome (bool * H) :=
  match l with
  | [] => Ret (true, h)
  | s :: l =>
      '(ok, h) ← write_span fuel fd (sp_addr s) (sp_size s) (sp_off s) h;
      if (ok : bool) then write_spans fuel fd l h else Ret (false, h)
  end.

(** [fuel] bounds the calls to [pwrite] one span may take. *)
Definition arena_snapshot (fuel : nat) (a : arena) (h : H) : outcome (Z * H) :=
  match h_mkstemp h with
  | (None, h) => Ret (-1, h)
  | (Some fd, h) =>
      match h_ftruncate h fd (arena_capacity a) with
      | (false, h) => Ret (-1, h_close h fd)
      | (true, h) =>
          '(ok, h) ← write_spans fuel fd (arena_spans a) h;
          if (ok : bool) then Ret (fd, h) else Ret (-1, h_close h fd)
      end
  end.

(** A private span that holds all of [block, block + size). *)
Fixpoint find_containing (block size : Z) (l : list arena_span) : option arena_span :=
  match l with
  | [] => None
  | s :: l =>
      if sp_priv s && (block >=? sp_off s) && (block + size <=? sp_end s) then Some s
      else find_containing block size l
  end.

(** The second loop of [arena_map_private]: private spans that overlap the
    range are unmapped and the range grows over them. *)
Fixpoint merge_loop (fuel : nat) (i : nat) (lo hi : Z) (l : list arena_span) (h : H)
  : outcome (Z * Z * list arena_span * H) :=
  match fuel with
  | O => Stop OutOfFuel
  | S fuel =>
      match l !! i with
      | None => Ret (lo, hi, l, h)
      | Some s =>
          if negb (sp_priv s) then merge_loop fuel (S i) lo hi l h
          else if (hi <=? sp_off s) || (lo >=? sp_end s) then merge_loop fuel (S i) lo hi l h
          else
            let lo := if sp_off s <? lo then sp_off s else lo in
            let hi := if sp_end s >? hi then sp_end s else hi in
            merge_loop fuel i lo hi (swap_remove i l) (h_munmap h (sp_addr s) (sp_size s))
      end
  end.

Definition arena_map_private (off size : Z) (a : arena) (h : H) : outcome (Z * arena * H) :=
  if arena_backing_fd a <? 0 then Stop Panicked
  else
    let block := align_down 14 off in
    let block_size := roundup (u64 (off - block + size)) ARENA_GRANULE in
    match find_containing block block_size (arena_spans a) with
    | Some s => Ret (sp_addr s + (off - sp_off s), a, h)
    | None =>
        '(lo, hi, l, h) ← merge_loop (S (length (arena_spans a))) 0 block
                            (block + block_size) (arena_spans a) h;
        match h_mmap h 0 (hi - lo) (Private (arena_backing_fd a) lo) with
        | (None, _) => Stop NoMemory
        | (Some p, h) =>
            a ← arena_span_record h p (hi - lo) lo true (set_spans l a);
            Ret (p + (off - lo), a, h)
        end
    end.

Definition arena_adopt (fd : Z) (a : arena) (h : H) : outcome arena :=
  if h_fstat h fd
  then Ret (mk_arena fd (h_fsize h fd) (h_fsize h fd) (arena_spans a) (arena_spans_cap a))
  else Stop NoMemory.

End Arena.

(** * What forgetting a range does to the table *)

(** What is left of a span when [lo, hi) is taken out of it. *)
Definition cut (lo hi : Z) (s : arena_span) : list arena_span :=
  let head := mk_span (sp_addr s) (lo - sp_off s) (sp_off s) (sp_priv s) in
  let tail := mk_span (sp_addr s + (hi - sp_off s)) (sp_end s - hi) hi (sp_priv s) in
  if negb (overlaps lo hi s) then [s]
  else (if sp_off s <? lo then [head] else []) ++ (if hi <? sp_end s then [tail] else []).

(** Offset [o] is mapped at address [x], by a private or an owned span. *)
Definition maps (l : list arena_span) (o x : Z) (priv : bool) : Prop :=
  ∃ s, s ∈ l ∧ sp_off s ≤ o < sp_end s ∧ x = sp_addr s + (o - sp_off s) ∧ priv = sp_priv s.

(** The static variables other than the table. *)
Definition arena_hdr (a : arena) : Z * Z * Z := (arena_backing_fd a, arena_brk a, arena_capacity a).

Definition cap_ok (a : arena) : Prop :=
  Z.of_nat (length (arena_spans a)) ≤ arena_spans_cap a ≤ 2^42.

Definition visits (lo hi : Z) (l : list arena_span) : nat :=
  sum_list_with (λ s, if overlaps lo hi s then 2%nat else 1%nat) l.

Lemma visits_le lo hi l : (visits lo hi l ≤ 2 * length l)%nat.
Proof. unfold visits. induction l as [|s l IH]; simpl; [lia|]. destruct (overlaps _ _ _); lia. Qed.

Lemma visits_perm lo hi l k : l ≡ₚ k → visits lo hi l = visits lo hi k.
Proof. unfold visits. induction 1; simpl; lia. Qed.

Section ArenaFacts.
Context {H : Type} `{HL : HostLaws H}.
Implicit Types (a : arena) (h : H).

Lemma record_spec h addr size off priv a :
  match arena_span_record h addr size off priv a with
  | Ret a' => arena_spans a' = arena_spans a ++ [mk_span addr size off priv] ∧
              arena_hdr a' = arena_hdr a ∧ (cap_ok a → cap_ok a')
  | Stop w => w = NoMemory ∧ ∃ n, h_realloc h n = false
  end.
Proof.
  unfold arena_span_record, cap_ok. destruct (_ =? arena_spans_cap a) eqn:Hc; simpl.
  - destruct (h_realloc h _) eqn:Hr; simpl; [|eauto].
    split; [done|]. split; [done|]. intros Hcap. bool_to_prop.
    apply realloc_bound in Hr. rewrite length_app; simpl.
    destruct (arena_spans_cap a =? 0) eqn:E; bool_to_prop; [unfold ARENA_INIT_SPANS in *; lia|].
    unfold sizeof_arena_span in *. rewrite (u64_small (_ * 2)) in Hr |- * by lia.
    rewrite u64_small in Hr by lia. lia.
  - split; [done|]. split; [done|]. intros Hcap. bool_to_prop.
    rewrite length_app; simpl. lia.
Qed.

(** The table around entry [i], before and after it is overwritten. *)
Lemma split_at {A} (l : list A) i x :
  l !! i = Some x → take (S i) l = take i l ++ [x] ∧ drop i l = x :: drop (S i) l.
Proof. intros Hl. split; [by apply take_S_r|by rewrite (drop_S _ x)]. Qed.

Lemma split_put {A} (l : list A) i x y :
  l !! i = Some x →
  take (S i) (<[i := y]> l) = take i l ++ [y] ∧ drop (S i) (<[i := y]> l) = drop (S i) l.
Proof.
  intros Hl. pose proof (lookup_lt_Some _ _ _ Hl). split.
  - rewrite (take_S_r _ _ y), take_insert_ge; [done|lia|].
    by apply list_lookup_insert_eq.
  - by rewrite drop_insert_lt by lia.
Qed.

Lemma overlaps_eq lo hi s :
  overlaps lo hi s = negb ((hi <=? sp_off s) || (lo >=? sp_end s)).
Proof. unfold overlaps. by rewrite Z.geb_leb. Qed.

Lemma cut_whole lo hi s : overlaps lo hi s = true → lo ≤ sp_off s → sp_end s ≤ hi → cut lo hi s = [].
Proof.
  intros Ho H1 H2. unfold cut. rewrite Ho; simpl.
  by rewrite !(proj2 (Z.ltb_ge _ _)) by lia.
Qed.

Lemma cut_prefix lo hi s :
  overlaps lo hi s = true → lo ≤ sp_off s → hi < sp_end s →
  cut lo hi s = [mk_span (sp_addr s + (hi - sp_off s)) (sp_size s - (hi - sp_off s))
                   (sp_off s + (hi - sp_off s)) (sp_priv s)].
Proof.
  intros Ho H1 H2. unfold cut. rewrite Ho; simpl.
  rewrite (proj2 (Z.ltb_ge _ _)), (proj2 (Z.ltb_lt _ _)) by lia. simpl.
  unfold sp_end. do 2 f_equal; lia.
Qed.

Lemma cut_suffix lo hi s :
  overlaps lo hi s = true → sp_off s < lo → sp_end s ≤ hi →
  cut lo hi s = [mk_span (sp_addr s) (lo - sp_off s) (sp_off s) (sp_priv s)].
Proof.
  intros Ho H1 H2. unfold cut. rewrite Ho; simpl.
  by rewrite (proj2 (Z.ltb_lt _ _)), (proj2 (Z.ltb_ge _ _)) by lia.
Qed.

Lemma cut_hole lo hi s :
  overlaps lo hi s = true → sp_off s < lo → hi < sp_end s →
  cut lo hi s = [mk_span (sp_addr s) (lo - sp_off s) (sp_off s) (sp_priv s);
                 mk_span (sp_addr s + (hi - sp_off s)) (sp_end s - hi) hi (sp_priv s)].
Proof.
  intros Ho H1 H2. unfold cut. rewrite Ho; simpl.
  by rewrite !(proj2 (Z.ltb_lt _ _)) by lia.
Qed.

Lemma cut_outside lo hi s : overlaps lo hi s = false → cut lo hi s = [s].
Proof. unfold cut. by intros ->. Qed.

(** The outcome of forgetting: a permutation of [want], or the panic of a
    table that could not grow. *)
Definition forgot (h : H) (a : arena) (want : list arena_span) (out : outcome arena) : Prop :=
  match out with
  | Ret a' => arena_spans a' ≡ₚ want ∧ arena_hdr a' = arena_hdr a ∧ (cap_ok a → cap_ok a')
  | Stop w => w = NoMemory ∧ ∃ n, h_realloc h n = false
  end.

Lemma forgot_step h a a2 want want2 out :
  forgot h a2 want2 out → want2 ≡ₚ want → arena_hdr a2 = arena_hdr a →
  (cap_ok a → cap_ok a2) → forgot h a want out.
Proof.
  unfold forgot. destruct out; [|done]. intros (Hp & Hh & Hc) Hw Hh2 Hc2.
  split; [by rewrite Hp|]. split; [congruence|auto].
Qed.

Lemma cap_ok_length a a' :
  (length (arena_spans a') ≤ length (arena_spans a))%nat →
  arena_spans_cap a' = arena_spans_cap a → cap_ok a → cap_ok a'.
Proof. unfold cap_ok. intros ? ->. lia. Qed.

Lemma forget_loop_spec fuel h lo hi i a :
  (visits lo hi (drop i (arena_spans a)) < fuel)%nat →
  forgot h a (take i (arena_spans a) ++ (drop i (arena_spans a) ≫= cut lo hi))
    (forget_loop fuel h lo hi i a).
Proof.
  revert i a. induction fuel as [|fuel IH]; intros i a Hf; [lia|].
  simpl. destruct (arena_spans a !! i) as [s|] eqn:Hs.
  2: { apply lookup_ge_None in Hs. rewrite drop_ge, take_ge by lia. by rewrite app_nil_r. }
  destruct (split_at _ _ _ Hs) as [Ht Hd]. rewrite Hd in *.
  cbn [visits sum_list_with mbind list_bind] in *. fold (visits lo hi (drop (S i) (arena_spans a))) in Hf.
  rewrite overlaps_eq in Hf. destruct ((hi <=? sp_off s) || (lo >=? sp_end s)) eqn:Eo; simpl in Hf.
  { eapply forgot_step; [apply IH; lia| |done|done].
    unfold cut at 2. by rewrite overlaps_eq, Eo, Ht, <- app_assoc. }
  assert (overlaps lo hi s = true) as Hov by (by rewrite overlaps_eq, Eo).
  destruct ((lo <=? sp_off s) && (hi >=? sp_end s)) eqn:Ew.
  { destruct (swap_remove_split _ _ _ Hs) as (k & Hk & Hp).
    pose proof (lookup_lt_Some _ _ _ Hs) as Hlt.
    assert (take i (take i (arena_spans a) ++ k) = take i (arena_spans a)) as Hti.
    { apply take_app_length'. rewrite length_take. lia. }
    assert (drop i (take i (arena_spans a) ++ k) = k) as Hdi.
    { apply drop_app_length'. rewrite length_take. lia. }
    bool_to_prop. eapply forgot_step; [apply IH| |done|apply cap_ok_length; [|done]]; simpl; rewrite Hk.
    - rewrite Hdi, (visits_perm _ _ _ _ Hp). lia.
    - rewrite Hti, Hdi, cut_whole by (done || lia). simpl. by rewrite Hp.
    - rewrite length_app, Hp, length_take, length_drop. lia. }
  assert (∀ s', cut lo hi s = [s'] →
    forgot h a (take i (arena_spans a) ++ cut lo hi s ++ (drop (S i) (arena_spans a) ≫= cut lo hi))
      (forget_loop fuel h lo hi (S i) (set_spans (<[i:=s']> (arena_spans a)) a))) as Hput.
  { intros s' Hc. destruct (split_put (arena_spans a) i s s' Hs) as [Htp Hdp].
    eapply forgot_step; [apply IH| |done|apply cap_ok_length; [|done]]; simpl.
    - rewrite Hdp. lia.
    - by rewrite Htp, Hdp, Hc, <- app_assoc.
    - by rewrite length_insert. }
  destruct (lo <=? sp_off s) eqn:El.
  { apply Hput, cut_prefix; bool_to_prop; [done|lia|].
    apply andb_false_iff in Ew as [?|?]; bool_to_prop; lia. }
  destruct (hi >=? sp_end s) eqn:Eh; bool_to_prop.
  { apply Hput, cut_suffix; [done|lia..]. }
  destruct (split_put (arena_spans a) i s (mk_span (sp_addr s) (lo - sp_off s) (sp_off s) (sp_priv s)) Hs)
    as [Htp Hdp].
  pose proof (lookup_lt_Some _ _ _ Hs) as Hlt.
  match goal with |- context [arena_span_record ?h ?x ?n ?o ?p ?a] =>
    pose proof (record_spec h x n o p a) as Hr;
    destruct (arena_span_record h x n o p a) as [a2|w]; [|done] end.
  simpl in Hr. destruct Hr as (Hl & Hh & Hc). simpl.
  rewrite cut_hole by (done || lia).
  eapply forgot_step; [apply IH| |done|intros Hca; apply Hc, (cap_ok_length a); [simpl; by rewrite length_insert|done|done]].
  - rewrite Hl, drop_app_le, Hdp by (rewrite length_insert; lia).
    unfold visits in *. rewrite sum_list_with_app. simpl.
    assert (overlaps lo hi (mk_span (sp_addr s + (hi - sp_off s)) (sp_end s - hi) hi (sp_priv s)) = false) as ->.
    { unfold overlaps. simpl. by rewrite Z.leb_refl. }
    lia.
  - rewrite Hl, take_app_le, drop_app_le, Htp, Hdp by (rewrite length_insert; lia).
    rewrite bind_app. simpl. rewrite (cut_outside _ _ (mk_span _ _ hi _)).
    2: { unfold overlaps. simpl. by rewrite Z.leb_refl. }
    rewrite <- !app_assoc. simpl. f_equiv. f_equiv. by rewrite <- Permutation_cons_append.
Qed.

Lemma arena_span_forget_spec h off size a :
  forgot h a (arena_spans a ≫= cut off (off + size)) (arena_span_forget h off size a).
Proof.
  unfold arena_span_forget, forget_fuel.
  apply (forget_loop_spec _ h off (off + size) 0 a).
  rewrite drop_0. pose proof (visits_le off (off + size) (arena_spans a)). lia.
Qed.

(** ** The table as a map from offsets to addresses *)

Lemma maps_perm l k o x p : l ≡ₚ k → maps l o x p → maps k o x p.
Proof. intros Hp (s & Hs & ?). exists s. by rewrite <- Hp. Qed.

Lemma maps_app l k o x p : maps (l ++ k) o x p ↔ maps l o x p ∨ maps k o x p.
Proof. unfold maps. setoid_rewrite elem_of_app. naive_solver. Qed.

(** A piece lies within its span, clear of the range, and maps alike. *)
Lemma cut_elem lo hi s t :
  t ∈ cut lo hi s →
  sp_priv t = sp_priv s ∧ sp_addr t - sp_off t = sp_addr s - sp_off s ∧
  sp_off s ≤ sp_off t ∧ sp_end t ≤ sp_end s ∧ (sp_end t ≤ lo ∨ hi ≤ sp_off t) ∧
  (0 < sp_size s → 0 < sp_size t).
Proof.
  unfold cut. destruct (overlaps lo hi s) eqn:E; unfold overlaps in E; simpl.
  - apply negb_true_iff in E. bool_to_prop. rewrite elem_of_app.
    destruct (sp_off s <? lo) eqn:E1, (hi <? sp_end s) eqn:E2; bool_to_prop;
      rewrite ?list_elem_of_singleton, ?elem_of_nil; unfold sp_end in *;
      intros [Ht|Ht]; try done; subst t; simpl; repeat split; lia.
  - rewrite list_elem_of_singleton. intros ->.
    apply negb_false_iff, orb_true_iff in E as [E|E]; bool_to_prop; repeat split; lia.
Qed.

Lemma maps_cut lo hi s o x p :
  maps (cut lo hi s) o x p ↔ maps [s] o x p ∧ ¬ (lo ≤ o < hi).
Proof.
  unfold maps. setoid_rewrite list_elem_of_singleton. split.
  - intros (t & Ht & Ho & -> & ->). apply cut_elem in Ht. destruct Ht as (? & ? & ? & ? & ? & _).
    split; [|lia]. exists s. repeat split; [lia..|congruence].
  - intros [(t & -> & Ho & -> & ->) Hn]. unfold cut, overlaps.
    destruct (_ || _) eqn:E; simpl.
    { exists s. by rewrite list_elem_of_singleton. }
    bool_to_prop. destruct (decide (o < lo)).
    + eexists. rewrite (proj2 (Z.ltb_lt _ _)) by lia. split; [left|].
      unfold sp_end in *; simpl; repeat split; lia.
    + exists (mk_span (sp_addr s + (hi - sp_off s)) (sp_end s - hi) hi (sp_priv s)).
      rewrite (proj2 (Z.ltb_lt hi _)), elem_of_app, list_elem_of_singleton by lia.
      unfold sp_end in *; simpl; repeat split; auto; lia.
Qed.

Lemma maps_cuts lo hi l o x p :
  maps (l ≫= cut lo hi) o x p ↔ maps l o x p ∧ ¬ (lo ≤ o < hi).
Proof.
  induction l as [|s l IH]; simpl.
  { unfold maps. set_solver. }
  rewrite maps_app, IH, maps_cut, (maps_app [s] l o x p : maps (s :: l) o x p ↔ _). tauto.
Qed.

(** Releasing a range takes exactly that range out of the table and leaves
    every other offset mapped where it was, however the range falls across the
    spans, and the loop always finishes; the one way not to return is the
    panic of a table that could not grow. *)
Theorem arena_span_forget_exact h off size a :
  match arena_span_forget h off size a with
  | Ret a' =>
      (∀ o x p, maps (arena_spans a') o x p ↔
                maps (arena_spans a) o x p ∧ ¬ (off ≤ o < off + size)) ∧
      arena_hdr a' = arena_hdr a ∧ (cap_ok a → cap_ok a')
  | Stop w => w = NoMemory ∧ ∃ n, h_realloc h n = false
  end.
Proof.
  pose proof (arena_span_forget_spec h off size a) as Hs. unfold forgot in Hs.
  destruct (arena_span_forget h off size a) as [a'|w]; [|done].
  destruct Hs as (Hp & ? & ?). split; [|done].
  intros o x p. rewrite <- maps_cuts. split; by apply maps_perm.
Qed.

(** ** The invariant of a live arena

    Every span describes live host memory: each of its bytes is backed by the
    arena file at the offset the span gives it. Spans are whole granules, lie
    below the break and share no offset; the file is zero above the break. *)

Definition aligned (x : Z) : Prop := x mod ARENA_GRANULE = 0.

Definition span_ok h (fd : Z) (s : arena_span) : Prop :=
  0 < sp_size s ∧ 0 ≤ sp_off s ∧
  aligned (sp_off s) ∧ aligned (sp_size s) ∧ aligned (sp_addr s) ∧
  ∀ d, 0 ≤ d < sp_size s → h_back h (sp_addr s + d) = Some (Private fd (sp_off s + d)).

Definition apart (s t : arena_span) : Prop := sp_end s ≤ sp_off t ∨ sp_end t ≤ sp_off s.

Record arena_wf a h : Prop := {
  wf_fd : 0 ≤ arena_backing_fd a;
  wf_open : h_open h (arena_backing_fd a) = true;
  wf_brk : 0 ≤ arena_brk a ≤ arena_capacity a;
  wf_brk_aligned : aligned (arena_brk a);
  wf_limit : arena_capacity a ≤ 2^62;
  wf_cap_aligned : aligned (arena_capacity a);
  wf_size : h_fsize h (arena_backing_fd a) = arena_capacity a;
  wf_zero : ∀ o, arena_brk a ≤ o → h_file h (arena_backing_fd a) o = 0;
  wf_spans : Forall (span_ok h (arena_backing_fd a)) (arena_spans a);
  wf_below : Forall (λ s, sp_end s ≤ arena_brk a) (arena_spans a);
  wf_apart : pairwise apart (arena_spans a);
  wf_table : cap_ok a;
}.

#[local] Instance apart_sym : Symmetric apart.
Proof. unfold apart. intros s t. tauto. Qed.

Lemma span_ok_back h h' fd s :
  (∀ x, h_back h x ≠ None → h_back h' x = h_back h x) → span_ok h fd s → span_ok h' fd s.
Proof.
  intros Hb (? & ? & ? & ? & ? & Hm). unfold span_ok. do 5 (split; [done|]).
  intros d Hd. rewrite Hb; rewrite Hm; done.
Qed.

Lemma spans_ok_back h h' fd l :
  (∀ x, h_back h x ≠ None → h_back h' x = h_back h x) →
  Forall (span_ok h fd) l → Forall (span_ok h' fd) l.
Proof. intros Hb Hl. eapply Forall_impl; [done|]. intros s. by apply span_ok_back. Qed.

Lemma maps_backed h fd l o x p :
  Forall (span_ok h fd) l → maps l o x p → h_back h x = Some (Private fd o).
Proof.
  rewrite Forall_forall. intros Hl (s & Hs & Ho & -> & _).
  destruct (Hl s Hs) as (_ & _ & _ & _ & _ & Hm). unfold sp_end in Ho.
  rewrite Hm by lia. do 2 f_equal. lia.
Qed.

(** An offset has one address. *)
Lemma maps_fun l o x y p q : pairwise apart l → maps l o x p → maps l o y q → x = y ∧ p = q.
Proof.
  intros Hp (s & Hs & Ho & -> & ->) (t & Ht & Ho' & -> & ->).
  destruct (decide (s = t)) as [->|Hne]; [done|].
  pose proof (pairwise_elem apart l s t Hp Hs Ht Hne) as [?|?]; lia.
Qed.

(** ... and, being backed once, an address has one offset. *)
Lemma maps_inj h fd l o o' x p q :
  Forall (span_ok h fd) l → maps l o x p → maps l o' x q → o = o'.
Proof.
  intros Hl H1 H2. pose proof (maps_backed _ _ _ _ _ _ Hl H1) as E1.
  rewrite (maps_backed _ _ _ _ _ _ Hl H2) in E1. by injection E1.
Qed.

Lemma spans_hva_of_maps l o x : spans_hva_of l o = Some x → ∃ p, maps l o x p.
Proof.
  induction l as [|s l IH]; simpl; [done|].
  destruct (_ && _) eqn:E.
  - intros [= <-]. bool_to_prop. exists (sp_priv s), s. split; [left|done].
  - intros (p & t & ? & ?)%IH. exists p, t. split; [by right|done].
Qed.

Lemma maps_spans_hva_of l o x p :
  pairwise apart l → maps l o x p → spans_hva_of l o = Some x.
Proof.
  intros Hp Hm. assert (∃ y, spans_hva_of l o = Some y) as [y Hy].
  { clear Hp. destruct Hm as (s & Hs & Ho & _). induction Hs as [s l|s t l Hs IH]; simpl.
    - rewrite (proj2 (Z.leb_le _ _)), (proj2 (Z.ltb_lt _ _)) by lia. eauto.
    - destruct (_ && _); eauto. }
  destruct (spans_hva_of_maps _ _ _ Hy) as [q Hq].
  by destruct (maps_fun l o x y p q Hp Hm Hq) as [-> _].
Qed.

Lemma maps_spans_offset_of h fd l o x p :
  Forall (span_ok h fd) l → maps l o x p → spans_offset_of l x = o.
Proof.
  intros Hl Hm.
  assert (∃ y q, spans_offset_of l x = y ∧ maps l y x q) as (y & q & -> & Hq).
  { clear Hl. destruct Hm as (s & Hs & Ho & -> & _). unfold sp_end in Ho.
    induction Hs as [s l|s t l Hs IH]; simpl.
    - rewrite (proj2 (Z.leb_le _ _)), (proj2 (Z.ltb_lt _ _)) by lia.
      eexists _, (sp_priv s). split; [done|]. exists s. unfold sp_end.
      split; [left|]. repeat split; simpl; lia.
    - destruct (_ && _) eqn:E.
      + bool_to_prop. eexists _, (sp_priv t). split; [done|]. exists t. unfold sp_end.
        split; [left|]. repeat split; simpl; lia.
      + destruct (IH Ho) as (y & q & Hy & u & Hu & ?). exists y, q. split; [done|].
        exists u. split; [by right|done]. }
  symmetry. by eapply maps_inj.
Qed.

(** ** Allocation *)

Lemma aligned_roundup x : aligned (roundup x ARENA_GRANULE).
Proof. unfold aligned, roundup. by apply Z.mod_mul. Qed.

Lemma aligned_add x y : aligned x → aligned y → aligned (x + y).
Proof. unfold aligned, ARENA_GRANULE. intros. lia_mod. Qed.

Lemma aligned_sub x y : aligned x → aligned y → aligned (x - y).
Proof. unfold aligned, ARENA_GRANULE. intros. lia_mod. Qed.


Lemma aligned_step x : x mod 4194304 = 0 → aligned x.
Proof. unfold aligned, ARENA_GRANULE. intros. lia_mod. Qed.

Lemma arena_wf_grow a h h' want :
  arena_wf a h → h_ftruncate h (arena_backing_fd a) want = (true, h') →
  arena_capacity a ≤ want ≤ 2^62 → aligned want →
  arena_wf (set_capacity want a) h' ∧ (∀ x, h_back h' x = h_back h x) ∧
  (∀ x, h_back h x ≠ None → h_mem h' x = h_mem h x).
Proof.
  intros [] Ht Hw Hwa. apply ftruncate_ok in Ht as (Hb & Hm & Hf & Ho & Hs); [|lia].
  split; [|done]. split; simpl; try done; try lia.
  - by rewrite Ho.
  - by rewrite Hs, Z.eqb_refl.
  - intros o Hbo. rewrite Hf. auto.
  - eapply spans_ok_back; [|done]. intros x _. apply Hb.
Qed.

(** [n] zero bytes have appeared at [p], where nothing was mapped; whatever was
    mapped is mapped as before and holds what it held. *)
Record new_memory h h' (p n : Z) : Prop := {
  nm_pos : 0 < p;
  nm_free d : 0 ≤ d < n → h_back h (p + d) = None;
  nm_live d : 0 ≤ d < n → h_back h' (p + d) ≠ None;
  nm_zero d : 0 ≤ d < n → h_mem h' (p + d) = 0;
  nm_back x : h_back h x ≠ None → h_back h' x = h_back h x;
  nm_mem x : h_back h x ≠ None → h_mem h' x = h_mem h x;
}.

(** Mapping the [n] bytes above the break and recording them. *)
Lemma arena_wf_map a h h' hint n p a' :
  arena_wf a h → aligned n → 0 < n → arena_brk a + n ≤ arena_capacity a →
  h_mmap h hint n (Private (arena_backing_fd a) (arena_brk a)) = (Some p, h') →
  arena_span_record h' p n (arena_brk a) false (set_brk (arena_brk a + n) a) = Ret a' →
  arena_wf a' h' ∧ arena_spans a' = arena_spans a ++ [mk_span p n (arena_brk a) false] ∧
  new_memory h h' p n.
Proof.
  intros Hwf Han Hn Hcap Hm Hr.
  pose proof (record_spec h' p n (arena_brk a) false (set_brk (arena_brk a + n) a)) as Hspec.
  rewrite Hr in Hspec. destruct Hspec as (Hl & [= Hfd Hbrk Hc] & Hok). simpl in Hl.
  destruct Hwf. apply mmap_some in Hm as (Hp & Hpa & _ & Hfree & Hb & Hmem & Hnew & Hf & Ho & Hs);
    [|lia|done].
  assert (∀ x, h_back h x ≠ None → h_back h' x = h_back h x) as Hkeep.
  { intros x Hx. rewrite Hb. destruct (in_range p n x) eqn:Ei; [|done].
    unfold in_range in Ei. bool_to_prop. destruct Hx. apply Hfree. lia. }
  split; [|split; [done|]].
  2: { split; auto; intros d Hd.
       - apply Hfree. lia.
       - rewrite Hb. unfold in_range.
         by rewrite (proj2 (Z.leb_le _ _)), (proj2 (Z.ltb_lt _ _)) by lia.
       - rewrite (Hnew _ _ (p + d) eq_refl) by lia. apply wf_zero0. lia. }
  split; rewrite ?Hfd, ?Hbrk, ?Hc, ?Hl; try lia; try done.
  - by rewrite Ho.
  - by apply aligned_add.
  - by rewrite Hs.
  - intros o Hbo. rewrite Hf. apply wf_zero0. lia.
  - apply Forall_app. split; [by eapply spans_ok_back|]. apply Forall_singleton.
    unfold span_ok. simpl. do 2 (split; [lia|]). do 3 (split; [done|]). intros d Hd. rewrite Hb.
    unfold in_range. rewrite (proj2 (Z.leb_le _ _)), (proj2 (Z.ltb_lt _ _)) by lia.
    simpl. do 3 f_equal. lia.
  - apply Forall_app. split; [eapply Forall_impl; [done|]; simpl; intros; lia|].
    apply Forall_singleton. unfold sp_end. simpl. lia.
  - apply pairwise_app. split; [done|]. split; [by split|].
    intros s t Hs1 ->%list_elem_of_singleton. left. simpl.
    rewrite Forall_forall in wf_below0. by apply wf_below0.
  - by apply Hok.
Qed.

Lemma arena_alloc_wf size a h :
  arena_wf a h → 0 < size ≤ 2^40 → arena_brk a ≤ 2^61 →
  let n := roundup size ARENA_GRANULE in
  match arena_alloc size a h with
  | Ret (p, off, a', h') =>
      arena_wf a' h' ∧ off = arena_brk a ∧
      arena_spans a' = arena_spans a ++ [mk_span p n off false] ∧
      arena_brk a' = off + n ∧ new_memory h h' p n
  | Stop w => w = NoMemory
  end.
Proof.
  intros Hwf Hsz Hbrk. simpl.
  pose proof (roundup_spec size ARENA_GRANULE) as Hr.
  destruct Hr as [Hr1 Hr2]; [unfold ARENA_GRANULE; lia..|].
  set (n := roundup size ARENA_GRANULE) in *.
  unfold ARENA_GRANULE in Hr1. pose proof (wf_brk _ _ Hwf). pose proof (wf_limit _ _ Hwf).
  unfold arena_alloc. rewrite (proj2 (Z.ltb_ge _ _)) by apply Hwf. simpl. fold n.
  rewrite s64_small by lia.
  destruct (arena_capacity a <? arena_brk a + n) eqn:Ec; bool_to_prop.
  - rewrite u64_small by lia.
    change ARENA_GROW_STEP with 4194304.
    destruct (roundup_spec (arena_brk a + n) 4194304) as [Hw Hwm]; [lia..|].
    set (want := roundup (arena_brk a + n) 4194304) in *.
    rewrite s64_small by lia.
    destruct (h_ftruncate h (arena_backing_fd a) want) as [[] h1] eqn:Ht; simpl; [|done].
    destruct (arena_wf_grow a h h1 want Hwf Ht ltac:(lia) (aligned_step _ Hwm)) as (Hwf1 & Hb1 & Hm1).
    destruct (h_mmap h1 0 n _) as [[p|] h2] eqn:Em; [|done].
    pose proof (record_spec h2 p n (arena_brk a) false (set_capacity want (set_brk (arena_brk a + n) a))) as Hs.
    destruct (arena_span_record _ _ _ _ _ _) as [a'|w] eqn:Er; simpl; [|by destruct Hs].
    destruct (arena_wf_map (set_capacity want a) h1 h2 0 n p a' Hwf1 Hr2 ltac:(lia) ltac:(simpl; lia) Em Er)
      as (? & Hl & []).
    split; [done|]. split; [done|]. split; [done|]. split; [by destruct Hs as (_ & [=] & _)|].
    split; auto.
    + intros d Hd. rewrite <- Hb1. auto.
    + intros x Hx. rewrite nm_back0, Hb1; [done|by rewrite Hb1].
    + intros x Hx. rewrite nm_mem0 by (by rewrite Hb1). by apply Hm1.
  - simpl. destruct (h_mmap h 0 n _) as [[p|] h2] eqn:Em; [|done].
    pose proof (record_spec h2 p n (arena_brk a) false (set_brk (arena_brk a + n) a)) as Hs.
    destruct (arena_span_record _ _ _ _ _ _) as [a'|w] eqn:Er; simpl; [|by destruct Hs].
    destruct (arena_wf_map a h h2 0 n p a' Hwf Hr2 ltac:(lia) ltac:(simpl; lia) Em Er)
      as (? & Hl & Hnm).
    split; [done|]. split; [done|]. split; [done|]. split; [by destruct Hs as (_ & [=] & _)|done].
Qed.

Lemma arena_alloc_fd size a h p off a' h' :
  arena_wf a h → arena_alloc size a h = Ret (p, off, a', h') → arena_backing_fd a' = arena_backing_fd a.
Proof.
  intros Hwf. unfold arena_alloc. rewrite (proj2 (Z.ltb_ge _ _)) by apply Hwf. cbn [mbind outcome_bind].
  assert (∀ a1 h1 q n o a2, arena_span_record h1 q n o false a1 = Ret a2 → arena_backing_fd a2 = arena_backing_fd a1) as Hrec.
  { intros a1 h1 q n o a2 E. pose proof (record_spec h1 q n o false a1) as Hs. rewrite E in Hs. by destruct Hs as (_ & [=] & _). }
  case_bool; [destruct (h_ftruncate _ _ _) as [[] h1]; cbn [mbind outcome_bind]; [|done]|]; cbn [mbind outcome_bind];
    destruct (h_mmap _ _ _ _) as [[q|] h2]; try done;
    (destruct (arena_span_record _ _ _ _ _ _) as [a2|] eqn:Er; [|done]); cbn [mbind outcome_bind]; intros [= _ _ <- _];
    by apply Hrec in Er.
Qed.

(** An allocation is granted offsets no live span has, above all of them;
    the table then says exactly what it said before plus the new range; inside
    the new range addresses and offsets translate into each other both ways and
    every byte reads as zero; no other byte of memory changes; and the table
    stays well formed. Otherwise the process panics. *)
Theorem arena_alloc_fresh size a h :
  arena_wf a h → 0 < size ≤ 2^40 → arena_brk a ≤ 2^61 →
  let n := roundup size ARENA_GRANULE in
  match arena_alloc size a h with
  | Ret (p, off, a', h') =>
      arena_wf a' h' ∧ (∀ o x q, maps (arena_spans a) o x q → o < off) ∧
      (∀ o x q, maps (arena_spans a') o x q ↔
         maps (arena_spans a) o x q ∨ (off ≤ o < off + n ∧ x = p + (o - off) ∧ q = false)) ∧
      (∀ d, 0 ≤ d < n →
         arena_hva_of a' (off + d) = Some (p + d) ∧
         arena_offset_of a' (p + d) = off + d ∧ h_mem h' (p + d) = 0) ∧
      (∀ x, h_back h x ≠ None → h_mem h' x = h_mem h x)
  | Stop w => w = NoMemory
  end.
Proof.
  intros Hwf Hsz Hbrk n. pose proof (arena_alloc_wf size a h Hwf Hsz Hbrk) as Ha.
  destruct (arena_alloc size a h) as [[[[p off] a'] h']|w]; [|done].
  fold n in Ha. destruct Ha as (Hwf' & -> & Hl & _ & []). split; [done|].
  assert (∀ o x q, maps (arena_spans a') o x q ↔ maps (arena_spans a) o x q ∨
    (arena_brk a ≤ o < arena_brk a + n ∧ x = p + (o - arena_brk a) ∧ q = false)) as Hmaps.
  { intros o x q. rewrite Hl, maps_app. f_equiv. unfold maps, sp_end.
    setoid_rewrite list_elem_of_singleton. split; [by intros (s & -> & ?)|eauto]. }
  split; [|split; [done|split; [|done]]].
  - intros o x q (s & Hs & Ho & _). pose proof (wf_below _ _ Hwf) as Hb.
    rewrite Forall_forall in Hb. specialize (Hb s Hs). lia.
  - intros d Hd. assert (maps (arena_spans a') (arena_brk a + d) (p + d) false) as Hm.
    { apply Hmaps. right. repeat split; lia. }
    repeat split; [|by eapply maps_spans_offset_of; [apply Hwf'|]|auto].
    eapply maps_spans_hva_of; [apply Hwf'|done].
Qed.

Lemma arena_init_wf h :
  match arena_init arena_boot h with
  | Ret (a, h') => arena_wf a h' ∧ arena_brk a = 0 ∧ arena_spans a = []
  | Stop w => w = NoMemory
  end.
Proof.
  unfold arena_init. simpl. destruct (h_mkstemp h) as [[fd|] h'] eqn:Em; [|done].
  destruct (h_setfd h' fd); [|done]. split; [|done].
  apply mkstemp_some in Em. destruct Em as (? & _ & Hs & Hf & _ & _ & _ & _ & Ho).
  split; simpl; auto; lia || done.
Qed.

Lemma aligned_cut lo hi h fd s :
  aligned lo → aligned hi → span_ok h fd s → Forall (span_ok h fd) (cut lo hi s).
Proof.
  intros Hlo Hhi (Hs & Ho & Hao & Has & Haa & Hb). apply Forall_forall. intros t Ht.
  pose proof (cut_elem _ _ _ _ Ht) as (_ & Hd & Hl & Hr & _ & Hp).
  assert (aligned (sp_off t) ∧ aligned (sp_end t)) as [Ho' He'].
  { assert (aligned (sp_end s)) by (by apply aligned_add).
    unfold cut in Ht. destruct (overlaps lo hi s); simpl in Ht.
    - apply elem_of_app in Ht as [Ht|Ht]; destruct (_ <? _);
        try (by apply elem_of_nil in Ht); apply list_elem_of_singleton in Ht; subst t;
        unfold sp_end; simpl; (split; [done|]).
      + by replace (sp_off s + (lo - sp_off s)) with lo by lia.
      + by replace (hi + (sp_off s + sp_size s - hi)) with (sp_end s) by (unfold sp_end; lia).
    - by apply list_elem_of_singleton in Ht as ->. }
  unfold span_ok, sp_end in *. split; [auto|]. split; [lia|]. split; [done|].
  split; [replace (sp_size t) with (sp_off t + sp_size t - sp_off t) by lia; by apply aligned_sub|].
  split; [replace (sp_addr t) with (sp_addr s + (sp_off t - sp_off s)) by lia; by apply aligned_add, aligned_sub|].
  intros d Hd'. replace (sp_addr t + d) with (sp_addr s + (sp_off t - sp_off s + d)) by lia.
  rewrite Hb by lia. do 2 f_equal. lia.
Qed.

(** ** Release *)

(** The range [off, off + n) is mapped at [p]. *)
Definition mapped_at a (off n p : Z) : Prop :=
  ∀ d, 0 ≤ d < n → ∃ q, maps (arena_spans a) (off + d) (p + d) q.

Lemma pairwise_cuts lo hi l : lo ≤ hi → pairwise apart l → pairwise apart (l ≫= cut lo hi).
Proof.
  intros Hle. apply pairwise_bind.
  - intros s. unfold cut. destruct (negb _); simpl; [by split|].
    destruct (_ <? lo), (hi <? _); simpl; repeat split; auto.
    apply Forall_singleton. left. unfold sp_end. simpl. lia.
  - intros s t s' t' Hst Hs Ht. apply cut_elem in Hs, Ht. unfold apart in *. lia.
Qed.

(** Forgetting a mapped range whose host memory goes away. *)
Lemma forget_wf hr a h h' off n p a' :
  arena_wf a h → aligned off → aligned n → 0 ≤ n → mapped_at a off n p →
  forgot hr a (arena_spans a ≫= cut off (off + n)) (Ret a') →
  (∀ x, h_back h' x = if in_range p n x then None else h_back h x) →
  (∀ o, arena_brk a ≤ o → h_file h' (arena_backing_fd a) o = 0) →
  h_open h' (arena_backing_fd a) = h_open h (arena_backing_fd a) →
  h_fsize h' (arena_backing_fd a) = h_fsize h (arena_backing_fd a) →
  arena_wf a' h'.
Proof.
  intros Hwf Ho Hn Hn0 Hat (Hp & [= Hfd Hbrk Hcap] & Hok) Hb Hf Hop Hsz. destruct Hwf.
  assert (Forall (span_ok h (arena_backing_fd a)) (arena_spans a')) as Hall.
  { rewrite Hp. apply Forall_bind. eapply Forall_impl; [exact wf_spans0|]. intros s.
    apply aligned_cut; [done|by apply aligned_add]. }
  split; rewrite ?Hfd, ?Hbrk, ?Hcap; auto; try congruence.
  - rewrite Forall_forall in Hall |- *. intros s Hs.
    destruct (Hall s Hs) as (? & ? & ? & ? & ? & Hd). unfold span_ok. do 5 (split; [done|]).
    intros d Hdd. rewrite Hb. destruct (in_range p n (sp_addr s + d)) eqn:Ei; [|auto].
    exfalso. unfold in_range in Ei. bool_to_prop.
    assert (maps (arena_spans a') (sp_off s + d) (sp_addr s + d) (sp_priv s)) as Hm.
    { exists s. unfold sp_end. repeat split; [done|lia..]. }
    apply (maps_perm _ _ _ _ _ Hp), maps_cuts in Hm as [Hm Hnot].
    destruct (Hat (sp_addr s + d - p)) as [q Hq]; [lia|].
    replace (p + (sp_addr s + d - p)) with (sp_addr s + d) in Hq by lia.
    pose proof (maps_inj _ _ _ _ _ _ _ _ wf_spans0 Hm Hq). lia.
  - apply Forall_forall. intros s Hs. rewrite Hp in Hs.
    apply list_elem_of_bind in Hs as (t & Hs%cut_elem & Ht).
    rewrite Forall_forall in wf_below0. specialize (wf_below0 t Ht). lia.
  - eapply pairwise_perm; [apply _|by symmetry|]. apply pairwise_cuts; [lia|done].
Qed.

(** What freeing leaves: the table without the range, the host's memory without
    it, and every byte that is not the range's as it was. *)
Record freed a h (off n p : Z) a' h' : Prop := {
  fr_wf : arena_wf a' h';
  fr_fd : arena_backing_fd a' = arena_backing_fd a;
  fr_brk : arena_brk a' = arena_brk a;
  fr_maps o x q : maps (arena_spans a') o x q ↔ maps (arena_spans a) o x q ∧ ¬ (off ≤ o < off + n);
  fr_back x : h_back h' x = if in_range p n x then None else h_back h x;
  fr_mem x : h_back h' x ≠ None →
    (∀ d, 0 ≤ d < n → h_back h x ≠ Some (Private (arena_backing_fd a) (off + d)) ∧
                      h_back h x ≠ Some (Shared (arena_backing_fd a) (off + d))) → h_mem h' x = h_mem h x;
}.

Lemma arena_free_spec a h off n p :
  arena_wf a h → aligned off → aligned n → 0 < n < 2^62 → aligned p → mapped_at a off n p →
  match arena_free off n a (h_munmap h p n) with
  | Ret (a', h') => freed a h off n p a' h'
  | Stop w => w = NoMemory
  end.
Proof.
  intros Hwf Ho Hn Hn0 Hp Hat. unfold arena_free.
  rewrite (proj2 (Z.ltb_ge _ _)) by apply Hwf.
  rewrite roundup_aligned by (unfold ARENA_GRANULE in *; lia || done).
  destruct (munmap_law h p n) as (Hb & Hm & Hf & Hop & Hsz); [done|lia|done|].
  set (h1 := h_munmap h p n) in *.
  pose proof (arena_span_forget_spec h1 off n a) as Hs.
  destruct (arena_span_forget h1 off n a) as [a'|w]; [|by destruct Hs]. simpl.
  assert (arena_backing_fd a' = arena_backing_fd a) as -> by (destruct Hs as (_ & [=] & _); done).
  destruct (punchhole_law h1 (arena_backing_fd a) off n) as (Hb2 & Hm2 & Hf2 & Hop2 & Hsz2).
  set (h2 := h_punchhole h1 (arena_backing_fd a) off n) in *.
  assert (∀ o x q, maps (arena_spans a') o x q ↔
         maps (arena_spans a) o x q ∧ ¬ (off ≤ o < off + n)) as Hmaps.
  { intros o x q. destruct Hs as (Hpm & _). rewrite <- maps_cuts. split; by apply maps_perm. }
  assert (arena_wf a' h2) as Hwf'.
  { apply (forget_wf h1 a h h2 off n p a'); try done; [lia| | | |].
    - intros x. rewrite Hb2. apply Hb.
    - intros o Hbo. rewrite Hf2; [rewrite Hf; by apply Hwf|].
      unfold in_range. rewrite Z.eqb_refl. simpl.
      apply andb_false_iff. right. apply Z.ltb_ge.
      destruct (Hat (n - 1)) as (q & s & Hs1 & ? & _); [lia|].
      pose proof (wf_below _ _ Hwf) as Hbl. rewrite Forall_forall in Hbl.
      specialize (Hbl s Hs1). lia.
    - by rewrite Hop2, Hop.
    - by rewrite Hsz2, Hsz. }
  split; try done.
  - by destruct Hs as (_ & [=] & _).
  - by destruct Hs as (_ & [=] & _).
  - intros x. rewrite Hb2. apply Hb.
  - intros x Hx Hd. rewrite Hb2 in Hx. rewrite Hm2, Hm; [done..|]. intros d Hdn. specialize (Hd d Hdn).
    rewrite Hb. by destruct (in_range p n x).
Qed.

(** Unmapping a range of host memory and then freeing its offsets, the
    sequence munmap(2) of a guest region performs, leaves the table well formed
    and every byte outside the range mapped where it was and unchanged. *)
Theorem arena_free_exact a h off n p :
  arena_wf a h → aligned off → aligned n → 0 < n < 2^62 → aligned p → mapped_at a off n p →
  match arena_free off n a (h_munmap h p n) with
  | Ret (a', h') =>
      arena_wf a' h' ∧
      (∀ o x q, maps (arena_spans a') o x q ↔
         maps (arena_spans a) o x q ∧ ¬ (off ≤ o < off + n)) ∧
      (∀ o x q, maps (arena_spans a') o x q → h_mem h' x = h_mem h x)
  | Stop w => w = NoMemory
  end.
Proof.
  intros Hwf Ho Hn Hn0 Hp Hat. pose proof (arena_free_spec a h off n p Hwf Ho Hn Hn0 Hp Hat) as Hs.
  destruct (arena_free _ _ _ _) as [[a' h']|w]; [|done]. destruct Hs as [Hwf' Hfd _ Hmaps Hb Hm].
  split; [done|]. split; [done|]. intros o x q Hx.
  pose proof (maps_backed _ _ _ _ _ _ (wf_spans _ _ Hwf') Hx) as Hbx. apply Hm; [by rewrite Hbx|].
  intros d Hd. rewrite Hb, Hfd in Hbx. destruct (in_range p n x); [done|]. rewrite Hbx.
  split; [|done]. intros [= ->]. apply Hmaps in Hx. lia.
Qed.

(** Forgetting a range while the host's memory stays. *)
Lemma forget_only_wf hr a h h' off n a' :
  arena_wf a h → aligned off → aligned n → 0 ≤ n →
  forgot hr a (arena_spans a ≫= cut off (off + n)) (Ret a') →
  (∀ x, h_back h' x = h_back h x) →
  (∀ o, arena_brk a ≤ o → h_file h' (arena_backing_fd a) o = 0) →
  h_open h' (arena_backing_fd a) = h_open h (arena_backing_fd a) →
  h_fsize h' (arena_backing_fd a) = h_fsize h (arena_backing_fd a) →
  arena_wf a' h'.
Proof.
  intros Hwf Ho Hn Hn0 (Hp & [= Hfd Hbrk Hcap] & Hok) Hb Hf Hop Hsz. destruct Hwf.
  split; rewrite ?Hfd, ?Hbrk, ?Hcap; auto; try congruence.
  - eapply spans_ok_back; [intros x _; apply Hb|].
    rewrite Hp. apply Forall_bind. eapply Forall_impl; [exact wf_spans0|]. intros s.
    apply aligned_cut; [done|by apply aligned_add].
  - apply Forall_forall. intros s Hs. rewrite Hp in Hs.
    apply list_elem_of_bind in Hs as (t & Hs%cut_elem & Ht).
    rewrite Forall_forall in wf_below0. specialize (wf_below0 t Ht). lia.
  - eapply pairwise_perm; [apply _|by symmetry|]. apply pairwise_cuts; [lia|done].
Qed.

(** What do_mmap does when the file cannot be read: the memory is unmapped and
    its offsets are freed. *)
Lemma arena_drop_spec a h off n p :
  arena_wf a h → aligned off → 0 < n ≤ 2^40 → aligned p →
  let N := roundup n ARENA_GRANULE in mapped_at a off N p →
  match ('(a, h) ← arena_unmap p n a h; arena_free off n a h) with
  | Ret (a', h') => freed a h off N p a' h'
  | Stop w => w = NoMemory
  end.
Proof.
  intros Hwf Ho Hn0 Hp N Hat. unfold arena_unmap. change (roundup n ARENA_GRANULE) with N.
  destruct (roundup_spec n ARENA_GRANULE) as [HN HNm]; [done|lia|unfold ARENA_GRANULE; lia|]. fold N in HN, HNm.
  destruct (Hat 0) as [q0 Hq0]; [lia|]. rewrite !Z.add_0_r in Hq0.
  unfold arena_span_forget_addr, arena_offset_of. rewrite (maps_spans_offset_of _ _ _ _ _ _ (wf_spans _ _ Hwf) Hq0).
  assert (0 ≤ off) as Hoff0.
  { destruct Hq0 as (s & Hs & Hso & _). pose proof (wf_spans _ _ Hwf) as Hf. rewrite Forall_forall in Hf. destruct (Hf s Hs). lia. }
  rewrite (proj2 (Z.leb_le 0 off)) by done.
  pose proof (arena_span_forget_spec h off N a) as Hs1. destruct (arena_span_forget h off N a) as [a1|w]; [|by destruct Hs1].
  cbn [mbind outcome_bind]. destruct (munmap_law h p N) as (Hb & Hm & Hf & Hop & Hsz); [done|lia|done|].
  set (h1 := h_munmap h p N) in *.
  assert (arena_wf a1 h1) as Hwf1.
  { apply (forget_wf h a h h1 off N p a1); rewrite ?Hop, ?Hsz; try done; [lia|].
    intros o Hbo. rewrite Hf. by apply Hwf. }
  unfold arena_free. rewrite (proj2 (Z.ltb_ge _ _)) by apply Hwf1. change (roundup n ARENA_GRANULE) with N.
  pose proof (arena_span_forget_spec h1 off N a1) as Hs2. destruct (arena_span_forget h1 off N a1) as [a2|w]; [|by destruct Hs2].
  cbn [mbind outcome_bind]. destruct Hs1 as (Hpm1 & [= Hfd1 Hbrk1 _] & _). pose proof Hs2 as (Hpm2 & [= Hfd2 Hbrk2 _] & _).
  destruct (punchhole_law h1 (arena_backing_fd a2) off N) as (Hb2 & Hm2 & Hf2 & Hop2 & Hsz2).
  set (h2 := h_punchhole h1 (arena_backing_fd a2) off N) in *.
  split; [| |by rewrite Hbrk2| | |].
  - apply (forget_only_wf h1 a1 h1 h2 off N a2); try done; [lia|].
    intros o Hbo. rewrite Hf2; [by apply Hwf1|]. apply andb_false_iff. right. unfold in_range.
    apply andb_false_iff. right. apply Z.ltb_ge. destruct (Hat (N - 1)) as (q & s & Hs' & ? & _); [lia|].
    pose proof (wf_below _ _ Hwf) as Hbl. rewrite Forall_forall in Hbl. specialize (Hbl s Hs'). lia.
  - congruence.
  - intros o x q. split.
    + intros Hx. apply (maps_perm _ _ _ _ _ Hpm2), maps_cuts in Hx as [Hx ?].
      by apply (maps_perm _ _ _ _ _ Hpm1), maps_cuts in Hx as [Hx _].
    + intros [Hx Hno]. symmetry in Hpm1, Hpm2. apply (maps_perm _ _ _ _ _ Hpm2), maps_cuts. split; [|done].
      apply (maps_perm _ _ _ _ _ Hpm1), maps_cuts. done.
  - intros x. rewrite Hb2. apply Hb.
  - intros x Hx Hd. rewrite Hb2 in Hx. rewrite Hm2, Hm; [done..|]. intros d Hdn. specialize (Hd d Hdn).
    rewrite Hfd2, Hfd1, Hb. by destruct (in_range p N x).
Qed.

Lemma arena_alloc_files size a h p off a' h' :
  arena_wf a h → 0 < size ≤ 2^40 → arena_brk a ≤ 2^61 → arena_alloc size a h = Ret (p, off, a', h') →
  ∀ f o, h_file h' f o = h_file h f o.
Proof.
  intros Hwf Hsz Hbrk. pose proof (wf_brk _ _ Hwf). pose proof (wf_limit _ _ Hwf).
  destruct (roundup_spec size ARENA_GRANULE) as [Hr1 Hr2]; [done|lia|unfold ARENA_GRANULE; lia|].
  unfold arena_alloc. rewrite (proj2 (Z.ltb_ge _ _)) by apply Hwf. cbn [mbind outcome_bind].
  set (n := roundup size ARENA_GRANULE) in *. unfold ARENA_GRANULE in Hr1, Hr2. cbn [arena_brk set_brk arena_capacity arena_backing_fd].
  rewrite s64_small by lia. intros E f o.
  destruct (arena_capacity a <? arena_brk a + n) eqn:Ec; bool_to_prop.
  - rewrite u64_small in E by lia. change ARENA_GROW_STEP with 4194304 in E.
    destruct (roundup_spec (arena_brk a + n) 4194304) as [Hw _]; [lia..|].
    set (want := roundup (arena_brk a + n) 4194304) in *. rewrite s64_small in E by lia.
    destruct (h_ftruncate h _ want) as [[] h1] eqn:Ht; [|done]. cbn [mbind outcome_bind arena_backing_fd set_capacity set_brk] in E.
    apply ftruncate_ok in Ht as (_ & _ & Hf & _); [|rewrite (wf_size _ _ Hwf); lia]. rewrite <- Hf.
    destruct (h_mmap h1 0 n _) as [[q|] h3] eqn:Em; [|done]. destruct (arena_span_record _ _ _ _ _ _); [|done]. injection E as <- <- <- <-.
    apply mmap_some in Em as (_ & _ & _ & _ & _ & _ & _ & Hf' & _); [by apply Hf'|lia|done].
  - cbn [mbind outcome_bind] in E. destruct (h_mmap h 0 n _) as [[q|] h3] eqn:Em; [|done].
    destruct (arena_span_record _ _ _ _ _ _); [|done]. injection E as <- <- <- <-.
    apply mmap_some in Em as (_ & _ & _ & _ & _ & _ & _ & Hf' & _); [by apply Hf'|lia|done].
Qed.

(** ** Private mappings of a handed-over arena *)

Definition span_holds (s : arena_span) (x : Z) : bool := in_range (sp_addr s) (sp_size s) x.

(** The host memory of the spans [r] is gone and nothing else changed. *)
Record unmapped (r : list arena_span) h h' : Prop := {
  um_gone x : existsb (λ s, span_holds s x) r = true → h_back h' x = None;
  um_kept x : existsb (λ s, span_holds s x) r = false → h_back h' x = h_back h x;
  um_mem x : h_back h' x ≠ None → h_mem h' x = h_mem h x;
  um_file fd o : h_file h' fd o = h_file h fd o;
  um_open fd : h_open h' fd = h_open h fd;
  um_size fd : h_fsize h' fd = h_fsize h fd;
}.

Lemma unmapped_nil h : unmapped [] h h.
Proof. by split. Qed.

Lemma unmapped_cons s r h h' :
  aligned (sp_addr s) → aligned (sp_size s) → 0 < sp_size s →
  unmapped r (h_munmap h (sp_addr s) (sp_size s)) h' → unmapped (s :: r) h h'.
Proof.
  intros Ha Hs Hp [Hg Hk Hm Hf Ho Hz].
  destruct (munmap_law h (sp_addr s) (sp_size s) Ha Hp Hs) as (Hb & Hm1 & Hf1 & Ho1 & Hz1).
  split; simpl; unfold span_holds in *.
  - intros x Hx. destruct (existsb _ r) eqn:E; [auto|].
    rewrite Hk, Hb by done. rewrite orb_false_r in Hx. by rewrite Hx.
  - intros x Hx. bool_to_prop. rewrite Hk, Hb by done. by destruct (in_range _ _ x).
  - intros x Hx. rewrite Hm by done. apply Hm1. destruct (existsb (λ s, in_range (sp_addr s) (sp_size s) x) r) eqn:E.
    + by rewrite Hg in Hx.
    + by rewrite Hk in Hx.
  - intros. by rewrite Hf, Hf1.
  - intros. by rewrite Ho, Ho1.
  - intros. by rewrite Hz, Hz1.
Qed.

(** What the merge of [lo, hi) answers: the spans [r] were removed and the
    range grew to exactly cover them. *)
Record merged (l : list arena_span) h (lo hi : Z) (lo' hi' : Z) (l' r : list arena_span) h'
  : Prop := {
  mg_perm : l ≡ₚ r ++ l';
  mg_lo : lo' ≤ lo;
  mg_hi : hi ≤ hi';
  mg_lo_from : lo' = lo ∨ ∃ s, s ∈ r ∧ lo' = sp_off s;
  mg_hi_from : hi' = hi ∨ ∃ s, s ∈ r ∧ hi' = sp_end s;
  mg_in s : s ∈ r → sp_priv s = true ∧ lo' ≤ sp_off s ∧ sp_end s ≤ hi';
  mg_cover o : lo' ≤ o < hi' → lo ≤ o < hi ∨ ∃ s, s ∈ r ∧ sp_off s ≤ o < sp_end s;
  mg_clear s : s ∈ l' → sp_priv s = true → hi' ≤ sp_off s ∨ sp_end s ≤ lo';
  mg_host : unmapped r h h';
}.

Definition span_geo (s : arena_span) : Prop :=
  0 < sp_size s ∧ aligned (sp_addr s) ∧ aligned (sp_size s) ∧ aligned (sp_off s).

Lemma merged_step s l l2 h lo hi lo' hi' l' r h' :
  span_geo s → sp_priv s = true → l ≡ₚ s :: l2 → sp_off s < hi → lo < sp_end s → lo < hi →
  merged l2 (h_munmap h (sp_addr s) (sp_size s)) (Z.min (sp_off s) lo) (Z.max (sp_end s) hi)
    lo' hi' l' r h' →
  merged l h lo hi lo' hi' l' (s :: r) h'.
Proof.
  intros (? & ? & ? & ?) Hpr Hperm ? ? ? []. split.
  - by rewrite Hperm, mg_perm0.
  - lia.
  - lia.
  - destruct mg_lo_from0 as [->|(t & ? & ->)]; [|right; exists t; set_solver].
    destruct (decide (sp_off s < lo)); [right; exists s; split; [left|lia]|left; lia].
  - destruct mg_hi_from0 as [->|(t & ? & ->)]; [|right; exists t; set_solver].
    destruct (decide (hi < sp_end s)); [right; exists s; split; [left|lia]|left; lia].
  - intros t [->|?]%elem_of_cons; [split; [done|lia]|auto].
  - intros o Ho. destruct (mg_cover0 o Ho) as [?|(t & ? & ?)]; [|right; exists t; set_solver].
    destruct (decide (lo ≤ o < hi)); [by left|right; exists s; split; [left|]].
    unfold sp_end in *. lia.
  - auto.
  - by apply unmapped_cons.
Qed.

Lemma merge_loop_spec fuel i lo hi l h :
  (length l - i < fuel)%nat → lo < hi → Forall span_geo l → pairwise apart l →
  (∀ s, s ∈ take i l → sp_priv s = true → hi ≤ sp_off s ∨ sp_end s ≤ lo) →
  ∃ lo' hi' l' r h', merge_loop fuel i lo hi l h = Ret (lo', hi', l', h') ∧
                     merged l h lo hi lo' hi' l' r h'.
Proof.
  revert i lo hi l h. induction fuel as [|fuel IH]; intros i lo hi l h Hf Hlt Hg Hp Hc; [lia|].
  simpl. destruct (l !! i) as [s|] eqn:Hs.
  2: { apply lookup_ge_None in Hs. rewrite take_ge in Hc by lia.
       exists lo, hi, l, [], h. split; [done|]. split; auto using unmapped_nil; try lia; set_solver. }
  destruct (split_at _ _ _ Hs) as [Ht Hd]. pose proof (lookup_lt_Some _ _ _ Hs) as Hi.
  pose proof (list_elem_of_lookup_2 _ _ _ Hs) as Hin.
  assert ((sp_priv s = true → hi ≤ sp_off s ∨ sp_end s ≤ lo) →
    ∃ lo' hi' l' r h', merge_loop fuel (S i) lo hi l h = Ret (lo', hi', l', h') ∧
                       merged l h lo hi lo' hi' l' r h') as Hskip.
  { intros Hcl. apply IH; auto; [lia|]. intros t. rewrite Ht, elem_of_app, list_elem_of_singleton.
    intros [?| ->]; auto. }
  destruct (sp_priv s) eqn:Epr; simpl; [|apply Hskip; done].
  destruct ((hi <=? sp_off s) || (lo >=? sp_end s)) eqn:Eo.
  { apply Hskip. intros _. apply orb_true_iff in Eo as [Eo|Eo]; bool_to_prop; lia. }
  clear Hskip. bool_to_prop.
  set (lo2 := if sp_off s <? lo then sp_off s else lo).
  set (hi2 := if sp_end s >? hi then sp_end s else hi).
  assert (lo2 = Z.min (sp_off s) lo ∧ hi2 = Z.max (sp_end s) hi) as [Hlo2 Hhi2].
  { subst lo2 hi2. split; case_bool; bool_to_prop; lia. }
  clearbody lo2 hi2.
  destruct (swap_remove_split _ _ _ Hs) as (k & Hk & Hkp).
  assert (l ≡ₚ s :: take i l ++ k) as Hperm.
  { rewrite <- (take_drop i l) at 1. rewrite Hd, Hkp. by rewrite Permutation_middle. }
  rewrite Hk. pose proof Hg as Hg2. rewrite Hperm in Hg2. apply Forall_cons in Hg2 as [Hgs Hg2].
  pose proof (pairwise_perm _ _ _ Hperm Hp) as [Hps Hp2]. rewrite Forall_forall in Hps.
  destruct (IH i lo2 hi2 (take i l ++ k) (h_munmap h (sp_addr s) (sp_size s)))
    as (lo' & hi' & l' & r & h' & Heq & Hm); try done.
  - rewrite length_app, length_take, Hkp, length_drop. lia.
  - lia.
  - rewrite take_app_length' by (rewrite length_take; lia).
    intros t Ht' Htp. specialize (Hc t Ht' Htp).
    assert (apart s t) as Hap by (apply Hps; set_solver).
    assert (0 < sp_size t) by (rewrite Forall_forall in Hg2; apply Hg2; set_solver).
    unfold apart, sp_end in *. lia.
  - exists lo', hi', l', (s :: r), h'. split; [done|]. subst lo2 hi2.
    by apply (merged_step _ _ (take i l ++ k)); try lia.
Qed.

(** Nothing has been written through the private spans yet. *)
Definition pristine a h : Prop :=
  ∀ o x, maps (arena_spans a) o x true → h_mem h x = h_file h (arena_backing_fd a) o.

(** No allocation of this process's own shares an offset with the range. *)
Definition not_owned a (lo hi : Z) : Prop :=
  ∀ s, s ∈ arena_spans a → sp_priv s = false → hi ≤ sp_off s ∨ sp_end s ≤ lo.

Lemma span_ok_geo h fd s : span_ok h fd s → span_geo s.
Proof. intros (? & ? & ? & ? & ? & _). by repeat split. Qed.

(** A span that survived the merge lost none of its memory. *)
Lemma unmapped_keeps h h' fd r l :
  unmapped r h h' → Forall (span_ok h fd) (r ++ l) → pairwise apart (r ++ l) →
  Forall (span_ok h' fd) l ∧ ∀ o x q, maps l o x q → h_mem h' x = h_mem h x.
Proof.
  intros Hu [Hr Hl]%Forall_app (_ & _ & Hx)%pairwise_app.
  assert (∀ o x q, maps l o x q → h_back h' x = h_back h x) as Hb.
  { intros o x q Hm. apply (um_kept _ _ _ Hu). apply not_true_iff_false. intros He.
    apply existsb_exists in He as (s & Hs%list_elem_of_In & Hh).
    unfold span_holds, in_range in Hh. bool_to_prop.
    pose proof (maps_backed _ _ _ _ _ _ Hl Hm) as E.
    assert (maps r (sp_off s + (x - sp_addr s)) x (sp_priv s)) as Hms.
    { exists s. unfold sp_end. repeat split; [done|lia..]. }
    rewrite (maps_backed _ _ _ _ _ _ Hr Hms) in E. injection E as <-.
    destruct Hm as (t & Ht & Ho & _ & _). destruct (Hx s t Hs Ht); unfold sp_end in *; lia. }
  split.
  - rewrite Forall_forall in Hl |- *. intros s Hs.
    destruct (Hl s Hs) as (? & ? & ? & ? & ? & Hd). unfold span_ok. do 5 (split; [done|]).
    intros d Hdd. rewrite (Hb (sp_off s + d) _ (sp_priv s)); [auto|].
    exists s. unfold sp_end. repeat split; [done|lia..].
  - intros o x q Hm. apply (um_mem _ _ _ Hu). rewrite (Hb _ _ _ Hm).
    by rewrite (maps_backed _ _ _ _ _ _ Hl Hm).
Qed.

Lemma find_containing_spec block n l s :
  find_containing block n l = Some s →
  s ∈ l ∧ sp_priv s = true ∧ sp_off s ≤ block ∧ block + n ≤ sp_end s.
Proof.
  induction l as [|t l IH]; simpl; [done|]. destruct (_ && _) eqn:E.
  - intros [= <-]. bool_to_prop. split; [left|]. repeat split; [done|lia..].
  - intros (? & ?)%IH. split; [by right|done].
Qed.

(** The block a request is rounded out to. *)
Lemma block_spec off size :
  0 ≤ off → 0 < size → off + size ≤ 2^62 →
  let block := align_down 14 off in
  let n := roundup (u64 (off - block + size)) ARENA_GRANULE in
  aligned block ∧ aligned n ∧ 0 ≤ block ≤ off ∧ off + size ≤ block + n ∧ 0 < n ∧
  ∀ b, aligned b → off + size ≤ b → block + n ≤ b.
Proof.
  intros Ho Hs Hb block n. subst block n.
  rewrite align_down_spec by lia. change (2^14) with 16384.
  assert (0 ≤ off - off / 16384 * 16384 < 16384) by lia_mod.
  rewrite u64_small by lia.
  destruct (roundup_spec (off - off / 16384 * 16384 + size) ARENA_GRANULE) as [Hr1 Hr2];
    [unfold ARENA_GRANULE; lia..|].
  set (n := roundup _ ARENA_GRANULE) in *.
  unfold aligned, ARENA_GRANULE in *.
  split; [by apply Z.mod_mul|]. split; [done|]. split; [lia|]. split; [lia|]. split; [lia|].
  intros b Hba Hbo. lia_mod.
Qed.

(** The merged range is one the table can take: within the file, whole
    granules, and clear of every span that is left. *)
Lemma merged_range a h lo hi lo' hi' l' r h' :
  arena_wf a h → merged (arena_spans a) h lo hi lo' hi' l' r h' →
  aligned lo → aligned hi → 0 ≤ lo < hi → hi ≤ arena_brk a → not_owned a lo hi →
  aligned lo' ∧ aligned hi' ∧ 0 ≤ lo' < hi' ∧ hi' ≤ arena_brk a ∧
  ∀ s, s ∈ l' → hi' ≤ sp_off s ∨ sp_end s ≤ lo'.
Proof.
  intros Hwf Hm Hal Hah Hlo Hhi Hno. destruct Hm. destruct Hwf.
  assert (∀ s, s ∈ r → span_ok h (arena_backing_fd a) s ∧ sp_end s ≤ arena_brk a) as Hr.
  { rewrite Forall_forall in wf_spans0, wf_below0. intros s Hs.
    assert (s ∈ arena_spans a) by (rewrite mg_perm0; set_solver). auto. }
  split; [destruct mg_lo_from0 as [->|(s & Hs & ->)]; [done|apply (Hr s Hs)]|].
  split; [destruct mg_hi_from0 as [->|(s & Hs & ->)]; [done|
    destruct (Hr s Hs) as [(_ & _ & ? & ? & _) _]; by apply aligned_add]|].
  split; [destruct mg_lo_from0 as [->|(s & Hs & ->)]; [lia|
    destruct (Hr s Hs) as [(_ & ? & _) _]; lia]|].
  split; [destruct mg_hi_from0 as [->|(s & Hs & ->)]; [lia|apply (Hr s Hs)]|].
  intros t Ht. destruct (sp_priv t) eqn:Ep; [by apply mg_clear0|].
  assert (t ∈ arena_spans a) as Hta by (rewrite mg_perm0; set_solver).
  assert (0 < sp_size t) by (rewrite Forall_forall in wf_spans0; by apply (wf_spans0 t)).
  specialize (Hno t Hta Ep).
  destruct (decide (hi' ≤ sp_off t ∨ sp_end t ≤ lo')) as [|Hov]; [done|exfalso].
  destruct (mg_cover0 (Z.max lo' (sp_off t))) as [?|(s & Hs & Ho)]; unfold sp_end in *; [lia..|].
  rewrite mg_perm0, pairwise_app in wf_apart0. destruct wf_apart0 as (_ & _ & Hx).
  destruct (Hx s t Hs Ht); unfold sp_end in *; lia.
Qed.

(** Mapping the merged range and recording it. *)
Lemma arena_wf_remap a h lo' hi' l' r h1 h2 p a' :
  arena_wf a h → arena_spans a ≡ₚ r ++ l' → unmapped r h h1 →
  aligned lo' → aligned hi' → 0 ≤ lo' < hi' → hi' ≤ arena_brk a →
  (∀ s, s ∈ l' → hi' ≤ sp_off s ∨ sp_end s ≤ lo') →
  h_mmap h1 0 (hi' - lo') (Private (arena_backing_fd a) lo') = (Some p, h2) →
  arena_span_record h2 p (hi' - lo') lo' true (set_spans l' a) = Ret a' →
  arena_wf a' h2 ∧ arena_spans a' = l' ++ [mk_span p (hi' - lo') lo' true] ∧
  arena_backing_fd a' = arena_backing_fd a ∧
  (∀ fd o, h_file h2 fd o = h_file h fd o) ∧
  (∀ o x q, maps l' o x q → h_mem h2 x = h_mem h x) ∧
  (∀ o, lo' ≤ o < hi' → h_mem h2 (p + (o - lo')) = h_file h (arena_backing_fd a) o).
Proof.
  intros Hwf Hperm Hu Hal Hah Hlo Hhi Hcl Hm Hr. destruct Hwf.
  pose proof (record_spec h2 p (hi' - lo') lo' true (set_spans l' a)) as Hspec.
  rewrite Hr in Hspec. destruct Hspec as (Hl & [= Hfd Hbrk Hc] & Hok). simpl in Hl.
  rewrite Hperm in wf_spans0, wf_below0, wf_apart0.
  destruct (unmapped_keeps _ _ _ _ _ Hu wf_spans0 wf_apart0) as [Hks Hkm].
  assert (aligned (hi' - lo')) as Han by (by apply aligned_sub).
  apply mmap_some in Hm as (Hp & Hpa & _ & Hfree & Hb & Hmem & Hnew & Hf & Ho & Hs); [|lia|done].
  assert (∀ x, h_back h1 x ≠ None → h_back h2 x = h_back h1 x) as Hkeep.
  { intros x Hx. rewrite Hb. destruct (in_range _ _ x) eqn:Ei; [|done].
    unfold in_range in Ei. bool_to_prop. destruct Hx. apply Hfree. lia. }
  split; [|split; [done|split; [done|split; [|split]]]].
  - apply Forall_app in wf_below0 as [_ Hbel]. apply pairwise_app in wf_apart0 as (_ & Hap & _).
    split; rewrite ?Hfd, ?Hbrk, ?Hc, ?Hl; try lia; try done.
    + by rewrite Ho, (um_open _ _ _ Hu).
    + by rewrite Hs, (um_size _ _ _ Hu).
    + intros o Hbo. rewrite Hf, (um_file _ _ _ Hu). auto.
    + apply Forall_app. split; [by eapply spans_ok_back|]. apply Forall_singleton.
      unfold span_ok. simpl. do 2 (split; [lia|]). do 3 (split; [done|]). intros d Hd. rewrite Hb.
      unfold in_range. rewrite (proj2 (Z.leb_le _ _)), (proj2 (Z.ltb_lt _ _)) by lia.
      simpl. do 3 f_equal. lia.
    + apply Forall_app. split; [done|]. apply Forall_singleton. unfold sp_end. simpl. lia.
    + apply pairwise_app. split; [done|]. split; [by split|].
      intros s t Hs1 ->%list_elem_of_singleton. unfold apart, sp_end at 2. simpl.
      destruct (Hcl s Hs1); lia.
    + apply Hok. unfold cap_ok in *. simpl. rewrite Hperm, length_app in wf_table0. lia.
  - intros. by rewrite Hf, (um_file _ _ _ Hu).
  - intros o x q Hx. rewrite <- (Hkm _ _ _ Hx). apply Hmem.
    by rewrite (maps_backed _ _ _ _ _ _ Hks Hx).
  - intros o Hoo. rewrite (Hnew _ _ _ eq_refl) by lia. rewrite (um_file _ _ _ Hu). f_equal. lia.
Qed.

(** The span's offsets include [off, off + size). *)
Definition holds_range (s : arena_span) (off size : Z) : Prop :=
  sp_off s ≤ off ∧ off + size ≤ sp_end s.

(** What mapping [off, off + size) privately answers. *)
Record mapped_private a h (off size p : Z) a' h' : Prop := {
  mp_wf : arena_wf a' h';
  mp_hdr : arena_hdr a' = arena_hdr a;
  mp_here : ∃ s, s ∈ arena_spans a' ∧ sp_priv s = true ∧ holds_range s off size ∧
                 p = sp_addr s + (off - sp_off s);
  mp_kept s : s ∈ arena_spans a →
    ∃ t, t ∈ arena_spans a' ∧ sp_priv t = sp_priv s ∧ holds_range t (sp_off s) (sp_size s);
  mp_owned o x : maps (arena_spans a') o x false → maps (arena_spans a) o x false;
  mp_file fd o : h_file h' fd o = h_file h fd o;
  mp_pristine : pristine a h → pristine a' h';
}.

Lemma mapped_private_reuse a h off size s :
  arena_wf a h → s ∈ arena_spans a → sp_priv s = true →
  sp_off s ≤ off → off + size ≤ sp_end s →
  mapped_private a h off size (sp_addr s + (off - sp_off s)) a h.
Proof.
  intros Hwf Hs Hp Hlo Hhi. split; eauto.
  - exists s. by repeat split.
  - intros t Ht. exists t. unfold holds_range, sp_end. repeat split; [done|lia..].
Qed.

Lemma mapped_private_remap a h lo hi lo' hi' l' r h1 h2 p a' off size :
  arena_wf a h → merged (arena_spans a) h lo hi lo' hi' l' r h1 →
  aligned lo → aligned hi → 0 ≤ lo < hi → hi ≤ arena_brk a → not_owned a lo hi →
  lo ≤ off → off + size ≤ hi →
  h_mmap h1 0 (hi' - lo') (Private (arena_backing_fd a) lo') = (Some p, h2) →
  arena_span_record h2 p (hi' - lo') lo' true (set_spans l' a) = Ret a' →
  mapped_private a h off size (p + (off - lo')) a' h2.
Proof.
  intros Hwf Hmg Hal Hah Hlo Hhi Hno Hof Hend Hm Hr.
  destruct (merged_range _ _ _ _ _ _ _ _ _ Hwf Hmg Hal Hah Hlo Hhi Hno) as (H1 & H2 & H3 & H4 & H5).
  destruct (arena_wf_remap a h lo' hi' l' r h1 h2 p a' Hwf (mg_perm _ _ _ _ _ _ _ _ _ Hmg)
    (mg_host _ _ _ _ _ _ _ _ _ Hmg) H1 H2 H3 H4 H5 Hm Hr) as (Hwf' & Hl & Hfd & Hf & Hkm & Hnew).
  pose proof (record_spec h2 p (hi' - lo') lo' true (set_spans l' a)) as Hspec.
  rewrite Hr in Hspec. destruct Hspec as (_ & Hhdr & _).
  destruct Hmg.
  set (t := mk_span p (hi' - lo') lo' true) in *.
  assert (∀ off n, lo' ≤ off → off + n ≤ hi' → holds_range t off n) as Hin.
  { intros o n ? ?. unfold holds_range, sp_end. simpl. lia. }
  split; auto.
  - exists t. rewrite Hl. split; [set_solver|]. split; [done|]. split; [apply Hin; lia|done].
  - intros s Hs. rewrite mg_perm0 in Hs. apply elem_of_app in Hs as [Hs|Hs].
    + destruct (mg_in0 s Hs) as (-> & ? & ?). exists t. rewrite Hl. split; [set_solver|].
      split; [done|]. apply Hin; unfold sp_end in *; lia.
    + exists s. rewrite Hl. split; [set_solver|]. unfold holds_range, sp_end. repeat split; lia.
  - intros o x. rewrite Hl, maps_app. intros [Hx|(s & ->%list_elem_of_singleton & _ & _ & [=])].
    eapply maps_perm; [by symmetry|]. apply maps_app. by right.
  - intros Hpr o x Hx. rewrite Hfd, Hf. rewrite Hl, maps_app in Hx. destruct Hx as [Hx|Hx].
    + rewrite (Hkm _ _ _ Hx). apply Hpr. eapply maps_perm; [by symmetry|]. apply maps_app. by right.
    + destruct Hx as (s & ->%list_elem_of_singleton & Ho & -> & _). unfold sp_end in Ho.
      simpl in *. apply Hnew. lia.
Qed.

Lemma arena_map_private_spec off size a h :
  arena_wf a h → 0 ≤ off → 0 < size → off + size ≤ arena_brk a →
  not_owned a (align_down 14 off)
    (align_down 14 off + roundup (u64 (off - align_down 14 off + size)) ARENA_GRANULE) →
  match arena_map_private off size a h with
  | Ret (p, a', h') => mapped_private a h off size p a' h'
  | Stop w => w = NoMemory
  end.
Proof.
  intros Hwf Ho Hs Hb Hno. unfold arena_map_private.
  rewrite (proj2 (Z.ltb_ge _ _)) by apply Hwf.
  pose proof (wf_brk _ _ Hwf). pose proof (wf_limit _ _ Hwf).
  destruct (block_spec off size Ho Hs ltac:(lia)) as (Hb1 & Hb2 & Hb3 & Hb4 & Hb5 & Hb6).
  set (block := align_down 14 off) in *.
  set (n := roundup (u64 (off - block + size)) ARENA_GRANULE) in *.
  specialize (Hb6 _ (wf_brk_aligned _ _ Hwf) Hb).
  destruct (find_containing block n (arena_spans a)) as [s|] eqn:Ef.
  { apply find_containing_spec in Ef as (? & ? & ? & ?). apply mapped_private_reuse; auto; lia. }
  destruct (merge_loop_spec (S (length (arena_spans a))) 0 block (block + n) (arena_spans a) h)
    as (lo' & hi' & l' & r & h1 & Heq & Hmg); [lia|lia| |apply Hwf|set_solver|].
  { eapply Forall_impl; [apply Hwf|]. apply span_ok_geo. }
  rewrite Heq. simpl. destruct (h_mmap h1 0 _ _) as [[p|] h2] eqn:Em; [|done].
  pose proof (record_spec h2 p (hi' - lo') lo' true (set_spans l' a)) as Hr.
  destruct (arena_span_record h2 p _ _ _ _) as [a'|w] eqn:Er; simpl; [|by destruct Hr].
  eapply mapped_private_remap; try done; [by apply aligned_add|lia..].
Qed.


(** A private mapping is answered with an address at which the whole
    requested range is mapped in order; every offset mapped before is still
    mapped, each span within one span; no offset has two views, whether the
    request fell inside, across or clear of the earlier ones; and memory nobody
    wrote to still shows the arena's bytes. *)
Theorem arena_map_private_one_view off size a h :
  arena_wf a h → 0 ≤ off → 0 < size → off + size ≤ arena_brk a →
  not_owned a (align_down 14 off)
    (align_down 14 off + roundup (u64 (off - align_down 14 off + size)) ARENA_GRANULE) →
  match arena_map_private off size a h with
  | Ret (p, a', h') =>
      (∀ d, 0 ≤ d < size → maps (arena_spans a') (off + d) (p + d) true) ∧
      (∀ o x q, maps (arena_spans a) o x q → ∃ y, maps (arena_spans a') o y q) ∧
      (∀ o x y q q', maps (arena_spans a') o x q → maps (arena_spans a') o y q' → x = y) ∧
      (pristine a h → pristine a' h') ∧ arena_wf a' h'
  | Stop w => w = NoMemory
  end.
Proof.
  intros Hwf Ho Hs Hb Hno.
  pose proof (arena_map_private_spec off size a h Hwf Ho Hs Hb Hno) as Hm.
  destruct (arena_map_private off size a h) as [[[p a'] h']|w]; [|done]. destruct Hm.
  split; [|split; [|split; [|done]]].
  - destruct mp_here0 as (s & ? & ? & [? ?] & ->). intros d Hd. exists s. repeat split; [done|lia..|done].
  - intros o x q (s & Hin & ? & -> & ->). destruct (mp_kept0 s Hin) as (t & ? & <- & [? ?]).
    eexists. exists t. unfold sp_end in *. repeat split; [done|lia..].
  - intros o x y q q' Hx Hy. by destruct (maps_fun _ _ _ _ _ _ (wf_apart _ _ mp_wf0) Hx Hy).
Qed.

(** ** The handover *)

(** [fd] holds the [n] bytes at [p] from [off] on; nothing else changed. *)
Record copied (fd p n off : Z) h h' : Prop := {
  cp_back x : h_back h' x = h_back h x;
  cp_mem x : h_back h x ≠ None → backed_by fd (h_back h x) = false → h_mem h' x = h_mem h x;
  cp_file f o : h_file h' f o =
    if (f =? fd) && in_range off n o then h_mem h (p + (o - off)) else h_file h f o;
  cp_open f : h_open h' f = h_open h f;
  cp_size f : off + n ≤ h_fsize h fd → h_fsize h' f = h_fsize h f;
}.

(** The bytes of a span are live memory that is not the file itself. *)
Definition readable (fd p n : Z) h : Prop :=
  ∀ x, p ≤ x < p + n → h_back h x ≠ None ∧ backed_by fd (h_back h x) = false.

Lemma copied_more fd p n m off r h h1 h' :
  0 ≤ r ≤ n → readable fd p n h → h_pwrite h fd p m off = (Wrote r, h1) →
  copied fd (p + r) (n - r) (off + r) h1 h' → copied fd p n off h h'.
Proof.
  intros Hr Hrd Hw [Cb Cm Cf Co Cs].
  apply pwrite_wrote in Hw as (_ & Hb & Hm & Hf & Ho & Hs). split.
  - intros x. by rewrite Cb.
  - intros x Hx Hx'. rewrite Cm, Hm by (by rewrite ?Hb). done.
  - intros f o. rewrite Cf, Hf. destruct (f =? fd) eqn:E; simpl; [|done].
    unfold in_range in *.
    destruct ((off + r <=? o) && (o <? off + r + (n - r))) eqn:E1.
    + bool_to_prop. rewrite (proj2 (Z.leb_le off o)), (proj2 (Z.ltb_lt o (off + n))) by lia. simpl.
      destruct (Hrd (p + (o - off))) as [? ?]; [lia|].
      replace (p + r + (o - (off + r))) with (p + (o - off)) by lia. by apply Hm.
    + destruct ((off <=? o) && (o <? off + r)) eqn:E2, ((off <=? o) && (o <? off + n)) eqn:E3;
        try done; exfalso; repeat rewrite andb_false_iff in *; bool_to_prop;
        destruct_or?; bool_to_prop; lia.
  - intros f. by rewrite Co, Ho.
  - intros f Hle. rewrite Cs.
    + rewrite Hs. destruct ((f =? fd) && (0 <? r)) eqn:E; [|done]. bool_to_prop. subst. lia.
    + rewrite Hs, Z.eqb_refl. simpl. destruct (0 <? r); lia.
Qed.

Lemma copied_refl fd p off h : copied fd p 0 off h h.
Proof.
  split; auto. intros f o. unfold in_range.
  destruct ((f =? fd) && _) eqn:E; [|done]. bool_to_prop. lia.
Qed.

Lemma write_span_spec fuel fd p n off h :
  0 ≤ n → readable fd p n h →
  match write_span fuel fd p n off h with
  | Ret (true, h') => copied fd p n off h h'
  | Ret (false, _) => True
  | Stop w => w = OutOfFuel
  end.
Proof.
  revert p n off h. induction fuel as [|fuel IH]; intros p n off h Hn Hrd; simpl;
    destruct (0 <? n) eqn:En; bool_to_prop; try done.
  1, 3: assert (n = 0) as -> by lia; apply copied_refl.
  set (want := if ARENA_WRITE_MAX <? n then ARENA_WRITE_MAX else n).
  assert (0 < want ≤ n) as Hwant.
  { subst want. change ARENA_WRITE_MAX with 1073741824. case_bool; bool_to_prop; lia. }
  destruct (h_pwrite h fd p want off) as [[r| |] h1] eqn:Ew; [| |done].
  - pose proof (pwrite_wrote _ _ _ _ _ _ _ Ew) as (Hr & Hb & _).
    specialize (IH (p + r) (n - r) (off + r) h1).
    destruct (write_span fuel fd (p + r) (n - r) (off + r) h1) as [[[] h']|w].
    + apply (copied_more _ _ _ want _ r h h1); [lia|done|done|].
      apply IH; [lia|]. intros x Hx. rewrite Hb. apply Hrd. lia.
    + done.
    + apply IH; [lia|]. intros x Hx. rewrite Hb. apply Hrd. lia.
  - pose proof (pwrite_eintr _ _ _ _ _ _ Ew) as (Hb & Hm & Hf & Ho & Hs).
    specialize (IH p n off h1 Hn).
    destruct (write_span fuel fd p n off h1) as [[[] h']|w]; [|done|].
    + destruct IH as [Cb Cm Cf Co Cs]; [intros x Hx; rewrite Hb; by apply Hrd|]. split.
      * intros x. by rewrite Cb.
      * intros x Hx Hx'. rewrite Cm by (by rewrite Hb). by apply Hm.
      * intros f o. rewrite Cf, Hf. destruct ((f =? fd) && _) eqn:E; [|done].
        unfold in_range in E. bool_to_prop. apply Hm. apply Hrd. lia.
      * intros f. by rewrite Co.
      * intros f Hle. rewrite Cs; [done|]. by rewrite Hs.
    + apply IH. intros x Hx. rewrite Hb. by apply Hrd.
Qed.


(** Every span of [l] has been written to [fd]. *)
Record all_copied (fd : Z) (l : list arena_span) h h' : Prop := {
  ac_back x : h_back h' x = h_back h x;
  ac_mem x : h_back h x ≠ None → backed_by fd (h_back h x) = false → h_mem h' x = h_mem h x;
  ac_here o x q : maps l o x q → h_file h' fd o = h_mem h x;
  ac_else o : (∀ x q, ¬ maps l o x q) → h_file h' fd o = h_file h fd o;
  ac_open f : h_open h' f = h_open h f;
  ac_size f : (∀ s, s ∈ l → sp_end s ≤ h_fsize h fd) → h_fsize h' f = h_fsize h f;
}.

Lemma span_readable h fd fd' s : span_ok h fd' s → fd ≠ fd' → readable fd (sp_addr s) (sp_size s) h.
Proof.
  intros (_ & _ & _ & _ & _ & Hb) Hne x Hx.
  replace x with (sp_addr s + (x - sp_addr s)) by lia. rewrite Hb by lia.
  split; [done|]. simpl. by apply Z.eqb_neq.
Qed.

Lemma all_copied_cons fd fd' s l h h1 h' :
  span_ok h fd' s → Forall (span_ok h fd') l → fd ≠ fd' → Forall (apart s) l →
  copied fd (sp_addr s) (sp_size s) (sp_off s) h h1 → all_copied fd l h1 h' →
  all_copied fd (s :: l) h h'.
Proof.
  intros Hs Hl Hne Hap [Cb Cm Cf Co Cs] [Ab Am Ah Ae Ao As].
  assert (∀ o x q, maps l o x q → h_mem h1 x = h_mem h x) as Hlm.
  { intros o x q Hm. apply (maps_backed _ _ _ _ _ _ Hl) in Hm. apply Cm; rewrite Hm; [done|].
    simpl. by apply Z.eqb_neq. }
  assert (∀ o x q, maps [s] o x q → h_file h1 fd o = h_mem h x ∧ ∀ y r, ¬ maps l o y r) as Hsm.
  { intros o x q (t & ->%list_elem_of_singleton & Ho & -> & _). unfold sp_end in Ho.
    rewrite Cf, Z.eqb_refl. unfold in_range.
    rewrite (proj2 (Z.leb_le _ _)), (proj2 (Z.ltb_lt _ _)) by lia. split; [done|].
    intros y r (t & Ht & Ho' & _). rewrite Forall_forall in Hap.
    destruct (Hap t Ht); unfold sp_end in *; lia. }
  split.
  - intros x. by rewrite Ab.
  - intros x Hx Hx'. rewrite Am by (by rewrite Cb). auto.
  - intros o x q [Hx|Hx]%(maps_app [s] l).
    + destruct (Hsm _ _ _ Hx) as [<- Hn]. by apply Ae.
    + rewrite (Ah _ _ _ Hx). by apply Hlm in Hx.
  - intros o Hn. rewrite Ae, Cf.
    + destruct ((fd =? fd) && _) eqn:E; [|done]. unfold in_range in E. bool_to_prop.
      destruct (Hn (sp_addr s + (o - sp_off s)) (sp_priv s)). exists s.
      unfold sp_end. split; [left|]. repeat split; lia.
    + intros x q Hx. apply (Hn x q), (maps_app [s] l). by right.
  - intros f. by rewrite Ao, Co.
  - intros f Hle. assert (sp_end s ≤ h_fsize h fd) by (apply Hle; left).
    rewrite As, Cs by (unfold sp_end in *; try done; intros t Ht; rewrite Cs by done; apply Hle; by right).
    done.
Qed.

Lemma write_spans_spec fuel fd fd' l h :
  Forall (span_ok h fd') l → fd ≠ fd' → pairwise apart l →
  match write_spans fuel fd l h with
  | Ret (true, h') => all_copied fd l h h'
  | Ret (false, _) => True
  | Stop w => w = OutOfFuel
  end.
Proof.
  revert h. induction l as [|s l IH]; intros h Hl Hne Hp; simpl.
  { split; auto. intros o x q (t & []%elem_of_nil & _). }
  apply Forall_cons in Hl as [Hs Hl]. destruct Hp as [Hap Hp].
  pose proof (write_span_spec fuel fd (sp_addr s) (sp_size s) (sp_off s) h) as Hw.
  assert (0 ≤ sp_size s) by (destruct Hs; lia).
  specialize (Hw ltac:(done) (span_readable _ _ _ _ Hs Hne)).
  destruct (write_span _ _ _ _ _ _) as [[[] h1]|w]; simpl; [|done|done].
  specialize (IH h1).
  assert (Forall (span_ok h1 fd') l) as Hl1.
  { eapply spans_ok_back; [|exact Hl]. intros x _. apply Hw. }
  specialize (IH Hl1 Hne Hp).
  destruct (write_spans fuel fd l h1) as [[[] h']|w]; [|done|done].
  by eapply all_copied_cons.
Qed.

(** What a successful snapshot leaves in its file. *)
Lemma arena_snapshot_spec fuel a h :
  arena_wf a h →
  match arena_snapshot fuel a h with
  | Ret (fd, h') => fd = -1 ∨
      (0 ≤ fd ∧ h_open h fd = false ∧ h_open h' fd = true ∧ h_fsize h' fd = arena_capacity a ∧
       (∀ x, h_back h' x = h_back h x) ∧
       (∀ x, h_back h x ≠ None → h_mem h' x = h_mem h x) ∧
       (∀ o x q, maps (arena_spans a) o x q → h_file h' fd o = h_mem h x))
  | Stop w => w = OutOfFuel
  end.
Proof.
  intros Hwf. unfold arena_snapshot. destruct Hwf.
  destruct (h_mkstemp h) as [[fd|] h1] eqn:Em; [|by left].
  apply mkstemp_some in Em as (Hfd & Hc & Hz & Hf & Hb & Hm & Hos & _ & Hop).
  destruct (h_ftruncate h1 fd (arena_capacity a)) as [[] h2] eqn:Et; [|by left].
  apply ftruncate_ok in Et as (Hb2 & Hm2 & Hf2 & Ho2 & Hs2); [|lia].
  assert (fd ≠ arena_backing_fd a) as Hne by (intros ->; congruence).
  assert (Forall (span_ok h2 (arena_backing_fd a)) (arena_spans a)) as Hl.
  { eapply spans_ok_back; [|exact wf_spans0]. intros x _. rewrite Hb2. apply Hb. }
  pose proof (write_spans_spec fuel fd (arena_backing_fd a) (arena_spans a) h2 Hl Hne wf_apart0) as Hw.
  destruct (write_spans fuel fd (arena_spans a) h2) as [[[] h3]|w]; simpl; [|by left|done].
  right. destruct Hw.
  assert (∀ x, h_back h x ≠ None → h_mem h2 x = h_mem h x) as Hmm.
  { intros x Hx. rewrite Hm2, Hm; [done|done|]. by rewrite (proj1 (Hb x)). }
  split; [done|]. split; [done|]. split; [by rewrite ac_open0, Ho2|]. split.
  { rewrite ac_size0, Hs2, Z.eqb_refl; [done|]. intros s Hs.
    rewrite Hs2, Z.eqb_refl. rewrite Forall_forall in wf_below0. specialize (wf_below0 s Hs). lia. }
  split; [intros x; rewrite ac_back0, Hb2; apply Hb|]. split.
  - intros x Hx. rewrite ac_mem0; [auto|..]; rewrite Hb2, (proj1 (Hb x)); [done|apply Hb].
  - intros o x q Hx. rewrite (ac_here0 _ _ _ Hx). apply Hmm.
    by rewrite (maps_backed _ _ _ _ _ _ wf_spans0 Hx).
Qed.

(** Private mappings asked for one after the other, as a resuming process
    does before it writes anything. *)
Fixpoint map_privates (reqs : list (Z * Z)) (a : arena) (h : H) : outcome (arena * H) :=
  match reqs with
  | [] => Ret (a, h)
  | (off, size) :: reqs =>
      '(_, a, h) ← arena_map_private off size a h;
      map_privates reqs a h
  end.

Definition all_private a : Prop := ∀ s, s ∈ arena_spans a → sp_priv s = true.

(** Some private span holds the range. *)
Definition covered a (off size : Z) : Prop :=
  ∃ s, s ∈ arena_spans a ∧ holds_range s off size.

Lemma map_privates_spec reqs a h :
  arena_wf a h → pristine a h → all_private a →
  Forall (λ '(off, size), 0 ≤ off ∧ 0 < size ∧ off + size ≤ arena_brk a) reqs →
  match map_privates reqs a h with
  | Ret (a', h') =>
      arena_wf a' h' ∧ pristine a' h' ∧ arena_hdr a' = arena_hdr a ∧ all_private a' ∧
      (∀ fd o, h_file h' fd o = h_file h fd o) ∧
      (∀ off size, covered a off size → covered a' off size) ∧
      Forall (λ '(off, size), covered a' off size) reqs
  | Stop w => w = NoMemory
  end.
Proof.
  revert a h. induction reqs as [|[off size] reqs IH]; intros a h Hwf Hpr Hall Hreq; simpl.
  { repeat split; auto; apply Hwf. }
  apply Forall_cons in Hreq as [(Ho & Hs & Hb) Hreq].
  pose proof (arena_map_private_spec off size a h Hwf Ho Hs Hb) as Hm.
  destruct (arena_map_private off size a h) as [[[p a1] h1]|w]; simpl.
  2: { apply Hm. intros s Hs' Hp. rewrite Hall in Hp by done. done. }
  destruct Hm as [Hwf1 Hhdr Hhere Hkept Howned Hfile Hpr1].
  { intros s Hs' Hp. rewrite Hall in Hp by done. done. }
  assert (all_private a1) as Hall1.
  { intros s Hs'. destruct (sp_priv s) eqn:Ep; [done|].
    assert (0 < sp_size s) by (pose proof (wf_spans _ _ Hwf1) as Hf;
      rewrite Forall_forall in Hf; by apply (Hf s)).
    destruct (Howned (sp_off s) (sp_addr s)) as (t & Ht & _ & _ & Hpt).
    { exists s. unfold sp_end. repeat split; [done|lia..|done]. }
    by rewrite Hall in Hpt. }
  injection Hhdr as Hfd Hbrk Hcap.
  specialize (IH a1 h1 Hwf1 (Hpr1 Hpr) Hall1). rewrite Hbrk in IH. specialize (IH Hreq).
  destruct (map_privates reqs a1 h1) as [[a' h']|w]; [|done].
  destruct IH as (? & ? & Hh & ? & Hf & Hc & Hr). unfold arena_hdr in *.
  split; [done|]. split; [done|]. split; [congruence|]. split; [done|].
  split; [intros; by rewrite Hf|].
  assert (∀ off size, covered a off size → covered a1 off size) as Hc1.
  { intros o n (s & Hs' & [? ?]). destruct (Hkept s Hs') as (t & ? & _ & [? ?]).
    exists t. split; [done|]. unfold holds_range, sp_end in *. lia. }
  split; [auto|]. constructor; [|done]. apply Hc.
  destruct Hhere as (s & ? & _ & ? & _). by exists s.
Qed.

Lemma adopt_wf fd h :
  0 ≤ fd → h_open h fd = true → 0 ≤ h_fsize h fd ≤ 2^62 → aligned (h_fsize h fd) →
  h_fstat h fd = true →
  ∃ a, arena_adopt fd arena_boot h = Ret a ∧ arena_wf a h ∧ pristine a h ∧ all_private a ∧
       arena_backing_fd a = fd ∧ arena_brk a = h_fsize h fd.
Proof.
  intros Hfd Ho Hs Ha Hst. unfold arena_adopt. rewrite Hst. eexists. split; [done|].
  split; [|split; [|split; [|done]]].
  - split; simpl; try done; try lia. intros o Hb. by apply file_past_end.
  - intros o x (s & []%elem_of_nil & _).
  - intros s []%elem_of_nil.
Qed.

(** C20: a guest handed over to another process keeps its memory. The parent
    copies its arena into a fresh file; a process that inherited the descriptor
    adopts it, maps any ranges of it privately, in any order and overlapping in
    any way, and resolves each one again at the end: every byte of every range
    that was live in the parent reads in the child, at a contiguous address, as
    it read in the parent at the time of the copy. *)
Theorem handover_preserves_memory fuel a h fd h1 h2 reqs :
  arena_wf a h → arena_snapshot fuel a h = Ret (fd, h1) → fd ≠ -1 →
  h_fstat h2 fd = true → h_open h2 fd = true → h_fsize h2 fd = h_fsize h1 fd →
  (∀ o, h_file h2 fd o = h_file h1 fd o) →
  Forall (λ '(off, size), 0 ≤ off ∧ 0 < size ∧ off + size ≤ arena_brk a) reqs →
  match (a0 ← arena_adopt fd arena_boot h2; map_privates reqs a0 h2) with
  | Ret (a2, h3) =>
      ∀ off size, (off, size) ∈ reqs →
      ∃ base, arena_hva_of a2 off = Some base ∧
        ∀ d x, 0 ≤ d < size → arena_hva_of a (off + d) = Some x →
          h_mem h3 (base + d) = h_mem h x
  | Stop w => w = NoMemory
  end.
Proof.
  intros Hwf Hsnap Hok Hst Hop Hsz Hfile Hreq.
  pose proof (arena_snapshot_spec fuel a h Hwf) as Hs. rewrite Hsnap in Hs.
  destruct Hs as [->|(Hfd & _ & _ & Hcap & _ & _ & Hcopy)]; [done|].
  pose proof (wf_brk _ _ Hwf). pose proof (wf_limit _ _ Hwf).
  destruct (adopt_wf fd h2) as (a0 & -> & Hwf0 & Hpr0 & Hall0 & Hfd0 & Hbrk0); auto;
    [rewrite Hsz; lia|rewrite Hsz, Hcap; apply Hwf|]. simpl.
  pose proof (map_privates_spec reqs a0 h2 Hwf0 Hpr0 Hall0) as Hm.
  destruct (map_privates reqs a0 h2) as [[a2 h3]|w].
  2: { apply Hm. eapply Forall_impl; [exact Hreq|]. intros [o n]. rewrite Hbrk0, Hsz. lia. }
  destruct Hm as (Hwf2 & Hpr2 & Hhdr & Hall2 & Hf2 & _ & Hcov).
  { eapply Forall_impl; [exact Hreq|]. intros [o n]. rewrite Hbrk0, Hsz. lia. }
  intros off size Hin. rewrite Forall_forall in Hcov, Hreq.
  destruct (Hcov _ Hin) as (s & Hs & [Hlo Hhi]). specialize (Hreq _ Hin). simpl in Hreq.
  assert (∀ d, 0 ≤ d < size →
    maps (arena_spans a2) (off + d) (sp_addr s + (off - sp_off s) + d) true) as Hmaps.
  { intros d Hd. exists s. repeat split; [done|lia..|]. symmetry. by apply Hall2. }
  exists (sp_addr s + (off - sp_off s)). split.
  { specialize (Hmaps 0 ltac:(lia)). rewrite !Z.add_0_r in Hmaps.
    eapply maps_spans_hva_of; [apply Hwf2|done]. }
  intros d x Hd Hx. apply spans_hva_of_maps in Hx as [q Hx].
  rewrite (Hpr2 _ _ (Hmaps d Hd)). injection Hhdr as -> _ _. rewrite Hfd0, Hf2, Hfile.
  by apply (Hcopy _ _ _ Hx).
Qed.

(** ** Extension in place *)

Lemma resize_span_spec haddr off n l l' :
  resize_span haddr off n l = Some l' →
  ∃ l1 s l2, l = l1 ++ s :: l2 ∧ sp_addr s = haddr ∧ sp_off s = off ∧
             l' = l1 ++ mk_span haddr n off (sp_priv s) :: l2.
Proof.
  revert l'. induction l as [|s l IH]; intros l'; simpl; [done|].
  destruct (_ && _) eqn:E.
  - intros [= <-]. bool_to_prop. exists [], s, l. subst. done.
  - destruct (resize_span haddr off n l) as [k|]; simpl; [|done]. intros [= <-].
    destruct (IH k eq_refl) as (l1 & t & l2 & -> & ? & ? & ->). by exists (s :: l1), t, l2.
Qed.

(** The bytes [brk, brk + add) have been mapped right after the memory of the
    top span, which takes the new size. *)
Lemma arena_wf_resize a h h2 haddr off old add l1 s l2 :
  arena_wf a h → arena_spans a = l1 ++ s :: l2 → sp_addr s = haddr → sp_off s = off →
  sp_size s = old → off + old = arena_brk a → aligned add → 0 < add →
  arena_brk a + add ≤ arena_capacity a →
  h_mmap h (haddr + old) add (Private (arena_backing_fd a) (arena_brk a)) = (Some (haddr + old), h2) →
  let a' := set_spans (l1 ++ mk_span haddr (old + add) off (sp_priv s) :: l2) (set_brk (arena_brk a + add) a) in
  arena_wf a' h2 ∧ (∀ x, h_back h x ≠ None → h_mem h2 x = h_mem h x).
Proof.
  intros Hwf Hl <- <- <- Htop Hadd Hpos Hcap Hm a'. destruct Hwf.
  apply mmap_some in Hm as (Hp & Hpa & _ & Hfree & Hb & Hmem & Hnew & Hf & Ho & Hs); [|lia|done].
  split; [|done].
  assert (∀ x, h_back h x ≠ None → h_back h2 x = h_back h x) as Hkeep.
  { intros x Hx. rewrite Hb. destruct (in_range _ _ x) eqn:Ei; [|done].
    unfold in_range in Ei. bool_to_prop. destruct Hx. apply Hfree. lia. }
  rewrite Hl in *. apply Forall_app in wf_spans0 as [Hs1 [Hs0 Hs2]%Forall_cons].
  apply Forall_app in wf_below0 as [Hb1 [Hb0 Hb2]%Forall_cons].
  apply pairwise_app in wf_apart0 as (Hp1 & [Hp0 Hp2] & Hpx).
  subst a'. split; simpl; try done; try lia.
  - by rewrite Ho.
  - by apply aligned_add.
  - by rewrite Hs.
  - intros o Hbo. rewrite Hf. apply wf_zero0. lia.
  - apply Forall_app. split; [by eapply spans_ok_back|]. apply Forall_cons.
    split; [|by eapply spans_ok_back]. apply (span_ok_back _ _ _ _ Hkeep) in Hs0.
    destruct Hs0 as (? & ? & ? & ? & ? & Hd). unfold span_ok. simpl.
    split; [lia|]. split; [done|]. split; [done|]. split; [by apply aligned_add|]. split; [done|].
    intros d Hdd. destruct (decide (d < sp_size s)); [apply Hd; lia|].
    rewrite Hb. unfold in_range. rewrite (proj2 (Z.leb_le _ _)), (proj2 (Z.ltb_lt _ _)) by lia.
    simpl. do 2 f_equal. lia.
  - apply Forall_app. split; [eapply Forall_impl; [exact Hb1|]; simpl; intros; lia|].
    apply Forall_cons. split; [unfold sp_end; simpl; lia|].
    eapply Forall_impl; [exact Hb2|]; simpl; intros; lia.
  - apply pairwise_app. split; [done|]. split; [split; [|done]|].
    + rewrite Forall_forall in Hp0, Hb2 |- *. intros t Ht. specialize (Hp0 t Ht).
      specialize (Hb2 t Ht). rewrite Forall_forall in Hs2. destruct (Hs2 t Ht) as (? & _).
      unfold apart, sp_end in *. simpl. lia.
    + intros x y Hx Hy. apply elem_of_cons in Hy as [->|Hy]; [|apply Hpx; [done|by right]].
      assert (apart x s) as Hxs by (apply Hpx; [done|left]).
      rewrite Forall_forall in Hs1, Hb1. destruct (Hs1 x Hx) as (? & _). specialize (Hb1 x Hx).
      unfold apart, sp_end in *. simpl in *. lia.
  - unfold cap_ok in *. simpl. rewrite length_app in *. simpl in *. rewrite Hl in wf_table0.
    rewrite length_app in wf_table0. simpl in wf_table0. lia.
Qed.

(** A mapping that landed elsewhere and was given back leaves no trace. *)
Lemma map_unmap_wf a h h1 hint n b p :
  arena_wf a h → aligned n → 0 < n → h_mmap h hint n b = (Some p, h1) →
  arena_wf a (h_munmap h1 p n) ∧
  ∀ x, h_back h x ≠ None → h_mem (h_munmap h1 p n) x = h_mem h x.
Proof.
  intros Hwf Han Hn Hm.
  apply mmap_some in Hm as (Hp & Hpa & _ & Hfree & Hb & Hmem & _ & Hf & Ho & Hs); [|lia|done].
  destruct (munmap_law h1 p n Hpa Hn Han) as (Hb2 & Hm2 & Hf2 & Ho2 & Hs2).
  assert (∀ x, h_back (h_munmap h1 p n) x = h_back h x) as Hback.
  { intros x. rewrite Hb2, Hb. destruct (in_range p n x) eqn:E; [|done].
    symmetry. apply Hfree. unfold in_range in E. bool_to_prop. lia. }
  split.
  - destruct Hwf. split; auto; try congruence.
    + intros o Hbo. rewrite Hf2, Hf. auto.
    + eapply spans_ok_back; [|done]. intros x _. apply Hback.
  - intros x Hx. rewrite Hm2, Hmem; [done|done|]. by rewrite Hback.
Qed.

(** What growing [old] bytes at [haddr] to [new] answers. *)
Definition extended a h (off new haddr : Z) (r : option Z) a' h' : Prop :=
  arena_wf a' h' ∧ (∀ x, h_back h x ≠ None → h_mem h' x = h_mem h x) ∧
  match r with
  | Some p => p = haddr ∧ mapped_at a' off new haddr
  | None => arena_spans a' = arena_spans a
  end.

(** The part of [arena_extend] that maps, once the file is large enough. *)
Lemma extend_map a h off old add haddr :
  arena_wf a h → aligned add → 0 < add → off + old = arena_brk a →
  arena_brk a + add ≤ arena_capacity a → mapped_at a off old haddr →
  (∀ s, s ∈ arena_spans a → sp_addr s = haddr → sp_off s = off → sp_size s = old) →
  match
    match h_mmap h (haddr + old) add (Private (arena_backing_fd a) (arena_brk a)) with
    | (None, h) => Ret (None, a, h)
    | (Some p, h) =>
        if negb (p =? haddr + old) then Ret (None, a, h_munmap h p add)
        else
          match resize_span haddr off (old + add) (arena_spans a) with
          | Some l => Ret (Some haddr, set_spans l (set_brk (arena_brk a + add) a), h)
          | None =>
              a' ← arena_span_record h p add (arena_brk a) false (set_brk (arena_brk a + add) a);
              Ret (Some haddr, a', h)
          end
    end
  with
  | Ret (r, a', h') => extended a h off (old + add) haddr r a' h'
  | Stop w => w = NoMemory
  end.
Proof.
  intros Hwf Had Hpos Htop Hcap Hat Hspan.
  destruct (h_mmap h _ add _) as [[p|] h1] eqn:Em.
  2: { apply mmap_none in Em as (Hb & Hm & Hf & Ho & Hs). split; [|done].
       destruct Hwf. split; auto; try congruence.
       - intros o Hbo. rewrite Hf. auto.
       - eapply spans_ok_back; [|done]. intros x _. apply Hb. }
  destruct (p =? haddr + old) eqn:Ep; simpl.
  2: { destruct (map_unmap_wf _ _ _ _ _ _ _ Hwf Had Hpos Em). by split. }
  bool_to_prop. subst p.
  destruct (resize_span haddr off (old + add) (arena_spans a)) as [l|] eqn:Er.
  - apply resize_span_spec in Er as (l1 & s & l2 & Hl & Ha & Ho & ->).
    assert (sp_size s = old) by (apply Hspan; [rewrite Hl; set_solver|done..]).
    destruct (arena_wf_resize a h h1 haddr off old add l1 s l2) as [Hwf' Hmem]; try done.
    split; [done|]. split; [done|]. split; [done|]. intros d Hd. exists (sp_priv s).
    eexists. simpl. split; [apply elem_of_app; right; left|]. unfold sp_end. simpl. repeat split; lia.
  - pose proof (record_spec h1 (haddr + old) add (arena_brk a) false (set_brk (arena_brk a + add) a)) as Hr.
    destruct (arena_span_record _ _ _ _ _ _) as [a'|w] eqn:Ea; simpl; [|by destruct Hr].
    destruct (arena_wf_map a h h1 (haddr + old) add (haddr + old) a') as (Hwf' & Hl & []); try done.
    split; [done|]. split; [done|]. split; [done|]. intros d Hd. rewrite Hl.
    destruct (decide (d < old)).
    + destruct (Hat d) as [q Hq]; [lia|]. exists q. apply maps_app. by left.
    + exists false. apply maps_app. right. eexists. split; [left|]. unfold sp_end. simpl.
      repeat split; lia.
Qed.

(** Extending an allocation that starts on a granule either answers its own
    address, with every byte of the larger size mapped contiguously from there,
    or answers null and leaves the table as it was; either way live memory is
    untouched and the table well formed. *)
Theorem arena_extend_in_place a h off old_size new_size haddr :
  arena_wf a h → aligned off → 0 < old_size ≤ new_size → new_size ≤ 2^40 →
  arena_brk a ≤ 2^61 → mapped_at a off (roundup old_size ARENA_GRANULE) haddr →
  (∀ s, s ∈ arena_spans a → sp_addr s = haddr → sp_off s = off →
        sp_size s = roundup old_size ARENA_GRANULE) →
  match arena_extend off old_size new_size haddr a h with
  | Ret (r, a', h') => extended a h off (roundup new_size ARENA_GRANULE) haddr r a' h'
  | Stop w => w = NoMemory
  end.
Proof.
  intros Hwf Hao Hold Hnew Hbrk Hat Hspan. unfold arena_extend.
  destruct (_ || _); [by split|].
  destruct (roundup_spec old_size ARENA_GRANULE) as [Ho1 Ho2]; [unfold ARENA_GRANULE; lia..|].
  destruct (roundup_spec new_size ARENA_GRANULE) as [Hn1 Hn2]; [unfold ARENA_GRANULE; lia..|].
  set (old := roundup old_size ARENA_GRANULE) in *.
  set (new := roundup new_size ARENA_GRANULE) in *. change ARENA_GRANULE with 16384 in Hn1, Ho1.
  assert (old ≤ new) as Hle by (change ARENA_GRANULE with 16384 in Ho2, Hn2; lia_mod).
  destruct (new <=? old) eqn:E1; bool_to_prop.
  { split; [done|]. split; [done|]. split; [done|]. by replace new with old by lia. }
  destruct (off + old =? arena_brk a) eqn:E2; simpl; [|by split]. bool_to_prop.
  assert (aligned (new - old)) as Had by (by apply aligned_sub).
  pose proof (wf_brk _ _ Hwf) as Hb. pose proof (wf_limit _ _ Hwf) as Hl.
  replace (arena_brk a + (new - old) - (new - old)) with (arena_brk a) by lia.
  destruct (arena_capacity a <? arena_brk a + (new - old)) eqn:E3; bool_to_prop.
  - rewrite u64_small by lia. change ARENA_GROW_STEP with 4194304.
    destruct (roundup_spec (arena_brk a + (new - old)) 4194304) as [Hw1 Hw2]; [lia..|].
    set (want := roundup _ 4194304) in *. rewrite s64_small by lia.
    destruct (h_ftruncate h (arena_backing_fd a) want) as [[] h1] eqn:Et; simpl.
    2: { apply ftruncate_fail in Et as (Hb1 & Hm1 & Hf1 & Ho3 & Hs1). split; [|done].
         destruct Hwf. split; auto; try congruence.
         - intros o Hbo. rewrite Hf1. auto.
         - eapply spans_ok_back; [|done]. intros x _. apply Hb1. }
    destruct (arena_wf_grow a h h1 want Hwf Et ltac:(lia) (aligned_step _ Hw2)) as (Hwf1 & Hb1 & Hm1).
    pose proof (extend_map (set_capacity want a) h1 off old (new - old) haddr Hwf1 Had ltac:(lia)
      E2 ltac:(simpl; lia) Hat Hspan) as Hx. simpl in Hx.
    replace (old + (new - old)) with new in Hx by lia.
    replace (arena_brk a + (new - old) - (new - old)) with (arena_brk a) by lia.
    match type of Hx with match ?m with _ => _ end =>
      destruct m as [[[r a'] h']|w]; [|done] end.
    destruct Hx as (Hwf' & Hm' & Hr). split; [done|]. split; [|done].
    intros x Hx. rewrite Hm', Hm1; [done|done|]. by rewrite Hb1.
  - simpl. pose proof (extend_map a h off old (new - old) haddr Hwf Had ltac:(lia)
      E2 ltac:(lia) Hat Hspan) as Hx.
    replace (old + (new - old)) with new in Hx by lia.
    by replace (arena_brk a + (new - old) - (new - old)) with (arena_brk a) by lia.
Qed.

(** Asked to grow the last page of a span to four pages, the call answers
    that there is nothing to add, although no byte past the first page is
    mapped: the rounding counts the granule from the piece's own start. *)
Theorem arena_extend_past_block a h s :
  arena_wf a h → s ∈ arena_spans a → sp_end s = arena_brk a → 0 < sp_addr s →
  let off := sp_end s - 0x1000 in
  let haddr := sp_addr s + sp_size s - 0x1000 in
  arena_extend off 0x1000 0x4000 haddr a h = Ret (Some haddr, a, h) ∧
  maps (arena_spans a) off haddr (sp_priv s) ∧
  ∀ d x q, 0x1000 ≤ d → ¬ maps (arena_spans a) (off + d) x q.
Proof.
  intros Hwf Hs Htop Haddr off haddr.
  pose proof (wf_spans _ _ Hwf) as Hok. rewrite Forall_forall in Hok.
  destruct (Hok s Hs) as (Hsz & _ & _ & Has & _ & _).
  assert (0x4000 ≤ sp_size s) by (unfold aligned in Has; change ARENA_GRANULE with 16384 in Has; lia_mod).
  split; [|split].
  - unfold arena_extend. rewrite (proj2 (Z.ltb_ge _ _)) by apply Hwf.
    rewrite (proj2 (Z.eqb_neq _ _)) by (subst haddr; lia). done.
  - exists s. subst off haddr. unfold sp_end. repeat split; [done|lia..].
  - intros d x q Hd (t & Ht & Ho & _). pose proof (wf_below _ _ Hwf) as Hb.
    rewrite Forall_forall in Hb. specialize (Hb t Ht). lia.
Qed.

(** ** Termination of the handover copy *)

(** The host's [pwrite] makes progress: it is not interrupted and takes at
    least one byte of a request for some. *)
Definition pwrite_progress : Prop :=
  ∀ (h : H) fd p n off, 0 < n →
  match (h_pwrite h fd p n off).1 with Wrote r => 0 < r | WriteEintr => False | WriteError => True end.

Lemma write_span_returns fuel fd p n off h :
  pwrite_progress → n ≤ Z.of_nat fuel → ∃ r, write_span fuel fd p n off h = Ret r.
Proof.
  intros Hpr. revert p n off h. induction fuel as [|fuel IH]; intros p n off h Hn; simpl;
    destruct (0 <? n) eqn:En; bool_to_prop; try (by eauto); [lia|].
  set (want := if ARENA_WRITE_MAX <? n then ARENA_WRITE_MAX else n).
  assert (0 < want) as Hw.
  { subst want. change ARENA_WRITE_MAX with 1073741824. case_bool; lia. }
  specialize (Hpr h fd p want off Hw).
  destruct (h_pwrite h fd p want off) as [[r| |] h1]; simpl in Hpr; [|done|by eauto].
  apply IH. lia.
Qed.

(** The handover copy returns, with or without a descriptor, when [pwrite]
    makes progress: one iteration per byte of the largest span is enough. *)
Theorem arena_snapshot_returns fuel a h :
  pwrite_progress → Forall (λ s, sp_size s ≤ Z.of_nat fuel) (arena_spans a) →
  ∃ fd h', arena_snapshot fuel a h = Ret (fd, h').
Proof.
  intros Hpr Hall. unfold arena_snapshot.
  destruct (h_mkstemp h) as [[fd|] h1]; [|by eauto].
  destruct (h_ftruncate h1 fd _) as [[] h2]; [|by eauto].
  assert (∃ r, write_spans fuel fd (arena_spans a) h2 = Ret r) as [[[] h3] ->]; [|by eauto..].
  revert h2. induction Hall as [|s l Hs Hl IH]; intros h2; simpl; [by eauto|].
  destruct (write_span_returns fuel fd (sp_addr s) (sp_size s) (sp_off s) h2 Hpr Hs) as [[[] h3] ->];
    simpl; [apply IH|by eauto].
Qed.

End ArenaFacts.

(** * Instances on the concrete host

    A fresh arena, the same arena with two allocations, and the file a handover
    of the second leaves behind. *)

Definition demo0 : arena * toy := ret_or (arena_boot, toy_boot) (arena_init arena_boot toy_boot).

Definition demo_alloc (size : Z) (s : arena * toy) : arena * toy :=
  match arena_alloc size s.1 s.2 with Ret (_, _, a, h) => (a, h) | Stop _ => s end.

Definition demo2 : arena * toy := demo_alloc 0x4000 (demo_alloc 0x5000 demo0).

Definition demo_snap : Z * toy := ret_or (0, toy_boot) (arena_snapshot 1 demo2.1 demo2.2).

Lemma demo0_wf : arena_wf demo0.1 demo0.2.
Proof.
  pose proof (arena_init_wf toy_boot) as Hi.
  assert (is_ret (arena_init arena_boot toy_boot) = true) as Hr by (vm_compute; reflexivity).
  unfold demo0. destruct (arena_init arena_boot toy_boot) as [[a h]|w]; [by destruct Hi|done].
Qed.

Lemma demo_alloc_wf size s :
  arena_wf s.1 s.2 → 0 < size ≤ 2^40 → arena_brk s.1 ≤ 2^61 →
  arena_wf (demo_alloc size s).1 (demo_alloc size s).2.
Proof.
  intros Hwf Hs Hb. unfold demo_alloc. pose proof (arena_alloc_wf size s.1 s.2 Hwf Hs Hb) as Ha.
  destruct (arena_alloc size s.1 s.2) as [[[[p off] a] h]|w]; [|done]. by destruct Ha.
Qed.

Lemma demo2_wf : arena_wf demo2.1 demo2.2.
Proof.
  apply demo_alloc_wf; [apply demo_alloc_wf; [apply demo0_wf|lia|]|lia|]; vm_compute; congruence.
Qed.

Lemma arena_alloc_fresh_witness :
  match arena_alloc 100 demo2.1 demo2.2 with
  | Ret (p, off, a', _) => arena_hva_of a' (off + 0x10) = Some (p + 0x10)
  | Stop _ => False
  end.
Proof.
  pose proof (arena_alloc_fresh 100 demo2.1 demo2.2 demo2_wf ltac:(lia)
    ltac:(vm_compute; congruence)) as Hw.
  assert (is_ret (arena_alloc 100 demo2.1 demo2.2) = true) as Hr by (vm_compute; reflexivity).
  destruct (arena_alloc 100 demo2.1 demo2.2) as [[[[p off] a'] h']|w]; [|done].
  destruct Hw as (_ & _ & _ & Hd & _). apply Hd. vm_compute. split; congruence.
Defined.

Lemma demo2_spans :
  arena_spans demo2.1 = [mk_span 0x100000000 0x8000 0 false; mk_span 0x100008000 0x4000 0x8000 false].
Proof. vm_compute. reflexivity. Qed.

Lemma demo2_mapped : mapped_at demo2.1 0 0x8000 0x100000000.
Proof.
  intros d Hd. exists false, (mk_span 0x100000000 0x8000 0 false).
  split; [rewrite demo2_spans; left|]. unfold sp_end; simpl. repeat split; lia.
Qed.

Lemma arena_free_exact_witness :
  match arena_free 0 0x8000 demo2.1 (h_munmap demo2.2 0x100000000 0x8000) with
  | Ret (a', _) => ∀ x q, ¬ maps (arena_spans a') 0x1000 x q
  | Stop _ => False
  end.
Proof.
  pose proof (arena_free_exact demo2.1 demo2.2 0 0x8000 0x100000000 demo2_wf
    eq_refl eq_refl ltac:(lia) eq_refl demo2_mapped) as Hw.
  assert (is_ret (arena_free 0 0x8000 demo2.1 (h_munmap demo2.2 0x100000000 0x8000)) = true)
    as Hr by (vm_compute; reflexivity).
  destruct (arena_free 0 0x8000 demo2.1 _) as [[a' h']|w]; [|done].
  destruct Hw as (_ & Hm & _). intros x q. rewrite Hm. lia.
Defined.

Lemma demo_snap_eq : arena_snapshot 1 demo2.1 demo2.2 = Ret (demo_snap.1, demo_snap.2).
Proof.
  rewrite <- surjective_pairing. apply ret_or_eq. vm_compute. reflexivity.
Qed.

Lemma demo_adopted :
  ∃ a, arena_adopt demo_snap.1 arena_boot demo_snap.2 = Ret a ∧ arena_wf a demo_snap.2 ∧
       pristine a demo_snap.2 ∧ all_private a ∧
       arena_backing_fd a = demo_snap.1 ∧ arena_brk a = h_fsize demo_snap.2 demo_snap.1.
Proof. apply adopt_wf; vm_compute; try split; congruence. Qed.

Lemma arena_map_private_one_view_witness :
  ∃ a, arena_adopt demo_snap.1 arena_boot demo_snap.2 = Ret a ∧
  match arena_map_private 0x1000 0x5000 a demo_snap.2 with
  | Ret (p, a', h') => maps (arena_spans a') 0x1000 p true ∧ pristine a' h'
  | Stop _ => False
  end.
Proof.
  destruct demo_adopted as (a & Ha & Hwf & Hpr & Hall & _ & Hb). exists a. split; [done|].
  pose proof (arena_map_private_one_view 0x1000 0x5000 a demo_snap.2 Hwf) as Hw.
  assert (is_ret (a ← arena_adopt demo_snap.1 arena_boot demo_snap.2;
                  arena_map_private 0x1000 0x5000 a demo_snap.2) = true) as Hr
    by (vm_compute; reflexivity).
  rewrite Ha in Hr. cbn [mbind outcome_bind] in Hr.
  destruct (arena_map_private 0x1000 0x5000 a demo_snap.2) as [[[p a'] h']|w]; [|done].
  destruct Hw as (Hm & _ & _ & Hp & _); [lia|lia|rewrite Hb; vm_compute; congruence| |].
  { intros s Hs Hsp. by rewrite Hall in Hsp. }
  split; [|auto]. specialize (Hm 0 ltac:(lia)). by rewrite !Z.add_0_r in Hm.
Defined.

Definition demo_reqs : list (Z * Z) := [(0x1000, 0x3000); (0, 0x1000); (0x7000, 0x4000)].

Lemma handover_preserves_memory_witness :
  match (a0 ← arena_adopt demo_snap.1 arena_boot demo_snap.2; map_privates demo_reqs a0 demo_snap.2) with
  | Ret (a2, h3) => ∃ base, arena_hva_of a2 0x7000 = Some base ∧
                            h_mem h3 (base + 0x10) = h_mem demo2.2 0x100007010
  | Stop _ => False
  end.
Proof.
  pose proof (handover_preserves_memory 1 demo2.1 demo2.2 demo_snap.1 demo_snap.2 demo_snap.2
    demo_reqs demo2_wf demo_snap_eq) as Hw.
  assert (is_ret (a0 ← arena_adopt demo_snap.1 arena_boot demo_snap.2;
                  map_privates demo_reqs a0 demo_snap.2) = true) as Hr by (vm_compute; reflexivity).
  destruct (a0 ← arena_adopt demo_snap.1 arena_boot demo_snap.2; _) as [[a2 h3]|w]; [|done].
  destruct Hw with (off := 0x7000) (size := 0x4000) as (base & Hb & Hd).
  - vm_compute. congruence.
  - vm_compute. reflexivity.
  - vm_compute. reflexivity.
  - done.
  - done.
  - repeat (apply Forall_cons; split; [vm_compute; intuition congruence|]). by apply Forall_nil.
  - unfold demo_reqs. right. right. left.
  - exists base. split; [done|]. apply Hd; [lia|vm_compute; reflexivity].
Defined.

Lemma demo2_top : mapped_at demo2.1 0x8000 0x4000 0x100008000.
Proof.
  intros d Hd. exists false, (mk_span 0x100008000 0x4000 0x8000 false).
  split; [rewrite demo2_spans; right; left|]. unfold sp_end; simpl. repeat split; lia.
Qed.

Lemma arena_extend_in_place_witness :
  match arena_extend 0x8000 0x4000 0x9000 0x100008000 demo2.1 demo2.2 with
  | Ret (r, a', _) => r = Some 0x100008000 ∧ mapped_at a' 0x8000 0xc000 0x100008000
  | Stop _ => False
  end.
Proof.
  pose proof (arena_extend_in_place demo2.1 demo2.2 0x8000 0x4000 0x9000 0x100008000 demo2_wf
    eq_refl ltac:(lia) ltac:(lia) ltac:(vm_compute; congruence) demo2_top) as Hw.
  assert (match arena_extend 0x8000 0x4000 0x9000 0x100008000 demo2.1 demo2.2 with
          | Ret (r, _, _) => r | Stop _ => None end = Some 0x100008000) as Hr
    by (vm_compute; reflexivity).
  destruct (arena_extend 0x8000 0x4000 0x9000 0x100008000 demo2.1 demo2.2) as [[[r a'] h']|w];
    [|done].
  subst r. destruct Hw as (_ & _ & _ & Hr); [|by split].
  intros s Hs. rewrite demo2_spans, !elem_of_cons, elem_of_nil in Hs.
  destruct Hs as [->|[->|[]]]; [done|]. intros _ _. vm_compute. reflexivity.
Defined.

Lemma arena_extend_past_block_witness :
  arena_extend 0xb000 0x1000 0x4000 0x10000b000 demo2.1 demo2.2 =
    Ret (Some 0x10000b000, demo2.1, demo2.2) ∧
  ∀ x q, ¬ maps (arena_spans demo2.1) 0xc000 x q.
Proof.
  destruct (arena_extend_past_block demo2.1 demo2.2 (mk_span 0x100008000 0x4000 0x8000 false) demo2_wf)
    as (He & _ & Hn); [rewrite demo2_spans; right; left|vm_compute; reflexivity|done|].
  split; [exact He|]. intros x q. by apply (Hn 0x1000).
Defined.

Lemma arena_snapshot_returns_witness :
  ∃ fd h', arena_snapshot (Z.to_nat 0x8000) demo2.1 demo2.2 = Ret (fd, h').
Proof.
  apply arena_snapshot_returns.
  - intros h fd p n off Hn. simpl. unfold toy_pwrite.
    by rewrite (proj2 (Z.ltb_ge n 0)) by lia.
  - rewrite demo2_spans, Z2Nat.id by lia.
    do 2 (apply Forall_cons; split; [simpl; lia|]). by apply Forall_nil.
Defined.

Lemma arena_span_forget_exact_witness :
  match arena_span_forget demo2.2 0x4000 0x4000 demo2.1 with
  | Ret a' => maps (arena_spans a') 0x3000 0x100003000 false ∧ ∀ x q, ¬ maps (arena_spans a') 0x5000 x q
  | Stop _ => False
  end.
Proof.
  pose proof (arena_span_forget_exact demo2.2 0x4000 0x4000 demo2.1) as Hw.
  assert (is_ret (arena_span_forget demo2.2 0x4000 0x4000 demo2.1) = true) as Hr
    by (vm_compute; reflexivity).
  destruct (arena_span_forget demo2.2 0x4000 0x4000 demo2.1) as [a'|w]; [|done].
  destruct Hw as [Hm _]. split; [|intros x q; rewrite Hm; lia].
  apply Hm. split; [|lia]. exists (mk_span 0x100000000 0x8000 0 false).
  rewrite demo2_spans. split; [left|done].
Defined.
