(* ===== verification/Stage2.v ===== *)
(** The stage-2 registry of lib/vmm_arm64.c: which host page backs each 16KiB
    block of guest-physical address space, how many stage-1 descriptors use it,
    and the reverse index that keeps one block per host page.
    Hypervisor.framework comes through [HvOps]. *)

From S2P Require Import Prelude Arena.

Definition STAGE2_GRANULE : Z := 0x4000.

Definition HV_MEMORY_READ : Z := 1.
Definition HV_MEMORY_WRITE : Z := 2.
Definition HV_MEMORY_EXEC : Z := 4.

(** [x & ~(STAGE2_GRANULE - 1)] and [x & (STAGE2_GRANULE - 1)]. *)
Definition granule_of (x : Z) : Z := align_down 14 x.
Definition granule_off (x : Z) : Z := Z.land x 0x3fff.

(** The virtual machine's guest-physical map, one entry per block: the host
    page behind it and its permission. [hv_vm_map] may refuse. *)
Class HvOps (V : Type) := {
  hv_view : V → Z → option (Z * Z);
  hv_limit : V → Z;
  hv_vm_map : V → Z → Z → Z → Z → option V;
  hv_vm_unmap : V → Z → Z → V;
}.

(** A host page is live at an IPA other than those in [i, i + n). *)
Definition live_elsewhere {V} `{HvOps V} (v : V) (i n hp : Z) : Prop :=
  ∃ y p, hv_view v y = Some (hp, p) ∧ ¬ (i ≤ y < i + n).

(** What the framework's documentation and the measurements the source quotes
    say: a mapping replaces the blocks it names and no others; it is accepted
    when the three arguments are granular, the range is free and fits the
    guest-physical space, the permission is one, none included, and the host
    pages are live at no other address. *)
Class HvLaws (V : Type) `{HvOps V} := {
  hv_map_some v h i n p v' : hv_vm_map v h i n p = Some v' →
    hv_limit v' = hv_limit v ∧
    ∀ x, hv_view v' x = if (i <=? x) && (x <? i + n) && (x mod STAGE2_GRANULE =? 0)
                        then Some (h + (x - i), p) else hv_view v x;
  hv_map_accepts v h i p :
    h mod STAGE2_GRANULE = 0 → i mod STAGE2_GRANULE = 0 → 0 ≤ p < 8 →
    0 ≤ i → i + STAGE2_GRANULE ≤ hv_limit v → hv_view v i = None →
    ¬ live_elsewhere v i STAGE2_GRANULE h →
    hv_vm_map v h i STAGE2_GRANULE p ≠ None;
  hv_unmap_law v i n :
    hv_limit (hv_vm_unmap v i n) = hv_limit v ∧
    ∀ x, hv_view (hv_vm_unmap v i n) x =
         if (i <=? x) && (x <? i + n) then None else hv_view v x;
}.

Record s2_ent := mk_s2 { s2_haddr : Z; s2_prot : Z; s2_refs : Z }.

(** [s2_map] and [hblk_index]; a null [hblk_index] is the empty one. *)
Record s2_state (V : Type) := mk_s2_state {
  s2_map : gmap Z s2_ent;
  hblk_index : gmap Z Z;
  s2_vm : V;
}.
Arguments mk_s2_state {V}.
Arguments s2_map {V}.
Arguments hblk_index {V}.
Arguments s2_vm {V}.

(** The offsets 0, G, 2G, ... below [size]. *)
Definition granules (size : Z) : list Z := counter STAGE2_GRANULE size.

Section Stage2.
Context {V : Type} `{HvOps V}.
Implicit Type s : s2_state V.

Definition set_vm (v : V) s : s2_state V := mk_s2_state (s2_map s) (hblk_index s) v.
Definition set_map (m : gmap Z s2_ent) s : s2_state V := mk_s2_state m (hblk_index s) (s2_vm s).

Definition s2_record1 (ipa prot haddr : Z) s : s2_state V :=
  let refs := match s2_map s !! ipa with Some e => s2_refs e | None => 0 end in
  mk_s2_state (<[ipa := mk_s2 haddr prot refs]> (s2_map s)) (<[haddr := ipa]> (hblk_index s)) (s2_vm s).

Definition s2_record (ipa size prot haddr : Z) s : s2_state V :=
  foldl (λ s off, s2_record1 (ipa + off) prot (haddr + off) s) s (granules size).

Definition s2_forget1 (ipa : Z) s : s2_state V :=
  match s2_map s !! ipa with
  | None => s
  | Some e => mk_s2_state (delete ipa (s2_map s)) (delete (s2_haddr e) (hblk_index s)) (s2_vm s)
  end.

Definition s2_forget (ipa size : Z) s : s2_state V :=
  foldl (λ s off, s2_forget1 (ipa + off) s) s (granules size).

Definition vmm_arm64_map_stage2 (ipa size prot haddr : Z) s : outcome (s2_state V) :=
  assert_c (granule_off haddr =? 0);;
  assert_c (granule_off ipa =? 0);;
  assert_c (granule_off size =? 0);;
  let v := match s2_map s !! granule_of ipa with
           | Some _ => hv_vm_unmap (s2_vm s) ipa size
           | None => s2_vm s
           end in
  match hv_vm_map v haddr ipa size prot with
  | None => Stop Panicked
  | Some v => Ret (s2_record ipa size prot haddr (set_vm v s))
  end.

Definition vmm_arm64_unmap_stage2 (ipa size : Z) s : outcome (s2_state V) :=
  assert_c (granule_off size =? 0);;
  let v := match s2_map s !! granule_of ipa with
           | Some _ => hv_vm_unmap (s2_vm s) ipa size
           | None => s2_vm s
           end in
  Ret (s2_forget ipa size (set_vm v s)).

(** The block's IPA and whether it had to be made. *)
Definition vmm_arm64_s2_block_for (hostpage prot fresh_ipa : Z) s
  : outcome (Z * bool * s2_state V) :=
  assert_c (granule_off hostpage =? 0);;
  let fresh :=
    s ← vmm_arm64_map_stage2 fresh_ipa STAGE2_GRANULE
          (if prot =? 0 then HV_MEMORY_READ else prot) hostpage s;
    Ret (fresh_ipa, true, s) in
  match hblk_index s !! hostpage with
  | None => fresh
  | Some ipa =>
      match s2_map s !! ipa with
      | None => fresh
      | Some e =>
          let have := s2_prot e in
          if negb (Z.lor have prot =? have) then
            s ← vmm_arm64_map_stage2 ipa STAGE2_GRANULE (Z.lor have prot) hostpage s;
            Ret (ipa, false, s)
          else Ret (ipa, false, s)
      end
  end.

Definition vmm_arm64_s2_ref (ipa : Z) s : s2_state V :=
  let k := granule_of ipa in
  match s2_map s !! k with
  | None => s
  | Some e => set_map (<[k := mk_s2 (s2_haddr e) (s2_prot e) (u32 (s2_refs e + 1))]> (s2_map s)) s
  end.

Definition vmm_arm64_s2_unref (ipa : Z) s : bool * s2_state V :=
  let k := granule_of ipa in
  match s2_map s !! k with
  | None => (false, s)
  | Some e =>
      let refs := if 0 <? s2_refs e then s2_refs e - 1 else s2_refs e in
      (refs =? 0, set_map (<[k := mk_s2 (s2_haddr e) (s2_prot e) refs]> (s2_map s)) s)
  end.

Definition vmm_arm64_s2_clear_refs s : s2_state V :=
  set_map ((λ e, mk_s2 (s2_haddr e) (s2_prot e) 0) <$> s2_map s) s.

Definition vmm_arm64_s2_reprotect (ipa prot : Z) s : outcome (s2_state V) :=
  let base := granule_of ipa in
  match s2_map s !! base with
  | None => Ret s
  | Some e => vmm_arm64_map_stage2 base STAGE2_GRANULE prot (s2_haddr e) s
  end.

Definition vmm_arm64_s2_reflush (ipa : Z) s : outcome (s2_state V) :=
  match s2_map s !! granule_of ipa with
  | None => Ret s
  | Some e => vmm_arm64_map_stage2 (granule_of ipa) STAGE2_GRANULE (s2_prot e) (s2_haddr e) s
  end.

(** How many entries there are and the first [max] of them: the block, the
    arena offset of its host page (-1 when it is not arena memory) and its
    permission. *)
Definition vmm_arm64_s2_snapshot (a : arena) (max : nat) s : nat * list (Z * Z * Z) :=
  let l := map_to_list (s2_map s) in
  (length l, (λ '(ipa, e), (ipa, arena_offset_of a (s2_haddr e), s2_prot e)) <$> take max l).

Fixpoint vmm_arm64_s2_restore (a : arena) (saved : list (Z * Z * Z)) s : outcome (s2_state V) :=
  match saved with
  | [] => Ret s
  | (ipa, off, prot) :: saved =>
      if off <? 0 then vmm_arm64_s2_restore a saved s
      else
        match arena_hva_of a off with
        | None => Stop Panicked
        | Some hva =>
            s ← vmm_arm64_map_stage2 ipa STAGE2_GRANULE prot hva s;
            vmm_arm64_s2_restore a saved s
        end
  end.



End Stage2.

(** * The registry's invariant

    The reverse index is the inverse of the registry, so a host page has one
    block; and the virtual machine maps exactly what the registry says. *)

Definition gran (x : Z) : Prop := x mod STAGE2_GRANULE = 0.

Section Stage2Facts.
Context {V : Type} `{HV : HvLaws V}.
Implicit Type s : s2_state V.

Record ent_ok (limit ipa : Z) (e : s2_ent) : Prop := {
  eo_ipa : gran ipa ∧ 0 ≤ ipa ∧ ipa + STAGE2_GRANULE ≤ limit;
  eo_haddr : gran (s2_haddr e);
  eo_prot : 0 ≤ s2_prot e < 8;
  eo_refs : 0 ≤ s2_refs e < 2^32;
}.

Record s2_ok s : Prop := {
  so_ents : map_Forall (ent_ok (hv_limit (s2_vm s))) (s2_map s);
  so_fwd ipa e : s2_map s !! ipa = Some e → hblk_index s !! s2_haddr e = Some ipa;
  so_bwd h ipa : hblk_index s !! h = Some ipa → s2_haddr <$> s2_map s !! ipa = Some h;
  so_view x : hv_view (s2_vm s) x = (λ e, (s2_haddr e, s2_prot e)) <$> s2_map s !! x;
}.

Lemma granule_off_mod x : granule_off x = x mod STAGE2_GRANULE.
Proof.
  unfold granule_off. change 0x3fff with (Z.ones 14). by rewrite Z.land_ones.
Qed.

Lemma granule_of_gran x : gran x → granule_of x = x.
Proof.
  unfold granule_of, gran. rewrite align_down_spec by lia. change (2^14) with 16384.
  change STAGE2_GRANULE with 16384. intros. lia_mod.
Qed.

Lemma granule_of_spec x : gran (granule_of x) ∧ granule_of x ≤ x < granule_of x + STAGE2_GRANULE.
Proof.
  unfold granule_of, gran. rewrite align_down_spec by lia. change (2^14) with 16384.
  change STAGE2_GRANULE with 16384. split; [by apply Z.mod_mul|lia_mod].
Qed.

Lemma granules_one : granules STAGE2_GRANULE = [0].
Proof. done. Qed.

(** The blocks [i, i + G) meets is just [i]. *)
Lemma one_block i x :
  gran i → (i <=? x) && (x <? i + STAGE2_GRANULE) && (x mod STAGE2_GRANULE =? 0) = bool_decide (x = i).
Proof.
  intros Hi. unfold gran in Hi. change STAGE2_GRANULE with 16384 in *.
  destruct (bool_decide_reflect (x = i)) as [->|Hne].
  - rewrite Hi. rewrite (proj2 (Z.leb_le i i)), (proj2 (Z.ltb_lt i _)) by lia. done.
  - apply not_true_iff_false. intros Hb. bool_to_prop. apply Hne. lia_mod.
Qed.

(** No registry entry but the one at [ipa] uses the host page. *)
Definition page_free (ipa haddr : Z) s : Prop :=
  ∀ j, hblk_index s !! haddr = Some j → j = ipa.

Lemma map_stage2_unfold ipa prot haddr s :
  gran haddr → gran ipa →
  vmm_arm64_map_stage2 ipa STAGE2_GRANULE prot haddr s =
  match hv_vm_map (match s2_map s !! ipa with
                   | Some _ => hv_vm_unmap (s2_vm s) ipa STAGE2_GRANULE
                   | None => s2_vm s end) haddr ipa STAGE2_GRANULE prot with
  | None => Stop Panicked
  | Some v => Ret (s2_record1 ipa prot haddr (set_vm v s))
  end.
Proof.
  intros Hh Hi. unfold vmm_arm64_map_stage2. rewrite !granule_off_mod, Hh, Hi.
  rewrite granule_of_gran by done. simpl.
  destruct (hv_vm_map _ _ _ _ _); [|done]. unfold s2_record. rewrite granules_one. simpl.
  by rewrite !Z.add_0_r.
Qed.

(** The machine just before [hv_vm_map]: the block is clear. *)
Definition cleared (ipa : Z) s : V :=
  match s2_map s !! ipa with
  | Some _ => hv_vm_unmap (s2_vm s) ipa STAGE2_GRANULE
  | None => s2_vm s
  end.

Lemma cleared_view ipa s :
  s2_ok s → gran ipa →
  hv_limit (cleared ipa s) = hv_limit (s2_vm s) ∧
  ∀ x, hv_view (cleared ipa s) x =
       if bool_decide (x = ipa) then None else (λ e, (s2_haddr e, s2_prot e)) <$> s2_map s !! x.
Proof.
  intros [Hents _ _ Hview] Hi. unfold cleared.
  destruct (s2_map s !! ipa) as [e|] eqn:E.
  - destruct (hv_unmap_law (s2_vm s) ipa STAGE2_GRANULE) as [Hl Hu]. split; [done|].
    intros x. rewrite Hu, Hview. destruct (s2_map s !! x) as [ex|] eqn:Ex.
    + rewrite <- one_block by done. rewrite (proj1 (eo_ipa _ _ _ (Hents _ _ Ex))).
      by rewrite andb_true_r.
    + by destruct (_ && _), (bool_decide _).
  - split; [done|]. intros x. rewrite Hview.
    destruct (bool_decide_reflect (x = ipa)) as [->|]; [by rewrite E|done].
Qed.

(** Recording a block over a machine that maps it. *)
Lemma record1_ok ipa prot haddr s v :
  s2_ok s → ent_ok (hv_limit v) ipa (mk_s2 haddr prot 0) →
  hv_limit v = hv_limit (s2_vm s) → page_free ipa haddr s →
  (∀ e, s2_map s !! ipa = Some e → s2_haddr e = haddr) →
  (∀ x, hv_view v x = if bool_decide (x = ipa) then Some (haddr, prot)
                      else (λ e, (s2_haddr e, s2_prot e)) <$> s2_map s !! x) →
  s2_ok (s2_record1 ipa prot haddr (set_vm v s)).
Proof.
  intros [Hents Hfwd Hbwd _] [] Hl Hfree Hsame Hview. simpl in *. split; simpl.
  - rewrite Hl in *. apply map_Forall_insert_2; [|done]. split; simpl; try done.
    destruct (s2_map s !! ipa) as [e|] eqn:E; [apply (Hents _ _ E)|lia].
  - intros j e. destruct (decide (j = ipa)) as [->|Hne].
    + rewrite lookup_insert_eq. intros [= <-]. simpl. by rewrite lookup_insert_eq.
    + rewrite lookup_insert_ne by done. intros Hj. rewrite lookup_insert_ne; [auto|].
      intros Heq. apply Hne, Hfree. rewrite Heq. auto.
  - intros h j. destruct (decide (h = haddr)) as [->|Hne].
    + rewrite lookup_insert_eq. intros [= <-]. by rewrite lookup_insert_eq.
    + rewrite lookup_insert_ne by done. intros Hj. pose proof (Hbwd _ _ Hj) as Hb.
      destruct (decide (j = ipa)) as [->|Hji]; [|by rewrite lookup_insert_ne].
      exfalso. destruct (s2_map s !! ipa) as [e|] eqn:E; [|done]. simpl in Hb.
      injection Hb as Hb. specialize (Hsame e eq_refl). congruence.
  - intros x. rewrite Hview. destruct (bool_decide_reflect (x = ipa)) as [->|Hne].
    + by rewrite lookup_insert_eq.
    + by rewrite lookup_insert_ne.
Qed.

(** Establishing or re-establishing a block. *)
Lemma map_stage2_ok ipa prot haddr s :
  s2_ok s → gran haddr → gran ipa → 0 ≤ ipa → ipa + STAGE2_GRANULE ≤ hv_limit (s2_vm s) →
  0 ≤ prot < 8 → page_free ipa haddr s →
  (∀ e, s2_map s !! ipa = Some e → s2_haddr e = haddr) →
  let refs := match s2_map s !! ipa with Some e => s2_refs e | None => 0 end in
  match vmm_arm64_map_stage2 ipa STAGE2_GRANULE prot haddr s with
  | Ret s' => s2_ok s' ∧ s2_map s' = <[ipa := mk_s2 haddr prot refs]> (s2_map s) ∧
              hv_limit (s2_vm s') = hv_limit (s2_vm s)
  | Stop _ => False
  end.
Proof.
  intros Hok Hh Hi Hi0 Hlim Hp Hfree Hsame refs.
  rewrite map_stage2_unfold by done. fold (cleared ipa s).
  destruct (cleared_view ipa s Hok Hi) as [Hcl Hcv].
  destruct (hv_vm_map (cleared ipa s) haddr ipa STAGE2_GRANULE prot) as [v'|] eqn:Em.
  - apply hv_map_some in Em as [Hl' Hv'].
    split; [|split; [done|simpl; congruence]].
    apply record1_ok; try done; [|congruence|].
    + split; simpl; [by rewrite Hl', Hcl|done|done|lia].
    + intros x. rewrite Hv', one_block, Hcv by done.
      destruct (bool_decide_reflect (x = ipa)) as [->|]; [|done].
      by rewrite Z.sub_diag, Z.add_0_r.
  - apply (hv_map_accepts (cleared ipa s) haddr ipa prot); try done; try lia.
    + by rewrite Hcv, bool_decide_true.
    + intros (y & p & Hy & Hout). rewrite Hcv in Hy.
      destruct (bool_decide_reflect (y = ipa)) as [->|Hne]; [done|].
      destruct (s2_map s !! y) as [e|] eqn:E; simpl in Hy; [|done]. injection Hy as Hy _.
      apply (so_fwd _ Hok) in E. rewrite Hy in E. by apply Hfree in E.
Qed.

(** Releasing a block. *)
Lemma unmap_stage2_ok ipa s :
  s2_ok s → gran ipa →
  ∃ s', vmm_arm64_unmap_stage2 ipa STAGE2_GRANULE s = Ret s' ∧ s2_ok s' ∧
        s2_map s' = delete ipa (s2_map s) ∧ hv_limit (s2_vm s') = hv_limit (s2_vm s).
Proof.
  intros Hok Hi. unfold vmm_arm64_unmap_stage2. rewrite granule_off_mod. simpl.
  rewrite granule_of_gran by done. fold (cleared ipa s).
  destruct (cleared_view ipa s Hok Hi) as [Hcl Hcv].
  unfold s2_forget. rewrite granules_one. simpl. rewrite Z.add_0_r.
  eexists. split; [done|]. unfold s2_forget1, set_vm. simpl.
  destruct Hok as [Hents Hfwd Hbwd _].
  destruct (s2_map s !! ipa) as [e|] eqn:E; simpl.
  - split; [|done]. split; simpl.
    + rewrite Hcl. by apply map_Forall_delete.
    + intros j ej [Hne Hj]%lookup_delete_Some. rewrite lookup_delete_ne; [auto|].
      intros Heq. apply Hne. apply Hfwd in E, Hj. rewrite Heq in E. congruence.
    + intros h j [Hne Hj]%lookup_delete_Some. rewrite lookup_delete_ne; [auto|].
      intros <-. apply Hbwd in Hj. rewrite E in Hj. simpl in Hj. congruence.
    + intros x. rewrite Hcv. destruct (bool_decide_reflect (x = ipa)) as [->|].
      * by rewrite lookup_delete_eq.
      * by rewrite lookup_delete_ne.
  - rewrite delete_id by done. split; [|done]. split; simpl; try done.
    + by rewrite Hcl.
    + intros x. rewrite Hcv. destruct (bool_decide_reflect (x = ipa)) as [->|]; [by rewrite E|done].
Qed.

(** Changing a count changes nothing else. *)
Lemma set_refs_ok ipa e refs s :
  s2_ok s → s2_map s !! ipa = Some e → 0 ≤ refs < 2^32 →
  s2_ok (set_map (<[ipa := mk_s2 (s2_haddr e) (s2_prot e) refs]> (s2_map s)) s).
Proof.
  intros [Hents Hfwd Hbwd Hview] He Hr. destruct (Hents _ _ He). split; simpl.
  - by apply map_Forall_insert_2.
  - intros j ej. rewrite lookup_insert_Some. intros [[<- <-]|[Hne Hj]]; simpl; auto.
  - intros h j Hj. apply Hbwd in Hj. destruct (decide (j = ipa)) as [->|].
    + rewrite lookup_insert_eq. rewrite He in Hj. done.
    + by rewrite lookup_insert_ne.
  - intros x. rewrite Hview. destruct (decide (x = ipa)) as [->|].
    + by rewrite lookup_insert_eq, He.
    + by rewrite lookup_insert_ne.
Qed.

Lemma lor_prot have prot :
  0 ≤ have < 8 → 0 ≤ prot < 8 →
  0 ≤ Z.lor have prot < 8 ∧ (Z.lor have prot = 0 → prot = 0) ∧
  Z.lor (Z.lor have prot) prot = Z.lor have prot.
Proof.
  intros Hh Hp. split; [|split].
  - split; [apply Z.lor_nonneg; lia|].
    destruct (Z.eq_dec (Z.lor have prot) 0) as [->|Hn]; [lia|].
    change 8 with (2^3). apply Z.log2_lt_pow2; [pose proof (proj2 (Z.lor_nonneg have prot)); lia|].
    rewrite Z.log2_lor by lia. apply Z.max_lub_lt.
    + destruct (Z.eq_dec have 0) as [->|]; [done|]. apply Z.log2_lt_pow2; lia.
    + destruct (Z.eq_dec prot 0) as [->|]; [done|]. apply Z.log2_lt_pow2; lia.
  - intros [_ ?]%Z.lor_eq_0_iff. done.
  - by rewrite <- Z.lor_assoc, Z.lor_diag.
Qed.

(** The block [ipa] backs [haddr] and grants at least [prot]. *)
Definition serves s (ipa haddr prot : Z) : Prop :=
  ∃ e, s2_map s !! ipa = Some e ∧ s2_haddr e = haddr ∧ Z.lor (s2_prot e) prot = s2_prot e.

Lemma block_for_spec hostpage prot fresh s :
  s2_ok s → gran hostpage → 0 < prot < 8 → gran fresh → 0 ≤ fresh →
  fresh + STAGE2_GRANULE ≤ hv_limit (s2_vm s) → s2_map s !! fresh = None →
  ∃ ipa created s', vmm_arm64_s2_block_for hostpage prot fresh s = Ret (ipa, created, s') ∧
    s2_ok s' ∧ hv_limit (s2_vm s') = hv_limit (s2_vm s) ∧ serves s' ipa hostpage prot ∧
    (∀ j, j ≠ ipa → s2_map s' !! j = s2_map s !! j) ∧
    s2_refs <$> s2_map s' !! ipa = Some (match s2_map s !! ipa with Some e => s2_refs e | None => 0 end) ∧
    (∀ e, s2_map s !! ipa = Some e → s2_haddr e = hostpage ∧
       ∀ e', s2_map s' !! ipa = Some e' → Z.lor (s2_prot e') (s2_prot e) = s2_prot e') ∧
    (if created then ipa = fresh else s2_map s !! ipa ≠ None) ∧
    (∀ j, hblk_index s !! hostpage = Some j → ipa = j ∧ created = false).
Proof.
  intros Hok Hh Hp Hf Hf0 Hlim Hnone.
  unfold vmm_arm64_s2_block_for. rewrite granule_off_mod, Hh. simpl.
  rewrite (proj2 (Z.eqb_neq prot 0)) by lia.
  destruct (hblk_index s !! hostpage) as [ipa|] eqn:Eh.
  - pose proof (so_bwd _ Hok _ _ Eh) as Hb.
    destruct (s2_map s !! ipa) as [e|] eqn:Ei; [|done]. injection Hb as Hb.
    destruct (so_ents _ Hok _ _ Ei) as [(Hgi & Hi0 & Hil) _ Hep _].
    destruct (lor_prot (s2_prot e) prot Hep ltac:(lia)) as (Hl1 & Hl2 & Hl3).
    destruct (Z.lor (s2_prot e) prot =? s2_prot e) eqn:El; simpl; bool_to_prop.
    + exists ipa, false, s. split; [done|]. split; [done|]. split; [done|].
      split; [by exists e|]. rewrite Ei. split; [done|]. split; [done|].
      split; [intros ? [= <-]; split; [done|]; intros ? [= <-]; apply Z.lor_diag|].
      split; [done|]. by intros j [= <-].
    + pose proof (map_stage2_ok ipa (Z.lor (s2_prot e) prot) hostpage s Hok Hh Hgi Hi0 Hil Hl1) as Hm.
      destruct (vmm_arm64_map_stage2 _ _ _ _ _) as [s'|w]; simpl.
      2: { destruct Hm; [intros j Hj; congruence|by rewrite Ei; intros ? [= <-]]. }
      destruct Hm as (Hok' & Hm' & Hl'); [intros j Hj; congruence|by rewrite Ei; intros ? [= <-]|].
      rewrite Ei in Hm'.
      exists ipa, false, s'. split; [done|]. split; [done|]. split; [done|].
      split; [eexists; rewrite Hm', lookup_insert_eq; split; [done|split; [done|exact Hl3]]|].
      rewrite Ei, Hm', lookup_insert_eq. split; [intros j Hj; by rewrite lookup_insert_ne|].
      split; [done|]. split; [|split; [done|by intros j [= <-]]].
      intros ? [= <-]. split; [done|]. intros ? [= <-]. simpl.
      by rewrite Z.lor_comm, Z.lor_assoc, Z.lor_diag.
  - pose proof (map_stage2_ok fresh prot hostpage s Hok Hh Hf Hf0 Hlim ltac:(lia)) as Hm.
    destruct (vmm_arm64_map_stage2 _ _ _ _ _) as [s'|w]; simpl.
    2: { destruct Hm; [intros j Hj; congruence|by rewrite Hnone]. }
    destruct Hm as (Hok' & Hm' & Hl'); [intros j Hj; congruence|by rewrite Hnone|].
    rewrite Hnone in Hm'.
    exists fresh, true, s'. split; [done|]. split; [done|]. split; [done|].
    split; [eexists; rewrite Hm', lookup_insert_eq; split; [done|split; [done|apply Z.lor_diag]]|].
    rewrite Hnone, Hm', lookup_insert_eq. split; [intros j Hj; by rewrite lookup_insert_ne|].
    split; [done|]. split; [done|]. done.
Qed.

(** Asking for the block behind a host page never fails while
    guest-physical space remains: it answers a block backed by that page with
    at least the permission asked for; a page that already had a block gets the
    same one, nothing about other blocks changes, no permission is taken away
    and no count of users is lost; and afterwards each host page still has one
    block and the machine maps exactly the registry. *)
Theorem s2_block_for_shares hostpage prot fresh s :
  s2_ok s → gran hostpage → 0 < prot < 8 → gran fresh → 0 ≤ fresh →
  fresh + STAGE2_GRANULE ≤ hv_limit (s2_vm s) → s2_map s !! fresh = None →
  ∃ ipa created s', vmm_arm64_s2_block_for hostpage prot fresh s = Ret (ipa, created, s') ∧
    s2_ok s' ∧ serves s' ipa hostpage prot ∧
    (∀ j h q, serves s j h q → serves s' j h q) ∧
    (∀ j e, s2_map s !! j = Some e → s2_refs <$> s2_map s' !! j = Some (s2_refs e)) ∧
    (∀ j, s2_map s !! j ≠ None → s2_haddr <$> s2_map s !! j = Some hostpage → ipa = j ∧ created = false).
Proof.
  intros Hok Hh Hp Hf Hf0 Hlim Hnone.
  destruct (block_for_spec hostpage prot fresh s Hok Hh Hp Hf Hf0 Hlim Hnone)
    as (ipa & created & s' & Hr & Hok' & _ & Hserve & Hother & Hrefs & Hsame & Hcr & Hidx).
  exists ipa, created, s'. split; [done|]. split; [done|]. split; [done|].
  split; [|split].
  - intros j h q (e & He & <- & Hq). destruct (decide (j = ipa)) as [->|Hne].
    + destruct (Hsame e He) as [<- Hmono]. destruct Hserve as (e' & He' & Hh' & _).
      specialize (Hmono e' He'). exists e'. split; [done|]. split; [done|].
      by rewrite <- Hmono, <- Z.lor_assoc, Hq.
    + exists e. by rewrite Hother.
  - intros j e He. destruct (decide (j = ipa)) as [->|Hne]; [by rewrite Hrefs, He|].
    by rewrite Hother, He.
  - intros j _ Hj. destruct (s2_map s !! j) as [e|] eqn:E; [|done]. injection Hj as Hj.
    apply (so_fwd _ Hok) in E. rewrite Hj in E. by apply Hidx.
Qed.

(** * Replaying and restoring *)

Definition blank (v : V) : Prop := ∀ x, hv_view v x = None.





End Stage2Facts.

(** The registry of a machine just created. *)
Definition s2_boot {V} (v : V) : s2_state V := mk_s2_state ∅ ∅ v.

Lemma s2_boot_ok {V} `{HV : HvLaws V} (v : V) : blank v → s2_ok (s2_boot v).
Proof.
  intros Hb. by split.
Qed.

(** * A concrete machine

    A finite map of blocks that refuses what the framework documents it
    refuses. *)

Record toy_vm := mk_toy_vm { tv_map : gmap Z (Z * Z) }.

Definition toy_vm_boot : toy_vm := mk_toy_vm ∅.

Definition toy_accepts (v : toy_vm) (h i n p : Z) : bool :=
  (h mod STAGE2_GRANULE =? 0) && (i mod STAGE2_GRANULE =? 0) && (n =? STAGE2_GRANULE) &&
  bool_decide (map_Forall (λ y e, e.1 ≠ h ∨ i ≤ y < i + n) (tv_map v)).

#[global] Instance toy_hv : HvOps toy_vm := {|
  hv_view v x := tv_map v !! x;
  hv_limit _ := 2^40;
  hv_vm_map v h i n p :=
    if toy_accepts v h i n p then Some (mk_toy_vm (<[i := (h, p)]> (tv_map v))) else None;
  hv_vm_unmap v i n := mk_toy_vm (filter (λ e, ¬ (i ≤ e.1 < i + n)) (tv_map v));
|}.

#[global] Instance toy_hv_laws : HvLaws toy_vm.
Proof.
  split; simpl.
  - intros v h i n p v'. destruct (toy_accepts v h i n p) eqn:E; [|done]. intros [= <-].
    split; [done|]. unfold toy_accepts in E. bool_to_prop. intros x.
    assert (n = STAGE2_GRANULE) as -> by done. rewrite one_block by done. simpl.
    destruct (bool_decide_reflect (x = i)) as [->|].
    + by rewrite lookup_insert_eq, Z.sub_diag, Z.add_0_r.
    + by rewrite lookup_insert_ne.
  - intros v h i p Hh Hi Hp _ _ Hnone Hlive. unfold toy_accepts. rewrite Hh, Hi. simpl.
    rewrite bool_decide_true; [done|]. intros y [h' p'] Hy. simpl.
    destruct (decide (i ≤ y < i + STAGE2_GRANULE)); [by right|left]. intros ->.
    apply Hlive. by exists y, p'.
  - intros v i n. split; [done|]. intros x.
    destruct ((i <=? x) && (x <? i + n)) eqn:E; bool_to_prop.
    + apply map_lookup_filter_None. right. intros p _ Hn. simpl in Hn. lia.
    + destruct (tv_map v !! x) as [p|] eqn:Ex.
      * apply map_lookup_filter_Some. split; [done|]. simpl. intros Hr.
        apply andb_false_iff in E as [E|E]; bool_to_prop; lia.
      * apply map_lookup_filter_None. by left.
Qed.

Lemma s2_block_for_shares_witness :
  ∃ ipa created s',
    vmm_arm64_s2_block_for 0x100000000 3 0x40000000 (s2_boot toy_vm_boot) = Ret (ipa, created, s') ∧
    s2_ok s' ∧ serves s' ipa 0x100000000 3.
Proof.
  destruct (s2_block_for_shares 0x100000000 3 0x40000000 (s2_boot toy_vm_boot))
    as (ipa & created & s' & H1 & H2 & H3 & _); [|done..|exists ipa, created, s'; done].
  by apply s2_boot_ok.
Defined.



