(* ===== verification/PageTable.v ===== *)
(** Stage-1 translation, src/mm/pt_arm64.c: the allocator of guest-physical
    pages, the three-level table walk, and the calls the memory layer makes:
    [vmm_mmap], [vmm_munmap] and [pt_protect]. Descriptor bits are those of
    include/arm64/vm.h. *)

From S2P Require Import Prelude Host Arena Stage2.

(** * Descriptors *)

Definition PTE_VALID : Z := Z.shiftl 1 0.
Definition PTE_TABLE : Z := Z.shiftl 1 1.
Definition PTE_PAGE : Z := Z.shiftl 1 1.
Definition PTE_ATTR (i : Z) : Z := Z.shiftl i 2.
Definition PTE_AP_RW_EL0 : Z := Z.shiftl 1 6.
Definition PTE_AP_RO : Z := Z.shiftl 1 7.
Definition PTE_SH_INNER : Z := Z.shiftl 3 8.
Definition PTE_AF : Z := Z.shiftl 1 10.
Definition PTE_PXN : Z := Z.shiftl 1 53.
Definition PTE_UXN : Z := Z.shiftl 1 54.
Definition MAIR_IDX_NORMAL : Z := 0.
Definition MAIR_EL1_VALUE : Z := Z.lor 0xff (Z.shiftl 0 8).

Definition TCR_IPS (bits : Z) : Z :=
  Z.shiftl (if bits >=? 52 then 6 else if bits >=? 48 then 5 else if bits >=? 44 then 4
            else if bits >=? 42 then 3 else if bits >=? 40 then 2
            else if bits >=? 36 then 1 else 0) 32.

Definition TCR_EL1_BASE : Z :=
  Z.lor (Z.land 25 0x3f) (Z.lor (Z.shiftl 1 8) (Z.lor (Z.shiftl 1 10)
    (Z.lor (Z.shiftl 3 12) (Z.lor (Z.shiftl 0 14) (Z.lor (Z.shiftl 1 23) (Z.shiftl 1 37)))))).

Definition TCR_EL1_FOR (bits : Z) : Z := Z.lor TCR_EL1_BASE (TCR_IPS bits).

Definition SCTLR_EL1_M : Z := Z.shiftl 1 0.
Definition SCTLR_EL1_C : Z := Z.shiftl 1 2.
Definition SCTLR_EL1_I : Z := Z.shiftl 1 12.

Definition PTE_ADDR_MASK : Z := 0x0000FFFFFFFFF000.

Definition PAGE : Z := 0x1000.
Definition NR_PAGE_ENTRY : Z := 512.
Definition PAGES_PER_CHUNK : Z := 4.
Definition IPA_BASE : Z := 0x40000000.
Definition INIT_CHUNKS : Z := 1024.

(** [sizeof(struct s2_chunk)]. *)
Definition sizeof_s2_chunk : Z := 32.

(** Linux protection bits (include/linux/mman.h). *)
Definition LINUX_PROT_NONE : Z := 0.
Definition LINUX_PROT_READ : Z := 1.
Definition LINUX_PROT_WRITE : Z := 2.
Definition LINUX_PROT_EXEC : Z := 4.

Definition L1_INDEX (va : Z) : Z := Z.land (Z.shiftr va 30) (NR_PAGE_ENTRY - 1).
Definition L2_INDEX (va : Z) : Z := Z.land (Z.shiftr va 21) (NR_PAGE_ENTRY - 1).
Definition L3_INDEX (va : Z) : Z := Z.land (Z.shiftr va 12) (NR_PAGE_ENTRY - 1).

Definition prot_to_pte (prot : Z) : Z :=
  let pte := Z.lor PTE_AF (Z.lor PTE_SH_INNER (Z.lor (PTE_ATTR MAIR_IDX_NORMAL) PTE_PXN)) in
  let pte := if has prot (Z.lor LINUX_PROT_READ (Z.lor LINUX_PROT_WRITE LINUX_PROT_EXEC))
             then Z.lor pte PTE_AP_RW_EL0 else pte in
  let pte := if Z.land prot LINUX_PROT_WRITE =? 0 then Z.lor pte PTE_AP_RO else pte in
  if Z.land prot LINUX_PROT_EXEC =? 0 then Z.lor pte PTE_UXN else pte.

Definition pte_to_prot (pte : Z) : Z :=
  if Z.land pte PTE_AP_RW_EL0 =? 0 then 0
  else
    let f := LINUX_PROT_READ in
    let f := if Z.land pte PTE_AP_RO =? 0 then Z.lor f LINUX_PROT_WRITE else f in
    if Z.land pte PTE_UXN =? 0 then Z.lor f LINUX_PROT_EXEC else f.

Definition s2_prot_of (prot : Z) : Z :=
  let f := 0 in
  let f := if has prot LINUX_PROT_READ then Z.lor f HV_MEMORY_READ else f in
  let f := if has prot LINUX_PROT_WRITE then Z.lor f HV_MEMORY_WRITE else f in
  if has prot LINUX_PROT_EXEC then Z.lor f HV_MEMORY_EXEC else f.

(** [(ipa & PTE_ADDR_MASK) | prot_to_pte(prot) | PTE_PAGE | PTE_VALID]. *)
Definition page_desc (ipa prot : Z) : Z :=
  Z.lor (Z.land ipa PTE_ADDR_MASK) (Z.lor (prot_to_pte prot) (Z.lor PTE_PAGE PTE_VALID)).

(** [(ipa & PTE_ADDR_MASK) | PTE_TABLE | PTE_VALID]. *)
Definition table_desc (ipa : Z) : Z :=
  Z.lor (Z.land ipa PTE_ADDR_MASK) (Z.lor PTE_TABLE PTE_VALID).

Definition pte_valid (w : Z) : bool := has w PTE_VALID.
Definition pte_ipa (w : Z) : Z := Z.land w PTE_ADDR_MASK.

(** * State *)

Record s2_chunk := mk_chunk { ck_hva : Z; ck_off : Z; ck_ipa : Z; ck_used : Z }.

(** The system registers this file writes. *)
Record sysregs := mk_sysregs { MAIR_EL1 : Z; TCR_EL1 : Z; TTBR0_EL1 : Z; SCTLR_EL1 : Z }.

(** The static variables, the words of the table pages by host address (a word
    never written reads as zero), and the system registers. A zero
    [l1_entries] is the null pointer. *)
Record pt_state := mk_pt {
  ipa_brk : Z;
  cur_chunk : s2_chunk;
  chunks : list s2_chunk;
  chunks_cap : Z;
  chunk_index : gmap Z Z;
  l1_entries : Z;
  l1_ipa : Z;
  words : gmap Z Z;
  regs : sysregs;
}.

Definition no_chunk : s2_chunk := mk_chunk 0 0 0 0.
Definition pt_boot : pt_state :=
  mk_pt IPA_BASE no_chunk [] 0 ∅ 0 0 ∅ (mk_sysregs 0 0 0 0).

Definition set_ipa_brk (b : Z) (p : pt_state) : pt_state :=
  mk_pt b (cur_chunk p) (chunks p) (chunks_cap p) (chunk_index p) (l1_entries p) (l1_ipa p) (words p) (regs p).
Definition set_cur_chunk (c : s2_chunk) (p : pt_state) : pt_state :=
  mk_pt (ipa_brk p) c (chunks p) (chunks_cap p) (chunk_index p) (l1_entries p) (l1_ipa p) (words p) (regs p).
Definition set_chunks (l : list s2_chunk) (p : pt_state) : pt_state :=
  mk_pt (ipa_brk p) (cur_chunk p) l (chunks_cap p) (chunk_index p) (l1_entries p) (l1_ipa p) (words p) (regs p).
Definition set_chunks_cap (n : Z) (p : pt_state) : pt_state :=
  mk_pt (ipa_brk p) (cur_chunk p) (chunks p) n (chunk_index p) (l1_entries p) (l1_ipa p) (words p) (regs p).
Definition set_chunk_index (m : gmap Z Z) (p : pt_state) : pt_state :=
  mk_pt (ipa_brk p) (cur_chunk p) (chunks p) (chunks_cap p) m (l1_entries p) (l1_ipa p) (words p) (regs p).
Definition set_l1 (e i : Z) (p : pt_state) : pt_state :=
  mk_pt (ipa_brk p) (cur_chunk p) (chunks p) (chunks_cap p) (chunk_index p) e i (words p) (regs p).
Definition set_words (w : gmap Z Z) (p : pt_state) : pt_state :=
  mk_pt (ipa_brk p) (cur_chunk p) (chunks p) (chunks_cap p) (chunk_index p) (l1_entries p) (l1_ipa p) w (regs p).
Definition set_regs (r : sysregs) (p : pt_state) : pt_state :=
  mk_pt (ipa_brk p) (cur_chunk p) (chunks p) (chunks_cap p) (chunk_index p) (l1_entries p) (l1_ipa p) (words p) r.

Definition rd (p : pt_state) (a : Z) : Z := default 0 (words p !! a).
Definition wr (a v : Z) (p : pt_state) : pt_state := set_words (<[a := v]> (words p)) p.

(** [memset(page, 0, 4096)]. *)
Definition zero_page (a : Z) (p : pt_state) : pt_state :=
  set_words (filter (λ e, ¬ (a ≤ e.1 < a + PAGE)) (words p)) p.

(** The stage-1 tables, the stage-2 registry and the arena behind both. *)
Record machine (H V : Type) := mk_machine {
  m_pt : pt_state;
  m_s2 : s2_state V;
  m_arena : arena;
  m_host : H;
}.
Arguments mk_machine {H V}.
Arguments m_pt {H V}.
Arguments m_s2 {H V}.
Arguments m_arena {H V}.
Arguments m_host {H V}.

Definition with_pt {H V} (p : pt_state) (m : machine H V) : machine H V :=
  mk_machine p (m_s2 m) (m_arena m) (m_host m).
Definition with_s2 {H V} (s : s2_state V) (m : machine H V) : machine H V :=
  mk_machine (m_pt m) s (m_arena m) (m_host m).

Section PageTable.
Context {H V : Type} `{HostOps H, HvOps V}.
Implicit Type m : machine H V.

(** * Guest-physical pages *)

Definition chunk_index_put (ipa hva : Z) (p : pt_state) : pt_state :=
  set_chunk_index (<[ipa := hva]> (chunk_index p)) p.

Definition chunk_index_clear (p : pt_state) : pt_state := set_chunk_index ∅ p.

Definition chunk_record (c : s2_chunk) m : outcome (machine H V) :=
  let p := chunk_index_put (ck_ipa c) (ck_hva c) (m_pt m) in
  p ←
    (if Z.of_nat (length (chunks p)) =? chunks_cap p then
       let want := if chunks_cap p =? 0 then INIT_CHUNKS else u64 (chunks_cap p * 2) in
       if h_realloc (m_host m) (u64 (want * sizeof_s2_chunk))
       then Ret (set_chunks_cap want p) else Stop NoMemory
     else Ret p);
  Ret (with_pt (set_chunks (chunks p ++ [c]) p) m).

Definition ipa_to_host (p : pt_state) (ipa : Z) : outcome Z :=
  let base := granule_of ipa in
  match chunk_index p !! base with
  | Some hva => Ret (hva + (ipa - base))
  | None => Stop Panicked
  end.

(** The host address and the guest-physical address of a fresh page. *)
Definition alloc_guest_page m : outcome (Z * Z * machine H V) :=
  let c := cur_chunk (m_pt m) in
  m ←
    (if (ck_hva c =? 0) || (ck_used c =? PAGES_PER_CHUNK) then
       '(hva, off, a, h) ← arena_alloc STAGE2_GRANULE (m_arena m) (m_host m);
       let p := m_pt m in
       let c := mk_chunk hva off (ipa_brk p) 0 in
       let p := set_ipa_brk (ipa_brk p + STAGE2_GRANULE) (set_cur_chunk c p) in
       s ← vmm_arm64_map_stage2 (ck_ipa c) STAGE2_GRANULE
             (Z.lor HV_MEMORY_READ (Z.lor HV_MEMORY_WRITE HV_MEMORY_EXEC)) (ck_hva c) (m_s2 m);
       chunk_record c (mk_machine p s a h)
     else Ret m);
  let c := cur_chunk (m_pt m) in
  let off := ck_used c * PAGE in
  let c' := mk_chunk (ck_hva c) (ck_off c) (ck_ipa c) (ck_used c + 1) in
  Ret (ck_hva c + off, ck_ipa c + off, with_pt (set_cur_chunk c' (m_pt m)) m).

(** * Tables *)

Definition alloc_table m : outcome (Z * Z * machine H V) :=
  '(hva, ipa, m) ← alloc_guest_page m;
  Ret (hva, ipa, with_pt (zero_page hva (m_pt m)) m).

(** One level of the walk: the entry at [slot], made to name a table if it
    names none, and the host address of that table. *)
Definition walk_level (slot : Z) m : outcome (Z * machine H V) :=
  m ←
    (if negb (pte_valid (rd (m_pt m) slot)) then
       '(_, ipa, m) ← alloc_table m;
       Ret (with_pt (wr slot (table_desc ipa) (m_pt m)) m)
     else Ret m);
  t ← ipa_to_host (m_pt m) (pte_ipa (rd (m_pt m) slot));
  Ret (t, m).

(** The host address of the level-3 descriptor of [va]. *)
Definition walk_to_l3 (va : Z) m : outcome (Z * machine H V) :=
  assert_c (negb (l1_entries (m_pt m) =? 0));;
  '(l2, m) ← walk_level (l1_entries (m_pt m) + 8 * L1_INDEX va) m;
  '(l3, m) ← walk_level (l2 + 8 * L2_INDEX va) m;
  Ret (l3 + 8 * L3_INDEX va, m).

Definition pt_map_page (va ipa prot : Z) m : outcome (machine H V) :=
  assert_c (Z.land va (PAGE - 1) =? 0);;
  assert_c (Z.land ipa (PAGE - 1) =? 0);;
  '(l3e, m) ← walk_to_l3 va m;
  let m := if pte_valid (rd (m_pt m) l3e)
           then with_s2 (vmm_arm64_s2_unref (pte_ipa (rd (m_pt m) l3e)) (m_s2 m)).2 m else m in
  let m := with_pt (wr l3e (page_desc ipa prot) (m_pt m)) m in
  Ret (with_s2 (vmm_arm64_s2_ref ipa (m_s2 m)) m).

Definition pt_alloc_and_map (va prot : Z) m : outcome (Z * machine H V) :=
  '(hva, ipa, m) ← alloc_guest_page m;
  m ← pt_map_page va ipa prot m;
  Ret (hva, m).

Definition pt_map_vector (va : Z) m : outcome (Z * machine H V) :=
  '(hva, ipa, m) ← alloc_guest_page m;
  let pte := Z.lor PTE_AF (Z.lor PTE_SH_INNER (Z.lor (PTE_ATTR MAIR_IDX_NORMAL) PTE_UXN)) in
  '(l3e, m) ← walk_to_l3 va m;
  Ret (hva, with_pt (wr l3e (Z.lor (Z.land ipa PTE_ADDR_MASK) (Z.lor pte (Z.lor PTE_PAGE PTE_VALID)))
                      (m_pt m)) m).

(** [ipa_bits] is the size the machine was created with. *)
Definition pt_init (ipa_bits : Z) m : outcome (machine H V) :=
  let p := set_ipa_brk IPA_BASE (m_pt m) in
  let p := set_cur_chunk no_chunk (chunk_index_clear (set_chunks [] p)) in
  '(e, ipa, m) ← alloc_table (with_pt p m);
  let p := set_l1 e ipa (m_pt m) in
  Ret (with_pt (set_regs (mk_sysregs MAIR_EL1_VALUE (TCR_EL1_FOR ipa_bits) ipa (SCTLR_EL1 (regs p))) p) m).

Definition pt_enable m : machine H V :=
  let r := regs (m_pt m) in
  let sctlr := Z.lor (SCTLR_EL1 r) (Z.lor SCTLR_EL1_M (Z.lor SCTLR_EL1_C SCTLR_EL1_I)) in
  with_pt (set_regs (mk_sysregs (MAIR_EL1 r) (TCR_EL1 r) (TTBR0_EL1 r) sctlr) (m_pt m)) m.

Definition pt_root_ipa m : Z := l1_ipa (m_pt m).

(** * The memory layer's calls *)

Definition map_one (gaddr prot haddr off : Z) m : outcome (machine H V) :=
  let hp := haddr + off in
  let block := granule_of hp in
  '(base, created, s) ← vmm_arm64_s2_block_for block (if prot =? 0 then HV_MEMORY_READ else prot)
                          (ipa_brk (m_pt m)) (m_s2 m);
  let m := with_s2 s m in
  let m := if (created : bool)
           then with_pt (set_ipa_brk (ipa_brk (m_pt m) + STAGE2_GRANULE) (m_pt m)) m else m in
  pt_map_page (gaddr + off) (base + (hp - block)) prot m.

Definition vmm_mmap (gaddr size prot haddr : Z) m : outcome (machine H V) :=
  assert_c (Z.land gaddr (PAGE - 1) =? 0);;
  assert_c (Z.land haddr (PAGE - 1) =? 0);;
  for_each (map_one gaddr prot haddr) (counter PAGE size) m.

(** [None] is the null pointer. *)
Definition walk_existing (va : Z) (p : pt_state) : outcome (option Z) :=
  if l1_entries p =? 0 then Ret None
  else
    let l1e := rd p (l1_entries p + 8 * L1_INDEX va) in
    if negb (pte_valid l1e) then Ret None
    else
      l2 ← ipa_to_host p (pte_ipa l1e);
      let l2e := rd p (l2 + 8 * L2_INDEX va) in
      if negb (pte_valid l2e) then Ret None
      else
        l3 ← ipa_to_host p (pte_ipa l2e);
        Ret (Some (l3 + 8 * L3_INDEX va)).

Definition finish_unmapped_block (base_ipa : Z) (now_unused : bool) m : outcome (machine H V) :=
  s ← (if now_unused then vmm_arm64_unmap_stage2 base_ipa STAGE2_GRANULE (m_s2 m)
       else vmm_arm64_s2_reflush base_ipa (m_s2 m));
  Ret (with_s2 s m).

Definition finish_blocks (l : list (Z * bool)) m : outcome (machine H V) :=
  for_each (λ '(b, free), finish_unmapped_block b free) l m.

(** The first entry for the block takes the latest answer. *)
Fixpoint note_block (b : Z) (free : bool) (l : list (Z * bool)) : option (list (Z * bool)) :=
  match l with
  | [] => None
  | (b', f') :: l =>
      if b' =? b then Some ((b, free) :: l) else cons (b', f') <$> note_block b free l
  end.

(** The size of the two arrays of touched blocks. *)
Definition NR_BLOCKS : nat := 64.

Definition unmap_one (va : Z) (s : list (Z * bool) * machine H V)
  : outcome (list (Z * bool) * machine H V) :=
  let '(l, m) := s in
  pte ← walk_existing va (m_pt m);
  match pte with
  | None => Ret (l, m)
  | Some a =>
      let w := rd (m_pt m) a in
      if negb (pte_valid w) then Ret (l, m)
      else
        let ipa := pte_ipa w in
        let base_ipa := granule_of ipa in
        let '(freed, s2) := vmm_arm64_s2_unref ipa (m_s2 m) in
        let m := with_s2 s2 (with_pt (wr a 0 (m_pt m)) m) in
        match note_block base_ipa freed l with
        | Some l => Ret (l, m)
        | None =>
            if Nat.eqb (length l) NR_BLOCKS then
              m ← finish_blocks l m;
              Ret ([(base_ipa, freed)], m)
            else Ret (l ++ [(base_ipa, freed)], m)
        end
  end.

Definition vmm_munmap (gaddr size : Z) m : outcome (machine H V) :=
  '(l, m) ← for_each (λ off, unmap_one (gaddr + off)) (counter PAGE size) ([], m);
  finish_blocks l m.

(** What the four guest pages that share a block's place collectively need. *)
Definition block_union (b va : Z) (p : pt_state) : outcome Z :=
  for_each (λ j u,
    bp ← walk_existing (va + j * PAGE) p;
    Ret (match bp with
         | Some a =>
             let w := rd p a in
             if pte_valid w && (granule_of (pte_ipa w) =? b) then Z.lor u (pte_to_prot w) else u
         | None => u
         end)) [0; 1; 2; 3] 0.

Definition reprotect_blocks (l : list (Z * Z)) m : outcome (machine H V) :=
  for_each (λ '(b, va) m,
    u ← block_union b va (m_pt m);
    s ← vmm_arm64_s2_reprotect b (s2_prot_of u) (m_s2 m);
    Ret (with_s2 s m)) l m.

Definition protect_one (prot va : Z) (s : list (Z * Z) * machine H V)
  : outcome (list (Z * Z) * machine H V) :=
  let '(l, m) := s in
  pte ← walk_existing va (m_pt m);
  match pte with
  | None => Ret (l, m)
  | Some a =>
      let w := rd (m_pt m) a in
      if negb (pte_valid w) then Ret (l, m)
      else
        let ipa := pte_ipa w in
        let m := with_pt (wr a (page_desc ipa prot) (m_pt m)) m in
        let block := granule_of ipa in
        if existsb (λ e, e.1 =? block) l then Ret (l, m)
        else
          let e := (block, va - granule_off ipa) in
          if Nat.eqb (length l) NR_BLOCKS then
            m ← reprotect_blocks l m;
            Ret ([e], m)
          else Ret (l ++ [e], m)
  end.

Definition pt_protect (va size prot : Z) m : outcome (machine H V) :=
  '(l, m) ← for_each (λ off, protect_one prot (va + off)) (counter PAGE size) ([], m);
  reprotect_blocks l m.

Definition pt_pte_of (va : Z) m : outcome Z :=
  pte ← walk_existing va (m_pt m);
  Ret (match pte with Some a => rd (m_pt m) a | None => 0 end).

Definition pt_ipa_of (va : Z) m : outcome Z :=
  pte ← walk_existing va (m_pt m);
  Ret (match pte with
       | Some a => if pte_valid (rd (m_pt m) a) then pte_ipa (rd (m_pt m) a) else 0
       | None => 0
       end).

(** * Handover *)

(** The number of chunks, the cursor, the root and (ipa, arena offset, used) of
    the first [max] chunks. *)
Definition pt_snapshot (max : nat) m : nat * Z * Z * list (Z * Z * Z) :=
  (length (chunks (m_pt m)), ipa_brk (m_pt m), l1_ipa (m_pt m),
   (λ c, (ck_ipa c, ck_off c, ck_used c)) <$> take max (chunks (m_pt m))).

Definition restore_chunk (e : Z * Z * Z) m : outcome (machine H V) :=
  let '(ipa, off, used) := e in
  match arena_hva_of (m_arena m) off with
  | None => Stop Panicked
  | Some hva => chunk_record (mk_chunk hva off ipa used) m
  end.

Definition entry_indices : list Z := Z.of_nat <$> seq 0 512.

(** The recount of one level-3 table, of one level-2 table and of the root. *)
Definition count_l3 (l3 : Z) m : machine H V :=
  foldl (λ m k, let w := rd (m_pt m) (l3 + 8 * k) in
                if pte_valid w then with_s2 (vmm_arm64_s2_ref (pte_ipa w) (m_s2 m)) m else m)
    m entry_indices.

Definition count_l2 (l2 : Z) m : outcome (machine H V) :=
  for_each (λ j m,
    let w := rd (m_pt m) (l2 + 8 * j) in
    if pte_valid w then
      l3 ← ipa_to_host (m_pt m) (pte_ipa w);
      Ret (count_l3 l3 m)
    else Ret m) entry_indices m.

Definition count_l1 m : outcome (machine H V) :=
  for_each (λ i m,
    let w := rd (m_pt m) (l1_entries (m_pt m) + 8 * i) in
    if pte_valid w then
      l2 ← ipa_to_host (m_pt m) (pte_ipa w);
      count_l2 l2 m
    else Ret m) entry_indices m.

Definition pt_restore (saved_ipa_brk saved_l1 : Z) (saved : list (Z * Z * Z)) m
  : outcome (machine H V) :=
  let p := set_cur_chunk no_chunk (chunk_index_clear (set_chunks [] (m_pt m))) in
  m ← for_each restore_chunk saved (with_pt p m);
  let p := set_ipa_brk saved_ipa_brk (m_pt m) in
  e ← ipa_to_host p saved_l1;
  let r := regs p in
  let p := set_regs (mk_sysregs (MAIR_EL1 r) (TCR_EL1 r) saved_l1 (SCTLR_EL1 r)) (set_l1 e saved_l1 p) in
  let m := with_s2 (vmm_arm64_s2_clear_refs (m_s2 m)) (with_pt p m) in
  count_l1 m.

End PageTable.

(** * The descriptor encoding *)

Definition page_aligned (x : Z) : Prop := x mod PAGE = 0.

Lemma land_page x : Z.land x (PAGE - 1) = x mod PAGE.
Proof. change (PAGE - 1) with (Z.ones 12). by rewrite Z.land_ones. Qed.

Lemma land_addr_mask x :
  0 ≤ x < 2^48 → page_aligned x → Z.land x PTE_ADDR_MASK = x.
Proof.
  intros Hx Ha. unfold page_aligned in Ha. change PAGE with (2^12) in Ha.
  apply Z.mod_divide in Ha as [q ->]; [|lia].
  change PTE_ADDR_MASK with (Z.shiftl (Z.ones 36) 12).
  rewrite <- Z.shiftl_mul_pow2, <- Z.shiftl_land, Z.land_ones, Z.mod_small by lia. done.
Qed.

(** Reading a field of a word whose address part is [x]. *)
Lemma land_desc x k f :
  Z.land PTE_ADDR_MASK f = 0 → Z.land (Z.lor (Z.land x PTE_ADDR_MASK) k) f = Z.land k f.
Proof.
  intros Hf. by rewrite Z.land_lor_distr_l, <- Z.land_assoc, Hf, Z.land_0_r, Z.lor_0_l.
Qed.

Lemma pte_ipa_desc x k :
  0 ≤ x < 2^48 → page_aligned x → Z.land k PTE_ADDR_MASK = 0 →
  pte_ipa (Z.lor (Z.land x PTE_ADDR_MASK) k) = x.
Proof.
  intros Hx Ha Hk. unfold pte_ipa.
  rewrite Z.land_lor_distr_l, <- Z.land_assoc, Z.land_diag, Hk, Z.lor_0_r.
  by apply land_addr_mask.
Qed.

(** The eight protections, one at a time. *)
Lemma prot_cases (P : Z → Prop) prot :
  0 ≤ prot < 8 → P 0 → P 1 → P 2 → P 3 → P 4 → P 5 → P 6 → P 7 → P prot.
Proof.
  intros Hp ? ? ? ? ? ? ? ?.
  assert (prot = 0 ∨ prot = 1 ∨ prot = 2 ∨ prot = 3 ∨ prot = 4 ∨ prot = 5 ∨ prot = 6 ∨ prot = 7) as Hc by lia.
  by destruct_or! Hc; subst.
Qed.

Lemma page_desc_valid ipa prot : pte_valid (page_desc ipa prot) = true.
Proof.
  unfold pte_valid, has, page_desc. rewrite land_desc by done.
  rewrite Z.land_lor_distr_l, (Z.land_lor_distr_l PTE_PAGE PTE_VALID).
  change (Z.land PTE_VALID PTE_VALID) with 1. apply negb_true_iff, Z.eqb_neq.
  intros [_ Hz]%Z.lor_eq_0_iff. by apply Z.lor_eq_0_iff in Hz as [_ ?].
Qed.

Lemma page_desc_ipa ipa prot :
  0 ≤ ipa < 2^48 → page_aligned ipa → 0 ≤ prot < 8 → pte_ipa (page_desc ipa prot) = ipa.
Proof.
  intros Hi Ha Hp. unfold page_desc. apply pte_ipa_desc; [done..|].
  by apply (prot_cases (λ prot, Z.land (Z.lor (prot_to_pte prot) (Z.lor PTE_PAGE PTE_VALID)) PTE_ADDR_MASK = 0)).
Qed.

Lemma table_desc_valid ipa : pte_valid (table_desc ipa) = true.
Proof. unfold pte_valid, has, table_desc. by rewrite land_desc. Qed.

Lemma table_desc_ipa ipa :
  0 ≤ ipa < 2^48 → page_aligned ipa → pte_ipa (table_desc ipa) = ipa.
Proof. intros Hi Ha. unfold table_desc. by apply pte_ipa_desc. Qed.

(** What a protection becomes: anything the guest may touch it may read. *)
Definition granted (prot : Z) : Z := if prot =? 0 then 0 else Z.lor prot LINUX_PROT_READ.

Lemma page_desc_prot ipa prot : 0 ≤ prot < 8 → pte_to_prot (page_desc ipa prot) = granted prot.
Proof.
  intros Hp. unfold pte_to_prot, page_desc. rewrite !land_desc by done.
  pattern prot. apply prot_cases; [done|reflexivity..].
Qed.

(** A descriptor gives back the address and the protection it was made
    from: the address exactly, the protection with read added to any access,
    and it is always valid. *)
Theorem page_desc_roundtrip ipa prot :
  0 ≤ ipa < 2^48 → page_aligned ipa → 0 ≤ prot < 8 →
  pte_valid (page_desc ipa prot) = true ∧ pte_ipa (page_desc ipa prot) = ipa ∧
  pte_to_prot (page_desc ipa prot) = granted prot ∧ s2_prot_of (granted prot) = granted prot.
Proof.
  intros Hi Ha Hp. split; [apply page_desc_valid|]. split; [by apply page_desc_ipa|].
  split; [by apply page_desc_prot|]. pattern prot. apply prot_cases; [done|reflexivity..].
Qed.

Lemma page_desc_roundtrip_witness :
  pte_ipa (page_desc 0x40005000 2) = 0x40005000 ∧ pte_to_prot (page_desc 0x40005000 2) = 3.
Proof.
  destruct (page_desc_roundtrip 0x40005000 2) as (_ & H1 & H2 & _); [done..|].
  split; [exact H1|exact H2].
Defined.
