(* ===== verification/Translation.v ===== *)
(** The two-stage translation as a whole: the invariant that ties the stage-1
    tables, the stage-2 registry and the arena together, and what the memory
    layer's calls do to the address space the guest sees. *)

From S2P Require Import Prelude Host Arena Stage2 PageTable.

(** * Addresses and table indices *)

(** A page-aligned guest virtual address the 39-bit walk can distinguish. *)
Definition user_va (va : Z) : Prop := page_aligned va ∧ 0 ≤ va < 2^39.

Definition in_table (i : Z) : Prop := 0 ≤ i < NR_PAGE_ENTRY.

Lemma index_eq va sh : 0 ≤ sh → Z.land (Z.shiftr va sh) (NR_PAGE_ENTRY - 1) = va / 2^sh mod 512.
Proof.
  intros Hs. change (NR_PAGE_ENTRY - 1) with (Z.ones 9).
  by rewrite Z.land_ones, Z.shiftr_div_pow2 by lia.
Qed.

Lemma in_table_land va sh : 0 ≤ sh → in_table (Z.land (Z.shiftr va sh) (NR_PAGE_ENTRY - 1)).
Proof. intros Hs. rewrite index_eq by done. unfold in_table, NR_PAGE_ENTRY. lia_mod. Qed.

Lemma L1_in va : in_table (L1_INDEX va).
Proof. by apply in_table_land. Qed.
Lemma L2_in va : in_table (L2_INDEX va).
Proof. by apply in_table_land. Qed.
Lemma L3_in va : in_table (L3_INDEX va).
Proof. by apply in_table_land. Qed.
#[export] Hint Resolve L1_in L2_in L3_in : nabi.

Lemma indices_inj va vb :
  user_va va → user_va vb → L1_INDEX va = L1_INDEX vb → L2_INDEX va = L2_INDEX vb →
  L3_INDEX va = L3_INDEX vb → va = vb.
Proof.
  unfold L1_INDEX, L2_INDEX, L3_INDEX. rewrite !index_eq by lia.
  unfold user_va, page_aligned. change PAGE with 4096.
  change (2^39) with 549755813888. change (2^30) with 1073741824.
  change (2^21) with 2097152. change (2^12) with 4096.
  intros [Ha Ha'] [Hb Hb'] H1 H2 H3. lia_mod.
Qed.

(** * The tree of tables *)

(** [ipa_to_host] without the panic. *)
Definition host_of (p : pt_state) (ipa : Z) : option Z :=
  (λ hva, hva + (ipa - granule_of ipa)) <$> chunk_index p !! granule_of ipa.

Lemma ipa_to_host_of p ipa x : host_of p ipa = Some x → ipa_to_host p ipa = Ret x.
Proof. unfold host_of, ipa_to_host. destruct (chunk_index p !! _); [by intros [= <-]|done]. Qed.

(** Which table: the root, a level-2 table, a level-3 table. *)
Inductive tkey := K1 | K2 (i : Z) | K3 (i j : Z).

#[global] Instance tkey_eq_dec : EqDecision tkey.
Proof. solve_decision. Defined.

Definition key_ok (k : tkey) : Prop :=
  match k with K1 => True | K2 i => in_table i | K3 i j => in_table i ∧ in_table j end.

(** The table an entry names. *)
Definition child (p : pt_state) (slot : Z) : option Z :=
  if pte_valid (rd p slot) then host_of p (pte_ipa (rd p slot)) else None.

Definition table (p : pt_state) (k : tkey) : option Z :=
  match k with
  | K1 => Some (l1_entries p)
  | K2 i => child p (l1_entries p + 8 * i)
  | K3 i j => l2 ← child p (l1_entries p + 8 * i); child p (l2 + 8 * j)
  end.

Definition slot (p : pt_state) (va : Z) : option Z :=
  (λ l3, l3 + 8 * L3_INDEX va) <$> table p (K3 (L1_INDEX va) (L2_INDEX va)).

(** The level-3 descriptor of [va], zero when the walk does not reach one. *)
Definition pte (p : pt_state) (va : Z) : Z :=
  match slot p va with Some a => rd p a | None => 0 end.

(** A page the allocator has handed out. *)
Definition handed (p : pt_state) (a : Z) : Prop :=
  ∃ c k, c ∈ chunks p ∧ 0 ≤ k < PAGES_PER_CHUNK ∧ a = ck_hva c + k * PAGE ∧
         (ck_hva c = ck_hva (cur_chunk p) → k < ck_used (cur_chunk p)).

(** The allocator's books: chunks are distinct host blocks at distinct
    guest-physical blocks below the cursor, and the index finds each. *)
Record chunks_ok (p : pt_state) : Prop := {
  ch_each c : c ∈ chunks p →
    gran (ck_hva c) ∧ 0 < ck_hva c ∧ gran (ck_ipa c) ∧ 0 ≤ ck_ipa c ∧
    ck_ipa c + STAGE2_GRANULE ≤ ipa_brk p ∧ chunk_index p !! ck_ipa c = Some (ck_hva c);
  ch_index i h : chunk_index p !! i = Some h → ∃ c, c ∈ chunks p ∧ ck_ipa c = i ∧ ck_hva c = h;
  ch_inj c c' : c ∈ chunks p → c' ∈ chunks p → ck_hva c = ck_hva c' → ck_ipa c = ck_ipa c';
  ch_used : 0 ≤ ck_used (cur_chunk p) ≤ PAGES_PER_CHUNK;
  ch_cur : ck_hva (cur_chunk p) = 0 ∨
    ∃ c, c ∈ chunks p ∧ ck_hva c = ck_hva (cur_chunk p) ∧ ck_ipa c = ck_ipa (cur_chunk p);
}.

(** The tables: every entry of an upper table that is valid names one, and no
    two places in the tree name the same. *)
Record tree_ok (p : pt_state) : Prop := {
  tr_root : l1_entries p ≠ 0;
  tr_handed k a : key_ok k → table p k = Some a → handed p a;
  tr_inj k k' a : key_ok k → key_ok k' → table p k = Some a → table p k' = Some a → k = k';
  tr_l1 i : in_table i → pte_valid (rd p (l1_entries p + 8 * i)) = true →
    is_Some (table p (K2 i));
  tr_l2 i j t : in_table i → in_table j → table p (K2 i) = Some t →
    pte_valid (rd p (t + 8 * j)) = true → is_Some (table p (K3 i j));
}.

Lemma handed_page p a : chunks_ok p → handed p a → page_aligned a ∧ 0 < a.
Proof.
  intros Hc (c & k & Hin & Hk & -> & _). destruct (ch_each _ Hc c Hin) as (Hg & Hp & _).
  unfold page_aligned, gran in *. change PAGE with 4096. change STAGE2_GRANULE with 16384 in Hg.
  change PAGES_PER_CHUNK with 4 in Hk. split; [lia_mod|lia].
Qed.

(** Words of different pages are different words. *)
Lemma slot_neq a b i j :
  page_aligned a → page_aligned b → in_table i → in_table j → a ≠ b → a + 8 * i ≠ b + 8 * j.
Proof.
  unfold page_aligned, in_table. change PAGE with 4096. change NR_PAGE_ENTRY with 512.
  intros Ha Hb Hi Hj Hne Heq. apply Hne. lia_mod.
Qed.

Lemma slot_inj a b i j :
  page_aligned a → page_aligned b → in_table i → in_table j → a + 8 * i = b + 8 * j → a = b ∧ i = j.
Proof.
  unfold page_aligned, in_table. change PAGE with 4096. change NR_PAGE_ENTRY with 512.
  intros Ha Hb Hi Hj Heq. assert (a = b) by lia_mod. lia.
Qed.

(** ** Writing a word *)

Lemma rd_wr p a v b : rd (wr a v p) b = if decide (b = a) then v else rd p b.
Proof.
  unfold rd, wr. simpl. destruct (decide (b = a)) as [->|Hne].
  - by rewrite lookup_insert_eq.
  - by rewrite lookup_insert_ne.
Qed.

Lemma host_of_wr p a v ipa : host_of (wr a v p) ipa = host_of p ipa.
Proof. done. Qed.

Lemma child_wr p a v s : s ≠ a → child (wr a v p) s = child p s.
Proof. intros Hne. unfold child. by rewrite rd_wr, decide_False. Qed.

Section Tree.
Context (p : pt_state) (Hc : chunks_ok p) (Ht : tree_ok p).

Lemma table_page k t : key_ok k → table p k = Some t → page_aligned t.
Proof. intros Hk Hkt. by apply (handed_page p), (tr_handed p Ht k t). Qed.

Lemma root_page : page_aligned (l1_entries p).
Proof. by apply (table_page K1). Qed.

(** An entry determines its table and its index. *)
Lemma entry_inj k k' t t' i j :
  key_ok k → key_ok k' → table p k = Some t → table p k' = Some t' →
  in_table i → in_table j → t + 8 * i = t' + 8 * j → k = k' ∧ i = j.
Proof.
  intros Hk Hk' Hkt Hkt' Hi Hj Heq.
  destruct (slot_inj t t' i j) as [<- <-]; try done.
  { by apply (table_page k). }
  { by apply (table_page k'). }
  split; [|done]. by apply (tr_inj p Ht k k' t).
Qed.

(** Overwriting a leaf leaves every table where it is. *)
Lemma table_wr_leaf i j t k v key :
  in_table i → in_table j → table p (K3 i j) = Some t → in_table k → key_ok key →
  table (wr (t + 8 * k) v p) key = table p key.
Proof.
  intros Hi Hj Hl Hk Hkey.
  assert (∀ i', in_table i' → child (wr (t + 8 * k) v p) (l1_entries p + 8 * i') =
                              child p (l1_entries p + 8 * i')) as H1.
  { intros i' Hi'. apply child_wr. intros Heq.
    by destruct (entry_inj K1 (K3 i j) (l1_entries p) t i' k) as [? _]. }
  destruct key as [|i'|i' j']; simpl in *; [done|auto|].
  rewrite H1 by tauto. destruct (child p (l1_entries p + 8 * i')) as [l2|] eqn:E; simpl; [|done].
  apply child_wr. intros Heq.
  destruct (entry_inj (K2 i') (K3 i j) l2 t j' k) as [? _]; simpl; tauto || done.
Qed.

Lemma pte_wr_leaf i j t k v va :
  in_table i → in_table j → table p (K3 i j) = Some t → in_table k →
  pte (wr (t + 8 * k) v p) va =
  if decide (L1_INDEX va = i ∧ L2_INDEX va = j ∧ L3_INDEX va = k) then v else pte p va.
Proof.
  intros Hi Hj Hl Hk. unfold pte, slot.
  rewrite (table_wr_leaf i j) by (simpl; auto with nabi).
  destruct (decide _) as [(<- & <- & <-)|Hne].
  - rewrite Hl. simpl. by rewrite rd_wr, decide_True.
  - destruct (table p (K3 (L1_INDEX va) (L2_INDEX va))) as [l3|] eqn:E; simpl; [|done].
    rewrite rd_wr, decide_False; [done|]. intros Heq. apply Hne.
    destruct (entry_inj (K3 (L1_INDEX va) (L2_INDEX va)) (K3 i j) l3 t (L3_INDEX va) k) as [Hk' Hkk];
      simpl; auto with nabi.
    by injection Hk' as -> ->.
Qed.

Lemma tree_wr_leaf i j t k v :
  in_table i → in_table j → table p (K3 i j) = Some t → in_table k →
  tree_ok (wr (t + 8 * k) v p).
Proof.
  intros Hi Hj Hl Hk.
  pose proof (λ key, table_wr_leaf i j t k v key Hi Hj Hl Hk) as Htab.
  split.
  - apply (tr_root p Ht).
  - intros key a Hkey. rewrite Htab by done. by apply (tr_handed p Ht).
  - intros key key' a Hkey Hkey'. rewrite !Htab by done. by apply (tr_inj p Ht).
  - intros i' Hi'. rewrite Htab by done. simpl. rewrite rd_wr, decide_False; [by apply (tr_l1 p Ht)|].
    intros Heq. by destruct (entry_inj K1 (K3 i j) (l1_entries p) t i' k) as [? _].
  - intros i' j' t' Hi' Hj'. rewrite !Htab by (simpl; auto). intros Ht'.
    rewrite rd_wr, decide_False; [by apply (tr_l2 p Ht)|].
    intros Heq. by destruct (entry_inj (K2 i') (K3 i j) t' t j' k) as [? _].
Qed.

End Tree.

(** ** Growing the allocator *)

(** [p'] has at least the chunks of [p] and the same tables in memory. *)
Record grown (p p' : pt_state) : Prop := {
  gr_host ipa x : host_of p ipa = Some x → host_of p' ipa = Some x;
  gr_handed a : handed p a → handed p' a;
  gr_words : words p' = words p;
  gr_l1 : l1_entries p' = l1_entries p;
}.

Lemma grown_refl p : grown p p.
Proof. by split. Qed.

Lemma child_grown p p' s :
  grown p p' → (pte_valid (rd p s) = true → is_Some (child p s)) → child p' s = child p s.
Proof.
  intros [Hh _ Hw _] Hs. unfold child in *. unfold rd in *. rewrite Hw.
  destruct (pte_valid _); [|done]. destruct (Hs eq_refl) as [x Hx]. rewrite Hx. by apply Hh.
Qed.

Lemma table_grown p p' k : tree_ok p → grown p p' → key_ok k → table p' k = table p k.
Proof.
  intros Ht Hg Hk. pose proof (gr_l1 _ _ Hg) as Hl.
  destruct k as [|i|i j]; simpl in *; [by f_equal|rewrite Hl..].
  - apply child_grown; [done|]. by apply (tr_l1 p Ht).
  - rewrite (child_grown p p'); [|done|apply (tr_l1 p Ht i), Hk].
    destruct (child p (l1_entries p + 8 * i)) as [t|] eqn:E; simpl; [|done].
    apply child_grown; [done|]. intros Hv.
    pose proof (tr_l2 p Ht i j t (proj1 Hk) (proj2 Hk) E Hv) as Hs. simpl in Hs.
    by rewrite E in Hs.
Qed.

Lemma tree_grown p p' : tree_ok p → grown p p' → tree_ok p'.
Proof.
  intros Ht Hg. pose proof (λ k, table_grown p p' k Ht Hg) as Htab. destruct Hg as [_ Hh Hw Hl].
  assert (∀ a, rd p' a = rd p a) as Hrd by (intros; unfold rd; by rewrite Hw).
  split.
  - rewrite Hl. apply (tr_root p Ht).
  - intros k a Hk. rewrite Htab by done. intros Ha. by apply Hh, (tr_handed p Ht k).
  - intros k k' a Hk Hk'. rewrite !Htab by done. by apply (tr_inj p Ht).
  - intros i Hi. rewrite Htab, Hl, Hrd by done. by apply (tr_l1 p Ht).
  - intros i j t Hi Hj. rewrite !Htab, Hrd by done. by apply (tr_l2 p Ht).
Qed.

Lemma pte_grown p p' va : tree_ok p → grown p p' → pte p' va = pte p va.
Proof.
  intros Ht Hg. unfold pte, slot. rewrite (table_grown p p') by (simpl; auto with nabi).
  unfold rd. by rewrite (gr_words _ _ Hg).
Qed.

(** ** Linking a new table *)

Lemma rd_zero_page p a b : rd (zero_page a p) b = if decide (a ≤ b < a + PAGE) then 0 else rd p b.
Proof.
  unfold rd, zero_page. cbn [words set_words].
  set (f := filter (λ e : Z * Z, ¬ (a ≤ e.1 < a + PAGE)) (words p)).
  destruct (decide (a ≤ b < a + PAGE)) as [Hin|Hout].
  - assert (f !! b = None) as ->; [|done].
    apply map_lookup_filter_None. right. intros x _ Hn. by apply Hn.
  - assert (f !! b = words p !! b) as ->; [|done]. destruct (words p !! b) as [x|] eqn:E.
    + by apply map_lookup_filter_Some.
    + apply map_lookup_filter_None. by left.
Qed.

Section Link.
Context (p : pt_state) (Hc : chunks_ok p) (Ht : tree_ok p).
(** A page not handed out before, its guest-physical address, and the entry
    that is to name it: entry [i] of table [kt] at [t], so far invalid. *)
Context (p1 : pt_state) (Hg : grown p p1) (hp ipa : Z).
Context (Hfresh : ¬ handed p hp) (Hnew : handed p1 hp) (Hhp : page_aligned hp).
Context (Hhost : host_of p1 ipa = Some hp) (Hipa : 0 ≤ ipa < 2^48) (Hpa : page_aligned ipa).
Context (kt : tkey) (t i : Z) (Hkt : key_ok kt) (Htt : table p kt = Some t) (Hi : in_table i).
Context (Hinv : pte_valid (rd p (t + 8 * i)) = false).

Definition linked : pt_state := wr (t + 8 * i) (table_desc ipa) (zero_page hp p1).

(** The key of the new table. *)
Definition new_key : option tkey :=
  match kt with K1 => Some (K2 i) | K2 i1 => Some (K3 i1 i) | K3 _ _ => None end.

Lemma linked_entry : rd linked (t + 8 * i) = table_desc ipa.
Proof. unfold linked. by rewrite rd_wr, decide_True. Qed.

Lemma in_page_of a b j : page_aligned a → page_aligned b → in_table j → a ≤ b + 8 * j < a + PAGE → a = b.
Proof.
  unfold page_aligned, in_table. change PAGE with 4096. change NR_PAGE_ENTRY with 512.
  intros Ha Hb Hj Hin. lia_mod.
Qed.

Lemma linked_zero j : in_table j → rd linked (hp + 8 * j) = 0.
Proof.
  intros Hj. unfold linked. rewrite rd_wr, decide_False, rd_zero_page, decide_True; [done|..].
  - unfold in_table in Hj. change PAGE with 4096. change NR_PAGE_ENTRY with 512 in Hj. lia.
  - intros Heq. assert (page_aligned t) by (by apply (table_page p Hc Ht kt)).
    destruct (slot_inj hp t j i) as [<- _]; try done. apply Hfresh. by apply (tr_handed p Ht kt).
Qed.

(** Entries of other tables, or other entries of this one, are as they were. *)
Lemma linked_other k u j :
  key_ok k → table p k = Some u → in_table j → (k ≠ kt ∨ j ≠ i) → rd linked (u + 8 * j) = rd p (u + 8 * j).
Proof.
  intros Hk Hu Hj Hne. assert (page_aligned u) by (by apply (table_page p Hc Ht k)).
  unfold linked. rewrite rd_wr, decide_False, rd_zero_page, decide_False.
  - unfold rd. by rewrite (gr_words _ _ Hg).
  - intros Hin. destruct (in_page_of hp u j) as []; try done. apply Hfresh. by apply (tr_handed p Ht k).
  - intros Heq. destruct (entry_inj p Hc Ht k kt u t j i) as [-> ->]; try done. by destruct Hne.
Qed.

Lemma linked_child k u j :
  key_ok k → table p k = Some u → in_table j → (k ≠ kt ∨ j ≠ i) →
  (pte_valid (rd p (u + 8 * j)) = true → is_Some (child p (u + 8 * j))) →
  child linked (u + 8 * j) = child p (u + 8 * j).
Proof.
  intros Hk Hu Hj Hne Hs. unfold child at 1. rewrite (linked_other k) by done.
  change (host_of linked) with (host_of p1). rewrite <- (child_grown p p1) by done.
  unfold child, rd. by rewrite (gr_words _ _ Hg).
Qed.

Lemma linked_here : child linked (t + 8 * i) = Some hp.
Proof.
  unfold child. rewrite linked_entry, table_desc_valid, table_desc_ipa by done. exact Hhost.
Qed.

Lemma linked_below j : in_table j → child linked (hp + 8 * j) = None.
Proof. intros Hj. unfold child. by rewrite linked_zero. Qed.

Lemma linked_table k :
  new_key ≠ None → key_ok k →
  table linked k = if decide (Some k = new_key) then Some hp else table p k.
Proof.
  intros Hnk Hk. pose proof linked_here as Hhere. pose proof linked_below as Hbelow.
  pose proof linked_child as Hchild.
  assert (l1_entries linked = l1_entries p) as Hl1 by apply (gr_l1 _ _ Hg).
  assert (∀ i', in_table i' → (K1 ≠ kt ∨ i' ≠ i) →
    child linked (l1_entries p + 8 * i') = child p (l1_entries p + 8 * i')) as Hroot.
  { intros i' Hi' Hne. apply (Hchild K1); try done. by apply (tr_l1 p Ht). }
  destruct k as [|i'|i' j']; cbn [table key_ok] in Hk |- *.
  - rewrite decide_False; [by rewrite Hl1|]. unfold new_key. by destruct kt.
  - rewrite Hl1. destruct (decide (Some (K2 i') = new_key)) as [Hd|Hd].
    + unfold new_key in Hd. destruct kt; try done. injection Hd as ->.
      injection Htt as Htt'. rewrite Htt'. apply Hhere.
    + apply Hroot; [done|]. unfold new_key in Hd. destruct kt; [right; congruence|by left..].
  - rewrite Hl1. destruct Hk as [Hi' Hj']. unfold new_key in *. destruct kt as [|i1|]; [| |done].
    + injection Htt as Htt'. rewrite decide_False by done.
      destruct (decide (i' = i)) as [->|Hne].
      * rewrite Htt', Hhere. cbn [mbind option_bind]. rewrite Hbelow by done.
        unfold child. by rewrite Hinv.
      * rewrite Hroot by auto. destruct (child p (l1_entries p + 8 * i')) as [u|] eqn:E; simpl; [|done].
        apply (Hchild (K2 i')); auto. intros Hv.
        pose proof (tr_l2 p Ht i' j' u Hi' Hj' E Hv) as Hs. simpl in Hs. by rewrite E in Hs.
    + rewrite Hroot by auto. destruct (child p (l1_entries p + 8 * i')) as [u|] eqn:E; simpl.
      * destruct (decide (Some (K3 i' j') = Some (K3 i1 i))) as [[= -> ->]|Hd].
        { simpl in Htt. rewrite E in Htt. injection Htt as ->. apply Hhere. }
        apply (Hchild (K2 i')); auto.
        { destruct (decide (i' = i1)) as [->|]; [right; congruence|left; congruence]. }
        intros Hv. pose proof (tr_l2 p Ht i' j' u Hi' Hj' E Hv) as Hs. simpl in Hs. by rewrite E in Hs.
      * rewrite decide_False; [done|]. intros [= -> ->]. simpl in Htt. congruence.
Qed.

Lemma new_key_ok k : Some k = new_key → key_ok k ∧ table p k = None.
Proof.
  unfold new_key. pose proof Htt as Htt1. pose proof Hkt as Hkt1. destruct kt; intros [= ->]; simpl in *.
  - injection Htt1 as ->. split; [done|]. unfold child. by rewrite Hinv.
  - split; [done|]. rewrite Htt1. simpl. unfold child. by rewrite Hinv.
Qed.

Lemma linked_tree : new_key ≠ None → tree_ok linked.
Proof.
  intros Hnk. pose proof (λ k, linked_table k Hnk) as Htab.
  assert (l1_entries linked = l1_entries p) as Hl1 by apply (gr_l1 _ _ Hg).
  assert (∀ k a, key_ok k → table p k = Some a → a ≠ hp) as Hold.
  { intros k a Hk Ha ->. by apply Hfresh, (tr_handed p Ht k). }
  split.
  - rewrite Hl1. apply (tr_root p Ht).
  - intros k a Hk. rewrite Htab by done. change (handed linked) with (handed p1).
    destruct (decide _); [by intros [= <-]|]. intros Ha. by apply (gr_handed _ _ Hg), (tr_handed p Ht k).
  - intros k k' a Hk Hk'. rewrite !Htab by done.
    destruct (decide (Some k = new_key)) as [E|E], (decide (Some k' = new_key)) as [E'|E'].
    + intros _ _. congruence.
    + intros [= <-] Ha. by apply Hold in Ha.
    + intros Ha [= <-]. by apply Hold in Ha.
    + by apply (tr_inj p Ht).
  - intros i' Hi'. rewrite Hl1, Htab by done. destruct (decide _) as [E|E]; [done|].
    rewrite (linked_other K1); [by apply (tr_l1 p Ht)|done..|].
    destruct (decide (K1 = kt)) as [Ek|]; [|by left]. right. intros ->. apply E.
    unfold new_key. by rewrite <- Ek.
  - intros i' j' u Hi' Hj'. rewrite !Htab by done.
    destruct (decide (Some (K2 i') = new_key)) as [E|E].
    + intros [= <-]. by rewrite linked_zero.
    + intros Hu. destruct (decide (Some (K3 i' j') = new_key)) as [E'|E']; [done|].
      rewrite (linked_other (K2 i')); [by apply (tr_l2 p Ht)|done..|].
      destruct (decide (K2 i' = kt)) as [Ek|]; [|by left]. right. intros ->. apply E'.
      unfold new_key. by rewrite <- Ek.
Qed.

Lemma linked_pte va : new_key ≠ None → pte linked va = pte p va.
Proof.
  intros Hnk. unfold pte, slot. rewrite linked_table by (simpl; auto with nabi).
  destruct (decide _) as [E|E].
  - destruct (new_key_ok _ E) as [_ ->]. simpl. apply linked_zero. auto with nabi.
  - destruct (table p (K3 (L1_INDEX va) (L2_INDEX va))) as [l3|] eqn:El; simpl; [|done].
    apply (linked_other (K3 (L1_INDEX va) (L2_INDEX va))); simpl; auto with nabi.
    left. intros Ek. apply Hnk. unfold new_key. by rewrite <- Ek.
Qed.

Lemma linked_grown_table k a : new_key ≠ None → key_ok k → table p k = Some a → table linked k = Some a.
Proof.
  intros Hnk Hk Ha. rewrite linked_table by done. destruct (decide _) as [E|E]; [|done].
  destruct (new_key_ok _ E) as [_ ?]. congruence.
Qed.

End Link.

(** * The invariant of the machine *)

(** Every page of the guest's virtual address space, sealed: nothing should
    try to enumerate it. *)
Definition all_vas_seal : { l : list Z | l = counter PAGE (2^39) }.
Proof. exact (exist _ (counter PAGE (2^39)) eq_refl). Qed.
Definition all_vas : list Z := `all_vas_seal.
Definition all_vas_eq : all_vas = counter PAGE (2^39) := proj2_sig all_vas_seal.

Lemma elem_of_all_vas va : va ∈ all_vas ↔ user_va va.
Proof. rewrite all_vas_eq. by apply elem_of_counter. Qed.

Lemma NoDup_all_vas : NoDup all_vas.
Proof. rewrite all_vas_eq. by apply NoDup_counter. Qed.

Lemma length_all_vas : Z.of_nat (length all_vas) = 2^27.
Proof. rewrite all_vas_eq. by rewrite length_counter. Qed.

(** The descriptor of [va] is valid and falls in block [b]. *)
Definition points (p : pt_state) (b va : Z) : bool :=
  pte_valid (pte p va) && (granule_of (pte_ipa (pte p va)) =? b).

(** How many descriptors use block [b]. *)
Definition users (p : pt_state) (b : Z) : nat := count (points p b) all_vas.

Lemma pte_ipa_range w : page_aligned (pte_ipa w) ∧ 0 ≤ pte_ipa w.
Proof.
  unfold pte_ipa, page_aligned. split; [|by apply Z.land_nonneg; right].
  rewrite <- land_page, <- Z.land_assoc. change (Z.land PTE_ADDR_MASK (PAGE - 1)) with 0.
  by rewrite Z.land_0_r.
Qed.

Lemma pte_ipa_lt w : pte_ipa w < 2^48.
Proof.
  unfold pte_ipa. change PTE_ADDR_MASK with (Z.land PTE_ADDR_MASK (Z.ones 48)).
  rewrite Z.land_assoc, Z.land_ones by lia. by apply Z.mod_pos_bound.
Qed.

Section Machine.
Context {H V : Type} `{HL : HostLaws H, HV : HvLaws V}.
Implicit Type m : machine H V.

(** The books below the tables: the registry, the arena, the allocator, and
    what each owes the others. *)
Record base_ok m : Prop := {
  mo_s2 : s2_ok (m_s2 m);
  mo_limit : hv_limit (s2_vm (m_s2 m)) ≤ 2^48;
  mo_brk : gran (ipa_brk (m_pt m)) ∧ 0 ≤ ipa_brk (m_pt m);
  mo_fresh i e : s2_map (m_s2 m) !! i = Some e → i + STAGE2_GRANULE ≤ ipa_brk (m_pt m);
  mo_arena : arena_wf (m_arena m) (m_host m);
  mo_backed i e : s2_map (m_s2 m) !! i = Some e → h_back (m_host m) (s2_haddr e) ≠ None;
  mo_chunks : chunks_ok (m_pt m);
  mo_chunk_s2 c : c ∈ chunks (m_pt m) →
    s2_haddr <$> s2_map (m_s2 m) !! ck_ipa c = Some (ck_hva c);
}.

(** ... and the tables: every descriptor names a live block, and a block that
    is not one of the allocator's own counts its descriptors. *)
Record machine_ok m : Prop := {
  mo_base : base_ok m;
  mo_tree : tree_ok (m_pt m);
  mo_desc va : user_va va → pte_valid (pte (m_pt m) va) = true →
    is_Some (s2_map (m_s2 m) !! granule_of (pte_ipa (pte (m_pt m) va)));
  mo_refs b e : s2_map (m_s2 m) !! b = Some e → chunk_index (m_pt m) !! b = None →
    s2_refs e = Z.of_nat (users (m_pt m) b);
}.

(** Room for [k] more blocks, of arena and of guest-physical space. *)
Definition room (k : Z) m : Prop :=
  arena_brk (m_arena m) + k * STAGE2_GRANULE ≤ 2^61 ∧
  ipa_brk (m_pt m) + k * STAGE2_GRANULE ≤ hv_limit (s2_vm (m_s2 m)).

(** The host memory [m] has is still there in [m'], with its contents. *)
Definition kept_host m m' : Prop := ∀ x, h_back (m_host m) x ≠ None →
  h_back (m_host m') x = h_back (m_host m) x ∧ h_mem (m_host m') x = h_mem (m_host m) x.

Lemma kept_host_trans m m1 m2 : kept_host m m1 → kept_host m1 m2 → kept_host m m2.
Proof.
  intros H01 H12 x Hx. destruct (H01 x Hx) as [E1 F1]. rewrite <- E1, <- F1.
  apply H12. by rewrite E1.
Qed.

(** [m'] has what [m] had and at most [k] blocks more, with [m]'s registry
    entries unchanged. *)
Record more (k : Z) m m' : Prop := {
  mr_room j : room (k + j) m → room j m';
  mr_s2 i e : s2_map (m_s2 m) !! i = Some e → s2_map (m_s2 m') !! i = Some e;
  mr_index i h : chunk_index (m_pt m) !! i = Some h → chunk_index (m_pt m') !! i = Some h;
  mr_new i e : s2_map (m_s2 m') !! i = Some e → s2_map (m_s2 m) !! i = None →
    chunk_index (m_pt m') !! i ≠ None;
  mr_limit : hv_limit (s2_vm (m_s2 m')) = hv_limit (s2_vm (m_s2 m));
  mr_host : kept_host m m';
  mr_chunk i h : chunk_index (m_pt m') !! i = Some h →
    chunk_index (m_pt m) !! i = Some h ∨ h_back (m_host m) h = None;
  mr_spans o x q : maps (arena_spans (m_arena m)) o x q → maps (arena_spans (m_arena m')) o x q;
  mr_fd : arena_backing_fd (m_arena m') = arena_backing_fd (m_arena m);
}.

Lemma more_refl m : more 0 m m.
Proof. split; auto; [intros i e ? ?; congruence|by intros x _]. Qed.

Lemma kept_unbacked m m1 h : kept_host m m1 → h_back (m_host m1) h = None → h_back (m_host m) h = None.
Proof.
  intros Hk Hn. destruct (h_back (m_host m) h) eqn:E; [|done].
  destruct (Hk h) as [E' _]; congruence.
Qed.

Lemma more_trans k k' m m1 m2 : more k m m1 → more k' m1 m2 → more (k + k') m m2.
Proof.
  intros [] []. split; auto.
  - intros j Hr. apply mr_room1, mr_room0. by rewrite Z.add_assoc.
  - intros i e Hi Hn. destruct (s2_map (m_s2 m1) !! i) as [e1|] eqn:E; [|by eapply mr_new1].
    destruct (chunk_index (m_pt m1) !! i) as [h|] eqn:Ec; [|by apply (mr_new0 i e1) in Ec].
    by rewrite (mr_index1 _ _ Ec).
  - congruence.
  - by eapply kept_host_trans.
  - intros i h [?|?]%mr_chunk1; [auto|]. right. by eapply kept_unbacked.
  - congruence.
Qed.

(** ** The allocator of guest-physical pages *)

Lemma page_in_chunk a b i j :
  gran a → gran b → 0 ≤ i < 4 → 0 ≤ j < 4 → a + i * PAGE = b + j * PAGE → a = b ∧ i = j.
Proof.
  unfold gran. change PAGE with 4096. change STAGE2_GRANULE with 16384.
  intros Ha Hb Hi Hj Heq. assert (a = b) by lia_mod. lia.
Qed.

Lemma gran_page a i : gran a → page_aligned (a + i * PAGE).
Proof.
  unfold gran, page_aligned. change PAGE with 4096. change STAGE2_GRANULE with 16384. intros. lia_mod.
Qed.

(** Inside a block, [granule_of] finds the block. *)
Lemma granule_of_in b d : gran b → 0 ≤ d < STAGE2_GRANULE → granule_of (b + d) = b.
Proof.
  intros Hb Hd. destruct (granule_of_spec (b + d)) as [Hg Hr].
  unfold gran in *. change STAGE2_GRANULE with 16384 in *. lia_mod.
Qed.

(** The next page of the current chunk. *)
Definition take_page (p : pt_state) : pt_state :=
  let c := cur_chunk p in
  set_cur_chunk (mk_chunk (ck_hva c) (ck_off c) (ck_ipa c) (ck_used c + 1)) p.

Lemma take_page_spec p :
  chunks_ok p → ck_hva (cur_chunk p) ≠ 0 → ck_used (cur_chunk p) < PAGES_PER_CHUNK →
  let hva := ck_hva (cur_chunk p) + ck_used (cur_chunk p) * PAGE in
  let ipa := ck_ipa (cur_chunk p) + ck_used (cur_chunk p) * PAGE in
  chunks_ok (take_page p) ∧ grown p (take_page p) ∧ ¬ handed p hva ∧ handed (take_page p) hva ∧
  page_aligned hva ∧ host_of (take_page p) ipa = Some hva ∧ page_aligned ipa ∧
  0 ≤ ipa ∧ ipa + PAGE ≤ ipa_brk p.
Proof.
  intros Hc Hn Hu hva ipa. destruct (ch_cur _ Hc) as [?|(c & Hin & Hh & Hi)]; [done|].
  pose proof (ch_used _ Hc) as Hu0. change PAGES_PER_CHUNK with 4 in *.
  destruct (ch_each _ Hc c Hin) as (Hg & Hp & Hgi & Hi0 & Hlt & Hidx). rewrite Hh, Hi in *.
  set (u := ck_used (cur_chunk p)) in *.
  split.
  { destruct Hc. split; simpl; auto. change PAGES_PER_CHUNK with 4. fold u. lia. }
  split.
  { split; auto. intros a (c' & k & Hin' & Hk & -> & Hlim). exists c', k.
    split; [done|]. split; [done|]. split; [done|]. simpl. intros He. specialize (Hlim He). fold u. lia. }
  split.
  { intros (c' & k & Hin' & Hk & Heq & Hlim). change PAGES_PER_CHUNK with 4 in Hk.
    destruct (page_in_chunk (ck_hva (cur_chunk p)) (ck_hva c') u k) as [He <-]; try done; [|lia|].
    - by apply (ch_each _ Hc).
    - specialize (Hlim (eq_sym He)). fold u in Hlim. lia. }
  split.
  { exists c, u. change PAGES_PER_CHUNK with 4. rewrite Hh. simpl. fold u. repeat split; [done|lia..]. }
  split; [by apply gran_page|]. split.
  { unfold host_of. assert (granule_of ipa = ck_ipa (cur_chunk p)) as ->.
    { apply granule_of_in; [done|]. change STAGE2_GRANULE with 16384. change PAGE with 4096. lia. }
    cbn [take_page set_cur_chunk chunk_index]. rewrite Hidx. simpl. f_equal. subst hva ipa. lia. }
  split; [by apply gran_page|]. subst ipa. change STAGE2_GRANULE with 16384 in Hlt.
  change PAGE with 4096. lia.
Qed.

(** A chunk at the cursor. *)
Definition add_chunk (c : s2_chunk) (cap : Z) (p : pt_state) : pt_state :=
  set_chunks (chunks p ++ [c]) (set_chunks_cap cap (chunk_index_put (ck_ipa c) (ck_hva c)
    (set_ipa_brk (ipa_brk p + STAGE2_GRANULE) (set_cur_chunk c p)))).

Lemma add_chunk_spec p hva off cap :
  chunks_ok p → gran (ipa_brk p) → 0 ≤ ipa_brk p → gran hva → 0 < hva →
  (∀ c, c ∈ chunks p → ck_hva c ≠ hva) →
  let p' := add_chunk (mk_chunk hva off (ipa_brk p) 0) cap p in
  chunks_ok p' ∧ grown p p' ∧
  (∀ i h, chunk_index p !! i = Some h → chunk_index p' !! i = Some h) ∧
  chunk_index p' !! ipa_brk p ≠ None.
Proof.
  intros Hc Hg H0b Hh Hp Hne. simpl.
  set (c0 := mk_chunk hva off (ipa_brk p) 0).
  assert (∀ i h, chunk_index p !! i = Some h → i ≠ ipa_brk p) as Hidx.
  { intros i h Hi ->. destruct (ch_index _ Hc _ _ Hi) as (c & Hin & Hci & _).
    destruct (ch_each _ Hc c Hin) as (_ & _ & _ & _ & Hlt & _).
    rewrite Hci in Hlt. change STAGE2_GRANULE with 16384 in Hlt. lia. }
  assert (∀ i h, chunk_index p !! i = Some h → <[ipa_brk p := hva]> (chunk_index p) !! i = Some h) as Hkeep.
  { intros i h Hi. rewrite lookup_insert_ne; [done|]. intros <-. by apply (Hidx _ _ Hi). }
  split; [|split; [|split; [exact Hkeep|by rewrite lookup_insert_eq]]].
  - split; simpl.
    + intros c [Hin| ->%list_elem_of_singleton]%elem_of_app.
      * destruct (ch_each _ Hc c Hin) as (? & ? & ? & ? & ? & ?).
        change STAGE2_GRANULE with 16384 in *. repeat split; auto; lia.
      * simpl. rewrite lookup_insert_eq. repeat split; auto; lia.
    + intros i h [[<- <-]|[_ Hi]]%lookup_insert_Some.
      * exists c0. split; [|done]. apply elem_of_app. right. left.
      * destruct (ch_index _ Hc _ _ Hi) as (c & ? & ?). exists c. split; [|done].
        apply elem_of_app. by left.
    + intros c c' [Hin| ->%list_elem_of_singleton]%elem_of_app
             [Hin'| ->%list_elem_of_singleton]%elem_of_app; simpl; try done.
      * by apply (ch_inj _ Hc).
      * intros E. by apply Hne in Hin.
      * intros E. symmetry in E. by apply Hne in Hin'.
    + change PAGES_PER_CHUNK with 4. lia.
    + right. exists c0. split; [|done]. apply elem_of_app. right. left.
  - split; auto.
    + intros ipa x. unfold host_of. simpl.
      destruct (chunk_index p !! granule_of ipa) as [h|] eqn:E; [|done]. by rewrite (Hkeep _ _ E).
    + intros a (c & k & Hin & Hk & -> & _). exists c, k. split; [apply elem_of_app; by left|].
      split; [done|]. split; [done|]. simpl. intros E. by apply Hne in Hin.
Qed.

Lemma chunk_record_spec c m :
  match chunk_record c m with
  | Ret m' => ∃ cap, m' = with_pt (set_chunks (chunks (m_pt m) ++ [c])
                           (set_chunks_cap cap (chunk_index_put (ck_ipa c) (ck_hva c) (m_pt m)))) m
  | Stop w => w = NoMemory
  end.
Proof.
  unfold chunk_record. destruct (_ =? _); [destruct (h_realloc _ _)|]; simpl; eauto.
Qed.

(** A new allocation is no page the registry knows, and mapping it at the
    cursor is accepted. *)
Lemma new_chunk_map m hva off a h :
  base_ok m → room 1 m →
  arena_alloc STAGE2_GRANULE (m_arena m) (m_host m) = Ret (hva, off, a, h) →
  gran hva ∧ off = arena_brk (m_arena m) ∧ arena_wf a h ∧
  arena_brk a = arena_brk (m_arena m) + STAGE2_GRANULE ∧
  new_memory (m_host m) h hva STAGE2_GRANULE ∧
  (∃ sp, arena_spans a = arena_spans (m_arena m) ++ [sp]) ∧
  arena_backing_fd a = arena_backing_fd (m_arena m) ∧
  ∃ s, vmm_arm64_map_stage2 (ipa_brk (m_pt m)) STAGE2_GRANULE 7 hva (m_s2 m) = Ret s ∧ s2_ok s ∧
       s2_map (m_s2 m) !! ipa_brk (m_pt m) = None ∧
       s2_map s = <[ipa_brk (m_pt m) := mk_s2 hva 7 0]> (s2_map (m_s2 m)) ∧
       hv_limit (s2_vm s) = hv_limit (s2_vm (m_s2 m)).
Proof.
  intros Hok [Hr1 Hr2] Ha. destruct Hok as [Hs2 Hlim Hbrk Hfr Har Hbk Hch Hcs].
  rewrite !Z.mul_1_l in *.
  pose proof (arena_alloc_wf STAGE2_GRANULE (m_arena m) (m_host m) Har) as Hal.
  rewrite Ha in Hal. change STAGE2_GRANULE with 16384 in Hr1.
  destruct Hal as (Hwf & -> & Hspans & Hab & Hnew); [done|lia|].
  change (roundup STAGE2_GRANULE ARENA_GRANULE) with STAGE2_GRANULE in *.
  assert (gran hva) as Hg.
  { pose proof (wf_spans _ _ Hwf) as Hsp. rewrite Hspans in Hsp.
    apply Forall_app in Hsp as [_ Hsp]. apply Forall_singleton in Hsp as (_ & _ & _ & _ & ? & _). done. }
  assert (h_back (m_host m) hva = None) as Hfree.
  { rewrite <- (Z.add_0_r hva). by apply (nm_free _ _ _ _ Hnew). }
  assert (hblk_index (m_s2 m) !! hva = None) as Hidx.
  { destruct (hblk_index (m_s2 m) !! hva) as [j|] eqn:E; [|done].
    apply (so_bwd _ Hs2) in E. destruct (s2_map (m_s2 m) !! j) as [e|] eqn:Ej; [|done].
    injection E as E. apply Hbk in Ej. by rewrite E, Hfree in Ej. }
  assert (s2_map (m_s2 m) !! ipa_brk (m_pt m) = None) as Hnone.
  { destruct (s2_map (m_s2 m) !! ipa_brk (m_pt m)) as [e|] eqn:E; [|done].
    apply Hfr in E. change STAGE2_GRANULE with 16384 in E. lia. }
  do 5 (split; [done|]). split; [by eexists|]. split; [by apply (arena_alloc_fd _ _ _ _ _ _ _ Har Ha)|].
  pose proof (map_stage2_ok (ipa_brk (m_pt m)) 7 hva (m_s2 m) Hs2 Hg) as Hm. rewrite Hnone in Hm.
  destruct (vmm_arm64_map_stage2 _ _ _ _ _) as [s|w].
  - destruct Hm as (? & ? & ?); [tauto|tauto|done|done|intros j Hj; congruence|done|]. by exists s.
  - by destruct Hm; [tauto|tauto|done|done|intros j Hj; congruence|done].
Qed.

(** The arena and the registry after a chunk has been made. *)
Lemma new_chunk_spec m hva off a h s :
  base_ok m → room 1 m →
  arena_alloc STAGE2_GRANULE (m_arena m) (m_host m) = Ret (hva, off, a, h) →
  vmm_arm64_map_stage2 (ipa_brk (m_pt m)) STAGE2_GRANULE 7 hva (m_s2 m) = Ret s →
  ∀ cap, let m' := mk_machine (add_chunk (mk_chunk hva off (ipa_brk (m_pt m)) 0) cap (m_pt m)) s a h in
  base_ok m' ∧ grown (m_pt m) (m_pt m') ∧ more 1 m m'.
Proof.
  intros Hok Hr Ha Hs cap. simpl.
  destruct (new_chunk_map m hva off a h Hok Hr Ha)
    as (Hg & -> & Hwf & Hab & Hnew & [sp Hspans] & Hfd & s' & Hs' & Hok' & Hnone & Hmap & Hl').
  rewrite Hs in Hs'. injection Hs' as <-.
  destruct Hok as [Hs2 Hlim Hbrk Hfr Har Hbk Hch Hcs].
  assert (h_back (m_host m) hva = None) as Hfree.
  { rewrite <- (Z.add_0_r hva). by apply (nm_free _ _ _ _ Hnew). }
  assert (∀ c, c ∈ chunks (m_pt m) → ck_hva c ≠ hva) as Hne.
  { intros c Hin E. pose proof (Hcs c Hin) as Hcc.
    destruct (s2_map (m_s2 m) !! ck_ipa c) as [e|] eqn:Ee; [|done]. injection Hcc as Hcc.
    apply Hbk in Ee. by rewrite Hcc, E, Hfree in Ee. }
  assert (∀ i e, s2_map (m_s2 m) !! i = Some e → s2_map s !! i = Some e) as Hkeep.
  { intros i e Hi. rewrite Hmap, lookup_insert_ne; [done|]. intros <-. congruence. }
  destruct (add_chunk_spec (m_pt m) hva (arena_brk (m_arena m)) cap Hch (proj1 Hbrk) (proj2 Hbrk) Hg
    (nm_pos _ _ _ _ Hnew) Hne) as (Hch' & Hgr & Hik & Hin).
  split; [|split; [done|]].
  - split; simpl; auto.
    + by rewrite Hl'.
    + unfold gran in *. change STAGE2_GRANULE with 16384 in *. split; [lia_mod|lia].
    + intros i e. rewrite Hmap. intros [[<- _]|[_ Hi]]%lookup_insert_Some; [lia|].
      apply Hfr in Hi. change STAGE2_GRANULE with 16384 in *. lia.
    + intros i e. rewrite Hmap. intros [[_ <-]|[_ Hi]]%lookup_insert_Some; simpl.
      * rewrite <- (Z.add_0_r hva). by apply (nm_live _ _ _ _ Hnew).
      * rewrite (nm_back _ _ _ _ Hnew); by apply (Hbk i).
    + intros c [Hc| ->%list_elem_of_singleton]%elem_of_app.
      * specialize (Hcs c Hc). destruct (s2_map (m_s2 m) !! ck_ipa c) as [e|] eqn:Ee; [|done].
        by rewrite (Hkeep _ _ Ee).
      * simpl. by rewrite Hmap, lookup_insert_eq.
  - split; simpl; auto.
    + intros j. unfold room. simpl. rewrite Hab, Hl'. change STAGE2_GRANULE with 16384. lia.
    + intros i e. rewrite Hmap. intros [[<- _]|[_ Hi]]%lookup_insert_Some; [done|]. congruence.
    + intros x Hx. split; [by apply (nm_back _ _ _ _ Hnew)|by apply (nm_mem _ _ _ _ Hnew)].
    + intros i h' [[_ <-]|[_ Hi]]%lookup_insert_Some; [by right|by left].
    + intros o x q. rewrite Hspans, maps_app. by left.
Qed.

Lemma room_le j k m : 0 ≤ j ≤ k → room k m → room j m.
Proof. unfold room. change STAGE2_GRANULE with 16384. lia. Qed.

Lemma more_le j k m m' : j ≤ k → more j m m' → more k m m'.
Proof.
  intros Hjk []. split; auto. intros i Hi. apply mr_room0.
  unfold room in *. change STAGE2_GRANULE with 16384 in *. lia.
Qed.

Lemma grown_trans p p1 p2 : grown p p1 → grown p1 p2 → grown p p2.
Proof. intros [] []. split; auto; congruence. Qed.

(** Taking a page touches the allocator's cursor only. *)
Lemma take_page_base m :
  base_ok m → ck_hva (cur_chunk (m_pt m)) ≠ 0 → ck_used (cur_chunk (m_pt m)) < PAGES_PER_CHUNK →
  base_ok (with_pt (take_page (m_pt m)) m) ∧ more 0 m (with_pt (take_page (m_pt m)) m).
Proof.
  intros Hok Hn Hu. destruct (take_page_spec _ (mo_chunks _ Hok) Hn Hu) as (Hch & _).
  destruct Hok. split; [by split|].
  split; auto; simpl; [intros i e ? ?; congruence|by intros x _].
Qed.

(** A fresh page of guest-physical memory. *)
Record fresh_page m m' (hva ipa : Z) : Prop := {
  fp_base : base_ok m';
  fp_grown : grown (m_pt m) (m_pt m');
  fp_more : more 1 m m';
  fp_fresh : ¬ handed (m_pt m) hva;
  fp_new : handed (m_pt m') hva;
  fp_hva : page_aligned hva;
  fp_host : host_of (m_pt m') ipa = Some hva;
  fp_ipa : 0 ≤ ipa < 2^48;
  fp_page : page_aligned ipa;
}.

(** The next page of the current chunk of [m1], reached from [m]. *)
Lemma take_page_fresh m m1 k :
  base_ok m → room 1 m → base_ok m1 → grown (m_pt m) (m_pt m1) → more k m m1 → 0 ≤ k ≤ 1 →
  ck_hva (cur_chunk (m_pt m1)) ≠ 0 → ck_used (cur_chunk (m_pt m1)) < PAGES_PER_CHUNK →
  let c := cur_chunk (m_pt m1) in
  fresh_page m (with_pt (take_page (m_pt m1)) m1) (ck_hva c + ck_used c * PAGE) (ck_ipa c + ck_used c * PAGE).
Proof.
  intros Hok Hr Hok1 Hg1 Hm1 Hk Hn Hu c. subst c.
  destruct (take_page_base m1 Hok1 Hn Hu) as [Hok2 Hm2].
  destruct (take_page_spec _ (mo_chunks _ Hok1) Hn Hu) as (_ & Hg2 & Hf & Hh & Hp & Ho & Hpi & Hi0 & Hi1).
  split; auto.
  - by eapply grown_trans.
  - apply (more_le (k + 0)); [lia|]. by eapply more_trans.
  - intros Hc. by apply Hf, (gr_handed _ _ Hg1).
  - split; [done|]. pose proof (mo_limit _ Hok1) as Hl.
    assert (room 0 m1) as [_ Hr1] by (apply Hm1, (room_le _ 1); [lia|done]).
    change PAGE with 4096 in *. lia.
Qed.

Lemma alloc_guest_page_spec m :
  base_ok m → room 1 m →
  match alloc_guest_page m with
  | Ret (hva, ipa, m') => fresh_page m m' hva ipa
  | Stop w => w = NoMemory
  end.
Proof.
  intros Hok Hr. unfold alloc_guest_page.
  destruct ((ck_hva (cur_chunk (m_pt m)) =? 0) || (ck_used (cur_chunk (m_pt m)) =? PAGES_PER_CHUNK)) eqn:E.
  2: { simpl. apply orb_false_iff in E as [E1 E2]. bool_to_prop.
       apply (take_page_fresh m m 0); auto using grown_refl, more_refl; [lia|].
       pose proof (ch_used _ (mo_chunks _ Hok)). lia. }
  pose proof (arena_alloc_wf STAGE2_GRANULE (m_arena m) (m_host m) (mo_arena _ Hok)) as Hal.
  assert (arena_brk (m_arena m) ≤ 2^61) as Hab.
  { destruct Hr as [Hr _]. change STAGE2_GRANULE with 16384 in Hr. lia. }
  destruct (arena_alloc STAGE2_GRANULE (m_arena m) (m_host m)) as [[[[hva off] a] h]|w] eqn:Ea; simpl;
    [|by apply Hal].
  change (Z.lor HV_MEMORY_READ (Z.lor HV_MEMORY_WRITE HV_MEMORY_EXEC)) with 7.
  destruct (new_chunk_map m hva off a h Hok Hr Ea) as (_ & _ & _ & _ & _ & _ & _ & s & Es & _).
  rewrite Es. simpl. pose proof (new_chunk_spec m hva off a h s Hok Hr Ea Es) as Hnew.
  match goal with |- context [chunk_record ?c ?m] => pose proof (chunk_record_spec c m) as Hc;
    destruct (chunk_record c m) as [m1|w]; simpl; [|done] end.
  destruct Hc as [cap ->]. destruct (Hnew cap) as (Hok1 & Hg1 & Hm1).
  apply (take_page_fresh m _ 1 Hok Hr Hok1 Hg1 Hm1); [lia| |done].
  destruct Hal as (_ & _ & _ & _ & Hnm); [done|done|]. pose proof (nm_pos _ _ _ _ Hnm). simpl. lia.
Qed.

(** ** The walk *)

Lemma users_ext p p' b : (∀ va, pte p' va = pte p va) → users p' b = users p b.
Proof. intros Hp. unfold users. apply count_ext. intros va _. unfold points. by rewrite Hp. Qed.

Lemma machine_ok_more k m m' :
  machine_ok m → base_ok m' → tree_ok (m_pt m') → more k m m' →
  (∀ va, pte (m_pt m') va = pte (m_pt m) va) → machine_ok m'.
Proof.
  intros [Hb Ht Hd Hr] Hb' Ht' Hm Hp. split; auto.
  - intros va Hva. rewrite Hp. intros Hv. destruct (Hd va Hva Hv) as [e He].
    exists e. by apply (mr_s2 _ _ _ Hm).
  - intros b e Hbe Hidx. rewrite (users_ext (m_pt m)) by done. apply Hr.
    + destruct (s2_map (m_s2 m) !! b) as [e0|] eqn:E.
      * apply (mr_s2 _ _ _ Hm) in E. congruence.
      * by destruct (mr_new _ _ _ Hm b e Hbe E).
    + destruct (chunk_index (m_pt m) !! b) as [h|] eqn:E; [|done].
      apply (mr_index _ _ _ Hm) in E. congruence.
Qed.

(** A step of the walk keeps every table and every descriptor. *)
Record walked (k : Z) m m' : Prop := {
  wk_ok : machine_ok m';
  wk_more : more k m m';
  wk_table key a : key_ok key → table (m_pt m) key = Some a → table (m_pt m') key = Some a;
  wk_pte va : pte (m_pt m') va = pte (m_pt m) va;
  wk_l1 : l1_entries (m_pt m') = l1_entries (m_pt m);
}.

Lemma walked_trans j k m m1 m2 : walked j m m1 → walked k m1 m2 → walked (j + k) m m2.
Proof.
  intros [] []. split; auto.
  - by eapply more_trans.
  - intros va. congruence.
  - congruence.
Qed.

(** Linking a fresh page under an entry. *)
Lemma link_walked m m1 hp ipa kt t i :
  machine_ok m → fresh_page m m1 hp ipa → key_ok kt → new_key kt i ≠ None →
  table (m_pt m) kt = Some t → in_table i → pte_valid (rd (m_pt m) (t + 8 * i)) = false →
  walked 1 m (with_pt (linked (m_pt m1) hp ipa t i) m1) ∧
  ∀ key, new_key kt i = Some key → table (linked (m_pt m1) hp ipa t i) key = Some hp.
Proof.
  intros Hok [Hb Hg Hm Hf Hn Hh Ho Hi Hpa] Hkt Hnk Ht Hin Hinv.
  pose proof (mo_tree _ Hok) as Htr. pose proof (mo_chunks _ (mo_base _ Hok)) as Hch.
  assert (tree_ok (linked (m_pt m1) hp ipa t i)) as Htr' by (by eapply linked_tree).
  assert (∀ va, pte (linked (m_pt m1) hp ipa t i) va = pte (m_pt m) va) as Hpte
    by (intros va; by eapply linked_pte).
  assert (base_ok (with_pt (linked (m_pt m1) hp ipa t i) m1)) as Hb'.
  { destruct Hb as [B1 B2 B3 B4 B5 B6 B7 B8]. split; [exact B1|exact B2|exact B3|exact B4|exact B5|exact B6| |exact B8].
    by destruct B7. }
  assert (more 1 m (with_pt (linked (m_pt m1) hp ipa t i) m1)) as Hm'.
  { destruct Hm as [M1 M2 M3 M4 M5 M6 M7 M8 M9].
    split; [exact M1|exact M2|exact M3|exact M4|exact M5|exact M6|exact M7|exact M8|exact M9]. }
  split.
  - split; auto.
    + by eapply machine_ok_more.
    + intros key a Hk Ha. simpl.
      by apply (linked_grown_table (m_pt m) Hch Htr (m_pt m1) Hg hp ipa Hf Hh Ho Hi Hpa kt t i Hkt Ht Hin Hinv).
    + apply (gr_l1 _ _ Hg).
  - intros key Hkey. rewrite (linked_table (m_pt m) Hch Htr (m_pt m1) Hg hp ipa Hf Hh Ho Hi Hpa kt t i Hkt Ht Hin Hinv)
      by (try done; by eapply new_key_ok).
    by rewrite decide_True.
Qed.

Lemma walk_level_spec m kt t i key :
  machine_ok m → room 1 m → key_ok kt → new_key kt i = Some key → table (m_pt m) kt = Some t →
  in_table i →
  match walk_level (t + 8 * i) m with
  | Ret (u, m') => walked 1 m m' ∧ table (m_pt m') key = Some u
  | Stop w => w = NoMemory
  end.
Proof.
  intros Hok Hr Hkt Hnk Ht Hi. unfold walk_level. pose proof (mo_tree _ Hok) as Htr.
  destruct (pte_valid (rd (m_pt m) (t + 8 * i))) eqn:Ev; simpl.
  - assert (is_Some (table (m_pt m) key) ∧ table (m_pt m) key = child (m_pt m) (t + 8 * i)) as [[u Hu] Hc].
    { destruct kt as [|i1|]; simpl in Hnk; [| |done]; injection Hnk as <-.
      - injection Ht as <-. split; [by apply (tr_l1 _ Htr)|done].
      - split; [by apply (tr_l2 _ Htr i1 i t)|]. simpl in *. by rewrite Ht. }
    rewrite Hu in Hc. unfold child in Hc. rewrite Ev in Hc.
    rewrite (ipa_to_host_of _ _ u) by done. simpl. split; [|done].
    split; auto. apply (more_le 0); [lia|apply more_refl].
  - unfold alloc_table. pose proof (alloc_guest_page_spec m (mo_base _ Hok) Hr) as Ha.
    destruct (alloc_guest_page m) as [[[hp ipa] m1]|w]; simpl; [|done].
    destruct (link_walked m m1 hp ipa kt t i Hok Ha Hkt) as [Hw Hk]; auto; [by rewrite Hnk|].
    change (wr (t + 8 * i) (table_desc ipa) (zero_page hp (m_pt m1))) with (linked (m_pt m1) hp ipa t i).
    destruct Ha. rewrite linked_entry, table_desc_ipa by done.
    rewrite (ipa_to_host_of _ _ hp) by done. simpl. split; [exact Hw|]. by apply Hk.
Qed.

Lemma walk_to_l3_spec va m :
  machine_ok m → room 2 m →
  match walk_to_l3 va m with
  | Ret (a, m') => walked 2 m m' ∧ slot (m_pt m') va = Some a
  | Stop w => w = NoMemory
  end.
Proof.
  intros Hok Hr. unfold walk_to_l3.
  rewrite (proj2 (Z.eqb_neq _ _)) by apply (mo_tree _ Hok). simpl.
  pose proof (walk_level_spec m K1 (l1_entries (m_pt m)) (L1_INDEX va) (K2 (L1_INDEX va)) Hok
    ltac:(by apply (room_le _ 2)) I eq_refl eq_refl (L1_in va)) as Hl1.
  destruct (walk_level _ m) as [[l2 m1]|w]; simpl; [|done]. destruct Hl1 as [Hw1 Ht1].
  pose proof (walk_level_spec m1 (K2 (L1_INDEX va)) l2 (L2_INDEX va) (K3 (L1_INDEX va) (L2_INDEX va))
    (wk_ok _ _ _ Hw1) ltac:(by apply (mr_room _ _ _ (wk_more _ _ _ Hw1))) (L1_in va) eq_refl Ht1 (L2_in va)) as Hl2.
  destruct (walk_level _ m1) as [[l3 m2]|w]; simpl; [|done]. destruct Hl2 as [Hw2 Ht2].
  split; [exact (walked_trans 1 1 _ _ _ Hw1 Hw2)|]. unfold slot. by rewrite Ht2.
Qed.

(** The read-only walk finds the same place. *)
Lemma walk_existing_slot va m : machine_ok m → walk_existing va (m_pt m) = Ret (slot (m_pt m) va).
Proof.
  intros Hok. pose proof (mo_tree _ Hok) as Htr. unfold walk_existing, slot.
  rewrite (proj2 (Z.eqb_neq _ _)) by apply Htr. cbn [table].
  destruct (pte_valid (rd (m_pt m) (l1_entries (m_pt m) + 8 * L1_INDEX va))) eqn:E1; cbn [negb].
  2: { assert (child (m_pt m) (l1_entries (m_pt m) + 8 * L1_INDEX va) = None) as ->; [|done].
       unfold child. by rewrite E1. }
  destruct (tr_l1 _ Htr (L1_INDEX va) (L1_in va) E1) as [l2 T2]. simpl in T2. rewrite T2. cbn [mbind option_bind].
  pose proof T2 as T2'. unfold child in T2'. rewrite E1 in T2'. rewrite (ipa_to_host_of _ _ _ T2'). cbn [mbind outcome_bind].
  destruct (pte_valid (rd (m_pt m) (l2 + 8 * L2_INDEX va))) eqn:E2; cbn [negb].
  2: { assert (child (m_pt m) (l2 + 8 * L2_INDEX va) = None) as ->; [|done].
       unfold child. by rewrite E2. }
  destruct (tr_l2 _ Htr (L1_INDEX va) (L2_INDEX va) l2 (L1_in va) (L2_in va) T2 E2) as [l3 T3].
  simpl in T3. rewrite T2 in T3. simpl in T3. rewrite T3. cbn [fmap option_fmap option_map].
  unfold child in T3. rewrite E2 in T3. by rewrite (ipa_to_host_of _ _ _ T3).
Qed.

(** ** Counting descriptors *)

(** [s'] is [s] with other counts. *)
Record recounted (f : Z → Z → Z) (s s' : s2_state V) : Prop := {
  rc_ok : s2_ok s';
  rc_map i : s2_map s' !! i =
    (λ e, mk_s2 (s2_haddr e) (s2_prot e) (f i (s2_refs e))) <$> s2_map s !! i;
  rc_vm : s2_vm s' = s2_vm s;
}.

Lemma recounted_trans f g s s1 s2 :
  recounted f s s1 → recounted g s1 s2 → recounted (λ i r, g i (f i r)) s s2.
Proof.
  intros [] []. split; auto; [|congruence]. intros i. rewrite rc_map1, rc_map0.
  by destruct (s2_map s !! i).
Qed.

Lemma recounted_id s : s2_ok s → recounted (λ _ r, r) s s.
Proof. intros Hs. split; auto. intros i. by destruct (s2_map s !! i) as [[]|]. Qed.

Definition dec_at (b i r : Z) : Z := if i =? b then (if 0 <? r then r - 1 else r) else r.
Definition inc_at (b i r : Z) : Z := if i =? b then u32 (r + 1) else r.

Lemma recounted_set f b e r s :
  s2_ok s → s2_map s !! b = Some e → f b (s2_refs e) = r → 0 ≤ r < 2^32 →
  (∀ i r, i ≠ b → f i r = r) →
  recounted f s (set_map (<[b := mk_s2 (s2_haddr e) (s2_prot e) r]> (s2_map s)) s).
Proof.
  intros Hs He <- Hr Hf. split; [by apply set_refs_ok| |done].
  intros i. simpl. destruct (decide (i = b)) as [->|Hne].
  - by rewrite lookup_insert_eq, He.
  - rewrite lookup_insert_ne by done. destruct (s2_map s !! i) as [[]|]; simpl; [|done].
    by rewrite Hf.
Qed.

Lemma unref_spec ipa s :
  s2_ok s → is_Some (s2_map s !! granule_of ipa) →
  recounted (dec_at (granule_of ipa)) s (vmm_arm64_s2_unref ipa s).2 ∧
  ((vmm_arm64_s2_unref ipa s).1 = true ↔
   s2_refs <$> s2_map (vmm_arm64_s2_unref ipa s).2 !! granule_of ipa = Some 0).
Proof.
  intros Hs [e He]. unfold vmm_arm64_s2_unref. rewrite He. simpl.
  destruct (so_ents _ Hs _ _ He) as [_ _ _ Hr]. split.
  - apply recounted_set; auto; unfold dec_at.
    + by rewrite Z.eqb_refl.
    + destruct (0 <? s2_refs e) eqn:E; bool_to_prop; lia.
    + intros i r Hne. by rewrite (proj2 (Z.eqb_neq _ _)).
  - rewrite lookup_insert_eq. simpl. rewrite Z.eqb_eq. split; [by intros ->|by intros [= ->]].
Qed.

Lemma ref_spec ipa s :
  s2_ok s → is_Some (s2_map s !! granule_of ipa) →
  recounted (inc_at (granule_of ipa)) s (vmm_arm64_s2_ref ipa s).
Proof.
  intros Hs [e He]. unfold vmm_arm64_s2_ref. rewrite He.
  apply recounted_set; auto; unfold inc_at.
  - by rewrite Z.eqb_refl.
  - apply u32_range.
  - intros i r Hne. by rewrite (proj2 (Z.eqb_neq _ _)).
Qed.

Lemma base_recounted f m s :
  base_ok m → recounted f (m_s2 m) s → base_ok (with_s2 s m).
Proof.
  intros [B1 B2 B3 B4 B5 B6 B7 B8] [R1 R2 R3]. split; simpl; auto.
  - by rewrite R3.
  - intros i e. rewrite R2. destruct (s2_map (m_s2 m) !! i) as [e0|] eqn:E; [|done].
    intros _. by apply (B4 _ _ E).
  - intros i e. rewrite R2. destruct (s2_map (m_s2 m) !! i) as [e0|] eqn:E; [|done].
    intros [= <-]. by apply (B6 _ _ E).
  - intros c Hc. specialize (B8 c Hc). rewrite R2.
    by destruct (s2_map (m_s2 m) !! ck_ipa c) as [e0|].
Qed.

(** ** Rewriting one descriptor *)

(** The leaf of [va] is at [a]; it becomes [w]. *)
Lemma leaf_split p va a : slot p va = Some a →
  ∃ t, table p (K3 (L1_INDEX va) (L2_INDEX va)) = Some t ∧ a = t + 8 * L3_INDEX va.
Proof.
  unfold slot. destruct (table p _) as [t|]; simpl; [|done]. intros [= <-]. by exists t.
Qed.

Lemma pte_wr p va a w vb :
  chunks_ok p → tree_ok p → slot p va = Some a → user_va va → user_va vb →
  pte (wr a w p) vb = if decide (vb = va) then w else pte p vb.
Proof.
  intros Hc Ht (t & Htab & ->)%leaf_split Hva Hvb.
  rewrite (pte_wr_leaf p Hc Ht (L1_INDEX va) (L2_INDEX va)) by auto with nabi.
  destruct (decide (vb = va)) as [->|Hne]; [by rewrite decide_True|].
  rewrite decide_False; [done|]. intros (? & ? & ?). by apply Hne, indices_inj.
Qed.

Lemma tree_wr p va a w : chunks_ok p → tree_ok p → slot p va = Some a → tree_ok (wr a w p).
Proof.
  intros Hc Ht (t & Htab & ->)%leaf_split.
  apply (tree_wr_leaf p Hc Ht (L1_INDEX va) (L2_INDEX va)); auto with nabi.
Qed.

Lemma slot_wr p va a w vb :
  chunks_ok p → tree_ok p → slot p va = Some a → slot (wr a w p) vb = slot p vb.
Proof.
  intros Hc Ht (t & Htab & ->)%leaf_split. unfold slot.
  by rewrite (table_wr_leaf p Hc Ht (L1_INDEX va) (L2_INDEX va)) by (simpl; auto with nabi).
Qed.

Lemma pte_rd p va a : slot p va = Some a → rd p a = pte p va.
Proof. unfold pte. by intros ->. Qed.

Definition b2n (b : bool) : nat := if b then 1 else 0.

(** One descriptor changed, so does its block's count. *)
Lemma users_wr p va a w b :
  chunks_ok p → tree_ok p → slot p va = Some a → user_va va →
  (users (wr a w p) b + b2n (points p b va) =
   users p b + b2n (pte_valid w && (granule_of (pte_ipa w) =? b)%Z))%nat.
Proof.
  intros Hc Ht Hs Hva. unfold users, b2n.
  pose proof (count_step (points (wr a w p) b) (points p b) all_vas va NoDup_all_vas) as Hcs.
  rewrite Hcs.
  - unfold points at 2. by rewrite (pte_wr p va a w va), decide_True.
  - by apply elem_of_all_vas.
  - intros vb Hvb%elem_of_all_vas Hne. unfold points.
    by rewrite (pte_wr p va a w vb), decide_False.
Qed.

Lemma users_le p b : Z.of_nat (users p b) ≤ 2^27.
Proof.
  rewrite <- length_all_vas. unfold users. pose proof (count_length (points p b) all_vas). lia.
Qed.

Lemma users_pos p b va : user_va va → points p b va = true → (1 ≤ users p b)%nat.
Proof.
  intros Hva%elem_of_all_vas Hp. destruct (users p b) eqn:E; [|lia].
  apply (count_zero _ _ E) in Hva. congruence.
Qed.

Lemma chunks_wr a v p : chunks_ok p → chunks_ok (wr a v p).
Proof. intros []. by split. Qed.

(** Rewriting the descriptor of [va] keeps the books, provided the counts
    follow. *)
Lemma leaf_ok f m va a w s :
  machine_ok m → user_va va → slot (m_pt m) va = Some a → recounted f (m_s2 m) s →
  (pte_valid w = true → is_Some (s2_map (m_s2 m) !! granule_of (pte_ipa w))) →
  (∀ b r, r = Z.of_nat (users (m_pt m) b) →
     f b r = r - Z.of_nat (b2n (points (m_pt m) b va)) +
             Z.of_nat (b2n (pte_valid w && (granule_of (pte_ipa w) =? b)))) →
  machine_ok (with_pt (wr a w (m_pt m)) (with_s2 s m)).
Proof.
  intros Hok Hva Hsl Hrc Hw Hf. pose proof Hok as [Hb Ht Hd Hr].
  pose proof (mo_chunks _ Hb) as Hc. pose proof (base_recounted _ _ _ Hb Hrc) as [].
  split; cbn [m_pt m_s2 m_arena m_host with_pt with_s2] in *.
  - split; auto. by apply chunks_wr.
  - by eapply tree_wr.
  - intros vb Hvb. rewrite (pte_wr _ va a w vb) by auto. intros Hv.
    rewrite (rc_map _ _ _ Hrc), fmap_is_Some.
    destruct (decide (vb = va)); [by apply Hw|by apply Hd].
  - intros b e. rewrite (rc_map _ _ _ Hrc). intros (e0 & He & ->)%fmap_Some Hn. cbn [s2_refs].
    rewrite (Hf b (s2_refs e0)) by (by apply Hr).
    rewrite (Hr b e0 He Hn). pose proof (users_wr (m_pt m) va a w b Hc Ht Hsl Hva). lia.
Qed.

(** Every block of [m] is still there in [m'], on the same host memory and
    allowing at least what it allowed. *)
Definition widened m m' : Prop := ∀ i e, s2_map (m_s2 m) !! i = Some e →
  ∃ e', s2_map (m_s2 m') !! i = Some e' ∧ s2_haddr e' = s2_haddr e ∧
        Z.lor (s2_prot e') (s2_prot e) = s2_prot e'.

Lemma widened_trans m m1 m2 : widened m m1 → widened m1 m2 → widened m m2.
Proof.
  intros H01 H12 i e He. destruct (H01 i e He) as (e1 & He1 & Hh1 & Hp1).
  destruct (H12 i e1 He1) as (e2 & He2 & Hh2 & Hp2).
  exists e2. split; [done|]. split; [congruence|].
  by rewrite <- Hp2, <- Z.lor_assoc, Hp1.
Qed.

Lemma widened_recounted f m m' :
  recounted f (m_s2 m) (m_s2 m') → widened m m'.
Proof.
  intros Hrc i e He. rewrite (rc_map _ _ _ Hrc), He. eexists. split; [done|].
  split; [done|]. apply Z.lor_diag.
Qed.

Lemma widened_more k m m' : more k m m' → widened m m'.
Proof.
  intros Hm i e He. exists e. split; [by apply (mr_s2 _ _ _ Hm)|]. split; [done|]. apply Z.lor_diag.
Qed.

(** What the allocators may have done: new blocks are chunks in memory the host
    had not mapped, or among [new]; the arena has what it had. *)
Record books (new : Z → Prop) m m' : Prop := {
  bo_index i h : chunk_index (m_pt m) !! i = Some h → chunk_index (m_pt m') !! i = Some h;
  bo_chunk i h : chunk_index (m_pt m') !! i = Some h →
    chunk_index (m_pt m) !! i = Some h ∨ h_back (m_host m) h = None;
  bo_new i e : s2_map (m_s2 m') !! i = Some e → s2_map (m_s2 m) !! i = None →
    chunk_index (m_pt m') !! i ≠ None ∨ new i;
  bo_spans o x q : maps (arena_spans (m_arena m)) o x q → maps (arena_spans (m_arena m')) o x q;
  bo_fd : arena_backing_fd (m_arena m') = arena_backing_fd (m_arena m);
}.

Lemma books_more k m m' : more k m m' → books (λ _, False) m m'.
Proof. intros []. split; auto. intros i e Hi Hn. left. by eapply mr_new0. Qed.

Lemma books_weaken (new new' : Z → Prop) m m' : (∀ i, new i → new' i) → books new m m' → books new' m m'.
Proof. intros Hi []. split; auto. intros i e H1' H2'. destruct (bo_new0 i e H1' H2'); auto. Qed.

Lemma books_trans new new' m m1 m2 :
  kept_host m m1 → books new m m1 → books new' m1 m2 → books (λ i, new i ∨ new' i) m m2.
Proof.
  intros Hk [] []. split; auto.
  - intros i h [?|?]%bo_chunk1; [auto|]. right. by eapply kept_unbacked.
  - intros i e Hi Hn. destruct (s2_map (m_s2 m1) !! i) as [e1|] eqn:E.
    + destruct (bo_new0 i e1 E Hn) as [Hc|?]; [|auto]. left.
      destruct (chunk_index (m_pt m1) !! i) as [h|] eqn:Ec; [|done]. by rewrite (bo_index1 _ _ Ec).
    + destruct (bo_new1 i e Hi E); auto.
  - congruence.
Qed.

(** Counts and words change, nothing else. *)
Lemma books_recounted f m m' :
  recounted f (m_s2 m) (m_s2 m') → chunk_index (m_pt m') = chunk_index (m_pt m) →
  m_arena m' = m_arena m → books (λ _, False) m m'.
Proof.
  intros Hrc Hc Ha. split; rewrite ?Hc, ?Ha; auto. intros i e. rewrite (rc_map _ _ _ Hrc).
  intros (e0 & He & _)%fmap_Some Hn. congruence.
Qed.

(** [m'] is [m] with the descriptor of [va] now [w], and nothing else a guest
    can see. *)
Record remapped (k : Z) (f : Z → option Z) (new : Z → Prop) m m' : Prop := {
  rm_ok : machine_ok m';
  rm_pte vb : user_va vb → pte (m_pt m') vb = default (pte (m_pt m) vb) (f vb);
  rm_wide : widened m m';
  rm_room j : 0 ≤ j → room (k + j) m → room j m';
  rm_host : kept_host m m';
  rm_books : books new m m';
}.

Lemma remapped_trans j k f g new new' m m1 m2 :
  0 ≤ j → 0 ≤ k → remapped j f new m m1 → remapped k g new' m1 m2 →
  remapped (j + k) (λ va, match g va with Some w => Some w | None => f va end) (λ i, new i ∨ new' i) m m2.
Proof.
  intros ? ? [] []. split; auto.
  - intros vb Hvb. rewrite rm_pte1, rm_pte0 by done. by destruct (g vb).
  - by eapply widened_trans.
  - intros i Hi Hr. apply rm_room1, rm_room0; [lia..|]. by rewrite Z.add_assoc.
  - by eapply kept_host_trans.
  - by eapply books_trans.
Qed.

Lemma remapped_after j k g new new' m m1 m2 :
  0 ≤ j → 0 ≤ k → remapped j (λ _, None) new m m1 → remapped k g new' m1 m2 →
  (∀ i, new' i → new i) → remapped (j + k) g new m m2.
Proof.
  intros Hj Hk R1 R2 Hn. destruct (remapped_trans j k _ g new new' m m1 m2 Hj Hk R1 R2) as [? Hp]. split; auto.
  - intros vb Hvb. rewrite (Hp vb Hvb). by destruct (g vb).
  - eapply books_weaken; [|done]. intros i [?|?]; auto.
Qed.

Definition only (va w vb : Z) : option Z := if decide (vb = va) then Some w else None.

(** The counts of pt_map_page: the old descriptor's block loses one, the
    new one's gains one. *)
Lemma map_page_counts m va w ipa :
  machine_ok m → user_va va →
  pte_valid w = true → pte_ipa w = ipa → is_Some (s2_map (m_s2 m) !! granule_of ipa) →
  let old := pte (m_pt m) va in
  let s := vmm_arm64_s2_ref ipa
    (if pte_valid old then (vmm_arm64_s2_unref (pte_ipa old) (m_s2 m)).2 else m_s2 m) in
  ∃ f, recounted f (m_s2 m) s ∧
    ∀ b r, r = Z.of_nat (users (m_pt m) b) →
      f b r = r - Z.of_nat (b2n (points (m_pt m) b va)) +
              Z.of_nat (b2n (pte_valid w && (granule_of (pte_ipa w) =? b))).
Proof.
  intros Hok Hva Hw <- Hb old s. pose proof (mo_s2 _ (mo_base _ Hok)) as Hs.
  assert (∃ g, recounted g (m_s2 m) (if pte_valid old then (vmm_arm64_s2_unref (pte_ipa old) (m_s2 m)).2 else m_s2 m) ∧
    ∀ b r, r = Z.of_nat (users (m_pt m) b) → g b r = r - Z.of_nat (b2n (points (m_pt m) b va))) as (g & Hg & Hgc).
  { destruct (pte_valid old) eqn:Hold.
    - exists (dec_at (granule_of (pte_ipa old))). split; [by apply unref_spec; [|apply (mo_desc _ Hok)]|].
      intros b r ->. pose proof (users_pos (m_pt m) b va Hva) as Hpos. unfold dec_at, points in *.
      fold old in Hpos |- *. rewrite Hold in *. cbn [andb] in *. rewrite (Z.eqb_sym b).
      destruct (granule_of (pte_ipa old) =? b); cbn [b2n]; [|lia].
      specialize (Hpos eq_refl). rewrite (proj2 (Z.ltb_lt _ _)) by lia. lia.
    - exists (λ _ r, r). split; [by apply recounted_id|].
      intros b r ->. unfold points. fold old. rewrite Hold. cbn [andb b2n]. lia. }
  exists (λ i r, inc_at (granule_of (pte_ipa w)) i (g i r)). split.
  - eapply recounted_trans; [done|]. apply ref_spec; [by apply (rc_ok _ _ _ Hg)|].
    by rewrite (rc_map _ _ _ Hg), fmap_is_Some.
  - intros b r Hr. rewrite (Hgc b r Hr), Hw. unfold inc_at. cbn [andb b2n]. rewrite (Z.eqb_sym b).
    destruct (granule_of (pte_ipa w) =? b); cbn [b2n]; [|lia].
    pose proof (users_le (m_pt m) b). pose proof (users_pos (m_pt m) b va Hva) as Hpos.
    rewrite u32_small; [lia|]. destruct (points (m_pt m) b va); cbn [b2n] in *; [|lia].
    specialize (Hpos eq_refl). lia.
Qed.

Lemma page_aligned_land x : page_aligned x → (Z.land x (PAGE - 1) =? 0) = true.
Proof.
  intros Hx. apply Z.eqb_eq. change (PAGE - 1) with (Z.ones 12). rewrite Z.land_ones by lia. exact Hx.
Qed.

Lemma walked_remapped k m m' : walked k m m' → remapped k (λ _, None) (λ _, False) m m'.
Proof.
  intros []. split; auto.
  - by eapply widened_more.
  - intros j _. apply (mr_room _ _ _ wk_more0).
  - apply (mr_host _ _ _ wk_more0).
  - by eapply books_more.
Qed.

Lemma room_with k m m' :
  m_arena m' = m_arena m → ipa_brk (m_pt m') = ipa_brk (m_pt m) →
  hv_limit (s2_vm (m_s2 m')) = hv_limit (s2_vm (m_s2 m)) → room k m → room k m'.
Proof. unfold room. by intros -> -> ->. Qed.

Lemma pt_map_page_spec va ipa prot m :
  machine_ok m → room 2 m → user_va va → 0 ≤ ipa < 2^48 → page_aligned ipa → 0 ≤ prot < 8 →
  is_Some (s2_map (m_s2 m) !! granule_of ipa) →
  match pt_map_page va ipa prot m with
  | Ret m' => remapped 2 (only va (page_desc ipa prot)) (λ _, False) m m'
  | Stop w => w = NoMemory
  end.
Proof.
  intros Hok Hroom Hva Hi Ha Hp Hb. unfold pt_map_page.
  rewrite !page_aligned_land by (done || apply Hva). cbn [assert_c mbind outcome_bind].
  pose proof (walk_to_l3_spec va m Hok Hroom) as Hw.
  destruct (walk_to_l3 va m) as [[a m1]|w]; [|done]. destruct Hw as [Hwk Hsl]. cbn [mbind outcome_bind].
  pose proof (wk_ok _ _ _ Hwk) as Hok1. rewrite (pte_rd _ _ _ Hsl).
  assert (is_Some (s2_map (m_s2 m1) !! granule_of ipa)) as Hb1.
  { destruct Hb as [e He]. exists e. by apply (mr_s2 _ _ _ (wk_more _ _ _ Hwk)). }
  pose proof (page_desc_valid ipa prot) as Hv. pose proof (page_desc_ipa ipa prot Hi Ha Hp) as Hpi.
  destruct (map_page_counts m1 va (page_desc ipa prot) ipa Hok1 Hva Hv Hpi Hb1) as (f & Hrc & Hf).
  pose proof (leaf_ok f m1 va a (page_desc ipa prot) _ Hok1 Hva Hsl Hrc) as Hleaf.
  apply (remapped_after 2 0 _ _ (λ _, False) m m1); [lia..|by apply walked_remapped| |done].
  destruct (pte_valid (pte (m_pt m1) va)).
  all: split; [apply Hleaf; [by rewrite Hpi|done]| |by apply (widened_recounted f)| |by intros x _|by apply (books_recounted f)].
  all: try (intros vb Hvb; cbn [m_pt with_pt with_s2];
    rewrite (pte_wr (m_pt m1) va a) by (done || apply Hok1 || apply (mo_base _ Hok1));
    unfold only; by destruct (decide (vb = va))).
  all: intros j _; rewrite Z.add_0_l; apply room_with; try done.
  all: cbn [m_s2 with_s2 with_pt]; by rewrite (rc_vm _ _ _ Hrc).
Qed.

(** ** One page of vmm_mmap *)

(** Entry by entry, what asking for a block leaves. *)
Lemma block_for_entries block prot fresh s :
  s2_ok s → gran block → 0 < prot < 8 → gran fresh → 0 ≤ fresh →
  fresh + STAGE2_GRANULE ≤ hv_limit (s2_vm s) → s2_map s !! fresh = None →
  ∃ base created s', vmm_arm64_s2_block_for block prot fresh s = Ret (base, created, s') ∧
    s2_ok s' ∧ hv_limit (s2_vm s') = hv_limit (s2_vm s) ∧ serves s' base block prot ∧
    (∀ i e, s2_map s !! i = Some e → ∃ e', s2_map s' !! i = Some e' ∧ s2_haddr e' = s2_haddr e ∧
       s2_refs e' = s2_refs e ∧ Z.lor (s2_prot e') (s2_prot e) = s2_prot e') ∧
    (∀ i e', s2_map s' !! i = Some e' → s2_map s !! i = None →
       created = true ∧ i = fresh ∧ i = base ∧ s2_haddr e' = block ∧ s2_refs e' = 0).
Proof.
  intros Hs Hg Hp Hf Hf0 Hl Hnone.
  destruct (block_for_spec block prot fresh s Hs Hg Hp Hf Hf0 Hl Hnone)
    as (base & created & s' & Hret & Hs' & Hlim & Hserve & Hother & Hrefs & Hsame & Hcr & _).
  exists base, created, s'. do 4 (split; [done|]).
  destruct Hserve as (eb & Heb & Hhb & _). rewrite Heb in Hrefs. injection Hrefs as Hrefs. split.
  - intros i e He. destruct (decide (i = base)) as [->|Hne].
    + destruct (Hsame e He) as [Hhe Hpe]. rewrite He in Hrefs. exists eb. split; [done|].
      split; [congruence|]. split; [done|]. by apply Hpe.
    + rewrite Hother by done. exists e. split; [done|]. do 2 (split; [done|]). apply Z.lor_diag.
  - intros i e' He' Hi. destruct (decide (i = base)) as [->|Hne].
    + rewrite Heb in He'. injection He' as <-. rewrite Hi in Hrefs. destruct created; [|done].
      split_and!; try done; by apply Hcr.
    + rewrite Hother in He' by done. congruence.
Qed.

Lemma users_none m b : machine_ok m → s2_map (m_s2 m) !! b = None → users (m_pt m) b = 0%nat.
Proof.
  intros Hok Hb. unfold users. apply count_none. intros va Hva%elem_of_all_vas. unfold points.
  destruct (pte_valid (pte (m_pt m) va)) eqn:Hv; [|done]. cbn [andb]. apply Z.eqb_neq. intros <-.
  apply (mo_desc _ Hok) in Hv as [e He]; [|done]. congruence.
Qed.

(** A registry with the same blocks, or one more at the cursor, over the same
    tables. *)
Lemma new_block_ok block m m1 :
  machine_ok m → s2_ok (m_s2 m1) → hv_limit (s2_vm (m_s2 m1)) = hv_limit (s2_vm (m_s2 m)) →
  m_host m1 = m_host m → m_arena m1 = m_arena m → h_back (m_host m) block ≠ None →
  gran (ipa_brk (m_pt m1)) → ipa_brk (m_pt m) ≤ ipa_brk (m_pt m1) →
  m_pt m1 = set_ipa_brk (ipa_brk (m_pt m1)) (m_pt m) →
  (∀ i e, s2_map (m_s2 m) !! i = Some e → ∃ e', s2_map (m_s2 m1) !! i = Some e' ∧
     s2_haddr e' = s2_haddr e ∧ s2_refs e' = s2_refs e) →
  (∀ i e', s2_map (m_s2 m1) !! i = Some e' → s2_map (m_s2 m) !! i = None →
     i + STAGE2_GRANULE ≤ ipa_brk (m_pt m1) ∧ s2_haddr e' = block ∧ s2_refs e' = 0) →
  machine_ok m1.
Proof.
  intros Hok Hs Hlim Eh Ea Hback Hg Hbrk Ept Hold Hnew.
  pose proof Hok as [[B1 B2 B3 B4 B5 B6 B7 B8] Ht Hd Hr].
  assert (∀ i e, s2_map (m_s2 m1) !! i = Some e → (∃ e0, s2_map (m_s2 m) !! i = Some e0 ∧
    s2_haddr e = s2_haddr e0 ∧ s2_refs e = s2_refs e0) ∨ s2_map (m_s2 m) !! i = None) as Hcase.
  { intros i e He. destruct (s2_map (m_s2 m) !! i) as [e0|] eqn:E; [left|by right].
    destruct (Hold i e0 E) as (e' & He' & ? & ?). exists e0.
    assert (e = e') as -> by congruence. done. }
  generalize dependent (ipa_brk (m_pt m1)). intros n Hgn Hn Ept Hnew.
  split; [split|..]; rewrite ?Ept, ?Eh, ?Ea; cbn [set_ipa_brk ipa_brk chunks chunk_index]; auto.
  - by rewrite Hlim.
  - split; [done|lia].
  - intros i e He. destruct (Hcase i e He) as [(e0 & E & _)|E]; [apply B4 in E; lia|].
    by apply (Hnew i e He).
  - intros i e He. destruct (Hcase i e He) as [(e0 & E & -> & _)|E]; [by apply B6 in E|].
    by destruct (Hnew i e He E) as (_ & -> & _).
  - destruct B7 as [C1 C2 C3 C4 C5]. split; auto. intros c Hc.
    destruct (C1 c Hc) as (? & ? & ? & ? & ? & ?). split_and!; try done. cbn [set_ipa_brk ipa_brk]. lia.
  - intros c Hc. specialize (B8 c Hc). destruct (s2_map (m_s2 m) !! ck_ipa c) as [e|] eqn:E; [|done].
    destruct (Hold _ _ E) as (e' & -> & Hh & _).
    cbn in B8 |- *. by rewrite Hh.
  - by destruct Ht.
  - intros va Hva Hv. destruct (Hd va Hva Hv) as [e He]. destruct (Hold _ _ He) as (e' & He' & _).
    by exists e'.
  - intros b e He Hn'. rewrite (users_ext (m_pt m)) by done. destruct (Hcase b e He) as [(e0 & E & _ & ->)|E]; [by apply (Hr _ _ E)|].
    destruct (Hnew b e He E) as (_ & _ & ->). by rewrite (users_none m b Hok E).
Qed.

(** The page's host block is mapped and grants the protection. *)
Lemma block_for_machine block prot m :
  machine_ok m → room 1 m → gran block → 0 < prot < 8 → h_back (m_host m) block ≠ None →
  ∃ base created s,
    vmm_arm64_s2_block_for block prot (ipa_brk (m_pt m)) (m_s2 m) = Ret (base, created, s) ∧
    let m1 := if (created : bool)
      then with_pt (set_ipa_brk (ipa_brk (m_pt m) + STAGE2_GRANULE) (m_pt m)) (with_s2 s m)
      else with_s2 s m in
    remapped 1 (λ _, None) (λ i, i = base) m m1 ∧ serves (m_s2 m1) base block prot.
Proof.
  intros Hok Hroom Hg Hp Hback. destruct (mo_brk _ (mo_base _ Hok)) as [Hgb Hb0].
  assert (s2_map (m_s2 m) !! ipa_brk (m_pt m) = None) as Hnone.
  { destruct (s2_map (m_s2 m) !! ipa_brk (m_pt m)) as [e|] eqn:E; [|done].
    apply (mo_fresh _ (mo_base _ Hok)) in E. change STAGE2_GRANULE with 16384 in E. lia. }
  destruct (block_for_entries block prot (ipa_brk (m_pt m)) (m_s2 m))
    as (base & created & s & Hret & Hs & Hlim & Hserve & Hold & Hnew); auto.
  { apply Hok. }
  { destruct Hroom. lia. }
  exists base, created, s. split; [done|]. intros m1.
  assert (m_s2 m1 = s) as Es by (by destruct created). rewrite Es. split; [|done]. split.
  - apply (new_block_ok block m); rewrite ?Es; auto; try (by subst m1; destruct created).
    + subst m1. destruct created; [|done]. simpl. unfold gran in *.
      change STAGE2_GRANULE with 16384 in *. lia_mod.
    + subst m1. destruct created; simpl; change STAGE2_GRANULE with 16384; lia.
    + subst m1. destruct created; simpl; [done|]. by destruct (m_pt m).
    + intros i e He. destruct (Hold i e He) as (e' & ? & ? & ? & _). by exists e'.
    + intros i e He Hn. destruct (Hnew i e He Hn) as (-> & -> & _ & ? & ?). by subst m1.
  - intros vb _. by subst m1; destruct created.
  - intros i e He. rewrite Es. destruct (Hold i e He) as (e' & ? & ? & _ & ?). by exists e'.
  - intros j Hj. unfold room. subst m1. change STAGE2_GRANULE with 16384.
    destruct created; simpl; rewrite Hlim; lia.
  - intros x _. by subst m1; destruct created.
  - split; try (by subst m1; destruct created; auto).
    intros i e. rewrite Es. intros He Hn. right. by destruct (Hnew i e He Hn) as (_ & _ & ? & _).
Qed.

(** * What the guest sees *)

(** The hardware's two stages: a guest page to the host page behind it, with
    the protection of each stage. *)
Definition xlate m (va : Z) : option (Z * Z * Z) :=
  let w := pte (m_pt m) va in
  if pte_valid w then
    e ← s2_map (m_s2 m) !! granule_of (pte_ipa w);
    Some (s2_haddr e + granule_off (pte_ipa w), pte_to_prot w, s2_prot e)
  else None.

(** [va] reaches host page [h] with what [prot] asks of both stages. *)
Definition maps_to m (va h prot : Z) : Prop :=
  ∃ q, xlate m va = Some (h, granted prot, q) ∧ Z.lor q prot = q.

(** [va] reaches in [m'] what it reached in [m], with no less from stage 2. *)
Definition stays m m' (va : Z) : Prop :=
  match xlate m va with
  | Some (h, p, q) => ∃ q', xlate m' va = Some (h, p, q') ∧ Z.lor q' q = q'
  | None => xlate m' va = None
  end.

Lemma stays_trans m m1 m2 va : stays m m1 va → stays m1 m2 va → stays m m2 va.
Proof.
  unfold stays. destruct (xlate m va) as [[[h p] q]|].
  - intros (q1 & -> & Hq1) (q2 & -> & Hq2). exists q2. split; [done|].
    by rewrite <- Hq2, <- Z.lor_assoc, Hq1.
  - by intros ->.
Qed.

Lemma maps_to_stays m m' va h prot : maps_to m va h prot → stays m m' va → maps_to m' va h prot.
Proof.
  intros (q & Hx & Hq). unfold stays. rewrite Hx. intros (q' & Hx' & Hq'). exists q'. split; [done|].
  by rewrite <- Hq', <- Z.lor_assoc, Hq.
Qed.

Lemma remapped_stays k f new m m' va :
  machine_ok m → remapped k f new m m' → user_va va → f va = None → stays m m' va.
Proof.
  intros Hok Hrm Hva Hf. unfold stays, xlate. rewrite (rm_pte _ _ _ _ _ Hrm) by done. rewrite Hf. cbn [default option_map from_option].
  destruct (pte_valid (pte (m_pt m) va)) eqn:Hv; [|done].
  destruct (mo_desc _ Hok va Hva Hv) as [e He]. rewrite He.
  destruct (rm_wide _ _ _ _ _ Hrm _ _ He) as (e' & -> & Hh & Hp).
  cbn [mbind option_bind]. rewrite Hh. by exists (s2_prot e').
Qed.

(** A guest-physical page inside a block. *)
Lemma ipa_in_block m base e hp :
  machine_ok m → s2_map (m_s2 m) !! base = Some e → page_aligned hp →
  let ipa := base + (hp - granule_of hp) in
  granule_of ipa = base ∧ granule_off ipa = hp - granule_of hp ∧ 0 ≤ ipa < 2^48 ∧ page_aligned ipa.
Proof.
  intros Hok He Hhp ipa. destruct (granule_of_spec hp) as [Hg Hr].
  destruct (so_ents _ (mo_s2 _ (mo_base _ Hok)) _ _ He) as [(Hgb & Hb0 & Hbl) _ _ _].
  pose proof (mo_limit _ (mo_base _ Hok)) as Hlim. rewrite granule_off_mod. subst ipa.
  split; [apply granule_of_in; [done|lia]|].
  unfold gran, page_aligned in *. change PAGE with 4096 in *. change STAGE2_GRANULE with 16384 in *.
  split; [lia_mod|]. split; [lia|lia_mod].
Qed.

Lemma map_one_spec gaddr prot haddr off m :
  machine_ok m → room 3 m → user_va (gaddr + off) → page_aligned (haddr + off) →
  0 ≤ prot < 8 → h_back (m_host m) (granule_of (haddr + off)) ≠ None →
  match map_one gaddr prot haddr off m with
  | Ret m' => maps_to m' (gaddr + off) (haddr + off) prot ∧
      ∃ w, remapped 3 (only (gaddr + off) w) (λ i, i = granule_of (pte_ipa w)) m m' ∧ pte_valid w = true
  | Stop w => w = NoMemory
  end.
Proof.
  intros Hok Hroom Hva Hha Hp Hback. unfold map_one.
  set (hp := haddr + off) in *. set (sp := if prot =? 0 then HV_MEMORY_READ else prot).
  assert (0 < sp < 8 ∧ ∀ q, Z.lor q sp = q → Z.lor q prot = q) as [Hsp Hspq].
  { subst sp. destruct (prot =? 0) eqn:E; bool_to_prop; [|split; [lia|done]].
    subst. split; [done|]. intros q _. apply Z.lor_0_r. }
  destruct (block_for_machine (granule_of hp) sp m) as (base & created & s & -> & Hrm & e & He & Hh & Hq);
    [done|by apply (room_le 1 3)|apply granule_of_spec|done..|].
  cbn [mbind outcome_bind]. cbv zeta in *.
  set (m1 := if created then _ else _) in *. clearbody m1.
  destruct (ipa_in_block m1 base e hp) as (Hgo & Hoff & Hi & Ha); [apply Hrm|done..|].
  set (ipa := base + _) in *.
  pose proof (pt_map_page_spec (gaddr + off) ipa prot m1 (rm_ok _ _ _ _ _ Hrm)
    (rm_room _ _ _ _ _ Hrm 2 ltac:(lia) Hroom) Hva Hi Ha Hp) as Hpm.
  rewrite Hgo in Hpm. specialize (Hpm (mk_is_Some _ _ He)).
  destruct (pt_map_page _ _ _ m1) as [m'|w]; [|done]. split.
  - destruct (rm_wide _ _ _ _ _ Hpm _ _ He) as (e' & He' & Hh' & Hq'). exists (s2_prot e').
    unfold xlate. rewrite (rm_pte _ _ _ _ _ Hpm) by done. unfold only. rewrite decide_True by done. cbn [from_option id].
    rewrite page_desc_valid, page_desc_ipa, Hgo, He', page_desc_prot by done. cbn.
    rewrite Hh', Hh, Hoff. split; [do 3 f_equal; lia|].
    rewrite <- Hq', <- Z.lor_assoc. f_equal. by apply Hspq.
  - exists (page_desc ipa prot). rewrite page_desc_valid, page_desc_ipa, Hgo by done. split; [|done].
    by apply (remapped_after 1 2 _ (λ i, i = base) (λ _, False) m m1).
Qed.

(** The range of a call: whole pages of the guest's half. *)
Definition user_range (gaddr size : Z) : Prop :=
  page_aligned gaddr ∧ page_aligned size ∧ 0 ≤ gaddr ∧ 0 ≤ size ∧ gaddr + size ≤ 2^39.

Definition in_range (gaddr size va : Z) : Prop := gaddr ≤ va < gaddr + size.

Lemma range_va gaddr size off :
  user_range gaddr size → off ∈ counter PAGE size → user_va (gaddr + off) ∧ in_range gaddr size (gaddr + off).
Proof.
  intros (Ha & Hs & ? & ? & ?) [Hm Ho]%elem_of_counter; [|done..].
  unfold user_va, in_range, page_aligned in *. change PAGE with 4096 in *. split; [|lia]. split; [lia_mod|lia].
Qed.

Lemma range_off gaddr size va :
  user_range gaddr size → user_va va → in_range gaddr size va → va - gaddr ∈ counter PAGE size.
Proof.
  intros (Ha & Hs & ? & ? & ?) [Hp Hv] Hr. apply elem_of_counter; [done..|].
  unfold in_range, page_aligned in *. change PAGE with 4096 in *. split; [lia_mod|lia].
Qed.

Definition pages (size : Z) : Z := size / PAGE.

Lemma length_pages size : page_aligned size → 0 ≤ size → Z.of_nat (length (counter PAGE size)) = pages size.
Proof.
  intros Hs ?. rewrite length_counter by done. unfold pages, page_aligned in *. change PAGE with 4096 in *. lia_mod.
Qed.

(** The host has memory behind every page of the range. *)
Definition host_backed m (haddr size : Z) : Prop := ∀ off,
  off ∈ counter PAGE size → h_back (m_host m) (granule_of (haddr + off)) ≠ None.

Lemma map_loop gaddr prot haddr l m :
  machine_ok m → room (3 * Z.of_nat (length l)) m → 0 ≤ prot < 8 → NoDup l →
  (∀ off, off ∈ l → user_va (gaddr + off) ∧ page_aligned (haddr + off) ∧
     h_back (m_host m) (granule_of (haddr + off)) ≠ None) →
  match for_each (map_one gaddr prot haddr) l m with
  | Ret m' => machine_ok m' ∧ kept_host m m' ∧ widened m m' ∧
      (∀ j, 0 ≤ j → room (3 * Z.of_nat (length l) + j) m → room j m') ∧
      (∀ off, off ∈ l → maps_to m' (gaddr + off) (haddr + off) prot) ∧
      (∀ va, user_va va → va - gaddr ∉ l → stays m m' va) ∧
      (∀ va, user_va va → va - gaddr ∉ l → pte (m_pt m') va = pte (m_pt m) va) ∧
      books (λ i, ∃ off, off ∈ l ∧ points (m_pt m') i (gaddr + off) = true) m m'
  | Stop w => w = NoMemory
  end.
Proof.
  intros Hok Hr Hp. revert m Hok Hr. induction l as [|off l IH]; intros m Hok Hr Hnd Hl; cbn [for_each].
  { split; [done|]. split; [by intros x _|]. split; [by apply (widened_more 0), more_refl|].
    split; [by intros j ?|]. split; [by intros ? ?%elem_of_nil|]. split; [|split; [done|]].
    - intros va Hva _. unfold stays. destruct (xlate m va) as [[[h p] q]|]; [|done]. exists q. split; [done|]. apply Z.lor_diag.
    - apply (books_weaken (λ _, False)); [done|]. apply (books_more 0), more_refl. }
  apply NoDup_cons in Hnd as [Hn Hnd].
  destruct (Hl off) as (Hva & Hha & Hb); [left|].
  assert (0 ≤ 3 * Z.of_nat (length l)) as Hlen by lia.
  replace (3 * Z.of_nat (length (off :: l))) with (3 + 3 * Z.of_nat (length l)) in * by (cbn [length]; lia).
  pose proof (map_one_spec gaddr prot haddr off m Hok) as Hone.
  ospecialize (Hone _); [by apply (room_le 3 (3 + 3 * Z.of_nat (length l))); [lia|]|].
  specialize (Hone Hva Hha Hp Hb).
  destruct (map_one gaddr prot haddr off m) as [m1|w]; [|done]. cbn [mbind outcome_bind].
  destruct Hone as (Hmt & w & Hrm & Hwv).
  specialize (IH m1 (rm_ok _ _ _ _ _ Hrm) (rm_room _ _ _ _ _ Hrm _ Hlen Hr) Hnd).
  ospecialize (IH _).
  { intros o Ho. destruct (Hl o) as (? & ? & Hbo); [by right|]. split; [done|]. split; [done|].
    by rewrite (proj1 (rm_host _ _ _ _ _ Hrm _ Hbo)). }
  destruct (for_each (map_one gaddr prot haddr) l m1) as [m2|w2]; [|done].
  destruct IH as (Hok2 & Hh2 & Hw2 & Hr2 & Hm2 & Hs2 & Hp2 & Hb2).
  split; [done|]. split; [eapply kept_host_trans; [apply Hrm|done]|].
  split; [eapply widened_trans; [apply Hrm|done]|]. split.
  { intros j Hj Hrj. apply (Hr2 j Hj), (rm_room _ _ _ _ _ Hrm); [lia|]. by rewrite Z.add_assoc. }
  assert (∀ va, va - gaddr ≠ off → only (gaddr + off) w va = None) as Honly.
  { intros va Hne. unfold only. rewrite decide_False; [done|]. intros ->. apply Hne. lia. }
  split; [|split; [|split]].
  - intros o [->|Ho]%elem_of_cons; [|by apply Hm2]. eapply maps_to_stays; [done|].
    apply Hs2; [done|]. by replace (gaddr + off - gaddr) with off by lia.
  - intros va Hv [Hne Hnin]%not_elem_of_cons.
    eapply stays_trans; [|by apply Hs2]. eapply remapped_stays; [done..|]. by apply Honly.
  - intros va Hv [Hne Hnin]%not_elem_of_cons. rewrite Hp2, (rm_pte _ _ _ _ _ Hrm), Honly by done. done.
  - eapply books_weaken; [|eapply books_trans; [apply Hrm|apply Hrm|exact Hb2]]. cbn beta.
    intros i [->|(o & Ho & Hpt)]; [|exists o; split; [by right|done]]. exists off. split; [left|].
    unfold points. rewrite Hp2 by (done || by replace (gaddr + off - gaddr) with off by lia).
    rewrite (rm_pte _ _ _ _ _ Hrm) by done. unfold only. rewrite decide_True by done. cbn [from_option id].
    by rewrite Hwv, Z.eqb_refl.
Qed.

Lemma vmm_mmap_spec gaddr size prot haddr m :
  machine_ok m → user_range gaddr size → page_aligned haddr → 0 ≤ prot < 8 →
  room (3 * pages size) m → host_backed m haddr size →
  match vmm_mmap gaddr size prot haddr m with
  | Ret m' => machine_ok m' ∧ kept_host m m' ∧ (∀ j, 0 ≤ j → room (3 * pages size + j) m → room j m') ∧
      (∀ va, user_va va → in_range gaddr size va → maps_to m' va (haddr + (va - gaddr)) prot) ∧
      (∀ va, user_va va → ¬ in_range gaddr size va → stays m m' va) ∧
      (∀ va, user_va va → ¬ in_range gaddr size va → pte (m_pt m') va = pte (m_pt m) va) ∧
      books (λ i, ∃ va, user_va va ∧ in_range gaddr size va ∧ points (m_pt m') i va = true) m m'
  | Stop w => w = NoMemory
  end.
Proof.
  intros Hok Hu Hh Hp Hroom Hb. pose proof Hu as (Hga & Hsa & ? & Hs0 & ?). unfold vmm_mmap.
  rewrite !page_aligned_land by done. cbn [assert_c mbind outcome_bind].
  pose proof (map_loop gaddr prot haddr (counter PAGE size) m Hok) as Hloop.
  rewrite length_pages in Hloop by done. specialize (Hloop Hroom Hp (NoDup_counter PAGE size eq_refl)).
  ospecialize (Hloop _).
  { intros off Ho. split; [by eapply range_va|]. split; [|by apply Hb].
    apply elem_of_counter in Ho as [Hm _]; [|done..].
    unfold page_aligned in *. change PAGE with 4096 in *. lia_mod. }
  destruct (for_each _ _ m) as [m'|w]; [|done].
  destruct Hloop as (Hok' & Hh' & _ & Hrm & Hin & Hout & Hpte & Hbo). do 3 (split; [done|]).
  assert (∀ va, ¬ in_range gaddr size va → va - gaddr ∉ counter PAGE size) as Hno.
  { intros va Hn Ho. apply Hn.
    eapply range_va in Ho as [_ Ho]; [|done]. by replace (gaddr + (va - gaddr)) with va in Ho by lia. }
  split; [|split; [|split]].
  - intros va Hva Hr. replace va with (gaddr + (va - gaddr)) at 1 by lia. apply Hin. by apply range_off.
  - intros va Hva Hn. apply Hout; auto.
  - intros va Hva Hn. apply Hpte; auto.
  - eapply books_weaken; [|exact Hbo]. cbn beta. intros i (off & Ho & Hpt). exists (gaddr + off).
    destruct (range_va gaddr size off Hu Ho). done.
Qed.

(** C34: mapping a range. Every page of it then reaches the host page at the
    same distance from [haddr], the guest is granted what it asked for by the
    first stage and is not refused it by the second; every page outside the
    range reaches what it reached, with no permission lost; host memory and
    the books of all four components are intact. *)
Theorem vmm_mmap_translates gaddr size prot haddr m :
  machine_ok m → user_range gaddr size → page_aligned haddr → 0 ≤ prot < 8 →
  room (3 * pages size) m → host_backed m haddr size →
  match vmm_mmap gaddr size prot haddr m with
  | Ret m' => machine_ok m' ∧ kept_host m m' ∧
      (∀ va, user_va va → in_range gaddr size va → maps_to m' va (haddr + (va - gaddr)) prot) ∧
      (∀ va, user_va va → ¬ in_range gaddr size va → stays m m' va)
  | Stop w => w = NoMemory
  end.
Proof.
  intros Hok Hu Hh Hp Hroom Hb. pose proof (vmm_mmap_spec gaddr size prot haddr m Hok Hu Hh Hp Hroom Hb) as Hs.
  destruct (vmm_mmap gaddr size prot haddr m); [|done]. tauto.
Qed.

(** ** Unmapping *)

Lemma users_zero m b va :
  users (m_pt m) b = 0%nat → user_va va → pte_valid (pte (m_pt m) va) = true →
  granule_of (pte_ipa (pte (m_pt m) va)) ≠ b.
Proof.
  intros Hu Hva%elem_of_all_vas Hv E. apply (count_zero _ _ Hu) in Hva.
  unfold points in Hva. rewrite Hv, E, Z.eqb_refl in Hva. done.
Qed.

(** A block nothing uses can go. *)
Lemma drop_block_ok m b s :
  machine_ok m → users (m_pt m) b = 0%nat → chunk_index (m_pt m) !! b = None →
  s2_ok s → s2_map s = delete b (s2_map (m_s2 m)) →
  hv_limit (s2_vm s) = hv_limit (s2_vm (m_s2 m)) → machine_ok (with_s2 s m).
Proof.
  intros [[B1 B2 B3 B4 B5 B6 B7 B8] Ht Hd Hr] Hu Hn Hs Em El.
  split; [split|..]; cbn [m_pt m_s2 m_arena m_host with_s2]; rewrite ?Em, ?El; [exact Hs|exact B2|exact B3| |exact B5| |exact B7| |exact Ht| |].
  - intros i e [_ Hi]%lookup_delete_Some. by eapply B4.
  - intros i e [_ Hi]%lookup_delete_Some. by eapply B6.
  - intros c Hc. rewrite lookup_delete_ne; [by apply B8|]. intros ->.
    destruct (ch_each _ B7 c Hc) as (_ & _ & _ & _ & _ & E). congruence.
  - intros va Hva Hv. rewrite lookup_delete_ne; [by apply Hd|].
    intros E. by apply (users_zero m b va Hu Hva Hv).
  - intros b' e [_ Hb']%lookup_delete_Some. by apply Hr.
Qed.

(** Mapping a block again where it was changes no entry. *)
Lemma reflush_ok m b :
  machine_ok m → gran b →
  match vmm_arm64_s2_reflush b (m_s2 m) with
  | Ret s => machine_ok (with_s2 s m) ∧ s2_map s = s2_map (m_s2 m) ∧
      hv_limit (s2_vm s) = hv_limit (s2_vm (m_s2 m))
  | Stop _ => False
  end.
Proof.
  intros Hok Hg. unfold vmm_arm64_s2_reflush. rewrite granule_of_gran by done.
  destruct (s2_map (m_s2 m) !! b) as [e|] eqn:E; [|by destruct m].
  pose proof (mo_s2 _ (mo_base _ Hok)) as Hs. destruct (so_ents _ Hs _ _ E) as [(Hi & Hi0 & Hl) Hh Hp _].
  pose proof (map_stage2_ok b (s2_prot e) (s2_haddr e) (m_s2 m) Hs Hh Hi Hi0 Hl Hp) as Hm.
  rewrite E in Hm. ospecialize (Hm _ _).
  { intros j Hj. apply (so_fwd _ Hs) in E. congruence. }
  { by intros e' [= <-]. }
  cbv zeta in Hm. destruct (vmm_arm64_map_stage2 _ _ _ _ _) as [s|w].
  - destruct Hm as (Hs' & Em & El).
    assert (s2_map s = s2_map (m_s2 m)) as Em' by (rewrite Em; apply insert_id; rewrite E; by destruct e).
    split; [|done]. destruct Hok as [[B1 B2 B3 B4 B5 B6 B7 B8] Ht Hd Hr].
    split; [split|..]; cbn [m_pt m_s2 m_arena m_host with_s2]; rewrite ?Em'; auto. by rewrite El.
  - done.
Qed.

Lemma note_block_none b f l : note_block b f l = None → b ∉ l.*1.
Proof.
  induction l as [|[b' f'] l IH]; [by intros _ ?%elem_of_nil|]. cbn.
  destruct (b' =? b) eqn:E; [done|]. bool_to_prop.
  destruct (note_block b f l); [done|]. intros _. apply not_elem_of_cons. split; [by intros ->|by apply IH].
Qed.

Lemma note_block_some b f l l' :
  note_block b f l = Some l' → NoDup l.*1 →
  l'.*1 = l.*1 ∧ (b, f) ∈ l' ∧ ∀ b' f', (b', f') ∈ l' ↔ (b' = b ∧ f' = f) ∨ (b' ≠ b ∧ (b', f') ∈ l).
Proof.
  revert l'. induction l as [|[b0 f0] l IH]; intros l'; [done|]. cbn.
  destruct (b0 =? b) eqn:E; bool_to_prop.
  - subst. intros [= <-] [Hn Hnd]%NoDup_cons. split; [done|]. split; [left|].
    intros b' f'. rewrite !elem_of_cons. split.
    + intros [[= -> ->]|Hin]; [by left|]. right. split; [|by right]. intros ->.
      apply Hn. by apply (list_elem_of_fmap_2 fst l (b, f')).
    + intros [[-> ->]|[Hne [[= -> ->]|Hin]]]; [by left|done|by right].
  - destruct (note_block b f l) as [k|]; [|done]. intros [= <-] [Hn Hnd]%NoDup_cons.
    destruct (IH k eq_refl Hnd) as (Hf & Hb & Hk). cbn. rewrite Hf. split; [done|]. split; [by right|].
    intros b' f'. rewrite !elem_of_cons, Hk. split.
    + intros [[= -> ->]|[?|[? ?]]]; auto.
    + intros [?|[? [[= -> ->]|?]]]; auto.
Qed.

(** The loop of vmm_munmap: [m0] with the pages [ds] cleared and, of the blocks
    they were in, those of [l] still to be finished. *)
Record unmapping m0 (ds : list Z) (l : list (Z * bool)) m : Prop := {
  um_ok : machine_ok m;
  um_host : m_host m = m_host m0;
  um_arena : m_arena m = m_arena m0;
  um_index : chunk_index (m_pt m) = chunk_index (m_pt m0);
  um_room k : room k m0 → room k m;
  um_pte va : user_va va → va ∉ ds → pte (m_pt m) va = pte (m_pt m0) va;
  um_cleared va : user_va va → va ∈ ds → pte_valid (pte (m_pt m) va) = false;
  um_nodup : NoDup l.*1;
  um_list b f : (b, f) ∈ l → gran b ∧ chunk_index (m_pt m0) !! b = None ∧
    (f = true ↔ users (m_pt m) b = 0%nat) ∧ users (m_pt m0) b ≠ 0%nat;
  um_keep b e : s2_map (m_s2 m) !! b = Some e →
    ∃ e0, s2_map (m_s2 m0) !! b = Some e0 ∧ s2_haddr e = s2_haddr e0 ∧ s2_prot e = s2_prot e0;
  um_gone b : is_Some (s2_map (m_s2 m0) !! b) → s2_map (m_s2 m) !! b = None →
    chunk_index (m_pt m0) !! b = None ∧ users (m_pt m) b = 0%nat ∧ users (m_pt m0) b ≠ 0%nat;
  um_pending b : chunk_index (m_pt m0) !! b = None →
    users (m_pt m) b = 0%nat → users (m_pt m0) b ≠ 0%nat →
    s2_map (m_s2 m) !! b = None ∨ (b, true) ∈ l;
}.

Lemma unmapping_perm m0 ds l l' m : l ≡ₚ l' → unmapping m0 ds l m → unmapping m0 ds l' m.
Proof.
  intros Hl []. split; auto.
  - by rewrite <- Hl.
  - intros b f Hb. apply um_list0. by rewrite Hl.
  - intros b Hc Hu Hu0. rewrite <- Hl. by apply um_pending0.
Qed.

Lemma finish_one m0 ds b f l m :
  unmapping m0 ds ((b, f) :: l) m →
  match finish_unmapped_block b f m with
  | Ret m' => unmapping m0 ds l m'
  | Stop _ => False
  end.
Proof.
  intros [U1 U2 U3 U4 U4' U5 U5' U6 U7 U8 U9 U10]. unfold finish_unmapped_block.
  destruct (U7 b f) as (Hg & Hn & Hf & Hu0); [left|]. apply NoDup_cons in U6 as [Hnin U6].
  assert (∀ b' f', (b', f') ∈ l → b' ≠ b) as Hne.
  { intros b' f' Hin ->. apply Hnin. by apply (list_elem_of_fmap_2 fst l (b, f')). }
  destruct f.
  - destruct (unmap_stage2_ok b (m_s2 m) (mo_s2 _ (mo_base _ U1)) Hg) as (s & -> & Hs & Em & El).
    cbn [mbind outcome_bind]. assert (users (m_pt m) b = 0%nat) as Hu by (by apply Hf).
    split; try done.
    + apply (drop_block_ok m b s); auto. by rewrite U4.
    + intros k Hk. specialize (U4' k Hk). unfold room in *. cbn [m_arena m_pt m_s2 with_s2]. by rewrite El.
    + intros b' f' Hin. apply U7. by right.
    + intros b' e. cbn [m_s2 with_s2]. rewrite Em. intros [_ Hb']%lookup_delete_Some. by apply U8.
    + intros b' Hb'. cbn [m_s2 with_s2 m_pt]. rewrite Em.
      destruct (decide (b' = b)) as [->|Hbn]; [|rewrite lookup_delete_ne by done; by apply U9].
      intros _. done.
    + intros b' Hc Hu' Hu0'. cbn [m_s2 with_s2] in *. rewrite Em.
      destruct (U10 b' Hc Hu' Hu0') as [Hx|Hx].
      * left. by apply lookup_delete_None; right.
      * apply elem_of_cons in Hx as [[= ->]|Hx]; [left; apply lookup_delete_eq|by right].
  - pose proof (reflush_ok m b U1 Hg) as Hfl. destruct (vmm_arm64_s2_reflush b (m_s2 m)) as [s|w].
    + destruct Hfl as (Hok & Em & El). cbn [mbind outcome_bind]. split; try done; cbn [m_s2 with_s2] in *; rewrite ?Em; auto.
      * intros k Hk. specialize (U4' k Hk). unfold room in *. cbn [m_arena m_pt m_s2 with_s2]. by rewrite El.
      * intros b' f' Hin. apply U7. by right.
      * intros b' Hc Hu' Hu0'. destruct (U10 b' Hc Hu' Hu0') as [Hx|Hx]; [by left|].
        apply elem_of_cons in Hx as [[=]|Hx]. by right.
    + done.
Qed.

Lemma finish_blocks_spec m0 ds l k m :
  unmapping m0 ds (l ++ k) m →
  match finish_blocks l m with
  | Ret m' => unmapping m0 ds k m'
  | Stop _ => False
  end.
Proof.
  revert m. induction l as [|[b f] l IH]; intros m Hu; [done|]. unfold finish_blocks. cbn [for_each].
  pose proof (finish_one m0 ds b f (l ++ k) m Hu) as H1'.
  destruct (finish_unmapped_block b f m) as [m'|w]; [|done]. by apply IH.
Qed.

(** One page's descriptor goes, and its block loses one user. *)
Lemma clear_leaf m va a :
  machine_ok m → user_va va → slot (m_pt m) va = Some a → pte_valid (pte (m_pt m) va) = true →
  let ipa := pte_ipa (pte (m_pt m) va) in
  let m' := with_s2 (vmm_arm64_s2_unref ipa (m_s2 m)).2 (with_pt (wr a 0 (m_pt m)) m) in
  machine_ok m' ∧
  (∀ b, (users (m_pt m') b + b2n (granule_of ipa =? b)%Z = users (m_pt m) b)%nat) ∧
  (chunk_index (m_pt m) !! granule_of ipa = None →
    (vmm_arm64_s2_unref ipa (m_s2 m)).1 = true ↔ users (m_pt m') (granule_of ipa) = 0%nat) ∧
  (∀ b, (λ e, (s2_haddr e, s2_prot e)) <$> s2_map (m_s2 m') !! b =
        (λ e, (s2_haddr e, s2_prot e)) <$> s2_map (m_s2 m) !! b).
Proof.
  intros Hok Hva Hsl Hv ipa m'. pose proof Hok as [Hb Ht Hd Hr].
  destruct (unref_spec ipa (m_s2 m)) as [Hrc Hfreed]; [apply Hb|by apply Hd|].
  assert (∀ b, (users (m_pt m') b + b2n (granule_of ipa =? b)%Z = users (m_pt m) b)%nat) as Hus.
  { intros b. pose proof (users_wr (m_pt m) va a 0 b (mo_chunks _ Hb) Ht Hsl Hva) as Hu.
    unfold points in Hu. rewrite Hv in Hu. cbn [andb pte_valid has Z.land Z.eqb negb b2n] in Hu.
    cbn [m_pt with_s2 with_pt m']. fold ipa in Hu. change (b2n (pte_valid 0 && _)) with 0%nat in Hu. lia. }
  assert (machine_ok m') as Hok'.
  { apply (leaf_ok (dec_at (granule_of ipa)) m va a 0); auto; [done|].
    intros b r ->. change (b2n (pte_valid 0 && _)) with 0%nat.
    pose proof (users_pos (m_pt m) b va Hva) as Hpos. unfold points, dec_at in *. rewrite Hv in *.
    fold ipa in Hpos |- *. cbn [andb] in *. rewrite (Z.eqb_sym b).
    destruct (granule_of ipa =? b); cbn [b2n]; [|lia]. specialize (Hpos eq_refl).
    rewrite (proj2 (Z.ltb_lt _ _)) by lia. lia. }
  split; [done|]. split; [done|]. split.
  - intros Hn. rewrite Hfreed. split.
    + intros (e & He & E)%fmap_Some. pose proof (mo_refs _ Hok' _ e He Hn) as Hre. lia.
    + intros Hz. destruct (mo_desc _ Hok va Hva Hv) as [e He]. fold ipa in He.
      pose proof (rc_map _ _ _ Hrc (granule_of ipa)) as Hm. rewrite He in Hm. cbn in Hm.
      apply fmap_Some. eexists. split; [exact Hm|].
      by rewrite (mo_refs _ Hok' _ _ Hm Hn), Hz.
  - intros b. cbn [m_s2 with_s2 m']. rewrite (rc_map _ _ _ Hrc). by destruct (s2_map (m_s2 m) !! b).
Qed.

Lemma unmapping_step m0 ds l l' m va a :
  unmapping m0 ds l m → user_va va → va ∉ ds → slot (m_pt m) va = Some a →
  pte_valid (pte (m_pt m) va) = true →
  let ipa := pte_ipa (pte (m_pt m) va) in
  let b := granule_of ipa in
  let '(freed, s) := vmm_arm64_s2_unref ipa (m_s2 m) in
  chunk_index (m_pt m0) !! b = None →
  NoDup l'.*1 → (∀ b' f', (b', f') ∈ l' ↔ (b' = b ∧ f' = freed) ∨ (b' ≠ b ∧ (b', f') ∈ l)) →
  unmapping m0 (va :: ds) l' (with_s2 s (with_pt (wr a 0 (m_pt m)) m)).
Proof.
  intros [U1 U2 U3 U4 U4' U5 U5' U6 U7 U8 U9 U10] Hva Hnd Hsl Hv ipa b.
  pose proof (clear_leaf m va a U1 Hva Hsl Hv) as Hcl. cbv zeta in Hcl. fold ipa b in Hcl.
  pose proof (rc_vm _ _ _ (proj1 (unref_spec ipa (m_s2 m) (mo_s2 _ (mo_base _ U1)) (mo_desc _ U1 va Hva Hv)))) as Hvm.
  destruct (vmm_arm64_s2_unref ipa (m_s2 m)) as [freed s]. cbn [fst snd] in Hcl, Hvm.
  set (m' := with_s2 s _) in *. destruct Hcl as (Hok' & Hus & Hfr & Hmap). intros Hn Hl'nd Hl'.
  rewrite <- U4 in Hn. specialize (Hfr Hn).
  assert (∀ b', b' ≠ b → users (m_pt m') b' = users (m_pt m) b') as Hsame.
  { intros b' Hne. rewrite <- Hus, (proj2 (Z.eqb_neq b b')) by done. cbn [b2n]. lia. }
  assert (∀ i, s2_map (m_s2 m') !! i = None ↔ s2_map (m_s2 m) !! i = None) as Hnone.
  { intros i. specialize (Hmap i). by destruct (s2_map (m_s2 m') !! i), (s2_map (m_s2 m) !! i). }
  assert (s2_map (m_s2 m) !! b ≠ None) as Hb.
  { destruct (mo_desc _ U1 va Hva Hv) as [e He]. fold ipa b in He. congruence. }
  split; try done.
  - intros k Hk. specialize (U4' k Hk). unfold room in *. cbn [m_arena m_pt m_s2 m' with_s2 with_pt]. by rewrite Hvm.
  - intros vb Hvb [Hne Hnin]%not_elem_of_cons. cbn [m_pt m' with_s2 with_pt].
    rewrite (pte_wr (m_pt m) va a 0 vb) by (done || apply U1 || apply (mo_base _ U1)).
    rewrite decide_False by done. by apply U5.
  - intros vb Hvb Hin. cbn [m_pt m' with_s2 with_pt].
    rewrite (pte_wr (m_pt m) va a 0 vb) by (done || apply U1 || apply (mo_base _ U1)).
    destruct (decide (vb = va)) as [->|Hne]; [done|]. apply elem_of_cons in Hin as [?|Hin]; [done|].
    by apply U5'.
  - intros b' f' [[-> ->]|[Hne Hin]]%Hl'.
    + split; [apply granule_of_spec|]. split; [by rewrite <- U4|]. split; [done|].
      pose proof (users_pos (m_pt m0) b va Hva) as Hpos. unfold points in Hpos.
      rewrite <- (U5 va Hva Hnd) in Hpos.
      fold ipa b in Hpos. rewrite Hv, Z.eqb_refl in Hpos. specialize (Hpos eq_refl). lia.
    + rewrite Hsame by done. by apply U7.
  - intros b' e He. specialize (Hmap b'). rewrite He in Hmap.
    destruct (s2_map (m_s2 m) !! b') as [e1|] eqn:E1; [|done]. injection Hmap as -> ->. by apply U8.
  - intros b' Hb' Hn'. apply Hnone in Hn'. rewrite Hsame; [by apply U9|]. by intros ->.
  - intros b' Hc Hu Hu0. destruct (decide (b' = b)) as [->|Hne].
    + right. apply Hl'. left. split; [done|]. symmetry. by apply Hfr.
    + rewrite Hsame in Hu by done. destruct (U10 b' Hc Hu Hu0) as [Hx|Hx]; [left; by apply Hnone|].
      right. apply Hl'. by right.
Qed.

Lemma unmap_one_spec m0 ds l m va :
  unmapping m0 ds l m → user_va va → va ∉ ds →
  (pte_valid (pte (m_pt m0) va) = true →
     chunk_index (m_pt m0) !! granule_of (pte_ipa (pte (m_pt m0) va)) = None) →
  match unmap_one va (l, m) with
  | Ret (l', m') => unmapping m0 (va :: ds) l' m'
  | Stop _ => False
  end.
Proof.
  intros Hu Hva Hnin Hch. pose proof (um_ok _ _ _ _ Hu) as Hok. unfold unmap_one.
  rewrite walk_existing_slot by done. cbn [mbind outcome_bind].
  rewrite <- (um_pte _ _ _ _ Hu va Hva Hnin) in Hch.
  assert (pte_valid (pte (m_pt m) va) = false → unmapping m0 (va :: ds) l m) as Hskip.
  { intros Hinv. destruct Hu as [U1 U2 U3 U4 U4' U5 U5' U6 U7 U8 U9 U10]. split; auto.
    - intros vb Hvb [_ Hn]%not_elem_of_cons. by apply U5.
    - intros vb Hvb [->|Hin]%elem_of_cons; [done|by apply U5']. }
  destruct (slot (m_pt m) va) as [a|] eqn:Hsl; [|apply Hskip; unfold pte; by rewrite Hsl].
  rewrite (pte_rd _ _ _ Hsl). destruct (pte_valid (pte (m_pt m) va)) eqn:Hv; [|by apply Hskip].
  cbn [negb]. specialize (Hch eq_refl).
  pose proof (λ l', unmapping_step m0 ds l l' m va a Hu Hva Hnin Hsl Hv) as Hstep. cbv zeta in Hstep.
  destruct (vmm_arm64_s2_unref _ (m_s2 m)) as [freed s].
  set (m' := with_s2 s _) in *. set (b := granule_of _) in *.
  pose proof (um_nodup _ _ _ _ Hu) as Hnd.
  destruct (note_block b freed l) as [l'|] eqn:Hnb.
  - destruct (note_block_some _ _ _ _ Hnb Hnd) as (Hf & _ & Hl'). apply Hstep; [done| |done].
    by rewrite Hf.
  - apply note_block_none in Hnb.
    assert (unmapping m0 (va :: ds) ((b, freed) :: l) m') as Hadd.
    { apply Hstep; [done|by apply NoDup_cons|]. intros b' f'. rewrite elem_of_cons. split.
      - intros [[= -> ->]|Hin]; [by left|right]. split; [|done]. intros ->.
        apply Hnb. by apply (list_elem_of_fmap_2 fst l (b, f')).
      - intros [[-> ->]|[_ Hin]]; auto. }
    apply (unmapping_perm _ _ _ (l ++ [(b, freed)])) in Hadd; [|apply Permutation_cons_append].
    destruct (Nat.eqb (length l) NR_BLOCKS); [|done].
    pose proof (finish_blocks_spec _ _ _ _ _ Hadd) as Hfin.
    destruct (finish_blocks l m') as [m2|w]; [|done]. done.
Qed.

Lemma unmap_loop m0 gaddr ls ds l m :
  unmapping m0 ds l m → NoDup ls →
  (∀ off, off ∈ ls → user_va (gaddr + off) ∧ (gaddr + off ∉ ds) ∧
    (pte_valid (pte (m_pt m0) (gaddr + off)) = true →
     chunk_index (m_pt m0) !! granule_of (pte_ipa (pte (m_pt m0) (gaddr + off))) = None)) →
  match for_each (λ off, unmap_one (gaddr + off)) ls (l, m) with
  | Ret (l', m') => unmapping m0 (reverse (Z.add gaddr <$> ls) ++ ds) l' m'
  | Stop _ => False
  end.
Proof.
  revert ds l m. induction ls as [|off ls IH]; intros ds l m Hu Hnd Hls; [done|].
  apply NoDup_cons in Hnd as [Hnin Hnd]. destruct (Hls off) as (Hva & Hds & Hch); [left|].
  cbn [for_each]. pose proof (unmap_one_spec m0 ds l m _ Hu Hva Hds Hch) as Hone.
  destruct (unmap_one (gaddr + off) (l, m)) as [[l1 m1]|w]; [|done]. cbn [mbind outcome_bind].
  specialize (IH ((gaddr + off) :: ds) l1 m1 Hone Hnd). rewrite fmap_cons, reverse_cons, <- app_assoc.
  apply IH.
  intros o Ho. destruct (Hls o) as (? & Hn & ?); [by right|]. split; [done|]. split; [|done].
  apply not_elem_of_cons. split; [|done]. intros E. apply Hnin. by replace off with o by lia.
Qed.

Lemma unmapping_start m : machine_ok m → unmapping m [] [] m.
Proof.
  intros Hok. split; auto.
  - by intros va _ ?%elem_of_nil.
  - constructor.
  - by intros b f ?%elem_of_nil.
  - intros b e He. by exists e.
  - intros b [e He] Hn. congruence.
  - done.
Qed.

(** No page of the range is backed by the allocator's own memory. *)
Definition guest_backed m (gaddr size : Z) : Prop := ∀ va, user_va va → in_range gaddr size va →
  pte_valid (pte (m_pt m) va) = true →
  chunk_index (m_pt m) !! granule_of (pte_ipa (pte (m_pt m) va)) = None.

Lemma elem_of_range gaddr size va :
  user_range gaddr size → user_va va →
  va ∈ reverse (Z.add gaddr <$> counter PAGE size) ↔ in_range gaddr size va.
Proof.
  intros Hu Hva. rewrite elem_of_reverse, list_elem_of_fmap. split.
  - intros (off & -> & Ho). by apply range_va.
  - intros Hr. exists (va - gaddr). split; [lia|by apply range_off].
Qed.

Lemma vmm_munmap_spec gaddr size m :
  machine_ok m → user_range gaddr size → guest_backed m gaddr size →
  match vmm_munmap gaddr size m with
  | Ret m' => unmapping m (reverse (Z.add gaddr <$> counter PAGE size)) [] m'
  | Stop _ => False
  end.
Proof.
  intros Hok Hu Hgb. unfold vmm_munmap.
  pose proof (unmap_loop m gaddr (counter PAGE size) [] [] m (unmapping_start m Hok)
    (NoDup_counter PAGE size eq_refl)) as Hloop.
  ospecialize (Hloop _).
  { intros off Ho. destruct (range_va gaddr size off Hu Ho) as [Hva Hin]. split; [done|].
    split; [by intros ?%elem_of_nil|]. by apply Hgb. }
  destruct (for_each _ _ ([], m)) as [[l m1]|w]; [|done]. cbn [mbind outcome_bind].
  rewrite <- (app_nil_r l) in Hloop. apply finish_blocks_spec in Hloop.
  destruct (finish_blocks l m1) as [m'|w]; [|done]. by rewrite app_nil_r in Hloop.
Qed.

(** What the unmapping of [ds] leaves of the two translations. *)
Lemma unmapping_xlate m ds m' va :
  unmapping m ds [] m' → user_va va → xlate m' va = if decide (va ∈ ds) then None else xlate m va.
Proof.
  intros [U1 U2 U3 U4 _ U5 U5' _ _ U8 U9 U10] Hva. unfold xlate. case_decide as Hin.
  { by rewrite U5'. }
  rewrite U5 by done. destruct (pte_valid (pte (m_pt m) va)) eqn:Hv; [|done].
  rewrite <- U5 in Hv by done. destruct (mo_desc _ U1 va Hva Hv) as [e He].
  rewrite U5 in He by done. rewrite He.
  destruct (U8 _ _ He) as (e0 & -> & Hh & Hp). cbn. by rewrite Hh, Hp.
Qed.

(** Unmapping a range. No page of it translates any more, every other page
    translates exactly as before, the host's memory is untouched, and a block
    leaves the second stage exactly when its last user was in the range. The
    call returns. *)
Theorem vmm_munmap_exact gaddr size m :
  machine_ok m → user_range gaddr size → guest_backed m gaddr size →
  match vmm_munmap gaddr size m with
  | Ret m' => machine_ok m' ∧ m_host m' = m_host m ∧ m_arena m' = m_arena m ∧
      (∀ va, user_va va → in_range gaddr size va → xlate m' va = None) ∧
      (∀ va, user_va va → ¬ in_range gaddr size va → xlate m' va = xlate m va) ∧
      (∀ b, is_Some (s2_map (m_s2 m) !! b) → chunk_index (m_pt m) !! b = None →
         s2_map (m_s2 m') !! b = None ↔ users (m_pt m) b ≠ 0%nat ∧ users (m_pt m') b = 0%nat)
  | Stop _ => False
  end.
Proof.
  intros Hok Hu Hgb. pose proof (vmm_munmap_spec gaddr size m Hok Hu Hgb) as Hs.
  destruct (vmm_munmap gaddr size m) as [m'|w]; [|done].
  pose proof (λ va Hva, elem_of_range gaddr size va Hu Hva) as Hin.
  pose proof (λ va, unmapping_xlate _ _ _ va Hs) as Hx.
  destruct Hs as [U1 U2 U3 U4 _ U5 U5' _ _ U8 U9 U10]. do 3 (split; [done|]). split; [|split].
  - intros va Hva Hr. rewrite Hx, decide_True; [done|by apply Hin|done].
  - intros va Hva Hr. rewrite Hx, decide_False; [done|by rewrite Hin|done].
  - intros b Hb Hc. split.
    + intros Hn. by destruct (U9 b Hb Hn) as (_ & ? & ?).
    + intros [Hu0 Hu1]. by destruct (U10 b Hc Hu1 Hu0) as [?|?%elem_of_nil].
Qed.

(** ** Changing permissions *)

(** A registry with other permissions only. *)
Lemma reprot_ok m s :
  machine_ok m → s2_ok s → hv_limit (s2_vm s) = hv_limit (s2_vm (m_s2 m)) →
  (∀ i, (λ e, (s2_haddr e, s2_refs e)) <$> s2_map s !! i =
        (λ e, (s2_haddr e, s2_refs e)) <$> s2_map (m_s2 m) !! i) →
  machine_ok (with_s2 s m).
Proof.
  intros [[B1 B2 B3 B4 B5 B6 B7 B8] Ht Hd Hr] Hs El Em.
  assert (∀ i e, s2_map s !! i = Some e → ∃ e0, s2_map (m_s2 m) !! i = Some e0 ∧
    s2_haddr e = s2_haddr e0 ∧ s2_refs e = s2_refs e0) as Hback.
  { intros i e He. specialize (Em i). rewrite He in Em.
    destruct (s2_map (m_s2 m) !! i) as [e0|]; [|done]. injection Em as ? ?. by exists e0. }
  split; [split|..]; cbn [m_pt m_s2 m_arena m_host with_s2]; rewrite ?El;
    [exact Hs|exact B2|exact B3| |exact B5| |exact B7| |exact Ht| |].
  - intros i e He. destruct (Hback i e He) as (e0 & He0 & _). by apply (B4 i e0).
  - intros i e He. destruct (Hback i e He) as (e0 & He0 & -> & _). by apply (B6 i e0).
  - intros c Hc. specialize (B8 c Hc). specialize (Em (ck_ipa c)).
    destruct (s2_map s !! ck_ipa c), (s2_map (m_s2 m) !! ck_ipa c); try done. injection Em as Eh _.
    injection B8 as Eb. cbn. by rewrite Eh, Eb.
  - intros va Hva Hv. destruct (Hd va Hva Hv) as [e He]. specialize (Em (granule_of (pte_ipa (pte (m_pt m) va)))).
    rewrite He in Em. by destruct (s2_map s !! _).
  - intros b e He Hn. destruct (Hback b e He) as (e0 & He0 & _ & ->). by apply Hr.
Qed.

(** What [va] contributes to the needs of block [b]. *)
Definition share p (b va : Z) : Z := if points p b va then pte_to_prot (pte p va) else 0.

Lemma block_union_eq m b va :
  machine_ok m →
  block_union b va (m_pt m) =
    Ret (Z.lor (Z.lor (Z.lor (share (m_pt m) b va) (share (m_pt m) b (va + 1 * PAGE)))
      (share (m_pt m) b (va + 2 * PAGE))) (share (m_pt m) b (va + 3 * PAGE))).
Proof.
  intros Hok. unfold block_union.
  assert (∀ j u, (bp ← walk_existing (va + j * PAGE) (m_pt m);
    Ret (match bp with
         | Some a => if pte_valid (rd (m_pt m) a) && (granule_of (pte_ipa (rd (m_pt m) a)) =? b)
                     then Z.lor u (pte_to_prot (rd (m_pt m) a)) else u
         | None => u
         end)) = Ret (Z.lor u (share (m_pt m) b (va + j * PAGE)))) as Hstep.
  { intros j u. rewrite walk_existing_slot by done. cbn [mbind outcome_bind]. unfold share, points.
    destruct (slot (m_pt m) (va + j * PAGE)) as [a|] eqn:Hs.
    - rewrite (pte_rd _ _ _ Hs). destruct (_ && _); [done|]. by rewrite Z.lor_0_r.
    - assert (pte (m_pt m) (va + j * PAGE) = 0) as -> by (unfold pte; by rewrite Hs).
      cbn. by rewrite Z.lor_0_r. }
  cbn [for_each]. rewrite Hstep. cbn [mbind outcome_bind]. rewrite Hstep. cbn [mbind outcome_bind].
  rewrite Hstep. cbn [mbind outcome_bind]. rewrite Hstep. cbn [mbind outcome_bind].
  by rewrite Z.lor_0_l, Z.mul_0_l, Z.add_0_r.
Qed.

Lemma pte_to_prot_range w : 0 ≤ pte_to_prot w < 8.
Proof.
  unfold pte_to_prot. destruct (Z.land w PTE_AP_RW_EL0 =? 0); [lia|].
  destruct (Z.land w PTE_AP_RO =? 0), (Z.land w PTE_UXN =? 0); done.
Qed.

(** The pages of the block [va] is in are consecutive: what [va] says of the
    block's place in the guest's address space, all do. *)
Definition linear_at m (va : Z) : Prop := ∀ vb, user_va vb →
  pte_valid (pte (m_pt m) va) = true → pte_valid (pte (m_pt m) vb) = true →
  granule_of (pte_ipa (pte (m_pt m) va)) = granule_of (pte_ipa (pte (m_pt m) vb)) →
  va - granule_off (pte_ipa (pte (m_pt m) va)) = vb - granule_off (pte_ipa (pte (m_pt m) vb)).

Definition linear m (gaddr size : Z) : Prop := ∀ va, user_va va → in_range gaddr size va → linear_at m va.

(** Stage 2 allows [q] to block [b], and that is enough for all its pages. *)
Definition covers m (b q : Z) : Prop := ∀ va, user_va va → points (m_pt m) b va = true →
  Z.lor q (pte_to_prot (pte (m_pt m) va)) = q.

Lemma lor_absorb a b c : Z.lor a c = a → Z.lor (Z.lor a b) c = Z.lor a b.
Proof. intros H1'. by rewrite <- Z.lor_assoc, (Z.lor_comm b), Z.lor_assoc, H1'. Qed.

Lemma lor_absorb_r a b c : Z.lor b c = b → Z.lor (Z.lor a b) c = Z.lor a b.
Proof. intros H1'. by rewrite <- Z.lor_assoc, H1'. Qed.

Lemma share_range p b va : 0 ≤ share p b va < 8.
Proof. unfold share. destruct (points _ _ _); [apply pte_to_prot_range|lia]. Qed.

Lemma points_true p b va :
  points p b va = true ↔ pte_valid (pte p va) = true ∧ granule_of (pte_ipa (pte p va)) = b.
Proof. unfold points. by rewrite andb_true_iff, Z.eqb_eq. Qed.

(** With pages laid out linearly, the four places looked at are all of a
    block's pages. *)
Lemma block_union_spec m b va :
  machine_ok m → linear_at m va → user_va va → points (m_pt m) b va = true →
  ∃ u, block_union b (va - granule_off (pte_ipa (pte (m_pt m) va))) (m_pt m) = Ret u ∧
    0 ≤ u < 8 ∧ covers m b u.
Proof.
  intros Hok Hlin Hva Hp. rewrite block_union_eq by done. eexists. split; [done|]. split.
  { repeat apply lor_prot; apply share_range. }
  intros vb Hvb Hpb. apply points_true in Hp as [Hv Hg]. pose proof Hpb as [Hvv Hgb]%points_true.
  pose proof (Hlin vb Hvb Hv Hvv ltac:(congruence)) as Hl.
  set (o := granule_off (pte_ipa (pte (m_pt m) vb))) in *.
  assert (o = 0 ∨ o = 1 * PAGE ∨ o = 2 * PAGE ∨ o = 3 * PAGE) as Ho.
  { destruct (pte_ipa_range (pte (m_pt m) vb)) as [Hpa _]. subst o. rewrite granule_off_mod.
    unfold page_aligned in Hpa. change PAGE with 4096 in *. change STAGE2_GRANULE with 16384. lia_mod. }
  assert (share (m_pt m) b vb = pte_to_prot (pte (m_pt m) vb)) as <- by (unfold share; by rewrite Hpb).
  rewrite Hl. clearbody o.
  destruct Ho as [-> | [-> | [-> | ->]]].
  - rewrite Z.sub_0_r. do 3 apply lor_absorb. apply Z.lor_diag.
  - replace (vb - 1 * PAGE + 1 * PAGE) with vb by lia. do 2 apply lor_absorb.
    apply lor_absorb_r, Z.lor_diag.
  - replace (vb - 2 * PAGE + 2 * PAGE) with vb by lia. apply lor_absorb, lor_absorb_r, Z.lor_diag.
  - replace (vb - 3 * PAGE + 3 * PAGE) with vb by lia. apply lor_absorb_r, Z.lor_diag.
Qed.

(** The loop of pt_protect: the mapped pages among [ds] have the new
    permission; the blocks of [l] are still to be given theirs. *)
Definition touched m (ds : list Z) (b : Z) : Prop :=
  ∃ va, va ∈ ds ∧ user_va va ∧ points (m_pt m) b va = true.

Record protecting m0 prot (ds : list Z) (l : list (Z * Z)) m : Prop := {
  pg_ok : machine_ok m;
  pg_host : m_host m = m_host m0;
  pg_arena : m_arena m = m_arena m0;
  pg_index : chunk_index (m_pt m) = chunk_index (m_pt m0);
  pg_room k : room k m0 → room k m;
  pg_pte va : user_va va → pte (m_pt m) va =
    if decide (va ∈ ds) then
      if pte_valid (pte (m_pt m0) va) then page_desc (pte_ipa (pte (m_pt m0) va)) prot
      else pte (m_pt m0) va
    else pte (m_pt m0) va;
  pg_s2 i : s2_haddr <$> s2_map (m_s2 m) !! i = s2_haddr <$> s2_map (m_s2 m0) !! i;
  pg_list b v : (b, v) ∈ l → ∃ va, va ∈ ds ∧ user_va va ∧ points (m_pt m0) b va = true ∧
    v = va - granule_off (pte_ipa (pte (m_pt m0) va));
  pg_done b e : s2_map (m_s2 m) !! b = Some e → b ∉ l.*1 →
    touched m0 ds b ∧ covers m b (s2_prot e) ∨
    (¬ touched m0 ds b ∧ s2_prot <$> s2_map (m_s2 m0) !! b = Some (s2_prot e));
}.

(** The address a descriptor holds is not changed by the loop. *)
Lemma protecting_desc m0 prot ds l m va :
  machine_ok m0 → protecting m0 prot ds l m → 0 ≤ prot < 8 → user_va va →
  pte_valid (pte (m_pt m) va) = pte_valid (pte (m_pt m0) va) ∧
  (pte_valid (pte (m_pt m0) va) = true → pte_ipa (pte (m_pt m) va) = pte_ipa (pte (m_pt m0) va)).
Proof.
  intros Hok0 Hpg Hp Hva. rewrite (pg_pte _ _ _ _ _ Hpg va Hva).
  destruct (decide (va ∈ ds)); [|done]. destruct (pte_valid (pte (m_pt m0) va)) eqn:Hv; [|by rewrite Hv].
  rewrite page_desc_valid. split; [done|]. intros _.
  destruct (pte_ipa_range (pte (m_pt m0) va)) as [Hpa H0']. apply page_desc_ipa; [|done..].
  split; [done|]. apply pte_ipa_lt.
Qed.

Lemma protecting_points m0 prot ds l m b va :
  machine_ok m0 → protecting m0 prot ds l m → 0 ≤ prot < 8 → user_va va →
  points (m_pt m) b va = points (m_pt m0) b va.
Proof.
  intros Hok0 Hpg Hp Hva. destruct (protecting_desc _ _ _ _ _ _ Hok0 Hpg Hp Hva) as [E1 E2].
  unfold points. rewrite E1. destruct (pte_valid (pte (m_pt m0) va)); [|done]. by rewrite E2.
Qed.

Lemma protecting_linear m0 prot ds l m va :
  machine_ok m0 → protecting m0 prot ds l m → 0 ≤ prot < 8 → user_va va → linear_at m0 va → linear_at m va.
Proof.
  intros Hok0 Hpg Hp Hva Hlin vb Hvb.
  destruct (protecting_desc _ _ _ _ _ va Hok0 Hpg Hp Hva) as [-> E2].
  destruct (protecting_desc _ _ _ _ _ vb Hok0 Hpg Hp Hvb) as [-> F2].
  intros Hv Hw. rewrite E2, F2 by done. by apply Hlin.
Qed.

Lemma s2_prot_of_id u : 0 ≤ u < 8 → s2_prot_of u = u.
Proof. intros Hu. pattern u. apply prot_cases; [done|reflexivity..]. Qed.

(** Giving a block the permission its pages need. *)
Lemma reprotect_spec m b u :
  machine_ok m → is_Some (s2_map (m_s2 m) !! b) → 0 ≤ u < 8 →
  match vmm_arm64_s2_reprotect b u (m_s2 m) with
  | Ret s => machine_ok (with_s2 s m) ∧
      (∀ i, s2_haddr <$> s2_map s !! i = s2_haddr <$> s2_map (m_s2 m) !! i) ∧
      s2_prot <$> s2_map s !! b = Some u ∧ (∀ i, i ≠ b → s2_map s !! i = s2_map (m_s2 m) !! i) ∧
      hv_limit (s2_vm s) = hv_limit (s2_vm (m_s2 m))
  | Stop _ => False
  end.
Proof.
  intros Hok [e He] Hu. unfold vmm_arm64_s2_reprotect.
  pose proof (mo_s2 _ (mo_base _ Hok)) as Hs. destruct (so_ents _ Hs _ _ He) as [(Hi & Hi0 & Hl) Hh Hp _].
  rewrite granule_of_gran, He by done.
  pose proof (map_stage2_ok b u (s2_haddr e) (m_s2 m) Hs Hh Hi Hi0 Hl Hu) as Hm.
  rewrite He in Hm. ospecialize (Hm _ _).
  { intros j Hj. apply (so_fwd _ Hs) in He. congruence. }
  { by intros e' [= <-]. }
  cbv zeta in Hm. destruct (vmm_arm64_map_stage2 _ _ _ _ _) as [s|w]; [|done].
  destruct Hm as (Hs' & Em & El). rewrite Em. split; [|split; [|split]].
  - apply reprot_ok; auto. intros i. rewrite Em. destruct (decide (i = b)) as [->|Hne].
    + by rewrite lookup_insert_eq, He.
    + by rewrite lookup_insert_ne.
  - intros i. destruct (decide (i = b)) as [->|Hne]; [by rewrite lookup_insert_eq, He|by rewrite lookup_insert_ne].
  - by rewrite lookup_insert_eq.
  - split; [|exact El]. intros i Hne. by rewrite lookup_insert_ne.
Qed.

Lemma reprotect_one m0 prot ds b v l m :
  machine_ok m0 → (∀ va, va ∈ ds → linear_at m0 va) → 0 ≤ prot < 8 → protecting m0 prot ds ((b, v) :: l) m →
  match (u ← block_union b v (m_pt m);
         s ← vmm_arm64_s2_reprotect b (s2_prot_of u) (m_s2 m);
         Ret (with_s2 s m)) with
  | Ret m' => protecting m0 prot ds l m'
  | Stop _ => False
  end.
Proof.
  intros Hok0 Hlin Hp Hpg.
  destruct (pg_list _ _ _ _ _ Hpg b v) as (va & Hds & Hva & Hpt & ->); [left|].
  pose proof (protecting_desc _ _ _ _ _ va Hok0 Hpg Hp Hva) as [Hv Hi].
  pose proof (protecting_linear _ _ _ _ _ va Hok0 Hpg Hp Hva (Hlin va Hds)) as Hlin'.
  pose proof Hpt as [Hv0 Hg0]%points_true. rewrite <- (Hi Hv0).
  rewrite <- (protecting_points _ _ _ _ _ b va Hok0 Hpg Hp Hva) in Hpt.
  destruct (block_union_spec m b va (pg_ok _ _ _ _ _ Hpg) Hlin' Hva Hpt) as (u & -> & Hu & Hcov).
  cbn [mbind outcome_bind]. rewrite s2_prot_of_id by done.
  pose proof (reprotect_spec m b u (pg_ok _ _ _ _ _ Hpg)) as Hrp. ospecialize (Hrp _ Hu).
  { apply points_true in Hpt as [Hv1 <-]. by apply (mo_desc _ (pg_ok _ _ _ _ _ Hpg)). }
  destruct (vmm_arm64_s2_reprotect b u (m_s2 m)) as [s|w]; cbn [mbind outcome_bind]; [|done].
  destruct Hrp as (Hok' & Hh & Hpb & Hother & El). destruct Hpg as [P1 P2 P3 P3' PR P4 P5 P6 P7].
  split; try done; cbn [m_s2 with_s2 m_pt].
  - intros k Hk%PR. by apply (room_with k m).
  - intros i. by rewrite Hh.
  - intros b' v' Hin. apply P6. by right.
  - intros b' e He Hn. destruct (decide (b' = b)) as [->|Hne].
    + left. split.
      * exists va. split; [done|]. split; [done|]. by apply points_true.
      * rewrite He in Hpb. injection Hpb as ->. exact Hcov.
    + rewrite Hother in He by done. apply (P7 b' e He). by apply not_elem_of_cons.
Qed.

Lemma reprotect_blocks_spec m0 prot ds l k m :
  machine_ok m0 → (∀ va, va ∈ ds → linear_at m0 va) → 0 ≤ prot < 8 → protecting m0 prot ds (l ++ k) m →
  match reprotect_blocks l m with
  | Ret m' => protecting m0 prot ds k m'
  | Stop _ => False
  end.
Proof.
  intros Hok0 Hlin Hp. revert m. induction l as [|[b v] l IH]; intros m Hpg; [done|].
  unfold reprotect_blocks. cbn [for_each].
  pose proof (reprotect_one m0 prot ds b v (l ++ k) m Hok0 Hlin Hp Hpg) as Hone.
  destruct (mbind _ (block_union b v (m_pt m))) as [m'|w]; [|done]. by apply IH.
Qed.

Lemma protecting_perm m0 prot ds l l' m : l ≡ₚ l' → protecting m0 prot ds l m → protecting m0 prot ds l' m.
Proof.
  intros Hl []. split; auto.
  - intros b v Hb. apply pg_list0. by rewrite Hl.
  - intros b e He Hb. apply pg_done0; [done|]. by rewrite Hl.
Qed.

(** Reading one more page that does not use block [b]. *)
Lemma touched_cons m ds b va : points (m_pt m) b va = false → touched m (va :: ds) b ↔ touched m ds b.
Proof.
  intros Hp. split; intros (x & Hx & Hux & Hpx).
  - apply elem_of_cons in Hx as [->|Hx]; [congruence|]. by exists x.
  - exists x. split; [by right|done].
Qed.

Lemma protecting_skip m0 prot ds l m va :
  protecting m0 prot ds l m → pte_valid (pte (m_pt m0) va) = false →
  protecting m0 prot (va :: ds) l m.
Proof.
  intros [P1 P2 P3 P3' PR P4 P5 P6 P7] Hv. split; auto.
  - intros vb Hvb. rewrite P4 by done. destruct (decide (vb = va)) as [->|Hne].
    + rewrite Hv. by do 2 case_decide.
    + destruct (decide (vb ∈ ds)); [rewrite decide_True; [done|by right]|].
      rewrite decide_False; [done|]. by intros [|]%elem_of_cons.
  - intros b v Hin. destruct (P6 b v Hin) as (x & Hx & ?). exists x. split; [by right|done].
  - intros b e He Hn. rewrite touched_cons; [by apply P7|]. unfold points. by rewrite Hv.
Qed.

Lemma protect_leaf_ok m va a prot :
  machine_ok m → user_va va → slot (m_pt m) va = Some a → pte_valid (pte (m_pt m) va) = true →
  0 ≤ prot < 8 →
  machine_ok (with_pt (wr a (page_desc (pte_ipa (pte (m_pt m) va)) prot) (m_pt m)) m).
Proof.
  intros Hok Hva Hsl Hv Hp. destruct (pte_ipa_range (pte (m_pt m) va)) as [Hpa H0'].
  pose proof (pte_ipa_lt (pte (m_pt m) va)) as Hlt.
  apply (leaf_ok (λ _ r, r) m va a _ (m_s2 m)); auto.
  - apply recounted_id, Hok.
  - intros _. rewrite page_desc_ipa by done. by apply (mo_desc _ Hok).
  - intros b r _. rewrite page_desc_valid, page_desc_ipa by done. unfold points. rewrite Hv. lia.
Qed.

Lemma protecting_step m0 prot ds l l' m va a :
  machine_ok m0 → protecting m0 prot ds l m → 0 ≤ prot < 8 → user_va va → va ∉ ds →
  slot (m_pt m) va = Some a → pte_valid (pte (m_pt m) va) = true →
  let ipa := pte_ipa (pte (m_pt m) va) in
  granule_of ipa ∈ l'.*1 → (∀ b, b ∈ l.*1 → b ∈ l'.*1) →
  (∀ b v, (b, v) ∈ l' → (b, v) ∈ l ∨ b = granule_of ipa ∧ v = va - granule_off ipa) →
  protecting m0 prot (va :: ds) l' (with_pt (wr a (page_desc ipa prot) (m_pt m)) m).
Proof.
  intros Hok0 Hpg Hp Hva Hnin Hsl Hv ipa Hb Hsub Hl'.
  pose proof Hpg as [P1 P2 P3 P3' PR P4 P5 P6 P7]. set (m' := with_pt _ m).
  assert (pte (m_pt m) va = pte (m_pt m0) va) as Hpte by (rewrite P4, decide_False by done; done).
  assert (∀ vb, user_va vb → pte (m_pt m') vb =
    if decide (vb = va) then page_desc ipa prot else pte (m_pt m) vb) as Hwr.
  { intros vb Hvb. apply pte_wr; try done; [apply P1|apply P1]. }
  split; try done.
  - by apply protect_leaf_ok.
  - intros vb Hvb. rewrite Hwr by done. destruct (decide (vb = va)) as [->|Hne].
    + rewrite decide_True by left. rewrite <- Hpte, Hv. done.
    + rewrite P4 by done. destruct (decide (vb ∈ ds)); [rewrite decide_True; [done|by right]|].
      rewrite decide_False; [done|]. by intros [|]%elem_of_cons.
  - intros b v Hin. destruct (Hl' b v Hin) as [Hold|[-> ->]].
    + destruct (P6 b v Hold) as (x & Hx & ?). exists x. split; [by right|done].
    + exists va. split; [left|]. split; [done|]. subst ipa. rewrite Hpte in *. split; [by apply points_true|done].
  - intros b e He Hn. assert (points (m_pt m0) b va = false) as Hpf.
    { unfold points. rewrite <- Hpte. fold ipa. rewrite Hv. cbn [andb]. apply Z.eqb_neq. by intros <-. }
    rewrite touched_cons by done. destruct (P7 b e He) as [[Ht Hc]|?]; [by intros ?%Hsub| |by right].
    left. split; [done|]. intros vb Hvb. unfold points. rewrite Hwr by done.
    destruct (decide (vb = va)) as [->|Hne]; [|by apply Hc].
    rewrite page_desc_ipa; [|subst ipa; pose proof (pte_ipa_lt (pte (m_pt m) va));
      pose proof (pte_ipa_range (pte (m_pt m) va)); split; tauto|apply pte_ipa_range|done].
    intros [_ E]%andb_true_iff. apply Z.eqb_eq in E. by subst b.
Qed.

Lemma protect_one_spec m0 prot ds l m va :
  machine_ok m0 → (∀ x, x ∈ va :: ds → linear_at m0 x) → protecting m0 prot ds l m → 0 ≤ prot < 8 → user_va va → va ∉ ds →
  match protect_one prot va (l, m) with
  | Ret (l', m') => protecting m0 prot (va :: ds) l' m'
  | Stop _ => False
  end.
Proof.
  intros Hok0 Hlin Hpg Hp Hva Hnin. unfold protect_one.
  rewrite walk_existing_slot by apply Hpg. cbn [mbind outcome_bind].
  destruct (protecting_desc _ _ _ _ _ va Hok0 Hpg Hp Hva) as [Hv0 _].
  destruct (slot (m_pt m) va) as [a|] eqn:Hsl;
    [|apply protecting_skip; [done|]; rewrite <- Hv0; unfold pte; by rewrite Hsl].
  rewrite (pte_rd _ _ _ Hsl). destruct (pte_valid (pte (m_pt m) va)) eqn:Hv;
    [|by apply protecting_skip]. cbn [negb].
  set (ipa := pte_ipa (pte (m_pt m) va)). set (b := granule_of ipa).
  pose proof (λ l', protecting_step m0 prot ds l l' m va a Hok0 Hpg Hp Hva Hnin Hsl Hv) as Hstep.
  cbv zeta in Hstep. fold ipa b in Hstep.
  destruct (existsb (λ e, e.1 =? b) l) eqn:Hex.
  - apply existsb_exists in Hex as ([b' v'] & Hin%list_elem_of_In & E). cbn in E. bool_to_prop. subst b'.
    apply Hstep; auto. by apply (list_elem_of_fmap_2 fst l (b, v')).
  - assert (protecting m0 prot (va :: ds) ((b, va - granule_off ipa) :: l)
      (with_pt (wr a (page_desc ipa prot) (m_pt m)) m)) as Hadd.
    { apply Hstep.
      - left.
      - intros b' Hb'. by right.
      - intros b' v' [[= -> ->]|Hin]%elem_of_cons; auto. }
    apply (protecting_perm _ _ _ _ (l ++ [(b, va - granule_off ipa)])) in Hadd;
      [|apply Permutation_cons_append].
    destruct (Nat.eqb (length l) NR_BLOCKS); [|done].
    apply (reprotect_blocks_spec m0 prot _ l) in Hadd; [|done..].
    by destruct (reprotect_blocks l _) as [m2|w].
Qed.

Lemma protect_loop m0 prot gaddr ls ds l m :
  machine_ok m0 → (∀ va, va ∈ ds → linear_at m0 va) → 0 ≤ prot < 8 → protecting m0 prot ds l m → NoDup ls →
  (∀ off, off ∈ ls → user_va (gaddr + off) ∧ (gaddr + off ∉ ds) ∧ linear_at m0 (gaddr + off)) →
  match for_each (λ off, protect_one prot (gaddr + off)) ls (l, m) with
  | Ret (l', m') => protecting m0 prot (reverse (Z.add gaddr <$> ls) ++ ds) l' m'
  | Stop _ => False
  end.
Proof.
  intros Hok0 Hlin Hp. revert ds l m Hlin. induction ls as [|off ls IH]; intros ds l m Hlin Hu Hnd Hls; [done|].
  apply NoDup_cons in Hnd as [Hnin Hnd]. destruct (Hls off) as (Hva & Hds & Hla); [left|].
  assert (∀ va, va ∈ (gaddr + off) :: ds → linear_at m0 va) as Hlin' by (intros x [->|?]%elem_of_cons; auto).
  cbn [for_each]. pose proof (protect_one_spec m0 prot ds l m _ Hok0 Hlin' Hu Hp Hva Hds) as Hone.
  destruct (protect_one prot (gaddr + off) (l, m)) as [[l1 m1]|w]; [|done]. cbn [mbind outcome_bind].
  specialize (IH ((gaddr + off) :: ds) l1 m1 Hlin' Hone Hnd). rewrite fmap_cons, reverse_cons, <- app_assoc.
  apply IH. intros o Ho. destruct (Hls o) as (? & Hn & ?); [by right|]. split; [done|]. split; [|done].
  apply not_elem_of_cons. split; [|done]. intros E. apply Hnin. by replace off with o by lia.
Qed.

Lemma protecting_start m prot : machine_ok m → protecting m prot [] [] m.
Proof.
  intros Hok. split; auto.
  - by intros b v ?%elem_of_nil.
  - intros b e He _. right. split; [|by rewrite He]. by intros (x & ?%elem_of_nil & _).
Qed.

(** The second stage refuses [va] nothing the first stage grants. *)
Definition allows m (va : Z) : Prop :=
  match xlate m va with Some (_, p, q) => Z.lor q p = q | None => True end.

Lemma protecting_xlate m0 prot ds l m va :
  machine_ok m0 → protecting m0 prot ds l m → 0 ≤ prot < 8 → user_va va →
  (λ '(h, p, q), (h, p)) <$> xlate m va =
  (λ '(h, p, q), (h, if decide (va ∈ ds) then granted prot else p)) <$> xlate m0 va.
Proof.
  intros Hok0 Hpg Hp Hva. destruct (protecting_desc _ _ _ _ _ va Hok0 Hpg Hp Hva) as [Ev Ei].
  unfold xlate. rewrite Ev. destruct (pte_valid (pte (m_pt m0) va)) eqn:Hv; [|done]. rewrite Ei by done.
  pose proof (pg_s2 _ _ _ _ _ Hpg (granule_of (pte_ipa (pte (m_pt m0) va)))) as Hs.
  destruct (s2_map (m_s2 m) !! _) as [e|], (s2_map (m_s2 m0) !! _) as [e0|]; try done.
  injection Hs as Hs. cbn. rewrite Hs. rewrite (pg_pte _ _ _ _ _ Hpg va Hva), Hv.
  case_decide; [by rewrite page_desc_prot|done].
Qed.

Lemma protecting_allows m0 prot ds m va :
  machine_ok m0 → protecting m0 prot ds [] m → 0 ≤ prot < 8 → user_va va →
  (va ∈ ds ∨ allows m0 va) → allows m va.
Proof.
  intros Hok0 Hpg Hp Hva Hor. pose proof (protecting_points _ _ _ _ _ (granule_of (pte_ipa (pte (m_pt m0) va))) va Hok0 Hpg Hp Hva) as Hpt.
  destruct (protecting_desc _ _ _ _ _ va Hok0 Hpg Hp Hva) as [Ev Ei].
  unfold allows, xlate in *. rewrite Ev. destruct (pte_valid (pte (m_pt m0) va)) eqn:Hv; [|done].
  rewrite Ei by done. set (b := granule_of (pte_ipa (pte (m_pt m0) va))) in *.
  assert (points (m_pt m0) b va = true) as Hb by (by apply points_true).
  destruct (s2_map (m_s2 m) !! b) as [e|] eqn:He; [|done]. cbn [mbind option_bind].
  destruct (pg_done _ _ _ _ _ Hpg b e He) as [[Ht Hc]|[Hnt Hq]]; [by intros ?%elem_of_nil| |].
  - apply Hc; [done|]. by rewrite Hpt.
  - assert (va ∉ ds) as Hn by (intros Hin; apply Hnt; by exists va).
    rewrite (pg_pte _ _ _ _ _ Hpg va Hva), decide_False by done.
    destruct (s2_map (m_s2 m0) !! b) as [e0|]; [|done]. injection Hq as <-.
    destruct Hor as [?|Ha]; [done|]. exact Ha.
Qed.

Lemma pt_protect_spec gaddr size prot m :
  machine_ok m → linear m gaddr size → user_range gaddr size → 0 ≤ prot < 8 →
  match pt_protect gaddr size prot m with
  | Ret m' => protecting m prot (reverse (Z.add gaddr <$> counter PAGE size)) [] m'
  | Stop _ => False
  end.
Proof.
  intros Hok Hlin Hu Hp. unfold pt_protect.
  pose proof (λ va Hva, elem_of_range gaddr size va Hu Hva) as Hin.
  pose proof (protect_loop m prot gaddr (counter PAGE size) [] [] m Hok ltac:(by intros va ?%elem_of_nil) Hp
    (protecting_start m prot Hok) (NoDup_counter PAGE size eq_refl)) as Hloop.
  ospecialize (Hloop _).
  { intros off Ho. destruct (range_va gaddr size off Hu Ho) as [Hva Hr]. split; [done|].
    split; [by intros ?%elem_of_nil|by apply Hlin]. }
  destruct (for_each _ _ ([], m)) as [[l m1]|w]; [|done]. cbn [mbind outcome_bind].
  rewrite <- (app_nil_r l) in Hloop. rewrite app_nil_r in Hloop at 1. apply reprotect_blocks_spec in Hloop; [|done| |done].
  - by destruct (reprotect_blocks l m1) as [m'|w].
  - intros va. rewrite elem_of_reverse, list_elem_of_fmap. intros (off & -> & Ho).
    destruct (range_va gaddr size off Hu Ho). by apply Hlin.
Qed.

(** Changing the permissions of a range whose own blocks are laid out linearly.
    No page moves; the pages of the range are granted exactly the new
    permission, every other page what it had; the second stage refuses nothing
    the first grants to any page of the range, nor to any page outside it that
    was not refused before - in particular to the neighbours inside a block
    that is only partly in the range. The call returns. *)
Theorem pt_protect_applies gaddr size prot m :
  machine_ok m → linear m gaddr size → user_range gaddr size → 0 ≤ prot < 8 →
  match pt_protect gaddr size prot m with
  | Ret m' => machine_ok m' ∧ linear m' gaddr size ∧ m_host m' = m_host m ∧ m_arena m' = m_arena m ∧
      (∀ va, user_va va → in_range gaddr size va →
         (λ '(h, p, q), (h, p)) <$> xlate m' va = (λ '(h, p, q), (h, granted prot)) <$> xlate m va) ∧
      (∀ va, user_va va → ¬ in_range gaddr size va →
         (λ '(h, p, q), (h, p)) <$> xlate m' va = (λ '(h, p, q), (h, p)) <$> xlate m va) ∧
      (∀ va, user_va va → in_range gaddr size va ∨ allows m va → allows m' va)
  | Stop _ => False
  end.
Proof.
  intros Hok Hlin Hu Hp. pose proof (pt_protect_spec gaddr size prot m Hok Hlin Hu Hp) as Hs.
  destruct (pt_protect gaddr size prot m) as [m'|w]; [|done].
  pose proof (λ va Hva, elem_of_range gaddr size va Hu Hva) as Hin.
  split; [apply Hs|]. split; [intros va Hva Hr; eapply protecting_linear; eauto|].
  do 2 (split; [apply Hs|]). split; [|split].
  - intros va Hva Hr. rewrite (protecting_xlate _ _ _ _ _ va Hok Hs Hp Hva).
    destruct (decide (va ∈ _)) as [_|Hn]; [done|]. by apply Hin in Hr.
  - intros va Hva Hr. rewrite (protecting_xlate _ _ _ _ _ va Hok Hs Hp Hva).
    destruct (decide (va ∈ _)) as [Hn|_]; [by apply Hin in Hn|done].
  - intros va Hva Hor. eapply protecting_allows; [done..|]. by rewrite Hin.
Qed.

(** ** Starting *)

(** The tables as pt_init makes them: one, empty. *)
Lemma empty_tables p e ipa :
  handed p e → e ≠ 0 → let p' := set_l1 e ipa (zero_page e p) in
  tree_ok p' ∧ ∀ va, pte p' va = 0.
Proof.
  intros Hh Hn p'.
  assert (∀ i, in_table i → rd p' (l1_entries p' + 8 * i) = 0) as Hz.
  { intros i Hi. change (rd p' (l1_entries p' + 8 * i)) with (rd (zero_page e p) (e + 8 * i)).
    rewrite rd_zero_page, decide_True; [done|]. unfold in_table, NR_PAGE_ENTRY in Hi. change PAGE with 4096. lia. }
  assert (∀ i, in_table i → child p' (l1_entries p' + 8 * i) = None) as Hc.
  { intros i Hi. unfold child. by rewrite Hz. }
  assert (∀ k, key_ok k → k ≠ K1 → table p' k = None) as Ht.
  { intros [|i|i j] Hk Hk1; [done|by apply Hc|]. cbn [table]. by rewrite Hc by apply Hk. }
  split.
  - split; [done|..].
    + intros k a Hk Ha. destruct (decide (k = K1)) as [->|Hk1]; [|by rewrite Ht in Ha].
      injection Ha as <-. exact Hh.
    + intros k k' a Hk Hk' Ha Ha'. destruct (decide (k = K1)) as [->|Hk1]; [|by rewrite Ht in Ha].
      destruct (decide (k' = K1)) as [->|Hk1']; [done|]. by rewrite Ht in Ha'.
    + intros i Hi. by rewrite Hz.
    + intros i j t Hi Hj Hk. rewrite Ht in Hk; done.
  - intros va. unfold pte, slot. rewrite Ht; [done| |done]. split; auto with nabi.
Qed.

Lemma pt_init_spec bits m :
  arena_wf (m_arena m) (m_host m) → s2_ok (m_s2 m) → s2_map (m_s2 m) = ∅ →
  hv_limit (s2_vm (m_s2 m)) ≤ 2^48 → room 1 (with_pt pt_boot m) →
  match pt_init bits m with
  | Ret m' => machine_ok m' ∧ (∀ va, pte (m_pt m') va = 0) ∧ kept_host m m' ∧
      ∀ j, room (1 + j) (with_pt pt_boot m) → room j m'
  | Stop w => w = NoMemory
  end.
Proof.
  intros Ha Hs Hemp Hlim Hroom. unfold pt_init, alloc_table. set (p := set_cur_chunk no_chunk _).
  assert (base_ok (with_pt p m)) as Hb.
  { split; cbn [m_pt m_s2 m_arena m_host with_pt]; rewrite ?Hemp; auto; try done.
    - split; try done; [by intros c ?%elem_of_nil|by intros c c' ?%elem_of_nil|by left].
    - by intros c ?%elem_of_nil. }
  pose proof (alloc_guest_page_spec (with_pt p m) Hb Hroom) as Hal.
  destruct (alloc_guest_page (with_pt p m)) as [[[e ipa] m1]|w]; [|done]. cbn [mbind outcome_bind].
  destruct Hal as [F1 F2 F3 F4 F5 F6 F7 F8 F9].
  destruct (handed_page _ _ (mo_chunks _ F1) F5) as [_ He0].
  destruct (empty_tables (m_pt m1) e ipa F5 ltac:(lia)) as [Htr Hpte].
  split; [|split; [done|split; [apply (mr_host _ _ _ F3)|]]].
  - destruct F1 as [B1 B2 B3 B4 B5 B6 B7 B8].
    split; [split; auto; by destruct B7|by destruct Htr|..]; cbn [m_pt m_s2 with_pt].
    + intros va _ Hv. change (pte_valid (pte (set_l1 e ipa (zero_page e (m_pt m1))) va) = true) in Hv.
      by rewrite Hpte in Hv.
    + intros b e' He Hn. exfalso. apply (mr_new _ _ _ F3 b e' He); [|done].
      cbn [m_s2 with_pt]. by rewrite Hemp.
  - intros j Hj. apply (mr_room _ _ _ F3 j Hj).
Qed.

End Machine.

(** * A concrete machine *)

(** Fresh tables over an arena with two blocks in use. *)
Definition demo_boot : machine toy toy_vm := mk_machine pt_boot (s2_boot toy_vm_boot) demo2.1 demo2.2.
Definition demo_m : machine toy toy_vm := ret_or demo_boot (pt_init 40 demo_boot).

(** The host address of the arena's first block. *)
Definition demo_haddr : Z := match arena_spans demo2.1 with s :: _ => sp_addr s | [] => 0 end.

Definition demo_mapped : machine toy toy_vm := ret_or demo_m (vmm_mmap 0x400000 0x1000 3 demo_haddr demo_m).

Lemma demo_m_ok : machine_ok demo_m ∧ (∀ va, pte (m_pt demo_m) va = 0) ∧ room 100 demo_m.
Proof.
  assert (room 101 (with_pt pt_boot demo_boot)) as Hroom by (split; vm_compute; congruence).
  assert (is_ret (pt_init 40 demo_boot) = true) as Hr by (vm_compute; reflexivity).
  pose proof (pt_init_spec 40 demo_boot demo2_wf (s2_boot_ok toy_vm_boot (λ _, eq_refl)) eq_refl
    ltac:(vm_compute; congruence) (room_le 1 101 _ ltac:(lia) Hroom)) as Hi.
  unfold demo_m. destruct (pt_init 40 demo_boot) as [m|w]; [|discriminate Hr]. cbn [ret_or].
  destruct Hi as (H1 & H2 & _ & H3). split; [exact H1|]. split; [exact H2|]. apply (H3 100 Hroom).
Qed.

Lemma demo_range n : 0 ≤ n ≤ 0x10000 → page_aligned n → user_range 0x400000 n.
Proof. intros Hn Ha. split_and!; done || lia. Qed.

Lemma demo_backed : host_backed demo_m demo_haddr 0x1000.
Proof.
  intros off Ho. assert (off = 0) as ->.
  { apply elem_of_counter in Ho as [Hm Hr]; [|done..]. change PAGE with 4096 in *. lia_mod. }
  vm_compute. congruence.
Qed.

(** What the lemmas below use of the concrete machine, so that nothing else
    of it is ever unfolded. *)
Definition demo_facts (m : machine toy toy_vm) (h : Z) : Prop :=
  is_ret (vmm_mmap 0x400000 0x1000 3 h m) = true ∧ page_aligned h ∧ machine_ok m ∧
  (∀ va, pte (m_pt m) va = 0) ∧ room (3 * pages 0x1000) m ∧ host_backed m h 0x1000.

Lemma demo_facts_hold : demo_facts demo_m demo_haddr.
Proof.
  split; [vm_compute; reflexivity|]. split; [vm_compute; reflexivity|].
  pose proof demo_m_ok as (Hok & Hp & Hroom). split; [exact Hok|]. split; [exact Hp|].
  split; [|exact demo_backed]. change (3 * pages 0x1000) with 3. apply (room_le 3 100); [lia|exact Hroom].
Qed.

Lemma demo_va : user_va 0x400000 ∧ in_range 0x400000 0x1000 0x400000.
Proof. done. Qed.

Lemma vmm_mmap_translates_witness :
  match vmm_mmap 0x400000 0x1000 3 demo_haddr demo_m with
  | Ret m' => machine_ok m' ∧ maps_to m' 0x400000 demo_haddr 3
  | Stop _ => False
  end.
Proof.
  pose proof demo_facts_hold as Hf. revert Hf. generalize demo_m demo_haddr. intros m h (Hr & Ha & Hok & _ & Hroom & Hb).
  pose proof (vmm_mmap_translates 0x400000 0x1000 3 h m Hok (demo_range 0x1000 ltac:(lia) eq_refl) Ha
    ltac:(lia) Hroom Hb) as Hm.
  destruct (vmm_mmap _ _ _ _ _) as [m'|w]; [|discriminate Hr]. destruct Hm as (Hok' & _ & Hin & _).
  split; [exact Hok'|]. rewrite <- (Z.add_0_r h). apply (Hin 0x400000); apply demo_va.
Defined.

(** The one page mapped, and no other. *)
Lemma demo_mapped_ok :
  machine_ok demo_mapped ∧ maps_to demo_mapped 0x400000 demo_haddr 3 ∧ linear demo_mapped 0x400000 0x1000 ∧
  pte_valid (pte (m_pt demo_mapped) 0x400000) = true.
Proof.
  unfold demo_mapped. pose proof demo_facts_hold as Hf. revert Hf.
  generalize demo_m demo_haddr. intros m h (Hr & Ha & Hok & Hz & Hroom & Hb).
  pose proof (vmm_mmap_spec 0x400000 0x1000 3 h m Hok (demo_range 0x1000 ltac:(lia) eq_refl) Ha
    ltac:(lia) Hroom Hb) as Hm.
  destruct (vmm_mmap _ _ _ _ _) as [m'|w]; [|discriminate Hr]. cbn [ret_or].
  destruct Hm as (Hok' & _ & _ & Hin & Hout & _).
  pose proof (Hin 0x400000 (proj1 demo_va) (proj2 demo_va)) as Hmt. rewrite Z.add_0_r in Hmt.
  assert (∀ va, user_va va → pte_valid (pte (m_pt m') va) = true → va = 0x400000) as Hone.
  { intros va Hva Hv. destruct (decide (in_range 0x400000 0x1000 va)) as [Hi|Hi].
    - destruct Hva as [Hp _]. unfold in_range, page_aligned in *. change PAGE with 4096 in *. lia_mod.
    - specialize (Hout va Hva Hi). unfold stays, xlate in Hout. rewrite Hz in Hout. cbn in Hout.
      rewrite Hv in Hout. destruct (mo_desc _ Hok' va Hva Hv) as [e He]. by rewrite He in Hout. }
  split; [exact Hok'|]. split; [exact Hmt|]. split.
  - intros va Hva _ vb Hvb Hv Hw _. by rewrite (Hone va Hva Hv), (Hone vb Hvb Hw).
  - destruct Hmt as (q & Hx & _). unfold xlate in Hx. by destruct (pte_valid (pte (m_pt m') 0x400000)).
Qed.

Lemma demo_unmap_facts :
  guest_backed demo_mapped 0x400000 0x1000 ∧ is_ret (vmm_munmap 0x400000 0x1000 demo_mapped) = true ∧
  is_ret (pt_protect 0x400000 0x1000 1 demo_mapped) = true.
Proof.
  split; [|split; vm_compute; reflexivity].
  intros va [Hp _] Hi _. assert (va = 0x400000) as ->.
  { unfold in_range, page_aligned in *. change PAGE with 4096 in *. lia_mod. }
  vm_compute. reflexivity.
Qed.

Lemma vmm_munmap_exact_witness :
  match vmm_munmap 0x400000 0x1000 demo_mapped with
  | Ret m' => xlate demo_mapped 0x400000 ≠ None ∧ xlate m' 0x400000 = None
  | Stop _ => False
  end.
Proof.
  pose proof demo_mapped_ok as Hf. pose proof demo_unmap_facts as Hg. revert Hf Hg.
  generalize demo_mapped demo_haddr. intros m h (Hok & (q & Hx & _) & _) (Hb & Hr & _).
  pose proof (vmm_munmap_exact 0x400000 0x1000 m Hok (demo_range 0x1000 ltac:(lia) eq_refl) Hb) as Hm.
  destruct (vmm_munmap 0x400000 0x1000 m) as [m'|w]; [|discriminate Hr].
  destruct Hm as (_ & _ & _ & Hin & _). split; [rewrite Hx; discriminate|]. apply Hin; apply demo_va.
Defined.

Lemma pt_protect_applies_witness :
  match pt_protect 0x400000 0x1000 1 demo_mapped with
  | Ret m' => maps_to m' 0x400000 demo_haddr 1
  | Stop _ => False
  end.
Proof.
  pose proof demo_mapped_ok as Hf. pose proof demo_unmap_facts as Hg. revert Hf Hg.
  generalize demo_mapped demo_haddr. intros m h (Hok & (q & Hx & _) & Hl & _) (_ & _ & Hr).
  pose proof (pt_protect_applies 0x400000 0x1000 1 m Hok Hl (demo_range 0x1000 ltac:(lia) eq_refl) ltac:(lia)) as Hm.
  destruct (pt_protect 0x400000 0x1000 1 m) as [m'|w]; [|discriminate Hr].
  destruct Hm as (_ & _ & _ & _ & Hin & _ & Hal). destruct demo_va as [Hva Hi].
  specialize (Hin _ Hva Hi). specialize (Hal _ Hva (or_introl Hi)). rewrite Hx in Hin. unfold allows in Hal.
  destruct (xlate m' 0x400000) as [[[h' p'] q']|] eqn:E; [|discriminate Hin].
  injection Hin as -> ->. exists q'. split; [exact E|exact Hal].
Defined.
