(* ===== verification/Seccomp.v ===== *)
(** src/proc/seccomp.c: the classic-BPF verifier and interpreter, the filter
    chain, the system calls that grow it and the image that carries it across
    a fork. *)

From S2P Require Import Prelude.

(** * Constants *)

Definition SECCOMP_SET_MODE_STRICT := 0.
Definition SECCOMP_SET_MODE_FILTER := 1.
Definition SECCOMP_GET_ACTION_AVAIL := 2.
Definition SECCOMP_GET_NOTIF_SIZES := 3.

Definition SECCOMP_FILTER_FLAG_NEW_LISTENER := 0x8.
(** TSYNC | LOG | SPEC_ALLOW | NEW_LISTENER | TSYNC_ESRCH | WAIT_KILLABLE_RECV. *)
Definition SECCOMP_FILTER_FLAGS := 0x3f.

Definition SECCOMP_RET_KILL_PROCESS := 0x80000000.
Definition SECCOMP_RET_KILL_THREAD := 0x00000000.
Definition SECCOMP_RET_TRAP := 0x00030000.
Definition SECCOMP_RET_ERRNO := 0x00050000.
Definition SECCOMP_RET_USER_NOTIF := 0x7fc00000.
Definition SECCOMP_RET_TRACE := 0x7ff00000.
Definition SECCOMP_RET_LOG := 0x7ffc0000.
Definition SECCOMP_RET_ALLOW := 0x7fff0000.
Definition SECCOMP_RET_ACTION_FULL := 0xffff0000.
Definition SECCOMP_RET_DATA := 0x0000ffff.

Definition SECCOMP_MODE_DISABLED := 0.
Definition SECCOMP_MODE_STRICT := 1.
Definition SECCOMP_MODE_FILTER := 2.

Definition SECCOMP_AUDIT_ARCH := 0xc00000b7.
Definition BPF_MAXINSNS := 4096.
Definition BPF_MEMWORDS := 16.

Definition BPF_CLASS (c : Z) := Z.land c 0x07.
Definition BPF_LD := 0x00.
Definition BPF_LDX := 0x01.
Definition BPF_ST := 0x02.
Definition BPF_STX := 0x03.
Definition BPF_ALU := 0x04.
Definition BPF_JMP := 0x05.
Definition BPF_RET := 0x06.
Definition BPF_MISC := 0x07.

Definition BPF_SIZE (c : Z) := Z.land c 0x18.
Definition BPF_W := 0x00.
Definition BPF_MODE (c : Z) := Z.land c 0xe0.
Definition BPF_IMM := 0x00.
Definition BPF_ABS := 0x20.
Definition BPF_MEM := 0x60.
Definition BPF_LEN := 0x80.

Definition BPF_OP (c : Z) := Z.land c 0xf0.
Definition BPF_ADD := 0x00.
Definition BPF_SUB := 0x10.
Definition BPF_MUL := 0x20.
Definition BPF_DIV := 0x30.
Definition BPF_OR := 0x40.
Definition BPF_AND := 0x50.
Definition BPF_LSH := 0x60.
Definition BPF_RSH := 0x70.
Definition BPF_NEG := 0x80.
Definition BPF_MOD := 0x90.
Definition BPF_XOR := 0xa0.

Definition BPF_JA := 0x00.
Definition BPF_JEQ := 0x10.
Definition BPF_JGT := 0x20.
Definition BPF_JGE := 0x30.
Definition BPF_JSET := 0x40.

Definition BPF_SRC (c : Z) := Z.land c 0x08.
Definition BPF_K := 0x00.
Definition BPF_X := 0x08.
Definition BPF_RVAL (c : Z) := Z.land c 0x18.
Definition BPF_A := 0x10.

(** The aarch64 numbers the strict filter names (include/syscall_arm64.h). *)
Definition LSYS_read := 63.
Definition LSYS_write := 64.
Definition LSYS_exit := 93.
Definition LSYS_rt_sigreturn := 139.

(** * Data *)

Record sock_filter := mk_insn { code : Z; jt : Z; jf : Z; kf : Z }.

#[global] Instance sock_filter_eq_dec : EqDecision sock_filter.
Proof. solve_decision. Defined.

(** The field widths of [struct sock_filter]. *)
Definition insn_wf (i : sock_filter) : Prop :=
  0 ≤ code i < 2^16 ∧ 0 ≤ jt i < 2^8 ∧ 0 ≤ jf i < 2^8 ∧ 0 ≤ kf i < 2^32.

Record seccomp_data := mk_data {
  nr : Z; arch : Z; instruction_pointer : Z; args : list Z }.

(** [sizeof(struct seccomp_data)]. *)
Definition sizeof_seccomp_data := 64.

(** The memory image of the structure the filters read. *)
Definition data_image (d : seccomp_data) : list Z :=
  le_store 4 (nr d) ++ le_store 4 (arch d) ++ le_store 8 (instruction_pointer d)
    ++ mjoin (le_store 8 <$> args d).

(** * The verifier *)

(** One instruction of [bpf_verify]'s loop; [pc + 1 + off] and [k + 4] are
    [uint32_t] sums, the conditional targets are [int] sums. *)
Definition insn_ok (len pc : Z) (i : sock_filter) : bool :=
  let c := BPF_CLASS (code i) in
  if c =? BPF_LD then
    if negb (BPF_SIZE (code i) =? BPF_W) then false else
    let m := BPF_MODE (code i) in
    if (m =? BPF_IMM) || (m =? BPF_LEN) then true
    else if m =? BPF_ABS then
      negb (has (kf i) 3 || (u32 (kf i + 4) >? sizeof_seccomp_data))
    else if m =? BPF_MEM then negb (kf i >=? BPF_MEMWORDS)
    else false
  else if c =? BPF_LDX then
    if negb (BPF_SIZE (code i) =? BPF_W) then false else
    let m := BPF_MODE (code i) in
    if m =? BPF_MEM then negb (kf i >=? BPF_MEMWORDS)
    else negb (negb (m =? BPF_IMM) && negb (m =? BPF_LEN))
  else if (c =? BPF_ST) || (c =? BPF_STX) then negb (kf i >=? BPF_MEMWORDS)
  else if c =? BPF_ALU then
    let o := BPF_OP (code i) in
    if (o =? BPF_ADD) || (o =? BPF_SUB) || (o =? BPF_MUL) || (o =? BPF_OR)
       || (o =? BPF_AND) || (o =? BPF_LSH) || (o =? BPF_RSH) || (o =? BPF_NEG)
       || (o =? BPF_XOR) then true
    else if (o =? BPF_DIV) || (o =? BPF_MOD) then
      negb ((BPF_SRC (code i) =? BPF_K) && (kf i =? 0))
    else false
  else if c =? BPF_JMP then
    let o := BPF_OP (code i) in
    if o =? BPF_JA then
      negb ((u32 (pc + 1 + kf i) >=? len) || (u32 (pc + 1 + kf i) <? pc))
    else if (o =? BPF_JEQ) || (o =? BPF_JGT) || (o =? BPF_JGE) || (o =? BPF_JSET) then
      negb ((pc + 1 + jt i >=? len) || (pc + 1 + jf i >=? len))
    else false
  else if c =? BPF_RET then
    negb (negb (BPF_RVAL (code i) =? BPF_K) && negb (BPF_RVAL (code i) =? BPF_A))
  else true.

Fixpoint insns_ok (len pc : Z) (f : list sock_filter) : bool :=
  match f with
  | [] => true
  | i :: f => insn_ok len pc i && insns_ok len (pc + 1) f
  end.

Definition bpf_verify (f : list sock_filter) : bool :=
  let len := Z.of_nat (length f) in
  if (len =? 0) || (len >? BPF_MAXINSNS) then false
  else insns_ok len 0 f &&
       match last f with
       | Some i => BPF_CLASS (code i) =? BPF_RET
       | None => false
       end.

(** * The interpreter *)

Record bpf_state := mk_bpf { pc : Z; acc : Z; idx : Z; scratch : list Z }.

Definition bpf_init : bpf_state :=
  {| pc := 0; acc := 0; idx := 0; scratch := replicate 16 0 |}.

(** [Wild] is a memory access outside the object it indexes, which C leaves
    undefined. *)
Inductive bpf_next := Next (s : bpf_state) | Return (v : Z) | Wild.

Definition set_acc (v : Z) (s : bpf_state) : bpf_state :=
  {| pc := pc s; acc := v; idx := idx s; scratch := scratch s |}.
Definition set_idx (v : Z) (s : bpf_state) : bpf_state :=
  {| pc := pc s; acc := acc s; idx := v; scratch := scratch s |}.
Definition set_scratch (m : list Z) (s : bpf_state) : bpf_state :=
  {| pc := pc s; acc := acc s; idx := idx s; scratch := m |}.
(** [pc += by], then the loop's [pc++], both on [uint16_t]. *)
Definition advance (by_ : Z) (s : bpf_state) : bpf_state :=
  {| pc := u16 (u16 (pc s + by_) + 1); acc := acc s; idx := idx s; scratch := scratch s |}.

(** [memcpy(&A, base + k, 4)]. *)
Definition load_word (img : list Z) (k : Z) : option Z :=
  if (0 <=? k) && (k + 4 <=? Z.of_nat (length img))
  then Some (le_load (take 4 (drop (Z.to_nat k) img))) else None.

(** [mem[k]] and [mem[k] = v]. *)
Definition read_scratch (s : bpf_state) (k : Z) : option Z := scratch s !! Z.to_nat k.
Definition write_scratch (s : bpf_state) (k v : Z) : bpf_next :=
  if k <? Z.of_nat (length (scratch s))
  then Next (advance 0 (set_scratch (<[Z.to_nat k := v]> (scratch s)) s)) else Wild.

(** The ALU switch; [None] is the division by zero that returns
    [SECCOMP_RET_KILL_PROCESS]. *)
Definition alu (o a v : Z) : option Z :=
  if o =? BPF_ADD then Some (u32 (a + v))
  else if o =? BPF_SUB then Some (u32 (a - v))
  else if o =? BPF_MUL then Some (u32 (a * v))
  else if o =? BPF_DIV then if v =? 0 then None else Some (a / v)
  else if o =? BPF_MOD then if v =? 0 then None else Some (a mod v)
  else if o =? BPF_OR then Some (Z.lor a v)
  else if o =? BPF_AND then Some (Z.land a v)
  else if o =? BPF_LSH then Some (if v <? 32 then u32 (Z.shiftl a v) else 0)
  else if o =? BPF_RSH then Some (if v <? 32 then Z.shiftr a v else 0)
  else if o =? BPF_XOR then Some (Z.lxor a v)
  else if o =? BPF_NEG then Some (u32 (- a))
  else Some a.

Definition jump_taken (o a v : Z) : bool :=
  if o =? BPF_JEQ then a =? v
  else if o =? BPF_JGT then a >? v
  else if o =? BPF_JGE then a >=? v
  else has a v.

(** One iteration of [bpf_run]'s loop, the [pc++] included. *)
Definition bpf_step (img : list Z) (i : sock_filter) (s : bpf_state) : bpf_next :=
  let c := BPF_CLASS (code i) in
  let k := kf i in
  let src := if BPF_SRC (code i) =? BPF_X then idx s else k in
  let m := BPF_MODE (code i) in
  let o := BPF_OP (code i) in
  if c =? BPF_LD then
    if m =? BPF_IMM then Next (advance 0 (set_acc k s))
    else if m =? BPF_LEN then Next (advance 0 (set_acc sizeof_seccomp_data s))
    else if m =? BPF_MEM then
      match read_scratch s k with Some v => Next (advance 0 (set_acc v s)) | None => Wild end
    else
      match load_word img k with Some v => Next (advance 0 (set_acc v s)) | None => Wild end
  else if c =? BPF_LDX then
    if m =? BPF_IMM then Next (advance 0 (set_idx k s))
    else if m =? BPF_LEN then Next (advance 0 (set_idx sizeof_seccomp_data s))
    else
      match read_scratch s k with Some v => Next (advance 0 (set_idx v s)) | None => Wild end
  else if c =? BPF_ST then write_scratch s k (acc s)
  else if c =? BPF_STX then write_scratch s k (idx s)
  else if c =? BPF_ALU then
    match alu o (acc s) src with
    | Some a => Next (advance 0 (set_acc a s))
    | None => Return SECCOMP_RET_KILL_PROCESS
    end
  else if c =? BPF_JMP then
    if o =? BPF_JA then Next (advance k s)
    else Next (advance (if jump_taken o (acc s) src then jt i else jf i) s)
  else if c =? BPF_RET then
    Return (if BPF_RVAL (code i) =? BPF_A then acc s else k)
  else Next (advance 0 (if has (code i) 0x80 then set_acc (idx s) s else set_idx (acc s) s)).

Inductive bpf_result := Value (v : Z) | WildAccess.

(** The loop; [None] means [fuel] iterations were not enough. *)
Fixpoint bpf_loop (fuel : nat) (f : list sock_filter) (img : list Z) (s : bpf_state)
  : option bpf_result :=
  if pc s <? Z.of_nat (length f) then
    match fuel with
    | O => None
    | S fuel =>
        match f !! Z.to_nat (pc s) with
        | None => Some WildAccess
        | Some i =>
            match bpf_step img i s with
            | Next s' => bpf_loop fuel f img s'
            | Return v => Some (Value v)
            | Wild => Some WildAccess
            end
        end
    end
  else Some (Value SECCOMP_RET_KILL_PROCESS).

Definition bpf_run (fuel : nat) (f : list sock_filter) (d : seccomp_data) : option bpf_result :=
  bpf_loop fuel f (data_image d) bpf_init.

(** * The filter chain *)

(** [filters] is newest first; [euid] is the [proc.cred.euid] the install rule
    reads. *)
Record seccomp_state := mk_seccomp {
  filters : list (list sock_filter);
  seccomp_mode : Z;
  no_new_privs : bool }.

Definition seccomp_boot : seccomp_state :=
  {| filters := []; seccomp_mode := SECCOMP_MODE_DISABLED; no_new_privs := false |}.

Definition seccomp_no_new_privs_get (st : seccomp_state) : Z :=
  if no_new_privs st then 1 else 0.

Definition seccomp_no_new_privs_set (st : seccomp_state) : Z * seccomp_state :=
  (0, {| filters := filters st; seccomp_mode := seccomp_mode st; no_new_privs := true |}).

Definition seccomp_mode_get (st : seccomp_state) : Z := seccomp_mode st.

(** [f->next = filters; filters = f; seccomp_mode = mode]. *)
Definition push_filter (f : list sock_filter) (mode : Z) (st : seccomp_state) : seccomp_state :=
  {| filters := f :: filters st; seccomp_mode := mode; no_new_privs := no_new_privs st |}.

(** The memory image of one instruction. *)
Definition insn_image (i : sock_filter) : list Z :=
  le_store 2 (code i) ++ le_store 1 (jt i) ++ le_store 1 (jf i) ++ le_store 4 (kf i).

Definition insn_of_image (l : list Z) : sock_filter :=
  {| code := le_load (take 2 l); jt := le_load (take 1 (drop 2 l));
     jf := le_load (take 1 (drop 3 l)); kf := le_load (take 4 (drop 4 l)) |}.

(** [n] consecutive instructions at the head of an image. *)
Fixpoint insns_of_image (n : nat) (l : list Z) : list sock_filter :=
  match n with
  | O => []
  | S n => insn_of_image (take 8 l) :: insns_of_image n (drop 8 l)
  end.

Definition strict_prog : list sock_filter := [
  mk_insn (Z.lor (Z.lor BPF_LD BPF_W) BPF_ABS) 0 0 0;
  mk_insn (Z.lor (Z.lor BPF_JMP BPF_JEQ) BPF_K) 4 0 LSYS_read;
  mk_insn (Z.lor (Z.lor BPF_JMP BPF_JEQ) BPF_K) 3 0 LSYS_write;
  mk_insn (Z.lor (Z.lor BPF_JMP BPF_JEQ) BPF_K) 2 0 LSYS_exit;
  mk_insn (Z.lor (Z.lor BPF_JMP BPF_JEQ) BPF_K) 1 0 LSYS_rt_sigreturn;
  mk_insn (Z.lor BPF_RET BPF_K) 0 0 SECCOMP_RET_KILL_PROCESS;
  mk_insn (Z.lor BPF_RET BPF_K) 0 0 SECCOMP_RET_ALLOW ].

Definition action_is_available (action : Z) : bool :=
  let a := Z.land action SECCOMP_RET_ACTION_FULL in
  (a =? SECCOMP_RET_KILL_PROCESS) || (a =? SECCOMP_RET_KILL_THREAD)
  || (a =? SECCOMP_RET_TRAP) || (a =? SECCOMP_RET_ERRNO)
  || (a =? SECCOMP_RET_LOG) || (a =? SECCOMP_RET_ALLOW).

(** The loop of [seccomp_check] over the chain. *)
Fixpoint chain_action (fuel : nat) (fs : list (list sock_filter)) (d : seccomp_data) (action : Z)
  : option bpf_result :=
  match fs with
  | [] => Some (Value action)
  | f :: fs =>
      match bpf_run fuel f d with
      | Some (Value r) =>
          chain_action fuel fs d
            (if Z.land r SECCOMP_RET_ACTION_FULL <? Z.land action SECCOMP_RET_ACTION_FULL
             then r else action)
      | other => other
      end
  end.

(** What becomes of the call: it runs, or the guest sees [ret] (and a SIGSYS),
    or the process exits. *)
Inductive verdict := Runs | Refused (ret : Z) (sigsys : bool) | Killed (status : Z).

Definition verdict_of (action : Z) : verdict :=
  let a := Z.land action SECCOMP_RET_ACTION_FULL in
  if a =? SECCOMP_RET_ALLOW then Runs
  else if a =? SECCOMP_RET_LOG then Runs
  else if a =? SECCOMP_RET_ERRNO then
    let e := Z.land action SECCOMP_RET_DATA in
    Refused (u64 (- (if e >? 0xfff then 0xfff else e))) false
  else if (a =? SECCOMP_RET_USER_NOTIF) || (a =? SECCOMP_RET_TRACE) then
    Refused (u64 (- ENOSYS)) false
  else if a =? SECCOMP_RET_TRAP then Refused (u64 (- ENOSYS)) true
  else Killed 159.

(** [d.nr] is the [int32_t] reading of the number; [reg_pc] is [VREG_PC]. *)
Definition check_data (nr_ reg_pc : Z) (a : list Z) : seccomp_data :=
  {| nr := u32 nr_; arch := SECCOMP_AUDIT_ARCH; instruction_pointer := reg_pc; args := take 6 a |}.

(** [WildRead] is a filter that read outside [struct seccomp_data]. *)
Inductive check_result := Decided (action : Z) (v : verdict) | WildRead.

Definition seccomp_check (fuel : nat) (st : seccomp_state) (nr_ reg_pc : Z) (a : list Z)
  : option check_result :=
  if seccomp_mode st =? SECCOMP_MODE_DISABLED then Some (Decided SECCOMP_RET_ALLOW Runs)
  else
    match chain_action fuel (filters st) (check_data nr_ reg_pc a) SECCOMP_RET_ALLOW with
    | Some (Value action) => Some (Decided action (verdict_of action))
    | Some WildAccess => Some WildRead
    | None => None
    end.

(** * The system calls *)

Section Calls.
(** Guest memory and the allocator, as the handlers see them:
    [copy_from_user addr n] is the [n] bytes at [addr] or a fault. *)
Context (copy_from_user : Z → nat → option (list Z)) (malloc_ok : nat → bool).

(** [struct l_sock_fprog]: a 16-bit length, padding, a 64-bit pointer. *)
Definition sizeof_sock_fprog : nat := 16.

Definition filter_install (prog_ptr : Z) (st : seccomp_state) : Z * seccomp_state :=
  match copy_from_user prog_ptr sizeof_sock_fprog with
  | None => (- EFAULT, st)
  | Some prog =>
      let len := le_load (take 2 prog) in
      let filter := le_load (take 8 (drop 8 prog)) in
      if (len =? 0) || (len >? BPF_MAXINSNS) then (- EINVAL, st) else
      let bytes := (Z.to_nat len * 8)%nat in
      if negb (malloc_ok (16 + bytes)) then (- ENOMEM, st) else
      match copy_from_user filter bytes with
      | None => (- EFAULT, st)
      | Some img =>
          let insns := insns_of_image (Z.to_nat len) img in
          if negb (bpf_verify insns) then (- EINVAL, st)
          else (0, push_filter insns SECCOMP_MODE_FILTER st)
      end
  end.

Definition strict_install (st : seccomp_state) : Z * seccomp_state :=
  if negb (malloc_ok (16 + length strict_prog * 8)) then (- ENOMEM, st)
  else (0, push_filter strict_prog SECCOMP_MODE_STRICT st).

Definition sys_seccomp (op flags uargs euid : Z) (st : seccomp_state) : Z * seccomp_state :=
  if op =? SECCOMP_SET_MODE_STRICT then
    if negb (flags =? 0) || negb (uargs =? 0) then (- EINVAL, st) else strict_install st
  else if op =? SECCOMP_SET_MODE_FILTER then
    if has flags (Z.lnot SECCOMP_FILTER_FLAGS) then (- EINVAL, st)
    else if has flags SECCOMP_FILTER_FLAG_NEW_LISTENER then (- EOPNOTSUPP, st)
    else if negb (no_new_privs st) && negb (euid =? 0) then (- EACCES, st)
    else filter_install uargs st
  else if op =? SECCOMP_GET_ACTION_AVAIL then
    if negb (flags =? 0) then (- EINVAL, st) else
    match copy_from_user uargs 4 with
    | None => (- EFAULT, st)
    | Some img => (if action_is_available (le_load img) then 0 else - EOPNOTSUPP, st)
    end
  else if op =? SECCOMP_GET_NOTIF_SIZES then (- EOPNOTSUPP, st)
  else (- EINVAL, st).

Definition seccomp_prctl_set (mode prog euid : Z) (st : seccomp_state) : Z * seccomp_state :=
  if mode =? SECCOMP_MODE_STRICT then strict_install st
  else if mode =? SECCOMP_MODE_FILTER then
    if negb (no_new_privs st) && negb (euid =? 0) then (- EACCES, st)
    else filter_install prog st
  else (- EINVAL, st).

(** * Carrying the chain across a fork *)

Definition seccomp_snapshot_size (st : seccomp_state) : Z :=
  foldr (λ f n, n + (4 + Z.of_nat (length f) * 8)) 0 (filters st).

(** The writing loop: oldest first, stopping at the first filter that does not
    fit in what is left of the [len]-byte buffer. *)
Fixpoint snapshot_write (oldest_first : list (list sock_filter)) (used len : Z) : list Z :=
  match oldest_first with
  | [] => []
  | f :: fs =>
      let bytes := Z.of_nat (length f) * 8 in
      if used + 4 + bytes >? len then []
      else le_store 4 (Z.of_nat (length f)) ++ mjoin (insn_image <$> f)
             ++ snapshot_write fs (used + 4 + bytes) len
  end.

(** [None] is the failed [calloc], the [-1] the caller sees. *)
Definition seccomp_snapshot (st : seccomp_state) (len : Z) : option (list Z * Z) :=
  let n := length (filters st) in
  if negb (malloc_ok ((if n =? 0 then 1 else n) * 8)%nat) then None
  else Some (snapshot_write (rev (filters st)) 0 len, seccomp_mode st).

(** The reading loop over what is left of the buffer; every round consumes at
    least four bytes, so [length buf] rounds are enough. *)
Fixpoint restore_loop (fuel : nat) (buf : list Z) (fs : list (list sock_filter))
  : list (list sock_filter) :=
  match fuel with
  | O => fs
  | S fuel =>
      if Z.of_nat (length buf) <? 4 then fs else
      let l := le_load (take 4 buf) in
      let bytes := l * 8 in
      if (l =? 0) || (l >? BPF_MAXINSNS) || (4 + bytes >? Z.of_nat (length buf)) then fs
      else if negb (malloc_ok (16 + Z.to_nat bytes)) then fs
      else restore_loop fuel (drop (4 + Z.to_nat bytes) buf)
             (insns_of_image (Z.to_nat l) (drop 4 buf) :: fs)
  end.

Definition seccomp_restore (buf : list Z) (mode : Z) (st : seccomp_state) : outcome seccomp_state :=
  let fs := restore_loop (S (length buf)) buf [] in
  if negb (mode =? SECCOMP_MODE_DISABLED) && (match fs with [] => true | _ => false end)
  then Stop Panicked
  else Ret {| filters := fs; seccomp_mode := mode; no_new_privs := no_new_privs st |}.
End Calls.

(** * Facts about the verifier and the interpreter *)

(** The two encodings whose 32-bit sum wraps past the verifier's bound. *)
Definition wrapping (i : sock_filter) : bool :=
  ((BPF_CLASS (code i) =? BPF_JMP) && (BPF_OP (code i) =? BPF_JA) && (kf i =? 0xffffffff))
  || ((BPF_CLASS (code i) =? BPF_LD) && (BPF_MODE (code i) =? BPF_ABS) && (kf i =? 0xfffffffc)).

Lemma insns_ok_lookup len p f n i :
  insns_ok len p f = true → f !! n = Some i → insn_ok len (p + Z.of_nat n) i = true.
Proof.
  revert p n; induction f as [|j f IH]; intros p n Hok Hl; [done|].
  simpl in Hok. bool_to_prop. destruct n as [|n]; simplify_eq/=.
  - by rewrite Z.add_0_r.
  - rewrite Nat2Z.inj_succ. replace (p + Z.succ (Z.of_nat n)) with (p + 1 + Z.of_nat n) by lia.
    eauto.
Qed.

Lemma bpf_verify_inv f :
  bpf_verify f = true →
  0 < Z.of_nat (length f) ≤ BPF_MAXINSNS
  ∧ (∀ n i, f !! n = Some i → insn_ok (Z.of_nat (length f)) (Z.of_nat n) i = true)
  ∧ (∀ i, last f = Some i → BPF_CLASS (code i) = BPF_RET).
Proof.
  unfold bpf_verify. intros H. case_match eqn:Hl; [done|].
  bool_to_prop. split; [|split].
  - unfold BPF_MAXINSNS in *. destruct f; simpl in *; lia.
  - intros n i Hn. by apply (insns_ok_lookup _ 0 f n).
  - intros i Hi. rewrite Hi in *. by bool_to_prop.
Qed.

(** An absolute load the verifier accepts is inside the structure, save for
    the one offset that wraps. *)
Lemma abs_load_bound k :
  0 ≤ k < 2^32 → has k 3 = false → u32 (k + 4) ≤ sizeof_seccomp_data →
  k ≤ 60 ∨ k = 0xfffffffc.
Proof.
  intros Hk H3 Hu. unfold has, u32, sizeof_seccomp_data in *.
  apply negb_false_iff, Z.eqb_eq in H3.
  assert (k mod 4 = 0) as Hm.
  { change 4 with (2^2). rewrite <-Z.land_ones by lia. done. }
  destruct (decide (k + 4 < 2^32)).
  - rewrite Z.mod_small in Hu by lia. lia.
  - right. Z.div_mod_to_equations. lia.
Qed.

(** A forward jump the verifier accepts stays in the program and goes forward,
    save for the one offset that wraps. *)
Lemma ja_bound len p k :
  0 ≤ p < len → len ≤ BPF_MAXINSNS → 0 ≤ k < 2^32 →
  u32 (p + 1 + k) < len → p ≤ u32 (p + 1 + k) →
  p + 1 + k < len ∨ k = 0xffffffff.
Proof.
  unfold u32, BPF_MAXINSNS. intros Hp Hlen Hk H1 H2.
  destruct (decide (p + 1 + k < 2^32)).
  - left. rewrite Z.mod_small in H1; lia.
  - right. Z.div_mod_to_equations. lia.
Qed.

Definition bpf_inv (f : list sock_filter) (s : bpf_state) : Prop :=
  0 ≤ pc s < Z.of_nat (length f) ∧ length (scratch s) = 16%nat.

Lemma load_word_Some img k :
  length img = 64%nat → 0 ≤ k ≤ 60 → is_Some (load_word img k).
Proof.
  intros Hl Hk. unfold load_word. rewrite Hl.
  rewrite !(proj2 (Z.leb_le _ _)) by lia. simpl. eauto.
Qed.

Lemma read_scratch_Some s k :
  length (scratch s) = 16%nat → 0 ≤ k < 16 → is_Some (read_scratch s k).
Proof. intros Hl Hk. apply lookup_lt_is_Some. lia. Qed.

Lemma advance_pc s n :
  0 ≤ pc s → 0 ≤ n → pc s + n + 1 < 2^16 → pc (advance n s) = pc s + n + 1.
Proof. intros. simpl. by rewrite !u16_small by (rewrite ?u16_small; lia). Qed.

(** A non-return instruction is not the last one, so the next address is in
    the program. *)
Lemma not_last f s i :
  bpf_verify f = true → bpf_inv f s → f !! Z.to_nat (pc s) = Some i →
  BPF_CLASS (code i) ≠ BPF_RET → pc s + 1 < Z.of_nat (length f).
Proof.
  intros Hv [Hpc _] Hi Hc. destruct (bpf_verify_inv f Hv) as (_ & _ & Hlast).
  destruct (decide (pc s + 1 = Z.of_nat (length f))) as [He|]; [|lia].
  destruct Hc. apply Hlast. rewrite last_lookup, <-Hi. f_equal. lia.
Qed.

(** Split on every test of a step, reading each one as a proposition. *)
Ltac step_cases :=
  repeat (case_match; simplify_eq/=; bool_to_prop; try done).

(** Separate two tests of the same field against distinct constants. *)
Ltac distinct_modes :=
  exfalso; unfold BPF_IMM, BPF_LEN, BPF_MEM, BPF_ABS, BPF_JMP, BPF_LD, BPF_LDX, BPF_ST,
    BPF_STX, BPF_ALU, BPF_RET in *; lia.

Section Progress.
Context (f : list sock_filter) (img : list Z) (s : bpf_state) (i : sock_filter).
Context (Hv : bpf_verify f = true) (Hwf : Forall insn_wf f) (Himg : length img = 64%nat).
Context (Hinv : bpf_inv f s) (Hi : f !! Z.to_nat (pc s) = Some i) (Hw : wrapping i = false).

(** What a step must do: return, or move strictly forward inside the program
    without leaving the structure or the scratch words. *)
Definition progresses (r : bpf_next) : Prop :=
  match r with
  | Return _ => True
  | Wild => False
  | Next s' => bpf_inv f s' ∧ pc s < pc s'
  end.

Lemma insn_facts :
  insn_ok (Z.of_nat (length f)) (pc s) i = true ∧ insn_wf i
  ∧ 0 ≤ pc s < Z.of_nat (length f) ∧ Z.of_nat (length f) ≤ BPF_MAXINSNS.
Proof.
  destruct (bpf_verify_inv f Hv) as (Hlen & Hok & _).
  specialize (Hok _ _ Hi). destruct Hinv as [Hpc _]. rewrite Z2Nat.id in Hok by lia.
  split_and!; try lia; [done|]. by eapply Forall_lookup_1.
Qed.

Lemma advance_progresses s' n :
  length (scratch s') = 16%nat → pc s' = pc s → 0 ≤ n →
  pc s + 1 + n < Z.of_nat (length f) → progresses (Next (advance n s')).
Proof.
  intros Hl Hp Hn Hb. destruct insn_facts as (_ & _ & Hpc & Hlen).
  unfold BPF_MAXINSNS, progresses, bpf_inv in *. rewrite advance_pc by lia. simpl. lia.
Qed.

Lemma write_scratch_progresses k v :
  0 ≤ k < 16 → pc s + 1 < Z.of_nat (length f) → progresses (write_scratch s k v).
Proof.
  intros Hk Hb. destruct Hinv as [Hpc Hs]. unfold write_scratch. rewrite Hs.
  rewrite (proj2 (Z.ltb_lt _ _)) by lia. apply advance_progresses; simpl; try lia.
  by rewrite length_insert.
Qed.

(** The scratch index an accepted access uses. *)
Ltac in_scratch :=
  match goal with H : read_scratch ?s ?k = None |- _ =>
    exfalso; destruct (read_scratch_Some s k); [done|unfold BPF_MEMWORDS in *; lia|congruence]
  end.

Lemma load_progresses : BPF_CLASS (code i) = BPF_LD → progresses (bpf_step img i s).
Proof.
  intros Hc. destruct insn_facts as (Hok & (_ & _ & _ & Hk) & Hpc & _).
  assert (pc s + 1 < Z.of_nat (length f)) by (apply (not_last f s i); [done..|by rewrite Hc]).
  pose proof Hinv as [_ Hscr].
  unfold insn_ok, bpf_step, wrapping in *. rewrite Hc in *. simpl in Hok, Hw |- *.
  step_cases; try (apply advance_progresses; simpl; lia); try distinct_modes; try in_scratch.
  destruct (abs_load_bound (kf i)); [done..| |done].
  destruct (load_word_Some img (kf i)); [done|lia|congruence].
Qed.

Lemma loadx_progresses : BPF_CLASS (code i) = BPF_LDX → progresses (bpf_step img i s).
Proof.
  intros Hc. destruct insn_facts as (Hok & (_ & _ & _ & Hk) & Hpc & _).
  assert (pc s + 1 < Z.of_nat (length f)) by (apply (not_last f s i); [done..|by rewrite Hc]).
  pose proof Hinv as [_ Hscr].
  unfold insn_ok, bpf_step in *. rewrite Hc in *. simpl in Hok |- *.
  step_cases; try (apply advance_progresses; simpl; lia); try distinct_modes; try in_scratch.
Qed.

Lemma store_progresses :
  BPF_CLASS (code i) = BPF_ST ∨ BPF_CLASS (code i) = BPF_STX → progresses (bpf_step img i s).
Proof.
  intros Hc. destruct insn_facts as (Hok & (_ & _ & _ & Hk) & Hpc & _).
  assert (pc s + 1 < Z.of_nat (length f)).
  { apply (not_last f s i); [done..|]. destruct Hc as [-> | ->]; done. }
  unfold insn_ok, bpf_step, BPF_MEMWORDS in *.
  destruct Hc as [Hc|Hc]; rewrite Hc in *; simpl in Hok |- *; bool_to_prop;
    apply write_scratch_progresses; lia.
Qed.

Lemma alu_progresses : BPF_CLASS (code i) = BPF_ALU → progresses (bpf_step img i s).
Proof.
  intros Hc. destruct insn_facts as (_ & _ & Hpc & _). pose proof Hinv as [_ Hscr].
  assert (pc s + 1 < Z.of_nat (length f)) by (apply (not_last f s i); [done..|by rewrite Hc]).
  unfold bpf_step. rewrite Hc. simpl.
  case_match; [apply advance_progresses; simpl; lia|done].
Qed.

Lemma jmp_progresses : BPF_CLASS (code i) = BPF_JMP → progresses (bpf_step img i s).
Proof.
  intros Hc. destruct insn_facts as (Hok & (_ & Hjt & Hjf & Hk) & Hpc & Hlen).
  pose proof Hinv as [_ Hscr].
  unfold insn_ok, bpf_step, wrapping in *. rewrite Hc in *. simpl in Hok, Hw |- *.
  rewrite orb_false_r in Hw.
  destruct (BPF_OP (code i) =? BPF_JA) eqn:Ho; simpl in Hw.
  - bool_to_prop. destruct (ja_bound (Z.of_nat (length f)) (pc s) (kf i)); try lia.
    apply advance_progresses; lia.
  - case_match; [|done]. bool_to_prop. apply advance_progresses; try lia; case_match; lia.
Qed.

Lemma misc_progresses : BPF_CLASS (code i) = BPF_MISC → progresses (bpf_step img i s).
Proof.
  intros Hc. destruct insn_facts as (_ & _ & Hpc & _). pose proof Hinv as [_ Hscr].
  assert (pc s + 1 < Z.of_nat (length f)) by (apply (not_last f s i); [done..|by rewrite Hc]).
  unfold bpf_step. rewrite Hc. simpl.
  apply advance_progresses; [case_match|case_match|..]; simpl; lia.
Qed.

Lemma step_progresses : progresses (bpf_step img i s).
Proof.
  assert (0 ≤ BPF_CLASS (code i) < 8) as Hr.
  { unfold BPF_CLASS. change 7 with (Z.ones 3). rewrite Z.land_ones by lia.
    apply Z.mod_pos_bound. lia. }
  destruct (decide (BPF_CLASS (code i) = BPF_RET)) as [Hc|].
  { unfold bpf_step. rewrite Hc. done. }
  assert (BPF_CLASS (code i) = BPF_LD ∨ BPF_CLASS (code i) = BPF_LDX ∨
    (BPF_CLASS (code i) = BPF_ST ∨ BPF_CLASS (code i) = BPF_STX) ∨
    BPF_CLASS (code i) = BPF_ALU ∨ BPF_CLASS (code i) = BPF_JMP ∨
    BPF_CLASS (code i) = BPF_MISC) as Hcs.
  { unfold BPF_LD, BPF_LDX, BPF_ST, BPF_STX, BPF_ALU, BPF_JMP, BPF_MISC, BPF_RET in *. lia. }
  destruct Hcs as [?|[?|[?|[?|[?|?]]]]];
    auto using load_progresses, loadx_progresses, store_progresses, alu_progresses,
      jmp_progresses, misc_progresses.
Qed.
End Progress.

Lemma bpf_loop_returns f img :
  bpf_verify f = true → Forall insn_wf f → Forall (λ i, wrapping i = false) f →
  length img = 64%nat →
  ∀ fuel s, bpf_inv f s → Z.of_nat (length f) - pc s ≤ Z.of_nat fuel →
  ∃ v, bpf_loop fuel f img s = Some (Value v).
Proof.
  intros Hv Hwf Hnw Himg fuel. induction fuel as [|fuel IH]; intros s Hinv Hf.
  { destruct Hinv. lia. }
  pose proof Hinv as [Hpc _]. simpl. rewrite (proj2 (Z.ltb_lt _ _)) by lia.
  destruct (lookup_lt_is_Some_2 f (Z.to_nat (pc s))) as [i Hi]; [lia|]. rewrite Hi.
  pose proof (step_progresses f img s i Hv Hwf Himg Hinv Hi
                (Forall_lookup_1 _ _ _ _ Hnw Hi)) as Hp.
  unfold progresses in Hp. destruct (bpf_step img i s) as [s'|v|]; [|eauto|done].
  destruct Hp. apply IH; [done|lia].
Qed.

Lemma length_data_image d : length (args d) = 6%nat → length (data_image d) = 64%nat.
Proof.
  unfold data_image. intros Ha.
  destruct (args d) as [|? [|? [|? [|? [|? [|? [|]]]]]]]; simplify_eq/=; done.
Qed.

(** C38: every program the verifier accepts, save for the two wrapping
    encodings, runs to a return value within as many steps as it has
    instructions, reading only the 64 bytes of the call record and the 16
    scratch words. *)
Theorem bpf_verify_sound f d :
  bpf_verify f = true → Forall insn_wf f → Forall (λ i, wrapping i = false) f →
  length (args d) = 6%nat →
  ∃ v, bpf_run (length f) f d = Some (Value v).
Proof.
  intros Hv Hwf Hnw Ha. unfold bpf_run.
  eapply bpf_loop_returns; eauto using length_data_image; simpl; [|lia].
  destruct (bpf_verify_inv f Hv) as (? & _). split; simpl; [lia|done].
Qed.

Lemma bpf_verify_sound_witness :
  ∃ v, bpf_run (length strict_prog) strict_prog
         (mk_data 63 SECCOMP_AUDIT_ARCH 0 [0; 0; 0; 0; 0; 0]) = Some (Value v).
Proof.
  apply (bpf_verify_sound strict_prog).
  - reflexivity.
  - unfold strict_prog. repeat apply Forall_cons_2; try apply Forall_nil_2; by vm_compute.
  - unfold strict_prog. repeat apply Forall_cons_2; try apply Forall_nil_2; reflexivity.
  - reflexivity.
Defined.

(** The verifier accepts an absolute load at offset 0xfffffffc, because
    [k + 4] wraps to zero, and running the program reads four bytes almost
    4GiB past the call record. *)
Theorem bpf_verify_accepts_wild_load d :
  let f := [mk_insn (Z.lor BPF_LD BPF_ABS) 0 0 0xfffffffc; mk_insn BPF_RET 0 0 SECCOMP_RET_ALLOW] in
  bpf_verify f = true ∧ (length (args d) = 6%nat → bpf_run 1 f d = Some WildAccess).
Proof.
  split; [reflexivity|]. intros Ha. unfold bpf_run.
  pose proof (length_data_image d Ha) as Hl. generalize dependent (data_image d).
  intros img Hl. assert (load_word img 0xfffffffc = None) as Hw.
  { unfold load_word. by rewrite Hl. }
  assert (∀ s, bpf_step img (mk_insn (Z.lor BPF_LD BPF_ABS) 0 0 0xfffffffc) s = Wild) as Hs.
  { intros s. change (match load_word img 0xfffffffc with
      Some v => Next (advance 0 (set_acc v s)) | None => Wild end = Wild). by rewrite Hw. }
  cbn [bpf_loop].
  change ([mk_insn (Z.lor BPF_LD BPF_ABS) 0 0 0xfffffffc;
    mk_insn BPF_RET 0 0 SECCOMP_RET_ALLOW] !! Z.to_nat (pc bpf_init))
    with (Some (mk_insn (Z.lor BPF_LD BPF_ABS) 0 0 0xfffffffc)).
  cbv iota. by rewrite Hs.
Qed.

(** The verifier accepts [ja 0xffffffff], whose 32-bit target is the
    instruction itself, and the interpreter never leaves it: no amount of fuel
    ends the run. *)
Theorem bpf_verify_accepts_endless_loop d :
  let f := [mk_insn BPF_JMP 0 0 0xffffffff; mk_insn BPF_RET 0 0 SECCOMP_RET_ALLOW] in
  bpf_verify f = true ∧ ∀ fuel, bpf_run fuel f d = None.
Proof.
  split; [reflexivity|]. intros fuel. unfold bpf_run.
  induction fuel as [|fuel IH]; [reflexivity|exact IH].
Qed.

(** * The chain *)

Definition severity (action : Z) : Z := Z.land action SECCOMP_RET_ACTION_FULL.

(** The actions as seccomp(2) lists them, from the most severe to the least;
    the rest of an answer is its data. *)
Definition severities : list Z :=
  [SECCOMP_RET_KILL_PROCESS; SECCOMP_RET_KILL_THREAD; SECCOMP_RET_TRAP; SECCOMP_RET_ERRNO;
   SECCOMP_RET_USER_NOTIF; SECCOMP_RET_TRACE; SECCOMP_RET_LOG; SECCOMP_RET_ALLOW].

(** The place of an answer in that list, 0 the most severe, 8 for none. *)
Definition rank (v : Z) : nat :=
  default 8%nat (fst <$> list_find (λ a, a = Z.land v 0xffff0000) severities).

(** An action of the list that does not kill the whole process. *)
Definition ordinary (v : Z) : Prop := (0 < rank v < 8)%nat.

(** On ordinary answers the numbers are in the order of the list. *)
Lemma ordinary_severity v :
  ordinary v → ∃ i a, rank v = S i ∧ drop 1 severities !! i = Some a ∧ severity v = a.
Proof.
  unfold ordinary, rank. destruct (list_find _ _) as [[i a]|] eqn:E; cbn; [|lia].
  apply list_find_Some in E as (Hi & Ha & _). destruct i as [|i]; [lia|]. intros _.
  exists i, a. split; [done|]. split; [exact Hi|by symmetry].
Qed.

Lemma rank_severity v w :
  ordinary v → ordinary w → (rank v < rank w)%nat ↔ severity v < severity w.
Proof.
  intros (i & a & -> & Hi & ->)%ordinary_severity (j & b & -> & Hj & ->)%ordinary_severity.
  do 7 (destruct i as [|i]; [injection Hi as <-; do 7 (destruct j as [|j]; [injection Hj as <-; vm_compute; split; (reflexivity || discriminate || lia || (intros ?; lia))|]); done|]).
  done.
Qed.

(** The first of the most severe. *)
Definition first_worst (l : list Z) (r : Z) : Prop := ∃ pre post,
  l = pre ++ r :: post ∧ (∀ v, v ∈ pre → (rank r < rank v)%nat) ∧ (∀ v, v ∈ post → (rank r ≤ rank v)%nat).

Lemma chain_first_worst fuel fs d rs action :
  Forall2 (λ f v, bpf_run fuel f d = Some (Value v)) fs rs → Forall ordinary rs → ordinary action →
  ∃ r, chain_action fuel fs d action = Some (Value r) ∧ ordinary r ∧ first_worst (action :: rs) r.
Proof.
  intros Hrs. revert action. induction Hrs as [|f v fs rs Hf _ IH]; intros action Ho Ha; cbn [chain_action].
  { exists action. split; [done|]. split; [done|]. exists [], []. split; [done|]. by split; intros ? ?%elem_of_nil. }
  apply Forall_cons in Ho as [Hv Ho]. rewrite Hf. fold (severity v) (severity action).
  pose proof (rank_severity v action Hv Ha) as Hlt.
  destruct (severity v <? severity action) eqn:E; bool_to_prop.
  - destruct (IH v Ho Hv) as (r & -> & Hr & pre & post & Hl & H1 & H2). exists r. split; [done|]. split; [done|].
    exists (action :: pre), post. split; [by rewrite Hl|]. split; [|done].
    intros x [->|Hx]%elem_of_cons; [|by apply H1].
    destruct pre as [|y pre]; injection Hl as -> _; [tauto|]. specialize (H1 y ltac:(left)). apply Hlt in E. lia.
  - destruct (IH action Ho Ha) as (r & -> & Hr & pre & post & Hl & H1 & H2). exists r. split; [done|]. split; [done|].
    assert (¬ (rank v < rank action)%nat) as Hn by (rewrite Hlt; lia).
    destruct pre as [|y pre]; injection Hl as -> Hl.
    + exists [], (v :: rs). split; [done|]. split; [done|]. subst post. intros x [->|Hx]%elem_of_cons; [lia|auto].
    + exists (y :: v :: pre), post. split; [by rewrite Hl|]. split; [|done]. specialize (H1 y ltac:(left)) as Hy.
      intros x [->|[->|Hx]%elem_of_cons]%elem_of_cons; [done|lia|]. apply H1. by right.
Qed.

Lemma verdict_rank v : ordinary v →
  (verdict_of v = Runs ↔ (6 ≤ rank v)%nat) ∧ (verdict_of v = Killed 159 ↔ rank v = 1%nat).
Proof.
  intros (i & a & -> & Hi & Ha)%ordinary_severity. unfold verdict_of. fold (severity v). rewrite Ha.
  do 7 (destruct i as [|i]; [injection Hi as <-; cbn; split; split; (done || lia)|]). done.
Qed.

(** C40: when every filter of the chain answers one of the actions seccomp(2)
    lists, killing the process excepted, the check settles on the most severe
    of the answers and the implicit ALLOW, by the order of that page; among
    equals on the one of the newest filter. The call runs just when every
    filter allows it, logging or not, and the process is killed just when one
    of them kills the thread. *)
Theorem most_severe_prevails fuel st n reg_pc a rs :
  seccomp_mode st ≠ SECCOMP_MODE_DISABLED →
  Forall2 (λ f v, bpf_run fuel f (check_data n reg_pc a) = Some (Value v)) (filters st) rs →
  Forall ordinary rs →
  ∃ r v, seccomp_check fuel st n reg_pc a = Some (Decided r v) ∧
    first_worst (SECCOMP_RET_ALLOW :: rs) r ∧
    (v = Runs ↔ Forall (λ x, (6 ≤ rank x)%nat) rs) ∧
    (v = Killed 159 ↔ Exists (λ x, rank x = 1%nat) rs).
Proof.
  intros Hm Hrs Ho. unfold seccomp_check. rewrite (proj2 (Z.eqb_neq _ _) Hm).
  destruct (chain_first_worst fuel _ _ rs SECCOMP_RET_ALLOW Hrs Ho) as (r & -> & Hr & Hw); [vm_compute; lia|].
  exists r, (verdict_of r). split; [done|]. split; [done|].
  destruct (verdict_rank r Hr) as [-> ->]. destruct Hw as (pre & post & Hl & H1 & H2).
  assert (∀ x, x ∈ rs → (rank r ≤ rank x)%nat) as Hle.
  { intros x Hx. assert (x ∈ pre ++ r :: post) as [Hp|[->|Hp]%elem_of_cons]%elem_of_app by (rewrite <- Hl; by right);
      [apply Nat.lt_le_incl; auto|lia|auto]. }
  assert (r = SECCOMP_RET_ALLOW ∨ r ∈ rs) as Hin.
  { apply elem_of_cons. rewrite Hl. apply elem_of_app. right. left. }
  rewrite Forall_forall, Exists_exists. split; split.
  - intros H6 x Hx. specialize (Hle x Hx). lia.
  - intros Hx. destruct Hin as [->|Hin]; [vm_compute; lia|auto].
  - intros H1r. destruct Hin as [->|Hin]; [discriminate H1r|by exists r].
  - intros (x & Hx & E). specialize (Hle x Hx). unfold ordinary in Hr. lia.
Qed.

Definition probe (n : Z) : seccomp_data :=
  mk_data n SECCOMP_AUDIT_ARCH 0 [0; 0; 0; 0; 0; 0].

Definition ret_filter (v : Z) : list sock_filter := [mk_insn BPF_RET 0 0 v].

Lemma most_severe_prevails_witness :
  ∃ r v, seccomp_check 1 {| filters := ret_filter <$> [SECCOMP_RET_ALLOW; SECCOMP_RET_ERRNO + 1; SECCOMP_RET_ERRNO + 2; SECCOMP_RET_LOG];
      seccomp_mode := SECCOMP_MODE_FILTER; no_new_privs := true |} 1 0 [0; 0; 0; 0; 0; 0] = Some (Decided r v) ∧
    first_worst [SECCOMP_RET_ALLOW; SECCOMP_RET_ALLOW; SECCOMP_RET_ERRNO + 1; SECCOMP_RET_ERRNO + 2; SECCOMP_RET_LOG] r ∧
    (v = Runs ↔ Forall (λ x, (6 ≤ rank x)%nat) [SECCOMP_RET_ALLOW; SECCOMP_RET_ERRNO + 1; SECCOMP_RET_ERRNO + 2; SECCOMP_RET_LOG]) ∧
    (v = Killed 159 ↔ Exists (λ x, rank x = 1%nat) [SECCOMP_RET_ALLOW; SECCOMP_RET_ERRNO + 1; SECCOMP_RET_ERRNO + 2; SECCOMP_RET_LOG]).
Proof.
  apply most_severe_prevails.
  - discriminate.
  - repeat constructor.
  - repeat constructor; vm_compute; lia.
Defined.

(** [SECCOMP_RET_KILL_PROCESS] is the largest action as an unsigned number,
    so a filter that answers it is outvoted by the initial ALLOW and by every
    other answer: the chain decides as if that filter were absent. *)
Theorem kill_process_is_ignored fuel f fs d v action :
  bpf_run fuel f d = Some (Value v) → severity v = SECCOMP_RET_KILL_PROCESS →
  severity action ≤ SECCOMP_RET_ALLOW →
  chain_action fuel (f :: fs) d action = chain_action fuel fs d action.
Proof.
  intros Hr Hv Ha. cbn [chain_action]. rewrite Hr. fold (severity v) (severity action).
  case_match; [|done]. bool_to_prop.
  unfold SECCOMP_RET_KILL_PROCESS, SECCOMP_RET_ALLOW in *. lia.
Qed.

Lemma kill_process_is_ignored_witness :
  chain_action 1 [ret_filter SECCOMP_RET_KILL_PROCESS] (probe 221) SECCOMP_RET_ALLOW
  = Some (Value SECCOMP_RET_ALLOW).
Proof.
  rewrite (kill_process_is_ignored 1 (ret_filter SECCOMP_RET_KILL_PROCESS) []
             (probe 221) SECCOMP_RET_KILL_PROCESS SECCOMP_RET_ALLOW).
  - reflexivity.
  - reflexivity.
  - reflexivity.
  - vm_compute. intros [=].
Defined.

(** The first word of the image is the system call number. *)
Lemma load_nr n reg_pc a :
  load_word (data_image (check_data n reg_pc a)) 0 = Some (u32 n).
Proof.
  unfold load_word, data_image. rewrite (proj2 (Z.leb_le _ _)) by lia.
  rewrite (proj2 (Z.leb_le _ _)).
  - simpl andb. cbv iota. rewrite drop_0, take_app_le by (by rewrite length_le_store).
    rewrite take_ge by (by rewrite length_le_store). f_equal.
    rewrite le_load_store_small; [done|]. simpl. apply u32_range.
  - rewrite length_app, length_le_store. lia.
Qed.

Lemma bpf_loop_next fuel f img s i s' :
  (pc s <? Z.of_nat (length f)) = true → f !! Z.to_nat (pc s) = Some i →
  bpf_step img i s = Next s' → bpf_loop (S fuel) f img s = bpf_loop fuel f img s'.
Proof. intros Hp Hi Hs. simpl. by rewrite Hp, Hi, Hs. Qed.

Lemma jeq_step img p m sc j n :
  bpf_step img (mk_insn (Z.lor (Z.lor BPF_JMP BPF_JEQ) BPF_K) j 0 n) (mk_bpf p m 0 sc)
  = Next (mk_bpf (u16 (u16 (p + (if m =? n then j else 0)) + 1)) m 0 sc).
Proof. reflexivity. Qed.

Definition strict_allows (n : Z) : bool :=
  (n =? LSYS_read) || (n =? LSYS_write) || (n =? LSYS_exit) || (n =? LSYS_rt_sigreturn).

(** The strict filter answers ALLOW for read, write, exit and rt_sigreturn
    and KILL_PROCESS for every other call, in at most seven steps. *)
Theorem strict_prog_decides n reg_pc a :
  bpf_run 7 strict_prog (check_data n reg_pc a)
  = Some (Value (if strict_allows (u32 n) then SECCOMP_RET_ALLOW else SECCOMP_RET_KILL_PROCESS)).
Proof.
  unfold bpf_run. pose proof (load_nr n reg_pc a) as Hl.
  set (img := data_image _) in *. clearbody img. generalize dependent (u32 n).
  intros m Hl. unfold strict_allows.
  rewrite (bpf_loop_next _ _ _ _ (mk_insn 0x20 0 0 0) (mk_bpf 1 m 0 (replicate 16 0)));
    [|reflexivity|reflexivity|unfold bpf_step; cbn -[load_word]; by rewrite Hl].
  do 4 (erewrite bpf_loop_next; [|reflexivity|reflexivity|apply jeq_step];
        case_match; [reflexivity|]; simpl orb).
  reflexivity.
Qed.

(** Strict mode stops nothing: after a fresh process enters it through
    [seccomp(2)], every call number is let through, because the strict filter
    says KILL_PROCESS and the chain discards that answer. *)
Theorem strict_mode_stops_nothing copy_from_user malloc_ok euid st n reg_pc a :
  sys_seccomp copy_from_user malloc_ok SECCOMP_SET_MODE_STRICT 0 0 euid seccomp_boot = (0, st) →
  seccomp_mode st = SECCOMP_MODE_STRICT
  ∧ seccomp_check 7 st n reg_pc a = Some (Decided SECCOMP_RET_ALLOW Runs).
Proof.
  unfold sys_seccomp, strict_install. simpl. intros H. case_match; simplify_eq. split; [done|].
  unfold seccomp_check. simpl seccomp_mode. simpl filters.
  cbn [chain_action]. rewrite strict_prog_decides. by destruct (strict_allows _).
Qed.

Lemma strict_mode_stops_nothing_witness :
  seccomp_mode (push_filter strict_prog SECCOMP_MODE_STRICT seccomp_boot) = SECCOMP_MODE_STRICT
  ∧ seccomp_check 7 (push_filter strict_prog SECCOMP_MODE_STRICT seccomp_boot) 221 0
      [0; 0; 0; 0; 0; 0] = Some (Decided SECCOMP_RET_ALLOW Runs).
Proof.
  apply (strict_mode_stops_nothing (λ _ _, None) (λ _, true) 1000). reflexivity.
Defined.

(** * Installation *)

Section Install.
Context (copy_from_user : Z → nat → option (list Z)) (malloc_ok : nat → bool).
(** A successful copy delivers as many bytes as were asked for. *)
Hypothesis copy_length : ∀ a n l, copy_from_user a n = Some l → length l = n.
Hypothesis copy_bytes : ∀ a n l, copy_from_user a n = Some l → Forall (λ b, 0 ≤ b < 256) l.

Lemma insn_of_image_wf l :
  length l = 8%nat → Forall (λ b, 0 ≤ b < 256) l → insn_wf (insn_of_image l).
Proof.
  intros Hl Hb.
  assert (∀ m n, (m + n ≤ 8)%nat → 0 ≤ le_load (take n (drop m l)) < 256 ^ Z.of_nat n) as Hr.
  { intros m n Hmn. rewrite <-(length_take_le (drop m l) n) at 3 by (rewrite length_drop; lia).
    apply le_load_range. by apply Forall_take, Forall_drop. }
  unfold insn_wf, insn_of_image; simpl.
  pose proof (Hr 0%nat 2%nat ltac:(lia)) as H0. rewrite drop_0 in H0.
  pose proof (Hr 2%nat 1%nat ltac:(lia)). pose proof (Hr 3%nat 1%nat ltac:(lia)).
  pose proof (Hr 4%nat 4%nat ltac:(lia)). simpl Z.of_nat in *. lia.
Qed.

Lemma insns_of_image_wf n l :
  length l = (n * 8)%nat → Forall (λ b, 0 ≤ b < 256) l → Forall insn_wf (insns_of_image n l).
Proof.
  revert l; induction n as [|n IH]; intros l Hl Hb; [constructor|].
  constructor.
  - apply insn_of_image_wf; [rewrite length_take; lia|by apply Forall_take].
  - apply IH; [rewrite length_drop; lia|by apply Forall_drop].
Qed.

(** A chain every filter of which was verified, and a mode that says so. *)
Definition chain_wf (st : seccomp_state) : Prop :=
  Forall (λ f, bpf_verify f = true ∧ Forall insn_wf f) (filters st)
  ∧ (seccomp_mode st = SECCOMP_MODE_DISABLED ↔ filters st = []).

Lemma filter_install_cases p st :
  (∃ e, filter_install copy_from_user malloc_ok p st = (- e, st) ∧ e ∈ [EFAULT; EINVAL; ENOMEM])
  ∨ ∃ f, filter_install copy_from_user malloc_ok p st = (0, push_filter f SECCOMP_MODE_FILTER st)
         ∧ bpf_verify f = true ∧ Forall insn_wf f.
Proof.
  unfold filter_install.
  destruct (copy_from_user p _) as [prog|]; [|left; exists EFAULT; split; [done|set_solver]].
  case_match eqn:Hlen; [left; exists EINVAL; split; [done|set_solver]|].
  case_match; [left; exists ENOMEM; split; [done|set_solver]|].
  destruct (copy_from_user _ _) as [img|] eqn:Hi; [|left; exists EFAULT; split; [done|set_solver]].
  case_match; [left; exists EINVAL; split; [done|set_solver]|].
  right. eexists; split; [done|]. split; [by bool_to_prop|].
  apply insns_of_image_wf; eauto.
Qed.

(** Everything a guest can do to the chain. *)
Inductive seccomp_step : seccomp_state → seccomp_state → Prop :=
| step_seccomp op flags uargs euid st :
    seccomp_step st (snd (sys_seccomp copy_from_user malloc_ok op flags uargs euid st))
| step_prctl mode prog euid st :
    seccomp_step st (snd (seccomp_prctl_set copy_from_user malloc_ok mode prog euid st))
| step_no_new_privs st : seccomp_step st (snd (seccomp_no_new_privs_set st)).

(** A step leaves the chain alone or pushes one verified program. *)
Lemma seccomp_step_cases st st' :
  seccomp_step st st' →
  st' = st ∨ st' = snd (seccomp_no_new_privs_set st)
  ∨ ∃ f mode, st' = push_filter f mode st ∧ mode ≠ SECCOMP_MODE_DISABLED
              ∧ bpf_verify f = true ∧ Forall insn_wf f.
Proof.
  assert (∀ st, snd (strict_install malloc_ok st) = st ∨
            snd (strict_install malloc_ok st) = push_filter strict_prog SECCOMP_MODE_STRICT st) as Hs.
  { intros s0. unfold strict_install. case_match; auto. }
  assert (Forall insn_wf strict_prog) as Hwf.
  { unfold strict_prog. repeat apply Forall_cons_2; try apply Forall_nil_2; by vm_compute. }
  assert (∀ st st' p, snd (filter_install copy_from_user malloc_ok p st) = st' →
     st' = st ∨ ∃ f mode, st' = push_filter f mode st ∧ mode ≠ SECCOMP_MODE_DISABLED
              ∧ bpf_verify f = true ∧ Forall insn_wf f) as Hf.
  { intros s0 s0' p <-. destruct (filter_install_cases p s0) as [(e & -> & _)|(f & -> & ? & ?)];
      simpl; [by left|right]. exists f, SECCOMP_MODE_FILTER. naive_solver. }
  assert (∀ st, snd (strict_install malloc_ok st) = st ∨
     ∃ f mode, snd (strict_install malloc_ok st) = push_filter f mode st
       ∧ mode ≠ SECCOMP_MODE_DISABLED ∧ bpf_verify f = true ∧ Forall insn_wf f) as Hs'.
  { intros s0. destruct (Hs s0) as [|Hp]; [by left|right].
    exists strict_prog, SECCOMP_MODE_STRICT. naive_solver. }
  destruct 1 as [op flags uargs euid st|mode prog euid st|st]; [| |by auto].
  - unfold sys_seccomp. repeat case_match; simpl; auto;
      first [destruct (Hs' st); tauto | destruct (Hf st _ uargs eq_refl); tauto].
  - unfold seccomp_prctl_set. repeat case_match; simpl; auto;
      first [destruct (Hs' st); tauto | destruct (Hf st _ prog eq_refl); tauto].
Qed.

Lemma chain_wf_step st st' : seccomp_step st st' → chain_wf st → chain_wf st'.
Proof.
  intros Hst [Hf Hm].
  destruct (seccomp_step_cases _ _ Hst) as [->|[->|(f & mode & -> & Hmode & ? & ?)]];
    [by split..|].
  split; simpl; [by constructor|]. by split; intros.
Qed.

Lemma chain_wf_reachable st : rtc seccomp_step seccomp_boot st → chain_wf st.
Proof.
  assert (chain_wf seccomp_boot) as H0 by (split; [constructor|done]).
  revert H0. generalize seccomp_boot. induction 2 as [|x y z Hxy _ IH]; eauto using chain_wf_step.
Qed.

(** In every state a guest can reach from boot, each filter of the chain
    passed the verifier, and the mode reads DISABLED exactly when the chain is
    empty. *)
Theorem reachable_chain_verified st : rtc seccomp_step seccomp_boot st → chain_wf st.
Proof. apply chain_wf_reachable. Qed.

(** Confinement only tightens: along any sequence of calls the installed
    filters stay installed in the same order, no_new_privs stays set once set,
    and a filtered process never becomes unfiltered. *)
Theorem confinement_is_one_way st st' :
  rtc seccomp_step st st' →
  (∃ newer, filters st' = newer ++ filters st)
  ∧ (no_new_privs st = true → no_new_privs st' = true)
  ∧ (seccomp_mode st ≠ SECCOMP_MODE_DISABLED → seccomp_mode st' ≠ SECCOMP_MODE_DISABLED).
Proof.
  induction 1 as [x|x y z Hxy _ ((newer & IH1) & IH2 & IH3)].
  { split_and!; [by exists []|done..]. }
  destruct (seccomp_step_cases _ _ Hxy) as [->|[->|(f & mode & -> & Hmode & _)]]; simpl in *.
  - split_and!; [by exists newer|done..].
  - split_and!; [by exists newer|auto..].
  - split_and!; [exists (newer ++ [f])|auto..].
    rewrite IH1. by rewrite <-app_assoc.
Qed.

Lemma chain_action_decides fuel fs d action :
  (4096 ≤ fuel)%nat → length (args d) = 6%nat →
  Forall (λ f, bpf_verify f = true ∧ Forall insn_wf f ∧ Forall (λ i, wrapping i = false) f) fs →
  ∃ r, chain_action fuel fs d action = Some (Value r).
Proof.
  intros Hfuel Ha. revert action. induction fs as [|f fs IH]; intros action Hfs; simpl; [eauto|].
  inversion Hfs as [|? ? (Hv & Hwf & Hnw) Hfs']; subst.
  destruct (bpf_verify_inv f Hv) as (Hlen & _). unfold BPF_MAXINSNS in Hlen.
  destruct (bpf_loop_returns f (data_image d) Hv Hwf Hnw (length_data_image d Ha) fuel bpf_init)
    as [v Hv']; [split; simpl; [lia|done]|simpl; lia|].
  unfold bpf_run. rewrite Hv'. auto.
Qed.

(** In every reachable state whose filters avoid the two wrapping
    encodings, the check of any call comes to a decision within 4096 steps per
    filter: no filter hangs, and none reads outside the call record. *)
Theorem reachable_check_decides st n reg_pc a :
  rtc seccomp_step seccomp_boot st →
  Forall (Forall (λ i, wrapping i = false)) (filters st) → length a = 6%nat →
  ∃ action v, seccomp_check 4096 st n reg_pc a = Some (Decided action v).
Proof.
  intros Hst Hnw Ha. destruct (chain_wf_reachable st Hst) as [Hf _].
  unfold seccomp_check. case_match; [eauto|].
  edestruct (chain_action_decides 4096 (filters st) (check_data n reg_pc a) SECCOMP_RET_ALLOW)
    as [r ->]; [done| |..|eauto].
  - simpl. by rewrite take_ge by lia.
  - pose proof (conj Hf Hnw) as Hb. apply Forall_and in Hb.
    eapply Forall_impl; [exact Hb|]. by intros f [[? ?] ?].
Qed.
End Install.

(** Guest memory for the witnesses: at 0x1000 a program that answers EPERM, at
    0x2000 the structure naming it, zeroes elsewhere. *)
Definition demo_copy (a : Z) (n : nat) : option (list Z) :=
  Some (take n ((if a =? 0x2000 then le_store 16 (1 + 0x1000 * 2^64)
                 else if a =? 0x1000 then le_store 8 0x0005000100000006 else []) ++ replicate n 0)).

Lemma demo_copy_length a n l : demo_copy a n = Some l → length l = n.
Proof. intros [= <-]. rewrite length_take, length_app, length_replicate. lia. Qed.

Lemma demo_copy_bytes a n l : demo_copy a n = Some l → Forall (λ b, 0 ≤ b < 256) l.
Proof.
  unfold demo_copy. intros H. apply (inj Some) in H. subst l.
  apply Forall_take, Forall_app_2; [|by apply Forall_replicate; lia].
  destruct (a =? _); [apply le_store_bytes|].
  destruct (a =? _); [apply le_store_bytes|constructor].
Qed.

(** The state after root installs the program at 0x2000. *)
Definition demo_state : seccomp_state :=
  snd (sys_seccomp demo_copy (λ _, true) SECCOMP_SET_MODE_FILTER 0 0x2000 0 seccomp_boot).

Lemma reachable_chain_verified_witness :
  filters demo_state = [ret_filter (SECCOMP_RET_ERRNO + 1)] ∧ chain_wf demo_state.
Proof.
  split; [reflexivity|].
  apply (reachable_chain_verified demo_copy (λ _, true) demo_copy_length demo_copy_bytes).
  apply rtc_once, step_seccomp.
Defined.

Lemma confinement_is_one_way_witness :
  (∃ newer, filters demo_state = newer ++ filters seccomp_boot)
  ∧ (no_new_privs seccomp_boot = true → no_new_privs demo_state = true)
  ∧ (seccomp_mode seccomp_boot ≠ SECCOMP_MODE_DISABLED →
     seccomp_mode demo_state ≠ SECCOMP_MODE_DISABLED).
Proof.
  apply (confinement_is_one_way demo_copy (λ _, true) demo_copy_length demo_copy_bytes).
  apply rtc_once, step_seccomp.
Defined.

Lemma reachable_check_decides_witness :
  ∃ action v, seccomp_check 4096 demo_state 221 0 [0; 0; 0; 0; 0; 0] = Some (Decided action v).
Proof.
  apply (reachable_check_decides demo_copy (λ _, true) demo_copy_length demo_copy_bytes).
  - apply rtc_once, step_seccomp.
  - change (filters demo_state) with [ret_filter (SECCOMP_RET_ERRNO + 1)].
    repeat constructor.
  - reflexivity.
Defined.

(** Without no_new_privs, a process whose effective uid is not 0 cannot
    install a filter through either entry; the refusal is EACCES and changes
    nothing. *)
Theorem unprivileged_install_refused copy_from_user malloc_ok flags uargs prog euid st :
  no_new_privs st = false → euid ≠ 0 →
  has flags (Z.lnot SECCOMP_FILTER_FLAGS) = false →
  has flags SECCOMP_FILTER_FLAG_NEW_LISTENER = false →
  sys_seccomp copy_from_user malloc_ok SECCOMP_SET_MODE_FILTER flags uargs euid st = (- EACCES, st)
  ∧ seccomp_prctl_set copy_from_user malloc_ok SECCOMP_MODE_FILTER prog euid st = (- EACCES, st).
Proof.
  intros Hn He H1 H2. unfold sys_seccomp, seccomp_prctl_set. rewrite H1, H2, Hn.
  rewrite (proj2 (Z.eqb_neq euid 0) He). done.
Qed.

Lemma unprivileged_install_refused_witness :
  sys_seccomp demo_copy (λ _, true) SECCOMP_SET_MODE_FILTER 0 0x2000 1000 seccomp_boot
    = (- EACCES, seccomp_boot)
  ∧ seccomp_prctl_set demo_copy (λ _, true) SECCOMP_MODE_FILTER 0x2000 1000 seccomp_boot
    = (- EACCES, seccomp_boot).
Proof. apply (unprivileged_install_refused demo_copy (λ _, true) 0); [reflexivity|lia|reflexivity..]. Defined.

(** * The fork image *)

Lemma insn_image_length i : length (insn_image i) = 8%nat.
Proof. reflexivity. Qed.

Lemma insn_image_roundtrip i : insn_wf i → insn_of_image (insn_image i) = i.
Proof.
  intros (Hc & Ht & Hf & Hk). destruct i as [c t f k]; simpl in *.
  unfold insn_of_image, insn_image. f_equal; cbn [code jt jf kf le_store app take drop].
  - exact (le_load_store_small 2 c ltac:(simpl; lia)).
  - exact (le_load_store_small 1 t ltac:(simpl; lia)).
  - exact (le_load_store_small 1 f ltac:(simpl; lia)).
  - exact (le_load_store_small 4 k ltac:(simpl; lia)).
Qed.

Lemma insns_image_length f : length (mjoin (insn_image <$> f)) = (length f * 8)%nat.
Proof.
  induction f as [|i f IH]; [done|].
  change (length (insn_image i ++ mjoin (insn_image <$> f)) = S (length f) * 8)%nat.
  by rewrite length_app, IH.
Qed.

Lemma insns_image_roundtrip f rest :
  Forall insn_wf f → insns_of_image (length f) (mjoin (insn_image <$> f) ++ rest) = f.
Proof.
  induction 1 as [|i f Hi Hf IH]; [done|].
  change (insns_of_image (S (length f)) ((insn_image i ++ mjoin (insn_image <$> f)) ++ rest) = i :: f).
  cbn [insns_of_image]. rewrite <-app_assoc.
  rewrite (take_app_length' (insn_image i)), (drop_app_length' (insn_image i)) by done.
  by rewrite insn_image_roundtrip, IH.
Qed.

(** Filters of a size the chain accepts. *)
Definition filter_fits (f : list sock_filter) : Prop :=
  0 < Z.of_nat (length f) ≤ BPF_MAXINSNS ∧ Forall insn_wf f.

Definition image_size (fs : list (list sock_filter)) : Z :=
  foldr (λ f n, n + (4 + Z.of_nat (length f) * 8)) 0 fs.

Lemma image_size_nonneg fs : 0 ≤ image_size fs.
Proof. induction fs; simpl; lia. Qed.

Lemma image_size_app fs gs : image_size (fs ++ gs) = image_size fs + image_size gs.
Proof. induction fs; simpl; lia. Qed.

Lemma image_size_rev fs : image_size (rev fs) = image_size fs.
Proof. induction fs as [|f fs IH]; simpl; [done|]. rewrite image_size_app, IH. simpl. lia. Qed.

Lemma snapshot_write_length fs used len :
  used + image_size fs ≤ len → Z.of_nat (length (snapshot_write fs used len)) = image_size fs.
Proof.
  revert used; induction fs as [|f fs IH]; intros used H; [done|].
  cbn [snapshot_write]. cbn [image_size foldr] in *. fold (image_size fs) in *.
  pose proof (image_size_nonneg fs).
  destruct (_ >? _) eqn:E; bool_to_prop; [lia|].
  rewrite !length_app, insns_image_length, !Nat2Z.inj_add, IH by lia.
  rewrite length_le_store. lia.
Qed.

Lemma restore_snapshot_write malloc_ok fs :
  (∀ n, malloc_ok n = true) → Forall filter_fits fs →
  ∀ fuel used len acc, (length (snapshot_write fs used len) < fuel)%nat →
  used + image_size fs ≤ len →
  restore_loop malloc_ok fuel (snapshot_write fs used len) acc = rev fs ++ acc.
Proof.
  intros Hm. induction 1 as [|f fs [Hlen Hwf] Hfs IH]; intros fuel used len a Hfuel Hs.
  { destruct fuel; done. }
  cbn [snapshot_write] in *. cbn [image_size foldr] in Hs. fold (image_size fs) in *.
  pose proof (image_size_nonneg fs).
  destruct (_ >? _) eqn:E in *; bool_to_prop; [lia|].
  unfold BPF_MAXINSNS in Hlen. set (rest := snapshot_write fs _ len) in *.
  rewrite !length_app, insns_image_length, length_le_store in Hfuel.
  destruct fuel as [|fuel]; [lia|]. cbn [restore_loop].
  rewrite (take_app_length' (le_store 4 _)), (drop_app_length' (le_store 4 _) _ 4) by reflexivity.
  rewrite le_load_store_small by (simpl; lia).
  rewrite !length_app, insns_image_length, length_le_store.
  destruct (_ <? 4) eqn:E1; bool_to_prop; [lia|].
  destruct (_ || _) eqn:E2.
  { exfalso. unfold BPF_MAXINSNS in E2. rewrite !orb_true_iff in E2.
    destruct E2 as [[?|?]|?]; bool_to_prop; lia. }
  rewrite Hm. cbn [negb]. rewrite Nat2Z.id, insns_image_roundtrip by done.
  rewrite drop_app_ge by (rewrite length_le_store; lia).
  rewrite length_le_store, drop_app_length' by (rewrite insns_image_length; lia).
  simpl rev. rewrite <-app_assoc. subst rest. apply IH; lia.
Qed.

(** A chain written into a buffer of the size [seccomp_snapshot_size]
    reports and read back in the resumed child is the same chain in the same
    order, with the same mode; [no_new_privs] is not in the image, so the
    child keeps the flag it booted with. *)
Theorem seccomp_image_roundtrip malloc_ok st boot :
  (∀ n, malloc_ok n = true) → Forall filter_fits (filters st) →
  (seccomp_mode st ≠ SECCOMP_MODE_DISABLED → filters st ≠ []) →
  ∃ img, seccomp_snapshot malloc_ok st (seccomp_snapshot_size st) = Some (img, seccomp_mode st)
  ∧ Z.of_nat (length img) = seccomp_snapshot_size st
  ∧ seccomp_restore malloc_ok img (seccomp_mode st) boot
    = Ret {| filters := filters st; seccomp_mode := seccomp_mode st;
             no_new_privs := no_new_privs boot |}.
Proof.
  intros Hm Hf Hne. unfold seccomp_snapshot. rewrite Hm. simpl. eexists. split; [done|].
  change (seccomp_snapshot_size st) with (image_size (filters st)).
  rewrite <-(image_size_rev (filters st)).
  split; [by apply snapshot_write_length|]. unfold seccomp_restore.
  rewrite restore_snapshot_write; [|done|by apply Forall_rev|lia|lia].
  rewrite rev_involutive, app_nil_r.
  destruct (seccomp_mode st =? SECCOMP_MODE_DISABLED) eqn:E; simpl; [done|].
  destruct (filters st); [|done]. bool_to_prop. by destruct Hne.
Qed.

Lemma seccomp_image_roundtrip_witness :
  ∃ img, seccomp_snapshot (λ _, true) demo_state (seccomp_snapshot_size demo_state)
    = Some (img, seccomp_mode demo_state)
  ∧ Z.of_nat (length img) = seccomp_snapshot_size demo_state
  ∧ seccomp_restore (λ _, true) img (seccomp_mode demo_state) seccomp_boot
    = Ret {| filters := filters demo_state; seccomp_mode := seccomp_mode demo_state;
             no_new_privs := no_new_privs seccomp_boot |}.
Proof.
  apply (seccomp_image_roundtrip (λ _, true)); [done| |].
  - change (filters demo_state) with [ret_filter (SECCOMP_RET_ERRNO + 1)].
    apply Forall_singleton. split; [by vm_compute|apply Forall_singleton; by vm_compute].
  - intros _. by vm_compute.
Defined.
