(* ===== verification/RbTree.v ===== *)
(** The red-black tree of include/util/tree.h, as RB_GENERATE instantiates it.

    A node with its parent pointer is a subtree together with the path to the
    root, so a pointer into the tree is a zipper: moving to the parent is
    popping a frame. Every read of a field through a null pointer is [Faulted]. *)

From S2P Require Import Prelude.

Inductive color := BLACK | RED.

#[global] Instance color_eq_dec : EqDecision color.
Proof. solve_decision. Defined.

Section Tree.
Context {A : Type}.

Inductive tree := Leaf | Node (c : color) (l : tree) (x : A) (r : tree).

(** The parent of a node that is its left, or its right, child. *)
Inductive frame :=
  | InLeft (c : color) (x : A) (r : tree)
  | InRight (c : color) (l : tree) (x : A).

Definition path := list frame.

Definition is_red (t : tree) : bool := match t with Node RED _ _ _ => true | _ => false end.
Definition set_color (c : color) (t : tree) : tree :=
  match t with Node _ l x r => Node c l x r | Leaf => Leaf end.

(** The whole tree, from the subtree at a place. *)
Definition up (f : frame) (t : tree) : tree :=
  match f with InLeft c x r => Node c t x r | InRight c l x => Node c l x t end.
Definition plug (t : tree) (p : path) : tree := foldl (λ t f, up f t) t p.

(** * Searching *)

(** [cmp] compares the element searched for with one of the tree. *)
Fixpoint RB_FIND (cmp : A → Z) (t : tree) : option A :=
  match t with
  | Leaf => None
  | Node _ l x r =>
      if cmp x <? 0 then RB_FIND cmp l else if cmp x >? 0 then RB_FIND cmp r else Some x
  end.

Fixpoint RB_NFIND (cmp : A → Z) (res : option A) (t : tree) : option A :=
  match t with
  | Leaf => res
  | Node _ l x r =>
      if cmp x <? 0 then RB_NFIND cmp (Some x) l
      else if cmp x >? 0 then RB_NFIND cmp res r else Some x
  end.

Fixpoint RB_MINMAX (val : Z) (parent : option A) (t : tree) : option A :=
  match t with
  | Leaf => parent
  | Node _ l x r => RB_MINMAX val (Some x) (if val <? 0 then l else r)
  end.

(** * Insertion *)

(** Where the new element goes, or the element it collides with. *)
Fixpoint descend (cmp : A → Z) (t : tree) (p : path) : A + path :=
  match t with
  | Leaf => inr p
  | Node c l x r =>
      if cmp x <? 0 then descend cmp l (InLeft c x r :: p)
      else if cmp x >? 0 then descend cmp r (InRight c l x :: p) else inl x
  end.

(** [RB_INSERT_COLOR], [elm] being the subtree at the red node. *)
Fixpoint RB_INSERT_COLOR (elm : tree) (p : path) : outcome tree :=
  match p with
  | InLeft RED px pr :: gp =>
      match gp with
      | [] => Stop Faulted
      | InLeft gc gx gr :: p =>
          if is_red gr then
            RB_INSERT_COLOR (Node RED (Node BLACK elm px pr) gx (set_color BLACK gr)) p
          else Ret (set_color BLACK (plug (Node BLACK elm px (Node RED pr gx gr)) p))
      | InRight gc gl gx :: p =>
          if is_red gl then
            RB_INSERT_COLOR (Node RED (set_color BLACK gl) gx (Node BLACK elm px pr)) p
          else
            match elm with
            | Leaf => Stop Faulted
            | Node _ el ex er =>
                Ret (set_color BLACK (plug (Node BLACK (Node RED gl gx el) ex (Node RED er px pr)) p))
            end
      end
  | InRight RED pl px :: gp =>
      match gp with
      | [] => Stop Faulted
      | InLeft gc gx gr :: p =>
          if is_red gr then
            RB_INSERT_COLOR (Node RED (Node BLACK pl px elm) gx (set_color BLACK gr)) p
          else
            match elm with
            | Leaf => Stop Faulted
            | Node _ el ex er =>
                Ret (set_color BLACK (plug (Node BLACK (Node RED pl px el) ex (Node RED er gx gr)) p))
            end
      | InRight gc gl gx :: p =>
          if is_red gl then
            RB_INSERT_COLOR (Node RED (set_color BLACK gl) gx (Node BLACK pl px elm)) p
          else Ret (set_color BLACK (plug (Node BLACK (Node RED gl gx pl) px elm) p))
      end
  | _ => Ret (set_color BLACK (plug elm p))
  end.

(** The element already there, if any, and the tree. *)
Definition RB_INSERT (cmp : A → Z) (elm : A) (t : tree) : outcome (option A * tree) :=
  match descend cmp t [] with
  | inl clash => Ret (Some clash, t)
  | inr p => t ← RB_INSERT_COLOR (Node RED Leaf elm Leaf) p; Ret (None, t)
  end.

(** * Removal *)

Definition is_black (t : tree) : bool := negb (is_red t).

(** One turn of the loop of [RB_REMOVE_COLOR] with [elm] the left child, once
    its sibling [tmp] is black: the subtree at the parent's place, and whether
    the loop is left. *)
Definition remove_left (pc : color) (px : A) (elm tmp : tree) : outcome (bool * tree) :=
  match tmp with
  | Leaf => Stop Faulted
  | Node tc tl tx tr =>
      if is_black tl && is_black tr then Ret (false, Node pc elm px (Node RED tl tx tr))
      else if is_black tr then
        match tl with
        | Leaf => Stop Faulted
        | Node _ ll lx lr =>
            Ret (true, Node pc (Node BLACK elm px ll) lx (set_color BLACK (Node RED lr tx tr)))
        end
      else Ret (true, Node pc (Node BLACK elm px tl) tx (set_color BLACK tr))
  end.

Definition remove_right (pc : color) (px : A) (elm tmp : tree) : outcome (bool * tree) :=
  match tmp with
  | Leaf => Stop Faulted
  | Node tc tl tx tr =>
      if is_black tl && is_black tr then Ret (false, Node pc (Node RED tl tx tr) px elm)
      else if is_black tl then
        match tr with
        | Leaf => Stop Faulted
        | Node _ rl rx rr =>
            Ret (true, Node pc (set_color BLACK (Node RED tl tx rl)) rx (Node BLACK rr px elm))
        end
      else Ret (true, Node pc (set_color BLACK tl) tx (Node BLACK tr px elm))
  end.

(** [RB_REMOVE_COLOR], [elm] at the end of [p]. *)
Fixpoint RB_REMOVE_COLOR (fuel : nat) (elm : tree) (p : path) : outcome tree :=
  match fuel with
  | O => Stop OutOfFuel
  | S fuel =>
      match p with
      | f :: p' =>
          if is_red elm then Ret (plug (set_color BLACK elm) p)
          else
            '(fin, t, p) ←
              match f with
              | InLeft pc px (Node RED tl tx tr) =>
                  '(fin, t) ← remove_left RED px elm tl; Ret (fin, t, InLeft BLACK tx tr :: p')
              | InLeft pc px tmp => '(fin, t) ← remove_left pc px elm tmp; Ret (fin, t, p')
              | InRight pc (Node RED tl tx tr) px =>
                  '(fin, t) ← remove_right RED px elm tr; Ret (fin, t, InRight BLACK tl tx :: p')
              | InRight pc tmp px => '(fin, t) ← remove_right pc px elm tmp; Ret (fin, t, p')
              end;
            if (fin : bool) then Ret (set_color BLACK (plug t p)) else RB_REMOVE_COLOR fuel t p
      | [] => Ret (set_color BLACK elm)
      end
  end.

(** The leftmost node of [Node c l x r]: its color, element and right child,
    and the path to it. *)
Fixpoint leftmost (c : color) (l : tree) (x : A) (r : tree) (p : path) : color * A * tree * path :=
  match l with
  | Leaf => (c, x, r, p)
  | Node lc ll lx lr => leftmost lc ll lx lr (InLeft c x r :: p)
  end.

(** The node is [Node c l x r] at [p]. *)
Definition RB_REMOVE_at (c : color) (l : tree) (x : A) (r : tree) (p : path) : outcome tree :=
  let '(color, child, p) :=
    match l, r with
    | Leaf, _ => (c, r, p)
    | _, Leaf => (c, l, p)
    | _, Node rc rl rx rr =>
        let '(ec, ex, er, q) := leftmost rc rl rx rr [] in
        (ec, er, q ++ InRight c l ex :: p)
    end in
  match color with
  | BLACK => RB_REMOVE_COLOR (2 + length p) child p
  | RED => Ret (plug child p)
  end.

(** * Pointers into the tree *)

Context `{EqDecision A}.

(** Where the node of [x] is. *)
Fixpoint locate (x : A) (t : tree) (p : path) : option (color * tree * tree * path) :=
  match t with
  | Leaf => None
  | Node c l y r =>
      if decide (y = x) then Some (c, l, r, p)
      else
        match locate x l (InLeft c y r :: p) with
        | Some z => Some z
        | None => locate x r (InRight c l y :: p)
        end
  end.

(** A node that is not of the tree has no fields to read. *)
Definition RB_REMOVE (x : A) (t : tree) : outcome tree :=
  match locate x t [] with
  | Some (c, l, r, p) => RB_REMOVE_at c l x r p
  | None => Stop Faulted
  end.

Definition RB_LEFT (x : A) (t : tree) : option A :=
  match locate x t [] with Some (_, Node _ _ y _, _, _) => Some y | _ => None end.

Fixpoint rightmost (x : A) (r : tree) : A :=
  match r with Leaf => x | Node _ _ y r => rightmost y r end.

(** Up while a left child, then to the parent; and the mirror image. *)
Fixpoint prev_up (p : path) : option A :=
  match p with [] => None | InRight _ _ x :: _ => Some x | InLeft _ _ _ :: p => prev_up p end.
Fixpoint next_up (p : path) : option A :=
  match p with [] => None | InLeft _ x _ :: _ => Some x | InRight _ _ _ :: p => next_up p end.

Definition RB_PREV (x : A) (t : tree) : option A :=
  match locate x t [] with
  | Some (_, Node _ _ y r, _, _) => Some (rightmost y r)
  | Some (_, Leaf, _, p) => prev_up p
  | None => None
  end.

Definition RB_NEXT (x : A) (t : tree) : option A :=
  match locate x t [] with
  | Some (_, _, Node c l y r, _) => Some (let '(_, z, _, _) := leftmost c l y r [] in z)
  | Some (_, _, Leaf, p) => next_up p
  | None => None
  end.

End Tree.
Arguments tree : clear implicits.
Arguments frame : clear implicits.
Arguments path : clear implicits.

(** * Order *)

Section Order.
Context {A : Type}.
Implicit Types (t l r : tree A) (p : path A) (x y : A).

Fixpoint inorder t : list A :=
  match t with Leaf => [] | Node _ l x r => inorder l ++ x :: inorder r end.

(** What comes before, and after, the place at the end of a path. *)
Fixpoint lefts p : list A :=
  match p with
  | [] => []
  | InLeft _ _ _ :: p => lefts p
  | InRight _ l x :: p => lefts p ++ inorder l ++ [x]
  end.
Fixpoint rights p : list A :=
  match p with
  | [] => []
  | InLeft _ x r :: p => x :: inorder r ++ rights p
  | InRight _ _ _ :: p => rights p
  end.

Definition around p (l : list A) : list A := lefts p ++ l ++ rights p.

Lemma inorder_up f t p : around p (inorder (up f t)) = around (f :: p) (inorder t).
Proof. unfold around. destruct f; simpl; by rewrite <- ?app_assoc; simpl; rewrite <- ?app_assoc. Qed.

Lemma inorder_plug t p : inorder (plug t p) = around p (inorder t).
Proof.
  revert t. induction p as [|f p IH]; intros t; simpl.
  - unfold around. simpl. by rewrite app_nil_r.
  - rewrite IH. apply inorder_up.
Qed.

Lemma inorder_set_color c t : inorder (set_color c t) = inorder t.
Proof. by destruct t. Qed.

(** Two steps up a path at a time. *)
Lemma path_ind2 (P : path A → Prop) :
  P [] → (∀ f, P [f]) → (∀ f g p, P p → P (f :: g :: p)) → ∀ p, P p.
Proof.
  intros H0 H1 H2. assert (∀ p, P p ∧ ∀ f, P (f :: p)) as Hp.
  { intros p. induction p as [|g p [IH IH']]; [auto|]. split; auto. }
  intros p. apply Hp.
Qed.

Ltac shuffle := unfold around; simpl; rewrite ?app_nil_r; simpl; repeat (rewrite <- app_assoc; simpl); reflexivity.

Lemma insert_color_inorder p : ∀ elm t,
  RB_INSERT_COLOR elm p = Ret t → inorder t = around p (inorder elm).
Proof.
  induction p as [|f|f g p IH] using path_ind2; intros elm t.
  - intros [= <-]. rewrite inorder_set_color. simpl. unfold around. simpl. by rewrite app_nil_r.
  - destruct f as [[] x r|[] l x]; simpl; intros [= <-]; shuffle.
  - assert (∀ u, inorder (set_color BLACK (plug u p)) = around p (inorder u)) as Hplug
      by (intros u; by rewrite inorder_set_color, inorder_plug).
    destruct f as [[] x r|[] l x]; simpl.
    + intros [= <-]. rewrite inorder_set_color, inorder_plug. destruct g; shuffle.
    + destruct g as [c y s|c s y]; destruct (is_red s) eqn:Es; simpl.
      * intros Ht%IH. rewrite Ht. simpl. rewrite inorder_set_color. shuffle.
      * intros [= <-]. rewrite Hplug. shuffle.
      * intros Ht%IH. rewrite Ht. simpl. rewrite inorder_set_color. shuffle.
      * destruct elm as [|ec el ex er]; [done|]. intros [= <-]. rewrite Hplug. shuffle.
    + intros [= <-]. rewrite inorder_set_color, inorder_plug. destruct g; shuffle.
    + destruct g as [c y s|c s y]; destruct (is_red s) eqn:Es; simpl.
      * intros Ht%IH. rewrite Ht. simpl. rewrite inorder_set_color. shuffle.
      * destruct elm as [|ec el ex er]; [done|]. intros [= <-]. rewrite Hplug. shuffle.
      * intros Ht%IH. rewrite Ht. simpl. rewrite inorder_set_color. shuffle.
      * intros [= <-]. rewrite Hplug. shuffle.
Qed.


Lemma remove_left_inorder pc px elm tmp b t :
  remove_left pc px elm tmp = Ret (b, t) → inorder t = inorder elm ++ px :: inorder tmp.
Proof.
  unfold remove_left. destruct tmp as [|tc tl tx tr]; [done|].
  destruct (is_black tl && is_black tr); [by intros [= <- <-]|].
  destruct (is_black tr).
  - destruct tl as [|lc ll lx lr]; [done|]. intros [= <- <-]. shuffle.
  - intros [= <- <-]. simpl. rewrite inorder_set_color. shuffle.
Qed.

Lemma remove_right_inorder pc px elm tmp b t :
  remove_right pc px elm tmp = Ret (b, t) → inorder t = inorder tmp ++ px :: inorder elm.
Proof.
  unfold remove_right. destruct tmp as [|tc tl tx tr]; [done|].
  destruct (is_black tl && is_black tr); [by intros [= <- <-]|].
  destruct (is_black tl).
  - destruct tr as [|rc rl rx rr]; [done|]. intros [= <- <-]. shuffle.
  - intros [= <- <-]. simpl. rewrite inorder_set_color. shuffle.
Qed.

(** The place and its new parent, whichever side and color the sibling. *)
Definition sibling_step (f : frame A) (elm : tree A) (p' : path A) : outcome (bool * tree A * path A) :=
  match f with
  | InLeft pc px (Node RED tl tx tr) =>
      '(fin, t) ← remove_left RED px elm tl; Ret (fin, t, InLeft BLACK tx tr :: p')
  | InLeft pc px tmp => '(fin, t) ← remove_left pc px elm tmp; Ret (fin, t, p')
  | InRight pc (Node RED tl tx tr) px =>
      '(fin, t) ← remove_right RED px elm tr; Ret (fin, t, InRight BLACK tl tx :: p')
  | InRight pc tmp px => '(fin, t) ← remove_right pc px elm tmp; Ret (fin, t, p')
  end.

Lemma remove_color_unfold fuel elm f p' :
  RB_REMOVE_COLOR (S fuel) elm (f :: p') =
    if is_red elm then Ret (plug (set_color BLACK elm) (f :: p'))
    else '(fin, t, p) ← sibling_step f elm p';
         if (fin : bool) then Ret (set_color BLACK (plug t p)) else RB_REMOVE_COLOR fuel t p.
Proof. done. Qed.

Lemma sibling_step_inorder f elm p' fin t p :
  sibling_step f elm p' = Ret (fin, t, p) → around p (inorder t) = around (f :: p') (inorder elm).
Proof.
  unfold sibling_step. destruct f as [pc px tmp|pc tmp px].
  - destruct tmp as [|[] tl tx tr].
    + done.
    + destruct (remove_left _ _ _ _) as [[b u]|] eqn:E; [|done]. intros [= <- <- <-].
      apply remove_left_inorder in E. rewrite E. shuffle.
    + destruct (remove_left _ _ _ _) as [[b u]|] eqn:E; [|done]. intros [= <- <- <-].
      apply remove_left_inorder in E. unfold around. simpl. rewrite E. shuffle.
  - destruct tmp as [|[] tl tx tr].
    + done.
    + destruct (remove_right _ _ _ _) as [[b u]|] eqn:E; [|done]. intros [= <- <- <-].
      apply remove_right_inorder in E. rewrite E. shuffle.
    + destruct (remove_right _ _ _ _) as [[b u]|] eqn:E; [|done]. intros [= <- <- <-].
      apply remove_right_inorder in E. unfold around. simpl. rewrite E. shuffle.
Qed.

Lemma remove_color_inorder fuel : ∀ elm p t,
  RB_REMOVE_COLOR fuel elm p = Ret t → inorder t = around p (inorder elm).
Proof.
  induction fuel as [|fuel IH]; [done|]. intros elm p t. destruct p as [|f p'].
  - intros [= <-]. rewrite inorder_set_color. shuffle.
  - rewrite remove_color_unfold. destruct (is_red elm).
    + intros [= <-]. by rewrite <- (inorder_set_color BLACK elm), <- inorder_plug.
    + destruct (sibling_step f elm p') as [[[fin u] p]|] eqn:E; [|done]. cbn [mbind outcome_bind].
      apply sibling_step_inorder in E. rewrite <- E. destruct fin; [|apply IH].
      intros [= <-]. by rewrite inorder_set_color, inorder_plug.
Qed.

Lemma leftmost_inorder l : ∀ c x r p,
  let '(ec, ex, er, q) := leftmost c l x r p in
  around p (inorder (Node c l x r)) = around q (ex :: inorder er) ∧ lefts q = lefts p.
Proof.
  induction l as [|lc ll IHl lx lr _]; intros c x r p; simpl; [done|].
  specialize (IHl lc lx lr (InLeft c x r :: p)). destruct (leftmost _ _ _ _ _) as [[[ec ex] er] q].
  destruct IHl as [E1 E2]. split; [|done]. rewrite <- E1. shuffle.
Qed.

Lemma lefts_app q p : lefts (q ++ p) = lefts p ++ lefts q.
Proof.
  induction q as [|[] q IH]; simpl; [by rewrite app_nil_r|done|]. by rewrite IH, <- app_assoc.
Qed.

Lemma rights_app q p : rights (q ++ p) = rights q ++ rights p.
Proof. induction q as [|[] q IH]; simpl; [done| |done]. by rewrite IH, <- app_assoc. Qed.

Lemma remove_at_inorder c l x r p t :
  RB_REMOVE_at c l x r p = Ret t → inorder t = around p (inorder l ++ inorder r).
Proof.
  unfold RB_REMOVE_at.
  assert (∀ col ch q, match col with BLACK => RB_REMOVE_COLOR (2 + length q) ch q | RED => Ret (plug ch q) end = Ret t →
    inorder t = around q (inorder ch)) as Hfin.
  { intros [] ch q; [apply remove_color_inorder|]. intros [= <-]. apply inorder_plug. }
  destruct l as [|lc ll lx lr]; [apply Hfin|]. destruct r as [|rc rl rx rr].
  - intros Ht%Hfin. rewrite Ht. shuffle.
  - pose proof (leftmost_inorder rl rc rx rr []) as Hm.
    destruct (leftmost rc rl rx rr []) as [[[ec ex] er] q]. intros Ht%Hfin. rewrite Ht.
    destruct Hm as [E1 E2]. unfold around in E1. rewrite E2, app_nil_r in E1. cbn [lefts app] in E1.
    rewrite E1. unfold around. rewrite lefts_app, rights_app, E2.
    shuffle.
Qed.


(** ** Searching *)

(** The elements [cmp] puts to the right of the one searched for come last. *)
Definition monotone (cmp : A → Z) (l : list A) : Prop :=
  ∀ a x b y, l = a ++ x :: b → y ∈ b → (cmp x < 0 → cmp y < 0) ∧ (cmp x = 0 → cmp y ≤ 0).

Lemma monotone_app cmp a b : monotone cmp (a ++ b) → monotone cmp a ∧ monotone cmp b.
Proof.
  intros Hm. split; intros k1 x k2 y -> Hy.
  - apply (Hm k1 x (k2 ++ b) y); [by rewrite <- app_assoc|]. apply elem_of_app. by left.
  - apply (Hm (a ++ k1) x k2 y); [|done]. by rewrite <- app_assoc.
Qed.

Lemma monotone_mid cmp a x b : monotone cmp (a ++ x :: b) →
  (∀ y, y ∈ b → (cmp x < 0 → cmp y < 0) ∧ (cmp x = 0 → cmp y ≤ 0)) ∧
  (∀ y, y ∈ a → (0 < cmp x → 0 < cmp y) ∧ (cmp x = 0 → 0 ≤ cmp y)).
Proof.
  intros Hm. split; [intros y Hy; by apply (Hm a x b y)|].
  intros y Hy. apply list_elem_of_split in Hy as (k1 & k2 & ->).
  rewrite <- app_assoc in Hm. simpl in Hm.
  destruct (Hm k1 y (k2 ++ x :: b) x eq_refl) as [H1 H2]; [set_solver|].
  destruct (Z.lt_trichotomy (cmp y) 0) as [?|[?|?]]; lia.
Qed.

Lemma RB_FIND_spec cmp t :
  monotone cmp (inorder t) →
  match RB_FIND cmp t with
  | Some x => x ∈ inorder t ∧ cmp x = 0
  | None => ∀ y, y ∈ inorder t → cmp y ≠ 0
  end.
Proof.
  induction t as [|c l IHl x r IHr]; simpl; [by intros _ y ?%elem_of_nil|].
  intros Hm. destruct (monotone_mid _ _ _ _ Hm) as [Hr Hl].
  apply monotone_app in Hm as [Hml [_ Hmr]%(monotone_app _ [x])].
  specialize (IHl Hml). specialize (IHr Hmr).
  destruct (cmp x <? 0) eqn:E1; bool_to_prop.
  - destruct (RB_FIND cmp l) as [y|]; [set_solver|].
    intros y [Hy|[->|Hy]%elem_of_cons]%elem_of_app; [auto|lia|]. specialize (Hr y Hy). lia.
  - destruct (cmp x >? 0) eqn:E2.
    + apply Z.gtb_lt in E2. destruct (RB_FIND cmp r) as [y|]; [set_solver|].
      intros y [Hy|[->|Hy]%elem_of_cons]%elem_of_app; [|lia|auto]. specialize (Hl y Hy). lia.
    + rewrite Z.gtb_ltb in E2. bool_to_prop. split; [set_solver|lia].
Qed.

Lemma descend_spec cmp t : ∀ p,
  monotone cmp (inorder t) → (∀ y, y ∈ lefts p → 0 < cmp y) → (∀ y, y ∈ rights p → cmp y < 0) →
  match descend cmp t p with
  | inl x => x ∈ inorder t ∧ cmp x = 0
  | inr q => around q [] = around p (inorder t) ∧
      (∀ y, y ∈ lefts q → 0 < cmp y) ∧ (∀ y, y ∈ rights q → cmp y < 0)
  end.
Proof.
  induction t as [|c l IHl x r IHr]; intros p; simpl; [done|]. intros Hm Hlp Hrp.
  destruct (monotone_mid _ _ _ _ Hm) as [Hr Hl].
  apply monotone_app in Hm as [Hml [_ Hmr]%(monotone_app _ [x])].
  destruct (cmp x <? 0) eqn:E1; bool_to_prop.
  - specialize (IHl (InLeft c x r :: p) Hml Hlp). ospecialize (IHl _).
    { simpl. intros y [->|[Hy|Hy]%elem_of_app]%elem_of_cons; [done| |by apply Hrp]. by apply Hr. }
    destruct (descend _ _ _) as [y|q]; [set_solver|]. destruct IHl as (E & ?). split; [|done].
    rewrite E. shuffle.
  - destruct (cmp x >? 0) eqn:E2.
    + apply Z.gtb_lt in E2. specialize (IHr (InRight c l x :: p) Hmr). ospecialize (IHr _ Hrp).
      { simpl. intros y [Hy|[Hy| ->%list_elem_of_singleton]%elem_of_app]%elem_of_app; [by apply Hlp| |lia].
        apply Hl; [done|lia]. }
      destruct (descend _ _ _) as [y|q]; [set_solver|]. destruct IHr as (E & ?). split; [|done].
      rewrite E. shuffle.
    + rewrite Z.gtb_ltb in E2. bool_to_prop. split; [set_solver|lia].
Qed.

(** ** Pointers *)

Context `{EqDecision A}.

Lemma locate_plug x t : ∀ p c l r q,
  locate x t p = Some (c, l, r, q) → plug (Node c l x r) q = plug t p.
Proof.
  induction t as [|tc tl IHl y tr IHr]; intros p c l r q; simpl; [done|].
  destruct (decide (y = x)) as [->|]; [by intros [= -> -> -> ->]|].
  destruct (locate x tl _) as [z|] eqn:E; [intros [= ->]; by apply IHl in E|].
  intros E'. by apply IHr in E'.
Qed.

Lemma locate_none x t : ∀ p, locate x t p = None → x ∉ inorder t.
Proof.
  induction t as [|tc tl IHl y tr IHr]; intros p; simpl; [by intros _ ?%elem_of_nil|].
  destruct (decide (y = x)) as [->|]; [done|].
  destruct (locate x tl _) as [z|] eqn:E; [done|]. intros E'. apply IHl in E. apply IHr in E'.
  set_solver.
Qed.


Lemma locate_inorder x t c l r q :
  locate x t [] = Some (c, l, r, q) → inorder t = (lefts q ++ inorder l) ++ x :: inorder r ++ rights q.
Proof.
  intros E. apply locate_plug in E. simpl in E. rewrite <- E, inorder_plug. shuffle.
Qed.

Lemma locate_at x t a b :
  NoDup (inorder t) → inorder t = a ++ x :: b →
  ∃ c l r q, locate x t [] = Some (c, l, r, q) ∧ a = lefts q ++ inorder l ∧ b = inorder r ++ rights q.
Proof.
  intros Hnd Ht. destruct (locate x t []) as [[[[c l] r] q]|] eqn:E.
  - exists c, l, r, q. split; [done|]. apply locate_inorder in E. rewrite Ht in E, Hnd.
    by apply pivot_inj in E.
  - apply locate_none in E. rewrite Ht in E. set_solver.
Qed.

Lemma prev_up_spec p : prev_up p = last (lefts p).
Proof. induction p as [|[] p IH]; simpl; [done..|]. by rewrite app_assoc, last_snoc. Qed.

Lemma next_up_spec p : next_up p = head (rights p).
Proof. by induction p as [|[] p IH]. Qed.

Lemma rightmost_spec r : ∀ x k, Some (rightmost x r) = last (k ++ x :: inorder r).
Proof.
  induction r as [|c rl _ y rr IH]; intros x k; simpl; [by rewrite last_snoc|].
  rewrite app_comm_cons, app_assoc. apply IH.
Qed.

Lemma leftmost_head l : ∀ c x r p, head (inorder (Node c l x r)) = Some (leftmost c l x r p).1.1.2.
Proof.
  induction l as [|lc ll IHl lx lr _]; intros c x r p; [done|].
  specialize (IHl lc lx lr (InLeft c x r :: p)). simpl in *. rewrite <- IHl.
  by destruct (inorder ll).
Qed.

(** The neighbours of an element. *)
Lemma RB_PREV_spec x t a b : NoDup (inorder t) → inorder t = a ++ x :: b → RB_PREV x t = last a.
Proof.
  intros Hnd Ht. destruct (locate_at x t a b Hnd Ht) as (c & l & r & q & E & -> & _).
  unfold RB_PREV. rewrite E. destruct l as [|lc ll lx lr].
  - simpl. by rewrite app_nil_r, prev_up_spec.
  - simpl. rewrite app_assoc. apply rightmost_spec.
Qed.

Lemma RB_NEXT_spec x t a b : NoDup (inorder t) → inorder t = a ++ x :: b → RB_NEXT x t = head b.
Proof.
  intros Hnd Ht. destruct (locate_at x t a b Hnd Ht) as (c & l & r & q & E & _ & ->).
  unfold RB_NEXT. rewrite E. destruct r as [|rc rl rx rr]; [apply next_up_spec|].
  pose proof (leftmost_head rl rc rx rr []) as Hh. destruct (leftmost _ _ _ _ _) as [[[? z] ?] ?].
  cbn [fst snd] in Hh. by destruct (inorder (Node rc rl rx rr)).
Qed.

(** A left child comes before. *)
Lemma RB_LEFT_spec x t a b y :
  NoDup (inorder t) → inorder t = a ++ x :: b → RB_LEFT x t = Some y → y ∈ a.
Proof.
  intros Hnd Ht. destruct (locate_at x t a b Hnd Ht) as (c & l & r & q & E & -> & _).
  unfold RB_LEFT. rewrite E. destruct l as [|lc ll lx lr]; [done|]. intros [= ->]. set_solver.
Qed.

End Order.

(** * Balance *)

Section Balance.
Context {A : Type}.
Implicit Types (t l r : tree A) (p : path A) (x y : A) (n : nat).

(** A subtree of black height [n] with no red child of a red node. *)
Inductive ok : nat → tree A → Prop :=
  | ok_leaf : ok 0 Leaf
  | ok_red n l x r : ok n l → ok n r → is_red l = false → is_red r = false → ok n (Node RED l x r)
  | ok_black n l x r : ok n l → ok n r → ok (S n) (Node BLACK l x r).

(** The parent, if any, is black. *)
Definition under_black p : Prop :=
  match p with InLeft RED _ _ :: _ | InRight RED _ _ :: _ => False | _ => True end.

(** A path that wants a subtree of black height [n] at its end; the root it
    leads to is black. *)
Inductive ctx : nat → path A → Prop :=
  | ctx_nil n : ctx n []
  | ctx_left_black n x r p : ok n r → ctx (S n) p → ctx n (InLeft BLACK x r :: p)
  | ctx_right_black n l x p : ok n l → ctx (S n) p → ctx n (InRight BLACK l x :: p)
  | ctx_left_red n x r p : ok n r → is_red r = false → p ≠ [] → under_black p →
      ctx n p → ctx n (InLeft RED x r :: p)
  | ctx_right_red n l x p : ok n l → is_red l = false → p ≠ [] → under_black p →
      ctx n p → ctx n (InRight RED l x :: p).

(** A red-black tree: balanced, and its root black. *)
Definition balanced t : Prop := is_red t = false ∧ ∃ n, ok n t.

Lemma plug_ok t p n : ctx n p → ok n t → (is_red t = true → under_black p) → ∃ m, ok m (plug t p).
Proof.
  intros Hp. revert t. induction Hp; intros t Ht Hr; simpl; eauto using ok_black.
  - apply IHHp; [by constructor|done].
  - apply IHHp; [by constructor|done].
  - apply IHHp; [|done]. constructor; auto. destruct (is_red t); [by destruct (Hr eq_refl)|done].
  - apply IHHp; [|done]. constructor; auto. destruct (is_red t); [by destruct (Hr eq_refl)|done].
Qed.

Lemma plug_black t p n : ctx n p → p ≠ [] → is_red (plug t p) = false.
Proof.
  intros Hp. revert t. induction Hp as [| | | |]; intros t Hne; simpl; auto; try done.
  - destruct p; [done|]. by apply IHHp.
  - destruct p; [done|]. by apply IHHp.
Qed.

Lemma is_red_black t : is_red (set_color BLACK t) = false.
Proof. by destruct t. Qed.

Lemma ok_set_black n t : ok n t → ∃ m, ok m (set_color BLACK t).
Proof. destruct 1; simpl; eauto using ok. Qed.

(** Painting a root that is already black changes nothing. *)
Lemma set_black_id t : is_red t = false → set_color BLACK t = t.
Proof. by destruct t as [|[]]. Qed.

Lemma balanced_plug t p n :
  ctx n p → ok n t → (is_red t = true → under_black p) → balanced (set_color BLACK (plug t p)).
Proof.
  intros Hp Ht Hr. destruct (plug_ok t p n Hp Ht Hr) as [m Hm]. split; [apply is_red_black|].
  by eapply ok_set_black.
Qed.

Lemma ok_red_black n t : ok n t → is_red t = true → ok (S n) (set_color BLACK t).
Proof. destruct 1; simpl; [done| |done]. intros _. by constructor. Qed.

Hint Constructors ok ctx : core.
Hint Resolve is_red_black : core.

Lemma insert_color_ok p : ∀ n elm a x b,
  elm = Node RED a x b → ok n elm → ctx n p →
  ∃ t, RB_INSERT_COLOR elm p = Ret t ∧ balanced t.
Proof.
  induction p as [|f|f g p IH] using path_ind2; intros n elm a x b -> Hok Hp.
  - eexists. split; [done|]. by apply (balanced_plug (Node RED a x b) [] n).
  - inversion Hp; subst; try done; eexists; (split; [done|]); by eapply (balanced_plug _ [_] n).
  - assert (under_black (f :: g :: p) → ∃ t, Ret (set_color BLACK (plug (Node RED a x b) (f :: g :: p))) = Ret t ∧ balanced t) as Hstop.
    { intros Hu. eexists. split; [done|]. by eapply balanced_plug. }
    inversion Hok as [|? ? ? ? Ha Hb Hra Hrb|]; subst.
    inversion Hp as [|? ? ? ? Hr Hp'|? ? ? ? Hl Hp'|? ? ? ? Hr Hrr _ Hu Hp'|? ? ? ? Hl Hlr _ Hu Hp']; subst; simpl.
    + by apply Hstop.
    + by apply Hstop.
    + inversion Hp' as [|? ? ? ? Hs Hp''|? ? ? ? Hs Hp''|? ? ? ? Hs|? ? ? ? Hs]; subst; [| |done|done].
      * destruct (is_red r0) eqn:Er; [eapply IH; eauto using ok_red_black|].
        eexists. split; [done|]. eapply balanced_plug; eauto. done.
      * destruct (is_red l) eqn:Er; [eapply IH; eauto using ok_red_black|].
        eexists. split; [done|]. eapply balanced_plug; eauto. done.
    + inversion Hp' as [|? ? ? ? Hs Hp''|? ? ? ? Hs Hp''|? ? ? ? Hs|? ? ? ? Hs]; subst; [| |done|done].
      * destruct (is_red r) eqn:Er; [eapply IH; eauto using ok_red_black|].
        eexists. split; [done|]. eapply balanced_plug; eauto. done.
      * destruct (is_red l0) eqn:Er; [eapply IH; eauto using ok_red_black|].
        eexists. split; [done|]. eapply balanced_plug; eauto. done.
Qed.


(** A subtree one black node short of [S n], or one that will not be once it
    has been painted. *)
Definition deficient n t : Prop := if is_red t then ok (S n) (set_color BLACK t) else ok n t.

Definition bh (c : color) n : nat := match c with BLACK => S n | RED => n end.

(** What a turn of the loop leaves at the parent's place. *)
Definition repaired (pc : color) n (fin : bool) t : Prop :=
  if fin then ok (bh pc (S n)) t ∧ (is_red t = true → pc = RED)
  else deficient (bh pc n) t ∧ (pc = RED → is_red t = true).

Lemma not_red t : is_black t = negb (is_red t).
Proof. done. Qed.

Lemma remove_left_ok pc px elm tmp n :
  ok n elm → is_red elm = false → ok (S n) tmp → is_red tmp = false →
  ∃ fin t, remove_left pc px elm tmp = Ret (fin, t) ∧ repaired pc n fin t.
Proof.
  intros He Hre Ht Hrt. inversion Ht as [|? ? ? ? Hl Hr|? tl tx tr Hl Hr]; subst; [done|].
  unfold remove_left, is_black. destruct (is_red tl) eqn:Etl, (is_red tr) eqn:Etr; simpl.
  - do 2 eexists. split; [done|]. split; [|by destruct pc].
    apply ok_red_black in Hr; [|done]. destruct pc; simpl; auto.
  - destruct tl as [|[] ll lx lr]; [done|done|]. inversion Hl; subst.
    do 2 eexists. split; [done|]. split; [|by destruct pc]. destruct pc; simpl; auto.
  - do 2 eexists. split; [done|]. split; [|by destruct pc].
    apply ok_red_black in Hr; [|done]. destruct pc; simpl; auto.
  - do 2 eexists. split; [done|]. unfold repaired, deficient. destruct pc; simpl; split; auto; done.
Qed.

Lemma remove_right_ok pc px elm tmp n :
  ok n elm → is_red elm = false → ok (S n) tmp → is_red tmp = false →
  ∃ fin t, remove_right pc px elm tmp = Ret (fin, t) ∧ repaired pc n fin t.
Proof.
  intros He Hre Ht Hrt. inversion Ht as [|? ? ? ? Hl Hr|? tl tx tr Hl Hr]; subst; [done|].
  unfold remove_right, is_black. destruct (is_red tl) eqn:Etl, (is_red tr) eqn:Etr; simpl.
  - do 2 eexists. split; [done|]. split; [|by destruct pc].
    apply ok_red_black in Hl; [|done]. destruct pc; simpl; auto.
  - do 2 eexists. split; [done|]. split; [|by destruct pc].
    apply ok_red_black in Hl; [|done]. destruct pc; simpl; auto.
  - destruct tr as [|[] ll lx lr]; [done|done|]. inversion Hr; subst.
    do 2 eexists. split; [done|]. split; [|by destruct pc]. destruct pc; simpl; auto.
  - do 2 eexists. split; [done|]. unfold repaired, deficient. destruct pc; simpl; split; auto; done.
Qed.

(** The turn as a whole: finished, or on at the parent with less to go. *)
Definition turned (p' : path A) (fin : bool) t p : Prop :=
  if fin then ∃ k, ctx k p ∧ ok k t ∧ (is_red t = true → under_black p)
  else ∃ k, ctx (S k) p ∧ deficient k t ∧ (length p ≤ length p' ∨ is_red t = true)%nat.

Lemma repaired_turned pc n fin t p :
  repaired pc n fin t → ctx (bh pc (S n)) p → (pc = RED → under_black p) → turned p fin t p.
Proof.
  unfold repaired, turned. destruct fin.
  - intros [Ht Hr] Hp Hu. exists (bh pc (S n)). split; [done|]. split; [done|]. auto.
  - intros [Ht Hr] Hp Hu. exists (bh pc n). split; [by destruct pc|]. split; [done|]. by left.
Qed.

Lemma repaired_red_turned n fin t f p' :
  repaired RED n fin t → ctx (S n) (f :: p') → under_black (f :: p') → turned p' fin t (f :: p').
Proof.
  unfold repaired, turned. simpl. destruct fin.
  - intros [Ht Hr] Hp Hu. exists (S n). auto.
  - intros [Ht Hr] Hp Hu. exists n. auto.
Qed.

Lemma sibling_step_ok f elm p' n :
  ctx (S n) (f :: p') → ok n elm → is_red elm = false →
  ∃ fin t p, sibling_step f elm p' = Ret (fin, t, p) ∧ turned p' fin t p.
Proof.
  intros Hp He Hre.
  assert (∃ pc, ctx (bh pc (S n)) p' ∧ (pc = RED → under_black p') ∧
    match f with
    | InLeft c x s | InRight c s x => c = pc ∧ ok (S n) s ∧ (pc = RED → is_red s = false)
    end) as (pc & Hp' & Hu & Hf) by (inversion Hp; subst; [exists BLACK|exists BLACK|exists RED|exists RED]; simpl; split_and!; done).
  destruct f as [c px s|c s px]; destruct Hf as (-> & Hs & Hred); simpl.
  - destruct (is_red s) eqn:Es.
    + destruct s as [|[] tl tx tr]; [done..|]. inversion Hs; subst.
      destruct pc; [|by specialize (Hred eq_refl)].
      destruct (remove_left_ok RED px elm tl n) as (fin & t & -> & Ht); [done..|].
      do 3 eexists. split; [done|]. apply (repaired_red_turned n); auto. done.
    + destruct (remove_left_ok pc px elm s n) as (fin & t & E & Ht); [done..|].
      exists fin, t, p'. split; [|by eapply repaired_turned].
      destruct s as [|[] tl tx tr]; [| |done]; by rewrite E.
  - destruct (is_red s) eqn:Es.
    + destruct s as [|[] tl tx tr]; [done..|]. inversion Hs; subst.
      destruct pc; [|by specialize (Hred eq_refl)].
      destruct (remove_right_ok RED px elm tr n) as (fin & t & -> & Ht); [done..|].
      do 3 eexists. split; [done|]. apply (repaired_red_turned n); auto. done.
    + destruct (remove_right_ok pc px elm s n) as (fin & t & E & Ht); [done..|].
      exists fin, t, p'. split; [|by eapply repaired_turned].
      destruct s as [|[] tl tx tr]; [| |done]; by rewrite E.
Qed.

Lemma remove_color_ok fuel : ∀ n elm p,
  ctx (S n) p → deficient n elm →
  (1 ≤ fuel)%nat → (is_red elm = true ∨ length p + 2 ≤ fuel)%nat →
  ∃ t, RB_REMOVE_COLOR fuel elm p = Ret t ∧ balanced t.
Proof.
  induction fuel as [|fuel IH]; intros n elm p Hp He Hf1 Hf; [lia|]. destruct p as [|f p'].
  - exists (set_color BLACK elm). split; [done|]. split; [done|]. unfold deficient in He.
    destruct (is_red elm) eqn:E; [by eexists|]. exists n. by rewrite set_black_id.
  - rewrite remove_color_unfold. unfold deficient in He. destruct (is_red elm) eqn:E.
    + eexists. split; [done|]. split; [by eapply plug_black|].
      eapply plug_ok; [done..|]. by rewrite is_red_black.
    + destruct Hf as [|Hf]; [done|]. simpl in Hf.
      destruct (sibling_step_ok f elm p' n Hp He E) as (fin & t & p & -> & Ht).
      cbn [mbind outcome_bind]. unfold turned in Ht. destruct fin.
      * destruct Ht as (k & Hk & Htk & Hu). eexists. split; [done|]. by eapply balanced_plug.
      * destruct Ht as (k & Hk & Htk & Hl). eapply IH; [done..|lia|]. destruct Hl; [right; lia|by left].
Qed.


(** Every place of a balanced tree. *)
Lemma focus_ok p : ∀ t, balanced (plug t p) →
  ∃ n, ctx n p ∧ ok n t ∧ (is_red t = true → under_black p ∧ p ≠ []).
Proof.
  induction p as [|f p IH]; intros t.
  - intros [Hr [n Hn]]. exists n. split; [done|]. split; [done|]. simpl in Hr. congruence.
  - simpl. intros Hb. destruct (IH _ Hb) as (n & Hp & Hok & Hr).
    destruct f as [c x r|c l x]; simpl in *; inversion Hok as [|? ? ? ? Ha Hb' Hra Hrb|? ? ? ? Ha Hb']; subst.
    + exists n. destruct (Hr eq_refl). split; [by constructor|]. split; [done|]. congruence.
    + eexists. split; [by constructor|]. done.
    + exists n. destruct (Hr eq_refl). split; [by constructor|]. split; [done|]. congruence.
    + eexists. split; [by constructor|]. done.
Qed.

Lemma descend_plug cmp t : ∀ p q, descend cmp t p = inr q → plug Leaf q = plug t p.
Proof.
  induction t as [|c l IHl x r IHr]; intros p q; simpl; [by intros [= ->]|].
  destruct (cmp x <? 0); [by intros E%IHl|]. destruct (cmp x >? 0); [by intros E%IHr|done].
Qed.

(** Whatever the comparison answers, an insertion finishes and keeps the balance. *)
Lemma RB_INSERT_total cmp x t :
  balanced t → ∃ res t', RB_INSERT cmp x t = Ret (res, t') ∧ balanced t'.
Proof.
  intros Hb. unfold RB_INSERT. destruct (descend cmp t []) as [y|q] eqn:E; [by exists (Some y), t|].
  apply descend_plug in E. cbn [plug foldl] in E. rewrite <- E in Hb.
  destruct (focus_ok q Leaf Hb) as (n & Hq & Hl & _). inversion Hl; subst.
  destruct (insert_color_ok q 0 (Node RED Leaf x Leaf) Leaf x Leaf) as (t' & Ht' & Hb'); auto.
  rewrite Ht'. by exists None, t'.
Qed.

Lemma RB_INSERT_spec cmp x t :
  balanced t → monotone cmp (inorder t) →
  ∃ res t', RB_INSERT cmp x t = Ret (res, t') ∧ balanced t' ∧
    match res with
    | Some y => t' = t ∧ y ∈ inorder t ∧ cmp y = 0
    | None => ∃ a b, inorder t = a ++ b ∧ inorder t' = a ++ x :: b ∧
        (∀ y, y ∈ a → 0 < cmp y) ∧ (∀ y, y ∈ b → cmp y < 0)
    end.
Proof.
  intros Hb Hm. unfold RB_INSERT.
  pose proof (descend_spec cmp t [] Hm) as Hd. ospecialize (Hd _ _); [by intros y ?%elem_of_nil..|].
  destruct (descend cmp t []) as [y|q] eqn:E; [by exists (Some y), t|].
  apply descend_plug in E. cbn [plug foldl] in E. rewrite <- E in Hb.
  destruct (focus_ok q Leaf Hb) as (n & Hq & Hl & _). inversion Hl; subst.
  destruct (insert_color_ok q 0 (Node RED Leaf x Leaf) Leaf x Leaf) as (t' & Ht' & Hb'); auto.
  rewrite Ht'. exists None, t'. split; [done|]. split; [done|].
  destruct Hd as (Ho & Hl' & Hr'). apply insert_color_inorder in Ht'.
  unfold around in *. simpl in *. rewrite app_nil_r in Ho. by exists (lefts q), (rights q).
Qed.

(** Splicing out a node with at most one child. *)
Lemma splice_ok (c : color) child p n :
  ctx n p →
  match c with
  | RED => ok n child ∧ is_red child = false ∧ p ≠ []
  | BLACK => ∃ k, n = S k ∧ ok k child
  end →
  ∃ t, match c with BLACK => RB_REMOVE_COLOR (2 + length p) child p | RED => Ret (plug child p) end = Ret t ∧
    balanced t.
Proof.
  intros Hp Hc. destruct c.
  - destruct Hc as (k & -> & Hk). eapply remove_color_ok; [done| |lia|right; lia].
    unfold deficient. destruct (is_red child) eqn:E; [by apply ok_red_black|done].
  - destruct Hc as (Hk & Hr & Hne). eexists. split; [done|]. split; [by eapply plug_black|].
    eapply plug_ok; [done..|]. congruence.
Qed.

Lemma leftmost_plug l : ∀ c x r p,
  let '(ec, ex, er, q) := leftmost c l x r p in plug (Node ec Leaf ex er) q = plug (Node c l x r) p.
Proof.
  induction l as [|lc ll IHl lx lr _]; intros c x r p; simpl; [done|].
  apply (IHl lc lx lr (InLeft c x r :: p)).
Qed.

Lemma remove_at_ok c l x r p :
  balanced (plug (Node c l x r) p) → ∃ t, RB_REMOVE_at c l x r p = Ret t ∧ balanced t.
Proof.
  intros Hb. destruct (focus_ok _ _ Hb) as (n & Hp & Hok & Hr). unfold RB_REMOVE_at.
  destruct l as [|lc ll lx lr]; [|destruct r as [|rc rl rx rr]].
  - apply (splice_ok _ _ _ n Hp). inversion Hok; subst; [|by eexists]. destruct (Hr eq_refl). done.
  - apply (splice_ok _ _ _ n Hp). inversion Hok; subst; [|by eexists]. destruct (Hr eq_refl). done.
  - pose proof (leftmost_plug rl rc rx rr []) as Hl.
    destruct (leftmost rc rl rx rr []) as [[[ec ex] er] q]. simpl in Hl.
    assert (balanced (plug (Node ec Leaf ex er) (q ++ InRight c (Node lc ll lx lr) ex :: p))) as Hb'.
    { unfold plug. rewrite foldl_app. fold (plug (Node ec Leaf ex er) q). rewrite Hl. simpl.
      split.
      - destruct p as [|f p]; [by destruct Hb|].
        by apply (plug_black (Node c (Node lc ll lx lr) ex (Node rc rl rx rr)) (f :: p) n).
      - apply (plug_ok (Node c (Node lc ll lx lr) ex (Node rc rl rx rr)) p n Hp); [|intros; by apply Hr]. inversion Hok; subst; by constructor. }
    destruct (focus_ok _ _ Hb') as (m & Hp' & Hok' & Hr').
    apply (splice_ok _ _ _ m Hp'). inversion Hok'; subst; [|by eexists]. destruct (Hr' eq_refl). done.
Qed.

Context `{EqDecision A}.

Lemma RB_REMOVE_spec x t a b :
  balanced t → NoDup (inorder t) → inorder t = a ++ x :: b →
  ∃ t', RB_REMOVE x t = Ret t' ∧ balanced t' ∧ inorder t' = a ++ b.
Proof.
  intros Hb Hnd Ht. destruct (locate_at x t a b Hnd Ht) as (c & l & r & q & E & -> & ->).
  unfold RB_REMOVE. rewrite E. apply locate_plug in E. cbn [plug foldl] in E. rewrite <- E in Hb.
  destruct (remove_at_ok c l x r q Hb) as (t' & Ht' & Hb'). exists t'. split; [done|]. split; [done|].
  apply remove_at_inorder in Ht'. rewrite Ht'. unfold around. by rewrite <- !app_assoc.
Qed.

Fixpoint height t : nat :=
  match t with Leaf => 0 | Node _ l _ r => S (Nat.max (height l) (height r)) end.

Lemma ok_height n t : ok n t → (height t ≤ 2 * n + (if is_red t then 1 else 0))%nat.
Proof.
  induction 1 as [|n l x r Hl IHl Hr IHr El Er|n l x r Hl IHl Hr IHr]; simpl.
  - lia.
  - rewrite El in IHl. rewrite Er in IHr. lia.
  - destruct (is_red l), (is_red r); lia.
Qed.

Lemma ok_size n t : ok n t → (2 ^ n ≤ S (length (inorder t)))%nat.
Proof.
  induction 1 as [|n l x r Hl IHl Hr IHr El Er|n l x r Hl IHl Hr IHr]; simpl; [lia| |];
    rewrite length_app; simpl; lia.
Qed.

End Balance.

(** * What the operations promise *)

Section Promises.
Context {A : Type} `{EqDecision A}.

(** A search visits at most [2 log2 (n + 1)] of [n] nodes. *)
Definition shallow (t : tree A) : Prop := (height t ≤ 2 * Nat.log2 (S (length (inorder t))))%nat.

Lemma balanced_shallow t : balanced t → shallow t.
Proof.
  intros [Hr [n Hn]]. pose proof (ok_height n t Hn) as Hh. rewrite Hr in Hh.
  pose proof (ok_size n t Hn) as Hs. unfold shallow.
  assert (n ≤ Nat.log2 (S (length (inorder t))))%nat; [|lia].
  rewrite <- (Nat.log2_pow2 n) by lia. by apply Nat.log2_le_mono.
Qed.

(** Insertion. In a balanced tree ordered by [cmp] it never follows a null
    pointer, and either reports the element the new one collides with and
    changes nothing, or puts it in its place, the result balanced again and
    logarithmically shallow. *)
Theorem RB_INSERT_correct (cmp : A → Z) x t :
  balanced t → monotone cmp (inorder t) →
  ∃ res t', RB_INSERT cmp x t = Ret (res, t') ∧ balanced t' ∧ shallow t' ∧
    match res with
    | Some y => t' = t ∧ y ∈ inorder t ∧ cmp y = 0
    | None => ∃ a b, inorder t = a ++ b ∧ inorder t' = a ++ x :: b ∧
        (∀ y, y ∈ a → 0 < cmp y) ∧ (∀ y, y ∈ b → cmp y < 0)
    end.
Proof.
  intros Hb Hm. destruct (RB_INSERT_spec cmp x t Hb Hm) as (res & t' & E & Hb' & Hres).
  exists res, t'. auto using balanced_shallow.
Qed.

(** C36: removal of a node of a balanced tree never follows a null pointer,
    runs its repair loop to the end, and leaves the other elements in order in
    a balanced, logarithmically shallow tree. *)
Theorem RB_REMOVE_correct x (t : tree A) a b :
  balanced t → NoDup (inorder t) → inorder t = a ++ x :: b →
  ∃ t', RB_REMOVE x t = Ret t' ∧ balanced t' ∧ shallow t' ∧ inorder t' = a ++ b.
Proof.
  intros Hb Hnd Ht. destruct (RB_REMOVE_spec x t a b Hb Hnd Ht) as (t' & E & Hb' & Ho).
  exists t'. auto using balanced_shallow.
Qed.

End Promises.

(** Seven keys, inserted in ascending order. *)
Definition demo_tree : tree Z :=
  foldl (λ t k, match RB_INSERT (λ y, k - y) k t with Ret (_, t) => t | Stop _ => t end) Leaf
    [1; 2; 3; 4; 5; 6; 7].

Lemma demo_tree_ok : balanced demo_tree ∧ inorder demo_tree = [1; 2; 3; 4; 5; 6; 7].
Proof.
  split; [|reflexivity]. split; [reflexivity|]. exists 2%nat.
  change demo_tree with (Node BLACK (Node BLACK Leaf 1 Leaf) 2
    (Node RED (Node BLACK Leaf 3 Leaf) 4 (Node BLACK (Node RED Leaf 5 Leaf) 6 (Node RED Leaf 7 Leaf)))).
  repeat constructor.
Qed.

Lemma RB_INSERT_correct_witness :
  ∃ t', RB_INSERT (λ y, 8 - y) 8 demo_tree = Ret (None, t') ∧ inorder t' = [1; 2; 3; 4; 5; 6; 7; 8].
Proof.
  destruct demo_tree_ok as [Hb Ho].
  destruct (RB_INSERT_correct (λ y, 8 - y) 8 demo_tree Hb) as (res & t' & E & _).
  { rewrite Ho. intros a x b y Hx Hy.
    assert (x ∈ [1; 2; 3; 4; 5; 6; 7]) as Hin by (rewrite Hx; set_solver).
    repeat (apply elem_of_cons in Hin as [->|Hin]; [lia|]). by apply elem_of_nil in Hin. }
  exists t'. vm_compute in E. injection E as <- <-. split; reflexivity.
Defined.

Lemma RB_REMOVE_correct_witness :
  ∃ t', RB_REMOVE 4 demo_tree = Ret t' ∧ inorder t' = [1; 2; 3; 5; 6; 7].
Proof.
  destruct demo_tree_ok as [Hb Ho].
  destruct (RB_REMOVE_correct 4 demo_tree [1; 2; 3] [5; 6; 7] Hb) as (t' & E & _ & _ & Ht); [|done|].
  - rewrite Ho. apply (bool_decide_eq_true_1 _). vm_compute. reflexivity.
  - exists t'. split; [exact E|exact Ht].
Defined.
