(* ===== verification/Regions.v ===== *)
(** The guest's memory map, src/mm/mm.c: regions kept in the red-black tree of
    include/util/tree.h and, in the same order, in the list of
    include/util/list.h; the struct definitions of include/mm.h.

    A region is a malloc'd struct that both containers point to, so the map is
    a heap of structs by address with the tree and the list holding addresses. *)

From S2P Require Import Prelude Host RbTree.

Definition LINUX_MAP_SHARED : Z := 0x1.
Definition LINUX_MAP_PRIVATE : Z := 0x2.
Definition LINUX_MAP_FIXED : Z := 0x10.
Definition LINUX_MAP_ANONYMOUS : Z := 0x20.

Definition PAGE_4KB : Z := 0x1000.

(** [is_page_aligned(addr, PAGE_4KB)]. *)
Definition is_page_aligned (a : Z) : bool := Z.land a (PAGE_4KB - 1) =? 0.

Record mm_region := mk_region {
  r_haddr : Z;
  r_arena_off : Z;
  r_gaddr : Z;
  r_size : Z;
  r_prot : Z;
  r_sealed : bool;
  r_flags : Z;
  r_fd : Z;
  r_reserved : bool;
  r_owns_fd : bool;
  r_shm_id : Z;
  r_pgoff : Z;
  r_global : bool;
}.

#[global] Instance mm_region_inhabited : Inhabited mm_region :=
  populate (mk_region 0 0 0 0 0 false 0 0 false false 0 0 false).

Definition set_size (n : Z) (r : mm_region) : mm_region :=
  mk_region (r_haddr r) (r_arena_off r) (r_gaddr r) n (r_prot r) (r_sealed r) (r_flags r)
    (r_fd r) (r_reserved r) (r_owns_fd r) (r_shm_id r) (r_pgoff r) (r_global r).
Definition set_prot (p : Z) (r : mm_region) : mm_region :=
  mk_region (r_haddr r) (r_arena_off r) (r_gaddr r) (r_size r) p (r_sealed r) (r_flags r)
    (r_fd r) (r_reserved r) (r_owns_fd r) (r_shm_id r) (r_pgoff r) (r_global r).
Definition set_sealed (r : mm_region) : mm_region :=
  mk_region (r_haddr r) (r_arena_off r) (r_gaddr r) (r_size r) (r_prot r) true (r_flags r)
    (r_fd r) (r_reserved r) (r_owns_fd r) (r_shm_id r) (r_pgoff r) (r_global r).
(** The memory behind a region: address, arena offset, reservation or not. *)
Definition set_memory (h off : Z) (res : bool) (r : mm_region) : mm_region :=
  mk_region h off (r_gaddr r) (r_size r) (r_prot r) (r_sealed r) (r_flags r)
    (r_fd r) res (r_owns_fd r) (r_shm_id r) (r_pgoff r) (r_global r).
Definition set_owns_fd (b : bool) (r : mm_region) : mm_region :=
  mk_region (r_haddr r) (r_arena_off r) (r_gaddr r) (r_size r) (r_prot r) (r_sealed r) (r_flags r)
    (r_fd r) (r_reserved r) b (r_shm_id r) (r_pgoff r) (r_global r).
Definition set_shm_id (i : Z) (r : mm_region) : mm_region :=
  mk_region (r_haddr r) (r_arena_off r) (r_gaddr r) (r_size r) (r_prot r) (r_sealed r) (r_flags r)
    (r_fd r) (r_reserved r) (r_owns_fd r) i (r_pgoff r) (r_global r).

(** [mm_next] is the address the next struct gets from malloc. *)
Record mm := mk_mm {
  mm_regs : gmap Z mm_region;
  mm_tree : tree Z;
  mm_list : list Z;
  mm_next : Z;
  mm_start_brk : Z;
  mm_current_brk : Z;
  mm_start_stack : Z;
  mm_top : Z;
}.

Definition with_regs (g : gmap Z mm_region) (m : mm) : mm :=
  mk_mm g (mm_tree m) (mm_list m) (mm_next m) (mm_start_brk m) (mm_current_brk m)
    (mm_start_stack m) (mm_top m).
Definition with_places (t : tree Z) (l : list Z) (m : mm) : mm :=
  mk_mm (mm_regs m) t l (mm_next m) (mm_start_brk m) (mm_current_brk m)
    (mm_start_stack m) (mm_top m).
Definition with_next (n : Z) (m : mm) : mm :=
  mk_mm (mm_regs m) (mm_tree m) (mm_list m) n (mm_start_brk m) (mm_current_brk m)
    (mm_start_stack m) (mm_top m).
Definition with_top (t : Z) (m : mm) : mm :=
  mk_mm (mm_regs m) (mm_tree m) (mm_list m) (mm_next m) (mm_start_brk m) (mm_current_brk m)
    (mm_start_stack m) t.
Definition with_brk (b : Z) (m : mm) : mm :=
  mk_mm (mm_regs m) (mm_tree m) (mm_list m) (mm_next m) (mm_start_brk m) b
    (mm_start_stack m) (mm_top m).

(** The struct at an address, and writing one of its fields. *)
Definition reg (m : mm) (id : Z) : mm_region := mm_regs m !!! id.
Definition upd (id : Z) (f : mm_region → mm_region) (m : mm) : mm :=
  with_regs (alter f id (mm_regs m)) m.

Definition user_addr_max : Z := 0x0000007fc0000000.

(** A struct's memory given back. *)
Definition free (id : Z) (m : mm) : mm := with_regs (delete id (mm_regs m)) m.

(** [init_mm] after [bzero], with [init_mmap]. *)
Definition init_mm (m : mm) : mm := mk_mm (mm_regs m) Leaf [] (mm_next m) 0 0 0 0x00000000c0000000.

(** * include/util/list.h *)

(** [list_add] of a new node after the node of [x]; the predecessor and the
    successor of a node, [None] being the list's head. *)
Fixpoint add_after (x y : Z) (l : list Z) : list Z :=
  match l with [] => [] | z :: l => if z =? x then z :: y :: l else z :: add_after x y l end.
Definition list_del (x : Z) (l : list Z) : list Z := filter (λ y, y ≠ x) l.
Fixpoint next_of (x : Z) (l : list Z) : option Z :=
  match l with [] => None | z :: l => if z =? x then head l else next_of x l end.
Fixpoint prev_of (x : Z) (p : option Z) (l : list Z) : option Z :=
  match l with [] => None | z :: l => if z =? x then p else prev_of x (Some z) l end.

(** * Lookups *)

Definition region_compare (r1 r2 : mm_region) : Z :=
  if r_gaddr r1 >=? u64 (r_gaddr r2 + r_size r2) then 1
  else if u64 (r_gaddr r1 + r_size r1) <=? r_gaddr r2 then -1
  else 0.

(** A key on the stack: everything else of the struct is zero. *)
Definition key (gaddr size : Z) : mm_region :=
  mk_region 0 0 gaddr size 0 false 0 0 false false 0 0 false.

Definition find_region (gaddr : Z) (m : mm) : option Z :=
  RB_FIND (λ id, region_compare (key gaddr 1) (reg m id)) (mm_tree m).

Fixpoint walk_left (fuel : nat) (cmp : Z → Z) (t : tree Z) (x : Z) : outcome Z :=
  match fuel with
  | O => Stop OutOfFuel
  | S fuel =>
      match RB_LEFT x t with
      | Some y => if cmp y =? 0 then walk_left fuel cmp t y else Ret x
      | None => Ret x
      end
  end.

Definition find_region_range (gaddr size : Z) (m : mm) : outcome (option Z) :=
  let cmp := λ id, region_compare (key gaddr size) (reg m id) in
  match RB_FIND cmp (mm_tree m) with
  | None => Ret None
  | Some x => y ← walk_left (length (mm_list m)) cmp (mm_tree m) x; Ret (Some y)
  end.

Definition untag_gaddr (a : Z) : Z := Z.land a 0x00ffffffffffffff.

(** The map of the guest and that of the kernel pages; [None] is NULL. *)
Definition guest_to_host (gaddr : Z) (m vkern : mm) : option Z :=
  let gaddr := untag_gaddr gaddr in
  let hit := match find_region gaddr m with
             | Some id => Some (reg m id)
             | None => reg vkern <$> find_region gaddr vkern
             end in
  match hit with
  | None => None
  | Some r => if r_reserved r then None else Some (r_haddr r + (gaddr - r_gaddr r))
  end.

(** * Changing the map *)

Section Regions.
Context {H : Type} `{HostOps H, HostIO H}.

(** What a byte fresh from malloc holds: [is_global] of the tail [split_region]
    makes is never assigned. *)
Variable junk : Z → bool.

(** The tail's descriptor and whether it owns it. *)
Definition tail_fd (r : mm_region) (h : H) : Z * bool * H :=
  if r_owns_fd r && (0 <=? r_fd r) then
    match h_dup h (r_fd r) with
    | (Some d, h) => (d, true, h)
    | (None, h) => (r_fd r, false, h)
    end
  else (r_fd r, false, h).

Definition split_region (id gaddr : Z) (m : mm) (h : H) : outcome (mm * H) :=
  assert_c (is_page_aligned gaddr);;
  let tid := mm_next m in
  let r := reg m id in
  let offset := s32 (gaddr - r_gaddr r) in
  let '(fd, owns, h) := tail_fd r h in
  let tail := mk_region (r_haddr r + offset)
                (if r_arena_off r <? 0 then -1 else s64 (r_arena_off r + offset))
                gaddr (u64 (r_size r - offset)) (r_prot r) (r_sealed r) (r_flags r)
                fd (r_reserved r) owns (r_shm_id r) (r_pgoff r) (junk tid) in
  let m := with_next (tid + 1) (with_regs (<[tid := tail]> (mm_regs m)) m) in
  let m := upd id (set_size (u64 offset)) m in
  let l := add_after id tid (mm_list m) in
  '(_, t) ← RB_INSERT (λ x, region_compare tail (reg m x)) tid (mm_tree m);
  Ret (with_places t l m, h).

Definition regions_adjoin (a b : mm_region) : bool :=
  (u64 (r_gaddr a + r_size a) =? r_gaddr b) &&
  (r_haddr a + r_size a =? r_haddr b) &&
  (r_prot a =? r_prot b) && (r_flags a =? r_flags b) &&
  Bool.eqb (r_sealed a) (r_sealed b) && Bool.eqb (r_reserved a) (r_reserved b) &&
  (r_shm_id a =? r_shm_id b) && Bool.eqb (r_global a) (r_global b) &&
  negb ((0 <=? r_fd a) || (0 <=? r_fd b)) &&
  has (r_flags a) LINUX_MAP_ANONYMOUS &&
  Bool.eqb (r_arena_off a <? 0) (r_arena_off b <? 0) &&
  negb ((0 <=? r_arena_off a) && negb (r_arena_off a + r_size a =? r_arena_off b)).

(** [id] and the struct that follows it become one. *)
Definition absorb (id next : Z) (m : mm) : outcome mm :=
  let grew := r_size (reg m next) in
  let l := list_del next (mm_list m) in
  t ← RB_REMOVE next (mm_tree m);
  Ret (upd id (λ r, set_size (u64 (r_size r + grew)) r) (free next (with_places t l m))).

Fixpoint merge_back (fuel : nat) (id : Z) (m : mm) : outcome (Z * mm) :=
  match fuel with
  | O => Stop OutOfFuel
  | S fuel =>
      match prev_of id None (mm_list m) with
      | None => Ret (id, m)
      | Some prev =>
          if regions_adjoin (reg m prev) (reg m id)
          then m ← absorb prev id m; merge_back fuel prev m
          else Ret (id, m)
      end
  end.

Fixpoint merge_forward (fuel : nat) (id : Z) (m : mm) : outcome mm :=
  match fuel with
  | O => Stop OutOfFuel
  | S fuel =>
      match next_of id (mm_list m) with
      | None => Ret m
      | Some next =>
          if regions_adjoin (reg m id) (reg m next)
          then m ← absorb id next m; merge_forward fuel id m
          else Ret m
      end
  end.

Definition merge_region (id : Z) (m : mm) : outcome mm :=
  '(id, m) ← merge_back (length (mm_list m)) id m;
  merge_forward (length (mm_list m)) id m.

(** The parameter [pgoff] is an [int]. *)
Definition record_region (haddr gaddr size prot mm_flags mm_fd pgoff : Z) (m : mm)
  : outcome (Z * mm) :=
  assert_c (negb (gaddr =? 0));;
  let id := mm_next m in
  let r := mk_region haddr (-1) gaddr size prot false mm_flags mm_fd false false (-1)
             (s32 pgoff) false in
  let m := with_next (id + 1) (with_regs (<[id := r]> (mm_regs m)) m) in
  '(clash, t) ← RB_INSERT (λ x, region_compare r (reg m x)) id (mm_tree m);
  match clash with
  | Some _ => Stop Panicked
  | None =>
      let l := match RB_PREV id t with
               | None => id :: mm_list m
               | Some prev => add_after prev id (mm_list m)
               end in
      Ret (id, with_places t l m)
  end.

Definition is_region_private (r : mm_region) : bool :=
  negb (has (r_flags r) LINUX_MAP_SHARED) && (r_fd r =? -1).

(** * src/mm/mmap.c: the allocator of addresses and the seal test *)

Definition GUEST_MMAP_GRANULE : Z := 0x1000.

Definition alloc_region (len : Z) (m : mm) : Z * mm :=
  let len := roundup len GUEST_MMAP_GRANULE in
  let top := u64 (mm_top m + len) in
  (u64 (top - len), with_top top m).

Definition range_is_sealed (addr size : Z) (m : mm) : bool :=
  existsb (λ id, let r := reg m id in
     r_sealed r && (r_gaddr r <? u64 (addr + size)) && (addr <? u64 (r_gaddr r + r_size r)))
    (mm_list m).

End Regions.

(** * The map as the guest sees it

    [look] is what stands at an address: the host byte and arena offset behind
    it and the attributes the calls act on. Splitting and merging do not change
    it; the calls that do are specified by it. *)

Definition r_end (r : mm_region) : Z := r_gaddr r + r_size r.
Definition contains (r : mm_region) (a : Z) : bool := (r_gaddr r <=? a) && (a <? r_end r).

Record view := mk_view {
  v_host : Z; v_off : Z; v_prot : Z; v_sealed : bool; v_flags : Z; v_reserved : bool; v_shm : Z;
}.

Definition view_at (r : mm_region) (a : Z) : view :=
  mk_view (r_haddr r + (a - r_gaddr r))
    (if r_arena_off r <? 0 then -1 else r_arena_off r + (a - r_gaddr r))
    (r_prot r) (r_sealed r) (r_flags r) (r_reserved r) (r_shm_id r).

Fixpoint look (l : list mm_region) (a : Z) : option view :=
  match l with
  | [] => None
  | r :: l => if contains r a then Some (view_at r a) else look l a
  end.

Definition areas (m : mm) : list mm_region := reg m <$> mm_list m.

Definition paged (x : Z) : Prop := x mod PAGE_4KB = 0.

Record region_ok (r : mm_region) : Prop := {
  ro_gaddr : paged (r_gaddr r) ∧ 0 < r_gaddr r;
  ro_size : paged (r_size r) ∧ 0 < r_size r;
  ro_end : r_end r < 2^64;
}.

Definition before (a b : mm_region) : Prop := r_end a ≤ r_gaddr b.

(** Tree and list hold the same structs in the same order, all of them live;
    the regions are whole pages, in order and disjoint. *)
Record mm_ok (m : mm) : Prop := {
  mk_bal : balanced (mm_tree m);
  mk_order : inorder (mm_tree m) = mm_list m;
  mk_nodup : NoDup (mm_list m);
  mk_heap id : id ∈ mm_list m → is_Some (mm_regs m !! id);
  mk_fresh id : is_Some (mm_regs m !! id) → id < mm_next m;
  mk_regs id : id ∈ mm_list m → region_ok (reg m id);
  mk_sorted : pairwise before (areas m);
}.

(** ** Structs and the heap *)

Lemma reg_insert_eq m id r n : reg (with_next n (with_regs (<[id := r]> (mm_regs m)) m)) id = r.
Proof. unfold reg. cbn. by rewrite lookup_total_insert_eq. Qed.

Lemma reg_insert_ne m id r n x :
  x ≠ id → reg (with_next n (with_regs (<[id := r]> (mm_regs m)) m)) x = reg m x.
Proof. intros. unfold reg. cbn. by rewrite lookup_total_insert_ne. Qed.

Lemma reg_upd_eq m id f : is_Some (mm_regs m !! id) → reg (upd id f m) id = f (reg m id).
Proof.
  intros [r Hr]. unfold reg, upd. cbn. rewrite !lookup_total_alt, lookup_alter_eq, Hr. done.
Qed.

Lemma reg_upd_ne m id f x : x ≠ id → reg (upd id f m) x = reg m x.
Proof. intros. unfold reg, upd. cbn. by rewrite !lookup_total_alt, lookup_alter_ne. Qed.

Lemma reg_free_ne m id x : x ≠ id → reg (free id m) x = reg m x.
Proof. intros. unfold reg, free. cbn. by rewrite lookup_total_delete_ne. Qed.

Lemma regs_upd_some m id f x : is_Some (mm_regs (upd id f m) !! x) ↔ is_Some (mm_regs m !! x).
Proof.
  unfold upd. cbn. destruct (decide (x = id)) as [->|Hne].
  - rewrite lookup_alter_eq. apply fmap_is_Some.
  - by rewrite lookup_alter_ne.
Qed.

Lemma reg_same_list m m' (l : list Z) : (∀ x, x ∈ l → reg m' x = reg m x) → reg m' <$> l = reg m <$> l.
Proof. intros Hl. apply list_fmap_ext. intros i x Hx. apply Hl. by eapply list_elem_of_lookup_2. Qed.

(** ** Lists *)

Lemma add_after_app x y a b : x ∉ a → add_after x y (a ++ x :: b) = a ++ x :: y :: b.
Proof.
  intros Hx. induction a as [|z a IH]; cbn; [by rewrite Z.eqb_refl|].
  apply not_elem_of_cons in Hx as [Hne Hx]. rewrite (proj2 (Z.eqb_neq z x)) by done. by rewrite IH.
Qed.

Lemma next_of_app x a b : x ∉ a → next_of x (a ++ x :: b) = head b.
Proof.
  intros Hx. induction a as [|z a IH]; cbn; [by rewrite Z.eqb_refl|].
  apply not_elem_of_cons in Hx as [Hne Hx]. rewrite (proj2 (Z.eqb_neq z x)) by done. by rewrite IH.
Qed.

Lemma prev_of_app x a b : ∀ p, x ∉ a → prev_of x p (a ++ x :: b) = last (option_list p ++ a).
Proof.
  induction a as [|z a IH]; intros p Hx; cbn.
  { rewrite Z.eqb_refl. by destruct p. }
  apply not_elem_of_cons in Hx as [Hne Hx]. rewrite (proj2 (Z.eqb_neq z x)) by done.
  rewrite IH by done. by destruct p.
Qed.

Lemma list_del_none x l : x ∉ l → list_del x l = l.
Proof.
  intros Hx. unfold list_del. induction l as [|y l IH]; [done|].
  apply not_elem_of_cons in Hx as [Hne Hx]. rewrite filter_cons_True by auto. by rewrite IH.
Qed.

Lemma list_del_app x a b : x ∉ a → x ∉ b → list_del x (a ++ x :: b) = a ++ b.
Proof.
  intros Ha Hb. unfold list_del. rewrite filter_app, filter_cons_False by auto.
  f_equal; by apply list_del_none.
Qed.

(** ** Looking up *)

Lemma look_app l k a :
  look (l ++ k) a = match look l a with Some v => Some v | None => look k a end.
Proof. induction l as [|r l IH]; cbn; [done|]. by destruct (contains r a). Qed.

Lemma look_some l a v : look l a = Some v → ∃ r, r ∈ l ∧ contains r a = true ∧ v = view_at r a.
Proof.
  induction l as [|r l IH]; cbn; [done|]. destruct (contains r a) eqn:E.
  - intros [= <-]. exists r. split; [left|done].
  - intros (r' & ? & ?)%IH. exists r'. split; [by right|done].
Qed.

Lemma look_none l a : look l a = None ↔ ∀ r, r ∈ l → contains r a = false.
Proof.
  induction l as [|r l IH]; cbn; [by split; [intros _ r ?%elem_of_nil|]|].
  setoid_rewrite elem_of_cons. destruct (contains r a) eqn:E.
  - split; [done|]. intros Hr. rewrite (Hr r) in E by auto. done.
  - rewrite IH. split; [intros Hl r' [->|?]; auto|auto].
Qed.

Lemma look_in l r a : pairwise before l → r ∈ l → contains r a = true → look l a = Some (view_at r a).
Proof.
  induction l as [|s l IH]; cbn; [by intros _ ?%elem_of_nil|]. intros [Hs Hl] [->|Hr]%elem_of_cons Hc.
  - by rewrite Hc.
  - rewrite Forall_forall in Hs. specialize (Hs r Hr). unfold before, contains in *. bool_to_prop.
    destruct ((r_gaddr s <=? a) && (a <? r_end s)) eqn:E; [bool_to_prop; lia|].
    apply IH; [done..|]. unfold contains. apply andb_true_iff. split; [by apply Z.leb_le|by apply Z.ltb_lt].
Qed.

(** ** Comparing *)

Lemma region_compare_spec k r :
  region_ok r → 0 ≤ r_gaddr k → 0 ≤ r_size k → r_end k < 2^64 →
  (region_compare k r = 1 ∧ r_end r ≤ r_gaddr k) ∨
  (region_compare k r = -1 ∧ r_gaddr k < r_end r ∧ r_end k ≤ r_gaddr r) ∨
  (region_compare k r = 0 ∧ r_gaddr k < r_end r ∧ r_gaddr r < r_end k).
Proof.
  intros [[_ ?] [_ ?] ?] ? ? ?. unfold region_compare, r_end in *.
  rewrite !u64_small by lia. case_bool; [left; bool_to_prop; lia|].
  case_bool; right; [left|right]; bool_to_prop; lia.
Qed.

Lemma areas_elem m id : id ∈ mm_list m → reg m id ∈ areas m.
Proof. intros. unfold areas. by apply list_elem_of_fmap_2. Qed.

Lemma areas_split m a id b : mm_list m = a ++ id :: b →
  areas m = (reg m <$> a) ++ reg m id :: (reg m <$> b).
Proof. unfold areas. intros ->. by rewrite fmap_app, fmap_cons. Qed.

Lemma monotone_key m k :
  mm_ok m → 0 ≤ r_gaddr k → 0 ≤ r_size k → r_end k < 2^64 →
  monotone (λ id, region_compare k (reg m id)) (mm_list m).
Proof.
  intros Hok ? ? ? a x b y Hl Hy. pose proof (mk_sorted _ Hok) as Hs.
  rewrite (areas_split m a x b Hl), pairwise_app in Hs. destruct Hs as (_ & [Hx _] & _).
  rewrite Forall_forall in Hx. specialize (Hx (reg m y) (list_elem_of_fmap_2 _ _ _ Hy)).
  assert (region_ok (reg m x)) as Hrx by (apply (mk_regs _ Hok); rewrite Hl; set_solver).
  assert (region_ok (reg m y)) as Hry by (apply (mk_regs _ Hok); rewrite Hl; set_solver).
  pose proof (region_compare_spec k _ Hrx). pose proof (region_compare_spec k _ Hry).
  destruct Hrx, Hry. unfold before, r_end in *. lia.
Qed.

(** The address is mapped exactly where [find_region] says. *)
Lemma find_region_spec a m :
  mm_ok m → 0 ≤ a < 2^64 - 1 →
  match find_region a m with
  | Some id => id ∈ mm_list m ∧ contains (reg m id) a = true
  | None => look (areas m) a = None
  end.
Proof.
  intros Hok Ha. unfold find_region.
  pose proof (RB_FIND_spec (λ id, region_compare (key a 1) (reg m id)) (mm_tree m)) as Hf.
  rewrite (mk_order _ Hok) in Hf. ospecialize (Hf _); [apply monotone_key; [done|unfold r_end; cbn [key r_gaddr r_size]; lia..]|].
  assert (∀ id, id ∈ mm_list m → region_compare (key a 1) (reg m id) = 0 ↔ contains (reg m id) a = true) as Hc.
  { intros id Hid. pose proof (region_compare_spec (key a 1) _ (mk_regs _ Hok id Hid)) as Hr.
    unfold r_end, contains in *. cbn [key r_gaddr r_size] in Hr. rewrite andb_true_iff, Z.leb_le, Z.ltb_lt. unfold r_end. lia. }
  destruct (RB_FIND _ _) as [id|].
  - destruct Hf as [Hid H0]. split; [done|]. by apply Hc.
  - apply look_none. intros r (id & -> & Hid)%list_elem_of_fmap. apply not_true_iff_false.
    rewrite <- Hc by done. by apply Hf.
Qed.

Lemma look_find a m :
  mm_ok m → 0 ≤ a < 2^64 - 1 → look (areas m) a = (λ id, view_at (reg m id) a) <$> find_region a m.
Proof.
  intros Hok Ha. pose proof (find_region_spec a m Hok Ha) as Hf.
  destruct (find_region a m) as [id|]; [|done]. destruct Hf as [Hid Hc].
  by rewrite (look_in _ (reg m id) a (mk_sorted _ Hok) (areas_elem _ _ Hid) Hc).
Qed.

(** Some byte of [gaddr, gaddr + size) is in the region. *)
Definition meets (gaddr size : Z) (r : mm_region) : Prop :=
  r_gaddr r < gaddr + size ∧ gaddr < r_end r.

Lemma compare_meets gaddr size m id :
  mm_ok m → id ∈ mm_list m → 0 ≤ gaddr → 0 ≤ size → gaddr + size < 2^64 →
  region_compare (key gaddr size) (reg m id) = 0 ↔ meets gaddr size (reg m id).
Proof.
  intros Hok Hid ? ? ?. pose proof (region_compare_spec (key gaddr size) _ (mk_regs _ Hok id Hid)) as Hr.
  unfold r_end in Hr at 1. cbn [key r_gaddr r_size] in Hr. unfold meets, r_end in *.
  cbn [key r_gaddr r_size] in *. lia.
Qed.

Lemma walk_left_spec cmp t : NoDup (inorder t) → ∀ fuel x a b,
  inorder t = a ++ x :: b → (length a < fuel)%nat → cmp x = 0 →
  ∃ y, walk_left fuel cmp t x = Ret y ∧ y ∈ inorder t ∧ cmp y = 0.
Proof.
  intros Hnd fuel. induction fuel as [|fuel IH]; intros x a b Ht Hf Hx; [lia|]. cbn.
  destruct (RB_LEFT x t) as [y|] eqn:E; [|exists x; rewrite Ht; set_solver].
  destruct (cmp y =? 0) eqn:E0; [|exists x; rewrite Ht; set_solver]. apply Z.eqb_eq in E0.
  pose proof (RB_LEFT_spec x t a b y Hnd Ht E) as Hy.
  apply list_elem_of_split in Hy as (a1 & a2 & ->).
  rewrite length_app in Hf. cbn in Hf.
  eapply (IH y a1 (a2 ++ x :: b)); [|lia|done]. by rewrite Ht, <- app_assoc.
Qed.

Lemma find_region_range_spec gaddr size m :
  mm_ok m → 0 ≤ gaddr → 0 ≤ size → gaddr + size < 2^64 →
  ∃ res, find_region_range gaddr size m = Ret res ∧
  match res with
  | Some id => id ∈ mm_list m ∧ meets gaddr size (reg m id)
  | None => ∀ id, id ∈ mm_list m → ¬ meets gaddr size (reg m id)
  end.
Proof.
  intros Hok ? ? ?. unfold find_region_range.
  pose proof (RB_FIND_spec (λ id, region_compare (key gaddr size) (reg m id)) (mm_tree m)) as Hf.
  rewrite (mk_order _ Hok) in Hf. ospecialize (Hf _).
  { apply monotone_key; [done|unfold r_end; cbn [key r_gaddr r_size]; lia..]. }
  destruct (RB_FIND _ _) as [x|].
  - destruct Hf as [Hx H0x]. pose proof Hx as (a & b & Hl)%list_elem_of_split.
    destruct (walk_left_spec (λ id, region_compare (key gaddr size) (reg m id)) (mm_tree m)
      ltac:(rewrite (mk_order _ Hok); apply Hok) (length (mm_list m)) x a b) as (y & -> & Hy & H0y).
    { by rewrite (mk_order _ Hok). } { rewrite Hl, length_app. cbn. lia. } { done. }
    exists (Some y). rewrite (mk_order _ Hok) in Hy. split; [done|]. split; [done|].
    by apply (compare_meets gaddr size m y).
  - exists None. split; [done|]. intros id Hid. rewrite <- compare_meets by done. by apply Hf.
Qed.

(** Fields of the map that are not regions. *)
Definition settings (m : mm) : Z * Z * Z * Z :=
  (mm_start_brk m, mm_current_brk m, mm_start_stack m, mm_top m).

(** A struct put into both containers between two others, next to structs that
    have not moved. *)
Lemma mm_ok_insert m m' id a b :
  mm_ok m → mm_list m = a ++ b → mm_list m' = a ++ id :: b →
  balanced (mm_tree m') → inorder (mm_tree m') = mm_list m' →
  mm_regs m !! id = None → is_Some (mm_regs m' !! id) →
  (∀ x, x ≠ id → mm_regs m' !! x = mm_regs m !! x) → mm_next m' = mm_next m + 1 → id < mm_next m' →
  region_ok (reg m' id) → (∀ x, x ∈ a → before (reg m x) (reg m' id)) →
  (∀ x, x ∈ b → before (reg m' id) (reg m x)) → mm_ok m'.
Proof.
  intros Hok Hl Hl' Hb Ho Hid Hid' Hne Hn Hlt Hr Ha' Hb'.
  assert (id ∉ mm_list m) as Hnin by (intros ?%(mk_heap _ Hok); rewrite Hid in *; by destruct H).
  assert (∀ x, x ∈ mm_list m → reg m' x = reg m x) as Hsame.
  { intros x Hx. unfold reg. rewrite !lookup_total_alt, Hne; [done|]. by intros ->. }
  pose proof (mk_nodup _ Hok) as Hnd. rewrite Hl in *.
  split; try done.
  - rewrite Hl'. apply NoDup_app. apply NoDup_app in Hnd as (? & ? & ?).
    split; [done|]. split; [set_solver|]. apply NoDup_cons. set_solver.
  - intros x. rewrite Hl'. intros Hx. destruct (decide (x = id)) as [->|Hx']; [done|].
    rewrite Hne by done. apply (mk_heap _ Hok). rewrite Hl. set_solver.
  - intros x Hx. destruct (decide (x = id)) as [->|Hx']; [done|]. rewrite Hne in Hx by done.
    apply (mk_fresh _ Hok) in Hx. lia.
  - intros x Hx. destruct (decide (x = id)) as [->|Hx']; [done|]. rewrite Hl' in Hx.
    rewrite Hsame by set_solver. apply (mk_regs _ Hok). rewrite Hl. set_solver.
  - pose proof (mk_sorted _ Hok) as Hs. unfold areas in *. rewrite Hl, fmap_app in Hs. rewrite Hl', fmap_app, fmap_cons.
    rewrite (reg_same_list m m' a), (reg_same_list m m' b) by (intros; apply Hsame; set_solver).
    apply pairwise_app in Hs as (Hs1 & Hs2 & Hs3). apply pairwise_app. split; [done|]. split.
    + cbn. split; [|done]. apply Forall_fmap, Forall_forall. auto.
    + intros r1 r2 (x & -> & Hx)%list_elem_of_fmap [->|Hy]%elem_of_cons; [auto|].
      apply Hs3; [by apply list_elem_of_fmap_2|done].
Qed.

Lemma areas_upd m id f a b :
  mm_ok m → mm_list m = a ++ id :: b →
  areas (upd id f m) = (reg m <$> a) ++ f (reg m id) :: (reg m <$> b).
Proof.
  intros Hok Hl. pose proof (mk_nodup _ Hok) as Hnd.
  assert (is_Some (mm_regs m !! id)) by (apply (mk_heap _ Hok); rewrite Hl; set_solver).
  unfold areas. change (mm_list (upd id f m)) with (mm_list m). rewrite Hl in *.
  apply NoDup_app in Hnd as (_ & Hnd & Hnd'). apply NoDup_cons in Hnd' as [Hb _].
  rewrite fmap_app, fmap_cons, reg_upd_eq by done.
  rewrite !(reg_same_list m (upd id f m)); [done|intros x Hx; apply reg_upd_ne; set_solver..].
Qed.

(** A struct written in place, without reaching the next. *)
Lemma mm_ok_write m id f a b :
  mm_ok m → mm_list m = a ++ id :: b → region_ok (f (reg m id)) →
  r_gaddr (f (reg m id)) = r_gaddr (reg m id) → (∀ x, x ∈ b → before (f (reg m id)) (reg m x)) →
  mm_ok (upd id f m).
Proof.
  intros Hok Hl Hr Hg He. pose proof Hok as [].
  split; try done.
  - intros x Hx. rewrite regs_upd_some. auto.
  - intros x. rewrite regs_upd_some. apply mk_fresh0.
  - intros x Hx. destruct (decide (x = id)) as [->|Hne]; [by rewrite reg_upd_eq by auto|].
    rewrite reg_upd_ne by done. by apply mk_regs0.
  - rewrite (areas_upd m id f a b) by done. rewrite (areas_split m a id b) in mk_sorted0 by done.
    apply pairwise_app in mk_sorted0 as (Hs1 & [Hs2 Hs2'] & Hs3).
    apply pairwise_app. split; [done|]. cbn. rewrite Forall_forall. split; [split; [|done]|].
    + intros y (x & -> & Hx)%list_elem_of_fmap. auto.
    + intros x y Hx [->|Hy]%elem_of_cons; [|apply Hs3; [done|by right]].
      specialize (Hs3 x (reg m id) Hx ltac:(left)). unfold before in *. lia.
Qed.

Lemma mm_ok_upd m id f :
  mm_ok m → id ∈ mm_list m → region_ok (f (reg m id)) →
  r_gaddr (f (reg m id)) = r_gaddr (reg m id) → r_end (f (reg m id)) ≤ r_end (reg m id) →
  mm_ok (upd id f m).
Proof.
  intros Hok Hid Hr Hg He. pose proof Hid as (a & b & Hl)%list_elem_of_split.
  apply (mm_ok_write m id f a b); try done. intros x Hx. pose proof (mk_sorted _ Hok) as Hs.
  rewrite (areas_split m a id b Hl) in Hs. apply pairwise_app in Hs as (_ & [Hs _] & _).
  rewrite Forall_forall in Hs. specialize (Hs _ (list_elem_of_fmap_2 (reg m) _ _ Hx)). unfold before in *. lia.
Qed.

Lemma fresh_none m : mm_ok m → mm_regs m !! mm_next m = None.
Proof.
  intros Hok. destruct (mm_regs m !! mm_next m) eqn:E; [|done].
  pose proof (mk_fresh _ Hok (mm_next m) ltac:(by rewrite E)). lia.
Qed.

Lemma fresh_not_in m : mm_ok m → mm_next m ∉ mm_list m.
Proof. intros Hok [r Hr]%(mk_heap _ Hok). by rewrite fresh_none in Hr. Qed.

(** [m'] is [m] with the struct [id] now [r], put between the structs of [a]
    and those of [b]. *)
Record placed m a id r b m' : Prop := {
  pl_ok : mm_ok m';
  pl_list : mm_list m' = a ++ id :: b;
  pl_reg : reg m' id = r;
  pl_same x : x ≠ id → reg m' x = reg m x;
  pl_settings : settings m' = settings m;
  pl_next : mm_next m' = mm_next m + 1;
}.

Lemma compare_any m r x :
  mm_ok m → x ∈ mm_list m → region_ok r →
  (0 < region_compare r (reg m x) ↔ before (reg m x) r) ∧
  (region_compare r (reg m x) < 0 ↔ before r (reg m x)) ∧
  (region_compare r (reg m x) = 0 ↔ meets (r_gaddr r) (r_size r) (reg m x)).
Proof.
  intros Hok Hx [[_ ?] [_ ?] ?]. pose proof (mk_regs _ Hok x Hx) as Hr.
  pose proof (region_compare_spec r _ Hr). destruct Hr as [[_ ?] [_ ?] ?].
  unfold before, meets, r_end in *. lia.
Qed.

(** The place the tree finds for a region is its place in the order. *)
Lemma tree_insert m m1 id r :
  mm_ok m → (∀ x, x ∈ mm_list m → reg m1 x = reg m x) → region_ok r →
  ∃ res t, RB_INSERT (λ x, region_compare r (reg m1 x)) id (mm_tree m) = Ret (res, t) ∧ balanced t ∧
  match res with
  | Some y => y ∈ mm_list m ∧ meets (r_gaddr r) (r_size r) (reg m y)
  | None => ∃ a b, mm_list m = a ++ b ∧ inorder t = a ++ id :: b ∧
      (∀ x, x ∈ a → before (reg m x) r) ∧ (∀ x, x ∈ b → before r (reg m x))
  end.
Proof.
  intros Hok Hsame Hr. pose proof Hr as [[_ Hg] [_ Hs] He].
  destruct (RB_INSERT_spec (λ x, region_compare r (reg m1 x)) id (mm_tree m)) as (res & t & Hi & Hbal & Hres).
  { apply Hok. }
  { rewrite (mk_order _ Hok). pose proof (monotone_key m r Hok) as Hm.
    intros a x b y Hl Hy. rewrite !Hsame by (rewrite Hl; set_solver). apply (Hm ltac:(lia) ltac:(lia) He a x b y Hl Hy). }
  exists res, t. split; [done|]. split; [done|]. rewrite (mk_order _ Hok) in Hres.
  destruct res as [y|].
  - destruct Hres as (_ & Hy & H0y). split; [done|]. rewrite Hsame in H0y by done. by apply compare_any in H0y.
  - destruct Hres as (a & b & Hl & Ht & Ha & Hb). exists a, b. split; [done|]. split; [done|].
    split; intros x Hx; [specialize (Ha x Hx)|specialize (Hb x Hx)];
      rewrite Hsame in * by (rewrite Hl; set_solver); eapply compare_any; eauto; rewrite Hl; set_solver.
Qed.

Lemma before_not_meets r s : region_ok r → before r s ∨ before s r → ¬ meets (r_gaddr r) (r_size r) s.
Proof. intros [[_ ?] [_ ?] ?]. unfold before, meets, r_end in *. lia. Qed.

(** ... and it finds it when the neighbours are known to leave room. *)
Lemma tree_insert_at m m1 id r a b :
  mm_ok m → (∀ x, x ∈ mm_list m → reg m1 x = reg m x) → region_ok r → mm_list m = a ++ b →
  (∀ x, x ∈ a → before (reg m x) r) → (∀ x, x ∈ b → before r (reg m x)) →
  ∃ t, RB_INSERT (λ x, region_compare r (reg m1 x)) id (mm_tree m) = Ret (None, t) ∧ balanced t ∧
    inorder t = a ++ id :: b.
Proof.
  intros Hok Hsame Hr Hl Ha Hb. destruct (tree_insert m m1 id r Hok Hsame Hr) as (res & t & Hi & Hbal & Hres).
  destruct res as [y|].
  { exfalso. destruct Hres as [Hy Hm]. revert Hm. apply before_not_meets; [done|].
    rewrite Hl in Hy. apply elem_of_app in Hy as [?|?]; auto. }
  destruct Hres as (a' & b' & Hl' & Ht & Ha' & Hb').
  assert (∀ x, x ∈ mm_list m → before r (reg m x) → ¬ before (reg m x) r) as Hanti.
  { intros x Hx. destruct (mk_regs _ Hok x Hx) as [_ [_ ?] _]. destruct Hr as [_ [_ ?] _].
    unfold before, r_end. lia. }
  destruct (partition_inj (λ x, before (reg m x) r) a' b' a b) as [-> ->]; try done; [congruence|..].
  - intros x Hx. apply Hanti; [rewrite Hl'; set_solver|auto].
  - intros x Hx. apply Hanti; [rewrite Hl; set_solver|auto].
  - by exists t.
Qed.

Lemma placed_new m m1 id r a b t :
  mm_ok m → mm_list m = a ++ b → balanced t → inorder t = a ++ id :: b →
  mm_regs m !! id = None → mm_regs m1 !! id = Some r → (∀ x, x ≠ id → mm_regs m1 !! x = mm_regs m !! x) →
  mm_next m1 = mm_next m + 1 → id < mm_next m1 → settings m1 = settings m → region_ok r →
  (∀ x, x ∈ a → before (reg m x) r) → (∀ x, x ∈ b → before r (reg m x)) →
  placed m a id r b (with_places t (a ++ id :: b) m1).
Proof.
  intros Hok Hl Hbal Ht Hn Hid Hne Hnext Hlt Hset Hr Ha Hb.
  assert (reg (with_places t (a ++ id :: b) m1) id = r) as Hrid by (unfold reg; cbn; by rewrite lookup_total_alt, Hid).
  split; try done.
  - eapply (mm_ok_insert m _ id a b); try done; by rewrite Hrid.
  - intros x Hx. unfold reg. cbn. by rewrite !lookup_total_alt, Hne.
Qed.

Lemma record_region_spec haddr gaddr size prot flags fd pgoff m :
  mm_ok m → let r := mk_region haddr (-1) gaddr size prot false flags fd false false (-1) (s32 pgoff) false in
  region_ok r →
  match record_region haddr gaddr size prot flags fd pgoff m with
  | Ret (id, m') => id = mm_next m ∧ ∃ a b, mm_list m = a ++ b ∧ placed m a id r b m' ∧
      ∀ x, x ∈ mm_list m → ¬ meets gaddr size (reg m x)
  | Stop w => w = Panicked ∧ ∃ x, x ∈ mm_list m ∧ meets gaddr size (reg m x)
  end.
Proof.
  intros Hok r Hr. unfold record_region.
  rewrite (proj2 (Z.eqb_neq gaddr 0)) by (pose proof (proj2 (ro_gaddr _ Hr)); cbn in *; lia).
  cbn [negb assert_c mbind outcome_bind]. fold r. set (id := mm_next m). set (m1 := with_next _ _).
  pose proof (fresh_not_in m Hok) as Hnin. fold id in Hnin.
  destruct (tree_insert m m1 id r Hok) as (res & t & Hi & Hbal & Hres); [|done|].
  { intros x Hx. apply reg_insert_ne. by intros ->. }
  change (mm_tree m1) with (mm_tree m). change (mm_list m1) with (mm_list m). rewrite Hi. cbn [mbind outcome_bind].
  destruct res as [y|]; [split; [done|by exists y]|].
  destruct Hres as (a & b & Hl & Ht & Ha & Hb). split; [done|]. exists a, b. split; [done|].
  assert (NoDup (a ++ id :: b)) as Hndt.
  { pose proof (mk_nodup _ Hok) as Hnd. rewrite Hl in Hnd, Hnin. apply NoDup_app in Hnd as (? & ? & ?).
    apply NoDup_app. split; [done|]. split; [set_solver|]. apply NoDup_cons. set_solver. }
  assert (match RB_PREV id t with None => id :: mm_list m | Some prev => add_after prev id (mm_list m) end
          = a ++ id :: b) as ->.
  { rewrite (RB_PREV_spec id t a b), Hl by (rewrite ?Ht; done). destruct a as [|p a _] using rev_ind; [done|].
    rewrite last_snoc, <- !app_assoc. cbn. apply add_after_app.
    pose proof (mk_nodup _ Hok) as Hnd. rewrite Hl, <- app_assoc in Hnd. apply NoDup_app in Hnd as (_ & Hd & _). set_solver. }
  split; [|intros x; rewrite Hl; intros [Hx|Hx]%elem_of_app; apply (before_not_meets r); auto].
  apply placed_new; try done; cbn; [by apply fresh_none|by rewrite lookup_insert_eq| |lia].
  intros x Hne. by rewrite lookup_insert_ne.
Qed.

Lemma placed_areas m a id r b m' :
  placed m a id r b m' → areas m' = (reg m <$> a) ++ r :: (reg m <$> b).
Proof.
  intros [Hok Hl Hr Hs _ _]. rewrite (areas_split m' a id b Hl), Hr.
  pose proof (mk_nodup _ Hok) as Hnd. rewrite Hl in Hnd. apply NoDup_app in Hnd as (_ & Hd & Hb%NoDup_cons).
  rewrite (reg_same_list m m' a), (reg_same_list m m' b); [done|intros x Hx; apply Hs; set_solver..].
Qed.

(** The upper part of a region cut at [gaddr]. *)
Definition tail_of (r : mm_region) (gaddr fd : Z) (owns junk : bool) : mm_region :=
  mk_region (r_haddr r + (gaddr - r_gaddr r))
    (if r_arena_off r <? 0 then -1 else r_arena_off r + (gaddr - r_gaddr r))
    gaddr (r_end r - gaddr) (r_prot r) (r_sealed r) (r_flags r)
    fd (r_reserved r) owns (r_shm_id r) (r_pgoff r) junk.

(** The two parts show what the region showed. *)
Lemma look_split r gaddr fd owns j x :
  r_gaddr r < gaddr < r_end r →
  look [set_size (gaddr - r_gaddr r) r; tail_of r gaddr fd owns j] x = look [r] x.
Proof.
  intros Hg. unfold look, contains, tail_of, r_end in *. cbn.
  destruct ((r_gaddr r <=? x) && (x <? r_gaddr r + (gaddr - r_gaddr r))) eqn:E1; bool_to_prop.
  - rewrite (proj2 (Z.leb_le _ _)), (proj2 (Z.ltb_lt _ _)) by lia. done.
  - destruct ((gaddr <=? x) && (x <? gaddr + (r_gaddr r + r_size r - gaddr))) eqn:E2; bool_to_prop.
    + rewrite (proj2 (Z.leb_le (r_gaddr r) x)), (proj2 (Z.ltb_lt x (_ + r_size r))) by lia. cbn [andb]. f_equal. unfold view_at. cbn.
      replace (r_haddr r + (gaddr - r_gaddr r) + (x - gaddr)) with (r_haddr r + (x - r_gaddr r)) by lia.
      destruct (r_arena_off r <? 0) eqn:E; [done|]. bool_to_prop. rewrite (proj2 (Z.ltb_ge _ _)) by lia.
      by replace (r_arena_off r + (gaddr - r_gaddr r) + (x - gaddr)) with (r_arena_off r + (x - r_gaddr r)) by lia.
    + destruct ((r_gaddr r <=? x) && (x <? r_gaddr r + r_size r)) eqn:E3; [|done]. bool_to_prop. exfalso.
      apply andb_false_iff in E1, E2. rewrite Z.leb_gt, Z.ltb_ge in E1, E2. lia.
Qed.

Lemma region_ok_cut r gaddr fd owns j :
  region_ok r → paged gaddr → r_gaddr r < gaddr < r_end r →
  region_ok (set_size (gaddr - r_gaddr r) r) ∧ region_ok (tail_of r gaddr fd owns j).
Proof.
  intros [[Hg ?] [Hs ?] ?] Hp Hr. unfold r_end, paged, PAGE_4KB in *. split; split; unfold r_end, tail_of;
    cbn [set_size r_gaddr r_size]; unfold r_end, paged, PAGE_4KB; try lia; split; lia || lia_mod.
Qed.

Lemma is_page_aligned_spec x : is_page_aligned x = true ↔ paged x.
Proof.
  unfold is_page_aligned, paged. change (PAGE_4KB - 1) with (Z.ones 12). rewrite Z.land_ones by done.
  apply Z.eqb_eq.
Qed.

(** What a call that only opens descriptors leaves as it was. *)
Definition host_more {H} `{HostOps H} (h h' : H) : Prop :=
  (∀ a, h_back h' a = h_back h a) ∧
  (∀ a, h_back h a ≠ None → h_mem h' a = h_mem h a) ∧
  (∀ f, h_open h f = true → h_open h' f = true ∧ h_fsize h' f = h_fsize h f ∧
     ∀ o, h_file h' f o = h_file h f o).

Lemma host_more_refl {H} `{HostOps H} (h : H) : host_more h h.
Proof. by repeat split. Qed.

Lemma host_more_trans {H} `{HostOps H} (h h1 h2 : H) : host_more h h1 → host_more h1 h2 → host_more h h2.
Proof.
  intros (Ha & Hb & Hc) (Ha' & Hb' & Hc'). split; [congruence|]. split.
  - intros a Hn. rewrite Hb', Hb by congruence. done.
  - intros f (Ho & Hs & Hf)%Hc. destruct (Hc' f Ho) as (? & ? & Hf'). split; [done|]. split; [congruence|].
    intros o. by rewrite Hf', Hf.
Qed.

Lemma host_eq_more {H} `{HostOps H} (h h' : H) : host_eq h h' → host_more h h'.
Proof.
  intros (Ha & Hb & Hf & Ho & Hs). split; [done|]. split; [done|]. intros f. rewrite Ho, Hs. auto.
Qed.

Lemma new_fd_more {H} `{HostOps H} (h : H) d h' : new_fd h d h' → host_more h h'.
Proof.
  intros (_ & Hd & _ & Ha & Hb & Ho & Hf). split; [done|]. split; [done|]. intros f Hof.
  assert (f ≠ d) as Hne by (intros ->; congruence). destruct (Ho f Hne) as [-> ->]. auto.
Qed.

Section RegionFacts.
Context {H : Type} `{HIO : HostIOLaws H}.

Lemma tail_fd_more r (h : H) : host_more h (tail_fd r h).2.
Proof.
  unfold tail_fd. destruct (_ && _); [|apply host_more_refl].
  destruct (h_dup h (r_fd r)) as [[d|] h'] eqn:E; cbn.
  - by eapply new_fd_more, dup_some.
  - by eapply host_eq_more, dup_none.
Qed.

Lemma split_sides m id a b :
  mm_ok m → mm_list m = a ++ id :: b → ∀ x, x ∈ a ∨ x ∈ b →
  x ≠ id ∧ (x ∈ a → before (reg m x) (reg m id)) ∧ (x ∈ b → before (reg m id) (reg m x)).
Proof.
  intros Hok Hl x Hx. pose proof (mk_sorted _ Hok) as Hs. rewrite (areas_split m a id b Hl) in Hs.
  apply pairwise_app in Hs as (_ & [Hs2 _] & Hs3). rewrite Forall_forall in Hs2.
  pose proof (mk_nodup _ Hok) as Hnd. rewrite Hl in Hnd. apply NoDup_app in Hnd as (_ & Hd & [Hb _]%NoDup_cons).
  split; [set_solver|]. split; intros Hin.
  - apply Hs3; [by apply list_elem_of_fmap_2|left].
  - apply Hs2. by apply list_elem_of_fmap_2.
Qed.

Lemma split_region_spec junk id gaddr m (h : H) a b :
  mm_ok m → mm_list m = a ++ id :: b → paged gaddr →
  r_gaddr (reg m id) < gaddr < r_end (reg m id) →
  gaddr - r_gaddr (reg m id) < 2^31 → r_arena_off (reg m id) + r_size (reg m id) < 2^63 →
  let '(fd, owns, h') := tail_fd (reg m id) h in
  ∃ m', split_region junk id gaddr m h = Ret (m', h') ∧
    placed (upd id (set_size (gaddr - r_gaddr (reg m id))) m) (a ++ [id]) (mm_next m)
      (tail_of (reg m id) gaddr fd owns (junk (mm_next m))) b m'.
Proof.
  intros Hok Hl Hp Hg Ho Ha. unfold split_region. rewrite (proj2 (is_page_aligned_spec _) Hp).
  cbn [assert_c mbind outcome_bind]. destruct (tail_fd (reg m id) h) as [[fd owns] h']. set (r := reg m id) in *. set (tid := mm_next m) in *.
  assert (id ∈ mm_list m) as Hid by (rewrite Hl; set_solver).
  pose proof (mk_regs _ Hok id Hid) as Hr. fold r in Hr. pose proof Hr as [[Hgp ?] [Hsp ?] ?].
  assert (s32 (gaddr - r_gaddr r) = gaddr - r_gaddr r) as -> by (apply s32_small; lia).
  assert (u64 (r_size r - (gaddr - r_gaddr r)) = r_end r - gaddr) as ->
    by (unfold r_end in *; rewrite u64_small; lia).
  assert (u64 (gaddr - r_gaddr r) = gaddr - r_gaddr r) as -> by (unfold r_end in *; apply u64_small; lia).
  assert ((if r_arena_off r <? 0 then -1 else s64 (r_arena_off r + (gaddr - r_gaddr r))) =
     (if r_arena_off r <? 0 then -1 else r_arena_off r + (gaddr - r_gaddr r))) as ->.
  { destruct (r_arena_off r <? 0) eqn:E; [done|]. bool_to_prop. unfold r_end in *. apply s64_small. lia. }
  fold (tail_of r gaddr fd owns (junk tid)). set (tail := tail_of r gaddr fd owns (junk tid)).
  set (m0 := upd id (set_size (gaddr - r_gaddr r)) m). set (m1 := upd id _ (with_next _ _)).
  destruct (region_ok_cut r gaddr fd owns (junk tid) Hr Hp Hg) as [Hhead Htail]. fold tail in Htail.
  assert (mm_ok m0) as Hok0.
  { apply mm_ok_upd; [done|done|done|done|]. fold r. unfold r_end in *. cbn [set_size r_gaddr r_size]. lia. }
  pose proof (fresh_not_in m Hok) as Hnin. fold tid in Hnin.
  assert (∀ x, x ≠ tid → mm_regs m1 !! x = mm_regs m0 !! x) as Hregs.
  { intros x Hx. unfold m1, m0, upd. cbn. destruct (decide (x = id)) as [->|Hne].
    - by rewrite !lookup_alter_eq, lookup_insert_ne.
    - by rewrite !lookup_alter_ne, lookup_insert_ne. }
  assert (reg m0 id = set_size (gaddr - r_gaddr r) r) as Hid0 by (apply reg_upd_eq, (mk_heap _ Hok), Hid).
  pose proof (split_sides m id a b Hok Hl) as Hsides. fold r in Hsides.
  assert (∀ x, x ∈ a ++ [id] → before (reg m0 x) tail) as Hlow.
  { intros x [Hx| ->%list_elem_of_singleton]%elem_of_app.
    - destruct (Hsides x) as (Hne & Hb & _); [by left|]. unfold m0. rewrite reg_upd_ne by done.
      specialize (Hb Hx). unfold before in *. cbn. lia.
    - rewrite Hid0. unfold before, r_end. cbn. lia. }
  assert (∀ x, x ∈ b → before tail (reg m0 x)) as Hhigh.
  { intros x Hx. destruct (Hsides x) as (Hne & _ & Ha'); [by right|]. unfold m0. rewrite reg_upd_ne by done.
    specialize (Ha' Hx). unfold before, r_end in *. cbn. unfold r_end. lia. }
  assert (mm_list m0 = (a ++ [id]) ++ b) as Hl0 by (by rewrite <- app_assoc).
  destruct (tree_insert_at m0 m1 tid tail (a ++ [id]) b Hok0) as (t & Hi & Hbal & Ht); try done.
  { intros x Hx. unfold reg. rewrite !lookup_total_alt, Hregs; [done|]. by intros ->. }
  change (mm_tree m1) with (mm_tree m0). change (mm_list m1) with (mm_list m).
  rewrite Hi. cbn [mbind outcome_bind]. exists (with_places t ((a ++ [id]) ++ tid :: b) m1).
  split. { do 3 f_equal. rewrite Hl, <- app_assoc. apply add_after_app.
    pose proof (mk_nodup _ Hok) as Hnd. rewrite Hl in Hnd. apply NoDup_app in Hnd as (_ & Hd & _). set_solver. }
  apply placed_new; try done.
  - assert (id ≠ tid) by (intros ->; done). unfold m0, upd. cbn. rewrite lookup_alter_ne by congruence. by apply fresh_none.
  - assert (id ≠ tid) by (intros ->; done). unfold m1, upd. cbn. rewrite lookup_alter_ne by congruence. by rewrite lookup_insert_eq.
  - cbn. lia.
Qed.


(** [m'] is [m] without the struct [id]. *)
Record dropped m a id b m' : Prop := {
  dr_ok : mm_ok m';
  dr_list : mm_list m' = a ++ b;
  dr_same x : x ≠ id → reg m' x = reg m x;
  dr_settings : settings m' = settings m;
  dr_next : mm_next m' = mm_next m;
}.

Lemma list_parts m a id b :
  mm_ok m → mm_list m = a ++ id :: b → (id ∉ a) ∧ (id ∉ b) ∧ ∀ x, x ∈ a → x ∉ b.
Proof.
  intros Hok Hl. pose proof (mk_nodup _ Hok) as Hnd. rewrite Hl in Hnd.
  apply NoDup_app in Hnd as (_ & Hd & [Hb _]%NoDup_cons). set_solver.
Qed.

Lemma remove_spec m a id b :
  mm_ok m → mm_list m = a ++ id :: b →
  ∃ t, RB_REMOVE id (mm_tree m) = Ret t ∧
    dropped m a id b (free id (with_places t (list_del id (mm_list m)) m)).
Proof.
  intros Hok Hl. destruct (list_parts m a id b Hok Hl) as (Ha & Hb & _). pose proof Hok as [].
  destruct (RB_REMOVE_spec id (mm_tree m) a b) as (t & Hr & Hbal & Ht); [done|by rewrite mk_order0..|].
  exists t. split; [done|]. assert (list_del id (mm_list m) = a ++ b) as Hd by (rewrite Hl; by apply list_del_app).
  rewrite Hd. assert (∀ x, x ∈ a ++ b → x ∈ mm_list m ∧ x ≠ id) as Hin by (rewrite Hl; set_solver).
  assert (∀ x, x ≠ id → reg (free id (with_places t (a ++ b) m)) x = reg m x) as Hsame
    by (intros x Hne; exact (reg_free_ne (with_places t (a ++ b) m) id x Hne)).
  split; try done. split; try done; cbn.
  - rewrite Hl in mk_nodup0. apply NoDup_app in mk_nodup0 as (? & ? & [_ ?]%NoDup_cons). apply NoDup_app. set_solver.
  - intros x [Hx Hne]%Hin. rewrite lookup_delete_ne by done. auto.
  - intros x [r [_ Hx]%lookup_delete_Some]. apply mk_fresh0. by rewrite Hx.
  - intros x [Hx Hne]%Hin. rewrite Hsame by done. by apply mk_regs0.
  - unfold areas. cbn. rewrite (reg_same_list m), fmap_app; [|intros x [_ Hne]%Hin; by apply Hsame].
    rewrite (areas_split m a id b Hl) in mk_sorted0. apply pairwise_app in mk_sorted0 as (? & [_ ?] & Hs).
    apply pairwise_app. split; [done|]. split; [done|]. intros x y Hx Hy. apply Hs; [done|by right].
Qed.

Lemma dropped_areas m a id b m' :
  mm_ok m → mm_list m = a ++ id :: b → dropped m a id b m' → areas m' = (reg m <$> a) ++ (reg m <$> b).
Proof.
  intros Hok Hl [_ Hl' Hs _ _]. destruct (list_parts m a id b Hok Hl) as (Ha & Hb & _).
  unfold areas. rewrite Hl', fmap_app.
  rewrite !(reg_same_list m m'); [done|intros x Hx; apply Hs; set_solver..].
Qed.

(** ** Merging *)

Lemma adjoin_spec r s :
  region_ok r → regions_adjoin r s = true →
  r_gaddr s = r_end r ∧ r_haddr s = r_haddr r + r_size r ∧ r_prot s = r_prot r ∧ r_flags s = r_flags r ∧
  r_sealed s = r_sealed r ∧ r_reserved s = r_reserved r ∧ r_shm_id s = r_shm_id r ∧
  (if r_arena_off r <? 0 then r_arena_off s < 0 else r_arena_off s = r_arena_off r + r_size r) ∧
  r_global s = r_global r ∧ r_fd r < 0 ∧ r_fd s < 0.
Proof.
  intros [[_ ?] [_ ?] He] Ha. unfold regions_adjoin, r_end in *.
  repeat match type of Ha with (_ && _) = true => apply andb_true_iff in Ha as [Ha ?] end.
  repeat match goal with E : Bool.eqb _ _ = true |- _ => apply Bool.eqb_prop in E end.
  rewrite u64_small in Ha by lia. bool_to_prop.
  destruct (r_arena_off r <? 0) eqn:E; bool_to_prop.
  - assert (r_arena_off s < 0) by (by apply Z.ltb_lt). repeat split; congruence || lia.
  - rewrite (proj2 (Z.leb_le 0 (r_arena_off r))) in * by done.
    repeat match goal with E : negb (true && negb _) = true |- _ => cbn in E; rewrite negb_involutive in E end.
    bool_to_prop. repeat split; congruence || lia.
Qed.

(** Two regions that adjoin show what one of their joint length shows. *)
Lemma look_join r s x :
  region_ok r → region_ok s → regions_adjoin r s = true →
  look [r; s] x = look [set_size (r_size r + r_size s) r] x.
Proof.
  intros Hr Hs Ha. destruct (adjoin_spec r s Hr Ha) as (Hg & Hh & Hp & Hf & Hse & Hre & Hsh & Ho & _).
  destruct Hr as [_ [_ ?] _], Hs as [_ [_ ?] _]. unfold look, contains, r_end in *. cbn. rewrite Hg.
  destruct ((r_gaddr r <=? x) && (x <? r_gaddr r + r_size r)) eqn:E1; bool_to_prop.
  - rewrite (proj2 (Z.leb_le _ _)), (proj2 (Z.ltb_lt _ _)) by lia. done.
  - destruct ((r_gaddr r + r_size r <=? x) && (x <? r_gaddr r + r_size r + r_size s)) eqn:E2; bool_to_prop.
    + rewrite (proj2 (Z.leb_le (r_gaddr r) x)), (proj2 (Z.ltb_lt x (_ + (_ + _)))) by lia. cbn [andb]. f_equal.
      unfold view_at. cbn. rewrite Hg, Hh, Hp, Hf, Hse, Hre, Hsh.
      replace (r_haddr r + r_size r + (x - (r_gaddr r + r_size r))) with (r_haddr r + (x - r_gaddr r)) by lia.
      destruct (r_arena_off r <? 0) eqn:E; bool_to_prop; [by rewrite (proj2 (Z.ltb_lt _ _)) by lia|].
      rewrite (proj2 (Z.ltb_ge _ _)), Ho by lia.
      by replace (r_arena_off r + r_size r + (x - (r_gaddr r + r_size r))) with (r_arena_off r + (x - r_gaddr r)) by lia.
    + destruct ((r_gaddr r <=? x) && (x <? r_gaddr r + (r_size r + r_size s))) eqn:E3; [|done]. bool_to_prop. exfalso.
      apply andb_false_iff in E1, E2. rewrite Z.leb_gt, Z.ltb_ge in E1, E2. lia.
Qed.

(** [m'] shows what [m] shows, in fewer or more pieces. *)
Record same_map m m' : Prop := {
  sm_ok : mm_ok m';
  sm_look x : look (areas m') x = look (areas m) x;
  sm_settings : settings m' = settings m;
}.

Lemma same_map_refl m : mm_ok m → same_map m m.
Proof. by split. Qed.

Lemma same_map_trans m m1 m2 : same_map m m1 → same_map m1 m2 → same_map m m2.
Proof. intros [] []. split; [done|intros x; by rewrite sm_look1|congruence]. Qed.

Lemma absorb_spec m a id next b :
  mm_ok m → mm_list m = a ++ id :: next :: b → regions_adjoin (reg m id) (reg m next) = true →
  ∃ m', absorb id next m = Ret m' ∧ mm_ok m' ∧ mm_list m' = a ++ id :: b ∧ settings m' = settings m ∧
    reg m' id = set_size (r_size (reg m id) + r_size (reg m next)) (reg m id) ∧
    (∀ x, x ∈ a ∨ x ∈ b → reg m' x = reg m x) ∧
    areas m' = (reg m <$> a) ++ set_size (r_size (reg m id) + r_size (reg m next)) (reg m id) :: (reg m <$> b).
Proof.
  intros Hok Hl Hadj. assert (mm_list m = (a ++ [id]) ++ next :: b) as Hl1 by (by rewrite <- app_assoc).
  destruct (remove_spec m (a ++ [id]) next b Hok Hl1) as (t & Ht & Hd).
  unfold absorb. rewrite Ht. cbn [mbind outcome_bind]. set (m1 := free _ _) in *.
  destruct (list_parts m (a ++ [id]) next b Hok Hl1) as (Hna & Hnb & _).
  assert (id ≠ next) as Hne by set_solver.
  pose proof (dr_same _ _ _ _ _ Hd id Hne) as Hrid.
  pose proof (mk_regs _ Hok id ltac:(rewrite Hl; set_solver)) as Hr.
  pose proof (mk_regs _ Hok next ltac:(rewrite Hl; set_solver)) as Hs.
  destruct (adjoin_spec _ _ Hr Hadj) as (Hg & _).
  set (f := λ r, set_size (u64 (r_size r + r_size (reg m next))) r).
  assert (f (reg m id) = set_size (r_size (reg m id) + r_size (reg m next)) (reg m id)) as Hf.
  { unfold f. f_equal. apply u64_small. destruct Hr as [[_ ?] [_ ?] _], Hs as [_ [_ ?] ?]. unfold r_end in *. lia. }
  assert (mm_list m1 = a ++ id :: b) as Hlm1 by (rewrite (dr_list _ _ _ _ _ Hd), <- app_assoc; done).
  assert (∀ x, x ∈ a ∨ x ∈ b → reg m1 x = reg m x) as Hsame by (intros x Hx; apply Hd; set_solver).
  exists (upd id f m1). split; [done|]. split.
  { apply (mm_ok_write m1 id f a b); rewrite ?Hrid, ?Hf; try done; [apply Hd| |].
    - destruct Hr as [? [? ?] ?], Hs as [? [? ?] ?]. unfold paged, PAGE_4KB, r_end in *. split; unfold paged, PAGE_4KB, r_end; cbn [set_size r_gaddr r_size]; try done; [split; [lia_mod|lia]|lia].
    - intros x Hx. rewrite Hsame by auto. pose proof (split_sides m next (a ++ [id]) b Hok Hl1 x ltac:(by right)) as (_ & _ & Hb).
      specialize (Hb Hx). unfold before, r_end in *. cbn [set_size r_gaddr r_size]. lia. }
  split; [done|]. split; [apply Hd|]. destruct (list_parts m a id (next :: b) Hok Hl) as (Hia & Hib & _). split.
  { rewrite <- Hf, <- Hrid. apply reg_upd_eq, (mk_heap _ (dr_ok _ _ _ _ _ Hd)). rewrite Hlm1. set_solver. }
  split. { intros x Hx. rewrite <- Hsame by done. apply reg_upd_ne. set_solver. }
  rewrite (areas_upd m1 id f a b), Hrid, Hf by (done || apply Hd).
  by rewrite !(reg_same_list m m1) by (intros; apply Hsame; auto).
Qed.

(** [m'] is [m] with adjoining regions joined: what holds of all regions and
    of two joined ones still holds. *)
Definition joinable (P : mm_region → Prop) : Prop := ∀ r s,
  region_ok r → P r → P s → regions_adjoin r s = true → P (set_size (r_size r + r_size s) r).

Definition merged m m' : Prop :=
  same_map m m' ∧ ∀ P, joinable P → (∀ x, x ∈ mm_list m → P (reg m x)) → ∀ x, x ∈ mm_list m' → P (reg m' x).

Lemma merged_refl m : mm_ok m → merged m m.
Proof. intros Hok. split; [by apply same_map_refl|auto]. Qed.

Lemma merged_trans m m1 m2 : merged m m1 → merged m1 m2 → merged m m2.
Proof. intros [Hs1 HP1] [Hs2 HP2]. split; [by eapply same_map_trans|]. intros P Hj HP. by apply HP2, HP1. Qed.

Lemma absorb_same m a id next b m' :
  mm_ok m → mm_list m = a ++ id :: next :: b → regions_adjoin (reg m id) (reg m next) = true →
  absorb id next m = Ret m' → merged m m'.
Proof.
  intros Hok Hl Hadj E. destruct (absorb_spec m a id next b Hok Hl Hadj) as (m1 & E1 & Hok1 & Hl1 & Hset & Hid & Hx & Har).
  rewrite E in E1. injection E1 as <-. split; [split; [done| |done]; intros x|]; cycle 1.
  { intros P Hj HP x. rewrite Hl1. intros [Ha|[->|Hb]%elem_of_cons]%elem_of_app; [rewrite Hx by auto|rewrite Hid|rewrite Hx by auto].
    - apply HP. rewrite Hl. set_solver.
    - apply Hj; [apply (mk_regs _ Hok)|apply HP|apply HP|done]; rewrite Hl; set_solver.
    - apply HP. rewrite Hl. set_solver. }
  assert (areas m = (reg m <$> a) ++ [reg m id; reg m next] ++ (reg m <$> b)) as ->
    by (unfold areas; by rewrite Hl, fmap_app).
  rewrite Har, look_app, (look_app (reg m <$> a)), (look_app [_; _]).
  rewrite look_join by (try done; apply (mk_regs _ Hok); rewrite Hl; set_solver).
  by rewrite <- (look_app [_]).
Qed.

Lemma merge_back_spec fuel : ∀ id m a b,
  mm_ok m → mm_list m = a ++ id :: b → (length a < fuel)%nat →
  ∃ id' m', merge_back fuel id m = Ret (id', m') ∧ merged m m' ∧ id' ∈ mm_list m'.
Proof.
  induction fuel as [|fuel IH]; intros id m a b Hok Hl Hf; [lia|]. cbn [merge_back].
  destruct (list_parts m a id b Hok Hl) as (Ha & _ & _).
  assert (merged m m ∧ id ∈ mm_list m) as Hdone by (split; [by apply merged_refl|rewrite Hl; set_solver]).
  assert (prev_of id None (mm_list m) = last a) as -> by (rewrite Hl; by apply prev_of_app).
  destruct a as [|p a _] using rev_ind; cbn; [by exists id, m|]. rewrite last_snoc.
  destruct (regions_adjoin (reg m p) (reg m id)) eqn:Hadj; [|by exists id, m].
  rewrite <- app_assoc in Hl. destruct (absorb_spec m a p id b Hok Hl Hadj) as (m1 & E & Hok1 & Hl1 & _).
  pose proof (absorb_same m a p id b m1 Hok Hl Hadj E) as Hs. rewrite E. cbn [mbind outcome_bind].
  rewrite length_app in Hf. cbn in Hf. destruct (IH p m1 a b Hok1 Hl1 ltac:(lia)) as (id' & m' & -> & Hs' & Hid).
  exists id', m'. split; [done|]. split; [by eapply merged_trans|done].
Qed.

Lemma merge_forward_spec fuel : ∀ id m a b,
  mm_ok m → mm_list m = a ++ id :: b → (length b < fuel)%nat →
  ∃ m', merge_forward fuel id m = Ret m' ∧ merged m m'.
Proof.
  induction fuel as [|fuel IH]; intros id m a b Hok Hl Hf; [lia|]. cbn [merge_forward].
  destruct (list_parts m a id b Hok Hl) as (Ha & _ & _).
  assert (merged m m) as Hdone by by apply merged_refl.
  assert (next_of id (mm_list m) = head b) as -> by (rewrite Hl; by apply next_of_app).
  destruct b as [|n b]; cbn; [by exists m|].
  destruct (regions_adjoin (reg m id) (reg m n)) eqn:Hadj; [|by exists m].
  destruct (absorb_spec m a id n b Hok Hl Hadj) as (m1 & E & Hok1 & Hl1 & _).
  pose proof (absorb_same m a id n b m1 Hok Hl Hadj E) as Hs. rewrite E. cbn [mbind outcome_bind].
  cbn in Hf. destruct (IH id m1 a b Hok1 Hl1 ltac:(lia)) as (m' & -> & Hs').
  exists m'. split; [done|]. by eapply merged_trans.
Qed.

Lemma merge_region_spec id m :
  mm_ok m → id ∈ mm_list m → ∃ m', merge_region id m = Ret m' ∧ merged m m'.
Proof.
  intros Hok (a & b & Hl)%list_elem_of_split. unfold merge_region.
  destruct (merge_back_spec (length (mm_list m)) id m a b Hok Hl) as (id' & m1 & -> & Hs & Hid).
  { rewrite Hl, length_app. cbn. lia. }
  cbn [mbind outcome_bind]. apply list_elem_of_split in Hid as (a' & b' & Hl').
  destruct (merge_forward_spec (length (mm_list m1)) id' m1 a' b' (sm_ok _ _ (proj1 Hs)) Hl') as (m' & -> & Hs').
  { rewrite Hl', length_app. cbn. lia. }
  exists m'. split; [done|]. by eapply merged_trans.
Qed.

(** ** Splitting and merging *)

(** Nothing to join on the left, on the right. *)
Definition left_alone m a id : Prop :=
  ∀ p, last a = Some p → regions_adjoin (reg m p) (reg m id) = false.
Definition right_alone m id b : Prop :=
  ∀ n, head b = Some n → regions_adjoin (reg m id) (reg m n) = false.

Lemma merge_back_step fuel id m :
  merge_back (S fuel) id m =
  match prev_of id None (mm_list m) with
  | None => Ret (id, m)
  | Some prev => if regions_adjoin (reg m prev) (reg m id)
                 then m ← absorb prev id m; merge_back fuel prev m else Ret (id, m)
  end.
Proof. done. Qed.

Lemma merge_back_stop fuel id m a b :
  mm_ok m → mm_list m = a ++ id :: b → left_alone m a id → merge_back (S fuel) id m = Ret (id, m).
Proof.
  intros Hok Hl Hal. destruct (list_parts m a id b Hok Hl) as (Ha & _ & _). cbn [merge_back].
  rewrite Hl, prev_of_app by done. cbn. destruct (last a) as [p|] eqn:E; [|done]. by rewrite (Hal p E).
Qed.

Lemma merge_forward_stop fuel id m a b :
  mm_ok m → mm_list m = a ++ id :: b → right_alone m id b → merge_forward (S fuel) id m = Ret m.
Proof.
  intros Hok Hl Hal. destruct (list_parts m a id b Hok Hl) as (Ha & _ & _). cbn [merge_forward].
  rewrite Hl, next_of_app by done. destruct (head b) as [p|] eqn:E; [|done]. by rewrite (Hal p E).
Qed.

Lemma list_length_S m a id b : mm_list m = a ++ id :: b → ∃ k, length (mm_list m) = S k.
Proof. intros ->. exists (length a + length b)%nat. rewrite length_app. cbn. lia. Qed.

Lemma adjoin_join r s n :
  region_ok r → region_ok s → regions_adjoin r s = true →
  regions_adjoin (set_size (r_size r + r_size s) r) n = regions_adjoin s n.
Proof.
  intros Hr Hs Ha. destruct (adjoin_spec r s Hr Ha) as (Hg & Hh & Hp & Hf & Hse & Hre & Hsh & Ho & Hgl & Hfr & Hfs).
  unfold regions_adjoin, r_end in *. cbn [set_size r_haddr r_arena_off r_gaddr r_size r_prot r_sealed r_flags r_fd r_reserved r_shm_id r_global].
  rewrite Hg, Hh, Hp, Hf, Hse, Hre, Hsh, Hgl, !Z.add_assoc.
  rewrite (proj2 (Z.leb_gt 0 (r_fd r)) Hfr), (proj2 (Z.leb_gt 0 (r_fd s)) Hfs).
  destruct (r_arena_off r <? 0) eqn:E; bool_to_prop.
  - by rewrite (proj2 (Z.ltb_lt _ _) Ho), (proj2 (Z.leb_gt 0 (r_arena_off s)) Ho), (proj2 (Z.leb_gt 0 (r_arena_off r)) E).
  - destruct Hr as [_ [_ ?] _]. rewrite Ho, (proj2 (Z.ltb_ge (_ + _) 0)) by lia.
    by rewrite (proj2 (Z.leb_le 0 (r_arena_off r))), (proj2 (Z.leb_le 0 (_ + _))) by lia.
Qed.

(** Two neighbours that adjoin, and no others: merging from either makes one
    region of them. *)
Lemma merge_two m a id tid b x :
  mm_ok m → mm_list m = a ++ id :: tid :: b → regions_adjoin (reg m id) (reg m tid) = true →
  left_alone m a id → right_alone m tid b → x = id ∨ x = tid →
  ∃ m', merge_region x m = Ret m' ∧ absorb id tid m = Ret m'.
Proof.
  intros Hok Hl Hadj Hla Hra Hx. destruct (absorb_spec m a id tid b Hok Hl Hadj) as (m' & E & Hok' & Hl' & _ & Hid & Hsame & _).
  assert (region_ok (reg m id) ∧ region_ok (reg m tid)) as [Hr Hs]
    by (split; apply (mk_regs _ Hok); rewrite Hl; set_solver).
  assert (left_alone m' a id) as Hla'.
  { intros p Hp. rewrite Hid, Hsame by (left; by apply last_Some_elem_of). by apply (Hla p Hp). }
  assert (right_alone m' id b) as Hra'.
  { intros n Hn. rewrite Hid, Hsame, adjoin_join by (done || right; by apply head_Some_elem_of). by apply (Hra n Hn). }
  assert (mm_list m = (a ++ [id]) ++ tid :: b) as Hl2 by by rewrite <- app_assoc.
  destruct (list_length_S m _ _ _ Hl) as [k Hk]. destruct (list_length_S m' _ _ _ Hl') as [k' Hk'].
  assert (k = S k') as -> by (rewrite Hl in Hk; rewrite Hl' in Hk'; rewrite length_app in *; cbn in *; lia).
  exists m'. split; [|done]. unfold merge_region. rewrite Hk. destruct Hx as [->| ->].
  - rewrite (merge_back_stop _ id m a (tid :: b)) by done. cbn [mbind outcome_bind]. rewrite Hk.
    cbn [merge_forward]. destruct (list_parts m a id _ Hok Hl) as (Ha & _ & _).
    rewrite Hl at 1. rewrite next_of_app by done. cbn [head]. rewrite Hadj, E. cbn [mbind outcome_bind].
    by apply (merge_forward_stop _ id m' a b).
  - rewrite merge_back_step. destruct (list_parts m (a ++ [id]) tid b Hok Hl2) as (Ha & _ & _).
    rewrite Hl2 at 1. rewrite prev_of_app by done. change (option_list None ++ a ++ [id]) with (a ++ [id]). rewrite last_snoc, Hadj, E.
    cbn [mbind outcome_bind]. rewrite (merge_back_stop _ id m' a b) by done. cbn [mbind outcome_bind].
    rewrite Hk'. by apply (merge_forward_stop _ id m' a b).
Qed.

(** Nothing to join: merging leaves the map alone. *)
Lemma merge_none m a id b :
  mm_ok m → mm_list m = a ++ id :: b → left_alone m a id → right_alone m id b →
  merge_region id m = Ret m.
Proof.
  intros Hok Hl Hla Hra. destruct (list_length_S m _ _ _ Hl) as [k Hk]. unfold merge_region.
  rewrite Hk, (merge_back_stop _ id m a b) by done. cbn [mbind outcome_bind].
  rewrite Hk. by apply (merge_forward_stop _ id m a b).
Qed.

(** * What the component promises *)

Lemma guest_to_host_look gaddr m vkern :
  mm_ok m → mm_ok vkern →
  guest_to_host gaddr m vkern =
  match look (areas m) (untag_gaddr gaddr), look (areas vkern) (untag_gaddr gaddr) with
  | Some v, _ | None, Some v => if v_reserved v then None else Some (v_host v)
  | None, None => None
  end.
Proof.
  intros Hok Hok'. unfold guest_to_host. set (a := untag_gaddr gaddr).
  assert (0 ≤ a < 2^64 - 1) as Ha.
  { unfold a, untag_gaddr. change 0x00ffffffffffffff with (Z.ones 56). rewrite Z.land_ones by done.
    pose proof (Z.mod_pos_bound gaddr (2^56) eq_refl). lia. }
  rewrite (look_find a m Hok Ha), (look_find a vkern Hok' Ha).
  destruct (find_region a m); cbn; [done|]. by destruct (find_region a vkern).
Qed.

(** C37: the guest-to-host translation answers exactly what the two maps show:
    with the pointer's tag dropped, the host byte behind the address in the
    guest's own map, or else in the kernel's; nothing for an address neither
    maps or for a reservation. *)
Theorem guest_to_host_exact gaddr m vkern :
  mm_ok m → mm_ok vkern →
  guest_to_host gaddr m vkern =
  match look (areas m) (untag_gaddr gaddr), look (areas vkern) (untag_gaddr gaddr) with
  | Some v, _ | None, Some v => if v_reserved v then None else Some (v_host v)
  | None, None => None
  end.
Proof. apply guest_to_host_look. Qed.

(** Recording a region. It is refused, with a panic, exactly when a byte of
    it is already taken; otherwise the map shows the new region on its range
    and what it showed everywhere else, and the books stay in order. *)
Theorem record_region_correct haddr gaddr size prot flags fd pgoff m :
  mm_ok m → paged gaddr → 0 < gaddr → paged size → 0 < size → gaddr + size < 2^64 →
  match record_region haddr gaddr size prot flags fd pgoff m with
  | Ret (id, m') => mm_ok m' ∧ settings m' = settings m ∧
      (∀ x, gaddr ≤ x < gaddr + size → look (areas m) x = None) ∧
      (∀ x, look (areas m') x = if (gaddr <=? x) && (x <? gaddr + size)
         then Some (mk_view (haddr + (x - gaddr)) (-1) prot false flags false (-1))
         else look (areas m) x)
  | Stop w => w = Panicked ∧ ∃ x, gaddr ≤ x < gaddr + size ∧ look (areas m) x ≠ None
  end.
Proof.
  intros Hok ? ? ? ? ?. pose proof (record_region_spec haddr gaddr size prot flags fd pgoff m Hok) as Hs.
  ospecialize (Hs _); [by split|].
  destruct (record_region _ _ _ _ _ _ _ m) as [[id m']|w].
  - destruct Hs as (-> & a & b & Hl & Hp & Hno). split; [apply Hp|]. split; [apply Hp|].
    assert (∀ x, gaddr ≤ x < gaddr + size → look (areas m) x = None) as Hfree.
    { intros x Hx. apply look_none. intros r (y & -> & Hy)%list_elem_of_fmap. apply not_true_iff_false.
      intros Hc. apply (Hno y Hy). unfold contains, meets in *. bool_to_prop. lia. }
    split; [done|]. intros x. rewrite (placed_areas _ _ _ _ _ _ Hp).
    unfold areas in *. rewrite Hl, fmap_app in Hfree |- *. specialize (Hfree x). rewrite look_app in Hfree |- *.
    change (look (?r :: ?l) x) with (if contains r x then Some (view_at r x) else look l x).
    unfold contains, r_end, view_at. cbn [r_gaddr r_size r_haddr r_arena_off r_prot r_sealed r_flags r_reserved r_shm_id].
    rewrite look_app. destruct ((gaddr <=? x) && (x <? gaddr + size)) eqn:E; [|done].
    bool_to_prop. specialize (Hfree ltac:(lia)). by destruct (look (reg m <$> a) x).
  - destruct Hs as (-> & x & Hx & Hm). split; [done|]. exists (Z.max gaddr (r_gaddr (reg m x))).
    pose proof (mk_regs _ Hok x Hx) as [[_ ?] [_ ?] _]. unfold meets, r_end in Hm. split; [lia|].
    rewrite (look_in (areas m) (reg m x)); [done|apply Hok|by apply areas_elem|].
    unfold contains, r_end. apply andb_true_iff. rewrite Z.leb_le, Z.ltb_lt. lia.
Qed.

(** ** Splitting as the guest sees it *)

Lemma split_areas m id gaddr a b tid t m' :
  mm_ok m → mm_list m = a ++ id :: b →
  placed (upd id (set_size (gaddr - r_gaddr (reg m id))) m) (a ++ [id]) tid t b m' →
  areas m' = (reg m <$> a) ++ [set_size (gaddr - r_gaddr (reg m id)) (reg m id); t] ++ (reg m <$> b) ∧
  reg m' id = set_size (gaddr - r_gaddr (reg m id)) (reg m id) ∧ reg m' tid = t ∧
  mm_list m' = a ++ id :: tid :: b ∧ (∀ x, x ∈ a ∨ x ∈ b → reg m' x = reg m x).
Proof.
  intros Hok Hl Hp. destruct (list_parts m a id b Hok Hl) as (Ha & Hb & _).
  assert (is_Some (mm_regs m !! id)) as Hid by (apply (mk_heap _ Hok); rewrite Hl; set_solver).
  rewrite (placed_areas _ _ _ _ _ _ Hp), fmap_app. cbn [fmap list_fmap]. rewrite reg_upd_eq by done.
  rewrite !(reg_same_list m (upd id _ m)) by (intros x Hx; apply reg_upd_ne; set_solver).
  rewrite <- app_assoc. split; [done|]. pose proof (pl_list _ _ _ _ _ _ Hp) as Hl'. rewrite <- app_assoc in Hl'.
  destruct (list_parts m' (a ++ [id]) tid b (pl_ok _ _ _ _ _ _ Hp) (pl_list _ _ _ _ _ _ Hp)) as (Ha' & Hb' & _).
  split. { rewrite (pl_same _ _ _ _ _ _ Hp) by set_solver. by apply reg_upd_eq. }
  split; [apply Hp|]. split; [done|]. intros x Hx. rewrite (pl_same _ _ _ _ _ _ Hp) by set_solver.
  apply reg_upd_ne. set_solver.
Qed.

Lemma split_same m id gaddr a b tid fd owns j m' :
  mm_ok m → mm_list m = a ++ id :: b → r_gaddr (reg m id) < gaddr < r_end (reg m id) →
  placed (upd id (set_size (gaddr - r_gaddr (reg m id))) m) (a ++ [id]) tid
    (tail_of (reg m id) gaddr fd owns j) b m' → same_map m m'.
Proof.
  intros Hok Hl Hg Hp. destruct (split_areas _ _ _ _ _ _ _ _ Hok Hl Hp) as (Har & _).
  split; [apply Hp| |exact (pl_settings _ _ _ _ _ _ Hp)]. intros x.
  rewrite Har, (areas_split m a id b Hl), !look_app, look_split by done. by rewrite <- (look_app [_]).
Qed.

Lemma adjoin_halves r gaddr fd owns j :
  region_ok r → r_gaddr r < gaddr < r_end r → r_fd r < 0 → fd = r_fd r →
  has (r_flags r) LINUX_MAP_ANONYMOUS = true →
  regions_adjoin (set_size (gaddr - r_gaddr r) r) (tail_of r gaddr fd owns j) = Bool.eqb (r_global r) j.
Proof.
  intros [[_ ?] [_ ?] He] Hg Hfd -> Hanon. unfold regions_adjoin, tail_of, r_end in *.
  cbn [set_size r_haddr r_arena_off r_gaddr r_size r_prot r_sealed r_flags r_fd r_reserved r_shm_id r_global].
  replace (r_gaddr r + (gaddr - r_gaddr r)) with gaddr by lia. rewrite u64_small by lia.
  rewrite !Z.eqb_refl, !Bool.eqb_reflx, Hanon, (proj2 (Z.leb_gt 0 (r_fd r)) Hfd). cbn [andb orb negb].
  destruct (r_arena_off r <? 0) eqn:E; bool_to_prop.
  - rewrite (proj2 (Z.leb_gt 0 _) E). cbn. by rewrite !andb_true_r.
  - rewrite (proj2 (Z.ltb_ge (_ + _) 0)), Z.eqb_refl by lia. cbn. by rewrite andb_false_r, !andb_true_r.
Qed.

(** Cutting a region of anonymous memory. *)
Record cut_in_two junk id gaddr m (h : H) a b m1 : Prop := {
  ct_split : split_region junk id gaddr m h = Ret (m1, h);
  ct_same : same_map m m1;
  ct_list : mm_list m1 = a ++ id :: mm_next m :: b;
  ct_head : reg m1 id = set_size (gaddr - r_gaddr (reg m id)) (reg m id);
  ct_tail : reg m1 (mm_next m) = tail_of (reg m id) gaddr (r_fd (reg m id)) false (junk (mm_next m));
  ct_others x : x ∈ a ∨ x ∈ b → reg m1 x = reg m x;
  ct_adjoin : regions_adjoin (reg m1 id) (reg m1 (mm_next m)) =
              Bool.eqb (r_global (reg m id)) (junk (mm_next m));
}.

Lemma split_anonymous junk id gaddr m (h : H) a b :
  mm_ok m → mm_list m = a ++ id :: b → paged gaddr →
  r_gaddr (reg m id) < gaddr < r_end (reg m id) →
  gaddr - r_gaddr (reg m id) < 2^31 → r_arena_off (reg m id) + r_size (reg m id) < 2^63 →
  r_fd (reg m id) < 0 → has (r_flags (reg m id)) LINUX_MAP_ANONYMOUS = true →
  ∃ m1, cut_in_two junk id gaddr m h a b m1.
Proof.
  intros Hok Hl Hp Hg Ho Hao Hfd Hanon.
  assert (tail_fd (reg m id) h = (r_fd (reg m id), false, h)) as Htf.
  { unfold tail_fd. rewrite (proj2 (Z.leb_gt 0 _) Hfd), andb_false_r. done. }
  pose proof (split_region_spec junk id gaddr m h a b) as Hs. rewrite Htf in Hs.
  destruct Hs as (m1 & E & Hpl); try done. exists m1.
  pose proof (split_same _ _ _ _ _ _ _ _ _ _ Hok Hl Hg Hpl) as Hsm.
  destruct (split_areas _ _ _ _ _ _ _ _ Hok Hl Hpl) as (Har & Hid & Htid & Hl1 & Hsame).
  split; try done. rewrite Hid, Htid. apply adjoin_halves; try done.
  apply (mk_regs _ Hok). rewrite Hl. set_solver.
Qed.

(** Splitting a region of anonymous memory and merging from either piece
    gives back the map there was before, region for region, when the byte
    [is_global] of the new struct happens to hold the region's own. *)
Theorem split_merge_roundtrip junk id gaddr x m (h : H) a b :
  mm_ok m → mm_list m = a ++ id :: b → paged gaddr →
  r_gaddr (reg m id) < gaddr < r_end (reg m id) →
  gaddr - r_gaddr (reg m id) < 2^31 → r_arena_off (reg m id) + r_size (reg m id) < 2^63 →
  r_fd (reg m id) < 0 → has (r_flags (reg m id)) LINUX_MAP_ANONYMOUS = true →
  left_alone m a id → right_alone m id b → x = id ∨ x = mm_next m →
  junk (mm_next m) = r_global (reg m id) →
  ∃ m1 h1 m2, split_region junk id gaddr m h = Ret (m1, h1) ∧ same_map m m1 ∧
    merge_region x m1 = Ret m2 ∧ mm_ok m2 ∧ areas m2 = areas m.
Proof.
  intros Hok Hl Hp Hg Ho Hao Hfd Hanon Hla Hra Hx Hj.
  destruct (split_anonymous junk id gaddr m h a b) as [m1 []]; try done. exists m1, h.
  rewrite Hj, Bool.eqb_reflx in ct_adjoin0. rewrite Hj in ct_tail0.
  assert (left_alone m1 a id) as Hla1.
  { intros p Hp'. rewrite ct_head0, ct_others0 by (left; by apply last_Some_elem_of). by apply (Hla p Hp'). }
  assert (region_ok (reg m id)) as Hr by (apply (mk_regs _ Hok); rewrite Hl; set_solver).
  assert (set_size (r_size (reg m1 id) + r_size (reg m1 (mm_next m))) (reg m1 id) = reg m id) as Hjoin.
  { rewrite ct_head0, ct_tail0. unfold r_end. destruct (reg m id). unfold set_size, tail_of, r_end. cbn. f_equal. lia. }
  assert (region_ok (reg m1 id) ∧ region_ok (reg m1 (mm_next m))) as [Hr1 Hr2]
    by (split; apply (mk_regs _ (sm_ok _ _ ct_same0)); rewrite ct_list0; set_solver).
  assert (right_alone m1 (mm_next m) b) as Hra1.
  { intros n Hn. rewrite <- (adjoin_join (reg m1 id)), Hjoin, ct_others0 by (done || right; by apply head_Some_elem_of).
    by apply (Hra n Hn). }
  destruct (merge_two m1 a id (mm_next m) b x) as (m2 & Hm & Hab); try done; [apply ct_same0|].
  destruct (absorb_spec m1 a id (mm_next m) b) as (m2' & Hab' & Hok2 & _ & _ & _ & _ & Har); try done; [apply ct_same0|].
  rewrite Hab in Hab'. injection Hab' as <-. exists m2. do 3 (split; [done|]). split; [done|].
  rewrite Har, Hjoin, (areas_split m a id b Hl). by rewrite !(reg_same_list m m1) by (intros; apply ct_others0; auto).
Qed.

(** ... and otherwise the pieces stay apart: [split_region] never assigns
    the field [regions_adjoin] compares, so that undoing a split does not put
    the region back together. *)
Theorem split_merge_uninitialised junk id gaddr m (h : H) a b :
  mm_ok m → mm_list m = a ++ id :: b → paged gaddr →
  r_gaddr (reg m id) < gaddr < r_end (reg m id) →
  gaddr - r_gaddr (reg m id) < 2^31 → r_arena_off (reg m id) + r_size (reg m id) < 2^63 →
  r_fd (reg m id) < 0 → has (r_flags (reg m id)) LINUX_MAP_ANONYMOUS = true →
  left_alone m a id → junk (mm_next m) ≠ r_global (reg m id) →
  ∃ m1 h1, split_region junk id gaddr m h = Ret (m1, h1) ∧ merge_region id m1 = Ret m1 ∧
    length (areas m1) = S (length (areas m)).
Proof.
  intros Hok Hl Hp Hg Ho Hao Hfd Hanon Hla Hj.
  destruct (split_anonymous junk id gaddr m h a b) as [m1 []]; try done. exists m1, h. split; [done|]. split.
  - apply (merge_none m1 a id (mm_next m :: b)); [apply ct_same0|done| |].
    + intros p Hp'. rewrite ct_head0, ct_others0 by (left; by apply last_Some_elem_of). by apply (Hla p Hp').
    + intros n [= <-]. rewrite ct_adjoin0. by destruct (junk _), (r_global _).
  - unfold areas. rewrite ct_list0, Hl, !length_fmap, !length_app. cbn. lia.
Qed.

(** An offset of two gigabytes or more does not fit the [int]
    [split_region] keeps it in: the lower piece is left with a size of nearly
    2^64 bytes instead of the distance to the cut. *)
Theorem split_region_truncates junk id gaddr m (h : H) :
  mm_ok m → id ∈ mm_list m → paged gaddr → 2^31 ≤ gaddr - r_gaddr (reg m id) < 2^32 →
  ∃ m' h', split_region junk id gaddr m h = Ret (m', h') ∧
    r_size (reg m' id) = 2^64 - 2^32 + (gaddr - r_gaddr (reg m id)).
Proof.
  intros Hok Hid Hp Ho. unfold split_region. rewrite (proj2 (is_page_aligned_spec _) Hp).
  cbn [assert_c mbind outcome_bind]. destruct (tail_fd _ _) as [[fd owns] h'].
  assert (s32 (gaddr - r_gaddr (reg m id)) = gaddr - r_gaddr (reg m id) - 2^32) as ->.
  { unfold s32. change (2^32) with 4294967296 in *. change (2^31) with 2147483648 in *. lia_mod. }
  set (tail := mk_region _ _ _ _ _ _ _ _ _ _ _ _ _). set (m1 := upd id _ _).
  destruct (RB_INSERT_total (λ x, region_compare tail (reg m1 x)) (mm_next m) (mm_tree m) (mk_bal _ Hok))
    as (res & t & E & _). change (mm_tree m1) with (mm_tree m). rewrite E. cbn [mbind outcome_bind].
  eexists _, h'. split; [done|]. unfold m1. change (reg (with_places t ?l ?m)) with (reg m).
  assert (id ≠ mm_next m) as Hne by (intros E'; rewrite E' in Hid; by apply (fresh_not_in m)).
  rewrite reg_upd_eq.
  - cbn [set_size r_size]. unfold u64. change (2^32) with 4294967296 in *. change (2^31) with 2147483648 in *.
    change (2^64) with 18446744073709551616. lia_mod.
  - cbn. rewrite lookup_insert_ne by done. by apply (mk_heap _ Hok).
Qed.
End RegionFacts.

(** * A map to look at *)

Definition demo_record (haddr g n prot : Z) (m : mm) : mm :=
  match record_region haddr g n prot (Z.lor LINUX_MAP_PRIVATE LINUX_MAP_ANONYMOUS) (-1) 0 m with
  | Ret (_, m) => m
  | Stop _ => m
  end.

Definition demo_place (g : Z) : mm → mm := demo_record (0x100000000 + g) g 0x2000 3.

Definition demo_empty : mm := mk_mm ∅ Leaf [] 1 0 0 0 0xc0000000.
Definition demo_map : mm :=
  demo_place 0x12000 (demo_place 0x18000 (demo_place 0xe000 (demo_place 0x15000 demo_empty))).

Lemma demo_empty_ok : mm_ok demo_empty.
Proof.
  split; cbn; try done; try (by intros ? ?%elem_of_nil); [|constructor|by intros ? [? ?]].
  split; [done|]. exists 0%nat. constructor.
Qed.

Lemma demo_record_ok haddr g n prot m :
  mm_ok m → paged g → 0 < g → paged n → 0 < n → g + n < 2^64 → mm_ok (demo_record haddr g n prot m).
Proof.
  intros Hok ? ? ? ? ?. unfold demo_record.
  pose proof (record_region_spec haddr g n prot (Z.lor LINUX_MAP_PRIVATE LINUX_MAP_ANONYMOUS) (-1) 0 m Hok) as Hs.
  ospecialize (Hs _); [by split|].
  destruct (record_region _ _ _ _ _ _ _ m) as [[id m']|w]; [|done]. destruct Hs as (_ & a & b & _ & Hpl & _). apply Hpl.
Qed.

Lemma demo_map_ok : mm_ok demo_map.
Proof. unfold demo_map. repeat (apply demo_record_ok; [|done..]). apply demo_empty_ok. Qed.

(** The region [find_region_range] answers is not always the lowest that
    overlaps: here the one at 0x12000 overlaps too, and lies below. *)
Theorem find_region_range_not_lowest :
  ∃ x y, find_region_range 0x13000 0x4000 demo_map = Ret (Some x) ∧ y ∈ mm_list demo_map ∧
    meets 0x13000 0x4000 (reg demo_map y) ∧ before (reg demo_map y) (reg demo_map x).
Proof.
  exists 1, 4. split; [by vm_compute|]. split; [by apply (bool_decide_unpack _); vm_compute|].
  unfold meets, before. assert (r_gaddr (reg demo_map 4) = 0x12000) as -> by by vm_compute.
  assert (r_end (reg demo_map 4) = 0x14000) as -> by by vm_compute.
  assert (r_gaddr (reg demo_map 1) = 0x15000) as -> by by vm_compute. lia.
Qed.

Lemma guest_to_host_exact_witness :
  guest_to_host 0xb400000000012345 demo_map demo_empty = Some 0x100012345.
Proof. rewrite (guest_to_host_exact _ _ _ demo_map_ok demo_empty_ok). by vm_compute. Defined.

Lemma record_region_correct_witness :
  match record_region 0x200000000 0x14000 0x1000 1 2 (-1) 0 demo_map with
  | Ret (_, m') => (v_host <$> look (areas m') 0x14010) = Some 0x200000010
  | Stop _ => False
  end.
Proof.
  pose proof (record_region_correct 0x200000000 0x14000 0x1000 1 2 (-1) 0 demo_map demo_map_ok
    ltac:(done) ltac:(done) ltac:(done) ltac:(done) ltac:(done)) as Hs.
  destruct (record_region 0x200000000 0x14000 0x1000 1 2 (-1) 0 demo_map) as [[id m']|w] eqn:E.
  - destruct Hs as (_ & _ & _ & Hl). by rewrite Hl.
  - by vm_compute in E.
Defined.

Lemma demo_list : mm_list demo_map = [2] ++ 4 :: [1; 3].
Proof. by vm_compute. Qed.

Lemma demo_region :
  reg demo_map 4 = mk_region 0x100012000 (-1) 0x12000 0x2000 3 false 0x22 (-1) false false (-1) 0 false ∧
  mm_next demo_map = 5 ∧ left_alone demo_map [2] 4 ∧ right_alone demo_map 4 [1; 3].
Proof.
  split; [by vm_compute|]. split; [by vm_compute|]. split; intros x [= <-]; by vm_compute.
Qed.

Lemma split_merge_roundtrip_witness :
  ∃ m1 h1 m2, split_region (λ _, false) 4 0x13000 demo_map toy_boot = Ret (m1, h1) ∧ same_map demo_map m1 ∧
    merge_region 5 m1 = Ret m2 ∧ mm_ok m2 ∧ areas m2 = areas demo_map.
Proof.
  destruct demo_region as (Hr & Hn & Hla & Hra).
  apply (split_merge_roundtrip (λ _, false) 4 0x13000 5 demo_map toy_boot [2] [1; 3] demo_map_ok demo_list);
    rewrite ?Hr, ?Hn; unfold r_end; cbn [r_gaddr r_size r_arena_off r_fd r_flags r_global];
    [done|lia|lia|lia|lia|done|exact Hla|exact Hra|by right|done].
Defined.

Lemma split_merge_uninitialised_witness :
  ∃ m1 h1, split_region (λ _, true) 4 0x13000 demo_map toy_boot = Ret (m1, h1) ∧ merge_region 4 m1 = Ret m1 ∧
    length (areas m1) = S (length (areas demo_map)).
Proof.
  destruct demo_region as (Hr & Hn & Hla & Hra).
  apply (split_merge_uninitialised (λ _, true) 4 0x13000 demo_map toy_boot [2] [1; 3] demo_map_ok demo_list);
    rewrite ?Hr, ?Hn; unfold r_end; cbn [r_gaddr r_size r_arena_off r_fd r_flags r_global];
    [done|lia|lia|lia|lia|done|exact Hla|done].
Defined.

(** A reservation of four gigabytes. *)
Definition demo_big : mm := demo_record 0 0x100000000 0x100000000 0 demo_map.

Lemma demo_big_ok : mm_ok demo_big ∧ 5 ∈ mm_list demo_big ∧ r_gaddr (reg demo_big 5) = 0x100000000.
Proof.
  split; [|split; [apply (bool_decide_unpack _); by vm_compute|by vm_compute]].
  by apply demo_record_ok; [apply demo_map_ok|..].
Qed.

Lemma split_region_truncates_witness :
  ∃ m' h', split_region (λ _, false) 5 0x180000000 demo_big toy_boot = Ret (m', h') ∧
    r_size (reg m' 5) = 0xffffffff80000000.
Proof.
  destruct demo_big_ok as (Hok & Hid & Hg).
  destruct (split_region_truncates (λ _, false) 5 0x180000000 demo_big toy_boot Hok Hid) as (m' & h' & E & Hs);
    [done|rewrite Hg; lia|]. exists m', h'. split; [done|]. by rewrite Hs, Hg.
Defined.
