(* ===== verification/UserCopy.v ===== *)
(** Access to guest memory, src/base.c: the copies between the guest and nabi
    that every system call's pointer arguments go through. *)

From S2P Require Import Prelude Host RbTree Regions.

Section UserCopy.
Context {H : Type} `{HostOps H, HostIO H}.
Variable m vkern : mm.

Definition addr_ok (addr access : Z) : bool :=
  let addr := untag_gaddr addr in
  if addr >=? user_addr_max then false
  else
    match find_region addr m with
    | None => false
    | Some id => negb (has access (Z.lnot (r_prot (reg m id))))
    end.

(** [MIN(rounddown(p + 4096, 4096) - p, n)]: what is left of the page. *)
Definition piece (p n : Z) : Z := Z.min (u64 (rounddown (u64 (p + 4096)) 4096 - p)) n.

(** [size] bytes of the host's memory. *)
Definition load (h : H) (p size : Z) : list Z := (λ d, h_mem h (p + d)) <$> counter 1 size.

(** A copy of [n] bytes touches at most this many pages. *)
Definition copy_fuel (n : Z) : nat := (Z.to_nat (n / 4096) + 2)%nat.

(** The bytes not copied, and those that were. *)
Fixpoint copy_from (fuel : nat) (src_ptr n : Z) (h : H) : outcome (Z * list Z) :=
  if 0 <? n then
    match fuel with
    | O => Stop OutOfFuel
    | S fuel =>
        match guest_to_host src_ptr m vkern with
        | None => Ret (n, [])
        | Some src =>
            let size := piece src_ptr n in
            '(rest, l) ← copy_from fuel (u64 (src_ptr + size)) (n - size) h;
            Ret (rest, load h src size ++ l)
        end
    end
  else Ret (0, []).

Definition copy_from_user (src_ptr n : Z) (h : H) : outcome (Z * list Z) :=
  copy_from (copy_fuel n) src_ptr n h.

Fixpoint copy_to (fuel : nat) (to_ptr : Z) (src : list Z) (n : Z) (h : H) : outcome (Z * H) :=
  if 0 <? n then
    match fuel with
    | O => Stop OutOfFuel
    | S fuel =>
        match guest_to_host to_ptr m vkern with
        | None => Ret (n, h)
        | Some to =>
            let size := piece to_ptr n in
            copy_to fuel (u64 (to_ptr + size)) (drop (Z.to_nat size) src) (n - size)
              (h_store h to (take (Z.to_nat size) src))
        end
    end
  else Ret (0, h).

Definition copy_to_user (to_ptr : Z) (src : list Z) (n : Z) (h : H) : outcome (Z * H) :=
  copy_to (copy_fuel n) to_ptr src n h.

(** strnlen(3): how many of the bytes come before the first NUL. *)
Fixpoint strnlen (l : list Z) : Z :=
  match l with [] => 0 | b :: l => if b =? 0 then 0 else 1 + strnlen l end.

(** [len] is an [int]; the loop tests [(ssize_t) n > 0]. *)
Fixpoint strnlen_loop (fuel : nat) (src_ptr n len : Z) (h : H) : outcome Z :=
  if 0 <? s64 n then
    match fuel with
    | O => Stop OutOfFuel
    | S fuel =>
        match guest_to_host src_ptr m vkern with
        | None => Ret 0
        | Some str =>
            let size := piece src_ptr n in
            let i := strnlen (load h str size) in
            if i <? size then Ret (s64 (len + i + 1))
            else
              assert_c (i =? size);;
              strnlen_loop fuel (u64 (src_ptr + size)) (n - size) (s32 (len + size)) h
        end
    end
  else Ret (s32 (len + 1)).

Definition strnlen_user (src_ptr n : Z) (h : H) : outcome Z :=
  strnlen_loop (copy_fuel n) src_ptr n 0 h.

(** The answer, and what was written to [to]. *)
Definition strncpy_from_user (src_ptr n : Z) (h : H) : outcome (Z * list Z) :=
  len ← strnlen_user src_ptr n h;
  let len := u64 len in
  if len =? 0 then Ret (- EFAULT, [])
  else if n <? len then
    '(rest, l) ← copy_from_user src_ptr n h;
    Ret (if rest =? 0 then (n, l) else (- EFAULT, l))
  else
    '(rest, l) ← copy_from_user src_ptr len h;
    Ret (if rest =? 0 then (s64 (len - 1), l) else (- EFAULT, l)).

End UserCopy.

(** ** Pages and bytes *)

Lemma contains_page r x d :
  region_ok r → 0 ≤ d → x mod 4096 + d < 4096 → contains r (x + d) = contains r x.
Proof.
  intros [[Hg _] [Hs _] _] Hd Hx. unfold contains, r_end, paged, PAGE_4KB in *.
  assert (∀ y, y mod 4096 = 0 → (y <=? x + d) = (y <=? x)) as Hle.
  { intros y Hy. destruct (y <=? x) eqn:E; bool_to_prop; [apply Z.leb_le; lia|apply Z.leb_gt; lia_mod]. }
  rewrite Hle by done. f_equal. rewrite !Z.ltb_antisym, Hle; [done|]. lia_mod.
Qed.

Lemma look_page l x d :
  Forall region_ok l → 0 ≤ d → x mod 4096 + d < 4096 →
  (λ v, (v_reserved v, v_host v)) <$> look l (x + d) =
  (λ v, (v_reserved v, v_host v + d)) <$> look l x.
Proof.
  intros Hl Hd Hx. induction Hl as [|r l Hr Hl IH]; cbn [look]; [done|].
  rewrite contains_page by done. destruct (contains r x); [|done]. cbn. do 2 f_equal. lia.
Qed.

Lemma areas_all_ok m : mm_ok m → Forall region_ok (areas m).
Proof.
  intros Hok. apply Forall_forall. intros r (id & -> & Hid)%list_elem_of_fmap. by apply Hok.
Qed.

Lemma untag_add p d : 0 ≤ d → p mod 2^56 + d < 2^56 → untag_gaddr (p + d) = untag_gaddr p + d.
Proof.
  intros Hd Hp. unfold untag_gaddr. change 0x00ffffffffffffff with (Z.ones 56).
  rewrite !Z.land_ones by done. rewrite <- Z.add_mod_idemp_l by done. apply Z.mod_small.
  pose proof (Z.mod_pos_bound p (2^56) eq_refl). lia.
Qed.

Lemma untag_page p : untag_gaddr p mod 4096 = p mod 4096.
Proof.
  unfold untag_gaddr. change 0x00ffffffffffffff with (Z.ones 56). rewrite Z.land_ones by done.
  change (2^56) with (4096 * 2^44). rewrite Z.rem_mul_r by done.
  rewrite Z.mul_comm, Z.mod_add by done. by rewrite Z.mod_mod.
Qed.

(** A range of guest memory that does not run into the tag. *)
Definition user_span (p n : Z) : Prop := 0 ≤ p < 2^64 ∧ 0 ≤ n ∧ p mod 2^56 + n < 2^56.

Lemma user_span_end p n : user_span p n → p + n < 2^64.
Proof. intros (Hp & Hn & Hs). change (2^64) with (256 * 2^56) in *. change (2^56) with 72057594037927936 in *. lia_mod. Qed.

Lemma user_span_next p n k : user_span p n → 0 ≤ k ≤ n → user_span (p + k) (n - k).
Proof.
  intros Hs Hk. pose proof (user_span_end _ _ Hs). destruct Hs as (Hp & Hn & Hs). split; [lia|]. split; [lia|].
  rewrite <- Z.add_mod_idemp_l, Z.mod_small by (done || pose proof (Z.mod_pos_bound p (2^56) eq_refl); lia). lia.
Qed.

Lemma piece_spec p n : 0 ≤ p < 2^64 → piece p n = Z.min (4096 - p mod 4096) n.
Proof.
  intros Hp. unfold piece. f_equal. unfold rounddown. pose proof (Z.mod_pos_bound p 4096 eq_refl).
  destruct (Z.lt_ge_cases (p + 4096) (2^64)) as [Hl|Hl].
  - rewrite (u64_small (p + 4096)) by lia.
    replace ((p + 4096) / 4096 * 4096 - p) with (4096 - p mod 4096) by lia_mod. apply u64_small. lia.
  - assert (u64 (p + 4096) = p + 4096 - 2^64) as ->.
    { unfold u64. symmetry. apply (Z.mod_unique _ _ 1); lia. }
    assert ((p + 4096 - 2^64) / 4096 = 0) as -> by (apply Z.div_small; lia).
    unfold u64. change (2^64) with 18446744073709551616 in *. lia_mod.
Qed.

(** Pages [n] bytes at [p] touch. *)
Definition touched_pages (p n : Z) : Z := if 0 <? n then (p mod 4096 + n + 4095) / 4096 else 0.

Lemma touched_next p n :
  0 ≤ p < 2^64 → 0 < n → let size := piece p n in
  0 < size ≤ n ∧ p mod 4096 + size ≤ 4096 ∧ touched_pages (p + size) (n - size) = touched_pages p n - 1.
Proof.
  intros Hp Hn size. assert (size = Z.min (4096 - p mod 4096) n) as E by by apply piece_spec.
  pose proof (Z.mod_pos_bound p 4096 eq_refl). split; [lia|]. split; [lia|]. unfold touched_pages.
  rewrite (proj2 (Z.ltb_lt 0 n)) by done. destruct (Z.le_gt_cases n (4096 - p mod 4096)).
  - rewrite (proj2 (Z.ltb_ge 0 _)) by lia. lia_mod.
  - rewrite (proj2 (Z.ltb_lt 0 _)) by lia. replace size with (4096 - p mod 4096) by lia. lia_mod.
Qed.

Lemma copy_fuel_enough p n : 0 ≤ n → touched_pages p n ≤ Z.of_nat (copy_fuel n).
Proof.
  intros Hn. unfold touched_pages, copy_fuel. pose proof (Z.mod_pos_bound p 4096 eq_refl).
  rewrite Nat2Z.inj_add, Z2Nat.id by (apply Z.div_pos; lia). case_bool; lia_mod.
Qed.

Section CopyFacts.
Context {H : Type} `{HIO : HostIOLaws H}.
Context (m vkern : mm) (Hok : mm_ok m) (Hokv : mm_ok vkern).

#[local] Abbreviation host a := (guest_to_host a m vkern).

(** Inside a page the translation runs along. *)
Lemma host_page p d :
  0 ≤ d → p mod 4096 + d < 4096 → p mod 2^56 + d < 2^56 → host (p + d) = (λ q, q + d) <$> host p.
Proof.
  intros Hd Hp Hs. rewrite !guest_to_host_look, untag_add by done. set (x := untag_gaddr p).
  assert (x mod 4096 + d < 4096) as Hx by (unfold x; by rewrite untag_page).
  pose proof (look_page (areas m) x d (areas_all_ok m Hok) Hd Hx) as H1'.
  pose proof (look_page (areas vkern) x d (areas_all_ok vkern Hokv) Hd Hx) as H2'.
  destruct (look (areas m) (x + d)) as [v|], (look (areas m) x) as [v'|]; try done; cbn in H1'.
  - injection H1' as -> ->. by destruct (v_reserved v').
  - destruct (look (areas vkern) (x + d)) as [v|], (look (areas vkern) x) as [v'|]; try done; cbn in H2'.
    injection H2' as -> ->. by destruct (v_reserved v').
Qed.

Lemma length_load (h : H) q n : 0 ≤ n → length (load h q n) = Z.to_nat n.
Proof.
  intros Hn. unfold load. rewrite length_fmap. pose proof (length_counter 1 n). unfold counter.
  rewrite length_fmap, length_seq. f_equal. rewrite Z.add_simpl_r. apply Z.div_1_r.
Qed.

Lemma load_lookup (h : H) q n d : 0 ≤ d < n → load h q n !! Z.to_nat d = Some (h_mem h (q + d)).
Proof.
  intros Hd. unfold load, counter. rewrite !list_lookup_fmap, lookup_seq_lt; cbn; [do 3 f_equal; lia|].
  rewrite Z.add_simpl_r, Z.div_1_r. lia.
Qed.

(** [l] is what the guest has at [p, p + length l). *)
Definition reads (h : H) (p : Z) (l : list Z) : Prop :=
  ∀ d, 0 ≤ d < Z.of_nat (length l) → ∃ q, host (p + d) = Some q ∧ l !! Z.to_nat d = Some (h_mem h q).

Lemma reads_app h p a b :
  reads h p a → reads h (p + Z.of_nat (length a)) b → reads h p (a ++ b).
Proof.
  intros Ha Hb d Hd. rewrite length_app in Hd.
  destruct (Z.lt_ge_cases d (Z.of_nat (length a))) as [Hl|Hl].
  - destruct (Ha d) as (q & Hq & E); [lia|]. exists q. split; [done|]. by rewrite lookup_app_l by lia.
  - destruct (Hb (d - Z.of_nat (length a))) as (q & Hq & E); [lia|]. exists q.
    replace (p + Z.of_nat (length a) + (d - Z.of_nat (length a))) with (p + d) in Hq by lia. split; [done|].
    rewrite lookup_app_r by lia. by replace (Z.to_nat d - length a)%nat with (Z.to_nat (d - Z.of_nat (length a))) by lia.
Qed.

Lemma reads_load h p q n :
  host p = Some q → 0 ≤ n → p mod 4096 + n ≤ 4096 → p mod 2^56 + n < 2^56 → reads h p (load h q n).
Proof.
  intros Hq Hn Hp Hs d. rewrite length_load by done. intros Hd. exists (q + d).
  rewrite host_page, Hq, load_lookup by lia. done.
Qed.

(** The longest mapped prefix of the range is copied. *)
Lemma copy_from_spec h fuel : ∀ p n,
  user_span p n → touched_pages p n ≤ Z.of_nat fuel →
  ∃ l, copy_from m vkern fuel p n h = Ret (n - Z.of_nat (length l), l) ∧ Z.of_nat (length l) ≤ n ∧
    reads h p l ∧ (Z.of_nat (length l) < n → host (p + Z.of_nat (length l)) = None).
Proof.
  assert (∀ p, reads h p []) as Hnil by (intros p d Hd; cbn in Hd; lia).
  induction fuel as [|fuel IH]; intros p n Hs Hf; cbn [copy_from]; pose proof Hs as (Hp & Hn & Ht);
    (destruct (0 <? n) eqn:E; bool_to_prop; [|exists []; cbn; assert (n = 0) as -> by lia; repeat split; try done; lia]).
  { unfold touched_pages in Hf. rewrite (proj2 (Z.ltb_lt 0 n)) in Hf by done.
    pose proof (Z.mod_pos_bound p 4096 eq_refl). lia_mod. }
  destruct (host p) as [q|] eqn:Eq.
  2: { exists []. cbn. rewrite Z.add_0_r, Z.sub_0_r. repeat split; try done; lia. }
  pose proof (touched_next p n Hp E) as (Hsz & Hpg & Htn). set (size := piece p n) in *. cbn zeta.
  pose proof (user_span_end _ _ Hs). pose proof (user_span_next p n size Hs ltac:(lia)) as Hs'.
  rewrite u64_small by lia. destruct (IH (p + size) (n - size) Hs' ltac:(lia)) as (l & -> & Hl & Hr & Hend).
  cbn [mbind outcome_bind]. exists (load h q size ++ l).
  assert (Z.of_nat (length (load h q size)) = size) as Hll by (rewrite length_load; lia).
  rewrite length_app, Nat2Z.inj_add, Hll. split; [do 2 f_equal; lia|]. split; [lia|]. split.
  - apply reads_app; [apply reads_load; try done; lia|]. by rewrite Hll.
  - intros Hlt. rewrite Z.add_assoc. apply Hend. lia.
Qed.

(** A copy from the guest takes the longest mapped prefix of the range,
    byte for byte, across as many pages and regions as it spans, and answers
    how many bytes are missing: none exactly when the whole range is mapped. *)
Theorem copy_from_user_exact p n h :
  user_span p n →
  ∃ l, copy_from_user m vkern p n h = Ret (n - Z.of_nat (length l), l) ∧ Z.of_nat (length l) ≤ n ∧
    reads h p l ∧ (Z.of_nat (length l) < n → host (p + Z.of_nat (length l)) = None).
Proof. intros Hs. apply copy_from_spec; [done|]. apply copy_fuel_enough, Hs. Qed.

(** The mapped bytes of a range are live host memory, each its own. *)
Record clean (h : H) (p n : Z) : Prop := {
  cl_live i q : 0 ≤ i < n → host (p + i) = Some q → h_back h q ≠ None;
  cl_own i j q r : 0 ≤ i < n → 0 ≤ j < n → i ≠ j → host (p + i) = Some q → host (p + j) = Some r →
    q ≠ r ∧ ¬ aliased h q r;
}.

(** [h'] is [h] with the guest's bytes at [p, p + length l) now [l]. *)
Record wrote (h : H) (p : Z) (l : list Z) (h' : H) : Prop := {
  wr_back a : h_back h' a = h_back h a;
  wr_in d q : 0 ≤ d < Z.of_nat (length l) → host (p + d) = Some q → Some (h_mem h' q) = l !! Z.to_nat d;
  wr_out a : h_back h a ≠ None →
    (∀ d q, 0 ≤ d < Z.of_nat (length l) → host (p + d) = Some q → q ≠ a ∧ ¬ aliased h q a) →
    h_mem h' a = h_mem h a;
}.

Lemma wrote_nil h p : wrote h p [] h.
Proof. split; [done| |done]. intros d q Hd. cbn in Hd. lia. Qed.

Lemma aliased_back h h' a b : (∀ x, h_back h' x = h_back h x) → aliased h' a b ↔ aliased h a b.
Proof. intros Hb. unfold aliased. by setoid_rewrite Hb. Qed.

Lemma wrote_store h p q n l :
  host p = Some q → 0 ≤ n → Z.of_nat (length l) = n → p mod 4096 + n ≤ 4096 → p mod 2^56 + n < 2^56 → clean h p n →
  wrote h p l (h_store h q l).
Proof.
  intros Hq Hn Hl Hp Hs Hc. pose proof (store_law h q l) as [Hb Hm _ _ _]. rewrite Hl in *.
  assert (∀ d, 0 ≤ d < n → host (p + d) = Some (q + d)) as Hd.
  { intros d Hd. by rewrite host_page, Hq by lia. }
  split; [done| |].
  - intros d r Hdn Hr. rewrite Hl in Hdn. rewrite Hd in Hr by done. injection Hr as <-.
    rewrite Hm; [|by apply (cl_live _ _ _ Hc d); auto|].
    + unfold in_range. rewrite (proj2 (Z.leb_le _ _)), (proj2 (Z.ltb_lt _ _)) by lia. cbn.
      replace (q + d - q) with d by lia. symmetry. apply list_lookup_lookup_total_lt. lia.
    + intros b Hbr Hne. replace b with (q + (b - q)) by lia.
      apply (cl_own _ _ _ Hc (b - q) d); [lia|lia|lia|apply Hd; lia|by apply Hd].
  - intros a Ha Hfar. rewrite Hl in Hfar. rewrite Hm; [|done|].
    + destruct (in_range q n a) eqn:E; [|done]. unfold in_range in E. bool_to_prop.
      destruct (Hfar (a - q) a) as [? _]; [lia| |done]. rewrite Hd by lia. f_equal. lia.
    + intros b Hbr Hne. replace b with (q + (b - q)) by lia. apply (Hfar (b - q)); [lia|]. apply Hd. lia.
Qed.

Lemma wrote_app h p a b h1 h2 :
  wrote h p a h1 → wrote h1 (p + Z.of_nat (length a)) b h2 →
  clean h p (Z.of_nat (length (a ++ b))) → wrote h p (a ++ b) h2.
Proof.
  intros [B1 I1 O1] [B2 I2 O2] Hc. rewrite length_app in Hc. split; [congruence| |].
  - intros d q Hd Hq. rewrite length_app in Hd. destruct (Z.lt_ge_cases d (Z.of_nat (length a))) as [Hlt|Hge].
    + rewrite lookup_app_l by lia. rewrite <- (I1 d q) by (done || lia). f_equal. apply O2.
      { rewrite B1. apply (cl_live _ _ _ Hc d); [lia|done]. }
      intros e r He Hr. rewrite (aliased_back h h1) by done. replace (p + Z.of_nat (length a) + e) with (p + (Z.of_nat (length a) + e)) in Hr by lia.
      apply (cl_own _ _ _ Hc (Z.of_nat (length a) + e) d); (done || lia).
    + rewrite lookup_app_r by lia. replace (Z.to_nat d - length a)%nat with (Z.to_nat (d - Z.of_nat (length a))) by lia.
      apply I2; [lia|]. by replace (p + Z.of_nat (length a) + (d - Z.of_nat (length a))) with (p + d) by lia.
  - intros x Hx Hfar. rewrite length_app in Hfar. rewrite O2.
    + apply O1; [done|]. intros d q Hd. apply Hfar. lia.
    + by rewrite B1.
    + intros d q Hd Hq. rewrite (aliased_back h h1) by done. apply (Hfar (Z.of_nat (length a) + d)); [lia|].
      by rewrite Z.add_assoc.
Qed.

Lemma clean_shift h h' p n k : clean h p n → 0 ≤ k ≤ n → (∀ a, h_back h' a = h_back h a) → clean h' (p + k) (n - k).
Proof.
  intros [Hl Ho] Hk Hb. split.
  - intros i q Hi. rewrite Hb, <- Z.add_assoc. apply Hl. lia.
  - intros i j q r Hi Hj Hne. rewrite (aliased_back h h'), <- !Z.add_assoc by done. apply Ho; lia.
Qed.

Lemma clean_le h p n k : clean h p n → k ≤ n → clean h p k.
Proof. intros [Hl Ho] Hk. split; [intros i q Hi; apply Hl; lia|intros i j q r Hi Hj; apply Ho; lia]. Qed.

Lemma copy_to_spec fuel : ∀ p src n h,
  user_span p n → touched_pages p n ≤ Z.of_nat fuel → Z.of_nat (length src) = n → clean h p n →
  ∃ k h', copy_to m vkern fuel p src n h = Ret (n - k, h') ∧ 0 ≤ k ≤ n ∧
    (∀ d, 0 ≤ d < k → is_Some (host (p + d))) ∧ (k < n → host (p + k) = None) ∧
    wrote h p (take (Z.to_nat k) src) h'.
Proof.
  induction fuel as [|fuel IH]; intros p src n h Hs Hf Hlen Hc; cbn [copy_to]; pose proof Hs as (Hp & Hn & Ht);
    (destruct (0 <? n) eqn:E; bool_to_prop;
     [|exists 0, h; assert (n = 0) as -> by lia; cbn [take Z.to_nat]; pose proof (wrote_nil h p);
       repeat (split; [done || lia || (intros; lia)|]); done]).
  { unfold touched_pages in Hf. rewrite (proj2 (Z.ltb_lt 0 n)) in Hf by done.
    pose proof (Z.mod_pos_bound p 4096 eq_refl). lia_mod. }
  destruct (host p) as [q|] eqn:Eq.
  2: { exists 0, h. rewrite Z.add_0_r, Z.sub_0_r. pose proof (wrote_nil h p). cbn [take Z.to_nat].
    repeat (split; [done || lia || (intros; lia)|]). done. }
  pose proof (touched_next p n Hp E) as (Hsz & Hpg & Htn). set (size := piece p n) in *. cbn zeta.
  pose proof (user_span_end _ _ Hs). pose proof (user_span_next p n size Hs ltac:(lia)) as Hs'.
  assert (Z.of_nat (length (take (Z.to_nat size) src)) = size) as Htk by (rewrite length_take; lia).
  pose proof (wrote_store h p q size (take (Z.to_nat size) src) Eq ltac:(lia) Htk Hpg ltac:(lia)
    ltac:(by apply (clean_le h p n); [|lia])) as Hw1.
  set (h1 := h_store h q _) in *. rewrite u64_small by lia.
  destruct (IH (p + size) (drop (Z.to_nat size) src) (n - size) h1 Hs' ltac:(lia)) as (k & h' & -> & Hk & Hin & Hend & Hw2).
  { rewrite length_drop. lia. } { eapply clean_shift; [done|lia|apply Hw1]. }
  exists (size + k), h'. split; [do 2 f_equal; lia|]. split; [lia|]. split; [|split].
  - intros d Hd. destruct (Z.lt_ge_cases d size).
    + rewrite host_page, Eq by lia. done.
    + replace (p + d) with (p + size + (d - size)) by lia. apply Hin. lia.
  - intros Hlt. rewrite Z.add_assoc. apply Hend. lia.
  - replace (take (Z.to_nat (size + k)) src) with (take (Z.to_nat size) src ++ take (Z.to_nat k) (drop (Z.to_nat size) src)).
    + eapply wrote_app; [done|by rewrite Htk|]. apply (clean_le h p n); [done|]. rewrite length_app, !length_take, length_drop. lia.
    + rewrite Z2Nat.inj_add by lia. apply take_take_drop.
Qed.

Lemma reads_unique h p a b : reads h p a → reads h p b → length a = length b → a = b.
Proof.
  intros Ha Hb Hl. apply list_eq_same_length with (length a); [done|done|].
  intros i x y Hi Hx Hy. destruct (Ha (Z.of_nat i)) as (q & Hq & E); [lia|].
  destruct (Hb (Z.of_nat i)) as (r & Hr & F); [lia|]. rewrite Nat2Z.id in *. congruence.
Qed.

Lemma reads_take h p l k : reads h p l → reads h p (take k l).
Proof.
  intros Hl d Hd. rewrite length_take in Hd. destruct (Hl d) as (q & Hq & E); [lia|]. exists q. split; [done|].
  by rewrite lookup_take_lt by lia.
Qed.

(** What can be read of a range that starts with bytes that can. *)
Lemma copy_from_reads h p n l :
  user_span p n → reads h p l → Z.of_nat (length l) = n → copy_from_user m vkern p n h = Ret (0, l).
Proof.
  intros Hs Hl Hn. destruct (copy_from_spec h (copy_fuel n) p n Hs) as (l' & E & Hle & Hr & Hend).
  { apply copy_fuel_enough, Hs. }
  assert (length l' = length l) as Hlen.
  { destruct (Z.lt_ge_cases (Z.of_nat (length l')) n) as [Hlt|]; [|lia].
    destruct (Hl (Z.of_nat (length l'))) as (q & Hq & _); [lia|]. by rewrite Hend in Hq. }
  unfold copy_from_user. rewrite E, (reads_unique h p l' l) by done. do 2 f_equal. lia.
Qed.

(** What nabi writes to the guest it reads back, over any number of pages
    and regions, and no other byte of memory changes. *)
Theorem user_copy_roundtrip p l h :
  let n := Z.of_nat (length l) in
  user_span p n → clean h p n → (∀ d, 0 ≤ d < n → is_Some (host (p + d))) →
  ∃ h', copy_to_user m vkern p l n h = Ret (0, h') ∧ copy_from_user m vkern p n h' = Ret (0, l) ∧
    (∀ a, h_back h a ≠ None → (∀ d q, 0 ≤ d < n → host (p + d) = Some q → q ≠ a ∧ ¬ aliased h q a) →
       h_mem h' a = h_mem h a).
Proof.
  intros n Hs Hc Hm. destruct (copy_to_spec (copy_fuel n) p l n h Hs) as (k & h' & E & Hk & _ & Hend & Hw); try done.
  { apply copy_fuel_enough, Hs. }
  assert (k = n) as ->.
  { destruct (Z.lt_ge_cases k n) as [Hlt|]; [|lia]. destruct (Hm k) as [q Hq]; [lia|]. by rewrite Hend in Hq. }
  unfold n in Hw. rewrite Nat2Z.id, firstn_all in Hw. exists h'. split; [|split].
  - unfold copy_to_user. rewrite E. do 2 f_equal. lia.
  - apply copy_from_reads; [done| |done]. intros d Hd. destruct (Hm d Hd) as [q Hq]. exists q. split; [done|].
    symmetry. by apply (wr_in _ _ _ _ Hw).
  - apply Hw.
Qed.

(** ** Strings *)

Lemma strnlen_range l : 0 ≤ strnlen l ≤ Z.of_nat (length l).
Proof. induction l as [|b l IH]; cbn [strnlen length]; [done|]. destruct (b =? 0); lia. Qed.

Lemma strnlen_app a b :
  strnlen (a ++ b) = if strnlen a <? Z.of_nat (length a) then strnlen a else Z.of_nat (length a) + strnlen b.
Proof.
  induction a as [|x a IH]; cbn [app strnlen length]; [done|].
  pose proof (strnlen_range a). destruct (x =? 0); [by rewrite (proj2 (Z.ltb_lt _ _)) by lia|].
  rewrite IH. destruct (strnlen a <? _) eqn:E; bool_to_prop;
    [rewrite (proj2 (Z.ltb_lt _ _)) by lia|rewrite (proj2 (Z.ltb_ge _ _)) by lia]; lia.
Qed.

(** [l] is the longest mapped prefix of [p, p + n). *)
Definition prefix_of h p n l : Prop :=
  reads h p l ∧ Z.of_nat (length l) ≤ n ∧ (Z.of_nat (length l) < n → host (p + Z.of_nat (length l)) = None).

(** The prefix begins with what its first page holds. *)
Lemma prefix_page h p n l q :
  user_span p n → 0 < n → prefix_of h p n l → host p = Some q →
  ∃ l', l = load h q (piece p n) ++ l' ∧ prefix_of h (p + piece p n) (n - piece p n) l'.
Proof.
  intros Hs Hn (Hr & Hle & Hend) Hq. pose proof Hs as (Hp & _ & Ht).
  pose proof (touched_next p n Hp Hn) as (Hsz & Hpg & _). set (size := piece p n) in *.
  assert (size ≤ Z.of_nat (length l)) as Hlong.
  { destruct (Z.lt_ge_cases (Z.of_nat (length l)) size) as [Hlt|]; [|done].
    specialize (Hend ltac:(lia)). by rewrite host_page, Hq in Hend by lia. }
  assert (take (Z.to_nat size) l = load h q size) as Htk.
  { apply (reads_unique h p); [by apply reads_take|apply reads_load; [done|lia|done|lia]|].
    rewrite length_take, length_load; lia. }
  exists (drop (Z.to_nat size) l). rewrite <- Htk, take_drop. split; [done|].
  assert (Z.of_nat (length (drop (Z.to_nat size) l)) = Z.of_nat (length l) - size) as Hld by (rewrite length_drop; lia).
  unfold prefix_of. rewrite Hld. split; [|split; [lia|]].
  - intros d Hd. rewrite Hld in Hd. destruct (Hr (size + d)) as (r & Hr' & E); [lia|]. exists r.
    rewrite <- Z.add_assoc, lookup_drop. split; [done|]. rewrite <- E. f_equal. lia.
  - intros Hlt. rewrite <- Z.add_assoc. replace (size + (Z.of_nat (length l) - size)) with (Z.of_nat (length l)) by lia.
    apply Hend. lia.
Qed.

Lemma strnlen_loop_spec h fuel : ∀ p n len l,
  user_span p n → touched_pages p n ≤ Z.of_nat fuel → 0 ≤ len → len + n < 2^31 - 1 → prefix_of h p n l →
  strnlen_loop m vkern fuel p n len h =
  Ret (if strnlen l <? Z.of_nat (length l) then len + strnlen l + 1
       else if Z.of_nat (length l) <? n then 0 else len + n + 1).
Proof.
  induction fuel as [|fuel IH]; intros p n len l Hs Hf Hl0 Hln Hpre; cbn [strnlen_loop]; pose proof Hs as (Hp & Hn & Ht);
    pose proof Hpre as (_ & Hle & _); pose proof (strnlen_range l);
    rewrite (s64_small n) by lia; (destruct (0 <? n) eqn:E; bool_to_prop;
    [|rewrite !(proj2 (Z.ltb_ge _ _)), s32_small by lia; f_equal; lia]).
  { unfold touched_pages in Hf. rewrite (proj2 (Z.ltb_lt 0 n)) in Hf by done.
    pose proof (Z.mod_pos_bound p 4096 eq_refl). lia_mod. }
  destruct (host p) as [q|] eqn:Eq.
  2: { destruct l as [|b l]; [by rewrite (proj2 (Z.ltb_lt (Z.of_nat (length (@nil Z))) n) E)|].
       destruct Hpre as (Hr & _). destruct (Hr 0) as (q & Hq & _); [cbn; lia|]. rewrite Z.add_0_r in Hq. congruence. }
  destruct (prefix_page h p n l q Hs E Hpre Eq) as (l' & -> & Hpre').
  pose proof (touched_next p n Hp E) as (Hsz & Hpg & Htn). set (size := piece p n) in *. cbn zeta.
  pose proof (user_span_end _ _ Hs). pose proof (user_span_next p n size Hs ltac:(lia)) as Hs'.
  pose proof (strnlen_range (load h q size)) as Hlr. rewrite strnlen_app, length_app, Nat2Z.inj_add.
  assert (Z.of_nat (length (load h q size)) = size) as Hll by (rewrite length_load; lia). rewrite Hll in *.
  destruct (strnlen (load h q size) <? size) eqn:Ei; bool_to_prop.
  - rewrite (proj2 (Z.ltb_lt _ _)) by lia. rewrite s64_small by lia. done.
  - rewrite (proj2 (Z.eqb_eq _ _)) by lia. cbn [assert_c mbind outcome_bind]. rewrite u64_small, s32_small by lia.
    rewrite (IH _ _ _ l') by (done || lia). f_equal.
    pose proof (strnlen_range l'). destruct (strnlen l' <? Z.of_nat (length l')) eqn:E1; bool_to_prop.
    + rewrite (proj2 (Z.ltb_lt (size + strnlen l') (size + Z.of_nat (length l')))) by lia. lia.
    + rewrite (proj2 (Z.ltb_ge (size + strnlen l') (size + Z.of_nat (length l')))) by lia.
      destruct (Z.of_nat (length l') <? n - size) eqn:E2; bool_to_prop.
      * by rewrite (proj2 (Z.ltb_lt (size + Z.of_nat (length l')) n)) by lia.
      * rewrite (proj2 (Z.ltb_ge (size + Z.of_nat (length l')) n)) by lia. lia.
Qed.

(** A string argument. With [l] the longest mapped prefix of the [n] bytes
    allowed, the answer is the string's length with the string and its NUL
    copied; [n] with [n] bytes when there is no NUL among them; and EFAULT, with
    nothing copied, when memory ends before the string does. *)
Theorem strncpy_from_user_correct h p n l :
  user_span p n → n < 2^31 - 1 → prefix_of h p n l →
  strncpy_from_user m vkern p n h =
  Ret (if strnlen l <? Z.of_nat (length l) then (strnlen l, take (Z.to_nat (strnlen l + 1)) l)
       else if Z.of_nat (length l) <? n then (- EFAULT, []) else (n, l)).
Proof.
  intros Hs Hn Hpre. pose proof Hs as (Hp & Hn0 & Ht). pose proof Hpre as (Hr & Hle & _).
  unfold strncpy_from_user, strnlen_user.
  rewrite (strnlen_loop_spec h _ p n 0 l) by (done || lia || apply copy_fuel_enough, Hs).
  cbn [mbind outcome_bind]. pose proof (strnlen_range l).
  destruct (strnlen l <? Z.of_nat (length l)) eqn:E1; bool_to_prop.
  - rewrite u64_small by lia. rewrite (proj2 (Z.eqb_neq _ _)), (proj2 (Z.ltb_ge _ _)) by lia.
    rewrite (copy_from_reads h p _ (take (Z.to_nat (strnlen l + 1)) l)).
    + cbn [mbind outcome_bind Z.eqb]. rewrite s64_small by lia. do 2 f_equal. lia.
    + split; [done|]. split; lia.
    + by apply reads_take.
    + rewrite length_take. lia.
  - destruct (Z.of_nat (length l) <? n) eqn:E2; bool_to_prop; [done|].
    rewrite u64_small by lia. rewrite (proj2 (Z.eqb_neq _ _)), (proj2 (Z.ltb_lt _ _)) by lia.
    rewrite (copy_from_reads h p n l) by (done || lia). done.
Qed.
End CopyFacts.

(** * The promises at work: six bytes across a page boundary *)

Definition demo_host : toy :=
  mk_toy [(0x100000000, 0x100000, Some (Private 3 0))]
    (λ a, if a =? 0x100013002 then 0 else 97) (λ _ _, 0) (λ _, 0) [3].

Lemma six (P : Z → Prop) : P 0 → P 1 → P 2 → P 3 → P 4 → P 5 → ∀ d, 0 ≤ d < 6 → P d.
Proof.
  intros ? ? ? ? ? ? d Hd.
  assert (d = 0 ∨ d = 1 ∨ d = 2 ∨ d = 3 ∨ d = 4 ∨ d = 5) as Hc by lia. by repeat destruct Hc as [->|Hc]; subst.
Qed.

Lemma demo_translation d :
  0 ≤ d < 6 → guest_to_host (0x12ffe + d) demo_map demo_empty = Some (0x100012ffe + d).
Proof. revert d. apply six; by vm_compute. Qed.

Lemma demo_backing d : 0 ≤ d < 6 → h_back demo_host (0x100012ffe + d) = Some (Private 3 (0x12ffe + d)).
Proof. revert d. apply six; by vm_compute. Qed.

Lemma demo_clean : clean demo_map demo_empty demo_host 0x12ffe 6.
Proof.
  split.
  - intros i q Hi. rewrite demo_translation by done. intros [= <-]. by rewrite demo_backing.
  - intros i j q r Hi Hj Hne. rewrite !demo_translation by done. intros [= <-] [= <-]. split; [lia|].
    intros (fd & o & Hq & _). by rewrite demo_backing in Hq.
Qed.

Lemma demo_span : user_span 0x12ffe 6.
Proof. by vm_compute. Qed.

Lemma copy_from_user_exact_witness :
  ∃ l, copy_from_user demo_map demo_empty 0x12ffe 6 demo_host = Ret (6 - Z.of_nat (length l), l) ∧
    reads demo_map demo_empty demo_host 0x12ffe l.
Proof.
  destruct (copy_from_user_exact demo_map demo_empty demo_map_ok demo_empty_ok 0x12ffe 6 demo_host demo_span)
    as (l & E & _ & Hr & _). exists l. exact (conj E Hr).
Defined.

Lemma user_copy_roundtrip_witness :
  ∃ h', copy_to_user demo_map demo_empty 0x12ffe [1; 2; 3; 4; 5; 6] 6 demo_host = Ret (0, h') ∧
    copy_from_user demo_map demo_empty 0x12ffe 6 h' = Ret (0, [1; 2; 3; 4; 5; 6]).
Proof.
  destruct (user_copy_roundtrip demo_map demo_empty demo_map_ok demo_empty_ok 0x12ffe [1; 2; 3; 4; 5; 6] demo_host
    demo_span demo_clean) as (h' & E & F & _).
  - intros d Hd. rewrite demo_translation by exact Hd. by eexists.
  - exists h'. exact (conj E F).
Defined.

Lemma demo_string : prefix_of demo_map demo_empty demo_host 0x12ffe 6 [97; 97; 97; 97; 0; 97].
Proof.
  split; [|done]. intros d Hd. change (Z.of_nat _) with 6 in Hd. exists (0x100012ffe + d).
  rewrite demo_translation by done. split; [done|]. revert d Hd. apply six; by vm_compute.
Qed.

Lemma strncpy_from_user_correct_witness :
  strncpy_from_user demo_map demo_empty 0x12ffe 6 demo_host = Ret (4, [97; 97; 97; 97; 0]).
Proof.
  exact (strncpy_from_user_correct demo_map demo_empty demo_map_ok demo_empty_ok demo_host 0x12ffe 6
    [97; 97; 97; 97; 0; 97] demo_span eq_refl demo_string).
Defined.
