(* ===== verification/Mmap.v ===== *)
(** The memory calls, src/mm/mmap.c and src/mm/mm.c: the region map, the page
    tables and the second stage changed together. *)

From S2P Require Import Prelude Errno Host Arena Stage2 PageTable Translation RbTree Regions UserCopy.

Definition HOST_BLOCK_GRANULE : Z := STAGE2_GRANULE.
Definition LINUX_MMAP_MIN_ADDR : Z := 0x10000.
Definition LINUX_MAP_DENYWRITE : Z := 0x800.
Definition LINUX_MAP_EXECUTABLE : Z := 0x1000.
Definition LINUX_MAP_NORESERVE : Z := 0x4000.
Definition LINUX_MAP_POPULATE : Z := 0x8000.
Definition LINUX_MAP_STACK : Z := 0x20000.
Definition LINUX_MAP_HUGETLB : Z := 0x40000.
Definition LINUX_MREMAP_MAYMOVE : Z := 1.
Definition LINUX_MREMAP_FIXED : Z := 2.
Definition LINUX_MADV_DONTNEED : Z := 4.

(** The host's open(2) modes. *)
Definition O_ACCMODE : Z := 3.
Definition O_WRONLY : Z := 1.
Definition O_RDWR : Z := 2.

Definition hv_mflag_to_linux_mprot (mflag : Z) : Z :=
  Z.lor (Z.lor (if has mflag HV_MEMORY_READ then LINUX_PROT_READ else 0)
               (if has mflag HV_MEMORY_WRITE then LINUX_PROT_WRITE else 0))
        (if has mflag HV_MEMORY_EXEC then LINUX_PROT_EXEC else 0).

Definition linux_mprot_to_hv_mflag (mprot : Z) : Z :=
  Z.lor (Z.lor (if has mprot LINUX_PROT_READ then HV_MEMORY_READ else 0)
               (if has mprot LINUX_PROT_WRITE then HV_MEMORY_WRITE else 0))
        (if has mprot LINUX_PROT_EXEC then HV_MEMORY_EXEC else 0).

(** What the memory calls ask of the binder emulation (src/fs/binder.c):
    whether a descriptor is one of its endpoints, and to take a range as an
    endpoint's buffer. *)
Class BinderOps (B : Type) := {
  binder_emul_is : Z → B → bool * B;
  binder_emul_mmap : Z → Z → Z → B → Z * B;
}.

(** The machine, [proc.mm], [vkern_mm] and kmap's [noah_kern_brk]. *)
Record world (H V B : Type) := mk_world {
  w_m : machine H V;
  w_mm : mm;
  w_vkern : mm;
  w_kern_brk : Z;
  w_binder : B;
}.
Arguments mk_world {H V B}. Arguments w_m {H V B}. Arguments w_mm {H V B}.
Arguments w_vkern {H V B}. Arguments w_kern_brk {H V B}. Arguments w_binder {H V B}.

Section Mmap.
Context {H V B : Type} `{HostOps H, HostIO H, HvOps V, BinderOps B}.
Variable junk : Z → bool.
Variable counter0 : Z.
Implicit Type w : world H V B.

Definition set_mm (m : mm) w : world H V B :=
  mk_world (w_m w) m (w_vkern w) (w_kern_brk w) (w_binder w).
Definition set_machine (m : machine H V) w : world H V B :=
  mk_world m (w_mm w) (w_vkern w) (w_kern_brk w) (w_binder w).
Definition set_memory_of (a : arena) (h : H) w : world H V B :=
  set_machine (mk_machine (m_pt (w_m w)) (m_s2 (w_m w)) a h) w.
Definition set_host (h : H) w : world H V B := set_memory_of (m_arena (w_m w)) h w.
Definition set_binder (b : B) w : world H V B :=
  mk_world (w_m w) (w_mm w) (w_vkern w) (w_kern_brk w) b.
Definition w_host w : H := m_host (w_m w).

Definition split w (id gaddr : Z) : outcome (world H V B) :=
  '(m, h) ← split_region junk id gaddr (w_mm w) (w_host w);
  Ret (set_host h (set_mm m w)).

(** [darwin_to_linux_errno] of what the last call left. *)
Definition host_error (h : H) : Z := darwin_to_linux_errno counter0 (h_errno h).

(** [syswrap] of a host call that answers 0 or -1. *)
Definition syswrap (r : bool * H) : Z :=
  let '(ok, h) := r in _syswrap counter0 (if ok : bool then 0 else -1) (h_errno h).

(** * do_munmap *)

(** Back to the first region that overlaps. *)
Fixpoint first_overlap (fuel : nat) (k : mm_region) (id : Z) (m : mm) : outcome Z :=
  match fuel with
  | O => Stop OutOfFuel
  | S fuel =>
      match prev_of id None (mm_list m) with
      | None => Ret id
      | Some prev =>
          if negb (region_compare k (reg m prev) =? 0) then Ret id else first_overlap fuel k prev m
      end
  end.

(** The memory behind a region that is being taken out. *)
Definition release_memory (r : mm_region) w : outcome (world H V B) :=
  if r_reserved r then Ret w
  else
    mach ← vmm_munmap (r_gaddr r) (r_size r) (w_m w);
    let w := set_machine mach w in
    if r_arena_off r <? 0 then
      if (r_haddr r mod HOST_BLOCK_GRANULE =? 0) && (r_size r mod HOST_BLOCK_GRANULE =? 0)
      then Ret (set_host (h_munmap (w_host w) (r_haddr r) (r_size r)) w)
      else Ret w
    else
      if (r_arena_off r mod HOST_BLOCK_GRANULE =? 0) && (r_size r mod HOST_BLOCK_GRANULE =? 0)
      then
        '(a, h) ← arena_free (r_arena_off r) (r_size r) (m_arena (w_m w))
                    (h_munmap (w_host w) (r_haddr r) (r_size r));
        Ret (set_memory_of a h w)
      else Ret w.

Definition close_owned (r : mm_region) w : world H V B :=
  if r_owns_fd r && (0 <=? r_fd r) then set_host (h_close (w_host w) (r_fd r)) w else w.

(** [list_del] and [RB_REMOVE]. *)
Definition unlink (id : Z) w : outcome (world H V B) :=
  let m := w_mm w in
  t ← RB_REMOVE id (mm_tree m);
  Ret (set_mm (with_places t (list_del id (mm_list m)) m) w).

(** One region of the range: what sticks out at either end is cut off first.
    The result is the region after it. *)
Definition unmap_region (gaddr size id : Z) w : outcome (option Z * world H V B) :=
  '(id, w) ←
    (if r_gaddr (reg (w_mm w) id) <? gaddr then
       w ← split w id gaddr;
       match next_of id (mm_list (w_mm w)) with
       | Some id => Ret (id, w)
       | None => Stop Faulted
       end
     else Ret (id, w));
  w ← (let r := reg (w_mm w) id in
       if u64 (r_gaddr r + r_size r) >? u64 (gaddr + size)
       then split w id (u64 (gaddr + size)) else Ret w);
  let next := next_of id (mm_list (w_mm w)) in
  let r := reg (w_mm w) id in
  w ← unlink id w;
  w ← release_memory r w;
  let w := close_owned r w in
  Ret (next, set_mm (free id (w_mm w)) w).

Fixpoint munmap_loop (fuel : nat) (gaddr size id : Z) w : outcome (world H V B) :=
  if region_compare (key gaddr size) (reg (w_mm w) id) =? 0 then
    match fuel with
    | O => Stop OutOfFuel
    | S fuel =>
        '(next, w) ← unmap_region gaddr size id w;
        match next with
        | None => Ret w
        | Some id => munmap_loop fuel gaddr size id w
        end
    end
  else Ret w.

Definition do_munmap (gaddr size : Z) w : outcome (Z * world H V B) :=
  if negb (is_page_aligned gaddr) then Ret (- EINVAL, w)
  else
    let size := roundup size GUEST_MMAP_GRANULE in
    found ← find_region_range gaddr size (w_mm w);
    match found with
    | None => Ret (- ENOMEM, w)
    | Some id =>
        id ← first_overlap (length (mm_list (w_mm w))) (key gaddr size) id (w_mm w);
        w ← munmap_loop (length (mm_list (w_mm w))) gaddr size id w;
        Ret (0, w)
    end.

(** * do_mmap *)

(** lib/vmm_arm64.c: the instruction cache over a guest range, region by region. *)
Fixpoint sync_guest_code (fuel : nat) (gaddr len : Z) (m vkern : mm) (h : H) : outcome H :=
  if 0 <? len then
    match fuel with
    | O => Stop OutOfFuel
    | S fuel =>
        match find_region gaddr m with
        | None => Ret h
        | Some id =>
            let r := reg m id in
            let piece := Z.min len (u64 (u64 (r_gaddr r + r_size r) - gaddr)) in
            let h := match guest_to_host gaddr m vkern with
                     | Some hva => h_icache h hva piece
                     | None => h
                     end in
            sync_guest_code fuel (u64 (gaddr + piece)) (len - piece) m vkern h
        end
    end
  else Ret h.

Definition vmm_sync_guest_code (gaddr len : Z) w : outcome (world H V B) :=
  h ← sync_guest_code (S (length (mm_list (w_mm w)))) gaddr len (w_mm w) (w_vkern w) (w_host w);
  Ret (set_host h w).

(** Flags that are dropped without a trace. *)
Definition ignored_flags : Z :=
  Z.lor LINUX_MAP_DENYWRITE (Z.lor LINUX_MAP_EXECUTABLE (Z.lor LINUX_MAP_NORESERVE
    (Z.lor LINUX_MAP_POPULATE LINUX_MAP_STACK))).

Definition known_flags : Z :=
  Z.lor LINUX_MAP_SHARED (Z.lor LINUX_MAP_PRIVATE (Z.lor LINUX_MAP_FIXED
    (Z.lor LINUX_MAP_ANONYMOUS LINUX_MAP_HUGETLB))).

(** Where the mapping goes. *)
Definition place_mapping (addr len l_flags : Z) w : outcome (Z * world H V B) :=
  if negb (has l_flags LINUX_MAP_FIXED) then
    hint ← (if (LINUX_MMAP_MIN_ADDR <=? addr) && (addr <? u64 (addr + len)) then
              found ← find_region_range addr len (w_mm w);
              Ret (match found with None => true | Some _ => false end)
            else Ret false);
    if hint : bool then Ret (addr, w)
    else let '(addr, m) := alloc_region len (w_mm w) in Ret (addr, set_mm m w)
  else Ret (addr, w).

(** A descriptor that cannot write, of a file that can be written: opened
    again, and kept if it is the same file. *)
Definition reopen (fd : Z) (h : H) : option Z * H :=
  match h_getpath h fd, h_fdid h fd with
  | Some path, Some a_st =>
      match h_openrw h path with
      | (None, h) => (None, h)
      | (Some cand, h) =>
          match h_fdid h cand with
          | Some b_st => if bool_decide (a_st = b_st) then (Some cand, h) else (None, h_close h cand)
          | None => (None, h_close h cand)
          end
      end
  | _, _ => (None, h)
  end.

(** What backs a new mapping: an error, or the host address, the arena offset
    and the descriptor of its own the mapping keeps. *)
Inductive mem_result := MemError (e : Z) | MemOk (ptr arena_off owned_fd : Z).

Definition map_memory (len l_prot l_flags fd offset : Z) (reserve_only : bool) w
  : outcome (mem_result * world H V B) :=
  let amode := if 0 <=? fd then h_getfl (w_host w) fd else None in
  let fd_writable := match amode with
                     | Some a => (Z.land a O_ACCMODE =? O_RDWR) || (Z.land a O_ACCMODE =? O_WRONLY)
                     | None => false
                     end in
  let wants_shared := (0 <=? fd) && has l_flags LINUX_MAP_SHARED &&
                      (Z.land offset (GUEST_MMAP_GRANULE - 1) =? 0) &&
                      negb (has l_prot LINUX_PROT_EXEC) in
  let '(reopened, h) := if wants_shared && negb fd_writable then reopen fd (w_host w)
                        else (None, w_host w) in
  let w := set_host h w in
  let shared_file := wants_shared && (fd_writable || bool_decide (is_Some reopened)) in
  let mapfd := default fd reopened in
  if reserve_only then Ret (MemOk 0 (-1) (-1), w)
  else if shared_file then
    match h_mmap (w_host w) 0 len (Shared mapfd offset) with
    | (None, h) =>
        let e := host_error h in
        let h := match reopened with Some d => h_close h d | None => h end in
        Ret (MemError (- e), set_host h w)
    | (Some ptr, h) =>
        let '(owned, h) := match reopened with Some d => (Some d, h) | None => h_dup h fd end in
        Ret (MemOk ptr (-1) (default (-1) owned), set_host h w)
    end
  else
    let w := match reopened with Some d => set_host (h_close (w_host w) d) w | None => w end in
    '(ptr, off, a, h) ← arena_alloc len (m_arena (w_m w)) (w_host w);
    let w := set_memory_of a h w in
    if 0 <=? fd then
      match h_pread (w_host w) fd ptr len offset with
      | (None, h) =>
          let e := host_error h in
          '(a, h) ← arena_unmap ptr len (m_arena (w_m w)) h;
          '(a, h) ← arena_free off len a h;
          Ret (MemError (- e), set_memory_of a h w)
      | (Some _, h) => Ret (MemOk ptr off (-1), set_host h w)
      end
    else Ret (MemOk ptr off (-1), w).

(** The new region takes the place of whatever is there. *)
Definition install (addr len l_prot l_flags fd offset ptr arena_off owned_fd : Z) (reserve_only : bool) w
  : outcome (world H V B) :=
  '(_, w) ← do_munmap addr len w;
  '(id, m) ← record_region ptr addr len l_prot l_flags (if 0 <=? owned_fd then owned_fd else fd) offset (w_mm w);
  let m := upd id (set_owns_fd (0 <=? owned_fd)) (upd id (set_memory ptr arena_off reserve_only) m) in
  let w := set_mm m w in
  if negb reserve_only then
    mach ← vmm_mmap addr len (linux_mprot_to_hv_mflag l_prot) ptr (w_m w);
    Ret (set_machine mach w)
  else Ret w.

Definition do_mmap (addr len l_prot l_flags fd offset : Z) w : outcome (Z * world H V B) :=
  assert_c (Z.land addr 0xfff =? 0);;
  let l_flags := Z.land l_flags (Z.lnot ignored_flags) in
  let len := roundup len GUEST_MMAP_GRANULE in
  let '(binder_arena, b) := if 0 <=? fd then binder_emul_is fd (w_binder w) else (false, w_binder w) in
  let w := set_binder b w in
  let binder_fd := fd in
  let '(fd, offset, l_flags, l_prot) :=
    if binder_arena : bool then
      (-1, 0,
       Z.lor (Z.lor (Z.land l_flags (Z.lnot LINUX_MAP_SHARED)) LINUX_MAP_PRIVATE) LINUX_MAP_ANONYMOUS,
       Z.lor (Z.lor l_prot LINUX_PROT_READ) LINUX_PROT_WRITE)
    else (fd, offset, l_flags, l_prot) in
  if has l_flags (Z.lnot known_flags) then Stop (Exited 1)
  else
    let '(fd, offset) := if has l_flags LINUX_MAP_ANONYMOUS then (-1, 0) else (fd, offset) in
    '(addr, w) ← place_mapping addr len l_flags w;
    let reserve_only := (l_prot =? LINUX_PROT_NONE) && (fd <? 0) && negb (has l_flags LINUX_MAP_SHARED) in
    '(res, w) ← map_memory len l_prot l_flags fd offset reserve_only w;
    match res with
    | MemError e => Ret (u64 e, w)
    | MemOk ptr arena_off owned_fd =>
        w ← install addr len l_prot l_flags fd offset ptr arena_off owned_fd reserve_only w;
        w ← (if 0 <=? fd then vmm_sync_guest_code addr len w else Ret w);
        if binder_arena then
          let '(br, b) := binder_emul_mmap binder_fd addr len (w_binder w) in
          let w := set_binder b w in
          if br <? 0 then Ret (u64 br, w) else Ret (addr, w)
        else Ret (addr, w)
    end.

(** * The calls *)

Definition sys_mmap (addr len prot flags fd offset : Z) w : outcome (Z * world H V B) :=
  if len =? 0 then Ret (u64 (- EINVAL), w)
  else if has flags LINUX_MAP_FIXED && (0 <? len) &&
          range_is_sealed addr (roundup len GUEST_MMAP_GRANULE) (w_mm w)
  then Ret (u64 (- EPERM), w)
  else do_mmap addr len prot flags fd offset w.

Definition sys_munmap (gaddr size : Z) w : outcome (Z * world H V B) :=
  if (0 <? size) && range_is_sealed gaddr (roundup size GUEST_MMAP_GRANULE) (w_mm w)
  then Ret (- EPERM, w)
  else do_munmap gaddr size w.

(** ** mprotect *)

Definition region_materialize (id hvprot : Z) w : outcome (Z * world H V B) :=
  let r := reg (w_mm w) id in
  '(ptr, off, a, h) ← arena_alloc (r_size r) (m_arena (w_m w)) (w_host w);
  let w := set_memory_of a h w in
  if ptr =? 0 then Ret (- ENOMEM, w)
  else
    let w := set_mm (upd id (set_memory ptr off false) (w_mm w)) w in
    mach ← vmm_mmap (r_gaddr r) (r_size r) hvprot ptr (w_m w);
    Ret (0, set_machine mach w).

(** One region of the range: a reservation becomes memory first, then the
    descriptors and the record take the new permission. *)
Definition protect_region (id prot hvprot : Z) w : outcome (Z * world H V B) :=
  '(r, w) ← (if r_reserved (reg (w_mm w) id) && negb (prot =? LINUX_PROT_NONE)
             then region_materialize id hvprot w else Ret (0, w));
  if r <? 0 then Ret (r, w)
  else
    let r := reg (w_mm w) id in
    w ← (if negb (r_reserved r) then
           mach ← pt_protect (r_gaddr r) (r_size r) prot (w_m w);
           Ret (set_machine mach w)
         else Ret w);
    Ret (0, set_mm (upd id (set_prot hvprot) (w_mm w)) w).

(** How the loop over the whole regions ends: at [out] with an answer, by the
    return inside it, or at a region that sticks out. *)
Inductive loop_end := GotoOut (ret : Z) | Return (r : Z) | At (id : Z).

Fixpoint mprotect_loop (fuel : nat) (id prot hvprot end_ : Z) w
  : outcome (loop_end * world H V B) :=
  if u64 (r_gaddr (reg (w_mm w) id) + r_size (reg (w_mm w) id)) <=? end_ then
    match fuel with
    | O => Stop OutOfFuel
    | S fuel =>
        '(r, w) ← protect_region id prot hvprot w;
        if r <? 0 then Ret (Return r, w)
        else
          let rend := u64 (r_gaddr (reg (w_mm w) id) + r_size (reg (w_mm w) id)) in
          if rend =? end_ then Ret (GotoOut 0, w)
          else
            match next_of id (mm_list (w_mm w)) with
            | None => Ret (GotoOut (- ENOMEM), w)
            | Some next =>
                if negb (r_gaddr (reg (w_mm w) next) =? rend) then Ret (GotoOut (- ENOMEM), w)
                else mprotect_loop fuel next prot hvprot end_ w
            end
    end
  else Ret (At id, w).

(** Joining what is now indistinguishable at both ends of the range. *)
Definition merge_at (a : Z) w : outcome (world H V B) :=
  match find_region a (w_mm w) with
  | None => Ret w
  | Some id => m ← merge_region id (w_mm w); Ret (set_mm m w)
  end.

Definition mprotect_out (addr end_ ret : Z) w : outcome (Z * world H V B) :=
  if ret =? 0 then
    w ← merge_at addr w;
    w ← merge_at (u64 (end_ - 1)) w;
    Ret (ret, w)
  else Ret (ret, w).

Definition sys_mprotect (addr len prot : Z) w : outcome (Z * world H V B) :=
  if negb (is_page_aligned addr) || (len =? 0) then Ret (- EINVAL, w)
  else
    let len := roundup len PAGE_4KB in
    let end_ := u64 (addr + len) in
    let hvprot := linux_mprot_to_hv_mflag prot in
    if range_is_sealed addr len (w_mm w) then Ret (- EPERM, w)
    else
      match find_region addr (w_mm w) with
      | None => mprotect_out addr end_ (- ENOMEM) w
      | Some id =>
          '(id, w) ←
            (if r_gaddr (reg (w_mm w) id) <? addr then
               w ← split w id addr;
               match next_of id (mm_list (w_mm w)) with
               | Some id => Ret (id, w)
               | None => Stop Faulted
               end
             else Ret (id, w));
          '(e, w) ← mprotect_loop (length (mm_list (w_mm w))) id prot hvprot end_ w;
          match e with
          | Return r => Ret (r, w)
          | GotoOut ret => mprotect_out addr end_ ret w
          | At id =>
              if r_gaddr (reg (w_mm w) id) <? end_ then
                w ← split w id end_;
                '(r, w) ← protect_region id prot hvprot w;
                mprotect_out addr end_ (if r <? 0 then r else 0) w
              else mprotect_out addr end_ 0 w
          end
      end.

Definition sys_pkey_mprotect (addr len prot pkey : Z) w : outcome (Z * world H V B) :=
  if pkey =? -1 then sys_mprotect addr len prot w
  else if pkey <? 0 then Ret (- EINVAL, w)
  else Ret (- EINVAL, w).

(** ** mseal *)

(** Whether the whole of [p, end_) is mapped, and what to answer if not. *)
Fixpoint all_mapped (fuel : nat) (p end_ err : Z) (m : mm) : outcome Z :=
  if p <? end_ then
    match fuel with
    | O => Stop OutOfFuel
    | S fuel =>
        match find_region p m with
        | None => Ret (- err)
        | Some id => all_mapped fuel (u64 (r_gaddr (reg m id) + r_size (reg m id))) end_ err m
        end
    end
  else Ret 0.

Fixpoint seal_loop (fuel : nat) (p end_ : Z) w : outcome (world H V B) :=
  if p <? end_ then
    match fuel with
    | O => Stop OutOfFuel
    | S fuel =>
        match find_region p (w_mm w) with
        | None => Stop Faulted
        | Some id =>
            '(id, w) ←
              (if r_gaddr (reg (w_mm w) id) <? p then
                 w ← split w id p;
                 match next_of id (mm_list (w_mm w)) with
                 | Some id => Ret (id, w)
                 | None => Stop Faulted
                 end
               else Ret (id, w));
            let r := reg (w_mm w) id in
            w ← (if u64 (r_gaddr r + r_size r) >? end_ then split w id end_ else Ret w);
            let w := set_mm (upd id set_sealed (w_mm w)) w in
            let r := reg (w_mm w) id in
            seal_loop fuel (u64 (r_gaddr r + r_size r)) end_ w
        end
    end
  else Ret w.

Definition sys_mseal (addr len flags : Z) w : outcome (Z * world H V B) :=
  if negb (flags =? 0) then Ret (- EINVAL, w)
  else if negb (Z.land addr (PAGE_4KB - 1) =? 0) then Ret (- EINVAL, w)
  else if len =? 0 then Ret (0, w)
  else if u64 (addr + len) <? addr then Ret (- EINVAL, w)
  else
    let end_ := roundup (u64 (addr + len)) PAGE_4KB in
    let fuel := S (length (mm_list (w_mm w))) in
    ret ← all_mapped fuel addr end_ ENOMEM (w_mm w);
    if ret <? 0 then Ret (ret, w)
    else
      w ← seal_loop fuel addr end_ w;
      Ret (0, w).

(** ** mremap *)

(** memcpy(3); nothing is read from or written to a null pointer. *)
Definition memcpy (dst src n : Z) (h : H) : outcome H :=
  if n =? 0 then Ret h
  else if (src =? 0) || (dst =? 0) then Stop Faulted
  else Ret (h_store h dst (load h src n)).

Definition mremap_shrink (id new_size : Z) w : outcome (world H V B) :=
  let r := reg (w_mm w) id in
  w ← (if new_size <? r_size r then
         mach ← vmm_munmap (u64 (r_gaddr r + new_size)) (r_size r - new_size) (w_m w);
         let w := set_machine mach w in
         if r_arena_off r <? 0
         then Ret (set_host (h_munmap (w_host w) (r_haddr r + new_size) (r_size r - new_size)) w)
         else
           let aligned := roundup new_size GUEST_MMAP_GRANULE in
           if aligned <? r_size r then
             '(a, h) ← arena_free (r_arena_off r + aligned) (r_size r - aligned) (m_arena (w_m w)) (w_host w);
             Ret (set_memory_of a h w)
           else Ret w
       else Ret w);
  Ret (set_mm (upd id (set_size new_size) (w_mm w)) w).

(** Growing where the region stands; [None] when the move has to be made. *)
Definition mremap_grow (id old_size new_size flags : Z) w : outcome (option Z * world H V B) :=
  let r := reg (w_mm w) id in
  if negb (has flags LINUX_MREMAP_FIXED) && (r_size r <? new_size) && (0 <=? r_arena_off r) &&
     (r_size r =? old_size) && has (r_flags r) LINUX_MAP_ANONYMOUS
  then
    found ← find_region_range (u64 (r_gaddr r + r_size r)) (new_size - r_size r) (w_mm w);
    match found with
    | Some _ => Ret (None, w)
    | None =>
        '(grown, a, h) ← arena_extend (r_arena_off r) (r_size r) new_size (r_haddr r)
                           (m_arena (w_m w)) (w_host w);
        let w := set_memory_of a h w in
        match grown with
        | None => Ret (None, w)
        | Some _ =>
            let m := upd id (set_size new_size) (w_mm w) in
            let top := u64 (r_gaddr r + new_size) in
            let m := if mm_top m <? top then with_top top m else m in
            let w := set_mm m w in
            mach ← vmm_mmap (u64 (r_gaddr r + r_size r)) (new_size - r_size r) (r_prot r)
                     (r_haddr r + r_size r) (w_m w);
            Ret (Some (r_gaddr r), set_machine mach w)
        end
    end
  else Ret (None, w).

(** Moving to [dst]: the bytes are copied before anything is unmapped. *)
Definition mremap_move (id old_addr old_size new_size flags dst : Z) w : outcome (Z * world H V B) :=
  let r := reg (w_mm w) id in
  '(moved_to, moved_off, a, h) ← arena_alloc new_size (m_arena (w_m w)) (w_host w);
  h ← (if has (r_flags r) LINUX_MAP_ANONYMOUS then memcpy moved_to (r_haddr r) old_size h
       else
         match h_pread h (r_fd r) moved_to new_size (r_pgoff r) with
         | (Some _, h) => Ret h
         | (None, h) => memcpy moved_to (r_haddr r) old_size h
         end);
  let w := set_memory_of a h w in
  let fixed := has flags LINUX_MREMAP_FIXED && negb (dst =? old_addr) in
  if fixed && (dst <? u64 (r_gaddr r + r_size r)) && (r_gaddr r <? u64 (dst + new_size))
  then Ret (u64 (- EINVAL), w)
  else
    w ← (if fixed then '(_, w) ← do_munmap dst new_size w; Ret w else Ret w);
    w ← (if old_size <? r_size (reg (w_mm w) id)
         then split w id (u64 (r_gaddr (reg (w_mm w) id) + old_size)) else Ret w);
    let r := reg (w_mm w) id in
    w ← unlink id w;
    mach ← vmm_munmap (r_gaddr r) (r_size r) (w_m w);
    let w := set_machine mach w in
    let w := if r_arena_off r <? 0
             then set_host (h_munmap (w_host w) (r_haddr r) (r_size r)) w else w in
    '(nid, m) ← record_region moved_to dst new_size (r_prot r) (r_flags r) (r_fd r) (r_pgoff r) (w_mm w);
    let m := upd nid (set_shm_id (r_shm_id r)) m in
    let m := upd nid (set_memory moved_to moved_off false) m in
    let m := upd nid (set_owns_fd (r_owns_fd r)) m in
    let w := set_mm m w in
    mach ← vmm_mmap dst new_size (r_prot r) moved_to (w_m w);
    let w := set_machine mach w in
    Ret (dst, set_mm (free id (w_mm w)) w).

Definition sys_mremap (old_addr old_size new_size flags new_addr : Z) w : outcome (Z * world H V B) :=
  if has flags (Z.lnot (Z.lor LINUX_MREMAP_FIXED LINUX_MREMAP_MAYMOVE)) then Ret (u64 (- EINVAL), w)
  else if has flags LINUX_MREMAP_FIXED && negb (has flags LINUX_MREMAP_MAYMOVE) then Ret (u64 (- EINVAL), w)
  else if negb (is_page_aligned old_addr) then Ret (u64 (- EINVAL), w)
  else if negb (has flags LINUX_MREMAP_MAYMOVE) then Ret (u64 (- EINVAL), w)
  else if new_size =? 0 then Ret (u64 (- EINVAL), w)
  else
    let old_size := roundup old_size PAGE_4KB in
    let new_size := roundup new_size PAGE_4KB in
    if range_is_sealed old_addr old_size (w_mm w) ||
       (has flags LINUX_MREMAP_FIXED && range_is_sealed new_addr new_size (w_mm w))
    then Ret (u64 (- EPERM), w)
    else
      match find_region old_addr (w_mm w) with
      | None => Ret (u64 (- EFAULT), w)
      | Some id =>
          let r := reg (w_mm w) id in
          if negb (r_gaddr r =? old_addr) then Ret (u64 (- EFAULT), w)
          else if r_size r <? old_size then Ret (u64 (- EFAULT), w)
          else if negb (has flags LINUX_MREMAP_FIXED) && (new_size <=? old_size) then
            w ← mremap_shrink id new_size w;
            Ret (old_addr, w)
          else
            '(grown, w) ← mremap_grow id old_size new_size flags w;
            match grown with
            | Some ret => Ret (ret, w)
            | None =>
                let '(dst, m) := if has flags LINUX_MREMAP_FIXED then (new_addr, w_mm w)
                                 else alloc_region new_size (w_mm w) in
                mremap_move id old_addr old_size new_size flags dst (set_mm m w)
            end
      end.

(** ** brk *)

Definition sys_brk (brk : Z) w : outcome (Z * world H V B) :=
  let m := w_mm w in
  let cur := mm_current_brk m in
  if brk <? mm_start_brk m then Ret (cur, w)
  else if brk <? cur then
    let unmap_from := roundup brk GUEST_MMAP_GRANULE in
    let unmap_to := roundup cur GUEST_MMAP_GRANULE in
    w ← (if unmap_from <? unmap_to
         then '(_, w) ← do_munmap unmap_from (unmap_to - unmap_from) w; Ret w else Ret w);
    Ret (brk, set_mm (with_brk brk (w_mm w)) w)
  else if cur <? brk then
    let map_start := roundup cur GUEST_MMAP_GRANULE in
    let map_end := roundup brk GUEST_MMAP_GRANULE in
    if map_start <? map_end then
      let map_start :=
        match find_region (u64 (cur - 1)) m with
        | Some id =>
            let e := u64 (r_gaddr (reg m id) + r_size (reg m id)) in
            if map_start <? e then e else map_start
        | None => map_start
        end in
      found ← (if map_start <? map_end then find_region_range map_start (map_end - map_start) m
               else Ret None);
      match found with
      | Some _ => Ret (cur, w)
      | None =>
          w ← (if map_start <? map_end then
                 '(_, w) ← do_mmap map_start (map_end - map_start)
                   (Z.lor LINUX_PROT_READ LINUX_PROT_WRITE)
                   (Z.lor LINUX_MAP_PRIVATE (Z.lor LINUX_MAP_FIXED LINUX_MAP_ANONYMOUS)) (-1) 0 w;
                 Ret w
               else Ret w);
          Ret (brk, set_mm (with_brk brk (w_mm w)) w)
      end
    else Ret (brk, set_mm (with_brk brk m) w)
  else Ret (cur, w).

(** ** madvise, mlock, msync, mincore *)

(** A walk over [p, end_) by regions, each piece given to [f] until one fails. *)
Fixpoint walk_range (fuel : nat) (f : mm_region → Z → Z → H → Z * H) (p end_ : Z) (m : mm) (h : H)
  : outcome (Z * H) :=
  if p <? end_ then
    match fuel with
    | O => Stop OutOfFuel
    | S fuel =>
        match find_region p m with
        | None => Ret (- ENOMEM, h)
        | Some id =>
            let r := reg m id in
            let rend := u64 (r_gaddr r + r_size r) in
            let stop := if rend <? end_ then rend else end_ in
            let '(ret, h) := f r p stop h in
            if ret <? 0 then Ret (ret, h) else walk_range fuel f stop end_ m h
        end
    end
  else Ret (0, h).

Definition zero_pages (r : mm_region) (p stop : Z) (h : H) : Z * H :=
  if negb (r_reserved r) && has (r_flags r) LINUX_MAP_ANONYMOUS && has (r_flags r) LINUX_MAP_PRIVATE
  then (0, h_store h (r_haddr r + (p - r_gaddr r)) (replicate (Z.to_nat (stop - p)) 0))
  else (0, h).

Definition sys_madvise (addr length_ advice : Z) w : outcome (Z * world H V B) :=
  if negb (is_page_aligned addr) then Ret (- EINVAL, w)
  else if length_ =? 0 then Ret (0, w)
  else
    let end_ := u64 (addr + roundup length_ PAGE_4KB) in
    if end_ <? addr then Ret (- EINVAL, w)
    else if negb (advice =? LINUX_MADV_DONTNEED) then Ret (0, w)
    else
      '(ret, h) ← walk_range (S (length (mm_list (w_mm w)))) zero_pages addr end_ (w_mm w) (w_host w);
      Ret (ret, set_host h w).

Definition lock_piece (lock : bool) (r : mm_region) (p stop : Z) (h : H) : Z * H :=
  let haddr := r_haddr r + (p - r_gaddr r) in
  let res := if lock then h_mlock h haddr (stop - p) else h_munlock h haddr (stop - p) in
  (syswrap res, res.2).

Definition mlock_range (addr length_ : Z) (lock : bool) w : outcome (Z * world H V B) :=
  if length_ =? 0 then Ret (0, w)
  else
    let end_ := u64 (addr + length_) in
    if end_ <? addr then Ret (- ENOMEM, w)
    else
      let addr := Z.land addr (Z.lnot (PAGE_4KB - 1)) in
      let end_ := roundup end_ PAGE_4KB in
      '(ret, h) ← walk_range (S (length (mm_list (w_mm w)))) (lock_piece lock) addr end_ (w_mm w) (w_host w);
      Ret (ret, set_host h w).

Definition sys_mlock (addr length_ : Z) w : outcome (Z * world H V B) := mlock_range addr length_ true w.
Definition sys_munlock (addr length_ : Z) w : outcome (Z * world H V B) := mlock_range addr length_ false w.

Definition LINUX_MLOCK_ONFAULT : Z := 1.
Definition LINUX_MCL_CURRENT : Z := 1.
Definition LINUX_MCL_FUTURE : Z := 2.
Definition LINUX_MCL_ONFAULT : Z := 4.

Definition sys_mlock2 (addr length_ flags : Z) w : outcome (Z * world H V B) :=
  if has flags (Z.lnot LINUX_MLOCK_ONFAULT) then Ret (- EINVAL, w)
  else if has flags LINUX_MLOCK_ONFAULT then Ret (- EINVAL, w)
  else mlock_range addr length_ true w.

Fixpoint lock_all (l : list Z) (m : mm) (h : H) : Z * H :=
  match l with
  | [] => (0, h)
  | id :: l =>
      let res := h_mlock h (r_haddr (reg m id)) (r_size (reg m id)) in
      if (res.1 : bool) then lock_all l m res.2 else (syswrap res, res.2)
  end.

Definition sys_mlockall (flags : Z) w : Z * world H V B :=
  if has flags (Z.lnot (Z.lor LINUX_MCL_CURRENT (Z.lor LINUX_MCL_FUTURE LINUX_MCL_ONFAULT)))
  then (- EINVAL, w)
  else if flags =? 0 then (- EINVAL, w)
  else if has flags (Z.lor LINUX_MCL_FUTURE LINUX_MCL_ONFAULT) then (- EINVAL, w)
  else let '(ret, h) := lock_all (mm_list (w_mm w)) (w_mm w) (w_host w) in (ret, set_host h w).

Fixpoint unlock_all (l : list Z) (m : mm) (ret : Z) (h : H) : Z * H :=
  match l with
  | [] => (ret, h)
  | id :: l =>
      let res := h_munlock h (r_haddr (reg m id)) (r_size (reg m id)) in
      unlock_all l m (if negb (res.1 : bool) && (ret =? 0) then syswrap res else ret) res.2
  end.

Definition sys_munlockall w : Z * world H V B :=
  let '(ret, h) := unlock_all (mm_list (w_mm w)) (w_mm w) 0 (w_host w) in (ret, set_host h w).

Definition LINUX_MS_ASYNC : Z := 1.
Definition LINUX_MS_SYNC : Z := 2.
Definition LINUX_MS_INVALIDATE : Z := 4.

(** The host's own numbers (macOS <sys/mman.h>). *)
Definition MS_ASYNC : Z := 1.
Definition MS_INVALIDATE : Z := 2.
Definition MS_SYNC : Z := 16.

(** [x & ~(HOST_BLOCK_GRANULE - 1)], and the same rounded up. *)
Definition block_down (x : Z) : Z := Z.land x (Z.lnot (HOST_BLOCK_GRANULE - 1)).
Definition block_up (x : Z) : Z := block_down (u64 (x + HOST_BLOCK_GRANULE - 1)).

Definition sys_msync (addr len flags : Z) w : Z * world H V B :=
  match find_region addr (w_mm w) with
  | None => (- ENOMEM, w)
  | Some id =>
      let r := reg (w_mm w) id in
      let off := u64 (addr - r_gaddr r) in
      if (r_size r <? off) || (r_size r - off <? len) then (- ENOMEM, w)
      else if has flags (Z.lnot (Z.lor LINUX_MS_ASYNC (Z.lor LINUX_MS_SYNC LINUX_MS_INVALIDATE)))
      then (- EINVAL, w)
      else
        let dflags := Z.lor (if has flags LINUX_MS_ASYNC then MS_ASYNC else 0)
                        (Z.lor (if has flags LINUX_MS_SYNC then MS_SYNC else 0)
                               (if has flags LINUX_MS_INVALIDATE then MS_INVALIDATE else 0)) in
        let start := u64 (r_haddr r + off) in
        let lo := block_down start in
        let cap := block_up (r_haddr r + r_size r) in
        let hi := block_up (start + len) in
        let hi := if cap <? hi then cap else hi in
        if hi <=? lo then (0, w)
        else let res := h_msync (w_host w) lo (hi - lo) dflags in (syswrap res, set_host res.2 w)
  end.

(** The bytes [tmp] of one region: zeros with the host's answer over them. *)
Definition residency (n : Z) (vec : list Z) : list Z :=
  (λ b, if has b 1 then 1 else 0) <$>
  take (Z.to_nat n) (vec ++ replicate (Z.to_nat n) 0).

Fixpoint mincore_loop (fuel : nat) (addr npages done : Z) (m : mm) (h : H) : outcome (Z * list Z * H) :=
  if done <? npages then
    match fuel with
    | O => Stop OutOfFuel
    | S fuel =>
        let p := u64 (addr + done * PAGE_4KB) in
        match find_region p m with
        | None => Ret (- ENOMEM, [], h)
        | Some id =>
            let r := reg m id in
            let n := u64 (u64 (r_gaddr r + r_size r) - p) / PAGE_4KB in
            let n := if npages - done <? n then npages - done else n in
            match h_mincore h (r_haddr r + (p - r_gaddr r)) (n * PAGE_4KB) with
            | (None, h) => Ret (syswrap (false, h), [], h)
            | (Some vec, h) =>
                '(ret, out, h) ← mincore_loop fuel addr npages (done + n) m h;
                Ret (ret, residency n vec ++ out, h)
            end
        end
    end
  else Ret (0, [], h).

Definition sys_mincore (addr length_ vec_ptr : Z) w : outcome (Z * world H V B) :=
  if negb (Z.land addr (PAGE_4KB - 1) =? 0) then Ret (- EINVAL, w)
  else if length_ =? 0 then Ret (0, w)
  else if u64 (addr + length_) <? addr then Ret (- ENOMEM, w)
  else
    let npages := u64 (length_ + PAGE_4KB - 1) / PAGE_4KB in
    '(ret, out, h) ← mincore_loop (S (length (mm_list (w_mm w)))) addr npages 0 (w_mm w) (w_host w);
    if ret =? 0 then
      '(missing, h) ← copy_to_user (w_mm w) (w_vkern w) vec_ptr out npages h;
      Ret (if missing =? 0 then 0 else - EFAULT, set_host h w)
    else Ret (ret, set_host h w).

(** * The whole map *)

Definition destroy_mm w : outcome (world H V B) :=
  let m := w_mm w in
  w ← for_each (λ id w, mach ← vmm_munmap (r_gaddr (reg m id)) (r_size (reg m id)) (w_m w);
                        Ret (set_machine mach w)) (mm_list m) w;
  w ← for_each (λ id w,
         let r := reg (w_mm w) id in
         let w := set_host (h_munmap (w_host w) (r_haddr r) (r_size r)) w in
         w ← (if 0 <=? r_arena_off r then
                '(a, h) ← arena_free (r_arena_off r) (r_size r) (m_arena (w_m w)) (w_host w);
                Ret (set_memory_of a h w)
              else Ret w);
         let w := close_owned r w in
         Ret (set_mm (free id (w_mm w)) w)) (mm_list m) w;
  Ret (set_mm (with_places Leaf [] (w_mm w)) w).

Definition kmap (ptr size flags : Z) w : outcome (Z * world H V B) :=
  assert_c (Z.land size 0xfff =? 0);;
  assert_c (Z.land ptr 0xfff =? 0);;
  '(_, vk) ← record_region ptr (w_kern_brk w) size (hv_mflag_to_linux_mprot flags) (-1) (-1) 0 (w_vkern w);
  mach ← vmm_mmap (w_kern_brk w) size flags ptr (w_m w);
  Ret (w_kern_brk w, mk_world mach (w_mm w) vk (u64 (w_kern_brk w + size)) (w_binder w)).
End Mmap.
