(* ===== verification/Coherence.v ===== *)
(** The three accounts of the guest's memory - the region map, the two
    translation stages and the host's own mappings - kept in agreement by the
    calls of src/mm/mmap.c. *)

From S2P Require Import Prelude Errno Host Arena Stage2 PageTable Translation RbTree Regions UserCopy Mmap.

(** * Agreement of a map and a machine *)

Section Coherence.
Context {H V : Type} `{HL : HostLaws H, HV : HvLaws V}.
Implicit Type m : machine H V.
Implicit Type f : Z → option view.

(** The hardware takes [va] where the map says. *)
Definition agrees f m (va : Z) : Prop :=
  match f va with
  | Some v => if v_reserved v then xlate m va = None
              else maps_to m va (v_host v) (linux_mprot_to_hv_mflag (v_prot v))
  | None => xlate m va = None
  end.

(** The host page [h] is there, whole, with the granule it is in; it is the
    arena's page at [o], or none of the arena's when [o] is negative. *)
Record held m (h o : Z) : Prop := {
  he_page : page_aligned h;
  he_gran : h_back (m_host m) (granule_of h) ≠ None;
  he_back d : 0 ≤ d < PAGE → h_back (m_host m) (h + d) ≠ None;
  he_arena d : 0 ≤ d < PAGE →
    if o <? 0 then backed_by (arena_backing_fd (m_arena m)) (h_back (m_host m) (h + d)) = false
    else ∃ q, maps (arena_spans (m_arena m)) (o + d) (h + d) q;
}.

(** [f] is the map's view: what it shows is below the kernel's part of the
    address space, the hardware agrees with it there, its memory is held and
    is nobody else's, and no block of stage 2 is kept without use. *)
Record coherent f m : Prop := {
  co_ok : machine_ok m;
  co_low va v : user_va va → f va = Some v → 0 < va < user_addr_max;
  co_agree va : user_va va → va < user_addr_max → agrees f m va;
  co_kernel va vb : user_va va → user_va vb → va < user_addr_max ≤ vb →
    pte_valid (pte (m_pt m) va) = true → pte_valid (pte (m_pt m) vb) = true →
    granule_of (pte_ipa (pte (m_pt m) va)) ≠ granule_of (pte_ipa (pte (m_pt m) vb));
  co_used b e : s2_map (m_s2 m) !! b = Some e → chunk_index (m_pt m) !! b = None →
    users (m_pt m) b ≠ 0%nat;
  co_mem va v : user_va va → f va = Some v → v_reserved v = false → held m (v_host v) (v_off v);
  co_linear va vb v v' : user_va va → user_va vb → f va = Some v → f vb = Some v' →
    v_reserved v = false → v_reserved v' = false →
    granule_of (v_host v) = granule_of (v_host v') → va - v_host v = vb - v_host v';
  co_chunk i h va v : chunk_index (m_pt m) !! i = Some h → user_va va → f va = Some v →
    v_reserved v = false → granule_of (v_host v) ≠ h;
}.

Lemma agrees_ext f g m va : f va = g va → agrees f m va → agrees g m va.
Proof. unfold agrees. by intros ->. Qed.

Lemma coherent_ext f g m : (∀ va, user_va va → g va = f va) → coherent f m → coherent g m.
Proof.
  intros E [C1 C2 C3 C4 C5 C6 C7 C8]. split; auto.
  - intros va v Hva. rewrite E by done. by apply C2.
  - intros va Hva Hl. apply (agrees_ext f); [by rewrite E|auto].
  - intros va v Hva. rewrite E by done. by apply C6.
  - intros va vb v v' Hva Hvb. rewrite !E by done. by apply C7.
  - intros i h va v Hi Hva. rewrite E by done. by apply (C8 i).
Qed.

(** ** Descriptors of the guest's pages *)

Lemma xlate_valid m va : machine_ok m → user_va va → pte_valid (pte (m_pt m) va) = true →
  ∃ e, s2_map (m_s2 m) !! granule_of (pte_ipa (pte (m_pt m) va)) = Some e ∧ gran (s2_haddr e) ∧
    xlate m va = Some (s2_haddr e + granule_off (pte_ipa (pte (m_pt m) va)), pte_to_prot (pte (m_pt m) va), s2_prot e).
Proof.
  intros Hok Hva Hv. destruct (mo_desc _ Hok va Hva Hv) as [e He]. exists e. split; [done|].
  split; [by destruct (so_ents _ (mo_s2 _ (mo_base _ Hok)) _ _ He)|]. unfold xlate. by rewrite Hv, He.
Qed.

Lemma granule_off_range x : 0 ≤ granule_off x < STAGE2_GRANULE.
Proof. rewrite granule_off_mod. by apply Z.mod_pos_bound. Qed.

(** A guest page the hardware translates is one the map shows, and its block
    is the granule of its host page. *)
Lemma guest_page f m va :
  coherent f m → user_va va → va < user_addr_max → pte_valid (pte (m_pt m) va) = true →
  ∃ v e, f va = Some v ∧ v_reserved v = false ∧
    s2_map (m_s2 m) !! granule_of (pte_ipa (pte (m_pt m) va)) = Some e ∧
    s2_haddr e = granule_of (v_host v) ∧
    v_host v = s2_haddr e + granule_off (pte_ipa (pte (m_pt m) va)).
Proof.
  intros Hc Hva Hl Hv. destruct (xlate_valid m va (co_ok _ _ Hc) Hva Hv) as (e & He & Hg & Hx).
  pose proof (co_agree _ _ Hc va Hva Hl) as Ha. unfold agrees in Ha.
  destruct (f va) as [v|]; [|congruence]. exists v, e. destruct (v_reserved v); [congruence|].
  destruct Ha as (q & Hx' & _). rewrite Hx in Hx'. injection Hx' as Hh _ _.
  do 3 (split; [done|]). rewrite <- Hh. split; [|done]. symmetry. apply granule_of_in; [done|apply granule_off_range].
Qed.

(** ... and the converse. *)
Lemma shown_page f m va v :
  coherent f m → user_va va → f va = Some v → v_reserved v = false →
  pte_valid (pte (m_pt m) va) = true ∧
  ∃ e, s2_map (m_s2 m) !! granule_of (pte_ipa (pte (m_pt m) va)) = Some e ∧ s2_haddr e = granule_of (v_host v).
Proof.
  intros Hc Hva Hf Hr. pose proof (proj2 (co_low _ _ Hc va v Hva Hf)) as Hl.
  pose proof (co_agree _ _ Hc va Hva Hl) as Ha. unfold agrees in Ha. rewrite Hf, Hr in Ha.
  destruct Ha as (q & Hx & _). assert (pte_valid (pte (m_pt m) va) = true) as Hv.
  { unfold xlate in Hx. by destruct (pte_valid _). }
  split; [done|]. destruct (guest_page f m va Hc Hva Hl Hv) as (v' & e & Hf' & _ & He & Hh & _).
  rewrite Hf in Hf'. injection Hf' as <-. by exists e.
Qed.

Lemma same_block m b b' e e' :
  s2_ok (m_s2 m) → s2_map (m_s2 m) !! b = Some e → s2_map (m_s2 m) !! b' = Some e' →
  s2_haddr e = s2_haddr e' → b = b'.
Proof. intros Hs He%(so_fwd _ Hs) He'%(so_fwd _ Hs) E. congruence. Qed.

Lemma guest_not_chunk f m va :
  coherent f m → user_va va → va < user_addr_max → pte_valid (pte (m_pt m) va) = true →
  chunk_index (m_pt m) !! granule_of (pte_ipa (pte (m_pt m) va)) = None.
Proof.
  intros Hc Hva Hl Hv. destruct (guest_page f m va Hc Hva Hl Hv) as (v & e & Hf & Hr & He & Hh & _).
  destruct (chunk_index (m_pt m) !! _) as [h|] eqn:Ei; [|done]. exfalso.
  apply (co_chunk _ _ Hc _ _ _ _ Ei Hva Hf Hr).
  pose proof (mo_base _ (co_ok _ _ Hc)) as Hb. destruct (ch_index _ (mo_chunks _ Hb) _ _ Ei) as (c & Hcin & Hi & <-).
  pose proof (mo_chunk_s2 _ Hb c Hcin) as Hs. rewrite Hi, He in Hs. injection Hs as Hs. congruence.
Qed.

(** ** Changes of the host that the arena does not notice *)

(** Nothing mapped has changed, and the file [fd] is as it was. *)
Record quiet (fd : Z) (h h' : H) : Prop := {
  qu_back a : h_back h' a = h_back h a;
  qu_mem a : h_back h a ≠ None → h_mem h' a = h_mem h a;
  qu_open : h_open h fd = true → h_open h' fd = true;
  qu_size : h_open h fd = true → h_fsize h' fd = h_fsize h fd;
  qu_file o : h_open h fd = true → h_file h' fd o = h_file h fd o;
}.

Lemma quiet_more fd h h' : host_more h h' → quiet fd h h'.
Proof. intros (Ha & Hb & Hc). split; auto; intros; by apply Hc. Qed.

Lemma quiet_close fd d h : d ≠ fd → quiet fd h (h_close h d).
Proof.
  intros Hne. destruct (close_law h d) as (Ha & Hb & Hf & Ho & Hs). split; auto.
  rewrite Ho. by rewrite (proj2 (Z.eqb_neq fd d)).
Qed.

Lemma arena_wf_quiet a h h' : arena_wf a h → quiet (arena_backing_fd a) h h' → arena_wf a h'.
Proof.
  intros [] []. split; auto.
  - by rewrite qu_size0.
  - intros o Ho. rewrite qu_file0; auto.
  - eapply spans_ok_back; [|done]. auto.
Qed.

Definition with_mem (a : arena) (h : H) m : machine H V := mk_machine (m_pt m) (m_s2 m) a h.

Lemma machine_ok_mem a h m :
  machine_ok m → arena_wf a h →
  (∀ i e, s2_map (m_s2 m) !! i = Some e → h_back h (s2_haddr e) ≠ None) → machine_ok (with_mem a h m).
Proof. intros [[B1 B2 B3 B4 B5 B6 B7 B8] Ht Hd Hr] Ha Hb. split; [split|..]; auto. Qed.

(** Other memory, as long as what the map shows and what stage 2 uses is in it. *)
Lemma coherent_mem f a h m :
  coherent f m → arena_wf a h →
  (∀ i e, s2_map (m_s2 m) !! i = Some e → h_back h (s2_haddr e) ≠ None) →
  (∀ va v, user_va va → f va = Some v → v_reserved v = false → held (with_mem a h m) (v_host v) (v_off v)) →
  coherent f (with_mem a h m).
Proof. intros [C1 C2 C3 C4 C5 C6 C7 C8] Ha Hb Hh. split; auto. by apply machine_ok_mem. Qed.

Lemma coherent_quiet f h m :
  coherent f m → quiet (arena_backing_fd (m_arena m)) (m_host m) h → coherent f (with_mem (m_arena m) h m).
Proof.
  intros Hc Hq. pose proof (mo_base _ (co_ok _ _ Hc)) as Hb. apply coherent_mem; [done| | |].
  - eapply arena_wf_quiet; [apply Hb|done].
  - intros i e Hi. rewrite (qu_back _ _ _ Hq). by apply (mo_backed _ Hb i).
  - intros va v Hva Hf Hr. destruct (co_mem _ _ Hc va v Hva Hf Hr) as [M1 M2 M3 M4].
    split; cbn [m_host with_mem m_arena]; auto; [rewrite (qu_back _ _ _ Hq); auto|..];
      intros d Hd; rewrite (qu_back _ _ _ Hq); auto. by apply M4.
Qed.

(** ** Taking a region out *)

(** [f] shows the region [r]. *)
Record shows f (r : mm_region) : Prop := {
  sh_ok : region_ok r;
  sh_low : r_end r ≤ user_addr_max;
  sh_view va : user_va va → contains r va = true → f va = Some (view_at r va);
}.

Definition without (r : mm_region) f (a : Z) : option view := if contains r a then None else f a.

Lemma contains_range r a : contains r a = true ↔ in_range (r_gaddr r) (r_size r) a.
Proof. unfold contains, in_range, r_end. rewrite andb_true_iff, Z.leb_le, Z.ltb_lt. done. Qed.

Lemma shows_range f r : shows f r → user_range (r_gaddr r) (r_size r).
Proof.
  intros [[[Hg ?] [Hs ?] _] Hl _]. unfold r_end, user_addr_max in *.
  split; [exact Hg|]. split; [exact Hs|]. lia.
Qed.

Lemma shown_low f r va : shows f r → contains r va = true → 0 < va < user_addr_max.
Proof.
  intros [[[_ ?] _ _] Hl _] Hc%contains_range. unfold in_range, r_end in *. lia.
Qed.

Lemma without_some r f va v : without r f va = Some v → contains r va = false ∧ f va = Some v.
Proof. unfold without. by destruct (contains r va). Qed.

(** The two stages forget the region. *)
Lemma unmapped_coherent f m r :
  coherent f m → shows f r →
  match vmm_munmap (r_gaddr r) (r_size r) m with
  | Ret m' => coherent (without r f) m' ∧
      unmapping m (reverse (Z.add (r_gaddr r) <$> counter PAGE (r_size r))) [] m'
  | Stop _ => False
  end.
Proof.
  intros Hc Hs. pose proof (shows_range f r Hs) as Hu.
  pose proof (vmm_munmap_spec _ _ m (co_ok _ _ Hc) Hu) as Hm. ospecialize (Hm _).
  { intros va Hva Hr. apply (guest_not_chunk f m va Hc Hva). apply contains_range in Hr.
    by apply (shown_low f r). }
  destruct (vmm_munmap _ _ m) as [m'|w]; [|done]. split; [|done].
  pose proof (λ va Hva, elem_of_range _ _ va Hu Hva) as Hin.
  pose proof (λ va, unmapping_xlate _ _ _ va Hm) as Hx.
  destruct Hm as [U1 U2 U3 U4 _ U5 U5' _ _ U8 U9 U10].
  assert (∀ va, user_va va → pte_valid (pte (m_pt m') va) = true →
    contains r va = false ∧ pte (m_pt m') va = pte (m_pt m) va) as Hold.
  { intros va Hva Hv. destruct (contains r va) eqn:E.
    - apply contains_range, Hin in E; [|done]. rewrite U5' in Hv by done. done.
    - split; [done|]. apply U5; [done|]. rewrite Hin, <- contains_range by done. congruence. }
  destruct Hc as [C1 C2 C3 C4 C5 C6 C7 C8].
  split; [done|..].
  - intros va v Hva [_ Hf]%without_some. by apply (C2 va v).
  - intros va Hva Hl. unfold agrees, without. specialize (Hx va Hva). destruct (contains r va) eqn:E.
    + rewrite decide_True in Hx; [done|]. by apply Hin, contains_range.
    + rewrite decide_False in Hx; [|rewrite Hin, <- contains_range by done; congruence].
      specialize (C3 va Hva Hl). unfold agrees, maps_to in *. by rewrite Hx.
  - intros va vb Hva Hvb Hl Hv Hw. destruct (Hold va Hva Hv) as [_ E], (Hold vb Hvb Hw) as [_ E'].
    rewrite E in *. rewrite E' in *. by apply C4.
  - intros b e He Hn Hz. rewrite U4 in Hn. destruct (U8 b e He) as (e0 & He0 & _).
    destruct (U10 b Hn Hz (C5 b e0 He0 Hn)) as [?|?%elem_of_nil]; congruence.
  - intros va v Hva [_ Hf]%without_some Hr. destruct (C6 va v Hva Hf Hr). split; rewrite ?U2, ?U3; auto.
  - intros va vb v v' Hva Hvb [_ Hf]%without_some [_ Hf']%without_some. by apply C7.
  - intros i h va v. rewrite U4. intros Hi Hva [_ Hf]%without_some. by apply (C8 i h va v).
Qed.

(** The region's pages, by their host address. *)
Lemma region_page f m r x :
  coherent f m → shows f r → r_reserved r = false → r_haddr r ≤ x < r_haddr r + r_size r →
  ∃ va, user_va va ∧ contains r va = true ∧ v_host (view_at r va) ≤ x < v_host (view_at r va) + PAGE ∧
    page_aligned (v_host (view_at r va)).
Proof.
  intros Hc Hs Hr Hx. destruct (sh_ok _ _ Hs) as [[Hg Hg0] [Hsz Hs0] He].
  pose proof (sh_low _ _ Hs) as Hl. unfold user_addr_max, r_end in Hl.
  assert (user_va (r_gaddr r)) as Hu0.
  { split; [exact Hg|]. lia. }
  assert (contains r (r_gaddr r) = true) as Hc0 by (apply contains_range; unfold in_range; lia).
  pose proof (he_page _ _ _ (co_mem _ _ Hc _ _ Hu0 (sh_view _ _ Hs _ Hu0 Hc0) Hr)) as Hp.
  cbn [view_at v_host] in Hp. rewrite Z.sub_diag, Z.add_0_r in Hp.
  exists (r_gaddr r + (x - r_haddr r) / PAGE * PAGE). cbn [view_at v_host].
  unfold user_va, page_aligned, paged in *. change PAGE with 4096 in *. change PAGE_4KB with 4096 in *.
  split; [split; [lia_mod|lia_mod]|]. split; [apply contains_range; unfold in_range; lia_mod|].
  split; lia_mod.
Qed.

(** A page whose host page is the region's is the region's. *)
Lemma other_page f m r va v d :
  coherent f m → shows f r → r_reserved r = false →
  user_va va → f va = Some v → v_reserved v = false → contains r va = false →
  0 ≤ d < PAGE → ¬ r_haddr r ≤ v_host v + d < r_haddr r + r_size r.
Proof.
  intros Hc Hs Hr Hva Hf Hv Hn Hd Hx.
  destruct (region_page f m r _ Hc Hs Hr Hx) as (vb & Hvb & Hcb & Hxb & Hpb).
  pose proof (he_page _ _ _ (co_mem _ _ Hc va v Hva Hf Hv)) as Hpv.
  assert (v_host v = v_host (view_at r vb)) as E.
  { unfold page_aligned in *. change PAGE with 4096 in *. lia_mod. }
  pose proof (co_linear _ _ Hc va vb v _ Hva Hvb Hf (sh_view _ _ Hs vb Hvb Hcb) Hv Hr ltac:(by rewrite E)) as Hl.
  rewrite E in Hl. assert (va = vb) as -> by lia. congruence.
Qed.

(** A region that owns its granules. *)
Definition whole (r : mm_region) : Prop := gran (r_haddr r) ∧ gran (r_size r).

Lemma whole_granule r x : whole r →
  r_haddr r ≤ granule_of x < r_haddr r + r_size r ↔ r_haddr r ≤ x < r_haddr r + r_size r.
Proof.
  intros [Hh Hs]. destruct (granule_of_spec x) as [Hg Hx]. unfold gran in *.
  change STAGE2_GRANULE with 16384 in *. split; intros ?; lia_mod.
Qed.

(** Once a whole region is unmapped, no block of stage 2 is in its memory. *)
Lemma released_blocks f m r m1 b e :
  coherent f m → shows f r → r_reserved r = false → whole r →
  unmapping m (reverse (Z.add (r_gaddr r) <$> counter PAGE (r_size r))) [] m1 → coherent (without r f) m1 →
  s2_map (m_s2 m1) !! b = Some e → ¬ r_haddr r ≤ s2_haddr e < r_haddr r + r_size r.
Proof.
  intros Hc Hs Hr Hw Hu Hc1 He Hx. pose proof (mo_base _ (co_ok _ _ Hc1)) as Hb1.
  destruct (so_ents _ (mo_s2 _ Hb1) _ _ He) as [_ Hg _ _].
  destruct (region_page f m r _ Hc Hs Hr Hx) as (va & Hva & Hcva & Hxa & Hpa).
  pose proof (sh_view _ _ Hs va Hva Hcva) as Hfa.
  assert (granule_of (v_host (view_at r va)) = s2_haddr e) as Hgr.
  { destruct (granule_of_spec (v_host (view_at r va))) as [? ?]. unfold gran, page_aligned in *.
    change STAGE2_GRANULE with 16384 in *. change PAGE with 4096 in *. lia_mod. }
  destruct (chunk_index (m_pt m1) !! b) as [h|] eqn:Ei.
  { destruct (ch_index _ (mo_chunks _ Hb1) _ _ Ei) as (c & Hcin & Hi & Hh).
    pose proof (mo_chunk_s2 _ Hb1 c Hcin) as Hcs. rewrite Hi, He in Hcs. injection Hcs as Hcs.
    rewrite (um_index _ _ _ _ Hu) in Ei. apply (co_chunk _ _ Hc b h va _ Ei Hva Hfa Hr). congruence. }
  pose proof (co_used _ _ Hc1 b e He Ei) as Hus. apply count_pos in Hus as (vb & Hvb%elem_of_all_vas & Hpt).
  apply points_true in Hpt as [Hv Hgb].
  assert (vb ∉ reverse (Z.add (r_gaddr r) <$> counter PAGE (r_size r))) as Hnin.
  { intros Hin. by rewrite (um_cleared _ _ _ _ Hu vb Hvb Hin) in Hv. }
  pose proof (um_pte _ _ _ _ Hu vb Hvb Hnin) as Ep. rewrite (elem_of_range _ _ vb (shows_range f r Hs) Hvb) in Hnin.
  rewrite <- contains_range in Hnin. apply not_true_iff_false in Hnin.
  destruct (um_keep _ _ _ _ Hu b e He) as (e0 & He0 & Hh0 & _).
  destruct (decide (vb < user_addr_max)) as [Hl|Hl].
  - rewrite Ep in Hv, Hgb. destruct (guest_page f m vb Hc Hvb Hl Hv) as (v & e1 & Hf & Hrv & He1 & Hh1 & _).
    rewrite Hgb in He1. rewrite He0 in He1. injection He1 as <-.
    eapply (other_page f m r vb v 0); try done. rewrite Z.add_0_r.
    apply (whole_granule r); [done|]. rewrite <- Hh1, <- Hh0. done.
  - destruct (shown_page f m va _ Hc Hva Hfa Hr) as (Hva' & e2 & He2 & Hh2).
    rewrite Ep in Hv, Hgb.
    apply (co_kernel _ _ Hc va vb Hva Hvb); [split; [by apply (shown_low f r)|lia]|done..|].
    rewrite Hgb. eapply (same_block m); [apply (mo_base _ (co_ok _ _ Hc))|done..|]. congruence.
Qed.

Lemma arena_wf_munmap a h p n :
  arena_wf a h → p mod HOST_PAGE = 0 → 0 < n → n mod HOST_PAGE = 0 →
  (∀ x, p ≤ x < p + n → backed_by (arena_backing_fd a) (h_back h x) = false) → arena_wf a (h_munmap h p n).
Proof.
  intros Hwf Hp Hn Hnm Hx. destruct (munmap_law h p n Hp Hn Hnm) as (Hb & Hm & Hf & Ho & Hs). destruct Hwf as [W1 W2 W3 W4 W5 W6 W7 W8 W9 W10 W11 W12].
  split; auto; rewrite ?Ho, ?Hs; auto.
  - intros o Hbo. rewrite Hf. auto.
  - eapply Forall_impl; [exact W9|]. intros s (? & ? & ? & ? & ? & Hd). unfold span_ok. do 5 (split; [done|]).
    intros d Hdd. rewrite Hb. destruct (Host.in_range p n (sp_addr s + d)) eqn:E; [|auto].
    unfold Host.in_range in E. bool_to_prop. specialize (Hx (sp_addr s + d) ltac:(lia)).
    rewrite (Hd d Hdd) in Hx. cbn in Hx. by rewrite Z.eqb_refl in Hx.
Qed.

Lemma maps_gran a h o x q : arena_wf a h → maps (arena_spans a) o x q → (x - o) mod STAGE2_GRANULE = 0.
Proof.
  intros Hwf (s & Hs & _ & -> & _). pose proof (wf_spans _ _ Hwf) as Hf. rewrite Forall_forall in Hf.
  destruct (Hf s Hs) as (_ & _ & Ha & _ & Hb & _). unfold aligned, ARENA_GRANULE in *.
  change STAGE2_GRANULE with 16384. lia_mod.
Qed.

(** What a removal leaves of everything else; [f] before and [g] after. A host
    byte is [owned] when a page the map shows is on it. *)
Definition owned f (x : Z) : Prop := ∃ va v, user_va va ∧ f va = Some v ∧ v_reserved v = false ∧
  v_host v ≤ x < v_host v + PAGE.

Record shrunk f g m m' : Prop := {
  sk_sub va v : user_va va → g va = Some v → f va = Some v;
  sk_s2 b e : s2_map (m_s2 m') !! b = Some e → ∃ e0, s2_map (m_s2 m) !! b = Some e0 ∧ s2_haddr e = s2_haddr e0;
  sk_index : chunk_index (m_pt m') = chunk_index (m_pt m);
  sk_fd : arena_backing_fd (m_arena m') = arena_backing_fd (m_arena m);
  sk_room k : room k m → room k m';
  sk_back x : ¬ owned f x → h_back (m_host m') x = h_back (m_host m) x;
  sk_maps o x q : ¬ owned f x → maps (arena_spans (m_arena m)) o x q → maps (arena_spans (m_arena m')) o x q;
  sk_mem x : (¬ owned f x ∧ backed_by (arena_backing_fd (m_arena m)) (h_back (m_host m) x) = false ∨
              (∃ o q, ¬ owned f x ∧ maps (arena_spans (m_arena m)) o x q) ∨ owned g x) →
    h_back (m_host m) x ≠ None → h_mem (m_host m') x = h_mem (m_host m) x;
}.

Lemma owned_sub f g x : (∀ va v, user_va va → g va = Some v → f va = Some v) → owned g x → owned f x.
Proof. intros Hs (va & v & Hva & Hg & ?). exists va, v. auto. Qed.

Lemma shrunk_refl f m : shrunk f f m m.
Proof. split; eauto. Qed.

Lemma shrunk_trans f g k m m1 m2 : shrunk f g m m1 → shrunk g k m1 m2 → coherent g m1 → shrunk f k m m2.
Proof.
  intros [] [] Hc. assert (∀ x, ¬ owned f x → ¬ owned g x) as Hno by (intros x Hn Hx; by eapply Hn, owned_sub).
  split; auto.
  - intros b e (e1 & He1 & Hh1)%sk_s4. destruct (sk_s3 b e1 He1) as (e0 & ? & ?). exists e0. split; congruence.
  - congruence.
  - congruence.
  - intros x Hx. rewrite sk_back1, sk_back0 by auto. done.
  - intros x Hx Hb. assert (h_back (m_host m1) x ≠ None ∧ (¬ owned g x ∧ backed_by (arena_backing_fd (m_arena m1)) (h_back (m_host m1) x) = false ∨
      (∃ o q, ¬ owned g x ∧ maps (arena_spans (m_arena m1)) o x q) ∨ owned k x)) as [Hb1 Hor1].
    { destruct Hx as [[Hn Hf]|[(o & q & Hn & Hm)|Hk]].
      - rewrite sk_back0, sk_fd0 by done. auto.
      - rewrite sk_back0 by done. split; [done|]. right. left. exists o, q. auto.
      - split; [|auto]. apply (owned_sub g k) in Hk as (va & v & Hva & Hg & Hr & Hd); [|done].
        replace x with (v_host v + (x - v_host v)) by lia. apply (he_back _ _ _ (co_mem _ _ Hc va v Hva Hg Hr)). lia. }
    rewrite sk_mem1, sk_mem0; auto. destruct Hx as [?|[?|Hk]]; auto. right. right. by apply (owned_sub g k).
Qed.

Lemma unmapped_shrunk f m r m1 :
  unmapping m (reverse (Z.add (r_gaddr r) <$> counter PAGE (r_size r))) [] m1 → shrunk f (without r f) m m1.
Proof.
  intros [U1 U2 U3 U4 U4' _ _ _ _ U8 _ _]. split; rewrite ?U2, ?U3; auto.
  - by intros va v _ [_ ?]%without_some.
  - intros b e (e0 & ? & ? & _)%U8. by exists e0.
Qed.

(** A reservation has nothing behind it. *)
Lemma reserved_coherent f m r : coherent f m → shows f r → r_reserved r = true → coherent (without r f) m.
Proof.
  intros [C1 C2 C3 C4 C5 C6 C7 C8] Hs Hr. split; auto.
  - intros va v Hva [_ ?]%without_some. by apply (C2 va v).
  - intros va Hva Hl. specialize (C3 va Hva Hl). unfold agrees, without in *.
    destruct (contains r va) eqn:E; [|done]. rewrite (sh_view _ _ Hs va Hva E) in C3. cbn [view_at v_reserved] in C3. by rewrite Hr in C3.
  - intros va v Hva [_ ?]%without_some. by apply (C6 va).
  - intros va vb v v' Hva Hvb [_ ?]%without_some [_ ?]%without_some. by apply (C7 va vb).
  - intros i h va v Hi Hva [_ ?]%without_some. by apply (C8 i h va v).
Qed.

(** The memory of an unmapped region goes: the rest of the map keeps its own. *)
Lemma released_coherent f m r m1 a h :
  coherent f m → shows f r → r_reserved r = false → whole r →
  unmapping m (reverse (Z.add (r_gaddr r) <$> counter PAGE (r_size r))) [] m1 → coherent (without r f) m1 →
  arena_wf a h → arena_backing_fd a = arena_backing_fd (m_arena m) →
  (∀ x, h_back h x = if Host.in_range (r_haddr r) (r_size r) x then None else h_back (m_host m) x) →
  (∀ o x q, maps (arena_spans (m_arena m)) o x q → ¬ r_haddr r ≤ x < r_haddr r + r_size r → maps (arena_spans a) o x q) →
  coherent (without r f) (with_mem a h m1).
Proof.
  intros Hc Hs Hr Hw Hu Hc1 Hwf Hfd Hb Hm.
  assert (∀ x, ¬ r_haddr r ≤ x < r_haddr r + r_size r → h_back h x = h_back (m_host m) x) as Hout.
  { intros x Hx. rewrite Hb. unfold Host.in_range. destruct (_ && _) eqn:E; [bool_to_prop; lia|done]. }
  apply coherent_mem; [done|done| |].
  - intros i e He. rewrite Hout by exact (released_blocks f m r m1 i e Hc Hs Hr Hw Hu Hc1 He).
    rewrite <- (um_host _ _ _ _ Hu). by apply (mo_backed _ (mo_base _ (co_ok _ _ Hc1)) i).
  - intros va v Hva [Hn Hf]%without_some Hv.
    assert (∀ d, 0 ≤ d < PAGE → ¬ r_haddr r ≤ v_host v + d < r_haddr r + r_size r) as Hno
      by (intros d Hd; exact (other_page f m r va v d Hc Hs Hr Hva Hf Hv Hn Hd)).
    destruct (co_mem _ _ Hc va v Hva Hf Hv) as [M1 M2 M3 M4]. split; cbn [m_host m_arena with_mem]; [done|..].
    + rewrite Hout; [done|]. rewrite (whole_granule r) by done. rewrite <- (Z.add_0_r (v_host v)). by apply Hno.
    + intros d Hd. rewrite Hout by auto. auto.
    + intros d Hd. specialize (M4 d Hd). rewrite Hout, Hfd by auto.
      destruct (v_off v <? 0); [done|]. destruct M4 as [q Hq]. exists q. apply Hm; auto.
Qed.

(** A byte of the arena, or one that is no business of the arena's. *)
Definition settled m (x : Z) : Prop :=
  backed_by (arena_backing_fd (m_arena m)) (h_back (m_host m) x) = false ∨
  ∃ o q, maps (arena_spans (m_arena m)) o x q.

Lemma held_settled m h o d : held m h o → 0 ≤ d < PAGE → settled m (h + d).
Proof.
  intros Hh Hd. pose proof (he_arena _ _ _ Hh d Hd) as Ha. destruct (o <? 0); [by left|].
  destruct Ha as [q Hq]. right. eauto.
Qed.

Lemma region_owned f m r x :
  coherent f m → shows f r → r_reserved r = false → r_haddr r ≤ x < r_haddr r + r_size r → owned f x.
Proof.
  intros Hc Hs Hr Hx. destruct (region_page f m r x Hc Hs Hr Hx) as (va & Hva & Hcv & Hd & _).
  exists va, (view_at r va). split; [done|]. split; [by apply Hs|]. done.
Qed.

Lemma released_shrunk f m r m1 a h :
  coherent f m → shows f r → r_reserved r = false →
  unmapping m (reverse (Z.add (r_gaddr r) <$> counter PAGE (r_size r))) [] m1 →
  arena_backing_fd a = arena_backing_fd (m_arena m) → arena_brk a = arena_brk (m_arena m) →
  (∀ x, h_back h x = if Host.in_range (r_haddr r) (r_size r) x then None else h_back (m_host m) x) →
  (∀ o x q, maps (arena_spans (m_arena m)) o x q → ¬ r_haddr r ≤ x < r_haddr r + r_size r → maps (arena_spans a) o x q) →
  (∀ x, settled m x → ¬ r_haddr r ≤ x < r_haddr r + r_size r → h_back (m_host m) x ≠ None →
     h_mem h x = h_mem (m_host m) x) →
  shrunk f (without r f) m (with_mem a h m1).
Proof.
  intros Hc Hs Hr Hu Hfd Hbrk Hb Hm Hmem. pose proof (unmapped_shrunk f m r m1 Hu) as [].
  assert (∀ x, ¬ owned f x → ¬ r_haddr r ≤ x < r_haddr r + r_size r) as Hno
    by (intros x Hn Hx; by eapply Hn, region_owned).
  split; cbn [m_s2 m_pt m_arena m_host with_mem]; auto.
  - intros k Hk. apply (um_room _ _ _ _ Hu) in Hk. unfold room in *. cbn [m_s2 m_pt m_arena with_mem].
    rewrite Hbrk, <- (um_arena _ _ _ _ Hu). done.
  - intros x Hx%Hno. rewrite Hb. unfold Host.in_range. destruct (_ && _) eqn:E; [bool_to_prop; lia|done].
  - intros x Hx Hbx. assert (settled m x ∧ ¬ r_haddr r ≤ x < r_haddr r + r_size r) as [? ?]; [|by apply Hmem].
    destruct Hx as [[Hn Hf]|[(o & q & Hn & Hmo)|(va & v & Hva & [Hn Hf]%without_some & Hv & Hd)]].
    + split; [by left|auto].
    + split; [right; eauto|auto].
    + replace x with (v_host v + (x - v_host v)) by lia. split.
      * eapply held_settled; [by apply (co_mem _ _ Hc va v)|lia].
      * apply (other_page f m r va v); done || lia.
Qed.

(** The same, with everything a freed region needs. *)
Lemma region_mapped f m r :
  coherent f m → shows f r → r_reserved r = false →
  (r_arena_off r < 0 → ∀ x, r_haddr r ≤ x < r_haddr r + r_size r →
     backed_by (arena_backing_fd (m_arena m)) (h_back (m_host m) x) = false) ∧
  (0 ≤ r_arena_off r → mapped_at (m_arena m) (r_arena_off r) (r_size r) (r_haddr r)).
Proof.
  intros Hc Hs Hr. split.
  - intros Ho x Hx. destruct (region_page f m r x Hc Hs Hr Hx) as (va & Hva & Hcv & Hd & _).
    pose proof (he_arena _ _ _ (co_mem _ _ Hc va _ Hva (sh_view _ _ Hs va Hva Hcv) Hr) (x - v_host (view_at r va)) ltac:(lia)) as Ha.
    cbn [view_at v_off v_host] in Ha, Hd. rewrite (proj2 (Z.ltb_lt (r_arena_off r) 0)) in Ha by done. cbn in Ha.
    by replace (r_haddr r + (va - r_gaddr r) + (x - (r_haddr r + (va - r_gaddr r)))) with x in Ha by lia.
  - intros Ho d Hd. destruct (region_page f m r (r_haddr r + d) Hc Hs Hr ltac:(lia)) as (va & Hva & Hcv & Hdd & _).
    cbn [view_at v_host] in Hdd.
    pose proof (he_arena _ _ _ (co_mem _ _ Hc va _ Hva (sh_view _ _ Hs va Hva Hcv) Hr) (d - (va - r_gaddr r)) ltac:(lia)) as Ha.
    apply contains_range in Hcv. unfold in_range in Hcv.
    cbn [view_at v_off v_host] in Ha. rewrite (proj2 (Z.ltb_ge (r_arena_off r) 0)) in Ha by done.
    rewrite (proj2 (Z.ltb_ge _ 0)) in Ha by lia. destruct Ha as [q Hq]. exists q.
    by replace (r_arena_off r + (va - r_gaddr r) + (d - (va - r_gaddr r))) with (r_arena_off r + d) in Hq by lia;
      replace (r_haddr r + (va - r_gaddr r) + (d - (va - r_gaddr r))) with (r_haddr r + d) in Hq by lia.
Qed.

Context {B : Type}.
Implicit Type w : world H V B.

Lemma release_memory_spec f r w :
  coherent f (w_m w) → shows f r →
  match release_memory r w with
  | Ret w' => ∃ m', w' = set_machine m' w ∧ coherent (without r f) m' ∧ shrunk f (without r f) (w_m w) m'
  | Stop s => s = NoMemory
  end.
Proof.
  intros Hc Hs. unfold release_memory. destruct (r_reserved r) eqn:Hr.
  { exists (w_m w). split; [by destruct w|]. split; [by apply reserved_coherent|].
    destruct (shrunk_refl f (w_m w)) as [K1 K2 K3 K4 K5 K6 K7 K8]. split; auto.
    by intros va v _ [_ ?]%without_some. }
  pose proof (unmapped_coherent f (w_m w) r Hc Hs) as Hu.
  destruct (vmm_munmap _ _ (w_m w)) as [m1|s]; cbn [mbind outcome_bind]; [|by destruct Hu]. destruct Hu as [Hc1 Hu].
  pose proof (unmapped_shrunk f _ r m1 Hu) as Hk1. destruct (region_mapped f _ r Hc Hs Hr) as [Hna Har].
  pose proof (mo_arena _ (mo_base _ (co_ok _ _ Hc))) as Hwf.
  destruct (sh_ok _ _ Hs) as [_ [_ Hsz] _]. pose proof (sh_low _ _ Hs) as Hlow. unfold r_end, user_addr_max in Hlow.
  destruct (sh_ok _ _ Hs) as [[_ Hg0] _ _].
  destruct (r_arena_off r <? 0) eqn:Ho; bool_to_prop.
  - destruct (_ && _) eqn:Ew; [|by exists m1]. bool_to_prop. unfold w_host, set_host, set_memory_of.
    cbn [w_m set_machine]. rewrite (um_host _ _ _ _ Hu), (um_arena _ _ _ _ Hu).
    change (mk_machine (m_pt m1) (m_s2 m1) ?a ?h) with (with_mem a h m1).
    destruct (munmap_law (m_host (w_m w)) (r_haddr r) (r_size r)) as (Hb & Hm & _); [done..|].
    eexists. split; [reflexivity|]. split.
    + apply (released_coherent f (w_m w) r m1); auto; [by split|]. by apply arena_wf_munmap; auto.
    + apply (released_shrunk f (w_m w) r m1); auto. intros x _ Hx Hbx. apply Hm. rewrite Hb.
      unfold Host.in_range. destruct ((_ <=? x) && _) eqn:E; [bool_to_prop; lia|done].
  - destruct (_ && _) eqn:Ew; [|by exists m1]. bool_to_prop. unfold w_host, set_memory_of. cbn [w_m set_machine].
    rewrite (um_host _ _ _ _ Hu), (um_arena _ _ _ _ Hu). specialize (Har Ho).
    assert (gran (r_haddr r)) as Hgh.
    { destruct (Har 0) as [q Hq]; [lia|]. rewrite !Z.add_0_r in Hq. pose proof (maps_gran _ _ _ _ _ Hwf Hq) as Hmg.
      unfold gran. change STAGE2_GRANULE with 16384 in *. change HOST_BLOCK_GRANULE with 16384 in *. lia_mod. }
    pose proof (arena_free_spec (m_arena (w_m w)) (m_host (w_m w)) (r_arena_off r) (r_size r) (r_haddr r) Hwf) as Hf.
    do 5 (ospecialize (Hf _); [done || lia|]).
    destruct (arena_free _ _ _ _) as [[a h]|s]; cbn [mbind outcome_bind]; [|done].
    change (mk_machine (m_pt m1) (m_s2 m1) ?a ?h) with (with_mem a h m1).
    assert (∀ o x q, maps (arena_spans (m_arena (w_m w))) o x q →
      ¬ r_haddr r ≤ x < r_haddr r + r_size r → ¬ r_arena_off r ≤ o < r_arena_off r + r_size r) as Hoff.
    { intros o x q Hox Hx Hoo. destruct (Har (o - r_arena_off r)) as [q' Hq']; [lia|].
      replace (r_arena_off r + (o - r_arena_off r)) with o in Hq' by lia.
      destruct (maps_fun _ _ _ _ _ _ (wf_apart _ _ Hwf) Hox Hq') as [-> _]. lia. }
    eexists. split; [reflexivity|]. destruct Hf as [F1 F2 F3 F4 F5 F6]. split.
    + apply (released_coherent f (w_m w) r m1); auto; [by split|]. intros o x q Hox Hx. apply F4. eauto.
    + apply (released_shrunk f (w_m w) r m1); auto; [intros o x q Hox Hx; apply F4; eauto|].
      intros x Hset Hx Hbx. apply F6.
      * rewrite F5. unfold Host.in_range. destruct ((_ <=? x) && _) eqn:E; [bool_to_prop; lia|done].
      * intros d Hd. destruct Hset as [Hs'|(o & q & Hox)].
        -- split; intros E; rewrite E in Hs'; cbn in Hs'; by rewrite Z.eqb_refl in Hs'.
        -- rewrite (maps_backed _ _ _ _ _ _ (wf_spans _ _ Hwf) Hox). split; [|done]. intros [= ->].
           apply (Hoff _ _ _ Hox Hx). lia.
Qed.
End Coherence.

(** * The invariant of the memory calls *)

Section Calls.
Context {H V B : Type} `{!HostOps H, !HostIO H, HL : !HostLaws H, HIO : !HostIOLaws H, !HvOps V, HV : !HvLaws V}.
Context (junk : Z → bool).
Implicit Type w : world H V B.

Abbreviation shown w := (look (areas (w_mm w))).

(** A region below the kernel's part, no longer than the code can split, whose
    descriptor is not the arena's [fd]. *)
Record fits (fd : Z) (r : mm_region) : Prop := {
  fi_low : r_end r ≤ user_addr_max;
  fi_short : r_size r ≤ 2^31;
  fi_off : r_arena_off r + r_size r ≤ 2^62;
  fi_fd : r_owns_fd r = true → r_fd r ≠ fd;
}.

(** The books of the map are in order, its regions fit, and the machine agrees
    with the map. *)
Record world_ok w : Prop := {
  wo_mm : mm_ok (w_mm w);
  wo_fits id : id ∈ mm_list (w_mm w) → fits (arena_backing_fd (m_arena (w_m w))) (reg (w_mm w) id);
  wo_co : coherent (shown w) (w_m w);
}.

Lemma fits_cut fd r g d owns j :
  region_ok r → fits fd r → r_gaddr r < g < r_end r → (owns = true → d ≠ fd) →
  fits fd (set_size (g - r_gaddr r) r) ∧ fits fd (tail_of r g d owns j).
Proof.
  intros [[_ ?] [_ ?] ?] [] Hg Ho. unfold r_end in *.
  split; split; unfold r_end; cbn [set_size tail_of r_gaddr r_size r_arena_off r_owns_fd r_fd]; unfold r_end; auto; try lia.
  destruct (r_arena_off r <? 0); lia.
Qed.

Lemma world_shows w id : world_ok w → id ∈ mm_list (w_mm w) → shows (shown w) (reg (w_mm w) id).
Proof.
  intros Hw Hid. pose proof (wo_mm _ Hw) as Hok. split; [by apply (mk_regs _ Hok)|by apply (wo_fits _ Hw)|].
  intros va _ Hc. apply look_in; [apply Hok|by apply areas_elem|done].
Qed.

(** [w'] is [w] with the map in other pieces, and descriptors opened. *)
Record recut w w' : Prop := {
  rk_ok : world_ok w';
  rk_map : same_map (w_mm w) (w_mm w');
  rk_machine : w_m w' = with_mem (m_arena (w_m w)) (w_host w') (w_m w);
  rk_quiet : quiet (arena_backing_fd (m_arena (w_m w))) (w_host w) (w_host w');
  rk_vkern : w_vkern w' = w_vkern w;
  rk_rest : w_kern_brk w' = w_kern_brk w ∧ w_binder w' = w_binder w;
}.

Lemma quiet_refl fd (h : H) : quiet fd h h.
Proof. by split. Qed.

Lemma quiet_trans fd (h h1 h2 : H) : quiet fd h h1 → quiet fd h1 h2 → quiet fd h h2.
Proof.
  intros [] []. split; auto; intros.
  - by rewrite qu_back1.
  - rewrite qu_mem1, qu_mem0; auto. by rewrite qu_back0.
  - rewrite qu_size1; auto.
  - rewrite qu_file1; auto.
Qed.

Lemma recut_refl w : world_ok w → recut w w.
Proof.
  intros Hw. split; auto using quiet_refl; [apply same_map_refl, Hw|].
  unfold w_host, with_mem. by destruct (w_m w).
Qed.

Lemma recut_trans w w1 w2 : recut w w1 → recut w1 w2 → recut w w2.
Proof.
  intros [K1 K2 K3 K4 K5 [K6 K7]] [L1 L2 L3 L4 L5 [L6 L7]]. split; auto; try congruence.
  - by eapply same_map_trans.
  - rewrite L3, K3. done.
  - eapply quiet_trans; [done|]. by rewrite K3 in L4.
  - split; congruence.
Qed.

Lemma recut_shown w w' x : recut w w' → shown w' x = shown w x.
Proof. intros Hr. apply (sm_look _ _ (rk_map _ _ Hr)). Qed.

Lemma quiet_shrunk f (m : machine H V) h :
  quiet (arena_backing_fd (m_arena m)) (m_host m) h → shrunk f f m (with_mem (m_arena m) h m).
Proof. intros []. split; cbn [m_s2 m_pt m_arena m_host with_mem]; eauto. Qed.

Lemma recut_shrunk f w w' : recut w w' → shrunk f f (w_m w) (w_m w').
Proof. intros []. rewrite rk_machine0. by apply quiet_shrunk. Qed.

(** The two pieces of a region that is split. *)
Lemma split_spec w id g a b :
  world_ok w → mm_list (w_mm w) = a ++ id :: b → paged g →
  r_gaddr (reg (w_mm w) id) < g < r_end (reg (w_mm w) id) →
  ∃ w' tid, split junk w id g = Ret w' ∧ recut w w' ∧ mm_list (w_mm w') = a ++ id :: tid :: b ∧
    reg (w_mm w') id = set_size (g - r_gaddr (reg (w_mm w) id)) (reg (w_mm w) id) ∧
    r_gaddr (reg (w_mm w') tid) = g ∧ r_end (reg (w_mm w') tid) = r_end (reg (w_mm w) id) ∧
    r_reserved (reg (w_mm w') tid) = r_reserved (reg (w_mm w) id) ∧
    (∀ x, x ∈ a ∨ x ∈ b → reg (w_mm w') x = reg (w_mm w) x).
Proof.
  intros Hw Hl Hp Hg. pose proof (wo_mm _ Hw) as Hok. assert (id ∈ mm_list (w_mm w)) as Hid by (rewrite Hl; set_solver).
  pose proof (wo_fits _ Hw id Hid) as Hfit. pose proof (mk_regs _ Hok id Hid) as Hro. pose proof Hfit as [? ? ? _]. pose proof Hro as [[_ ?] [_ ?] ?].
  pose proof (split_region_spec junk id g (w_mm w) (w_host w) a b Hok Hl Hp Hg) as Hs.
  unfold r_end in *. do 2 (ospecialize (Hs _); [lia|]).
  pose proof (tail_fd_more (reg (w_mm w) id) (w_host w)) as Hmore.
  assert (let '(fd, owns, h') := tail_fd (reg (w_mm w) id) (w_host w) in
          owns = true → fd ≠ arena_backing_fd (m_arena (w_m w))) as Hfd.
  { unfold tail_fd. destruct (r_owns_fd (reg (w_mm w) id) && _) eqn:E.
    - destruct (h_dup _ _) as [[d|] h'] eqn:Ed; [|done]. intros _ ->.
      apply dup_some in Ed as (_ & Hn & _).
      pose proof (wf_open _ _ (mo_arena _ (mo_base _ (co_ok _ _ (wo_co _ Hw))))). unfold w_host in Hn. congruence.
    - done. }
  unfold split. destruct (tail_fd _ _) as [[fd owns] h']. destruct Hs as (m' & -> & Hpl). cbn [mbind outcome_bind].
  destruct (split_areas _ _ _ _ _ _ _ _ Hok Hl Hpl) as (_ & Hrid & Hrt & Hl' & Hrx).
  eexists _, (mm_next (w_mm w)). split; [done|]. cbn [w_mm set_host set_memory_of set_machine set_mm].
  split; [|split; [done|]; split; [done|]; rewrite Hrt; cbn [tail_of r_gaddr r_size r_reserved]; unfold r_end; split; [done|];
    split; [lia|]; split; [done|]; auto].
  pose proof (split_same _ _ _ _ _ _ _ _ _ _ Hok Hl Hg Hpl) as Hsm.
  pose proof (quiet_more (arena_backing_fd (m_arena (w_m w))) _ _ Hmore) as Hq. cbn [fst snd] in Hq.
  split; try done. split; cbn [w_mm set_host set_memory_of set_machine set_mm w_m m_arena].
  - apply Hpl.
  - destruct (fits_cut _ _ g fd owns (junk (mm_next (w_mm w))) Hro Hfit Hg Hfd) as [Hf1 Hf2].
    intros x. rewrite Hl'. intros Hx. assert (x = id ∨ x = mm_next (w_mm w) ∨ x ∈ a ∨ x ∈ b) as [-> | [-> | Hx']] by set_solver.
    + by rewrite Hrid.
    + by rewrite Hrt.
    + rewrite Hrx by done. apply (wo_fits _ Hw). rewrite Hl. set_solver.
  - change (mk_machine (m_pt (w_m w)) (m_s2 (w_m w)) ?a ?h) with (with_mem a h (w_m w)).
    apply (coherent_ext (shown w)); [intros; apply Hsm|]. apply coherent_quiet; [apply Hw|done].
Qed.

(** ** Unmapping *)

(** What [w] shows, less the part of [gaddr, gaddr + size) that [r] has. *)
Definition cleared (gaddr size : Z) f (x : Z) : option view :=
  if (gaddr <=? x) && (x <? gaddr + size) then None else f x.

(** [w'] shows [g], and keeps of everything else what it can. *)
Record unmapped_to w (g : Z → option view) w' : Prop := {
  ut_ok : world_ok w';
  ut_shown x : shown w' x = g x;
  ut_settings : settings (w_mm w') = settings (w_mm w);
  ut_shrunk : shrunk (shown w) g (w_m w) (w_m w');
  ut_vkern : w_vkern w' = w_vkern w;
  ut_rest : w_kern_brk w' = w_kern_brk w ∧ w_binder w' = w_binder w;
}.

Lemma shrunk_ext f g f' g' (m m' : machine H V) :
  (∀ x, f' x = f x) → (∀ x, g' x = g x) → shrunk f g m m' → shrunk f' g' m m'.
Proof.
  intros Ef Eg [K1 K2 K3 K4 K5 K6 K7 K8].
  assert (∀ x, owned f' x ↔ owned f x) as Of by (intros x; unfold owned; by setoid_rewrite Ef).
  assert (∀ x, owned g' x ↔ owned g x) as Og by (intros x; unfold owned; by setoid_rewrite Eg).
  split; auto.
  - intros va v Hva. rewrite Ef, Eg. by apply K1.
  - intros x. rewrite Of. apply K6.
  - intros o x q. rewrite Of. apply K7.
  - intros x. rewrite Of, Og. setoid_rewrite Of. apply K8.
Qed.

Lemma unmapped_trans w g w1 k w2 :
  unmapped_to w g w1 → unmapped_to w1 k w2 → unmapped_to w k w2.
Proof.
  intros [U1 U2 U3 U4 U5 [U6 U7]] [W1 W2 W3 W4 W5 [W6 W7]]. split; auto; try congruence; [|split; congruence].
  eapply shrunk_trans; [done|apply (shrunk_ext (shown w1) k); [by intros x; rewrite U2|done..]|].
  apply (coherent_ext (shown w1)); [intros; by rewrite U2|apply U1].
Qed.

Lemma recut_unmapped w w' : recut w w' → unmapped_to w (shown w) w'.
Proof.
  intros Hr. pose proof Hr as [K1 K2 K3 K4 K5 K6]. split; auto; [intros; by apply recut_shown|apply K2|].
  by apply recut_shrunk.
Qed.

Lemma dropped_look (m : mm) a id b m' x :
  mm_ok m → mm_list m = a ++ id :: b → dropped m a id b m' →
  look (areas m') x = without (reg m id) (look (areas m)) x.
Proof.
  intros Hok Hl Hd. unfold without.
  rewrite (dropped_areas _ _ _ _ _ Hok Hl Hd), (areas_split _ _ _ _ Hl), !look_app. set (r := reg m id).
  change (look (r :: ?l) x) with (if contains r x then Some (view_at r x) else look l x).
  destruct (contains r x) eqn:E; [|done].
  assert (∀ l, (∀ y, y ∈ l → y ∈ a ∨ y ∈ b) → look (reg m <$> l) x = None) as Hnone; [|by rewrite !Hnone by auto].
  intros l Hll. apply look_none. intros r' (y & -> & Hy)%list_elem_of_fmap. apply Hll in Hy.
  destruct (split_sides _ _ _ _ Hok Hl y Hy) as (_ & Ha & Hb). fold r in Ha, Hb.
  unfold contains, before, r_end in *. bool_to_prop. apply andb_false_iff. rewrite Z.leb_gt, Z.ltb_ge.
  destruct Hy as [Hy|Hy]; [specialize (Ha Hy)|specialize (Hb Hy)]; lia.
Qed.

(** A region out of the containers, with its memory and its descriptor. *)
Lemma drop_spec w id a b :
  world_ok w → mm_list (w_mm w) = a ++ id :: b →
  match (w1 ← unlink id w; w2 ← release_memory (reg (w_mm w) id) w1;
         let w3 := close_owned (reg (w_mm w) id) w2 in
         Ret (set_mm (free id (w_mm w3)) w3)) with
  | Ret w' => unmapped_to w (without (reg (w_mm w) id) (shown w)) w' ∧
      mm_list (w_mm w') = a ++ b ∧ ∀ x, x ≠ id → reg (w_mm w') x = reg (w_mm w) x
  | Stop s => s = NoMemory
  end.
Proof.
  intros Hw Hl. pose proof (wo_mm _ Hw) as Hok. set (r := reg (w_mm w) id).
  assert (id ∈ mm_list (w_mm w)) as Hid by (rewrite Hl; set_solver).
  destruct (remove_spec (w_mm w) a id b Hok Hl) as (t & Ht & Hd). unfold unlink. rewrite Ht. cbn [mbind outcome_bind].
  set (mm' := free id _) in Hd.
  set (w1 := set_mm _ w).
  pose proof (release_memory_spec (shown w) r w1 (wo_co _ Hw) (world_shows w id Hw Hid)) as Hr.
  destruct (release_memory r w1) as [w2|s]; [|done]. destruct Hr as (m' & -> & Hc & Hk). cbn [mbind outcome_bind].
  set (h := w_host (close_owned r (set_machine m' w1))).
  assert (close_owned r (set_machine m' w1) = set_machine (with_mem (m_arena m') h m') w1 ∧
    quiet (arena_backing_fd (m_arena m')) (m_host m') h) as [-> Hq].
  { unfold close_owned in *. subst h. destruct (r_owns_fd r && (0 <=? r_fd r)) eqn:E.
    - split; [done|]. apply quiet_close. rewrite (sk_fd _ _ _ _ Hk). apply (wo_fits _ Hw id Hid). by bool_to_prop.
    - split; [by destruct m'|apply quiet_refl]. }
  change (free id (w_mm _)) with mm'.
  pose proof (λ x, dropped_look _ _ _ _ _ x Hok Hl Hd) as Hlook. fold r in Hlook.
  split; [|split; [apply Hd|apply Hd]].
  pose proof (coherent_quiet _ h m' Hc Hq) as Hc'.
  split; cbn [w_mm w_m set_mm set_machine w1]; auto.
  - split; cbn [w_mm w_m set_mm set_machine w1]; [apply Hd| |].
    + intros x Hx. rewrite (dr_list _ _ _ _ _ Hd) in Hx. destruct (list_parts _ _ _ _ Hok Hl) as (Ha & Hb & _).
      rewrite (dr_same _ _ _ _ _ Hd) by set_solver. cbn [m_arena with_mem]. rewrite (sk_fd _ _ _ _ Hk).
      apply (wo_fits _ Hw). rewrite Hl. set_solver.
    + by apply (coherent_ext (without r (shown w))).
  - eapply shrunk_trans; [exact Hk|by apply quiet_shrunk|done].
Qed.

(** Cutting off what a region has before [g], if anything: the region that
    starts the range. *)
Lemma trim_left_spec g id w a b :
  world_ok w → mm_list (w_mm w) = a ++ id :: b → paged g → g < r_end (reg (w_mm w) id) →
  ∃ id' w' a', (if r_gaddr (reg (w_mm w) id) <? g then
       w ← split junk w id g;
       match next_of id (mm_list (w_mm w)) with Some id => Ret (id, w) | None => Stop Faulted end
     else Ret (id, w)) = Ret (id', w') ∧ recut w w' ∧ mm_list (w_mm w') = a' ++ id' :: b ∧
    r_gaddr (reg (w_mm w') id') = Z.max g (r_gaddr (reg (w_mm w) id)) ∧
    r_end (reg (w_mm w') id') = r_end (reg (w_mm w) id) ∧
    r_reserved (reg (w_mm w') id') = r_reserved (reg (w_mm w) id) ∧
    (∀ x, x ∈ b → reg (w_mm w') x = reg (w_mm w) x) ∧
    (∀ x, x ∈ a' → x ∈ a ∧ reg (w_mm w') x = reg (w_mm w) x ∨ r_end (reg (w_mm w') x) = g).
Proof.
  intros Hw Hl Hp Hg. destruct (r_gaddr (reg (w_mm w) id) <? g) eqn:E; bool_to_prop.
  - destruct (split_spec w id g a b Hw Hl Hp ltac:(lia)) as (w' & tid & -> & Hrc & Hl' & Hr & Htg & Hte & Htr & Hx).
    cbn [mbind outcome_bind]. rewrite Hl'.
    assert (id ∉ a) as Hia by (by apply (list_parts (w_mm w) a id b (wo_mm _ Hw) Hl)).
    rewrite next_of_app by done. cbn [head].
    exists tid, w', (a ++ [id]). split; [done|]. split; [done|]. rewrite <- app_assoc. split; [done|].
    split; [lia|]. split; [done|]. split; [done|]. split; [auto|].
    intros x [Hxa| ->%list_elem_of_singleton]%elem_of_app; [left; auto|right].
    rewrite Hr. unfold r_end. cbn [set_size r_gaddr r_size]. lia.
  - exists id, w, a. split; [done|]. split; [by apply recut_refl|]. split; [done|]. split; [lia|]. do 3 (split; [done|]). auto.
Qed.

(** ... and what it has from [g] on. *)
Lemma trim_right_spec g id w a b :
  world_ok w → mm_list (w_mm w) = a ++ id :: b → paged g → 0 ≤ g < 2^64 → r_gaddr (reg (w_mm w) id) < g →
  let r := reg (w_mm w) id in
  ∃ w' b', (if u64 (r_gaddr r + r_size r) >? g then split junk w id g else Ret w) = Ret w' ∧
    recut w w' ∧ mm_list (w_mm w') = a ++ id :: b' ∧
    r_gaddr (reg (w_mm w') id) = r_gaddr r ∧ r_end (reg (w_mm w') id) = Z.min g (r_end r) ∧
    r_reserved (reg (w_mm w') id) = r_reserved r ∧
    (∀ x, x ∈ a ∨ x ∈ b → reg (w_mm w') x = reg (w_mm w) x) ∧
    (b' = b ∧ r_end r ≤ g ∨ ∃ tid, b' = tid :: b ∧ r_gaddr (reg (w_mm w') tid) = g ∧ g < r_end r).
Proof.
  intros Hw Hl Hp Hg0 Hg r. fold r in Hg. assert (region_ok r) as [[_ ?] [_ ?] ?].
  { apply (mk_regs _ (wo_mm _ Hw)). rewrite Hl. set_solver. }
  unfold r_end in *. rewrite u64_small by lia. rewrite Z.gtb_ltb. destruct (g <? _) eqn:E; bool_to_prop.
  - destruct (split_spec w id g a b Hw Hl Hp) as (w' & tid & -> & Hrc & Hl' & Hr & Htg & Hte & Htr & Hx); [unfold r_end; fold r; lia|].
    fold r in Hr. exists w', (tid :: b). split; [done|]. split; [done|]. split; [done|]. rewrite Hr.
    cbn [set_size r_gaddr r_size r_reserved]. split; [done|]. split; [lia|]. split; [done|]. split; [done|]. right. exists tid. auto.
  - exists w, b. split; [done|]. split; [by apply recut_refl|]. split; [done|]. fold r. split; [done|]. split; [lia|]. do 2 (split; [done|]). left. split; [done|lia].
Qed.

(** One region of the range goes. *)
Lemma unmap_region_spec gaddr size id w a b :
  world_ok w → mm_list (w_mm w) = a ++ id :: b → paged gaddr → paged size → 0 ≤ gaddr → 0 < size → gaddr + size < 2^64 →
  meets gaddr size (reg (w_mm w) id) →
  let r := reg (w_mm w) id in
  match unmap_region junk gaddr size id w with
  | Ret (next, w') => ∃ a' b', next = head b' ∧ mm_list (w_mm w') = a' ++ b' ∧
      unmapped_to w (λ x, if contains r x then cleared gaddr size (shown w) x else shown w x) w' ∧
      (∀ x, x ∈ a' → x ∈ a ∧ reg (w_mm w') x = reg (w_mm w) x ∨ r_end (reg (w_mm w') x) ≤ gaddr) ∧
      (∀ x, x ∈ b → reg (w_mm w') x = reg (w_mm w) x) ∧
      (b' = b ∨ ∃ tid, b' = tid :: b ∧ gaddr + size ≤ r_gaddr (reg (w_mm w') tid))
  | Stop s => s = NoMemory
  end.
Proof.
  intros Hw Hl Hp Hps H0 Hsz Hlt [Hm1 Hm2] r. unfold unmap_region.
  assert (0 < r_gaddr r) as Hr0 by (apply (mk_regs _ (wo_mm _ Hw)); rewrite Hl; set_solver).
  destruct (trim_left_spec gaddr id w a b Hw Hl Hp Hm2) as (id1 & w1 & a1 & -> & Hrc1 & Hl1 & Hg1 & He1 & _ & Hb1 & Ha1).
  cbn [mbind outcome_bind]. pose proof (rk_ok _ _ Hrc1) as Hw1.
  assert (paged (gaddr + size)) as Hpe by (unfold paged, PAGE_4KB in *; lia_mod).
  fold r in Hm1, Hg1, He1. rewrite (u64_small (gaddr + size)) by lia.
  pose proof (trim_right_spec (gaddr + size) id1 w1 a1 b Hw1 Hl1 Hpe) as Ht2.
  do 2 (ospecialize (Ht2 _); [unfold meets, r_end in *; lia|]).
  cbv zeta in Ht2. destruct Ht2 as (w2 & b2 & -> & Hrc2 & Hl2 & Hg2 & He2 & _ & Hx2 & Hb2).
  cbn [mbind outcome_bind]. pose proof (rk_ok _ _ Hrc2) as Hw2. rewrite Hl2.
  assert (id1 ∉ a1) as Hia by (by apply (list_parts (w_mm w2) a1 id1 b2 (wo_mm _ Hw2) Hl2)).
  rewrite next_of_app by done. pose proof (drop_spec w2 id1 a1 b2 Hw2 Hl2) as Hd.
  destruct (unlink id1 w2) as [w3|s]; cbn [mbind outcome_bind] in *; [|done].
  destruct (release_memory (reg (w_mm w2) id1) w3) as [w4|s]; cbn [mbind outcome_bind] in *; [|done].
  destruct Hd as (Hut & Hl' & Hsame). set (w' := set_mm _ _) in *. exists a1, b2. split; [done|]. split; [done|].
  destruct (list_parts (w_mm w2) a1 id1 b2 (wo_mm _ Hw2) Hl2) as (_ & Hib & _).
  pose proof (recut_trans _ _ _ Hrc1 Hrc2) as Hrc. split; [|split; [|split]].
  - eapply unmapped_trans; [by apply recut_unmapped|]. destruct Hut as [T1 T2 T3 T4 T5 T6].
    assert (∀ x, (if contains r x then cleared gaddr size (shown w) x else shown w x) =
      without (reg (w_mm w2) id1) (shown w2) x) as E.
    { intros x. unfold without, cleared. rewrite (recut_shown w w2) by done.
      assert (contains (reg (w_mm w2) id1) x = contains r x && ((gaddr <=? x) && (x <? gaddr + size))) as ->.
      { unfold contains. rewrite Hg2, He2, Hg1, He1. fold r.
        apply eq_true_iff_eq. rewrite !andb_true_iff, !Z.leb_le, !Z.ltb_lt. lia. }
      destruct (contains r x); cbn [andb]; [|done]. by destruct ((gaddr <=? x) && (x <? gaddr + size)). }
    split; auto; [intros x; rewrite T2, E; done|].
    eapply shrunk_ext; [| |exact T4]; [intros; done|exact E].
  - intros x Hx. assert (x ≠ id1) by set_solver. rewrite Hsame by done. destruct (Ha1 x Hx) as [[Hxa E]|E].
    + left. split; [done|]. rewrite Hx2 by auto. done.
    + right. rewrite Hx2 by auto. lia.
  - intros x Hx. assert (x ≠ id1) as Hne.
    { intros ->. apply Hib. destruct Hb2 as [[-> _]|(tid & -> & _)]; [done|by right]. }
    rewrite Hsame, Hx2 by auto. by apply Hb1.
  - destruct Hb2 as [[-> _]|(tid & -> & Htg & _)]; [by left|right]. exists tid. split; [done|].
    rewrite Hsame by set_solver. lia.
Qed.

Lemma unmapped_ext w g g' w' : (∀ x, g' x = g x) → unmapped_to w g w' → unmapped_to w g' w'.
Proof.
  intros E [T1 T2 T3 T4 T5 T6]. split; auto; [intros x; by rewrite T2, E|].
  eapply shrunk_ext; [| |exact T4]; done.
Qed.

(** Nothing of the range is left once no region meets it. *)
Lemma shown_clear gaddr size w :
  (∀ y, y ∈ mm_list (w_mm w) → ¬ meets gaddr size (reg (w_mm w) y)) →
  ∀ x, gaddr ≤ x < gaddr + size → shown w x = None.
Proof.
  intros Hno x Hx. apply look_none. intros r (y & -> & Hy)%list_elem_of_fmap.
  apply not_true_iff_false. intros Hc%contains_range. apply (Hno y Hy).
  unfold in_range, meets, r_end in *. lia.
Qed.

Lemma cleared_out gaddr size f x : ¬ gaddr ≤ x < gaddr + size → cleared gaddr size f x = f x.
Proof. intros Hx. unfold cleared. destruct (_ && _) eqn:E; [bool_to_prop; lia|done]. Qed.

Lemma cleared_in gaddr size f x : gaddr ≤ x < gaddr + size → cleared gaddr size f x = None.
Proof. intros Hx. unfold cleared. by rewrite (proj2 (Z.leb_le _ _)), (proj2 (Z.ltb_lt _ _)) by lia. Qed.

Lemma unmapped_done gaddr size w (p : Z → bool) w' :
  unmapped_to w (λ x, if p x then cleared gaddr size (shown w) x else shown w x) w' →
  (∀ y, y ∈ mm_list (w_mm w') → ¬ meets gaddr size (reg (w_mm w') y)) →
  unmapped_to w (cleared gaddr size (shown w)) w'.
Proof.
  intros Hu Hno. eapply unmapped_ext; [|done]. intros x. cbn beta.
  destruct (decide (gaddr ≤ x < gaddr + size)) as [Hx|Hx].
  - pose proof (ut_shown _ _ _ Hu x) as E. cbn beta in E. rewrite (shown_clear gaddr size w') in E by done.
    rewrite cleared_in in * by done. done.
  - rewrite cleared_out by done. by destruct (p x).
Qed.

Lemma none_meets gaddr size (m : mm) a id b :
  mm_ok m → mm_list m = a ++ id :: b → (∀ x, x ∈ a → r_end (reg m x) ≤ gaddr) → gaddr < r_end (reg m id) →
  ¬ meets gaddr size (reg m id) → ∀ y, y ∈ mm_list m → ¬ meets gaddr size (reg m y).
Proof.
  clear junk.
  intros Hok Hl Ha Hid Hnm y. rewrite Hl. intros Hy [Hm1 Hm2].
  apply elem_of_app in Hy as [Hy|Hy]; [specialize (Ha y Hy); lia|]. apply elem_of_cons in Hy as [->|Hy]; [by apply Hnm|].
  destruct (split_sides _ _ _ _ Hok Hl y) as (_ & _ & Hbf); [by right|]. specialize (Hbf Hy).
  apply Hnm. destruct (mk_regs _ Hok id) as [_ [_ ?] _]; [rewrite Hl; set_solver|]. unfold meets, before, r_end in *. lia.
Qed.

Lemma munmap_loop_spec gaddr size fuel : ∀ id w a b,
  world_ok w → mm_list (w_mm w) = a ++ id :: b → (length (id :: b) ≤ fuel)%nat →
  paged gaddr → paged size → 0 ≤ gaddr → 0 < size → gaddr + size < 2^64 →
  (∀ x, x ∈ a → r_end (reg (w_mm w) x) ≤ gaddr) → gaddr < r_end (reg (w_mm w) id) →
  match munmap_loop junk fuel gaddr size id w with
  | Ret w' => unmapped_to w (cleared gaddr size (shown w)) w'
  | Stop s => s = NoMemory
  end.
Proof.
  induction fuel as [|fuel IH]; intros id w a b Hw Hl Hf Hp Hps H0 Hsz Hlt Ha Hid; [cbn in Hf; lia|].
  pose proof (wo_mm _ Hw) as Hok. assert (id ∈ mm_list (w_mm w)) as Hin by (rewrite Hl; set_solver).
  pose proof (split_sides _ _ _ _ Hok Hl) as Hsides.
  cbn [munmap_loop]. destruct (_ =? 0) eqn:E; bool_to_prop.
  - apply compare_meets in E; [|done..|lia|lia].
    pose proof (unmap_region_spec gaddr size id w a b Hw Hl Hp Hps H0 Hsz Hlt E) as Hu. cbv zeta in Hu.
    destruct (unmap_region junk gaddr size id w) as [[next w1]|s]; cbn [mbind outcome_bind]; [|done].
    destruct Hu as (a' & b' & -> & Hl1 & Hut & Ha' & Hb & Hb').
    assert (∀ x, x ∈ a' → r_end (reg (w_mm w1) x) ≤ gaddr) as Ha1.
    { intros x Hx. destruct (Ha' x Hx) as [[Hxa ->]|?]; auto. }
    assert (∀ x, x ∈ b' → gaddr < r_gaddr (reg (w_mm w1) x)) as Hb1.
    { intros x Hx. assert (x ∈ b ∨ gaddr + size ≤ r_gaddr (reg (w_mm w1) x)) as [Hxb|?] by (destruct Hb' as [->|(tid & -> & ?)]; set_solver).
      - rewrite Hb by done. destruct (Hsides x) as (_ & _ & Hbf); [auto|]. specialize (Hbf Hxb). unfold before in Hbf. lia.
      - lia. }
    destruct b' as [|nid b']; cbn [head].
    + eapply unmapped_done; [exact Hut|]. intros y. rewrite Hl1, app_nil_r. intros Hy [_ ?]. specialize (Ha1 y Hy). lia.
    + assert (gaddr < r_end (reg (w_mm w1) nid)) as Hnid.
      { pose proof (Hb1 nid ltac:(left)). destruct (mk_regs _ (wo_mm _ (ut_ok _ _ _ Hut)) nid) as [_ [_ ?] _]; [rewrite Hl1; set_solver|].
        unfold r_end. lia. }
      assert (match munmap_loop junk fuel gaddr size nid w1 with
              | Ret w' => unmapped_to w1 (cleared gaddr size (shown w1)) w' | Stop s => s = NoMemory end) as Hrec.
      { destruct Hb' as [<-|(tid & [= -> ->] & Htid)].
        - eapply (IH nid w1 a' b'); try done; [apply Hut|cbn in *; lia].
        - assert (¬ meets gaddr size (reg (w_mm w1) tid)) as Hnm by (intros [? _]; lia).
          assert (tid ∈ mm_list (w_mm w1)) as Htin by (rewrite Hl1; set_solver).
          rewrite <- (compare_meets gaddr size (w_mm w1) tid) in Hnm by (apply Hut || lia || done).
          assert (munmap_loop junk fuel gaddr size tid w1 = Ret w1) as ->
            by (destruct fuel; cbn [munmap_loop]; by rewrite (proj2 (Z.eqb_neq _ _) Hnm)).
          eapply (unmapped_done _ _ _ (λ _, false)); [apply recut_unmapped, recut_refl, Hut|].
          rewrite (compare_meets gaddr size (w_mm w1) tid) in Hnm by (apply Hut || lia || done).
          by apply (none_meets gaddr size (w_mm w1) a' tid b (wo_mm _ (ut_ok _ _ _ Hut)) Hl1). }
      destruct (munmap_loop junk fuel gaddr size nid w1) as [w'|s]; [|done].
      eapply unmapped_ext; [|eapply unmapped_trans; [exact Hut|exact Hrec]]. intros x.
      destruct (decide (gaddr ≤ x < gaddr + size)) as [Hx|Hx]; [by rewrite !cleared_in by done|].
      rewrite !cleared_out, (ut_shown _ _ _ Hut) by done. rewrite cleared_out by done. by destruct (contains _ x).
  - assert (¬ meets gaddr size (reg (w_mm w) id)) as Hnm by (rewrite <- (compare_meets gaddr size (w_mm w) id) by (done || lia); done).
    eapply (unmapped_done _ _ _ (λ _, false)); [by apply recut_unmapped, recut_refl|].
    by apply (none_meets gaddr size (w_mm w) a id b Hok Hl).
Qed.

Lemma first_overlap_spec gaddr size fuel (m : mm) : ∀ id a b,
  mm_ok m → mm_list m = a ++ id :: b → (length a < fuel)%nat → 0 ≤ gaddr → 0 < size → gaddr + size < 2^64 →
  meets gaddr size (reg m id) →
  ∃ id' a' b', first_overlap fuel (key gaddr size) id m = Ret id' ∧ mm_list m = a' ++ id' :: b' ∧
    meets gaddr size (reg m id') ∧ ∀ x, x ∈ a' → r_end (reg m x) ≤ gaddr.
Proof.
  clear junk.
  induction fuel as [|fuel IH]; intros id a b Hok Hl Hf H0 Hsz Hlt Hm; [lia|]. cbn [first_overlap].
  assert (prev_of id None (mm_list m) = last a) as ->.
  { rewrite Hl. apply prev_of_app. by apply (list_parts m a id b Hok Hl). }
  destruct a as [|p a _] using rev_ind; cbn [last].
  { exists id, [], b. split; [done|]. split; [done|]. split; [done|]. by intros x ?%elem_of_nil. }
  rewrite last_snoc. rewrite <- app_assoc in Hl.
  assert (p ∈ mm_list m) as Hp by (rewrite Hl; set_solver).
  pose proof (compare_meets gaddr size m p Hok Hp ltac:(lia) ltac:(lia) Hlt) as Hcm.
  destruct (region_compare (key gaddr size) (reg m p) =? 0) eqn:E; cbn [negb]; bool_to_prop.
  - rewrite length_app in Hf. cbn in Hf. by apply (IH p a (id :: b)); [..|lia|lia| | |apply Hcm].
  - exists id, (a ++ [p]), b. split; [done|]. split; [by rewrite <- app_assoc|]. split; [done|].
    assert (r_end (reg m p) ≤ gaddr) as Hpe.
    { destruct (split_sides m p a (id :: b) Hok Hl id) as (_ & _ & Hb); [right; left|]. specialize (Hb ltac:(left)).
      apply Z.nlt_ge. intros Hge. apply E, Hcm. destruct (mk_regs _ Hok p Hp) as [_ [_ ?] _].
      unfold meets, before, r_end in *. lia. }
    intros x [Hx| ->%list_elem_of_singleton]%elem_of_app; [|done].
    destruct (split_sides m p a (id :: b) Hok Hl x) as (_ & Ha & _); [by left|]. specialize (Ha Hx).
    destruct (mk_regs _ Hok p Hp) as [_ [_ ?] _]. unfold before, r_end in *. lia.
Qed.

Lemma meets_shown gaddr size w id :
  world_ok w → id ∈ mm_list (w_mm w) → 0 < size → meets gaddr size (reg (w_mm w) id) →
  ∃ x, gaddr ≤ x < gaddr + size ∧ shown w x ≠ None.
Proof.
  intros Hw Hid Hsz [Hm1 Hm2]. pose proof (wo_mm _ Hw) as Hok. destruct (mk_regs _ Hok id Hid) as [_ [_ ?] _].
  unfold r_end in *. exists (Z.max gaddr (r_gaddr (reg (w_mm w) id))). split; [lia|].
  rewrite (look_in _ (reg (w_mm w) id)); [done|apply Hok|by apply areas_elem|].
  apply contains_range. unfold in_range. lia.
Qed.

Lemma do_munmap_spec gaddr size w :
  world_ok w → paged gaddr → 0 ≤ gaddr → 0 < size → gaddr + size < 2^64 - PAGE →
  let n := roundup size GUEST_MMAP_GRANULE in
  match do_munmap junk gaddr size w with
  | Ret (ret, w') => unmapped_to w (cleared gaddr n (shown w)) w' ∧
      (ret = 0 ∧ (∃ x, gaddr ≤ x < gaddr + n ∧ shown w x ≠ None) ∨
       ret = - ENOMEM ∧ w' = w ∧ (∀ x, gaddr ≤ x < gaddr + n → shown w x = None))
  | Stop s => s = NoMemory
  end.
Proof.
  intros Hw Hp H0 Hsz Hlt n. pose proof (wo_mm _ Hw) as Hok. change PAGE with 4096 in Hlt.
  destruct (roundup_spec size GUEST_MMAP_GRANULE) as [Hn Hnm]; [unfold GUEST_MMAP_GRANULE; lia..|].
  fold n in Hn, Hnm. change GUEST_MMAP_GRANULE with 4096 in *.
  unfold do_munmap. rewrite (proj2 (is_page_aligned_spec gaddr) Hp). cbn [negb].
  change (roundup size GUEST_MMAP_GRANULE) with n.
  destruct (find_region_range_spec gaddr n (w_mm w) Hok) as (res & -> & Hres); [lia..|]. cbn [mbind outcome_bind].
  destruct res as [id|].
  - destruct Hres as [Hin Hm]. pose proof Hin as (a & b & Hl)%list_elem_of_split.
    destruct (first_overlap_spec gaddr n (length (mm_list (w_mm w))) (w_mm w) id a b Hok Hl)
      as (id' & a' & b' & -> & Hl' & Hm' & Ha'); [rewrite Hl, length_app; cbn; lia|lia..|done|].
    cbn [mbind outcome_bind].
    pose proof (munmap_loop_spec gaddr n (length (mm_list (w_mm w))) id' w a' b' Hw Hl') as Hloop.
    ospecialize (Hloop _ Hp Hnm H0 _ _ Ha' (proj2 Hm')); [rewrite Hl', length_app; lia|lia|lia|].
    destruct (munmap_loop _ _ _ _ _ _) as [w'|s]; [|done]. split; [done|]. left. split; [done|].
    by apply (meets_shown gaddr n w id'); [|rewrite Hl'; set_solver|lia|].
  - pose proof (shown_clear gaddr n w Hres) as Hclear. split; [|by right].
    by apply (unmapped_done _ _ _ (λ _, false)); [apply recut_unmapped, recut_refl|].
Qed.
End Calls.
