(* ===== verification/Mapping.v ===== *)
(** New mappings: the memory do_mmap finds for one, and that installing it
    keeps the region map, the two translation stages and the host's mappings in
    agreement. *)

From S2P Require Import Prelude Errno Host Arena Stage2 PageTable Translation RbTree Regions UserCopy Mmap Coherence.

(** * Mapping *)

Section Mapping.
Context {H V : Type} `{HL : HostLaws H, HV : HvLaws V}.
Implicit Type m : machine H V.
Implicit Type f : Z → option view.

(** Memory for a mapping of [n] bytes at [p], arena offset [off]: held, and
    used by no block of stage 2. *)
Record spare m (p n off : Z) : Prop := {
  sa_gran : gran p;
  sa_size : page_aligned n;
  sa_held d : 0 ≤ d < n → page_aligned d → held m (p + d) (if off <? 0 then -1 else off + d);
  sa_free b e d : s2_map (m_s2 m) !! b = Some e → 0 ≤ d < n → granule_of (p + d) ≠ s2_haddr e;
}.

Definition with_region (r : mm_region) f (x : Z) : option view :=
  if contains r x then Some (view_at r x) else f x.

Lemma held_kept m m' h o new :
  kept_host m m' → books new m m' → held m h o → held m' h o.
Proof.
  intros Hk Hb [M1 M2 M3 M4]. split; [done|..].
  - by rewrite (proj1 (Hk _ M2)).
  - intros d Hd. by rewrite (proj1 (Hk _ (M3 d Hd))); auto.
  - intros d Hd. rewrite (proj1 (Hk _ (M3 d Hd))), (bo_fd _ _ _ Hb). specialize (M4 d Hd).
    destruct (o <? 0); [done|]. destruct M4 as [q Hq]. exists q. by apply Hb.
Qed.

(** The host page of a page of the region. *)
Lemma view_page r va :
  region_ok r → user_va va → contains r va = true →
  ∃ d, 0 ≤ d < r_size r ∧ page_aligned d ∧ va = r_gaddr r + d ∧ v_host (view_at r va) = r_haddr r + d ∧
    v_off (view_at r va) = (if r_arena_off r <? 0 then -1 else r_arena_off r + d).
Proof.
  intros [[Hg _] _ _] [Hva _] Hc%contains_range. exists (va - r_gaddr r). unfold in_range in Hc.
  split; [lia|]. split; [unfold page_aligned, paged, PAGE_4KB in *; change PAGE with 4096 in *; lia_mod|].
  split; [lia|]. done.
Qed.

Lemma invalid_page f m va : coherent f m → user_va va → va < user_addr_max → f va = None →
  pte_valid (pte (m_pt m) va) = false.
Proof.
  intros Hc Hva Hl Hf. destruct (pte_valid _) eqn:Hv; [|done].
  destruct (guest_page f m va Hc Hva Hl Hv) as (v & _ & Hf' & _). congruence.
Qed.

(** The second stage keeps every block's place. *)
Lemma stays_haddr m m' va e e' :
  machine_ok m → machine_ok m' → user_va va → pte_valid (pte (m_pt m) va) = true →
  pte (m_pt m') va = pte (m_pt m) va → stays m m' va →
  s2_map (m_s2 m) !! granule_of (pte_ipa (pte (m_pt m) va)) = Some e →
  s2_map (m_s2 m') !! granule_of (pte_ipa (pte (m_pt m) va)) = Some e' → s2_haddr e' = s2_haddr e.
Proof.
  intros Hok Hok' Hva Hv Ep Hs He He'. unfold stays, xlate in Hs. rewrite Ep, Hv, He, He' in Hs. cbn in Hs.
  destruct Hs as (q' & [= E _] & _). lia.
Qed.

Section NewRegion.
Context f m (Hc : coherent f m) (r : mm_region) (Hr : region_ok r) (Hlow : r_end r ≤ user_addr_max).
Context (Hres : r_reserved r = false) (Hfree : ∀ x, contains r x = true → f x = None).
Context (Hsp : spare m (r_haddr r) (r_size r) (r_arena_off r)).
Context m' (Hok' : machine_ok m') (Hk : kept_host m m').
Context (Hin : ∀ va, user_va va → in_range (r_gaddr r) (r_size r) va →
  maps_to m' va (r_haddr r + (va - r_gaddr r)) (linux_mprot_to_hv_mflag (r_prot r))).
Context (Hst : ∀ va, user_va va → ¬ in_range (r_gaddr r) (r_size r) va → stays m m' va).
Context (Hpte : ∀ va, user_va va → ¬ in_range (r_gaddr r) (r_size r) va → pte (m_pt m') va = pte (m_pt m) va).
Context (Hbo : books (λ i, ∃ va, user_va va ∧ in_range (r_gaddr r) (r_size r) va ∧ points (m_pt m') i va = true) m m').

Lemma new_low va : contains r va = true → 0 < va < user_addr_max.
Proof. intros Hcv%contains_range. unfold in_range, r_end in *. destruct Hr as [[_ ?] _ _]. lia. Qed.

Lemma not_new va : contains r va = false → ¬ in_range (r_gaddr r) (r_size r) va.
Proof. intros Hcv Hi%contains_range. congruence. Qed.

Lemma new_agree va : user_va va → va < user_addr_max → agrees (with_region r f) m' va.
Proof.
  intros Hva Hl. unfold agrees, with_region. destruct (contains r va) eqn:E.
  - cbn [view_at v_reserved v_host v_prot]. rewrite Hres. apply Hin; [done|]. by apply contains_range.
  - specialize (Hst va Hva (not_new va E)). pose proof (co_agree _ _ Hc va Hva Hl) as Ha. unfold agrees in Ha.
    destruct (f va) as [v|]; [destruct (v_reserved v)|].
    + unfold stays in Hst. by rewrite Ha in Hst.
    + by eapply maps_to_stays.
    + unfold stays in Hst. by rewrite Ha in Hst.
Qed.

(** A page of the new region: its block is in none of the old ones' memory. *)
Lemma new_block va : user_va va → contains r va = true → pte_valid (pte (m_pt m') va) = true →
  ∃ e, s2_map (m_s2 m') !! granule_of (pte_ipa (pte (m_pt m') va)) = Some e ∧
    s2_haddr e = granule_of (v_host (view_at r va)).
Proof.
  intros Hva Hcv Hv. destruct (xlate_valid m' va Hok' Hva Hv) as (e & He & Hg & Hx). exists e. split; [done|].
  destruct (Hin va Hva) as (q & Hx' & _); [by apply contains_range|]. rewrite Hx in Hx'. injection Hx' as Hh _ _.
  cbn [view_at v_host]. rewrite <- Hh. symmetry. apply granule_of_in; [done|apply granule_off_range].
Qed.

Lemma new_fresh va b e : user_va va → contains r va = true → s2_map (m_s2 m) !! b = Some e →
  granule_of (v_host (view_at r va)) ≠ s2_haddr e.
Proof.
  intros Hva Hcv He. destruct (view_page r va Hr Hva Hcv) as (d & Hd & _ & _ & -> & _). by eapply sa_free.
Qed.

Lemma new_kernel va vb : user_va va → user_va vb → va < user_addr_max ≤ vb →
  pte_valid (pte (m_pt m') va) = true → pte_valid (pte (m_pt m') vb) = true →
  granule_of (pte_ipa (pte (m_pt m') va)) ≠ granule_of (pte_ipa (pte (m_pt m') vb)).
Proof.
  intros Hva Hvb Hl Hv Hw. assert (contains r vb = false) as Hnb.
  { apply not_true_iff_false. intros Hcb%new_low. lia. }
  pose proof (Hpte vb Hvb (not_new vb Hnb)) as Eb. destruct (contains r va) eqn:E.
  - destruct (new_block va Hva E Hv) as (e & He & Hh). intros Eg. rewrite Eg in He. rewrite Eb in He, Hw.
    destruct (mo_desc _ (co_ok _ _ Hc) vb Hvb Hw) as [e0 He0].
    pose proof (stays_haddr m m' vb e0 e (co_ok _ _ Hc) Hok' Hvb Hw Eb (Hst vb Hvb (not_new vb Hnb)) He0 He) as Es.
    apply (new_fresh va _ e0 Hva E He0). congruence.
  - rewrite (Hpte va Hva (not_new va E)), Eb in *. by apply (co_kernel _ _ Hc).
Qed.

Lemma new_used b e : s2_map (m_s2 m') !! b = Some e → chunk_index (m_pt m') !! b = None → users (m_pt m') b ≠ 0%nat.
Proof.
  intros He Hn. assert (∃ va, user_va va ∧ points (m_pt m') b va = true) as (va & Hva & Hpt).
  2: { pose proof (users_pos (m_pt m') b va Hva Hpt). lia. }
  destruct (s2_map (m_s2 m) !! b) as [e0|] eqn:E0.
  - destruct (chunk_index (m_pt m) !! b) as [h|] eqn:Ec; [by apply (bo_index _ _ _ Hbo) in Ec; congruence|].
    destruct (count_pos _ _ (co_used _ _ Hc b e0 E0 Ec)) as (va & Hva%elem_of_all_vas & Hpt). exists va. split; [done|].
    pose proof Hpt as [Hv _]%points_true. unfold points in *. rewrite Hpte; [done|done|]. apply not_new.
    apply not_true_iff_false. intros Hcv. rewrite (invalid_page f m va Hc Hva) in Hv; [done|by apply new_low|auto].
  - destruct (bo_new _ _ _ Hbo b e He E0) as [?|(va & Hva & _ & Hpt)]; [done|]. by exists va.
Qed.

Lemma new_mem va v : user_va va → with_region r f va = Some v → v_reserved v = false → held m' (v_host v) (v_off v).
Proof.
  intros Hva. unfold with_region. destruct (contains r va) eqn:E.
  - intros [= <-] _. destruct (view_page r va Hr Hva E) as (d & Hd & Hdp & _ & -> & ->).
    eapply held_kept; [done|done|]. by apply Hsp.
  - intros Hf Hv. eapply held_kept; [done|done|]. by apply (co_mem _ _ Hc va).
Qed.

Lemma mapped_coherent : coherent (with_region r f) m'.
Proof.
  split; [exact Hok'| |exact new_agree|exact new_kernel|exact new_used|exact new_mem| |].
  - intros va v Hva. unfold with_region. destruct (contains r va) eqn:E; [intros _; by apply new_low|].
    by apply (co_low _ _ Hc).
  - assert (∀ va vb v, user_va va → user_va vb → contains r va = true → f vb = Some v → v_reserved v = false →
      granule_of (v_host (view_at r va)) ≠ granule_of (v_host v)) as Hmix.
    { intros va vb v Hva Hvb Hcv Hf Hv. destruct (shown_page f m vb v Hc Hvb Hf Hv) as (_ & e & He & <-).
      by eapply new_fresh. }
    intros va vb v v' Hva Hvb. unfold with_region.
    destruct (contains r va) eqn:Ea, (contains r vb) eqn:Eb.
    + intros [= <-] [= <-] _ _ _. cbn [view_at v_host]. lia.
    + intros [= <-] Hf _ Hv Hg. by destruct (Hmix va vb v').
    + intros Hf [= <-] Hv _ Hg. by destruct (Hmix vb va v).
    + by apply (co_linear _ _ Hc).
  - intros i h va v Hi Hva Hf Hv. destruct (bo_chunk _ _ _ Hbo i h Hi) as [Hold|Hnew].
    + unfold with_region in Hf. destruct (contains r va) eqn:E; [|by apply (co_chunk _ _ Hc i h va v)].
      injection Hf as <-. pose proof (mo_base _ (co_ok _ _ Hc)) as Hb.
      destruct (ch_index _ (mo_chunks _ Hb) _ _ Hold) as (c & Hcin & Hci & <-).
      pose proof (mo_chunk_s2 _ Hb c Hcin) as (e & He & ->)%fmap_Some. by eapply new_fresh.
    + intros <-. assert (held m (v_host v) (v_off v)) as [_ Hg _ _]; [|done].
      unfold with_region in Hf. destruct (contains r va) eqn:E; [|by apply (co_mem _ _ Hc va)].
      injection Hf as <-. destruct (view_page r va Hr Hva E) as (d & Hd & Hdp & _ & -> & ->). by apply Hsp.
Qed.
End NewRegion.

Lemma hv_flags_range p : 0 ≤ linux_mprot_to_hv_mflag p < 8.
Proof.
  unfold linux_mprot_to_hv_mflag.
  by destruct (has p LINUX_PROT_READ), (has p LINUX_PROT_WRITE), (has p LINUX_PROT_EXEC).
Qed.

Lemma map_region_spec f m r :
  coherent f m → region_ok r → r_end r ≤ user_addr_max → r_reserved r = false →
  (∀ x, contains r x = true → f x = None) → spare m (r_haddr r) (r_size r) (r_arena_off r) →
  room (3 * pages (r_size r)) m →
  match vmm_mmap (r_gaddr r) (r_size r) (linux_mprot_to_hv_mflag (r_prot r)) (r_haddr r) m with
  | Ret m' => coherent (with_region r f) m' ∧ kept_host m m' ∧
      arena_backing_fd (m_arena m') = arena_backing_fd (m_arena m) ∧
      ∀ j, 0 ≤ j → room (3 * pages (r_size r) + j) m → room j m'
  | Stop s => s = NoMemory
  end.
Proof.
  intros Hc Hr Hlow Hres Hfree Hsp Hroom. pose proof Hr as [[Hg Hg0] [Hs Hs0] _].
  assert (user_range (r_gaddr r) (r_size r)) as Hu.
  { unfold r_end, user_addr_max in Hlow. split; [exact Hg|]. split; [exact Hs|]. lia. }
  assert (page_aligned (r_haddr r)) as Hh.
  { pose proof (sa_gran _ _ _ _ Hsp) as Hgr. unfold gran, page_aligned in *. change STAGE2_GRANULE with 16384 in *.
    change PAGE with 4096. lia_mod. }
  pose proof (vmm_mmap_spec (r_gaddr r) (r_size r) (linux_mprot_to_hv_mflag (r_prot r)) (r_haddr r) m
    (co_ok _ _ Hc) Hu Hh (hv_flags_range _) Hroom) as Hm.
  ospecialize (Hm _).
  { intros d Hd. apply elem_of_counter in Hd as [Hdm Hd]; [|done|lia..]. by apply (sa_held _ _ _ _ Hsp). }
  destruct (vmm_mmap _ _ _ _ m) as [m'|s]; [|done].
  destruct Hm as (Hok' & Hk & Hrm & Hin & Hst & Hpte & Hbo). split; [|split; [done|split; [apply Hbo|done]]].
  by apply (mapped_coherent f m Hc r Hr Hlow Hres Hfree Hsp).
Qed.

(** Removing regions does not touch memory set aside for another. *)
Lemma spare_shrunk f g m m' p n off :
  coherent f m → spare m p n off → shrunk f g m m' → spare m' p n off.
Proof.
  intros Hc [Hg Hn Hh Hf] Hk. assert (∀ d, 0 ≤ d < n → ¬ owned f (granule_of (p + d)) ∧ ¬ owned f (p + d)) as Hno.
  { intros d Hd. assert (∀ y, granule_of y = granule_of (p + d) → ¬ owned f y) as Hy.
    { intros y Ey (va & v & Hva & Hfv & Hv & Hx).
      destruct (shown_page f m va v Hc Hva Hfv Hv) as (_ & e & He & Hhe). apply (Hf _ e d He Hd).
      rewrite Hhe, <- Ey. pose proof (he_page _ _ _ (co_mem _ _ Hc va v Hva Hfv Hv)) as Hpg.
      destruct (granule_of_spec y) as [G1 G2], (granule_of_spec (v_host v)) as [G3 G4]. unfold gran, page_aligned in *.
      change STAGE2_GRANULE with 16384 in *. change PAGE with 4096 in *. lia_mod. }
    split; apply Hy; [|done]. apply granule_of_gran, granule_of_spec. }
  split; [done|done| |].
  - intros d Hd Hdp. destruct (Hh d Hd Hdp) as [M1 M2 M3 M4].
    assert (∀ x, 0 ≤ x < PAGE → ¬ owned f (p + d + x)) as Hnox.
    { intros x Hx. rewrite <- Z.add_assoc. apply Hno. unfold page_aligned in *. change PAGE with 4096 in *. lia_mod. } split; [done|..].
    + rewrite (sk_back _ _ _ _ Hk); [done|]. by apply Hno.
    + intros x Hx. rewrite (sk_back _ _ _ _ Hk) by auto. auto.
    + intros x Hx. specialize (M4 x Hx). rewrite (sk_back _ _ _ _ Hk), (sk_fd _ _ _ _ Hk) by auto.
      destruct ((if off <? 0 then -1 else off + d) <? 0); [done|]. destruct M4 as [q Hq]. exists q. apply (sk_maps _ _ _ _ Hk); auto.
  - intros b e d (e0 & He0 & ->)%(sk_s2 _ _ _ _ Hk) Hd. by apply (Hf b e0).
Qed.

(** ** New memory *)

(** What the host had mapped is where it was, and what the arena or nobody
    answers for holds what it held. *)
Definition keeps m (h : H) : Prop := ∀ x, h_back (m_host m) x ≠ None →
  h_back h x = h_back (m_host m) x ∧ (settled m x → h_mem h x = h_mem (m_host m) x).

Lemma coherent_keeps f m a h :
  coherent f m → arena_wf a h → keeps m h → arena_backing_fd a = arena_backing_fd (m_arena m) →
  (∀ o x q, maps (arena_spans (m_arena m)) o x q → maps (arena_spans a) o x q) → coherent f (with_mem a h m).
Proof.
  intros Hc Hwf Hk Hfd Hm. apply coherent_mem; [done|done|..].
  - intros i e He. rewrite (proj1 (Hk _ (mo_backed _ (mo_base _ (co_ok _ _ Hc)) i e He))).
    by apply (mo_backed _ (mo_base _ (co_ok _ _ Hc)) i).
  - intros va v Hva Hf Hv. destruct (co_mem _ _ Hc va v Hva Hf Hv) as [M1 M2 M3 M4].
    split; cbn [m_host m_arena with_mem]; [done|..].
    + by rewrite (proj1 (Hk _ M2)).
    + intros d Hd. rewrite (proj1 (Hk _ (M3 d Hd))). auto.
    + intros d Hd. rewrite (proj1 (Hk _ (M3 d Hd))), Hfd. specialize (M4 d Hd).
      destruct (v_off v <? 0); [done|]. destruct M4 as [q Hq]. exists q. auto.
Qed.

(** Whole granules [p, p + n) that were not there are no block's. *)
Lemma fresh_blocks m (p n : Z) b e d :
  machine_ok m → gran p → (∀ x, p ≤ x < p + n → h_back (m_host m) x = None) → s2_map (m_s2 m) !! b = Some e →
  0 ≤ d < n → granule_of (p + d) ≠ s2_haddr e.
Proof.
  intros Hok Hg Hn He Hd E. apply (mo_backed _ (mo_base _ Hok) b e He). rewrite <- E. apply Hn.
  destruct (granule_of_spec (p + d)) as [Hg' Hx]. unfold gran in *. change STAGE2_GRANULE with 16384 in *. lia_mod.
Qed.

Lemma alloc_spare f m n :
  coherent f m → page_aligned n → 0 < n ≤ 2^40 → arena_brk (m_arena m) ≤ 2^61 →
  match arena_alloc n (m_arena m) (m_host m) with
  | Ret (p, off, a, h) => coherent f (with_mem a h m) ∧ spare (with_mem a h m) p n off ∧ 0 ≤ off ∧ 0 < p ∧
      keeps m h ∧ arena_backing_fd a = arena_backing_fd (m_arena m) ∧
      arena_brk a = off + roundup n ARENA_GRANULE ∧ off = arena_brk (m_arena m) ∧
      (∀ d, 0 ≤ d < n → h_mem h (p + d) = 0) ∧
      (∀ d, 0 ≤ d < roundup n ARENA_GRANULE → h_back (m_host m) (p + d) = None ∧
         ∃ q, maps (arena_spans a) (off + d) (p + d) q) ∧
      (∀ o x q, maps (arena_spans (m_arena m)) o x q → maps (arena_spans a) o x q)
  | Stop s => s = NoMemory
  end.
Proof.
  intros Hc Hp Hn Hbrk. pose proof (mo_arena _ (mo_base _ (co_ok _ _ Hc))) as Hwf.
  pose proof (arena_alloc_wf n _ _ Hwf Hn Hbrk) as Ha. cbv zeta in Ha.
  pose proof (arena_alloc_fd n (m_arena m) (m_host m)) as Hfd.
  destruct (roundup_spec n ARENA_GRANULE) as [Hr1 Hr2]; [done|lia|unfold ARENA_GRANULE; lia|].
  set (N := roundup n ARENA_GRANULE) in *. unfold ARENA_GRANULE in Hr1, Hr2.
  destruct (arena_alloc n _ _) as [[[[p off] a] h]|s]; [|done]. specialize (Hfd _ _ _ _ Hwf eq_refl).
  destruct Ha as (Hwf' & Hoff & Hl & Hbrk' & [N1 N2 N3 N4 N5 N6]).
  assert (keeps m h) as Hk by (intros x Hx; auto).
  assert (∀ o x q, maps (arena_spans (m_arena m)) o x q → maps (arena_spans a) o x q) as Hold
    by (intros o x q Hx; rewrite Hl; apply maps_app; by left).
  assert (∀ d, 0 ≤ d < N → maps (arena_spans a) (off + d) (p + d) false) as Hnew.
  { intros d Hd. rewrite Hl. apply maps_app. right. exists (mk_span p N off false). unfold sp_end. cbn.
    split; [left|]. lia. }
  assert (gran p) as Hg.
  { pose proof (wf_spans _ _ Hwf') as Hs. rewrite Hl, Forall_app, Forall_singleton in Hs.
    destruct Hs as [_ (_ & _ & _ & _ & Hal & _)]. exact Hal. }
  pose proof (wf_brk _ _ Hwf) as Hb0.
  split; [by apply coherent_keeps|]. split; [|repeat split; auto; lia || (intros d Hd; apply N4; lia) || eauto].
  split; [done|done| |].
  - intros d Hd Hdp. rewrite (proj2 (Z.ltb_ge off 0)) by lia.
    split; cbn [m_host m_arena with_mem].
    + unfold gran, page_aligned in *. change STAGE2_GRANULE with 16384 in *. change PAGE with 4096 in *. lia_mod.
    + destruct (granule_of_spec (p + d)) as [Hg' Hx]. replace (granule_of (p + d)) with (p + (granule_of (p + d) - p)) by lia.
      apply N3. unfold gran in *. change STAGE2_GRANULE with 16384 in *. lia_mod.
    + intros x Hx. rewrite <- Z.add_assoc. apply N3. unfold page_aligned in *. change PAGE with 4096 in *. lia_mod.
    + intros x Hx. rewrite (proj2 (Z.ltb_ge _ 0)) by lia. exists false. rewrite <- !Z.add_assoc. apply Hnew.
      unfold page_aligned in *. change PAGE with 4096 in *. lia_mod.
  - intros b e d He Hd. apply (fresh_blocks m p N b e d (co_ok _ _ Hc) Hg); [|done|lia].
    intros x Hx. replace x with (p + (x - p)) by lia. apply N2. lia.
Qed.
End Mapping.

(** * Mapping as a call *)

Section Mapper.
Context {H V B : Type} `{!HostOps H, !HostIO H, HL : !HostLaws H, HIO : !HostIOLaws H, !HvOps V, HV : !HvLaws V}.
Context (counter0 : Z).
Implicit Type m : machine H V.
Implicit Type w : world H V B.

Abbreviation shown w := (look (areas (w_mm w))).

Lemma keeps_quiet m h : quiet (arena_backing_fd (m_arena m)) (m_host m) h → keeps m h.
Proof. intros [] x Hx. auto. Qed.

Lemma new_fd_other fd (h : H) d h' : h_open h fd = true → new_fd h d h' → quiet fd h h' ∧ d ≠ fd.
Proof.
  intros Ho Hn. split; [by apply quiet_more, new_fd_more with d|]. destruct Hn as (_ & Hc & _). congruence.
Qed.

Lemma reopen_spec afd fd (h : H) :
  h_open h afd = true → quiet afd h (reopen fd h).2 ∧ ∀ d, (reopen fd h).1 = Some d → d ≠ afd ∧ 0 ≤ d.
Proof.
  intros Ho. unfold reopen. destruct (h_getpath h fd) as [path|]; [|by split; [apply quiet_refl|]].
  destruct (h_fdid h fd) as [i|]; [|by split; [apply quiet_refl|]].
  destruct (h_openrw h path) as [[cand|] h1] eqn:E; cbn.
  - apply openrw_some in E. pose proof E as (E0 & _). destruct (new_fd_other afd h cand h1 Ho E) as [Hq Hne].
    assert (quiet afd h (h_close h1 cand)) as Hq' by (eapply quiet_trans; [done|by apply quiet_close]).
    destruct (h_fdid h1 cand) as [i'|]; [|by split].
    destruct (bool_decide (i = i')); cbn; [|by split]. split; [done|]. by intros d [= <-].
  - apply openrw_none in E. split; [by apply quiet_more, host_eq_more|done].
Qed.

(** A shared mapping of a file that is not the arena's. *)
Lemma shared_spare f m n fd off p h :
  coherent f m → page_aligned n → 0 < n → fd ≠ arena_backing_fd (m_arena m) →
  h_mmap (m_host m) 0 n (Shared fd off) = (Some p, h) →
  coherent f (with_mem (m_arena m) h m) ∧ spare (with_mem (m_arena m) h m) p n (-1) ∧ 0 < p ∧ keeps m h ∧
  (∀ d, 0 ≤ d < n → h_back h (p + d) = Some (Shared fd (off + d))).
Proof.
  intros Hc Hnp Hn Hfd Hm. pose proof (mo_arena _ (mo_base _ (co_ok _ _ Hc))) as Hwf.
  destruct (mmap_shared _ _ _ _ _ _ _ Hm Hn) as (N & HN & HNm & Hp0 & Hp & Hfree & Hb & Hmem & Hf & Ho & Hs).
  assert (keeps m h) as Hk.
  { intros x Hx. split; [|auto]. rewrite Hb. destruct (Host.in_range p N x) eqn:E; [|done].
    unfold Host.in_range in E. bool_to_prop. by rewrite Hfree in Hx by lia. }
  assert (∀ d, 0 ≤ d < N → h_back h (p + d) = Some (Shared fd (off + d))) as Hback.
  { intros d Hd. rewrite Hb. unfold Host.in_range. rewrite (proj2 (Z.leb_le _ _)), (proj2 (Z.ltb_lt _ _)) by lia. cbn.
    do 3 f_equal. lia. }
  assert (gran p) as Hg by exact Hp.
  split; [|split; [|split; [done|split; [done|intros d Hd; apply Hback; lia]]]].
  - apply coherent_keeps; auto. destruct Hwf as [W1 W2 W3 W4 W5 W6 W7 W8 W9 W10 W11 W12].
    split; rewrite ?Ho, ?Hs; auto; [intros o Hbo; rewrite Hf; auto|]. eapply spans_ok_back; [|exact W9]. intros x Hx. by apply Hk.
  - split; [done|done| |].
    + intros d Hd Hdp. cbn [Z.ltb Z.compare]. split; cbn [m_host m_arena with_mem].
      * unfold gran, page_aligned in *. change STAGE2_GRANULE with 16384 in *. change PAGE with 4096 in *. lia_mod.
      * destruct (granule_of_spec (p + d)) as [Hg' Hx]. replace (granule_of (p + d)) with (p + (granule_of (p + d) - p)) by lia.
        rewrite Hback; [done|]. unfold gran in *. change STAGE2_GRANULE with 16384 in *. lia_mod.
      * intros x Hx. rewrite <- Z.add_assoc, Hback; [done|]. unfold page_aligned in *. change PAGE with 4096 in *. lia_mod.
      * intros x Hx. rewrite <- Z.add_assoc, Hback; [by apply Z.eqb_neq|]. unfold page_aligned in *. change PAGE with 4096 in *. lia_mod.
    + intros b e d He Hd. apply (fresh_blocks m p N b e d (co_ok _ _ Hc) Hg Hfree He). lia.
Qed.

(** ** A private copy of a file *)

Lemma held_back m m' h o :
  (∀ x, h_back (m_host m') x = h_back (m_host m) x) → m_arena m' = m_arena m → held m h o → held m' h o.
Proof. intros Hb Ha [M1 M2 M3 M4]. split; rewrite ?Hb; auto; intros d Hd; rewrite ?Hb, ?Ha; auto. by apply M4. Qed.

Lemma spare_back m m' p n off :
  (∀ x, h_back (m_host m') x = h_back (m_host m) x) → m_arena m' = m_arena m → m_s2 m' = m_s2 m →
  spare m p n off → spare m' p n off.
Proof.
  intros Hb Ha Hs [S1 S2 S3 S4]. split; auto; [|rewrite Hs; auto]. intros d Hd Hdp. eapply held_back; [done|done|auto].
Qed.

(** Storing into arena memory changes no file and no other byte. *)
Lemma stored_private a (h : H) p n v h' :
  arena_wf a h → stored h p n v h' → (∀ d, 0 ≤ d < n → ∃ o q, maps (arena_spans a) o (p + d) q) →
  arena_wf a h' ∧
  (∀ x, h_back h x ≠ None → h_mem h' x = if Host.in_range p n x then v (x - p) else h_mem h x).
Proof.
  intros Hwf [S1 S2 S3 S4 S5] Hm. assert (∀ b, p ≤ b < p + n → ∃ o, h_back h b = Some (Private (arena_backing_fd a) o)) as Hp.
  { intros b Hb. destruct (Hm (b - p)) as (o & q & Hq); [lia|]. replace (p + (b - p)) with b in Hq by lia. exists o.
    by apply (maps_backed _ _ _ _ _ _ (wf_spans _ _ Hwf) Hq). }
  split.
  - destruct Hwf as [W1 W2 W3 W4 W5 W6 W7 W8 W9 W10 W11 W12]. split; rewrite ?S4, ?S5; auto.
    + intros o Ho. rewrite S3; [auto|]. intros b Hb. destruct (Hp b Hb) as [o' ->]. done.
    + eapply spans_ok_back; [|exact W9]. intros x _. apply S1.
  - intros x Hx. apply S2; [done|]. intros b Hb _ (fd & o & Hbo & _). destruct (Hp b Hb) as [o' E]. congruence.
Qed.

(** The memory of a new mapping after a part of it was read from a file. *)
Lemma read_spare f m p n off a h r v h2 :
  coherent f m → coherent f (with_mem a h m) → spare (with_mem a h m) p n off → 0 ≤ off → keeps m h →
  arena_backing_fd a = arena_backing_fd (m_arena m) →
  (∀ o x q, maps (arena_spans (m_arena m)) o x q → maps (arena_spans a) o x q) →
  (∀ d, 0 ≤ d < n → h_back (m_host m) (p + d) = None ∧ ∃ q, maps (arena_spans a) (off + d) (p + d) q) →
  0 ≤ r ≤ n → stored h p r v h2 →
  coherent f (with_mem a h2 m) ∧ spare (with_mem a h2 m) p n off ∧ keeps m h2 ∧
  (∀ d, 0 ≤ d < n → h_mem h2 (p + d) = if d <? r then v d else h_mem h (p + d)).
Proof.
  intros Hc Hc1 Hsp Hoff Hk Hfd Hold Hnew Hr Hst.
  destruct (stored_private a h p r v h2) as [Hwf Hmem]; [apply (mo_arena _ (mo_base _ (co_ok _ _ Hc1)))|done| |].
  { intros d Hd. destruct (Hnew d) as [_ [q Hq]]; [lia|]. eauto. }
  pose proof (st_back _ _ _ _ _ Hst) as Hb.
  assert (keeps m h2) as Hk2.
  { intros x Hx. destruct (Hk x Hx) as [E1 E2]. rewrite Hb. split; [done|]. intros Hset. rewrite Hmem by congruence.
    unfold Host.in_range. destruct ((p <=? x) && (x <? p + r)) eqn:E; [|auto]. bool_to_prop.
    destruct (Hnew (x - p)) as [E0 _]; [lia|]. replace (p + (x - p)) with x in E0 by lia. done. }
  split; [by apply coherent_keeps|]. split; [by apply (spare_back (with_mem a h m))|]. split; [done|].
  intros d Hd. destruct (Hnew d Hd) as [_ [q Hq]].
  pose proof (maps_backed _ _ _ _ _ _ (wf_spans _ _ Hwf) Hq) as Hbk. rewrite Hb in Hbk.
  rewrite Hmem by congruence. unfold Host.in_range. rewrite (proj2 (Z.leb_le p (p + d))) by lia. cbn [andb].
  replace (p + d - p) with d by lia. destruct (d <? r) eqn:E; bool_to_prop.
  - by rewrite (proj2 (Z.ltb_lt _ _)) by lia.
  - by rewrite (proj2 (Z.ltb_ge _ _)) by lia.
Qed.

(** ... and when nothing could be read and it is given back. *)
Lemma dropped_keeps f m p N off a h a2 h2 :
  coherent f m → keeps m h → arena_backing_fd a = arena_backing_fd (m_arena m) →
  (∀ o x q, maps (arena_spans (m_arena m)) o x q → maps (arena_spans a) o x q) → off = arena_brk (m_arena m) →
  (∀ d, 0 ≤ d < N → h_back (m_host m) (p + d) = None) → freed a h off N p a2 h2 →
  coherent f (with_mem a2 h2 m) ∧ keeps m h2.
Proof.
  intros Hc Hk Hfd Hold -> Hnew [F1 F2 F3 F4 F5 F6].
  assert (∀ x, h_back (m_host m) x ≠ None → Host.in_range p N x = false) as Hout.
  { intros x Hx. unfold Host.in_range. destruct (_ && _) eqn:E; [|done]. bool_to_prop. destruct Hx.
    replace x with (p + (x - p)) by lia. apply Hnew. lia. }
  assert (∀ o x q, maps (arena_spans (m_arena m)) o x q → o < arena_brk (m_arena m)) as Hlow.
  { intros o x q (s & Hs & Ho & _). pose proof (wf_below _ _ (mo_arena _ (mo_base _ (co_ok _ _ Hc)))) as Hb.
    rewrite Forall_forall in Hb. specialize (Hb s Hs). unfold sp_end in *. lia. }
  assert (keeps m h2) as Hk2.
  { intros x Hx. destruct (Hk x Hx) as [E1 E2]. split; [by rewrite F5, Hout, E1|]. intros Hset. rewrite <- E2 by done.
    apply F6; [by rewrite F5, Hout, E1|]. intros d Hd. rewrite E1, Hfd. destruct Hset as [Hs|(o & q & Hox)].
    - split; intros E; rewrite E in Hs; cbn in Hs; by rewrite Z.eqb_refl in Hs.
    - rewrite (maps_backed _ _ _ _ _ _ (wf_spans _ _ (mo_arena _ (mo_base _ (co_ok _ _ Hc)))) Hox).
      split; [|done]. intros [= ->]. apply Hlow in Hox. lia. }
  split; [|done]. apply coherent_keeps; auto; [congruence|]. intros o x q Hox. apply F4. split; [auto|].
  apply Hlow in Hox. lia.
Qed.

(** ** The memory of a mapping *)

(** The machine after memory for [n] more bytes was looked for. *)
Record made w (n : Z) m' : Prop := {
  ma_co : coherent (shown w) m';
  ma_keeps : keeps (w_m w) (m_host m');
  ma_fd : arena_backing_fd (m_arena m') = arena_backing_fd (m_arena (w_m w));
  ma_pt : m_pt m' = m_pt (w_m w);
  ma_s2 : m_s2 m' = m_s2 (w_m w);
  ma_brk : arena_brk (m_arena (w_m w)) ≤ arena_brk (m_arena m') ≤ arena_brk (m_arena (w_m w)) + roundup n ARENA_GRANULE;
}.

(** A mapping that is to be the file itself: shared, of whole pages of the file,
    not to be executed. *)
Definition asks_file (prot flags offset : Z) : bool :=
  has flags LINUX_MAP_SHARED && (offset mod GUEST_MMAP_GRANULE =? 0) && negb (has prot LINUX_PROT_EXEC).

(** The descriptor is open for writing. *)
Definition fd_writes (h : H) (fd : Z) : bool :=
  match h_getfl h fd with
  | Some a => (Z.land a O_ACCMODE =? O_RDWR) || (Z.land a O_ACCMODE =? O_WRONLY)
  | None => false
  end.

(** [d] is what opening the file of [fd] by its name for writing gives, and it
    is the same file. *)
Definition reopened_as (h : H) (fd d : Z) : Prop :=
  ∃ path i h1, h_getpath h fd = Some path ∧ h_fdid h fd = Some i ∧ h_openrw h path = (Some d, h1) ∧ h_fdid h1 d = Some i.

(** The bytes a new mapping shows. Without a file, zeros. The file itself,
    through the descriptor given or one opened for writing in its place, just
    when that is asked for and there is such a descriptor. Otherwise memory of
    the guest's own, with as much of the file as the host's read of it gave and
    zeros after. *)
Definition filled (h0 h : H) (prot flags fd offset p n off : Z) : Prop :=
  if fd <? 0 then ∀ d, 0 ≤ d < n → h_mem h (p + d) = 0
  else if off <? 0 then
    asks_file prot flags offset = true ∧
    ∃ mapfd, (if fd_writes h0 fd then mapfd = fd else reopened_as h0 fd mapfd) ∧
      ∀ d, 0 ≤ d < n → h_back h (p + d) = Some (Shared mapfd (offset + d))
  else
    (asks_file prot flags offset = true → fd_writes h0 fd = false ∧ ∀ d, ¬ reopened_as h0 fd d) ∧
    ∃ r h1 h2, h_pread h1 fd p n offset = (Some r, h2) ∧ 0 ≤ r ≤ n ∧
      (h_open h0 fd = true → ∀ d, 0 ≤ d < n → h_mem h (p + d) = if d <? r then h_file h0 fd (offset + d) else 0).

Definition mem_ok w (n prot flags fd offset : Z) (reserve : bool) (res : mem_result) m' : Prop :=
  match res with
  | MemError _ => 0 ≤ fd
  | MemOk p off owned =>
      (0 ≤ owned → owned ≠ arena_backing_fd (m_arena (w_m w))) ∧
      if reserve then p = 0 ∧ off = -1
      else spare m' p n off ∧ -1 ≤ off ≤ 2^62 - n ∧ filled (w_host w) (m_host m') prot flags fd offset p n off
  end.

Lemma made_quiet w n h :
  world_ok w → 0 < n ≤ 2^40 → quiet (arena_backing_fd (m_arena (w_m w))) (w_host w) h →
  made w n (with_mem (m_arena (w_m w)) h (w_m w)).
Proof.
  intros Hw Hn Hq. destruct (roundup_spec n ARENA_GRANULE) as [Hr _]; [done|lia|unfold ARENA_GRANULE; lia|].
  split; try done; [by apply coherent_quiet; [apply Hw|]|by apply keeps_quiet|cbn; lia].
Qed.

Lemma made_keeps w h m' :
  quiet (arena_backing_fd (m_arena (w_m w))) (w_host w) h →
  keeps (with_mem (m_arena (w_m w)) h (w_m w)) (m_host m') → keeps (w_m w) (m_host m').
Proof.
  intros [Q1 Q2 _ _ _] Hk x Hx. unfold w_host in *. destruct (Hk x) as [E1 E2]; cbn [m_host with_mem] in *; [by rewrite Q1|].
  rewrite E1, Q1. split; [done|]. intros Hset. rewrite E2; [by apply Q2|].
  unfold settled in *. cbn [m_host m_arena with_mem]. by rewrite Q1.
Qed.

(** A mapping that is the file. *)
Lemma map_shared_spec w n prot flags fd offset mapfd (reopened : option Z) h :
  world_ok w → page_aligned n → 0 < n ≤ 2^31 → 0 ≤ fd → asks_file prot flags offset = true →
  (if fd_writes (w_host w) fd then mapfd = fd else reopened_as (w_host w) fd mapfd) →
  quiet (arena_backing_fd (m_arena (w_m w))) (w_host w) h → mapfd ≠ arena_backing_fd (m_arena (w_m w)) →
  (∀ d, reopened = Some d → d ≠ arena_backing_fd (m_arena (w_m w))) →
  let w0 := set_host h w in
  match h_mmap (w_host w0) 0 n (Shared mapfd offset) with
  | (None, h) =>
      let h := match reopened with Some d => h_close h d | None => h end in
      made w n (w_m (set_host h w0))
  | (Some ptr, h) =>
      let '(owned, h) := match reopened with Some d => (Some d, h) | None => h_dup h fd end in
      made w n (w_m (set_host h w0)) ∧
      mem_ok w n prot flags fd offset false (MemOk ptr (-1) (default (-1) owned)) (w_m (set_host h w0))
  end.
Proof.
  intros Hw Hnp Hn Hfd Hask Hmap Hq Hmf Hre w0. set (m0 := with_mem (m_arena (w_m w)) h (w_m w)).
  assert (∀ g, w_m (set_host g w0) = with_mem (m_arena (w_m w)) g (w_m w)) as Ew by done.
  assert (coherent (shown w) m0) as Hc0 by (apply coherent_quiet; [apply Hw|done]).
  assert (h_open (m_host m0) (arena_backing_fd (m_arena (w_m w))) = true) as Ho0
    by apply (wf_open _ _ (mo_arena _ (mo_base _ (co_ok _ _ Hc0)))).
  change (w_host w0) with (m_host m0).
  destruct (h_mmap (m_host m0) 0 n (Shared mapfd offset)) as [[p|] h1] eqn:Em.
  - destruct (shared_spare (shown w) m0 n mapfd offset p h1 Hc0 Hnp ltac:(lia) Hmf Em) as (Hc1 & Hsp & _ & Hk & Hb).
    assert (∀ h2 (owned : option Z), quiet (arena_backing_fd (m_arena (w_m w))) h1 h2 →
      (∀ d, owned = Some d → d ≠ arena_backing_fd (m_arena (w_m w))) →
      made w n (w_m (set_host h2 w0)) ∧ mem_ok w n prot flags fd offset false (MemOk p (-1) (default (-1) owned)) (w_m (set_host h2 w0))) as Hdone.
    { intros h2 owned Hq2 Hown. rewrite Ew. destruct (made_quiet w n h Hw ltac:(lia) Hq) as [_ _ _ _ _ Hbrk].
      assert (keeps m0 h2) as Hk2.
      { intros x Hx. destruct (Hk x Hx) as [E1 E2]. rewrite (qu_back _ _ _ Hq2). split; [done|]. intros Hs.
        rewrite (qu_mem _ _ _ Hq2) by congruence. auto. }
      split.
      - split; try done; [exact (coherent_quiet _ h2 _ Hc1 Hq2)|exact (made_keeps w h (with_mem (m_arena (w_m w)) h2 (w_m w)) Hq Hk2)].
      - split; [|split; [|split; [lia|]]].
        + destruct owned as [d|]; cbn; [auto|lia].
        + eapply spare_back; [..|exact Hsp]; [apply Hq2|done|done].
        + unfold filled. rewrite (proj2 (Z.ltb_ge fd 0)) by lia. split; [done|]. exists mapfd. split; [done|]. intros d Hd. cbn [m_host with_mem].
          rewrite (qu_back _ _ _ Hq2). auto. }
    destruct reopened as [d|].
    + apply (Hdone h1 (Some d)); [apply quiet_refl|auto].
    + destruct (h_dup h1 fd) as [[d|] h2] eqn:Ed.
      * apply dup_some in Ed.
        assert (h_open h1 (arena_backing_fd (m_arena (w_m w))) = true) as Ho1
          by apply (wf_open _ _ (mo_arena _ (mo_base _ (co_ok _ _ Hc1)))).
        destruct (new_fd_other _ _ _ _ Ho1 Ed) as [Hq2 Hne]. apply (Hdone h2 (Some d)); [done|]. by intros ? [= <-].
      * apply dup_none in Ed. apply (Hdone h2 None); [|done]. by apply quiet_more, host_eq_more.
  - apply mmap_none in Em. cbv zeta. rewrite Ew. apply made_quiet; [done|lia|].
    eapply quiet_trans; [exact Hq|]. eapply quiet_trans; [by apply quiet_more, host_eq_more|].
    destruct reopened as [d|]; [apply quiet_close; auto|apply quiet_refl].
Qed.

(** A mapping that is arena memory, with a file's bytes read into it. *)
Lemma map_private_spec w n prot flags fd offset h :
  world_ok w → page_aligned n → 0 < n ≤ 2^31 → arena_brk (m_arena (w_m w)) ≤ 2^61 →
  quiet (arena_backing_fd (m_arena (w_m w))) (w_host w) h →
  (h_open (w_host w) fd = true → quiet fd (w_host w) h) →
  (0 ≤ fd → asks_file prot flags offset = true → fd_writes (w_host w) fd = false ∧ ∀ d, ¬ reopened_as (w_host w) fd d) →
  let w0 := set_host h w in
  match ('(ptr, off, a, h) ← arena_alloc n (m_arena (w_m w0)) (w_host w0);
    let w := set_memory_of a h w0 in
    if 0 <=? fd then
      match h_pread (w_host w) fd ptr n offset with
      | (None, h) =>
          let e := host_error counter0 h in
          '(a, h) ← arena_unmap ptr n (m_arena (w_m w)) h;
          '(a, h) ← arena_free off n a h;
          Ret (MemError (- e), set_memory_of a h w)
      | (Some _, h) => Ret (MemOk ptr off (-1), set_host h w)
      end
    else Ret (MemOk ptr off (-1), w)) with
  | Ret (res, w') => ∃ m', w' = set_machine m' w ∧ made w n m' ∧ mem_ok w n prot flags fd offset false res m'
  | Stop s => s = NoMemory
  end.
Proof.
  intros Hw Hnp Hn Hbrk Hq Hqf Hask w0. set (m0 := with_mem (m_arena (w_m w)) h (w_m w)).
  change (w_host w0) with (m_host m0). change (m_arena (w_m w0)) with (m_arena m0).
  assert (coherent (shown w) m0) as Hc0 by (apply coherent_quiet; [apply Hw|done]).
  pose proof (alloc_spare (shown w) m0 n Hc0 Hnp ltac:(lia) Hbrk) as Ha.
  pose proof (arena_alloc_files n (m_arena m0) (m_host m0)) as Hfiles.
  destruct (arena_alloc n (m_arena m0) (m_host m0)) as [[[[p off] a] h1]|s]; [|done].
  specialize (Hfiles _ _ _ _ (mo_arena _ (mo_base _ (co_ok _ _ Hc0))) ltac:(lia) Hbrk eq_refl).
  destruct Ha as (Hc1 & Hsp & Hoff0 & _ & Hk & Hfd & Hbrk' & Hoff & Hz & Hnew & Hold). cbn [mbind outcome_bind].
  destruct (roundup_spec n ARENA_GRANULE) as [HN _]; [done|lia|unfold ARENA_GRANULE; lia|].
  set (N := roundup n ARENA_GRANULE) in *. unfold ARENA_GRANULE in HN.
  assert (∀ a2 h2, arena_backing_fd a2 = arena_backing_fd (m_arena m0) → arena_brk a2 = off + N →
    coherent (shown w) (with_mem a2 h2 m0) → keeps m0 h2 → made w n (with_mem a2 h2 m0)) as Hmade.
  { intros a2 h2 Hfd2 Hb2 Hc2 Hk2. split; try done; [by apply (made_keeps w h)|].
    cbn [m_arena with_mem]. rewrite Hb2, Hoff. cbn. fold N. lia. }
  assert (-1 ≤ off ≤ 2^62 - n) as Hlim by (split; [lia|]; rewrite Hoff; change (m_arena m0) with (m_arena (w_m w)); lia).
  destruct (0 <=? fd) eqn:Efd; bool_to_prop.
  - change (w_host (set_memory_of a h1 w0)) with h1. change (m_arena (w_m (set_memory_of a h1 w0))) with a.
    destruct (h_pread h1 fd p n offset) as [[r|] h2] eqn:Er.
    + pose proof Er as [Hr Hst]%pread_some.
      destruct (read_spare (shown w) m0 p n off a h1 r (λ d, h_file h1 fd (offset + d)) h2 Hc0 Hc1 Hsp Hoff0 Hk Hfd Hold) as (Hc2 & Hsp2 & Hk2 & Hmem); [|done..|].
      { intros d Hd. apply Hnew. lia. }
      exists (with_mem a h2 m0). split; [done|]. split; [by apply Hmade|]. split; [lia|]. split; [done|]. split; [done|].
      unfold filled. rewrite (proj2 (Z.ltb_ge fd 0)), (proj2 (Z.ltb_ge off 0)) by lia. split; [auto|].
      exists r, h1, h2. split; [done|]. split; [lia|]. intros Hop d Hd. cbn [m_host with_mem]. rewrite Hmem by done.
      destruct (d <? r); [|by apply Hz]. rewrite Hfiles. by apply (qu_file _ _ _ (Hqf Hop)).
    + apply pread_none in Er.
      pose proof (mo_arena _ (mo_base _ (co_ok _ _ Hc1))) as Hwf1. cbn [m_arena m_host with_mem] in Hwf1.
      assert (arena_wf a h2) as Hwf2 by (eapply arena_wf_quiet; [done|by apply quiet_more, host_eq_more]).
      assert (aligned off) as Hao by (rewrite Hoff; apply (wf_brk_aligned _ _ (mo_arena _ (mo_base _ (co_ok _ _ Hc0))))).
      pose proof (arena_drop_spec a h2 off n p Hwf2 Hao ltac:(lia) (sa_gran _ _ _ _ Hsp)) as Hd. cbv zeta in Hd. fold N in Hd.
      specialize (Hd (λ d Hd, proj2 (Hnew d Hd))).
      destruct (arena_unmap p n a h2) as [[a3 h3]|s]; cbn [mbind outcome_bind] in Hd |- *; [|done].
      destruct (arena_free off n a3 h3) as [[a4 h4]|s]; cbn [mbind outcome_bind]; [|done].
      assert (keeps m0 h2) as Hk2.
      { destruct Er as (Eb & Em & _). intros x Hx. destruct (Hk x Hx) as [E1 E2]. rewrite Eb. split; [done|].
        intros Hs. rewrite Em by congruence. auto. }
      destruct (dropped_keeps (shown w) m0 p N off a h2 a4 h4 Hc0 Hk2 Hfd Hold Hoff) as [Hc4 Hk4]; [|done|].
      { intros d Hd'. by apply Hnew. }
      exists (with_mem a4 h4 m0). split; [done|]. split; [|done]. destruct Hd. apply Hmade; congruence || done.
  - exists (with_mem a h1 m0). split; [done|]. split; [by apply Hmade|]. split; [lia|]. split; [done|]. split; [done|].
    unfold filled. rewrite (proj2 (Z.ltb_lt fd 0)) by lia. intros d Hd. by apply Hz.
Qed.

Lemma reopen_is fd (h : H) d : (reopen fd h).1 = Some d ↔ reopened_as h fd d.
Proof.
  unfold reopen, reopened_as. split.
  - destruct (h_getpath h fd) as [path|]; [|done]. destruct (h_fdid h fd) as [i|]; [|done].
    destruct (h_openrw h path) as [[c|] h1] eqn:E; [|done]. destruct (h_fdid h1 c) as [i'|] eqn:E'; [|done].
    case_bool_decide; [|done]. intros [= <-]. subst i'. eauto 10.
  - intros (path & i & h1 & -> & -> & -> & ->). by rewrite bool_decide_true.
Qed.

Lemma map_memory_spec w n prot flags fd offset (reserve : bool) :
  world_ok w → page_aligned n → 0 < n ≤ 2^31 → arena_brk (m_arena (w_m w)) ≤ 2^61 →
  fd ≠ arena_backing_fd (m_arena (w_m w)) → (reserve = true → fd < 0) →
  match map_memory counter0 n prot flags fd offset reserve w with
  | Ret (res, w') => ∃ m', w' = set_machine m' w ∧ made w n m' ∧ mem_ok w n prot flags fd offset reserve res m'
  | Stop s => s = NoMemory
  end.
Proof.
  intros Hw Hnp Hn Hbrk Hfd Hres. unfold map_memory.
  set (writable := match _ with Some a => _ | None => false end).
  set (wants := (0 <=? fd) && has flags LINUX_MAP_SHARED && (Z.land offset (GUEST_MMAP_GRANULE - 1) =? 0) &&
    negb (has prot LINUX_PROT_EXEC)).
  assert (wants = (0 <=? fd) && asks_file prot flags offset) as Ew.
  { unfold wants, asks_file. change (GUEST_MMAP_GRANULE - 1) with (PAGE - 1). rewrite land_page. change GUEST_MMAP_GRANULE with PAGE. by rewrite !andb_assoc. }
  assert (0 ≤ fd → writable = fd_writes (w_host w) fd) as Ewr by (intros Hf; unfold writable, fd_writes; by rewrite (proj2 (Z.leb_le _ _))).
  assert (h_open (w_host w) (arena_backing_fd (m_arena (w_m w))) = true) as Ho
    by apply (wf_open _ _ (mo_arena _ (mo_base _ (co_ok _ _ (wo_co _ Hw))))).
  set (ro := if wants && negb writable then reopen fd (w_host w) else (None, w_host w)).
  assert (quiet (arena_backing_fd (m_arena (w_m w))) (w_host w) ro.2 ∧
    (h_open (w_host w) fd = true → quiet fd (w_host w) ro.2) ∧
    (∀ d, ro.1 = Some d → d ≠ arena_backing_fd (m_arena (w_m w))) ∧
    (∀ d, ro.1 = Some d ↔ wants && negb writable = true ∧ reopened_as (w_host w) fd d)) as (Hq & Hqf & Hro & Hre).
  { subst ro. destruct (wants && negb writable).
    - destruct (reopen_spec _ fd (w_host w) Ho) as [Hq Hd]. split; [done|].
      split; [by intros Hof; apply reopen_spec|]. split; [by intros d Hx; apply Hd|]. intros d. rewrite reopen_is. tauto.
    - split; [apply quiet_refl|]. split; [intros _; apply quiet_refl|]. split; [done|]. intros d. by split; [|intros []]. }
  destruct ro as [reopened h]. cbn [fst snd] in Hq, Hqf, Hro, Hre. destruct reserve.
  { eexists. split; [reflexivity|]. split; [by apply made_quiet; [|lia|]|]. split; [lia|done]. }
  destruct (wants && (writable || bool_decide (is_Some reopened))) eqn:Esh.
  - apply andb_true_iff in Esh as [Ewa Esh]. rewrite Ew in Ewa. apply andb_true_iff in Ewa as [Hfd0%Z.leb_le Hask].
    assert (default fd reopened ≠ arena_backing_fd (m_arena (w_m w))) as Hmf by (destruct reopened; cbn; auto).
    assert (if fd_writes (w_host w) fd then default fd reopened = fd else reopened_as (w_host w) fd (default fd reopened)) as Hmap.
    { rewrite <- Ewr by done. destruct reopened as [d|].
      - destruct (proj1 (Hre d) eq_refl) as [Hx Hd]. apply andb_true_iff in Hx as [_ Hx%negb_true_iff]. by rewrite Hx.
      - rewrite bool_decide_false, orb_false_r in Esh by (by intros []). by rewrite Esh. }
    pose proof (map_shared_spec w n prot flags fd offset (default fd reopened) reopened h Hw Hnp Hn Hfd0 Hask Hmap Hq Hmf Hro) as Hs.
    cbv zeta in Hs. destruct (h_mmap _ 0 n _) as [[p|] h1]; [|by eexists; split; [reflexivity|]].
    destruct (match reopened with Some d => _ | None => _ end) as [owned h2]. by eexists; split; [reflexivity|].
  - assert (reopened = None) as ->.
    { destruct reopened as [d|]; [|done]. destruct (proj1 (Hre d) eq_refl) as [Hx _]. apply andb_true_iff in Hx as [Hx _].
      rewrite Hx in Esh. by destruct writable. }
    refine (map_private_spec w n prot flags fd offset h Hw Hnp Hn Hbrk Hq Hqf _). intros Hf Hask.
    rewrite Ew, (proj2 (Z.leb_le 0 fd) Hf), Hask in Esh, Hre. cbn in Esh, Hre. apply orb_false_iff in Esh as [Esh _].
    rewrite <- Ewr by done. split; [done|]. intros d Hd. rewrite Esh in Hre. discriminate (proj2 (Hre d) (conj eq_refl Hd)).
Qed.

(** ** The new region *)

Lemma placed_upd (m : mm) a id r b (m' : mm) g :
  placed m a id r b m' → region_ok (g r) → r_gaddr (g r) = r_gaddr r → r_end (g r) ≤ r_end r →
  placed m a id (g r) b (upd id g m').
Proof.
  intros [P1 P2 P3 P4 P5 P6] Hr Hg He.
  assert (id ∈ mm_list m') as Hid by (rewrite P2; apply elem_of_app; right; left).
  split; try done.
  - apply mm_ok_upd; rewrite ?P3; done.
  - by rewrite reg_upd_eq, P3 by apply (mk_heap _ P1), Hid.
  - intros x Hx. rewrite reg_upd_ne by done. auto.
Qed.

Lemma placed_look (m : mm) a id r b (m' : mm) x :
  mm_list m = a ++ b → placed m a id r b m' → (∀ x, contains r x = true → look (areas m) x = None) →
  look (areas m') x = with_region r (look (areas m)) x.
Proof.
  intros Hl Hp Hfree. rewrite (placed_areas _ _ _ _ _ _ Hp). specialize (Hfree x). unfold with_region, areas in *.
  rewrite Hl, fmap_app in Hfree |- *. rewrite look_app in Hfree |- *. cbn [look]. rewrite look_app.
  destruct (contains r x); [|done]. specialize (Hfree eq_refl). by destruct (look (reg m <$> a) x).
Qed.

Lemma reserved_region f m r :
  coherent f m → r_reserved r = true → 0 < r_gaddr r → r_end r ≤ user_addr_max →
  (∀ x, contains r x = true → f x = None) → coherent (with_region r f) m.
Proof.
  intros [C1 C2 C3 C4 C5 C6 C7 C8] Hr H0 Hlow Hfree.
  assert (∀ va v, with_region r f va = Some v → v_reserved v = false → f va = Some v) as Hwas.
  { intros va v Hv Hres. unfold with_region in Hv. destruct (contains r va); [|done]. injection Hv as <-. cbn in Hres. congruence. }
  split; [done| | |done|done|..].
  - intros va v Hva Hv. unfold with_region in Hv. destruct (contains r va) eqn:E; [|by eapply C2].
    unfold contains in E. bool_to_prop. lia.
  - intros va Hva Hlt. specialize (C3 va Hva Hlt). unfold agrees, with_region in *.
    destruct (contains r va) eqn:E; [|done]. rewrite Hfree in C3 by done. cbn. by rewrite Hr.
  - intros va v Hva Hv Hres. eauto.
  - intros va vb v v' Hva Hvb Hv Hv' Hres Hres'. eauto.
  - intros i h va v Hi Hva Hv Hres. eauto.
Qed.

Lemma spare_not_owned f m p n off d : coherent f m → spare m p n off → 0 ≤ d < n → ¬ owned f (p + d).
Proof.
  intros Hc Hsp Hd (va & v & Hva & Hfv & Hv & Hx).
  destruct (shown_page f m va v Hc Hva Hfv Hv) as (_ & e & He & Hhe). apply (sa_free _ _ _ _ Hsp _ e d He Hd).
  rewrite Hhe. pose proof (he_page _ _ _ (co_mem _ _ Hc va v Hva Hfv Hv)) as Hpg.
  destruct (granule_of_spec (p + d)) as [G1 G2], (granule_of_spec (v_host v)) as [G3 G4]. unfold gran, page_aligned in *.
  change STAGE2_GRANULE with 16384 in *. change PAGE with 4096 in *. lia_mod.
Qed.

Lemma spare_bytes f g m m' p n off d :
  coherent f m → spare m p n off → 0 ≤ off ∨ off = -1 → shrunk f g m m' → 0 ≤ d < n →
  h_back (m_host m) (p + d) ≠ None ∧
  h_back (m_host m') (p + d) = h_back (m_host m) (p + d) ∧ h_mem (m_host m') (p + d) = h_mem (m_host m) (p + d).
Proof.
  intros Hc Hsp Hoff Hk Hd. pose proof (spare_not_owned f m p n off d Hc Hsp Hd) as Hno.
  pose proof (Z.div_mod d PAGE) as Hdm. pose proof (Z.mod_pos_bound d PAGE) as Hmb. change PAGE with 4096 in *.
  destruct (sa_held _ _ _ _ Hsp (4096 * (d / 4096))) as [_ _ M3 M4];
    [pose proof (sa_size _ _ _ _ Hsp) as Hs; unfold page_aligned in Hs; change PAGE with 4096 in Hs; lia_mod
    |unfold page_aligned; change PAGE with 4096; lia_mod|].
  change PAGE with 4096 in *. specialize (M3 (d mod 4096) ltac:(lia)). specialize (M4 (d mod 4096) ltac:(lia)).
  replace (p + 4096 * (d / 4096) + d mod 4096) with (p + d) in * by lia.
  split; [done|]. split; [by apply (sk_back _ _ _ _ Hk)|]. apply (sk_mem _ _ _ _ Hk); [|done].
  destruct Hoff as [Hoff| ->].
  - rewrite (proj2 (Z.ltb_ge off 0)), (proj2 (Z.ltb_ge (off + 4096 * (d / 4096)) 0)) in M4 by lia.
    destruct M4 as [q Hq]. right; left. eauto.
  - left. cbn in M4. done.
Qed.

(** [w'] is [w] with [r] in the place of what stood there. *)
Record installed w (r : mm_region) w' : Prop := {
  in_ok : world_ok w';
  in_shown x : shown w' x = with_region r (shown w) x;
  in_settings : settings (w_mm w') = settings (w_mm w);
  in_rest : w_vkern w' = w_vkern w ∧ w_kern_brk w' = w_kern_brk w ∧ w_binder w' = w_binder w;
  in_fd : arena_backing_fd (m_arena (w_m w')) = arena_backing_fd (m_arena (w_m w));
  in_room j : 0 ≤ j → room (3 * pages (r_size r) + j) (w_m w) → room j (w_m w');
  in_mem x : owned (cleared (r_gaddr r) (r_size r) (shown w)) x → h_mem (w_host w') x = h_mem (w_host w) x;
  in_new d : r_reserved r = false → 0 ≤ d < r_size r →
    h_back (w_host w') (r_haddr r + d) = h_back (w_host w) (r_haddr r + d) ∧
    h_mem (w_host w') (r_haddr r + d) = h_mem (w_host w) (r_haddr r + d);
}.

(** Memory that can stand behind [r]. *)
Definition backing m (r : mm_region) : Prop :=
  if r_reserved r then True
  else spare m (r_haddr r) (r_size r) (r_arena_off r) ∧ (0 ≤ r_arena_off r ∨ r_arena_off r = -1) ∧
       room (3 * pages (r_size r)) m.

Lemma world_placed w a id r b (m' : mm) mach :
  world_ok w → mm_list (w_mm w) = a ++ b → placed (w_mm w) a id r b m' →
  (∀ x, contains r x = true → shown w x = None) →
  arena_backing_fd (m_arena mach) = arena_backing_fd (m_arena (w_m w)) → fits (arena_backing_fd (m_arena mach)) r →
  coherent (with_region r (shown w)) mach → world_ok (set_machine mach (set_mm m' w)).
Proof.
  intros Hw Hl Hp Hfree Hfd Hfit Hc. split; [apply Hp| |].
  - intros x Hx. change (x ∈ mm_list m') in Hx. change (fits (arena_backing_fd (m_arena mach)) (reg m' x)).
    destruct (decide (x = id)) as [->|Hne]; [by rewrite (pl_reg _ _ _ _ _ _ Hp)|].
    rewrite (pl_same _ _ _ _ _ _ Hp), Hfd by done. apply (wo_fits _ Hw). rewrite (pl_list _ _ _ _ _ _ Hp) in Hx. rewrite Hl.
    apply elem_of_app in Hx as [Hx|[->|Hx]%elem_of_cons]; [|done|]; apply elem_of_app; auto.
  - apply (coherent_ext (with_region r (shown w))); [|exact Hc]. intros x _.
    exact (placed_look _ _ _ _ _ _ x Hl Hp Hfree).
Qed.

Lemma map_placed w w1 r (m' : mm) a id b :
  world_ok w → unmapped_to w (cleared (r_gaddr r) (r_size r) (shown w)) w1 → region_ok r →
  fits (arena_backing_fd (m_arena (w_m w))) r → backing (w_m w) r →
  mm_list (w_mm w1) = a ++ b → placed (w_mm w1) a id r b m' →
  match (if negb (r_reserved r) then
           mach ← vmm_mmap (r_gaddr r) (r_size r) (linux_mprot_to_hv_mflag (r_prot r)) (r_haddr r) (w_m w1);
           Ret (set_machine mach (set_mm m' w1))
         else Ret (set_mm m' w1)) with
  | Ret w' => installed w r w'
  | Stop s => s = NoMemory
  end.
Proof.
  intros Hw [U1 U2 U3 U4 U5 U6] Hr Hfit Hb Hl Hp. pose proof Hr as [[_ Hg0] [_ Hs0] _].
  assert (∀ x, contains r x = true → shown w1 x = None) as Hfree.
  { intros x Hx. rewrite U2. apply cleared_in. unfold contains, r_end in Hx. bool_to_prop. lia. }
  assert (∀ x, with_region r (shown w1) x = with_region r (shown w) x) as Hsame.
  { intros x. unfold with_region. destruct (contains r x) eqn:E; [done|]. rewrite U2. apply cleared_out.
    unfold contains, r_end in E. bool_to_prop. lia. }
  assert (∀ x, owned (cleared (r_gaddr r) (r_size r) (shown w)) x →
    h_back (w_host w) x ≠ None ∧ h_back (w_host w1) x ≠ None) as Hbk.
  { intros x (va & v & Hva & Hgv & Hv & Hx). pose proof (sk_sub _ _ _ _ U4 va v Hva Hgv) as Hfv. rewrite <- U2 in Hgv.
    replace x with (v_host v + (x - v_host v)) by lia.
    split; [apply (he_back _ _ _ (co_mem _ _ (wo_co _ Hw) va v Hva Hfv Hv))|
            apply (he_back _ _ _ (co_mem _ _ (wo_co _ U1) va v Hva Hgv Hv))]; lia. }
  assert (∀ mach, arena_backing_fd (m_arena mach) = arena_backing_fd (m_arena (w_m w1)) →
    coherent (with_region r (shown w1)) mach →
    (∀ j, 0 ≤ j → room (3 * pages (r_size r) + j) (w_m w1) → room j mach) → kept_host (w_m w1) mach →
    installed w r (set_machine mach (set_mm m' w1))) as Hdone.
  { intros mach Hfd Hc Hroom Hkh. rewrite (sk_fd _ _ _ _ U4) in Hfd. split.
    - apply (world_placed w1 a id r b); try done; [by rewrite (sk_fd _ _ _ _ U4)|by rewrite Hfd].
    - intros x. rewrite <- Hsame. exact (placed_look _ _ _ _ _ _ x Hl Hp Hfree).
    - rewrite <- U3. apply (pl_settings _ _ _ _ _ _ Hp).
    - split; [exact U5|exact U6].
    - exact Hfd.
    - intros j Hj Hr'. apply Hroom; [done|]. by apply (sk_room _ _ _ _ U4).
    - intros x Ho. destruct (Hbk x Ho) as [B1 B2]. destruct (Hkh x B2) as [_ K2].
      change (w_host (set_machine mach (set_mm m' w1))) with (m_host mach). rewrite K2.
      apply (sk_mem _ _ _ _ U4); auto.
    - intros d Hres Hd. unfold backing in Hb. rewrite Hres in Hb. destruct Hb as (Hsp & Hoff & _).
      destruct (spare_bytes _ _ _ _ _ _ _ d (wo_co _ Hw) Hsp Hoff U4 Hd) as (B0 & B1 & B2).
      destruct (Hkh (r_haddr r + d)) as [K1 K2]; [by rewrite B1|].
      change (w_host (set_machine mach (set_mm m' w1))) with (m_host mach). rewrite K1, K2. done. }
  destruct (r_reserved r) eqn:Eres; cbn [negb].
  - assert (set_mm m' w1 = set_machine (w_m w1) (set_mm m' w1)) as -> by (by destruct w1).
    apply Hdone; [done| | |done].
    + apply reserved_region; [apply U1|done|done|apply Hfit|done].
    + intros j Hj Hrm. eapply room_le; [|exact Hrm]. unfold pages. change PAGE with 4096. lia_mod.
  - unfold backing in Hb. rewrite Eres in Hb. destruct Hb as (Hsp & Hoff & Hroom).
    pose proof (map_region_spec (shown w1) (w_m w1) r (wo_co _ U1) Hr (fi_low _ _ Hfit) Eres Hfree) as Hm.
    specialize (Hm (spare_shrunk _ _ _ _ _ _ _ (wo_co _ Hw) Hsp U4) (sk_room _ _ _ _ U4 _ Hroom)).
    destruct (vmm_mmap _ _ _ _ _) as [mach|s]; cbn [mbind outcome_bind]; [|done].
    destruct Hm as (M1 & M2 & M3 & M4). by apply Hdone.
Qed.

Context (junk : Z → bool).

Lemma install_spec w addr n prot flags fd offset ptr off owned (reserve : bool) :
  world_ok w → paged addr → 0 < addr → page_aligned n → 0 < n ≤ 2^31 → addr + n ≤ user_addr_max →
  off + n ≤ 2^62 → (0 ≤ owned → owned ≠ arena_backing_fd (m_arena (w_m w))) →
  let r := mk_region ptr off addr n prot false flags (if 0 <=? owned then owned else fd) reserve (0 <=? owned) (-1)
             (s32 offset) false in
  backing (w_m w) r →
  match install junk addr n prot flags fd offset ptr off owned reserve w with
  | Ret w' => installed w r w'
  | Stop s => s = NoMemory
  end.
Proof.
  intros Hw Ha Ha0 Hn Hn0 Hlow Hoff Hown r Hb. unfold install. unfold user_addr_max in Hlow.
  assert (region_ok r) as Hr.
  { split; [by split| |]; unfold r_end; cbn [r r_gaddr r_size]; [|lia]. split; [exact Hn|lia]. }
  pose proof (do_munmap_spec junk addr n w Hw Ha ltac:(lia) ltac:(lia) ltac:(change PAGE with 4096; lia)) as Hu.
  cbv zeta in Hu. rewrite (roundup_aligned n GUEST_MMAP_GRANULE) in Hu by (exact Hn || (unfold GUEST_MMAP_GRANULE; lia)).
  destruct (do_munmap junk addr n w) as [[ret w1]|s]; cbn [mbind outcome_bind]; [|done]. destruct Hu as [Hu _].
  set (fd' := if 0 <=? owned then owned else fd).
  pose proof (record_region_spec ptr addr n prot flags fd' offset (w_mm w1) (wo_mm _ (ut_ok _ _ _ Hu))) as Hrec.
  cbv zeta in Hrec. ospecialize (Hrec _); [by split; apply Hr|].
  destruct (record_region _ _ _ _ _ _ _ _) as [[id m1]|s]; cbn [mbind outcome_bind].
  2: { destruct Hrec as (_ & y & Hy & Hmt). destruct (meets_shown addr n w1 y (ut_ok _ _ _ Hu) Hy ltac:(lia) Hmt) as (x & Hx & Hsx).
       rewrite (ut_shown _ _ _ Hu) in Hsx. by rewrite cleared_in in Hsx. }
  destruct Hrec as (_ & a & b & Hl & Hp & _).
  apply (placed_upd _ _ _ _ _ _ (set_memory ptr off reserve)) in Hp; [|by split; apply Hr|done|done].
  apply (placed_upd _ _ _ _ _ _ (set_owns_fd (0 <=? owned))) in Hp; [|by split; apply Hr|done|done].
  change (set_owns_fd (0 <=? owned) (set_memory ptr off reserve _)) with r in Hp.
  apply (map_placed w w1 r _ a id b Hw Hu Hr); [|done|done|done].
  split; unfold r_end; cbn [r r_gaddr r_size r_arena_off r_owns_fd r_fd]; unfold user_addr_max; [lia|lia|lia|].
  intros E. subst fd'. rewrite E. bool_to_prop. auto.
Qed.

(** The regions that end past [p]: a walk that goes from the end of one region
    to the next is at most this long. *)
Definition ahead (m : mm) (p : Z) : nat := length (filter (λ id, p < r_end (reg m id)) (mm_list m)).

Lemma ahead_le (m : mm) p : (ahead m p ≤ length (mm_list m))%nat.
Proof. apply length_filter. Qed.

Lemma ahead_step (m : mm) p id :
  id ∈ mm_list m → contains (reg m id) p = true → (ahead m (r_end (reg m id)) < ahead m p)%nat.
Proof.
  intros Hid Hc. unfold contains in Hc. bool_to_prop. unfold ahead. set (e := r_end (reg m id)) in *.
  assert (∀ l : list Z, (length (filter (λ x, (e < r_end (reg m x))%Z) l) ≤ length (filter (λ x, (p < r_end (reg m x))%Z) l))%nat ∧
    (id ∈ l → (length (filter (λ x, (e < r_end (reg m x))%Z) l) < length (filter (λ x, (p < r_end (reg m x))%Z) l))%nat)) as Hl.
  { intros l. induction l as [|y l [IH1 IH2]]; [split; [done|set_solver]|]. rewrite !filter_cons.
    assert (id = y → ¬ e < r_end (reg m y)) by (intros <-; subst e; lia).
    assert (id = y → p < r_end (reg m y)) by (intros <-; subst e; lia).
    split; [|intros [->|Hin]%elem_of_cons]; try specialize (IH2 Hin);
      repeat case_decide; cbn [length]; try lia; exfalso; auto; lia. }
  by apply Hl.
Qed.

Lemma sync_guest_code_spec fd fuel g n (m vk : mm) h :
  mm_ok m → 0 ≤ g → g + n < 2^64 - 1 → (ahead m g < fuel)%nat →
  ∃ h', sync_guest_code fuel g n m vk h = Ret h' ∧ quiet fd h h'.
Proof.
  intros Hok. revert g n h. induction fuel as [|fuel IH]; intros g n h Hg Hn Hf; [lia|]. cbn [sync_guest_code].
  destruct (0 <? n) eqn:En; [|exists h; split; [done|apply quiet_refl]]. bool_to_prop.
  pose proof (find_region_spec g m Hok ltac:(lia)) as Hfind.
  destruct (find_region g m) as [id|]; [|exists h; split; [done|apply quiet_refl]]. destruct Hfind as [Hid Hc].
  pose proof (ahead_step m g id Hid Hc) as Hs. pose proof (mk_regs _ Hok id Hid) as [[_ ?] [_ ?] Hend].
  unfold contains in Hc. bool_to_prop. change (r_gaddr (reg m id) + r_size (reg m id)) with (r_end (reg m id)).
  rewrite (u64_small (r_end (reg m id))), (u64_small (r_end (reg m id) - g)) by lia.
  set (piece := Z.min n (r_end (reg m id) - g)). set (h1 := match guest_to_host _ _ _ with Some _ => _ | None => _ end).
  assert (quiet fd h h1) as Hq1.
  { subst h1. destruct (guest_to_host g m vk); [apply quiet_more, host_eq_more, icache_law|apply quiet_refl]. }
  rewrite u64_small by lia. destruct (decide (n ≤ r_end (reg m id) - g)).
  - replace (n - piece) with 0 by lia. exists h1. split; [by destruct fuel|done].
  - replace (g + piece) with (r_end (reg m id)) by lia.
    destruct (IH (r_end (reg m id)) (n - piece) h1) as (h' & E & Hq); [lia..|]. exists h'. split; [done|]. by eapply quiet_trans.
Qed.

(** ** A new mapping, whole *)

(** [w'] has [r] in the place of what stood there, showing the bytes it should;
    no other mapping of the guest's has changed. *)
Record mapped w (r : mm_region) (fd offset : Z) w' : Prop := {
  mp_ok : world_ok w';
  mp_shown x : shown w' x = with_region r (shown w) x;
  mp_settings : settings (w_mm w') = settings (w_mm w);
  mp_rest : w_vkern w' = w_vkern w ∧ w_kern_brk w' = w_kern_brk w ∧ w_binder w' = w_binder w;
  mp_fd : arena_backing_fd (m_arena (w_m w')) = arena_backing_fd (m_arena (w_m w));
  mp_room j : 0 ≤ j → room (4 * pages (r_size r) + j) (w_m w) → room j (w_m w');
  mp_mem x : owned (cleared (r_gaddr r) (r_size r) (shown w)) x → h_mem (w_host w') x = h_mem (w_host w) x;
  mp_new : r_reserved r = false →
    filled (w_host w) (w_host w') (r_prot r) (r_flags r) fd offset (r_haddr r) (r_size r) (r_arena_off r);
}.

Lemma made_world w n m' : world_ok w → made w n m' → world_ok (set_machine m' w).
Proof.
  intros Hw Hm. split; [apply Hw| |apply Hm]. intros id Hid.
  change (fits (arena_backing_fd (m_arena m')) (reg (w_mm w) id)). rewrite (ma_fd _ _ _ Hm). by apply (wo_fits _ Hw).
Qed.

Lemma owned_held w x : world_ok w → owned (shown w) x → h_back (w_host w) x ≠ None ∧ settled (w_m w) x.
Proof.
  intros Hw (va & v & Hva & Hf & Hv & Hx). pose proof (co_mem _ _ (wo_co _ Hw) va v Hva Hf Hv) as Hh.
  replace x with (v_host v + (x - v_host v)) by lia.
  split; [apply (he_back _ _ _ Hh)|apply (held_settled _ _ _ _ Hh)]; lia.
Qed.

Lemma made_room w n m' j :
  made w n m' → page_aligned n → 0 < n ≤ 2^31 → 0 ≤ j → room (4 * pages n + j) (w_m w) → room (3 * pages n + j) m'.
Proof.
  clear junk.
  intros [_ _ _ M1 M2 M3] Hn Hn0 Hj. unfold room. rewrite M1, M2.
  destruct (roundup_spec n ARENA_GRANULE) as [Hr Hrm]; [done|lia|unfold ARENA_GRANULE; lia|].
  unfold pages, page_aligned, ARENA_GRANULE in *. change STAGE2_GRANULE with 16384. change PAGE with 4096 in *.
  assert (roundup n 16384 ≤ n / 4096 * 16384) by lia_mod. lia.
Qed.

Lemma filled_same (h0 h h' : H) prot flags fd offset p n off :
  (∀ d, 0 ≤ d < n → h_back h' (p + d) = h_back h (p + d) ∧ h_mem h' (p + d) = h_mem h (p + d)) →
  filled h0 h prot flags fd offset p n off → filled h0 h' prot flags fd offset p n off.
Proof.
  intros Hs. unfold filled. destruct (fd <? 0); [intros Hf d Hd; rewrite (proj2 (Hs d Hd)); auto|].
  destruct (off <? 0).
  - intros (Ha & mf & Hm & Hf). split; [done|]. exists mf. split; [done|]. intros d Hd. rewrite (proj1 (Hs d Hd)). auto.
  - intros (Ha & r & h1 & h2 & Hp & Hr & Hv). split; [done|]. exists r, h1, h2. split; [done|]. split; [done|]. intros Ho d Hd.
    rewrite (proj2 (Hs d Hd)). auto.
Qed.

Lemma installed_mapped w m' r fd offset owned w' :
  world_ok w → made w (r_size r) m' →
  mem_ok w (r_size r) (r_prot r) (r_flags r) fd offset (r_reserved r) (MemOk (r_haddr r) (r_arena_off r) owned) m' →
  page_aligned (r_size r) → 0 < r_size r ≤ 2^31 →
  installed (set_machine m' w) r w' → mapped w r fd offset w'.
Proof.
  clear junk.
  intros Hw Hm [_ Hmem] Hn Hn0 [I1 I2 I3 I4 I5 I6 I7 I8]. split; try done.
  - rewrite I5. apply (ma_fd _ _ _ Hm).
  - intros j Hj Hr. apply I6; [done|]. by apply (made_room w).
  - intros x Ho. rewrite I7 by done. apply (owned_sub (shown w)) in Ho.
    + destruct (owned_held w x Hw Ho) as [Hb Hs]. by apply (ma_keeps _ _ _ Hm).
    + intros va v _. unfold cleared. by destruct (_ && _).
  - intros Hres. rewrite Hres in Hmem. destruct Hmem as (_ & _ & Hf). eapply filled_same; [|exact Hf]. intros d Hd. by apply I8.
Qed.

Lemma mapped_quiet w r fd offset w' h :
  0 < r_gaddr r → page_aligned (r_gaddr r) → r_end r ≤ user_addr_max → mapped w r fd offset w' →
  quiet (arena_backing_fd (m_arena (w_m w'))) (w_host w') h → mapped w r fd offset (set_host h w').
Proof.
  clear junk.
  intros Hg Hga Hlow [M1 M2 M3 M4 M5 M6 M7 M8] Hq. pose proof Hq as [Q1 Q2 _ _ _].
  assert (∀ x, owned (shown w') x → h_mem h x = h_mem (w_host w') x) as Hsame.
  { intros x Ho. apply Q2. by apply owned_held. }
  split; try done.
  - apply (made_world w' 4096); [done|]. by apply made_quiet.
  - intros x Ho. change (w_host (set_host h w')) with h. rewrite Hsame; [by apply M7|].
    destruct Ho as (va & v & Hva & Hf & Hv & Hx). exists va, v. split; [done|]. split; [|done].
    rewrite M2. unfold with_region, cleared in *. unfold contains, r_end.
    destruct (_ && _); [done|exact Hf].
  - intros Hres. eapply filled_same; [|by apply M8]. intros d Hd. change (w_host (set_host h w')) with h.
    split; [apply Q1|]. apply Hsame. pose proof (Z.div_mod d PAGE) as Hdm. pose proof (Z.mod_pos_bound d PAGE) as Hmb.
    change PAGE with 4096 in *. set (va := r_gaddr r + 4096 * (d / 4096)).
    assert (contains r va = true) as Hc.
    { unfold contains, r_end. apply andb_true_iff. rewrite Z.leb_le, Z.ltb_lt. subst va. lia. }
    exists va, (view_at r va). split; [|split; [by rewrite M2; unfold with_region; rewrite Hc|]].
    + unfold contains, r_end, user_addr_max, page_aligned in *. bool_to_prop. change PAGE with 4096 in *.
      split; [unfold page_aligned; change PAGE with 4096; subst va; lia_mod|lia].
    + cbn [view_at v_reserved v_host]. split; [done|]. change PAGE with 4096. subst va. lia.
Qed.

(** ** do_mmap *)

Context `{!BinderOps B}.

(** What the arguments amount to: hints without effect dropped, a binder
    arena or an anonymous mapping without its descriptor. *)
Record request := mk_request { rq_prot : Z; rq_flags : Z; rq_fd : Z; rq_offset : Z }.

Definition asked (binder : bool) (prot flags fd offset : Z) : request :=
  let flags := Z.land flags (Z.lnot ignored_flags) in
  let '(fd, offset, flags, prot) :=
    if binder then
      (-1, 0, Z.lor (Z.lor (Z.land flags (Z.lnot LINUX_MAP_SHARED)) LINUX_MAP_PRIVATE) LINUX_MAP_ANONYMOUS,
       Z.lor (Z.lor prot LINUX_PROT_READ) LINUX_PROT_WRITE)
    else (fd, offset, flags, prot) in
  let '(fd, offset) := if has flags LINUX_MAP_ANONYMOUS then (-1, 0) else (fd, offset) in
  mk_request prot flags fd offset.

Definition is_binder (fd : Z) w : bool := (0 <=? fd) && (binder_emul_is fd (w_binder w)).1.

(** Room in the address space and behind it for [n] more bytes. *)
Record roomy w (addr n : Z) : Prop := {
  rw_addr : paged addr ∧ 0 ≤ addr ∧ addr + n ≤ user_addr_max;
  rw_top : paged (mm_top (w_mm w)) ∧ 0 < mm_top (w_mm w) ∧ mm_top (w_mm w) + n ≤ user_addr_max;
  rw_room : room (4 * pages n) (w_m w);
}.

(** Where a mapping of [n] bytes goes, and the top of the map after it. *)
Definition placement w (fixed : bool) (addr n a top : Z) : Prop :=
  (a = addr ∧ top = mm_top (w_mm w) ∧
   (fixed = true ∨ 0 < addr ∧ ∀ x, addr ≤ x < addr + n → shown w x = None)) ∨
  (fixed = false ∧ a = mm_top (w_mm w) ∧ top = mm_top (w_mm w) + n).

Lemma place_mapping_spec w addr n flags :
  world_ok w → roomy w addr n → page_aligned n → 0 < n ≤ 2^31 →
  ∃ a top, place_mapping addr n flags w = Ret (a, set_mm (with_top top (w_mm w)) w) ∧
    placement w (has flags LINUX_MAP_FIXED) addr n a top.
Proof.
  intros Hw [(Ha & Ha0 & Ha1) (Ht & Ht0 & Ht1) _] Hn Hn0. unfold user_addr_max in *.
  assert (set_mm (with_top (mm_top (w_mm w)) (w_mm w)) w = w) as Hid by (destruct w as [? []]; done).
  unfold place_mapping. destruct (has flags LINUX_MAP_FIXED); cbn [negb].
  { exists addr, (mm_top (w_mm w)). rewrite Hid. split; [done|]. left. auto. }
  assert (alloc_region n (w_mm w) = (mm_top (w_mm w), with_top (mm_top (w_mm w) + n) (w_mm w))) as Hal.
  { unfold alloc_region. rewrite (roundup_aligned n GUEST_MMAP_GRANULE) by (exact Hn || (unfold GUEST_MMAP_GRANULE; lia)).
    rewrite (u64_small (mm_top (w_mm w) + n)) by lia. rewrite u64_small by lia. f_equal. lia. }
  assert (placement w false addr n (mm_top (w_mm w)) (mm_top (w_mm w) + n)) as Htop by (right; auto).
  destruct ((LINUX_MMAP_MIN_ADDR <=? addr) && (addr <? u64 (addr + n))) eqn:Eh; cbn [mbind outcome_bind].
  - destruct (find_region_range_spec addr n (w_mm w) (wo_mm _ Hw)) as (res & -> & Hres); [lia..|]. cbn [mbind outcome_bind].
    destruct res as [id|]; [rewrite Hal; eauto|]. exists addr, (mm_top (w_mm w)). rewrite Hid. split; [done|]. left.
    apply andb_true_iff in Eh as [Eh _]. apply Z.leb_le in Eh. unfold LINUX_MMAP_MIN_ADDR in Eh.
    split; [done|]. split; [done|]. right. split; [lia|]. intros x Hx. apply look_none. intros r (y & -> & Hy)%list_elem_of_fmap.
    apply not_true_iff_false. intros Hc. apply (Hres y Hy). unfold contains, meets in *. bool_to_prop. lia.
  - rewrite Hal. eauto.
Qed.

Lemma world_top w t b : world_ok w → world_ok (set_mm (with_top t (w_mm w)) (set_binder b w)).
Proof. intros [[] W2 W3]. split; [by split|done|done]. Qed.

(** A mapping asked for by [q], at [a], from memory that [map_memory] found. *)
Lemma map_made w q n a res m' (reserve : bool) :
  world_ok w → paged a → 0 < a → a + n ≤ user_addr_max → page_aligned n → 0 < n ≤ 2^31 → room (4 * pages n) (w_m w) →
  made w n m' → mem_ok w n (rq_prot q) (rq_flags q) (rq_fd q) (rq_offset q) reserve res m' →
  match res with
  | MemError e => True
  | MemOk ptr off owned =>
      match (w1 ← install junk a n (rq_prot q) (rq_flags q) (rq_fd q) (rq_offset q) ptr off owned reserve (set_machine m' w);
             if 0 <=? rq_fd q then vmm_sync_guest_code a n w1 else Ret w1) with
      | Ret w' => ∃ r, mapped w r (rq_fd q) (rq_offset q) w' ∧ r_gaddr r = a ∧ r_size r = n ∧ r_prot r = rq_prot q ∧
          r_flags r = rq_flags q ∧ r_sealed r = false ∧ r_reserved r = reserve ∧ r_shm_id r = -1
      | Stop s => s = NoMemory
      end
  end.
Proof.
  intros Hw Ha Ha0 Hlow Hn Hn0 Hroom Hm Hok. destruct res as [e|ptr off owned]; [done|]. pose proof Hok as [Hown Hback].
  assert (off + n ≤ 2^62) as Hoff by (destruct reserve; [destruct Hback as [-> ->]|]; lia).
  pose proof (install_spec (set_machine m' w) a n (rq_prot q) (rq_flags q) (rq_fd q) (rq_offset q) ptr off owned reserve
    (made_world _ _ _ Hw Hm) Ha Ha0 Hn Hn0 Hlow Hoff) as Hi. cbv zeta in Hi.
  set (r := mk_region _ _ _ _ _ _ _ _ _ _ _ _ _) in Hi.
  assert (backing m' r) as Hb.
  { unfold backing. cbn [r r_reserved r_haddr r_size r_arena_off]. destruct reserve; [done|].
    destruct Hback as (Hsp & Ho & _). split; [done|]. split; [lia|].
    replace (3 * pages n) with (3 * pages n + 0) by lia. apply (made_room w); [done..|]. by rewrite Z.add_0_r. }
  ospecialize (Hi _ Hb); [by rewrite <- (ma_fd _ _ _ Hm) in Hown|].
  destruct (install _ _ _ _ _ _ _ _ _ _ _ _) as [w1|s]; cbn [mbind outcome_bind]; [|done].
  pose proof (installed_mapped w m' r (rq_fd q) (rq_offset q) owned w1 Hw Hm Hok Hn Hn0 Hi) as Hmp.
  assert (∃ w', (if 0 <=? rq_fd q then vmm_sync_guest_code a n w1 else Ret w1) = Ret w' ∧
    mapped w r (rq_fd q) (rq_offset q) w') as (w' & -> & Hw').
  { destruct (0 <=? rq_fd q); [|by exists w1]. unfold vmm_sync_guest_code, user_addr_max in *.
    destruct (sync_guest_code_spec (arena_backing_fd (m_arena (w_m w1))) (S (length (mm_list (w_mm w1)))) a n (w_mm w1)
      (w_vkern w1) (w_host w1) (wo_mm _ (mp_ok _ _ _ _ _ Hmp))) as (h & -> & Hq); [lia..|pose proof (ahead_le (w_mm w1) a); lia|].
    eexists. split; [reflexivity|]. by apply mapped_quiet. }
  by exists r.
Qed.

Lemma asked_fd binder prot flags fd offset :
  rq_fd (asked binder prot flags fd offset) = fd ∨ rq_fd (asked binder prot flags fd offset) = -1.
Proof. unfold asked. destruct binder; cbn; destruct (has _ LINUX_MAP_ANONYMOUS); cbn; auto. Qed.

(** The new mapping as it was asked for. *)
Record as_asked (q : request) (a n : Z) (r : mm_region) : Prop := {
  aa_at : r_gaddr r = a ∧ r_size r = n;
  aa_prot : r_prot r = rq_prot q;
  aa_flags : r_flags r = rq_flags q;
  aa_plain : r_sealed r = false ∧ r_shm_id r = -1;
  aa_reserved : r_reserved r =
    (rq_prot q =? LINUX_PROT_NONE) && (rq_fd q <? 0) && negb (has (rq_flags q) LINUX_MAP_SHARED);
}.

(** The call failed: nothing the guest sees is different. *)
Definition unchanged w w' : Prop :=
  world_ok w' ∧ (∀ x, shown w' x = shown w x) ∧ ∀ x, owned (shown w) x → h_mem (w_host w') x = h_mem (w_host w) x.

(** The call succeeded, or only the binder's part of it did not. *)
Definition mmapped w (addr n : Z) (q : request) (binder : bool) (ret : Z) w' : Prop :=
  ∃ a top b b' r w1,
    placement w (has (rq_flags q) LINUX_MAP_FIXED) addr n a top ∧ as_asked q a n r ∧
    mapped (set_mm (with_top top (w_mm w)) (set_binder b w)) r (rq_fd q) (rq_offset q) w1 ∧
    w' = set_binder b' w1 ∧ (ret = a ∨ binder = true ∧ ∃ e, e < 0 ∧ ret = u64 e).

Lemma world_binder w b : world_ok w → world_ok (set_binder b w).
Proof. intros [W1 W2 W3]. by split. Qed.

Lemma placement_ok w fixed addr n a top :
  roomy w addr n → placement w fixed addr n a top → (fixed = true → 0 < addr) → paged a ∧ 0 < a ∧ a + n ≤ user_addr_max.
Proof. intros [(? & ? & ?) (? & ? & ?) _] [(-> & _ & [Hf|[? _]])|(_ & -> & _)] Hpos; auto. Qed.

Definition after_is (fd : Z) w : B := if 0 <=? fd then (binder_emul_is fd (w_binder w)).2 else w_binder w.

(** do_mmap in terms of what is asked. *)
Lemma do_mmap_asked addr len prot flags fd offset w :
  let n := roundup len GUEST_MMAP_GRANULE in
  let q := asked (is_binder fd w) prot flags fd offset in
  paged addr →
  do_mmap junk counter0 addr len prot flags fd offset w =
  if has (rq_flags q) (Z.lnot known_flags) then Stop (Exited 1)
  else
    '(a, w0) ← place_mapping addr n (rq_flags q) (set_binder (after_is fd w) w);
    let reserve := (rq_prot q =? LINUX_PROT_NONE) && (rq_fd q <? 0) && negb (has (rq_flags q) LINUX_MAP_SHARED) in
    '(res, w1) ← map_memory counter0 n (rq_prot q) (rq_flags q) (rq_fd q) (rq_offset q) reserve w0;
    match res with
    | MemError e => Ret (u64 e, w1)
    | MemOk ptr off owned =>
        w2 ← (w2 ← install junk a n (rq_prot q) (rq_flags q) (rq_fd q) (rq_offset q) ptr off owned reserve w1;
              if 0 <=? rq_fd q then vmm_sync_guest_code a n w2 else Ret w2);
        if is_binder fd w then
          let '(br, b) := binder_emul_mmap fd a n (w_binder w2) in
          Ret (if br <? 0 then u64 br else a, set_binder b w2)
        else Ret (a, w2)
    end.
Proof.
  intros n q Ha. unfold do_mmap. change 0xfff with (PAGE - 1). rewrite land_page.
  change (addr mod PAGE) with (addr mod PAGE_4KB). rewrite Ha. cbn [Z.eqb assert_c mbind outcome_bind].
  subst q n. unfold is_binder, after_is, asked.
  assert ((if 0 <=? fd then binder_emul_is fd (w_binder w) else (false, w_binder w)) =
    ((0 <=? fd) && (binder_emul_is fd (w_binder w)).1, if 0 <=? fd then (binder_emul_is fd (w_binder w)).2 else w_binder w)) as ->.
  { destruct (0 <=? fd); [|done]. by destruct (binder_emul_is fd (w_binder w)). }
  set (bi := (0 <=? fd) && _). set (b := if 0 <=? fd then _ else _).
  clearbody bi b. set (fl := Z.land flags (Z.lnot ignored_flags)).
  set (q := mk_request).
  destruct bi; cbv beta iota zeta.
  all: match goal with |- context [has ?f LINUX_MAP_ANONYMOUS] => destruct (has f LINUX_MAP_ANONYMOUS) end.
  all: subst q; cbv beta iota zeta; cbn [rq_prot rq_flags rq_fd rq_offset].
  all: destruct (has _ (Z.lnot known_flags)); [done|].
  all: destruct (place_mapping _ _ _ _) as [[a w0]|s]; cbn [mbind outcome_bind]; [|done].
  all: destruct (map_memory _ _ _ _ _ _ _ _) as [[[e|p o ow] w1]|s]; cbn [mbind outcome_bind]; [done| |done].
  all: destruct (install _ _ _ _ _ _ _ _ _ _ _ _) as [w2|s]; cbn [mbind outcome_bind]; [|done].
  all: match goal with |- context [if 0 <=? ?f then vmm_sync_guest_code ?x ?y ?z else ?t] =>
         destruct (if 0 <=? f then vmm_sync_guest_code x y z else t) as [w3|s] end; cbn [mbind outcome_bind]; [|done].
  all: try done.
  all: destruct (binder_emul_mmap _ _ _ _) as [br b']; by destruct (br <? 0).
Qed.

Lemma do_mmap_spec addr len prot flags fd offset w :
  let n := roundup len GUEST_MMAP_GRANULE in
  let binder := is_binder fd w in
  let q := asked binder prot flags fd offset in
  world_ok w → roomy w addr n → 0 < len ≤ 2^31 → fd ≠ arena_backing_fd (m_arena (w_m w)) →
  (has (rq_flags q) LINUX_MAP_FIXED = true → 0 < addr) →
  match do_mmap junk counter0 addr len prot flags fd offset w with
  | Ret (ret, w') => (∃ e, ret = u64 e) ∧ 0 ≤ rq_fd q ∧ unchanged w w' ∨ mmapped w addr n q binder ret w'
  | Stop s => s = NoMemory ∨ s = Exited 1 ∧ has (rq_flags q) (Z.lnot known_flags) = true
  end.
Proof.
  intros n binder q Hw Hroom Hlen Hfd Hfix.
  destruct (roundup_spec len GUEST_MMAP_GRANULE) as [Hn Hna]; [unfold GUEST_MMAP_GRANULE; lia..|]. fold n in Hn, Hna.
  assert (n ≤ 2^31) as Hn31 by (change GUEST_MMAP_GRANULE with 4096 in *; lia_mod).
  destruct (Hroom) as [(Ha & Ha0 & Ha1) Ht Hrm]. rewrite do_mmap_asked by done. cbv zeta. fold n binder q.
  destruct (has (rq_flags q) (Z.lnot known_flags)) eqn:Ek; [by right|].
  set (w0 := set_binder (after_is fd w) w). assert (world_ok w0) as Hw0 by (by apply world_binder).
  destruct (place_mapping_spec w0 addr n (rq_flags q) Hw0) as (a & top & -> & Hpl); [by split|done|lia|].
  cbn [mbind outcome_bind]. set (w1 := set_mm (with_top top (w_mm w0)) w0).
  assert (world_ok w1) as Hw1 by (by apply (world_top w)).
  destruct (placement_ok w0 _ addr n a top ltac:(by split) Hpl Hfix) as (Hpa & Hpa0 & Hpa1).
  set (reserve := (_ && _ && _)).
  assert (arena_brk (m_arena (w_m w1)) ≤ 2^61) as Hbrk.
  { destruct Hrm as [Hrm _]. unfold pages in Hrm. change STAGE2_GRANULE with 16384 in Hrm. change PAGE with 4096 in Hrm.
    change (m_arena (w_m w1)) with (m_arena (w_m w)). assert (0 ≤ n / 4096) by lia_mod. lia. }
  assert (rq_fd q ≠ arena_backing_fd (m_arena (w_m w1))) as Hqfd.
  { destruct (asked_fd binder prot flags fd offset) as [E|E]; fold q in E; rewrite E; [done|].
    pose proof (wf_fd _ _ (mo_arena _ (mo_base _ (co_ok _ _ (wo_co _ Hw1))))). lia. }
  assert (reserve = true → rq_fd q < 0) as Hres by (subst reserve; intros E; bool_to_prop; done).
  pose proof (map_memory_spec w1 n (rq_prot q) (rq_flags q) (rq_fd q) (rq_offset q) reserve Hw1 Hna ltac:(lia) Hbrk Hqfd Hres) as Hm.
  destruct (map_memory _ _ _ _ _ _ _ _) as [[res w2]|s]; cbn [mbind outcome_bind]; [|by left].
  destruct Hm as (m' & -> & Hmade & Hmem).
  pose proof (map_made w1 q n a res m' reserve Hw1 Hpa Hpa0 Hpa1 Hna ltac:(lia) Hrm Hmade Hmem) as Hr.
  destruct res as [e|ptr off owned].
  - left. split; [by exists e|]. split; [exact Hmem|]. split; [by apply (made_world w1 n)|]. split; [done|]. intros x Ho.
    destruct (owned_held w x Hw Ho) as [Hb Hs]. by apply (ma_keeps _ _ _ Hmade).
  - destruct (w2 ← _; _) as [w3|s]; cbn [mbind outcome_bind]; [|by left].
    destruct Hr as (r & Hmp & Hr1 & Hr2 & Hr3 & Hr4 & Hr5 & Hr6 & Hr7).
    assert (as_asked q a n r) as Has by (by split).
    destruct binder.
    + destruct (binder_emul_mmap fd a n (w_binder w3)) as [br b']. right.
      exists a, top, (after_is fd w), b', r, w3. do 4 (split; [done|]). destruct (br <? 0) eqn:Ebr; [|by left].
      right. split; [done|]. exists br. bool_to_prop. done.
    + right. exists a, top, (after_is fd w), (w_binder w3), r, w3. do 3 (split; [done|]). split; [by destruct w3|by left].
Qed.
End Mapper.
