(* ===== verification/Protect.v ===== *)
(** mprotect and mseal: the permission of a range changes in the map and in
    both stages together, reservations turn into memory, and nothing else
    moves. *)

From S2P Require Import Prelude Errno Host Arena Stage2 PageTable Translation RbTree Regions UserCopy Mmap Coherence Mapping.

(** * The machine *)

Section Machine.
Context {H V : Type} `{!HostOps H, HL : !HostLaws H, !HvOps V, HV : !HvLaws V}.
Implicit Type m : machine H V.
Implicit Type f : Z → option view.

Lemma granted_covers p : 0 ≤ p < 8 → Z.lor (granted p) p = granted p.
Proof. intros Hp. pattern p. apply prot_cases; [done|reflexivity..]. Qed.

Lemma lor_sub q g p : Z.lor q g = q → Z.lor g p = g → Z.lor q p = q.
Proof. intros Hq Hg. by rewrite <- Hq at 1; rewrite <- Z.lor_assoc, Hg. Qed.

(** What a page reaches after a change of permission, with what of stage 2. *)
Lemma protecting_maps m0 prot ds m va h p :
  machine_ok m0 → protecting m0 prot ds [] m → 0 ≤ prot < 8 → user_va va → 0 ≤ p < 8 →
  maps_to m0 va h p → maps_to m va h (if decide (va ∈ ds) then prot else p).
Proof.
  intros Hok Hpg Hp Hva Hp' (q & Hx & Hq).
  pose proof (protecting_xlate _ _ _ _ _ va Hok Hpg Hp Hva) as Hx'. rewrite Hx in Hx'. cbn in Hx'.
  destruct (protecting_desc _ _ _ _ _ va Hok Hpg Hp Hva) as [Ev Ei].
  destruct (xlate m va) as [[[h1 p1] q1]|] eqn:Ex; [|done]. injection Hx' as -> ->.
  exists q1. split; [by destruct (decide (va ∈ ds))|].
  unfold xlate in Hx, Ex. destruct (pte_valid (pte (m_pt m0) va)) eqn:Hv; [|done]. rewrite Ev, Ei in Ex by done.
  set (b := granule_of (pte_ipa (pte (m_pt m0) va))) in *.
  destruct (s2_map (m_s2 m) !! b) as [e|] eqn:He; [|done]. cbn in Ex. injection Ex as _ Eg <-.
  destruct (s2_map (m_s2 m0) !! b) as [e0|] eqn:He0; [|done]. cbn in Hx. injection Hx as _ Eg0 <-.
  assert (points (m_pt m) b va = true) as Hpt.
  { rewrite (protecting_points _ _ _ _ _ b va Hok Hpg Hp Hva). by apply points_true. }
  destruct (pg_done _ _ _ _ _ Hpg b e He) as [[_ Hc]|[Hnt Hs]]; [by intros ?%elem_of_nil|..].
  - specialize (Hc va Hva Hpt). rewrite Eg in Hc. eapply lor_sub; [exact Hc|].
    destruct (decide (va ∈ ds)); by apply granted_covers.
  - rewrite He0 in Hs. injection Hs as <-. destruct (decide (va ∈ ds)) as [Hin|]; [|done].
    destruct Hnt. exists va. split; [done|]. split; [done|]. by apply points_true.
Qed.

Lemma protecting_none m0 prot ds m va :
  machine_ok m0 → protecting m0 prot ds [] m → 0 ≤ prot < 8 → user_va va → xlate m0 va = None → xlate m va = None.
Proof.
  intros Hok Hpg Hp Hva Hx. pose proof (protecting_xlate _ _ _ _ _ va Hok Hpg Hp Hva) as Hx'. rewrite Hx in Hx'.
  by destruct (xlate m va).
Qed.

(** The guest's blocks are laid out linearly, as pt_protect needs. *)
Lemma coherent_linear f m gaddr size :
  coherent f m → gaddr + size ≤ user_addr_max → linear m gaddr size.
Proof.
  intros Hc Hl va Hva Hr vb Hvb Hv Hv' Hg. unfold in_range in Hr.
  destruct (Z_lt_ge_dec vb user_addr_max); [|by destruct (co_kernel _ _ Hc va vb Hva Hvb ltac:(lia) Hv Hv')].
  destruct (guest_page f m va Hc Hva ltac:(lia) Hv) as (v & e & Hf & Hrv & He & Hh & Ho).
  destruct (guest_page f m vb Hc Hvb ltac:(lia) Hv') as (v' & e' & Hf' & Hrv' & He' & Hh' & Ho').
  rewrite <- Hg, He in He'. injection He' as <-.
  pose proof (co_linear _ _ Hc va vb v v' Hva Hvb Hf Hf' Hrv Hrv' ltac:(congruence)). lia.
Qed.

(** The view with another permission in a range. *)
Definition v_with_prot (p : Z) (v : view) : view :=
  mk_view (v_host v) (v_off v) p (v_sealed v) (v_flags v) (v_reserved v) (v_shm v).

Definition repainted (r : mm_region) (p : Z) f (x : Z) : option view :=
  if contains r x then v_with_prot p <$> f x else f x.

Lemma hv_flags_small p : 0 ≤ p < 8 → linux_mprot_to_hv_mflag p = p.
Proof. intros Hp. pattern p. apply prot_cases; [done|reflexivity..]. Qed.

Lemma repainted_some r p f x v :
  repainted r p f x = Some v → ∃ v0, f x = Some v0 ∧ v_host v = v_host v0 ∧ v_off v = v_off v0 ∧ v_reserved v = v_reserved v0.
Proof.
  unfold repainted. destruct (contains r x); [|by eauto]. destruct (f x) as [v0|]; [|done]. intros [= <-]. by exists v0.
Qed.

Lemma protected_coherent f m r prot m' :
  coherent f m → region_ok r → r_end r ≤ user_addr_max → 0 ≤ prot < 8 →
  protecting m prot (reverse (Z.add (r_gaddr r) <$> counter PAGE (r_size r))) [] m' →
  coherent (repainted r prot f) m'.
Proof.
  intros Hc Hr Hlow Hp Hpg. pose proof (co_ok _ _ Hc) as Hok. pose proof Hc as [_ C2 C3 C4 C5 C6 C7 C8].
  pose proof (λ va Hva, protecting_desc _ _ _ _ _ va Hok Hpg Hp Hva) as Hd.
  assert (user_range (r_gaddr r) (r_size r)) as Hu.
  { destruct Hr as [[? ?] [? ?] ?]. unfold r_end, user_addr_max in *. split; [done|]. split; [done|lia]. }
  split; [apply Hpg|..].
  - intros va v Hva (v0 & Hf & _)%repainted_some. eauto.
  - intros va Hva Hl. specialize (C3 va Hva Hl). unfold agrees in *. pose proof (elem_of_range _ _ va Hu Hva) as Hin.
    rewrite <- contains_range in Hin. unfold repainted.
    destruct (f va) as [v|]; [|destruct (contains r va); by eapply protecting_none].
    destruct (v_reserved v) eqn:Hres.
    + destruct (contains r va); cbn [fmap option_fmap option_map v_with_prot v_reserved]; rewrite Hres; by eapply protecting_none.
    + apply (protecting_maps _ _ _ _ va _ _ Hok Hpg Hp Hva (hv_flags_range _)) in C3.
      destruct (contains r va); cbn [fmap option_fmap option_map v_with_prot v_reserved v_host v_prot]; rewrite Hres.
      * rewrite decide_True in C3 by (by apply Hin). by rewrite hv_flags_small.
      * rewrite decide_False in C3; [done|]. intros Hx%Hin. done.
  - intros va vb Hva Hvb Hl. destruct (Hd va Hva) as [-> Ei], (Hd vb Hvb) as [-> Ei']. intros Hv Hv'. rewrite Ei, Ei' by done. auto.
  - intros b e He Hi. rewrite (pg_index _ _ _ _ _ Hpg) in Hi. pose proof (pg_s2 _ _ _ _ _ Hpg b) as Hs. rewrite He in Hs.
    destruct (s2_map (m_s2 m) !! b) as [e0|] eqn:He0; [|done]. intros Hz. apply (C5 b e0 He0 Hi). rewrite <- Hz.
    apply count_ext. intros va Hva%elem_of_all_vas. symmetry. by eapply protecting_points.
  - intros va v Hva (v0 & Hf & -> & -> & Hrr)%repainted_some Hres. rewrite Hrr in Hres.
    destruct (C6 va v0 Hva Hf Hres) as [M1 M2 M3 M4]. split; rewrite ?(pg_host _ _ _ _ _ Hpg), ?(pg_arena _ _ _ _ _ Hpg); auto.
  - intros va vb v v' Hva Hvb (v0 & Hf & -> & _ & ->)%repainted_some (v1 & Hf' & -> & _ & ->)%repainted_some. eauto.
  - intros i h va v. rewrite (pg_index _ _ _ _ _ Hpg). intros Hi Hva (v0 & Hf & -> & _ & ->)%repainted_some. eauto.
Qed.
End Machine.

(** * The map and the machine *)

Section Calls.
Context {H V B : Type} `{!HostOps H, !HostIO H, HL : !HostLaws H, HIO : !HostIOLaws H, !HvOps V, HV : !HvLaws V}.
Context (junk : Z → bool).
Implicit Type m : machine H V.
Implicit Type w : world H V B.

Abbreviation shown w := (look (areas (w_mm w))).

Lemma shown_owned w x v :
  world_ok w → shown w x = Some v → v_reserved v = false → owned (shown w) (v_host v).
Proof.
  intros Hw Hx Hv. destruct (look_some _ _ _ Hx) as (r & Hr & Hc & ->). apply list_elem_of_fmap in Hr as (id & -> & Hid).
  set (r := reg (w_mm w) id) in *. pose proof (mk_regs _ (wo_mm _ Hw) id Hid) as [[Hg Hg0] [Hs Hs0] _]. fold r in Hg, Hg0, Hs, Hs0.
  pose proof (fi_low _ _ (wo_fits _ Hw id Hid)) as Hl. fold r in Hl. unfold contains, r_end, user_addr_max, paged, PAGE_4KB in *.
  bool_to_prop. assert (contains r (x - x mod 4096) = true) as Hc.
  { unfold contains, r_end. apply andb_true_iff. rewrite Z.leb_le, Z.ltb_lt. lia_mod. }
  exists (x - x mod 4096), (view_at r (x - x mod 4096)). split.
  { split; [unfold page_aligned; change PAGE with 4096; lia_mod|lia_mod]. }
  split; [apply look_in; [apply (wo_mm _ Hw)|by apply areas_elem|done]|]. split; [done|].
  cbn [view_at v_host]. change PAGE with 4096. lia_mod.
Qed.

(** [v'] is [v] with permission [prot]; a reservation given any is memory, all
    zeros. *)
Definition reprot (prot : Z) (h : H) (v v' : view) : Prop :=
  v_prot v' = prot ∧ v_sealed v' = v_sealed v ∧ v_flags v' = v_flags v ∧ v_shm v' = v_shm v ∧
  if v_reserved v && negb (prot =? 0) then v_reserved v' = false ∧ h_mem h (v_host v') = 0
  else v_host v' = v_host v ∧ v_off v' = v_off v ∧ v_reserved v' = v_reserved v.

(** [w'] is [w] with permission [prot] on [lo, hi), all of it mapped. *)
Record repro w (lo hi prot : Z) w' : Prop := {
  rp_ok : world_ok w';
  rp_range : paged lo ∧ paged hi ∧ lo ≤ hi;
  rp_in x : lo ≤ x < hi → ∃ v v', shown w x = Some v ∧ shown w' x = Some v' ∧ reprot prot (w_host w') v v';
  rp_out x : ¬ lo ≤ x < hi → shown w' x = shown w x;
  rp_mem x : owned (shown w) x → h_mem (w_host w') x = h_mem (w_host w) x;
  rp_room j : 0 ≤ j → room (4 * pages (hi - lo) + j) (w_m w) → room j (w_m w');
  rp_settings : settings (w_mm w') = settings (w_mm w);
  rp_fd : arena_backing_fd (m_arena (w_m w')) = arena_backing_fd (m_arena (w_m w));
  rp_rest : w_vkern w' = w_vkern w ∧ w_kern_brk w' = w_kern_brk w ∧ w_binder w' = w_binder w;
}.

(** The guest's memory is still its memory. *)
Lemma repro_owned w lo hi prot w' x : repro w lo hi prot w' → owned (shown w) x → owned (shown w') x.
Proof.
  intros Hr (va & v & Hva & Hf & Hv & Hx).
  destruct (decide (lo ≤ va < hi)) as [Hin|Hout].
  - destruct (rp_in _ _ _ _ _ Hr va Hin) as (v0 & v' & Hf0 & Hf' & _ & _ & _ & _ & He). rewrite Hf in Hf0. injection Hf0 as <-.
    rewrite Hv in He. destruct He as (E1 & E2 & E3). exists va, v'. split; [done|]. split; [done|]. rewrite E1, E3. done.
  - exists va, v. split; [done|]. split; [by rewrite (rp_out _ _ _ _ _ Hr)|done].
Qed.

Lemma repro_trans w lo mid hi prot w1 w2 :
  repro w lo mid prot w1 → repro w1 mid hi prot w2 → repro w lo hi prot w2.
Proof.
  intros R1 R2. pose proof (rp_range _ _ _ _ _ R1) as (P1 & P2 & L1). pose proof (rp_range _ _ _ _ _ R2) as (_ & P3 & L2).
  split; [apply R2|split; [done|split; [done|lia]]|..].
  - intros x Hx. destruct (decide (x < mid)).
    + destruct (rp_in _ _ _ _ _ R1 x ltac:(lia)) as (v & v' & Hv & Hv' & E1 & E2 & E3 & E4 & E5). exists v, v'.
      split; [done|]. split; [by rewrite (rp_out _ _ _ _ _ R2) by lia|]. do 4 (split; [done|]).
      destruct (v_reserved v && negb (prot =? 0)); [|done]. destruct E5 as [E5 E6]. split; [done|].
      rewrite (rp_mem _ _ _ _ _ R2); [done|]. eapply shown_owned; [apply R1|done|done].
    + destruct (rp_in _ _ _ _ _ R2 x ltac:(lia)) as (v & v' & Hv & Hv' & E). exists v, v'.
      rewrite (rp_out _ _ _ _ _ R1) in Hv by lia. done.
  - intros x Hx. rewrite (rp_out _ _ _ _ _ R2), (rp_out _ _ _ _ _ R1); [done|lia|lia].
  - intros x Ho. rewrite (rp_mem _ _ _ _ _ R2), (rp_mem _ _ _ _ _ R1); [done|done|]. by eapply repro_owned.
  - intros j Hj Hr. apply (rp_room _ _ _ _ _ R2); [done|]. apply (rp_room _ _ _ _ _ R1).
    + unfold pages. change PAGE with 4096. lia_mod.
    + eapply room_le; [|exact Hr]. unfold pages, paged, PAGE_4KB in *. change PAGE with 4096. lia_mod.
  - by rewrite (rp_settings _ _ _ _ _ R2), (rp_settings _ _ _ _ _ R1).
  - by rewrite (rp_fd _ _ _ _ _ R2), (rp_fd _ _ _ _ _ R1).
  - destruct (rp_rest _ _ _ _ _ R1) as (E1 & E2 & E3), (rp_rest _ _ _ _ _ R2) as (-> & -> & ->). done.
Qed.

Lemma recut_repro w lo prot w' : world_ok w → paged lo → recut w w' → repro w lo lo prot w'.
Proof.
  intros Hw Hp Hr. pose proof Hr as [R1 R2 R3 R4 R5 R6]. split; try done.
  - intros x Hx. lia.
  - intros x _. apply R2.
  - intros x Ho. apply (qu_mem _ _ _ R4). by apply owned_held.
  - intros j Hj. rewrite Z.sub_diag, R3. cbn. apply room_with; done.
  - apply R2.
  - by rewrite R3.
Qed.

(** ** One region *)

(** The record of one region rewritten, with the machine that goes with it. *)
Lemma world_upd w id g mach :
  world_ok w → id ∈ mm_list (w_mm w) → let r := reg (w_mm w) id in
  r_gaddr (g r) = r_gaddr r → r_size (g r) = r_size r →
  arena_backing_fd (m_arena mach) = arena_backing_fd (m_arena (w_m w)) →
  fits (arena_backing_fd (m_arena (w_m w))) (g r) → coherent (with_region (g r) (shown w)) mach →
  let w' := set_machine mach (set_mm (upd id g (w_mm w)) w) in
  world_ok w' ∧ ∀ x, shown w' x = with_region (g r) (shown w) x.
Proof.
  intros Hw Hid r Hg Hs Hfd Hfit Hc w'. pose proof (wo_mm _ Hw) as Hok.
  assert (r_end (g r) = r_end r) as He by (unfold r_end; congruence).
  assert (∀ x, shown w' x = with_region (g r) (shown w) x) as Hsh.
  { intros x. pose proof Hid as (a & b & Hl)%list_elem_of_split. change (look (areas (upd id g (w_mm w))) x = with_region (g r) (shown w) x).
    rewrite (areas_upd _ _ _ a b Hok Hl). fold r. unfold with_region.
    pose proof (areas_split (w_mm w) a id b Hl) as Ha. fold r in Ha.
    assert (contains (g r) x = contains r x) as Hcx by (unfold contains; by rewrite Hg, He).
    rewrite Hcx. destruct (contains r x) eqn:E.
    - pose proof (look_in (areas (w_mm w)) r x (mk_sorted _ Hok) ltac:(by apply areas_elem) E) as Hr.
      rewrite Ha, look_app in Hr. rewrite look_app. cbn [look] in *. rewrite Hcx, E in *.
      destruct (look (reg (w_mm w) <$> a) x) eqn:Ea; [|done]. exfalso.
      destruct (look_some _ _ _ Ea) as (s & Hs' & Hcs & _). pose proof (mk_sorted _ Hok) as Hst. rewrite Ha in Hst.
      apply pairwise_app in Hst as (_ & _ & Hst). specialize (Hst s r Hs' ltac:(left)). unfold before, contains in *. bool_to_prop. lia.
    - rewrite Ha, !look_app. cbn [look]. by rewrite Hcx, E. }
  split; [|done]. split.
  - apply mm_ok_upd; [done|done| |done|fold r; lia]. destruct (mk_regs _ Hok id Hid) as [R1 R2 R3]. fold r in R1, R2, R3.
    fold r. split; rewrite ?Hg, ?Hs, ?He; done.
  - intros x Hx. change (x ∈ mm_list (w_mm w)) in Hx. change (fits (arena_backing_fd (m_arena mach)) (reg (upd id g (w_mm w)) x)).
    rewrite Hfd. destruct (decide (x = id)) as [->|Hne].
    + rewrite reg_upd_eq by (by apply (mk_heap _ Hok)). done.
    + rewrite reg_upd_ne by done. by apply (wo_fits _ Hw).
  - apply (coherent_ext (with_region (g r) (shown w))); [|done]. intros va _. apply Hsh.
Qed.

Lemma alloc_made w n :
  world_ok w → page_aligned n → 0 < n ≤ 2^31 → arena_brk (m_arena (w_m w)) ≤ 2^61 →
  match arena_alloc n (m_arena (w_m w)) (w_host w) with
  | Ret (p, off, a, h) => let m' := with_mem a h (w_m w) in
      made w n m' ∧ spare m' p n off ∧ 0 < p ∧ 0 ≤ off ∧ off + n ≤ 2^62 ∧ ∀ d, 0 ≤ d < n → h_mem h (p + d) = 0
  | Stop s => s = NoMemory
  end.
Proof.
  intros Hw Hn Hn0 Hbrk. pose proof (alloc_spare (shown w) (w_m w) n (wo_co _ Hw) Hn ltac:(lia) Hbrk) as Ha. unfold w_host.
  destruct (arena_alloc n _ _) as [[[[p off] a] h]|s]; [|done].
  destruct Ha as (Hc1 & Hsp & Hoff0 & Hp & Hk & Hfd & Hbrk' & Hoff & Hz & _). cbv zeta.
  destruct (roundup_spec n ARENA_GRANULE) as [HN _]; [done|lia|unfold ARENA_GRANULE; lia|].
  split; [|split; [done|]; split; [done|]; split; [done|]; split; [lia|done]]. split; try done.
  cbn [m_arena with_mem]. lia.
Qed.

(** A reservation gets memory, and the hardware the permission. *)
Lemma region_materialize_spec w id prot :
  world_ok w → id ∈ mm_list (w_mm w) → let r := reg (w_mm w) id in
  r_reserved r = true → 0 ≤ prot < 8 → room (4 * pages (r_size r)) (w_m w) →
  match region_materialize id prot w with
  | Ret (ret, w') => ret = 0 ∧ ∃ p off mach,
      w' = set_machine mach (set_mm (upd id (set_memory p off false) (w_mm w)) w) ∧
      coherent (with_region (set_prot prot (set_memory p off false r)) (shown w)) mach ∧ off + r_size r ≤ 2^62 ∧
      arena_backing_fd (m_arena mach) = arena_backing_fd (m_arena (w_m w)) ∧
      (∀ x, owned (shown w) x → h_mem (m_host mach) x = h_mem (w_host w) x) ∧
      (∀ d, 0 ≤ d < r_size r → h_mem (m_host mach) (p + d) = 0) ∧
      ∀ j, 0 ≤ j → room (4 * pages (r_size r) + j) (w_m w) → room j mach
  | Stop s => s = NoMemory
  end.
Proof.
  intros Hw Hid r Hres Hp Hroom. pose proof (wo_mm _ Hw) as Hok. pose proof (mk_regs _ Hok id Hid) as Hr. fold r in Hr.
  pose proof (wo_fits _ Hw id Hid) as [F1 F2 F3 F4]. fold r in F1, F2, F3, F4. pose proof Hr as [[Hg Hg0] [Hs Hs0] Hend].
  assert (arena_brk (m_arena (w_m w)) ≤ 2^61) as Hbrk.
  { destruct Hroom as [Hrm _]. unfold pages in Hrm. change STAGE2_GRANULE with 16384 in Hrm. change PAGE with 4096 in Hrm. lia_mod. }
  unfold region_materialize. fold r. pose proof (alloc_made w (r_size r) Hw Hs ltac:(lia) Hbrk) as Ha.
  destruct (arena_alloc _ _ _) as [[[[p off] a] h]|s]; cbn [mbind outcome_bind]; [|done]. cbv zeta in Ha.
  destruct Ha as (Hm & Hsp & Hp0 & Hoff & Hoff' & Hz). rewrite (proj2 (Z.eqb_neq p 0)) by lia.
  set (m1 := with_mem a h (w_m w)) in *. set (r' := set_prot prot (set_memory p off false r)).
  assert (coherent (without r (shown w)) m1) as Hc1.
  { apply reserved_coherent; [apply Hm|by apply world_shows|done]. }
  assert (region_ok r') as Hr' by (by split).
  assert (contains r' = contains r) as Hcr by done.
  assert (room (3 * pages (r_size r')) m1) as Hroom1.
  { replace (3 * pages _) with (3 * pages (r_size r) + 0) by (cbn; lia). apply (made_room w); try done; try lia. by rewrite Z.add_0_r. }
  pose proof (map_region_spec (without r (shown w)) m1 r' Hc1 Hr' F1 eq_refl) as Hmap.
  ospecialize (Hmap _ Hsp Hroom1). { intros x Hx. unfold without. rewrite <- Hcr, Hx. done. }
  cbn [r' set_prot set_memory r_gaddr r_size r_prot r_haddr] in Hmap. rewrite hv_flags_small in Hmap by done.
  change (w_m (set_mm _ (set_memory_of a h w))) with m1.
  destruct (vmm_mmap (r_gaddr r) (r_size r) prot p m1) as [mach|s]; cbn [mbind outcome_bind]; [|done].
  destruct Hmap as (M1 & M2 & M3 & M4). split; [done|]. exists p, off, mach. split; [done|]. split.
  { apply (coherent_ext (with_region r' (without r (shown w)))); [|done]. intros va _. unfold with_region, without.
    fold r'. change (contains r' va) with (contains r va). by destruct (contains r va). }
  split; [done|]. split; [rewrite M3; apply (ma_fd _ _ _ Hm)|].
  assert (∀ d, 0 ≤ d < r_size r → h_back h (p + d) ≠ None) as Hbk.
  { intros d Hd. apply (spare_bytes (shown w) (shown w) m1 m1 p (r_size r) off d); [apply Hm|done|by left|apply shrunk_refl|done]. }
  split; [|split].
  - intros x Ho. destruct (owned_held w x Hw Ho) as [Hb Hst]. destruct (ma_keeps _ _ _ Hm x Hb) as [K1 K2].
    destruct (M2 x) as [_ ->]; [by rewrite K1|]. by apply K2.
  - intros d Hd. destruct (M2 (p + d)) as [_ ->]; [by apply Hbk|]. by apply Hz.
  - intros j Hj Hr2. apply M4; [done|]. by apply (made_room w); try done; lia.
Qed.

Lemma protect_pages f m r prot :
  coherent f m → region_ok r → r_end r ≤ user_addr_max → 0 ≤ prot < 8 →
  match pt_protect (r_gaddr r) (r_size r) prot m with
  | Ret m' => coherent (repainted r prot f) m' ∧ m_host m' = m_host m ∧ m_arena m' = m_arena m ∧
      ∀ k, room k m → room k m'
  | Stop s => s = NoMemory
  end.
Proof.
  intros Hc Hr Hl Hp. pose proof Hr as [[? ?] [? ?] _].
  pose proof (pt_protect_spec (r_gaddr r) (r_size r) prot m (co_ok _ _ Hc)) as Hs.
  ospecialize (Hs _ _ Hp); [by eapply coherent_linear| |].
  { unfold r_end, user_addr_max in *. split; [done|]. split; [done|lia]. }
  destruct (pt_protect _ _ _ _) as [m'|s]; [|done]. split; [by eapply protected_coherent|].
  split; [apply Hs|]. split; apply Hs.
Qed.

(** A region rewritten to have permission [prot], with all that goes with it. *)
Lemma repro_upd w id g mach prot :
  world_ok w → id ∈ mm_list (w_mm w) → let r := reg (w_mm w) id in
  r_gaddr (g r) = r_gaddr r → r_size (g r) = r_size r →
  arena_backing_fd (m_arena mach) = arena_backing_fd (m_arena (w_m w)) →
  fits (arena_backing_fd (m_arena (w_m w))) (g r) → coherent (with_region (g r) (shown w)) mach →
  (∀ x, owned (shown w) x → h_mem (m_host mach) x = h_mem (w_host w) x) →
  (∀ j, 0 ≤ j → room (4 * pages (r_size r) + j) (w_m w) → room j mach) →
  (∀ x, contains r x = true → reprot prot (m_host mach) (view_at r x) (view_at (g r) x)) →
  let w' := set_machine mach (set_mm (upd id g (w_mm w)) w) in
  repro w (r_gaddr r) (r_end r) prot w' ∧ mm_list (w_mm w') = mm_list (w_mm w) ∧
  (∀ x, x ≠ id → reg (w_mm w') x = reg (w_mm w) x) ∧ reg (w_mm w') id = g r.
Proof.
  intros Hw Hid r Hg Hs Hfd Hfit Hc Hmem Hroom Hre w'. pose proof (wo_mm _ Hw) as Hok.
  destruct (world_upd w id g mach Hw Hid Hg Hs Hfd Hfit Hc) as [Hw' Hsh]. fold r w' in Hw', Hsh.
  destruct (mk_regs _ Hok id Hid) as [[P1 P2] [P3 P4] P5]. fold r in P1, P2, P3, P4, P5.
  assert (∀ x, contains (g r) x = contains r x) as Hcx by (intros x; unfold contains, r_end; by rewrite Hg, Hs).
  split; [|split; [done|split; [|by apply reg_upd_eq, (mk_heap _ Hok)]]]; [|intros x Hx; by apply reg_upd_ne].
  split; try done.
  - unfold r_end, paged, PAGE_4KB in *. split; [done|]. split; [lia_mod|lia].
  - intros x Hx. assert (contains r x = true) as Hcr.
    { unfold contains. apply andb_true_iff. by rewrite Z.leb_le, Z.ltb_lt. }
    exists (view_at r x), (view_at (g r) x). split; [apply look_in; [apply Hok|by apply areas_elem|done]|].
    split; [by rewrite Hsh; unfold with_region; rewrite Hcx, Hcr|]. by apply Hre.
  - intros x Hx. rewrite Hsh. unfold with_region. rewrite Hcx. destruct (contains r x) eqn:E; [|done].
    unfold contains in E. bool_to_prop. lia.
  - intros j. replace (r_end r - r_gaddr r) with (r_size r) by (unfold r_end; lia). apply Hroom.
Qed.

Lemma upd_upd id f g (m : mm) : upd id f (upd id g m) = upd id (λ r, f (g r)) m.
Proof. unfold upd, with_regs. cbn. by rewrite alter_alter_eq. Qed.

Lemma world_view w id x :
  world_ok w → id ∈ mm_list (w_mm w) → contains (reg (w_mm w) id) x = true →
  shown w x = Some (view_at (reg (w_mm w) id) x).
Proof. intros Hw Hid Hc. apply look_in; [apply (wo_mm _ Hw)|by apply areas_elem|done]. Qed.

(** What [protect_region] leaves of region [id]. *)
Definition region_done w id prot w' : Prop :=
  let r := reg (w_mm w) id in
  repro w (r_gaddr r) (r_end r) prot w' ∧ mm_list (w_mm w') = mm_list (w_mm w) ∧
  (∀ x, x ≠ id → reg (w_mm w') x = reg (w_mm w) x) ∧
  r_gaddr (reg (w_mm w') id) = r_gaddr r ∧ r_size (reg (w_mm w') id) = r_size r.

Lemma protect_reserved w id :
  world_ok w → id ∈ mm_list (w_mm w) → r_reserved (reg (w_mm w) id) = true →
  region_done w id 0 (set_mm (upd id (set_prot 0) (w_mm w)) w).
Proof.
  intros Hw Hid Hres. set (r := reg (w_mm w) id) in *.
  pose proof (mk_regs _ (wo_mm _ Hw) id Hid) as Hr. pose proof (wo_fits _ Hw id Hid) as Hfit. fold r in Hr, Hfit.
  replace (set_mm _ w) with (set_machine (w_m w) (set_mm (upd id (set_prot 0) (w_mm w)) w)) by (by destruct w).
  destruct (repro_upd w id (set_prot 0) (w_m w) 0 Hw Hid) as (R1 & R2 & R3 & R4); try done; fold r.
  - by destruct Hfit.
  - apply (coherent_ext (with_region (set_prot 0 r) (without r (shown w)))).
    { intros va _. unfold with_region, without. change (contains (set_prot 0 r)) with (contains r). by destruct (contains r va). }
    apply reserved_region; [|done|apply Hr|apply Hfit|].
    + apply reserved_coherent; [apply Hw|by apply world_shows|done].
    + intros x Hx. change (contains (set_prot 0 r)) with (contains r) in Hx. unfold without. by rewrite Hx.
  - intros j Hj. apply room_le. unfold pages. change PAGE with 4096. destruct Hr as [_ [_ ?] _]. lia_mod.
  - intros x Hx. unfold reprot. cbn [view_at set_prot set_memory v_prot v_sealed v_flags v_shm v_reserved v_host v_off r_prot r_sealed r_flags r_shm_id r_reserved r_haddr r_gaddr r_arena_off]. rewrite Hres. done.
  - split; [done|]. split; [done|]. split; [done|]. rewrite R4. done.
Qed.

Lemma protect_mapped w id prot :
  world_ok w → id ∈ mm_list (w_mm w) → 0 ≤ prot < 8 → let r := reg (w_mm w) id in r_reserved r = false →
  match pt_protect (r_gaddr r) (r_size r) prot (w_m w) with
  | Ret mach => region_done w id prot (set_machine mach (set_mm (upd id (set_prot prot) (w_mm w)) w))
  | Stop s => s = NoMemory
  end.
Proof.
  intros Hw Hid Hp r Hres.
  pose proof (mk_regs _ (wo_mm _ Hw) id Hid) as Hr. pose proof (wo_fits _ Hw id Hid) as Hfit. fold r in Hr, Hfit.
  pose proof (protect_pages (shown w) (w_m w) r prot (wo_co _ Hw) Hr (fi_low _ _ Hfit) Hp) as Hs.
  destruct (pt_protect _ _ _ _) as [mach|s]; [|done]. destruct Hs as (S1 & S2 & S3 & S4).
  destruct (repro_upd w id (set_prot prot) mach prot Hw Hid) as (R1 & R2 & R3 & R4); try done; fold r.
  - by rewrite S3.
  - by destruct Hfit.
  - apply (coherent_ext (repainted r prot (shown w))); [|done]. intros va _. unfold with_region, repainted.
    change (contains (set_prot prot r)) with (contains r). destruct (contains r va) eqn:E; [|done].
    by rewrite (world_view w id va Hw Hid E).
  - intros x _. by rewrite S2.
  - intros j Hj Hrm. apply S4. eapply room_le; [|exact Hrm]. unfold pages. change PAGE with 4096. destruct Hr as [_ [_ ?] _]. lia_mod.
  - intros x Hx. unfold reprot. cbn [view_at set_prot set_memory v_prot v_sealed v_flags v_shm v_reserved v_host v_off r_prot r_sealed r_flags r_shm_id r_reserved r_haddr r_gaddr r_arena_off]. rewrite Hres. done.
  - split; [done|]. split; [done|]. split; [done|]. rewrite R4. done.
Qed.

Lemma protect_new w id prot p off mach :
  world_ok w → id ∈ mm_list (w_mm w) → 0 < prot < 8 → let r := reg (w_mm w) id in r_reserved r = true →
  coherent (with_region (set_prot prot (set_memory p off false r)) (shown w)) mach → off + r_size r ≤ 2^62 →
  arena_backing_fd (m_arena mach) = arena_backing_fd (m_arena (w_m w)) →
  (∀ x, owned (shown w) x → h_mem (m_host mach) x = h_mem (w_host w) x) →
  (∀ d, 0 ≤ d < r_size r → h_mem (m_host mach) (p + d) = 0) →
  (∀ j, 0 ≤ j → room (4 * pages (r_size r) + j) (w_m w) → room j mach) →
  match pt_protect (r_gaddr r) (r_size r) prot mach with
  | Ret mach => region_done w id prot
      (set_machine mach (set_mm (upd id (λ r, set_prot prot (set_memory p off false r)) (w_mm w)) w))
  | Stop s => s = NoMemory
  end.
Proof.
  intros Hw Hid Hp r Hres Hc Hoff Hfd Hmem Hz Hroom.
  pose proof (mk_regs _ (wo_mm _ Hw) id Hid) as Hr. pose proof (wo_fits _ Hw id Hid) as Hfit. fold r in Hr, Hfit.
  set (g := λ r, set_prot prot (set_memory p off false r)) in *. change (set_prot prot (set_memory p off false r)) with (g r) in Hc.
  pose proof (protect_pages _ mach r prot Hc Hr (fi_low _ _ Hfit) ltac:(lia)) as Hs.
  destruct (pt_protect _ _ _ _) as [mach'|s]; [|done]. destruct Hs as (S1 & S2 & S3 & S4).
  destruct (repro_upd w id g mach' prot Hw Hid) as (R1 & R2 & R3 & R4); try done; fold r.
  - by rewrite S3.
  - by destruct Hfit.
  - apply (coherent_ext (repainted r prot (with_region (g r) (shown w)))); [|done]. intros va _. unfold with_region, repainted.
    change (contains (g r)) with (contains r). by destruct (contains r va).
  - intros x Ho. rewrite S2. auto.
  - intros j Hj Hrm. auto.
  - intros x Hx. unfold reprot. cbn [view_at set_prot set_memory v_prot v_sealed v_flags v_shm v_reserved v_host v_off r_prot r_sealed r_flags r_shm_id r_reserved r_haddr r_gaddr r_arena_off g]. rewrite Hres, (proj2 (Z.eqb_neq prot 0)) by lia. cbn [andb negb].
    do 5 (split; [done|]). rewrite S2. unfold contains, r_end in Hx. bool_to_prop. apply Hz. lia.
  - split; [done|]. split; [done|]. split; [done|]. rewrite R4. done.
Qed.

Lemma protect_region_spec w id prot :
  world_ok w → id ∈ mm_list (w_mm w) → 0 ≤ prot < 8 → room (4 * pages (r_size (reg (w_mm w) id))) (w_m w) →
  match protect_region id prot prot w with
  | Ret (ret, w') => ret = 0 ∧ region_done w id prot w'
  | Stop s => s = NoMemory
  end.
Proof.
  intros Hw Hid Hp Hroom. unfold protect_region. change LINUX_PROT_NONE with 0.
  destruct (r_reserved (reg (w_mm w) id)) eqn:Eres; [destruct (prot =? 0) eqn:Ep|]; cbn [andb negb mbind outcome_bind].
  - apply Z.eqb_eq in Ep as ->. cbn [Z.ltb Z.compare]. rewrite Eres. cbn [negb mbind outcome_bind].
    split; [done|]. by apply protect_reserved.
  - apply Z.eqb_neq in Ep. pose proof (region_materialize_spec w id prot Hw Hid Eres Hp Hroom) as Hm.
    destruct (region_materialize id prot w) as [[ret w1]|s]; cbn [mbind outcome_bind]; [|done].
    destruct Hm as (-> & p & off & mach & -> & M1 & M2 & M3 & M4 & M5 & M6). cbn [Z.ltb Z.compare].
    assert (reg (upd id (set_memory p off false) (w_mm w)) id = set_memory p off false (reg (w_mm w) id)) as Er.
    { apply reg_upd_eq, (mk_heap _ (wo_mm _ Hw)), Hid. }
    cbn [w_mm w_m set_machine set_mm]. rewrite Er. cbn [set_memory r_reserved r_gaddr r_size negb].
    pose proof (protect_new w id prot p off mach Hw Hid ltac:(lia) Eres M1 M2 M3 M4 M5 M6) as Hn.
    destruct (pt_protect _ _ _ mach) as [mach'|s]; cbn [mbind outcome_bind]; [|done]. split; [done|].
    cbn [w_mm w_m set_machine set_mm]. rewrite upd_upd. exact Hn.
  - cbn [Z.ltb Z.compare]. rewrite Eres. cbn [negb].
    pose proof (protect_mapped w id prot Hw Hid Hp Eres) as Hn.
    destruct (pt_protect _ _ _ _) as [mach|s]; cbn [mbind outcome_bind]; [|done]. split; [done|exact Hn].
Qed.

(** ** The loop *)

Lemma pages_between lo mid hi :
  paged lo → paged mid → lo ≤ mid ≤ hi → 0 ≤ pages (hi - mid) ∧ pages (hi - lo) = pages (mid - lo) + pages (hi - mid) ∧
  0 ≤ pages (mid - lo).
Proof. unfold pages, paged, PAGE_4KB. change PAGE with 4096. intros. lia_mod. Qed.

Lemma gap_after (m : mm) a id b :
  mm_ok m → mm_list m = a ++ id :: b → (∀ n, head b = Some n → r_gaddr (reg m n) ≠ r_end (reg m id)) →
  look (areas m) (r_end (reg m id)) = None.
Proof.
  intros Hok Hl Hgap. apply look_none. intros r (y & -> & Hy)%list_elem_of_fmap. apply not_true_iff_false. intros Hc.
  pose proof (mk_regs _ Hok id ltac:(rewrite Hl; set_solver)) as [_ [_ ?] _].
  pose proof (split_sides m id a b Hok Hl) as Hsd. rewrite Hl in Hy.
  apply elem_of_app in Hy as [Hy|[->|Hy]%elem_of_cons]; unfold before, contains, r_end in *; bool_to_prop.
  - destruct (Hsd y (or_introl Hy)) as (_ & Hb & _). specialize (Hb Hy). lia.
  - lia.
  - destruct (Hsd y (or_intror Hy)) as (_ & _ & Hb). specialize (Hb Hy).
    destruct b as [|n b]; [by apply elem_of_nil in Hy|]. specialize (Hgap n eq_refl).
    destruct (Hsd n ltac:(right; left)) as (_ & _ & Hbn). specialize (Hbn ltac:(left)).
    apply elem_of_cons in Hy as [->|Hy]; [lia|].
    assert (mm_list m = (a ++ [id]) ++ n :: b) as Hl2 by (by rewrite <- app_assoc).
    destruct (split_sides m n (a ++ [id]) b Hok Hl2 y (or_intror Hy)) as (_ & _ & Hb2). specialize (Hb2 Hy). 
    pose proof (mk_regs _ Hok n ltac:(rewrite Hl; set_solver)) as [_ [_ ?] _].
    unfold before, r_end in *. lia.
Qed.

(** How the loop over the whole regions of the range ends. *)
Definition loop_done w cur end_ prot (e : loop_end) w' : Prop :=
  match e with
  | GotoOut ret => ret = 0 ∧ repro w cur end_ prot w' ∨
      ret = - ENOMEM ∧ ∃ x, cur < x < end_ ∧ shown w x = None ∧ repro w cur x prot w'
  | Return _ => False
  | At id => ∃ x a b, mm_list (w_mm w') = a ++ id :: b ∧ r_gaddr (reg (w_mm w') id) = x ∧ cur ≤ x < end_ ∧
      end_ < r_end (reg (w_mm w') id) ∧ repro w cur x prot w'
  end.

Lemma loop_done_trans w cur x end_ prot e w1 w' :
  repro w cur x prot w1 → cur < x → loop_done w1 x end_ prot e w' → loop_done w cur end_ prot e w'.
Proof.
  intros Hr Hx. destruct e as [ret| |id]; [|done|].
  - intros [[-> H1]|(-> & y & Hy & Hn & H1)]; [left|right]; (split; [done|]).
    + by eapply repro_trans.
    + exists y. split; [lia|]. split; [|by eapply repro_trans]. by rewrite (rp_out _ _ _ _ _ Hr) in Hn by lia.
  - intros (y & a & b & Hl & Hg & Hy & He & H1). exists y, a, b. split; [done|]. split; [done|]. split; [lia|]. split; [done|].
    by eapply repro_trans.
Qed.

Lemma mprotect_loop_spec prot end_ fuel : ∀ w id a b,
  world_ok w → mm_list (w_mm w) = a ++ id :: b → (length b < fuel)%nat → 0 ≤ prot < 8 → paged end_ →
  let cur := r_gaddr (reg (w_mm w) id) in
  cur < end_ ≤ user_addr_max → room (4 * pages (end_ - cur)) (w_m w) →
  match mprotect_loop fuel id prot prot end_ w with
  | Ret (e, w') => loop_done w cur end_ prot e w'
  | Stop s => s = NoMemory
  end.
Proof.
  induction fuel as [|fuel IH]; intros w id a b Hw Hl Hf Hp He cur Hcur Hroom; [lia|]. cbn [mprotect_loop].
  assert (id ∈ mm_list (w_mm w)) as Hid by (rewrite Hl; set_solver).
  pose proof (mk_regs _ (wo_mm _ Hw) id Hid) as [[G1 G2] [G3 G4] G5].
  change (r_gaddr (reg (w_mm w) id) + r_size (reg (w_mm w) id)) with (r_end (reg (w_mm w) id)). rewrite u64_small by (unfold r_end in *; lia).
  assert (repro w cur cur prot w) as Hrefl by (by apply recut_repro; [..|apply recut_refl]).
  destruct (r_end (reg (w_mm w) id) <=? end_) eqn:Ee; bool_to_prop.
  2:{ exists cur, a, b. split; [done|]. split; [done|]. split; [lia|]. split; [lia|done]. }
  pose proof (protect_region_spec w id prot Hw Hid Hp) as Hs. ospecialize (Hs _).
  { eapply room_le; [|exact Hroom]. assert (paged (r_end (reg (w_mm w) id))) as Hpe.
    { clear -G1 G3. unfold r_end, paged, PAGE_4KB in *. lia_mod. }
    destruct (pages_between cur (r_end (reg (w_mm w) id)) end_ G1 Hpe) as (? & Hpg & ?); [subst cur; unfold r_end in *; lia|].
    replace (r_size (reg (w_mm w) id)) with (r_end (reg (w_mm w) id) - cur) by (subst cur; unfold r_end; lia). lia. }
  destruct (protect_region id prot prot w) as [[ret w1]|s]; cbn [mbind outcome_bind]; [|done].
  destruct Hs as (-> & Hrep & Hl1 & Hx & Hg & Hsz). cbn [Z.ltb Z.compare].
  assert (r_end (reg (w_mm w1) id) = r_end (reg (w_mm w) id)) as He1 by (unfold r_end; by rewrite Hg, Hsz).
  change (r_gaddr (reg (w_mm w1) id) + r_size (reg (w_mm w1) id)) with (r_end (reg (w_mm w1) id)). rewrite He1, u64_small by (unfold r_end in *; lia).
  fold cur in Hrep. set (rend := r_end (reg (w_mm w) id)) in *. assert (cur < rend) by (subst rend cur; unfold r_end; lia).
  destruct (rend =? end_) eqn:Eend; bool_to_prop; [left; split; [done|by rewrite <- Eend]|].
  assert (id ∉ a) as Hia by (by apply (list_parts (w_mm w) a id b (wo_mm _ Hw) Hl)).
  assert ((∀ n, head b = Some n → r_gaddr (reg (w_mm w) n) ≠ rend) → loop_done w cur end_ prot (GotoOut (- ENOMEM)) w1) as Hgap.
  { intros Hg'. right. split; [done|]. exists rend. split; [lia|]. split; [by apply (gap_after _ a id b (wo_mm _ Hw))|done]. }
  rewrite Hl1, Hl, next_of_app by done. destruct b as [|n b]; cbn [head]; [by apply Hgap|].
  assert (n ≠ id) as Hn.
  { intros ->. pose proof (mk_nodup _ (wo_mm _ Hw)) as Hnd. rewrite Hl in Hnd. apply NoDup_app in Hnd as (_ & _ & Hnd). apply NoDup_cons in Hnd as [Hnd _]. apply Hnd. left. }
  rewrite Hx by done. destruct (r_gaddr (reg (w_mm w) n) =? rend) eqn:En; cbn [negb]; bool_to_prop.
  2:{ apply Hgap. by intros n' [= <-]. }
  specialize (IH w1 n (a ++ [id]) b (rp_ok _ _ _ _ _ Hrep)). rewrite Hx, En in IH by done.
  ospecialize (IH _ _ Hp He _ _).
  - by rewrite Hl1, Hl, <- app_assoc.
  - cbn in Hf. lia.
  - lia.
  - destruct (rp_range _ _ _ _ _ Hrep) as (P1 & P2 & P3). destruct (pages_between cur rend end_ P1 P2 ltac:(lia)) as (? & ? & ?).
    apply (rp_room _ _ _ _ _ Hrep); [lia|]. eapply room_le; [|exact Hroom]. lia.
  - destruct (mprotect_loop fuel n prot prot end_ w1) as [[e w']|s]; [|done]. by apply (loop_done_trans _ _ rend _ _ _ w1).
Qed.

(** ** Joining *)

(** No more than 2 GiB is mapped in one piece. *)
Definition short_runs w : Prop := ∀ lo hi,
  lo ≤ hi → (∀ x, lo ≤ x < hi → shown w x ≠ None) → hi - lo ≤ 2^31.

Lemma repro_runs w lo hi prot w' : repro w lo hi prot w' → short_runs w → short_runs w'.
Proof.
  intros Hr Hs a b Hab Hx. apply Hs; [done|]. intros x Hin Hn. destruct (decide (lo ≤ x < hi)) as [Hi|Ho].
  - destruct (rp_in _ _ _ _ _ Hr x Hi) as (v & v' & Hv & _). congruence.
  - apply (Hx x Hin). by rewrite (rp_out _ _ _ _ _ Hr).
Qed.

Lemma fits_joinable fd : joinable (λ r, r_end r ≤ user_addr_max ∧ r_arena_off r + r_size r ≤ 2^62 ∧ (r_owns_fd r = true → r_fd r ≠ fd)).
Proof.
  intros r s Hr (R1 & R2 & R3) (S1 & S2 & S3) Hadj. destruct (adjoin_spec r s Hr Hadj) as (Hg & _ & _ & _ & _ & _ & _ & Ho & _).
  destruct Hr as [[_ ?] [_ ?] ?]. unfold r_end, user_addr_max in *. cbn [set_size r_gaddr r_size r_arena_off r_owns_fd r_fd].
  split; [lia|]. split; [|done]. destruct (r_arena_off r <? 0) eqn:E; bool_to_prop; lia.
Qed.

Lemma merge_at_spec a w :
  world_ok w → short_runs w → 0 ≤ a < 2^64 - 1 → ∃ w', merge_at a w = Ret w' ∧ recut w w'.
Proof.
  intros Hw Hs Ha. pose proof (wo_mm _ Hw) as Hok. unfold merge_at. pose proof (find_region_spec a (w_mm w) Hok Ha) as Hf.
  destruct (find_region a (w_mm w)) as [id|]; [|exists w; split; [done|by apply recut_refl]].
  destruct (merge_region_spec id (w_mm w) Hok (proj1 Hf)) as (m' & -> & Hsm & HP). cbn [mbind outcome_bind].
  exists (set_mm m' w). split; [done|]. split; [|exact Hsm|by destruct w as [[]]|apply quiet_refl|done|done].
  pose proof (HP _ (fits_joinable (arena_backing_fd (m_arena (w_m w))))) as Hfit. cbv beta in Hfit.
  split; [apply Hsm| |].
  - intros x Hx. change (x ∈ mm_list m') in Hx. change (fits (arena_backing_fd (m_arena (w_m w))) (reg m' x)).
    destruct (Hfit (λ y Hy, let '(Build_fits _ _ F1 _ F3 F4) := wo_fits _ Hw y Hy in conj F1 (conj F3 F4)) x Hx) as (F1 & F3 & F4).
    split; [done| |done|done]. pose proof (mk_regs _ (sm_ok _ _ Hsm) x Hx) as [_ [_ ?] _].
    replace (r_size (reg m' x)) with (r_end (reg m' x) - r_gaddr (reg m' x)) by (unfold r_end; lia).
    apply Hs; [unfold r_end; lia|]. intros y Hy. rewrite <- (sm_look _ _ Hsm).
    rewrite (look_in (areas m') (reg m' x) y (mk_sorted _ (sm_ok _ _ Hsm)) (areas_elem _ _ Hx)); [done|].
    unfold contains. apply andb_true_iff. by rewrite Z.leb_le, Z.ltb_lt.
  - apply (coherent_ext (shown w)); [|apply Hw]. intros x _. apply (sm_look _ _ Hsm).
Qed.

Lemma mprotect_out_spec w0 addr end_ prot w :
  repro w0 addr end_ prot w → short_runs w0 → 0 ≤ addr < end_ → end_ ≤ user_addr_max →
  ∃ w', mprotect_out addr end_ 0 w = Ret (0, w') ∧ repro w0 addr end_ prot w'.
Proof.
  intros Hr Hs Ha He. unfold user_addr_max in *. unfold mprotect_out. cbn [Z.eqb].
  destruct (rp_range _ _ _ _ _ Hr) as (_ & Hpe & _).
  destruct (merge_at_spec addr w (rp_ok _ _ _ _ _ Hr) (repro_runs _ _ _ _ _ Hr Hs) ltac:(lia)) as (w1 & -> & R1). cbn [mbind outcome_bind].
  pose proof (repro_trans _ _ _ _ _ _ _ Hr (recut_repro _ _ prot _ (rp_ok _ _ _ _ _ Hr) Hpe R1)) as Hr1.
  rewrite u64_small by lia.
  destruct (merge_at_spec (end_ - 1) w1 (rp_ok _ _ _ _ _ Hr1) (repro_runs _ _ _ _ _ Hr1 Hs) ltac:(lia)) as (w2 & -> & R2).
  cbn [mbind outcome_bind]. exists w2. split; [done|].
  exact (repro_trans _ _ _ _ _ _ _ Hr1 (recut_repro _ _ prot _ (rp_ok _ _ _ _ _ Hr1) Hpe R2)).
Qed.

(** ** Seals *)

Definition sealed_at w (x : Z) : bool := match shown w x with Some v => v_sealed v | None => false end.

Lemma range_is_sealed_spec w addr n :
  world_ok w → 0 ≤ addr → 0 < n → addr + n < 2^64 →
  if range_is_sealed addr n (w_mm w) then ∃ x, addr ≤ x < addr + n ∧ sealed_at w x = true
  else ∀ x, addr ≤ x < addr + n → sealed_at w x = false.
Proof.
  intros Hw Ha Hn Hlt. pose proof (wo_mm _ Hw) as Hok. unfold range_is_sealed. rewrite (u64_small (addr + n)) by lia.
  destruct (existsb _ _) eqn:E.
  - apply existsb_exists in E as (id & Hid%list_elem_of_In & Hc). cbv zeta in Hc.
    pose proof (mk_regs _ Hok id Hid) as [[_ ?] [_ ?] He]. unfold r_end in He. rewrite u64_small in Hc by lia. bool_to_prop.
    exists (Z.max addr (r_gaddr (reg (w_mm w) id))). split; [lia|]. unfold sealed_at. rewrite (world_view w id _ Hw Hid); [done|].
    unfold contains, r_end. apply andb_true_iff. rewrite Z.leb_le, Z.ltb_lt. lia.
  - intros x Hx. unfold sealed_at. destruct (shown w x) as [v|] eqn:Ev; [|done].
    destruct (look_some _ _ _ Ev) as (r & Hr & Hc & ->). apply list_elem_of_fmap in Hr as (id & -> & Hid).
    pose proof (mk_regs _ Hok id Hid) as [[_ ?] [_ ?] He]. unfold r_end in He. cbn [view_at v_sealed].
    destruct (r_sealed (reg (w_mm w) id)) eqn:Es; [|done]. exfalso. apply not_true_iff_false in E. apply E.
    apply existsb_exists. exists id. split; [by apply list_elem_of_In|]. cbv zeta. rewrite Es, u64_small by lia.
    unfold contains, r_end in Hc. bool_to_prop. cbn [andb]. apply andb_true_iff. rewrite !Z.ltb_lt. lia.
Qed.

(** ** mprotect *)

Lemma mprotect_from w addr end_ prot id a b :
  world_ok w → short_runs w → mm_list (w_mm w) = a ++ id :: b → 0 ≤ prot < 8 → paged end_ → paged addr → 0 ≤ addr →
  r_gaddr (reg (w_mm w) id) = addr → addr < end_ ≤ user_addr_max → room (4 * pages (end_ - addr)) (w_m w) →
  match ('(e, w) ← mprotect_loop (length (mm_list (w_mm w))) id prot prot end_ w;
          match e with
          | Return r => Ret (r, w)
          | GotoOut ret => mprotect_out addr end_ ret w
          | At id =>
              if r_gaddr (reg (w_mm w) id) <? end_ then
                w ← split junk w id end_;
                '(r, w) ← protect_region id prot prot w;
                mprotect_out addr end_ (if r <? 0 then r else 0) w
              else mprotect_out addr end_ 0 w
          end) with
  | Ret (ret, w') => ret = 0 ∧ repro w addr end_ prot w' ∨
      ret = - ENOMEM ∧ ∃ x, addr < x < end_ ∧ shown w x = None ∧ repro w addr x prot w'
  | Stop s => s = NoMemory
  end.
Proof.
  intros Hw Hs Hl Hp He Hpa Ha Hg Hend Hroom.
  pose proof (mprotect_loop_spec prot end_ (length (mm_list (w_mm w))) w id a b Hw Hl) as Hloop.
  rewrite Hg in Hloop. ospecialize (Hloop _ Hp He Hend Hroom); [rewrite Hl, length_app; cbn; lia|].
  destruct (mprotect_loop _ _ _ _ _ _) as [[e w1]|s]; cbn [mbind outcome_bind]; [|done].
  destruct e as [ret| |id1]; [|done|].
  - destruct Hloop as [[-> Hr]|(-> & x & Hx & Hn & Hr)].
    + destruct (mprotect_out_spec w addr end_ prot w1 Hr Hs ltac:(lia) ltac:(lia)) as (w' & -> & Hr'). by left.
    + right. split; [done|]. by exists x.
  - destruct Hloop as (x & a1 & b1 & Hl1 & Hg1 & Hx & Hend1 & Hr). rewrite Hg1. rewrite (proj2 (Z.ltb_lt x end_)) by lia.
    destruct (rp_range _ _ _ _ _ Hr) as (_ & Hpx & _).
    destruct (split_spec junk w1 id1 end_ a1 b1 (rp_ok _ _ _ _ _ Hr) Hl1 He ltac:(lia)) as (w2 & tid & -> & Hrc & Hl2 & Hreg & _).
    cbn [mbind outcome_bind].
    pose proof (repro_trans _ _ _ _ _ _ _ Hr (recut_repro _ _ prot _ (rp_ok _ _ _ _ _ Hr) Hpx Hrc)) as Hr2.
    assert (r_gaddr (reg (w_mm w2) id1) = x ∧ r_size (reg (w_mm w2) id1) = end_ - x) as [Hg2 Hs2] by (rewrite Hreg, <- Hg1; done).
    destruct (pages_between addr x end_ Hpa Hpx ltac:(lia)) as (? & ? & ?).
    pose proof (protect_region_spec w2 id1 prot (rp_ok _ _ _ _ _ Hr2) ltac:(rewrite Hl2; set_solver) Hp) as Hpr.
    ospecialize (Hpr _).
    { rewrite Hs2. apply (rp_room _ _ _ _ _ Hr2); [lia|]. eapply room_le; [|exact Hroom]. lia. }
    destruct (protect_region id1 prot prot w2) as [[ret w3]|s]; cbn [mbind outcome_bind]; [|done].
    destruct Hpr as (-> & Hr3 & _). cbn [Z.ltb Z.compare]. unfold r_end in Hr3. rewrite Hg2, Hs2 in Hr3.
    replace (x + (end_ - x)) with end_ in Hr3 by lia.
    destruct (mprotect_out_spec w addr end_ prot w3 (repro_trans _ _ _ _ _ _ _ Hr2 Hr3) Hs ltac:(lia) ltac:(lia)) as (w' & -> & Hr'). by left.
Qed.

(** What mprotect answers and leaves. *)
Definition mprotected w addr n prot ret w' : Prop :=
  (ret = - EPERM ∧ w' = w ∧ ∃ x, addr ≤ x < addr + n ∧ sealed_at w x = true) ∨
  (∀ x, addr ≤ x < addr + n → sealed_at w x = false) ∧
  (ret = 0 ∧ repro w addr (addr + n) prot w' ∨
   ret = - ENOMEM ∧ ∃ x, addr ≤ x < addr + n ∧ shown w x = None ∧ repro w addr x prot w').

Lemma sys_mprotect_spec addr len prot w :
  let n := roundup len PAGE_4KB in
  world_ok w → short_runs w → paged addr → 0 ≤ addr → 0 < len → addr + n ≤ user_addr_max → len ≤ 2^39 → 0 ≤ prot < 8 →
  room (4 * pages n) (w_m w) →
  match sys_mprotect junk addr len prot w with
  | Ret (ret, w') => mprotected w addr n prot ret w'
  | Stop s => s = NoMemory
  end.
Proof.
  intros n Hw Hs Hpa Ha Hlen Hlow Hl39 Hp Hroom. unfold user_addr_max in Hlow.
  destruct (roundup_spec len PAGE_4KB) as [Hn Hnm]; [unfold PAGE_4KB; lia..|]. fold n in Hn, Hnm.
  unfold sys_mprotect. rewrite (proj2 (is_page_aligned_spec addr) Hpa), (proj2 (Z.eqb_neq len 0)) by lia. cbn [negb orb].
  change (roundup len PAGE_4KB) with n. rewrite (u64_small (addr + n)) by lia. rewrite hv_flags_small by done.
  pose proof (range_is_sealed_spec w addr n Hw Ha ltac:(lia) ltac:(lia)) as Hseal.
  destruct (range_is_sealed addr n (w_mm w)); [by left|].
  assert (paged (addr + n)) as Hpe by (clear -Hpa Hnm; unfold paged, PAGE_4KB in *; lia_mod).
  assert (∀ w', recut w w' → repro w addr addr prot w') as Hrc by (intros w'; by apply recut_repro).
  pose proof (find_region_spec addr (w_mm w) (wo_mm _ Hw) ltac:(lia)) as Hf.
  destruct (find_region addr (w_mm w)) as [id|].
  2:{ right. split; [done|]. right. split; [done|]. exists addr. split; [lia|]. split; [done|]. by apply Hrc, recut_refl. }
  destruct Hf as [(a & b & Hl)%list_elem_of_split Hc]. unfold contains in Hc. bool_to_prop.
  destruct (trim_left_spec junk addr id w a b Hw Hl Hpa ltac:(lia)) as (id1 & w1 & a1 & -> & Hr1 & Hl1 & Hg1 & _).
  cbn [mbind outcome_bind]. specialize (Hrc w1 Hr1).
  pose proof (mprotect_from w1 addr (addr + n) prot id1 a1 b (rk_ok _ _ Hr1) (repro_runs _ _ _ _ _ Hrc Hs) Hl1 Hp Hpe Hpa Ha) as Hm.
  ospecialize (Hm _ _ _); [lia|unfold user_addr_max; lia| |].
  { replace (addr + n - addr) with n by lia. replace (4 * pages n) with (4 * pages n + 0) in Hroom by lia.
    apply (rp_room _ _ _ _ _ Hrc); [|rewrite Z.sub_diag; cbn; by replace (4 * pages n) with (4 * pages n + 0) by lia].
    unfold pages. change PAGE with 4096. clear -Hn Hlen. lia_mod. }
  destruct (x ← _; _) as [[ret w']|s]; [|done]. right. split; [done|].
  destruct Hm as [[-> Hm]|(-> & x & Hx & Hn' & Hm)]; [left|right]; (split; [done|]).
  - by eapply repro_trans.
  - exists x. split; [lia|]. split; [|by eapply repro_trans]. rewrite <- Hn'. symmetry. apply Hr1.
Qed.

(** ** mseal *)

(** The walk that asks whether the whole range is mapped. *)
Lemma all_mapped_spec (m : mm) err end_ fuel : ∀ p,
  mm_ok m → 0 ≤ p → end_ < 2^64 - 1 → (ahead m p < fuel)%nat →
  (all_mapped fuel p end_ err m = Ret 0 ∧ ∀ x, p ≤ x < end_ → look (areas m) x ≠ None) ∨
  (all_mapped fuel p end_ err m = Ret (- err) ∧ ∃ x, p ≤ x < end_ ∧ look (areas m) x = None).
Proof.
  induction fuel as [|fuel IH]; intros p Hok Hp He Hf; [lia|]. cbn [all_mapped].
  destruct (p <? end_) eqn:Ep; bool_to_prop; [|left; split; [done|lia]].
  pose proof (find_region_spec p m Hok ltac:(lia)) as Hfind.
  destruct (find_region p m) as [id|]; [|right; split; [done|by exists p]]. destruct Hfind as [Hid Hc].
  pose proof (ahead_step m p id Hid Hc) as Hs. pose proof (mk_regs _ Hok id Hid) as [[_ ?] [_ ?] Hend].
  change (r_gaddr (reg m id) + r_size (reg m id)) with (r_end (reg m id)). rewrite u64_small by (unfold r_end in *; lia).
  assert (∀ x, p ≤ x < r_end (reg m id) → look (areas m) x ≠ None) as Hin.
  { intros x Hx. rewrite (look_in (areas m) (reg m id) x (mk_sorted _ Hok) (areas_elem _ _ Hid)); [done|].
    unfold contains in *. bool_to_prop. apply andb_true_iff. rewrite Z.leb_le, Z.ltb_lt. lia. }
  unfold contains in Hc. bool_to_prop. destruct (IH (r_end (reg m id)) Hok ltac:(lia) He ltac:(lia)) as [[-> Hall]|[-> (x & Hx & Hn)]].
  - left. split; [done|]. intros x Hx. destruct (decide (x < r_end (reg m id))); [apply Hin; lia|apply Hall; lia].
  - right. split; [done|]. exists x. split; [lia|done].
Qed.

Definition v_seal (v : view) : view :=
  mk_view (v_host v) (v_off v) (v_prot v) true (v_flags v) (v_reserved v) (v_shm v).

(** [w'] is [w] with [lo, hi), all of it mapped, sealed. *)
Record sealing w (lo hi : Z) w' : Prop := {
  sl_ok : world_ok w';
  sl_in x : lo ≤ x < hi → ∃ v, shown w x = Some v ∧ shown w' x = Some (v_seal v);
  sl_out x : ¬ lo ≤ x < hi → shown w' x = shown w x;
  sl_settings : settings (w_mm w') = settings (w_mm w);
  sl_machine : w_m w' = with_mem (m_arena (w_m w)) (w_host w') (w_m w);
  sl_quiet : quiet (arena_backing_fd (m_arena (w_m w))) (w_host w) (w_host w');
  sl_rest : w_vkern w' = w_vkern w ∧ w_kern_brk w' = w_kern_brk w ∧ w_binder w' = w_binder w;
}.

Lemma sealing_trans w lo mid hi w1 w2 :
  lo ≤ mid ≤ hi → sealing w lo mid w1 → sealing w1 mid hi w2 → sealing w lo hi w2.
Proof.
  intros Hm [S1 S2 S3 S4 S5 S6 (S7 & S8 & S9)] [T1 T2 T3 T4 T5 T6 (T7 & T8 & T9)]. split; try congruence.
  - intros x Hx. destruct (decide (x < mid)).
    + rewrite T3 by lia. apply S2. lia.
    + rewrite <- S3 by lia. apply T2. lia.
  - intros x Hx. rewrite T3, S3; [done|lia|lia].
  - rewrite T5, S5. done.
  - eapply quiet_trans; [done|]. by rewrite S5 in T6.
  - split_and!; congruence.
Qed.

Lemma recut_sealing w lo w' : recut w w' → sealing w lo lo w'.
Proof. intros [R1 R2 R3 R4 R5 R6]. split; [done|intros x Hx; lia|intros x _; apply R2|apply R2|done..]. Qed.

Lemma seal_region w id :
  world_ok w → id ∈ mm_list (w_mm w) → let r := reg (w_mm w) id in
  let w' := set_mm (upd id set_sealed (w_mm w)) w in
  sealing w (r_gaddr r) (r_end r) w' ∧ mm_list (w_mm w') = mm_list (w_mm w) ∧ reg (w_mm w') id = set_sealed r.
Proof.
  intros Hw Hid r w'. pose proof (wo_mm _ Hw) as Hok. pose proof (wo_fits _ Hw id Hid) as Hfit. fold r in Hfit.
  assert (w' = set_machine (w_m w) w') as Ew by (by destruct w).
  destruct (world_upd w id set_sealed (w_m w) Hw Hid eq_refl eq_refl eq_refl) as [Hw' Hsh]; fold r; [by destruct Hfit| |].
  { destruct (wo_co _ Hw) as [C1 C2 C3 C4 C5 C6 C7 C8]. fold r.
    assert (∀ x v, with_region (set_sealed r) (shown w) x = Some v → ∃ v0, shown w x = Some v0 ∧ v_host v = v_host v0 ∧
      v_off v = v_off v0 ∧ v_reserved v = v_reserved v0 ∧ v_prot v = v_prot v0) as Hback.
    { intros x v. unfold with_region. destruct (contains (set_sealed r) x) eqn:E; [|by intros Hv; exists v].
      intros [= <-]. exists (view_at r x). split; [by apply (world_view w id)|done]. }
    split; [done| | |done|done|..].
    - intros va v Hva (v0 & Hf & _)%Hback. eauto.
    - intros va Hva Hl. specialize (C3 va Hva Hl). unfold agrees in *. destruct (with_region _ _ va) as [v|] eqn:E.
      + apply Hback in E as (v0 & Hf & -> & _ & -> & ->). by rewrite Hf in C3.
      + unfold with_region in E. destruct (contains (set_sealed r) va); [done|]. by rewrite E in C3.
    - intros va v Hva (v0 & Hf & -> & -> & -> & _)%Hback. eauto.
    - intros va vb v v' Hva Hvb (v0 & Hf & -> & _ & -> & _)%Hback (v1 & Hf' & -> & _ & -> & _)%Hback. eauto.
    - intros i h va v Hi Hva (v0 & Hf & -> & _ & -> & _)%Hback. eauto. }
  fold r w' in Hw', Hsh. rewrite <- Ew in Hw', Hsh.
  split; [|split; [done|by apply reg_upd_eq, (mk_heap _ Hok)]].
  split; [done| | |done|by destruct w as [[]]|apply quiet_refl|done].
  - intros x Hx. assert (contains r x = true) as Hc by (unfold contains; apply andb_true_iff; by rewrite Z.leb_le, Z.ltb_lt).
    exists (view_at r x). split; [by apply (world_view w id)|]. rewrite Hsh. unfold with_region.
    change (contains (set_sealed r)) with (contains r). by rewrite Hc.
  - intros x Hx. rewrite Hsh. unfold with_region. change (contains (set_sealed r)) with (contains r).
    destruct (contains r x) eqn:E; [|done]. unfold contains in E. bool_to_prop. lia.
Qed.

(** One step of the sealing loop: the part of region [id] that is in the range. *)
Lemma seal_step w p end_ id a b :
  world_ok w → mm_list (w_mm w) = a ++ id :: b → contains (reg (w_mm w) id) p = true → paged p → paged end_ →
  0 ≤ p < end_ → end_ < 2^64 →
  ∃ w' q b', ('(id, w) ←
      (if r_gaddr (reg (w_mm w) id) <? p then
         w ← split junk w id p;
         match next_of id (mm_list (w_mm w)) with Some id => Ret (id, w) | None => Stop Faulted end
       else Ret (id, w));
    let r := reg (w_mm w) id in
    w ← (if u64 (r_gaddr r + r_size r) >? end_ then split junk w id end_ else Ret w);
    let w := set_mm (upd id set_sealed (w_mm w)) w in
    let r := reg (w_mm w) id in
    Ret (u64 (r_gaddr r + r_size r), w)) = Ret (q, w') ∧
    q = Z.min end_ (r_end (reg (w_mm w) id)) ∧ paged q ∧ sealing w p q w' ∧
    (q = end_ ∨ ∃ a' id', mm_list (w_mm w') = a' ++ id' :: b ∧ r_end (reg (w_mm w') id') = q ∧ b' = b).
Proof.
  intros Hw Hl Hc Hp He Hpe He64. unfold contains in Hc. bool_to_prop.
  destruct (trim_left_spec junk p id w a b Hw Hl Hp ltac:(lia)) as (id1 & w1 & a1 & -> & Hr1 & Hl1 & Hg1 & He1 & _).
  cbn [mbind outcome_bind]. rewrite Z.max_l in Hg1 by lia.
  destruct (trim_right_spec junk end_ id1 w1 a1 b (rk_ok _ _ Hr1) Hl1 He ltac:(lia) ltac:(lia)) as (w2 & b2 & -> & Hr2 & Hl2 & Hg2 & He2 & _ & _ & Hb2).
  cbn [mbind outcome_bind]. rewrite Hg1 in Hg2. rewrite He1 in He2, Hb2.
  destruct (seal_region w2 id1 (rk_ok _ _ Hr2) ltac:(rewrite Hl2; set_solver)) as (Hs & Hl3 & Hreg).
  set (w3 := set_mm _ w2) in *. rewrite Hreg. cbn [set_sealed r_gaddr r_size].
  change (r_gaddr (reg (w_mm w2) id1) + r_size (reg (w_mm w2) id1)) with (r_end (reg (w_mm w2) id1)). rewrite Hg2, He2 in *.
  pose proof (mk_regs _ (wo_mm _ Hw) id ltac:(rewrite Hl; set_solver)) as [[G1 _] [G2 _] G3].
  exists w3, (Z.min end_ (r_end (reg (w_mm w) id))), b. split; [by rewrite u64_small by lia|]. split; [done|].
  split; [clear -G1 G2 He; unfold r_end, paged, PAGE_4KB in *; lia_mod|]. split.
  { eapply (sealing_trans _ p p); [lia|apply recut_sealing; by eapply recut_trans|done]. }
  destruct Hb2 as [[-> Hle]|(tid & -> & _ & Hlt)]; [right|left; lia].
  exists a1, id1. rewrite Hl3. split; [done|]. split; [|done]. unfold r_end in *. rewrite Hreg. cbn [set_sealed r_gaddr r_size]. done.
Qed.

Lemma cut_unique (i : Z) a b a' b' : NoDup (a ++ i :: b) → a ++ i :: b = a' ++ i :: b' → b = b'.
Proof.
  revert a'. induction a as [|x a IH]; intros [|x' a'] Hnd E; cbn in *.
  - by injection E.
  - injection E as -> ->. apply NoDup_cons in Hnd as [Hn _]. destruct Hn. set_solver.
  - injection E as -> E. apply NoDup_cons in Hnd as [Hn _]. destruct Hn. set_solver.
  - injection E as -> E. apply NoDup_cons in Hnd as [_ Hnd]. by apply (IH a').
Qed.

(** A region past the end of another has fewer regions after it. *)
Lemma later_shorter (m : mm) a id b a' id' b' :
  mm_ok m → mm_list m = a ++ id :: b → mm_list m = a' ++ id' :: b' →
  contains (reg m id') (r_end (reg m id)) = true → (length b' < length b)%nat.
Proof.
  intros Hok Hl Hl' Hc. pose proof (mk_regs _ Hok id ltac:(rewrite Hl; set_solver)) as [_ [_ ?] _].
  assert (id' ∈ a ++ id :: b) as Hin by (rewrite <- Hl, Hl'; set_solver).
  pose proof (split_sides m id a b Hok Hl id') as Hsd. unfold contains, before, r_end in *. bool_to_prop.
  apply elem_of_app in Hin as [Hin|[->|Hin]%elem_of_cons]; [|lia|].
  - destruct (Hsd (or_introl Hin)) as (_ & Hb & _). specialize (Hb Hin). lia.
  - apply list_elem_of_split in Hin as (b1 & b2 & ->). pose proof (mk_nodup _ Hok) as Hnd.
    assert (mm_list m = (a ++ id :: b1) ++ id' :: b2) as Hl2 by (by rewrite Hl, <- app_assoc).
    rewrite Hl' in Hnd. rewrite (cut_unique id' a' b' (a ++ id :: b1) b2 Hnd) by congruence.
    rewrite length_app. cbn. lia.
Qed.

Lemma seal_loop_spec end_ fuel : ∀ w p,
  world_ok w → paged p → paged end_ → 0 ≤ p ≤ end_ → end_ < 2^64 - 1 → (∀ x, p ≤ x < end_ → shown w x ≠ None) →
  (∀ a id b, mm_list (w_mm w) = a ++ id :: b → contains (reg (w_mm w) id) p = true → (length b < fuel)%nat) →
  ∃ w', seal_loop junk fuel p end_ w = Ret w' ∧ sealing w p end_ w'.
Proof.
  induction fuel as [|fuel IH]; intros w p Hw Hp He Hpe H64 Hall Hf; cbn [seal_loop].
  all: destruct (p <? end_) eqn:Ep; bool_to_prop;
    [|exists w; split; [done|]; replace end_ with p by lia; by apply recut_sealing, recut_refl].
  all: pose proof (find_region_spec p (w_mm w) (wo_mm _ Hw) ltac:(lia)) as Hfind.
  all: destruct (find_region p (w_mm w)) as [id|]; [|by destruct (Hall p ltac:(lia))].
  all: destruct Hfind as [(a & b & Hl)%list_elem_of_split Hc]; specialize (Hf a id b Hl Hc).
  { lia. }
  destruct (seal_step w p end_ id a b Hw Hl Hc Hp He ltac:(lia) ltac:(lia)) as (w1 & q & b' & E & Hq & Hpq & Hs & Hnext).
  destruct (if r_gaddr (reg (w_mm w) id) <? p then _ else _) as [[id1 v1]|s]; cbn [mbind outcome_bind] in E |- *; [|done].
  destruct (if _ >? end_ then _ else _) as [v2|s]; cbn [mbind outcome_bind] in E |- *; [|done].
  match type of E with Ret (?x, ?y) = _ =>
    assert (x = q ∧ y = w1) as [Ex Ey] by (split; congruence);
    change (∃ w', seal_loop junk fuel x end_ y = Ret w' ∧ sealing w p end_ w'); rewrite Ex, Ey end.
  pose proof (sl_ok _ _ _ _ Hs) as Hw1.
  destruct (decide (q = end_)) as [->|Hne].
  { exists w1. split; [|done]. destruct fuel; cbn [seal_loop]; by rewrite Z.ltb_irrefl. }
  destruct Hnext as [|(a' & id' & Hl' & He' & ->)]; [done|].
  assert (p < q) as Hpq' by (unfold contains in Hc; bool_to_prop; lia).
  destruct (IH w1 q Hw1 Hpq He ltac:(lia) H64) as (w' & -> & Hs').
  - intros x Hx. rewrite (sl_out _ _ _ _ Hs) by lia. apply Hall. lia.
  - intros a2 id2 b2 Hl2 Hc2. pose proof Hl2 as Hl2'. rewrite Hl' in Hl2'.
    enough (length b2 < length b)%nat by lia. by apply (later_shorter (w_mm w1) a' id' b a2 id2 b2 (wo_mm _ Hw1) Hl'); [..|rewrite He'].
  - exists w'. split; [done|]. eapply sealing_trans; [|done|done]. lia.
Qed.

Lemma sys_mseal_spec addr len w :
  world_ok w → paged addr → 0 ≤ addr → 0 < len → addr + len ≤ user_addr_max →
  let end_ := roundup (addr + len) PAGE_4KB in
  ∃ ret w', sys_mseal junk addr len 0 w = Ret (ret, w') ∧
  (ret = 0 ∧ sealing w addr end_ w' ∨ ret = - ENOMEM ∧ w' = w ∧ ∃ x, addr ≤ x < end_ ∧ shown w x = None).
Proof.
  intros Hw Hp Ha Hlen Hlow end_. unfold user_addr_max in Hlow.
  destruct (roundup_spec (addr + len) PAGE_4KB) as [He Hem]; [unfold PAGE_4KB; lia..|]. fold end_ in He, Hem. unfold PAGE_4KB in He.
  unfold sys_mseal. cbn [Z.eqb negb]. change (PAGE_4KB - 1) with (PAGE - 1). rewrite land_page.
  change (addr mod PAGE) with (addr mod PAGE_4KB). rewrite Hp. cbn [Z.eqb negb].
  rewrite (proj2 (Z.eqb_neq len 0)), u64_small, (proj2 (Z.ltb_ge (addr + len) addr)) by lia. fold end_.
  destruct (all_mapped_spec (w_mm w) ENOMEM end_ (S (length (mm_list (w_mm w)))) addr (wo_mm _ Hw) Ha ltac:(lia)) as [[-> Hall]|[-> Hx]].
  - pose proof (ahead_le (w_mm w) addr). lia.
  - cbn [mbind outcome_bind Z.ltb Z.compare].
    destruct (seal_loop_spec end_ (S (length (mm_list (w_mm w)))) w addr Hw Hp Hem ltac:(lia) ltac:(lia) Hall) as (w' & -> & Hs).
    { intros a id b Hl _. rewrite Hl, length_app. cbn. lia. }
    cbn [mbind outcome_bind]. exists 0, w'. split; [done|]. by left.
  - cbn [mbind outcome_bind]. exists (- ENOMEM), w. split; [done|]. by right.
Qed.
End Calls.
