(* ===== verification/Calls.v ===== *)
(** The memory calls as the guest makes them: what each of them does to the
    guest's address space, that any sequence of them within bounds keeps the
    map, the two translation stages and the host in agreement, and what a seal
    is worth. *)

From S2P Require Import Prelude Errno Host Arena Stage2 PageTable Translation RbTree Regions UserCopy Mmap Coherence Mapping Protect.

Section Calls.
Context {H V B : Type} `{!HostOps H, !HostIO H, HL : !HostLaws H, HIO : !HostIOLaws H, !HvOps V, HV : !HvLaws V, !BinderOps B}.
Context (junk : Z → bool) (counter0 : Z).
Implicit Type w : world H V B.

Abbreviation shown w := (look (areas (w_mm w))).

(** ** One address space, seen twice *)

Lemma look_page_view w x v :
  world_ok w → shown w x = Some v → user_va (x - x mod PAGE) ∧
  ∃ v0, shown w (x - x mod PAGE) = Some v0 ∧ v_reserved v0 = v_reserved v ∧ v_host v = v_host v0 + x mod PAGE.
Proof.
  intros Hw Hx. destruct (look_some _ _ _ Hx) as (r & Hr & Hc & ->). apply list_elem_of_fmap in Hr as (id & -> & Hid).
  set (r := reg (w_mm w) id) in *. pose proof (mk_regs _ (wo_mm _ Hw) id Hid) as [[Hg Hg0] [Hs Hs0] _]. fold r in Hg, Hg0, Hs, Hs0.
  pose proof (fi_low _ _ (wo_fits _ Hw id Hid)) as Hl. fold r in Hl. change PAGE with 4096.
  assert (contains r (x - x mod 4096) = true) as Hc'.
  { clear -Hc Hg Hs. unfold contains, r_end, paged, PAGE_4KB in *. bool_to_prop. apply andb_true_iff. rewrite Z.leb_le, Z.ltb_lt. lia_mod. }
  apply andb_true_iff in Hc as [Hc1%Z.leb_le Hc2%Z.ltb_lt]. unfold r_end, user_addr_max in *. split.
  - split; [unfold page_aligned; change PAGE with 4096; clear; lia_mod|]. clear -Hc1 Hc2 Hg0 Hl. lia_mod.
  - exists (view_at r (x - x mod 4096)). split; [by apply (world_view w id)|]. split; [done|]. cbn [view_at v_host]. lia.
Qed.

(** The processor, by way of the two stages, and the kernel, by way of the
    region map, reach the same host byte from every address of the guest's, or
    neither reaches any. *)
Lemma kernel_and_hardware_spec w (vkern : mm) a :
  world_ok w → mm_ok vkern → 0 ≤ a < user_addr_max → look (areas vkern) a = None →
  guest_to_host a (w_mm w) vkern = (λ '(h, p, q), h + a mod PAGE) <$> xlate (w_m w) (a - a mod PAGE).
Proof.
  intros Hw Hvk Ha Hno. unfold user_addr_max in Ha.
  assert (untag_gaddr a = a) as Hu.
  { unfold untag_gaddr. change 0x00ffffffffffffff with (Z.ones 56). rewrite Z.land_ones by done. apply Z.mod_small. lia. }
  rewrite guest_to_host_look by (done || apply Hw). rewrite Hu, Hno.
  assert (user_va (a - a mod PAGE)) as Hva.
  { change PAGE with 4096. split; [unfold page_aligned; change PAGE with 4096; clear; lia_mod|]. clear -Ha. lia_mod. }
  assert (a - a mod PAGE < user_addr_max) as Hlow by (unfold user_addr_max; pose proof (Z.mod_pos_bound a PAGE eq_refl); lia).
  pose proof (co_agree _ _ (wo_co _ Hw) _ Hva Hlow) as Hag. unfold agrees in Hag.
  destruct (shown w a) as [v|] eqn:Ev.
  - destruct (look_page_view w a v Hw Ev) as (_ & v0 & Hv0 & Hres & Hh). rewrite Hv0, Hres in Hag.
    destruct (v_reserved v); [by rewrite Hag|]. destruct Hag as (q & -> & _). cbn. by rewrite Hh.
  - destruct (shown w (a - a mod PAGE)) as [v0|] eqn:E0; [exfalso|by rewrite Hag].
    rewrite look_none in Ev. destruct (look_some _ _ _ E0) as (r & Hr & Hc & _). specialize (Ev r Hr).
    apply list_elem_of_fmap in Hr as (id & -> & Hid). apply not_true_iff_false in Ev. apply Ev.
    pose proof (mk_regs _ (wo_mm _ Hw) id Hid) as [[Hg _] [Hs _] _]. change PAGE with 4096 in Hc.
    clear -Hc Hg Hs. unfold contains, r_end, paged, PAGE_4KB in *. bool_to_prop. apply andb_true_iff. rewrite Z.leb_le, Z.ltb_lt. lia_mod.
Qed.

(** ** munmap *)

Definition munmapped w addr n ret w' : Prop :=
  (ret = - EPERM ∧ w' = w ∧ ∃ x, addr ≤ x < addr + n ∧ sealed_at w x = true) ∨
  (∀ x, addr ≤ x < addr + n → sealed_at w x = false) ∧ unmapped_to w (cleared addr n (shown w)) w' ∧
  (ret = 0 ∧ (∃ x, addr ≤ x < addr + n ∧ shown w x ≠ None) ∨
   ret = - ENOMEM ∧ w' = w ∧ ∀ x, addr ≤ x < addr + n → shown w x = None).

Lemma sys_munmap_spec addr len w :
  world_ok w → paged addr → 0 ≤ addr → 0 < len → addr + len < 2^64 - PAGE →
  let n := roundup len GUEST_MMAP_GRANULE in
  match sys_munmap junk addr len w with
  | Ret (ret, w') => munmapped w addr n ret w'
  | Stop s => s = NoMemory
  end.
Proof.
  intros Hw Hp Ha Hlen Hlt n. change PAGE with 4096 in Hlt.
  destruct (roundup_spec len GUEST_MMAP_GRANULE) as [Hn _]; [unfold GUEST_MMAP_GRANULE; lia..|].
  fold n in Hn. unfold GUEST_MMAP_GRANULE in Hn.
  unfold sys_munmap. rewrite (proj2 (Z.ltb_lt 0 len)) by lia. cbn [andb]. fold n.
  pose proof (range_is_sealed_spec w addr n Hw Ha ltac:(lia) ltac:(lia)) as Hs.
  destruct (range_is_sealed addr n (w_mm w)); [by left|].
  pose proof (do_munmap_spec junk addr len w Hw Hp Ha Hlen ltac:(change PAGE with 4096; lia)) as Hm. cbv zeta in Hm. fold n in Hm.
  destruct (do_munmap junk addr len w) as [[ret w']|s]; [|done]. right. split; [done|exact Hm].
Qed.

(** ** mmap *)

Definition mmap_result w addr n (q : request) binder ret w' : Prop :=
  (ret = u64 (- EPERM) ∧ w' = w ∧ has (rq_flags q) LINUX_MAP_FIXED = true ∧ ∃ x, addr ≤ x < addr + n ∧ sealed_at w x = true) ∨
  (has (rq_flags q) LINUX_MAP_FIXED = true → ∀ x, addr ≤ x < addr + n → sealed_at w x = false) ∧
  ((∃ e, ret = u64 e) ∧ 0 ≤ rq_fd q ∧ unchanged w w' ∨ mmapped w addr n q binder ret w').

Lemma has_bit a k : 0 ≤ k → has a (2^k) = Z.testbit a k.
Proof.
  intros Hk. unfold has. destruct (Z.testbit a k) eqn:E.
  - apply negb_true_iff, Z.eqb_neq. intros E0. assert (Z.testbit (Z.land a (2^k)) k = true) as Hb.
    { by rewrite Z.land_spec, E, Z.pow2_bits_true. }
    by rewrite E0, Z.bits_0 in Hb.
  - apply negb_false_iff, Z.eqb_eq, Z.bits_inj'. intros n Hn. rewrite Z.land_spec, Z.bits_0, Z.pow2_bits_eqb by done.
    destruct (Z.eqb_spec k n) as [->|]; [by rewrite E|apply andb_false_r].
Qed.

Lemma asked_fixed binder prot flags fd offset :
  has (rq_flags (asked binder prot flags fd offset)) LINUX_MAP_FIXED = has flags LINUX_MAP_FIXED.
Proof.
  assert (rq_flags (asked binder prot flags fd offset) =
    if binder then Z.lor (Z.lor (Z.land (Z.land flags (Z.lnot ignored_flags)) (Z.lnot LINUX_MAP_SHARED)) LINUX_MAP_PRIVATE)
      LINUX_MAP_ANONYMOUS else Z.land flags (Z.lnot ignored_flags)) as ->.
  { unfold asked. destruct binder; cbv beta iota zeta; by destruct (has _ LINUX_MAP_ANONYMOUS). }
  change LINUX_MAP_FIXED with (2^4). rewrite !has_bit by done.
  assert (Z.testbit (Z.land flags (Z.lnot ignored_flags)) 4 = Z.testbit flags 4) as E.
  { rewrite Z.land_spec. change (Z.testbit (Z.lnot ignored_flags) 4) with true. apply andb_true_r. }
  destruct binder; [|done]. rewrite !Z.lor_spec, Z.land_spec, E.
  change (Z.testbit (Z.lnot LINUX_MAP_SHARED) 4) with true. change (Z.testbit LINUX_MAP_PRIVATE 4) with false.
  change (Z.testbit LINUX_MAP_ANONYMOUS 4) with false. by rewrite andb_true_r, !orb_false_r.
Qed.

Lemma sys_mmap_spec addr len prot flags fd offset w :
  let n := roundup len GUEST_MMAP_GRANULE in
  let binder := is_binder fd w in
  let q := asked binder prot flags fd offset in
  world_ok w → roomy w addr n → 0 < len ≤ 2^31 → fd ≠ arena_backing_fd (m_arena (w_m w)) →
  (has flags LINUX_MAP_FIXED = true → 0 < addr) →
  match sys_mmap junk counter0 addr len prot flags fd offset w with
  | Ret (ret, w') => mmap_result w addr n q binder ret w'
  | Stop s => s = NoMemory ∨ s = Exited 1 ∧ has (rq_flags q) (Z.lnot known_flags) = true
  end.
Proof.
  intros n binder q Hw Hroom Hlen Hfd Hfix. pose proof Hroom as [(Hp & Ha & Hlow) _ _]. unfold user_addr_max in Hlow.
  destruct (roundup_spec len GUEST_MMAP_GRANULE) as [Hn _]; [unfold GUEST_MMAP_GRANULE; lia..|]. fold n in Hn.
  pose proof (asked_fixed binder prot flags fd offset) as Eq. fold q in Eq.
  unfold sys_mmap. rewrite (proj2 (Z.eqb_neq len 0)), (proj2 (Z.ltb_lt 0 len)) by lia. rewrite andb_true_r. fold n.
  pose proof (range_is_sealed_spec w addr n Hw Ha ltac:(lia) ltac:(lia)) as Hs.
  destruct (has flags LINUX_MAP_FIXED && range_is_sealed addr n (w_mm w)) eqn:Esl.
  { apply andb_true_iff in Esl as [Ef Es]. rewrite Es in Hs. left. by rewrite Eq. }
  pose proof (do_mmap_spec counter0 junk addr len prot flags fd offset w Hw Hroom Hlen Hfd) as Hm.
  fold n binder q in Hm. rewrite Eq in Hm. specialize (Hm Hfix).
  destruct (do_mmap junk counter0 addr len prot flags fd offset w) as [[ret w']|s]; [|exact Hm]. right. split; [|exact Hm].
  rewrite Eq. intros Ef. rewrite Ef in Esl. cbn in Esl. by rewrite Esl in Hs.
Qed.

(** ** brk *)

(** The bounds within which the program break is moved. *)
Record brk_ok w (brk : Z) : Prop := {
  bk_cur : 0 < mm_current_brk (w_mm w) ∧ mm_current_brk (w_mm w) + PAGE ≤ user_addr_max;
  bk_new : 0 ≤ brk ∧ brk + PAGE ≤ user_addr_max;
  bk_short : roundup brk GUEST_MMAP_GRANULE - roundup (mm_current_brk (w_mm w)) GUEST_MMAP_GRANULE ≤ 2^31;
  bk_top : paged (mm_top (w_mm w)) ∧ 0 < mm_top (w_mm w) ∧ mm_top (w_mm w) + 2^31 ≤ user_addr_max;
  bk_room : mm_current_brk (w_mm w) < brk →
    room (4 * pages (roundup brk GUEST_MMAP_GRANULE - roundup (mm_current_brk (w_mm w)) GUEST_MMAP_GRANULE)) (w_m w);
}.

(** The break moved: what is between the old and the new one is mapped, to
    read and write, and zero, or is gone; the rest of the memory is as it was. *)
Record brk_moved w (brk : Z) w' : Prop := {
  bm_ok : world_ok w';
  bm_brk : mm_current_brk (w_mm w') = brk;
  bm_down x : brk < mm_current_brk (w_mm w) →
    shown w' x = cleared (roundup brk GUEST_MMAP_GRANULE)
      (roundup (mm_current_brk (w_mm w)) GUEST_MMAP_GRANULE - roundup brk GUEST_MMAP_GRANULE) (shown w) x;
  bm_up x : mm_current_brk (w_mm w) < brk →
    if (roundup (mm_current_brk (w_mm w)) GUEST_MMAP_GRANULE <=? x) && (x <? roundup brk GUEST_MMAP_GRANULE)
    then shown w' x = shown w x ∧ shown w x ≠ None ∨
         shown w x = None ∧ ∃ v, shown w' x = Some v ∧ v_prot v = 3 ∧ v_reserved v = false ∧ h_mem (w_host w') (v_host v) = 0
    else shown w' x = shown w x;
  bm_mem x : owned (shown w) x → owned (shown w') x → h_mem (w_host w') x = h_mem (w_host w) x;
}.

Lemma world_brk w b : world_ok w → world_ok (set_mm (with_brk b (w_mm w)) w).
Proof. intros [[] W2 W3]. split; [by split|done|done]. Qed.

Lemma roundup_mono a b : 0 ≤ a ≤ b → b < 2^63 → roundup a GUEST_MMAP_GRANULE ≤ roundup b GUEST_MMAP_GRANULE.
Proof.
  intros Hab Hb. destruct (roundup_spec a GUEST_MMAP_GRANULE) as [H1 H2]; [unfold GUEST_MMAP_GRANULE; lia..|].
  destruct (roundup_spec b GUEST_MMAP_GRANULE) as [H3 H4]; [unfold GUEST_MMAP_GRANULE; lia..|].
  unfold GUEST_MMAP_GRANULE in *. revert H1 H2 H3 H4. generalize (roundup a 0x1000) (roundup b 0x1000). intros. lia_mod.
Qed.

Lemma brk_down w brk :
  world_ok w → brk_ok w brk → brk < mm_current_brk (w_mm w) →
  let from := roundup brk GUEST_MMAP_GRANULE in
  let to := roundup (mm_current_brk (w_mm w)) GUEST_MMAP_GRANULE in
  match (if from <? to then '(_, w) ← do_munmap junk from (to - from) w; Ret w else Ret w) with
  | Ret w1 => brk_moved w brk (set_mm (with_brk brk (w_mm w1)) w1)
  | Stop s => s = NoMemory
  end.
Proof.
  intros Hw [[B1 B2] [B3 B4] _ _ _] Hlt from to. unfold user_addr_max in *. change PAGE with 4096 in *.
  set (cur := mm_current_brk (w_mm w)) in *.
  destruct (roundup_spec brk GUEST_MMAP_GRANULE) as [F1 F2]; [unfold GUEST_MMAP_GRANULE; lia..|].
  destruct (roundup_spec cur GUEST_MMAP_GRANULE) as [T1 T2]; [unfold GUEST_MMAP_GRANULE; lia..|].
  fold from in F1, F2. fold to in T1, T2. unfold GUEST_MMAP_GRANULE in F1, T1.
  pose proof (roundup_mono brk cur ltac:(lia) ltac:(lia)) as Hle. fold from to in Hle.
  destruct (from <? to) eqn:E; bool_to_prop.
  - pose proof (do_munmap_spec junk from (to - from) w Hw F2 ltac:(lia) ltac:(lia) ltac:(change PAGE with 4096; lia)) as Hm.
    cbv zeta in Hm. rewrite (roundup_aligned (to - from) GUEST_MMAP_GRANULE) in Hm; cycle 1.
    { done. } { lia. } { unfold GUEST_MMAP_GRANULE; lia. } { clear -F2 T2. unfold GUEST_MMAP_GRANULE in *. lia_mod. }
    destruct (do_munmap junk from (to - from) w) as [[ret w1]|s]; cbn [mbind outcome_bind]; [|done]. destruct Hm as [[U1 U2 U3 U4 U5 U6] _].
    split; [by apply world_brk|done|intros x _; apply U2|intros x Hx; fold cur in Hx; lia|].
    intros x Ho Ho'. apply (sk_mem _ _ _ _ U4); [|by apply owned_held]. right. right.
    destruct Ho' as (va & v & Hva & Hf & Hr). exists va, v. split; [done|]. split; [|done]. rewrite <- U2. exact Hf.
  - split; [by apply world_brk|done| |intros x Hx; fold cur in Hx; lia|done].
    intros x _. fold cur. fold from to. replace (to - from) with 0 by lia. unfold cleared. destruct ((from <=? x) && (x <? from + 0)) eqn:Ex; [bool_to_prop; lia|done].
Qed.

(** Zero pages to read and write, in a given place. *)
Lemma fixed_anon_spec w a n :
  world_ok w → roomy w a n → 0 < a → page_aligned n → 0 < n ≤ 2^31 →
  match do_mmap junk counter0 a n (Z.lor LINUX_PROT_READ LINUX_PROT_WRITE)
          (Z.lor LINUX_MAP_PRIVATE (Z.lor LINUX_MAP_FIXED LINUX_MAP_ANONYMOUS)) (-1) 0 w with
  | Ret (_, w') => world_ok w' ∧
      (∀ x, if (a <=? x) && (x <? a + n)
            then ∃ v, shown w' x = Some v ∧ v_prot v = 3 ∧ v_reserved v = false ∧ h_mem (w_host w') (v_host v) = 0
            else shown w' x = shown w x) ∧
      ∀ x, owned (cleared a n (shown w)) x → h_mem (w_host w') x = h_mem (w_host w) x
  | Stop s => s = NoMemory
  end.
Proof.
  intros Hw Hroom Ha Hn Hn0. set (flags := Z.lor LINUX_MAP_PRIVATE _).
  pose proof (do_mmap_spec counter0 junk a n (Z.lor LINUX_PROT_READ LINUX_PROT_WRITE) flags (-1) 0 w Hw) as Hm.
  rewrite (roundup_aligned n GUEST_MMAP_GRANULE) in Hm by (exact Hn || (unfold GUEST_MMAP_GRANULE; lia)).
  change (is_binder (-1) w) with false in Hm.
  change (asked false (Z.lor LINUX_PROT_READ LINUX_PROT_WRITE) flags (-1) 0) with (mk_request 3 flags (-1) 0) in Hm.
  pose proof (wf_fd _ _ (mo_arena _ (mo_base _ (co_ok _ _ (wo_co _ Hw))))) as Hfd.
  specialize (Hm Hroom Hn0 ltac:(lia) (λ _, Ha)). cbn [rq_flags rq_fd] in Hm.
  destruct (do_mmap _ _ _ _ _ _ _ _ _) as [[ret w']|s]; [|by destruct Hm as [Hm|[_ Hm]]; [|vm_compute in Hm]].
  destruct Hm as [(_ & Hm & _)|(a' & top & b & b' & r & w1 & Hpl & Has & Hmp & -> & _)]; [lia|].
  destruct Hpl as [(-> & _ & _)|(Hf & _)]; [|by vm_compute in Hf].
  destruct Has as [[A1 A2] A3 A4 _ A6]. destruct Hmp as [M1 M2 _ _ _ _ M7 M8].
  assert (r_reserved r = false) as Hres by (rewrite A6; vm_compute; reflexivity).
  specialize (M8 Hres). unfold filled in M8. cbn in M8. rewrite A1, A2 in M7.
  split; [by apply world_binder|]. split; [|exact M7].
  intros x. change (shown (set_binder b' w1) x) with (shown w1 x). rewrite M2. unfold with_region, contains, r_end. rewrite A1, A2.
  destruct ((a <=? x) && (x <? a + n)) eqn:E; [|done]. eexists. split; [done|]. cbn [view_at v_prot v_reserved v_host].
  split; [done|]. split; [done|]. bool_to_prop. apply M8. lia.
Qed.

(** Where the heap really ends: the region the break is in may reach past it. *)
Definition heap_end w : Z :=
  let cur := mm_current_brk (w_mm w) in
  let start := roundup cur GUEST_MMAP_GRANULE in
  match find_region (u64 (cur - 1)) (w_mm w) with
  | Some id => let e := u64 (r_gaddr (reg (w_mm w) id) + r_size (reg (w_mm w) id)) in if start <? e then e else start
  | None => start
  end.

Lemma heap_end_spec w :
  world_ok w → 0 < mm_current_brk (w_mm w) → mm_current_brk (w_mm w) + PAGE ≤ user_addr_max →
  let start := roundup (mm_current_brk (w_mm w)) GUEST_MMAP_GRANULE in
  paged (heap_end w) ∧ start ≤ heap_end w ∧ ∀ x, start ≤ x < heap_end w → shown w x ≠ None.
Proof.
  intros Hw H0 Hlow start. unfold user_addr_max in Hlow. change PAGE with 4096 in Hlow.
  destruct (roundup_spec (mm_current_brk (w_mm w)) GUEST_MMAP_GRANULE) as [T1 T2]; [unfold GUEST_MMAP_GRANULE; lia..|].
  fold start in T1, T2. unfold heap_end. fold start. rewrite u64_small by lia.
  pose proof (find_region_spec (mm_current_brk (w_mm w) - 1) (w_mm w) (wo_mm _ Hw) ltac:(lia)) as Hf.
  destruct (find_region _ _) as [id|]; [|split; [done|split; [lia|intros x; lia]]].
  destruct Hf as [Hid Hc]. pose proof (mk_regs _ (wo_mm _ Hw) id Hid) as [[G1 G2] [G3 G4] G5].
  change (r_gaddr (reg (w_mm w) id) + r_size (reg (w_mm w) id)) with (r_end (reg (w_mm w) id)). rewrite u64_small by (unfold r_end in *; lia).
  destruct (start <? r_end (reg (w_mm w) id)) eqn:E; [|split; [done|split; [lia|intros x; lia]]]. bool_to_prop.
  split; [clear -G1 G3; unfold r_end, paged, PAGE_4KB in *; lia_mod|]. split; [lia|].
  intros x Hx. rewrite (world_view w id x Hw Hid); [done|]. apply andb_true_iff in Hc as [Hc1%Z.leb_le _].
  unfold contains. apply andb_true_iff. rewrite Z.leb_le, Z.ltb_lt. lia.
Qed.

Lemma owned_ext f g x : (∀ a, g a = f a) → owned f x → owned g x.
Proof. intros E (va & v & Hva & Hf & Hr). exists va, v. by rewrite E. Qed.

Lemma brk_up w brk :
  world_ok w → brk_ok w brk → mm_current_brk (w_mm w) < brk →
  let start := heap_end w in let end_ := roundup brk GUEST_MMAP_GRANULE in
  (∀ x, start ≤ x < end_ → shown w x = None) →
  match (if start <? end_ then
           '(_, w) ← do_mmap junk counter0 start (end_ - start) (Z.lor LINUX_PROT_READ LINUX_PROT_WRITE)
             (Z.lor LINUX_MAP_PRIVATE (Z.lor LINUX_MAP_FIXED LINUX_MAP_ANONYMOUS)) (-1) 0 w;
           Ret w
         else Ret w) with
  | Ret w1 => brk_moved w brk (set_mm (with_brk brk (w_mm w1)) w1)
  | Stop s => s = NoMemory
  end.
Proof.
  intros Hw [[B1 B2] [B3 B4] B5 B6 B7] Hlt start end_ Hfree.
  destruct (heap_end_spec w Hw B1 B2) as (S1 & S2 & S3). fold start in S1, S2, S3. change PAGE with 4096 in *. set (cur := mm_current_brk (w_mm w)) in *.
  destruct (roundup_spec brk GUEST_MMAP_GRANULE) as [F1 F2]; [unfold GUEST_MMAP_GRANULE, user_addr_max in *; lia..|].
  destruct (roundup_spec cur GUEST_MMAP_GRANULE) as [T1 T2]; [unfold GUEST_MMAP_GRANULE, user_addr_max in *; lia..|].
  set (s0 := roundup cur GUEST_MMAP_GRANULE) in *. fold end_ in F1, F2, B5, B7. change PAGE with 4096 in *. unfold GUEST_MMAP_GRANULE in F1, T1.
  destruct (start <? end_) eqn:E; bool_to_prop.
  - assert (page_aligned (end_ - start)) as Hal by (clear -S1 F2; unfold page_aligned, paged, PAGE_4KB, GUEST_MMAP_GRANULE in *; change PAGE with 4096; lia_mod).
    assert (roomy w start (end_ - start)) as Hroom.
    { destruct B6 as (? & ? & ?). split; [split; [done|lia]|split; [done|lia]|]. eapply room_le; [|exact (B7 Hlt)].
      clear -S2 E. unfold pages. change PAGE with 4096. lia_mod. }
    pose proof (fixed_anon_spec w start (end_ - start) Hw Hroom ltac:(lia) Hal ltac:(lia)) as Hm.
    destruct (do_mmap _ _ _ _ _ _ _ _ _) as [[ret w1]|s]; cbn [mbind outcome_bind]; [|done]. destruct Hm as (M1 & M2 & M3).
    replace (start + (end_ - start)) with end_ in * by lia.
    assert (∀ x, cleared start (end_ - start) (shown w) x = shown w x) as Hcl.
    { intros x. destruct (decide (start ≤ x < end_)) as [Hx|Hx]; [rewrite cleared_in by lia; symmetry; by apply Hfree|by apply cleared_out; lia]. }
    split; [by apply world_brk|done|intros x Hx; fold cur in Hx; lia| |].
    + intros x _. fold cur s0 end_. specialize (M2 x). change (shown (set_mm _ w1) x) with (shown w1 x).
      destruct ((s0 <=? x) && (x <? end_)) eqn:E1, ((start <=? x) && (x <? end_)) eqn:E2; bool_to_prop.
      * right. split; [by apply Hfree; lia|exact M2].
      * left. split; [done|]. apply S3. lia.
      * lia.
      * done.
    + intros x Ho _. apply M3. by apply (owned_ext (shown w)).
  - split; [by apply world_brk|done|intros x Hx; fold cur in Hx; lia| |done].
    intros x _. fold cur s0 end_. destruct ((s0 <=? x) && (x <? end_)) eqn:E1; [|done]. bool_to_prop. left. split; [done|]. apply S3. lia.
Qed.

Lemma sys_brk_spec brk w :
  world_ok w → brk_ok w brk →
  match sys_brk junk counter0 brk w with
  | Ret (ret, w') => ret = mm_current_brk (w_mm w) ∧ w' = w ∨ ret = brk ∧ brk ≠ mm_current_brk (w_mm w) ∧ brk_moved w brk w'
  | Stop s => s = NoMemory
  end.
Proof.
  intros Hw Hb. pose proof Hb as [[B1 B2] [B3 B4] _ _ _]. unfold sys_brk. set (cur := mm_current_brk (w_mm w)) in *.
  destruct (brk <? mm_start_brk (w_mm w)); [by left|]. destruct (brk <? cur) eqn:E1; bool_to_prop.
  { pose proof (brk_down w brk Hw Hb E1) as Hd. cbv zeta in Hd. fold cur in Hd.
    destruct (if _ <? _ then _ else _) as [w1|s]; cbn [mbind outcome_bind]; [|done]. right. split; [done|]. split; [lia|done]. }
  destruct (cur <? brk) eqn:E2; bool_to_prop; [|by left].
  destruct (roundup cur GUEST_MMAP_GRANULE <? roundup brk GUEST_MMAP_GRANULE) eqn:E3; bool_to_prop; cycle 1.
  { right. split; [done|]. split; [lia|]. split; [by apply world_brk|done|intros x Hx; fold cur in Hx; lia| |done].
    intros x _. fold cur. destruct (_ && _) eqn:E; [bool_to_prop; lia|done]. }
  change (match find_region (u64 (cur - 1)) (w_mm w) with Some id => _ | None => _ end) with (heap_end w).
  pose proof (brk_up w brk Hw Hb E2) as Hu. cbv zeta in Hu. destruct (heap_end_spec w Hw B1 B2) as (S1 & S2 & _). fold cur in S2.
  set (end_ := roundup brk GUEST_MMAP_GRANULE) in *.
  assert (end_ < 2^64) as He by (subst end_; unfold user_addr_max in *; change PAGE with 4096 in *;
    destruct (roundup_spec brk GUEST_MMAP_GRANULE) as [F1 _]; unfold GUEST_MMAP_GRANULE in *; lia).
  assert (0 ≤ roundup cur GUEST_MMAP_GRANULE) as Hc0 by (unfold user_addr_max in *; change PAGE with 4096 in *;
    destruct (roundup_spec cur GUEST_MMAP_GRANULE) as [F1 _]; unfold GUEST_MMAP_GRANULE in *; lia).
  destruct (heap_end w <? end_) eqn:E4; bool_to_prop.
  - destruct (find_region_range_spec (heap_end w) (end_ - heap_end w) (w_mm w) (wo_mm _ Hw)) as (res & -> & Hres); [lia..|].
    cbn [mbind outcome_bind]. destruct res as [id|]; [by left|]. ospecialize (Hu _).
    { intros x Hx. apply look_none. intros r (y & -> & Hy)%list_elem_of_fmap. apply not_true_iff_false. intros Hc.
      apply (Hres y Hy). unfold contains, meets in *. bool_to_prop. lia. }
    destruct ('(_, w) ← do_mmap _ _ _ _ _ _ _ _ w; Ret w) as [w1|s]; cbn [mbind outcome_bind]; [|done]. right. split; [done|]. split; [lia|done].
  - cbn [mbind outcome_bind]. right. split; [done|]. split; [lia|]. apply Hu. intros x Hx. lia.
Qed.

(** ** Sequences of calls *)

Inductive mem_call :=
  | Mmap (addr len prot flags fd offset : Z)
  | Munmap (addr len : Z)
  | Mprotect (addr len prot : Z)
  | Mseal (addr len : Z)
  | Brk (brk : Z).

Definition run_call (c : mem_call) w : outcome (Z * world H V B) :=
  match c with
  | Mmap addr len prot flags fd offset => sys_mmap junk counter0 addr len prot flags fd offset w
  | Munmap addr len => sys_munmap junk addr len w
  | Mprotect addr len prot => sys_mprotect junk addr len prot w
  | Mseal addr len => sys_mseal junk addr len 0 w
  | Brk brk => sys_brk junk counter0 brk w
  end.

(** Calls with aligned arguments inside the user half of the address space, no
    longer than the code can handle, for which there is still memory. *)
Definition admissible (c : mem_call) w : Prop :=
  match c with
  | Mmap addr len prot flags fd offset =>
      roomy w addr (roundup len GUEST_MMAP_GRANULE) ∧ 0 < len ≤ 2^31 ∧
      fd ≠ arena_backing_fd (m_arena (w_m w)) ∧ (has flags LINUX_MAP_FIXED = true → 0 < addr)
  | Munmap addr len => paged addr ∧ 0 ≤ addr ∧ 0 < len ∧ addr + len < 2^64 - PAGE
  | Mprotect addr len prot => paged addr ∧ 0 ≤ addr ∧ 0 < len ≤ 2^39 ∧ addr + roundup len PAGE_4KB ≤ user_addr_max ∧
      0 ≤ prot < 8 ∧ short_runs w ∧ room (4 * pages (roundup len PAGE_4KB)) (w_m w)
  | Mseal addr len => paged addr ∧ 0 ≤ addr ∧ 0 < len ∧ addr + len ≤ user_addr_max
  | Brk brk => brk_ok w brk
  end.

(** How a call may stop the machine: mseal does not; the others panic when the
    host gives no more memory; mmap also exits, with status 1, when a flag of
    the request is not one it knows. *)
Definition may_stop (c : mem_call) w (s : stop) : Prop :=
  match c with
  | Mmap addr len prot flags fd offset =>
      s = NoMemory ∨ s = Exited 1 ∧ has (rq_flags (asked (is_binder fd w) prot flags fd offset)) (Z.lnot known_flags) = true
  | Mseal _ _ => False
  | _ => s = NoMemory
  end.

Lemma run_call_spec c w :
  world_ok w → admissible c w →
  match run_call c w with
  | Ret (_, w') => world_ok w'
  | Stop s => may_stop c w s
  end.
Proof.
  intros Hw. destruct c as [addr len prot flags fd offset|addr len|addr len prot|addr len|brk]; cbn [run_call admissible may_stop].
  - intros (Hr & Hl & Hf & Hx). pose proof (sys_mmap_spec addr len prot flags fd offset w Hw Hr Hl Hf Hx) as Hs.
    destruct (sys_mmap _ _ _ _ _ _ _ _ _) as [[ret w']|s]; [|done].
    destruct Hs as [(_ & -> & _)|[_ [(_ & _ & Hu & _)|(a & top & b & b' & r & w1 & _ & _ & Hm & -> & _)]]]; [done|done|].
    apply world_binder, Hm.
  - intros (Hp & Ha & Hl & Hlt). pose proof (sys_munmap_spec addr len w Hw Hp Ha Hl Hlt) as Hs.
    destruct (sys_munmap _ _ _ _) as [[ret w']|s]; [|done]. destruct Hs as [(_ & -> & _)|(_ & Hu & _)]; [done|apply Hu].
  - intros (Hp & Ha & Hl & Hlow & Hpr & Hs & Hroom).
    pose proof (sys_mprotect_spec junk addr len prot w Hw Hs Hp Ha ltac:(lia) Hlow ltac:(lia) Hpr Hroom) as Hm.
    destruct (sys_mprotect _ _ _ _ _) as [[ret w']|s]; [|done].
    destruct Hm as [(_ & -> & _)|(_ & [[_ Hr]|(_ & x & _ & _ & Hr)])]; [done|apply Hr|apply Hr].
  - intros (Hp & Ha & Hl & Hlow). destruct (sys_mseal_spec junk addr len w Hw Hp Ha Hl Hlow) as (ret & w' & -> & Hm).
    destruct Hm as [[_ Hs]|(_ & -> & _)]; [apply Hs|done].
  - intros Hb. pose proof (sys_brk_spec brk w Hw Hb) as Hs.
    destruct (sys_brk _ _ _ _) as [[ret w']|s]; [|done]. destruct Hs as [[_ ->]|(_ & _ & Hm)]; [done|apply Hm].
Qed.

Inductive reachable w0 : world H V B → Prop :=
  | reach_start : reachable w0 w0
  | reach_call c w ret w' : reachable w0 w → admissible c w → run_call c w = Ret (ret, w') → reachable w0 w'.

Lemma reachable_ok w0 w : world_ok w0 → reachable w0 w → world_ok w.
Proof.
  intros Hw. induction 1 as [|c w ret w' _ IH Ha E]; [done|]. pose proof (run_call_spec c w IH Ha) as Hs. by rewrite E in Hs.
Qed.

(** * What the calls guarantee *)


(** C2: after any calls, the address translation the kernel does for itself, by
    looking the address up in the region map, and the one the processor does,
    by walking the stage-1 tables and then stage 2, take every address of the
    guest's to the same host byte, or both to none. *)
Theorem kernel_and_hardware_agree w0 w (vkern : mm) a :
  world_ok w0 → reachable w0 w → mm_ok vkern → 0 ≤ a < user_addr_max → look (areas vkern) a = None →
  guest_to_host a (w_mm w) vkern = (λ '(h, p, q), h + a mod PAGE) <$> xlate (w_m w) (a - a mod PAGE).
Proof. intros Hw0 Hr. apply kernel_and_hardware_spec. by apply (reachable_ok w0). Qed.

(** C4: munmap removes exactly the pages of its range, whatever regions they
    were parts of, and no other mapping changes, in the map, in the hardware or
    in its bytes; a range with a sealed page is refused whole, one with nothing
    in it is an error. *)
Theorem sys_munmap_exact addr len w :
  world_ok w → paged addr → 0 ≤ addr → 0 < len → addr + len < 2^64 - PAGE →
  let n := roundup len GUEST_MMAP_GRANULE in
  let sealed := ∃ x, addr ≤ x < addr + n ∧ sealed_at w x = true in
  let mapped := ∃ x, addr ≤ x < addr + n ∧ shown w x ≠ None in
  match sys_munmap junk addr len w with
  | Ret (ret, w') =>
      (ret = - EPERM ∧ sealed ∧ w' = w) ∨ (ret = - ENOMEM ∧ ¬ mapped ∧ w' = w) ∨
      (ret = 0 ∧ ¬ sealed ∧ mapped ∧ world_ok w' ∧
       (∀ x, shown w' x = if (addr <=? x) && (x <? addr + n) then None else shown w x) ∧
       (∀ x, owned (shown w') x → h_mem (w_host w') x = h_mem (w_host w) x))
  | Stop s => s = NoMemory
  end.
Proof.
  intros Hw Hp Ha Hl Hlt n sealed mapped. pose proof (sys_munmap_spec addr len w Hw Hp Ha Hl Hlt) as Hs. cbv zeta in Hs. fold n in Hs.
  destruct (sys_munmap junk addr len w) as [[ret w']|s]; [|done].
  destruct Hs as [(-> & -> & Hx)|(Hns & [U1 U2 U3 U4 U5 U6] & [[-> Hm]|(-> & -> & Hn)])].
  - left. done.
  - right. right. split; [done|]. split; [by intros (x & Hx & E); rewrite Hns in E|]. split; [done|]. split; [done|]. split; [done|].
    intros x Ho. pose proof (owned_ext _ (cleared addr n (shown w)) x (λ a, eq_sym (U2 a)) Ho) as Hg.
    apply (sk_mem _ _ _ _ U4); [auto|]. apply owned_held; [done|]. eapply owned_sub; [|exact Hg]. apply (sk_sub _ _ _ _ U4).
  - right. left. split; [done|]. split; [|done]. intros (x & Hx & E). by rewrite Hn in E.
Qed.


(** C5: mprotect gives its permission to every page from the start of the range
    up to the first hole, in the map and in both stages of the translation; a
    reservation that is given any permission becomes zeroed memory; nothing
    else changes, not even the neighbours that share a 16 KiB block with the
    range, and a range with a sealed page is refused whole. *)
Theorem sys_mprotect_exact addr len prot w :
  let n := roundup len PAGE_4KB in
  world_ok w → short_runs w → paged addr → 0 ≤ addr → 0 < len → addr + n ≤ user_addr_max → len ≤ 2^39 → 0 ≤ prot < 8 →
  room (4 * pages n) (w_m w) →
  match sys_mprotect junk addr len prot w with
  | Ret (ret, w') =>
      (ret = - EPERM ∧ w' = w ∧ ∃ x, addr ≤ x < addr + n ∧ sealed_at w x = true) ∨
      ∃ e, (ret = 0 ∧ e = addr + n ∨ ret = - ENOMEM ∧ addr ≤ e < addr + n ∧ shown w e = None) ∧
        (∀ x, addr ≤ x < addr + n → sealed_at w x = false) ∧ world_ok w' ∧
        (∀ x, if (addr <=? x) && (x <? e)
              then ∃ v v', shown w x = Some v ∧ shown w' x = Some v' ∧ reprot prot (w_host w') v v'
              else shown w' x = shown w x) ∧
        (∀ x, owned (shown w) x → h_mem (w_host w') x = h_mem (w_host w) x)
  | Stop s => s = NoMemory
  end.
Proof.
  intros n Hw Hs Hp Ha Hl Hlow Hl39 Hpr Hroom.
  pose proof (sys_mprotect_spec junk addr len prot w Hw Hs Hp Ha Hl Hlow Hl39 Hpr Hroom) as Hm. fold n in Hm.
  destruct (sys_mprotect _ _ _ _ _) as [[ret w']|s]; [|done].
  assert (∀ e, repro w addr e prot w' → world_ok w' ∧
    (∀ x, if (addr <=? x) && (x <? e) then ∃ v v', shown w x = Some v ∧ shown w' x = Some v' ∧ reprot prot (w_host w') v v'
          else shown w' x = shown w x) ∧ (∀ x, owned (shown w) x → h_mem (w_host w') x = h_mem (w_host w) x)) as Hr.
  { intros e R. split; [apply R|]. split; [|apply R]. intros x. destruct (_ && _) eqn:E; bool_to_prop.
    - by apply (rp_in _ _ _ _ _ R).
    - apply (rp_out _ _ _ _ _ R). lia. }
  destruct Hm as [Hm|(Hns & [[-> R]|(-> & x & Hx & Hn & R)])]; [by left|right; exists (addr + n)|right; exists x].
  - split; [by left|]. split; [done|]. by apply Hr.
  - split; [by right|]. split; [done|]. by apply Hr.
Qed.

(** C8: mseal seals every page of its range or, when one of them is not
    mapped, none; it changes nothing else. *)
Theorem sys_mseal_all_or_nothing addr len w :
  world_ok w → paged addr → 0 ≤ addr → 0 < len → addr + len ≤ user_addr_max →
  let e := roundup (addr + len) PAGE_4KB in
  ∃ ret w', sys_mseal junk addr len 0 w = Ret (ret, w') ∧ world_ok w' ∧
    (∀ x, owned (shown w) x → h_mem (w_host w') x = h_mem (w_host w) x) ∧
    (ret = 0 ∧ (∀ x, shown w' x = if (addr <=? x) && (x <? e) then v_seal <$> shown w x else shown w x) ∧
     (∀ x, addr ≤ x < e → sealed_at w' x = true) ∨
     ret = - ENOMEM ∧ w' = w ∧ ∃ x, addr ≤ x < e ∧ shown w x = None).
Proof.
  intros Hw Hp Ha Hl Hlow e. destruct (sys_mseal_spec junk addr len w Hw Hp Ha Hl Hlow) as (ret & w' & E & Hs). fold e in Hs.
  exists ret, w'. split; [done|]. destruct Hs as [[-> [S1 S2 S3 S4 S5 S6 S7]]|(-> & -> & Hx)]; [|by split; [|split; [|right]]].
  split; [done|]. split; [intros x Ho; apply (qu_mem _ _ _ S6); by apply owned_held|]. left. split; [done|]. split.
  - intros x. destruct (_ && _) eqn:Ex; bool_to_prop; [|by apply S3; lia]. destruct (S2 x) as (v & -> & ->); [lia|done].
  - intros x Hx. destruct (S2 x Hx) as (v & _ & Hv). unfold sealed_at. by rewrite Hv.
Qed.

(** C6: brk either leaves everything as it is and answers the old break, or
    answers the new one: moved down, exactly the pages above it are gone; moved
    up, every page below it is mapped, the new ones to read and write, and
    zero. No page on either side changes. *)
Theorem sys_brk_exact brk w :
  world_ok w → brk_ok w brk →
  let cur := mm_current_brk (w_mm w) in
  let lo := roundup (Z.min cur brk) GUEST_MMAP_GRANULE in
  let hi := roundup (Z.max cur brk) GUEST_MMAP_GRANULE in
  match sys_brk junk counter0 brk w with
  | Ret (ret, w') =>
      (ret = cur ∧ w' = w) ∨
      ret = brk ∧ brk ≠ cur ∧ world_ok w' ∧ mm_current_brk (w_mm w') = brk ∧
      (∀ x, if (lo <=? x) && (x <? hi) then
              if brk <? cur then shown w' x = None
              else shown w' x = shown w x ∧ shown w x ≠ None ∨
                   shown w x = None ∧ ∃ v, shown w' x = Some v ∧ v_prot v = 3 ∧ v_reserved v = false ∧
                                          h_mem (w_host w') (v_host v) = 0
            else shown w' x = shown w x) ∧
      (∀ x, owned (shown w) x → owned (shown w') x → h_mem (w_host w') x = h_mem (w_host w) x)
  | Stop s => s = NoMemory
  end.
Proof.
  intros Hw Hb cur lo hi. pose proof (sys_brk_spec brk w Hw Hb) as Hs.
  destruct (sys_brk _ _ _ _) as [[ret w']|s]; [|done]. destruct Hs as [Hs|(-> & Hne & [M1 M2 M3 M4 M5])]; [by left|].
  right. split; [done|]. split; [done|]. split; [done|]. split; [done|]. split; [|done]. intros x. specialize (M3 x). specialize (M4 x).
  fold cur in Hne, M3, M4. subst lo hi. destruct (brk <? cur) eqn:E; bool_to_prop.
  - rewrite Z.min_r, Z.max_l by lia. specialize (M3 E). unfold cleared in M3.
    replace (roundup brk GUEST_MMAP_GRANULE + (roundup cur GUEST_MMAP_GRANULE - roundup brk GUEST_MMAP_GRANULE))
      with (roundup cur GUEST_MMAP_GRANULE) in M3 by lia.
    by destruct ((roundup brk GUEST_MMAP_GRANULE <=? x) && (x <? roundup cur GUEST_MMAP_GRANULE)).
  - rewrite Z.min_l, Z.max_r by lia. apply M4. lia.
Qed.

(** mmap leaves a mapped page that no fixed mapping may replace where it is,
    unless the allocator picks its address. *)
Lemma mmap_keeps addr len prot flags fd offset w x :
  let n := roundup len GUEST_MMAP_GRANULE in
  world_ok w → roomy w addr n → 0 < len ≤ 2^31 → fd ≠ arena_backing_fd (m_arena (w_m w)) →
  (has flags LINUX_MAP_FIXED = true → 0 < addr) → sealed_at w x = true →
  match sys_mmap junk counter0 addr len prot flags fd offset w with
  | Ret (_, w') => shown w' x = shown w x ∨
      has flags LINUX_MAP_FIXED = false ∧ mm_top (w_mm w) ≤ x < mm_top (w_mm w) + n
  | Stop _ => True
  end.
Proof.
  intros n Hw Hr Hl Hf Hx Hseal. pose proof (sys_mmap_spec addr len prot flags fd offset w Hw Hr Hl Hf Hx) as Hs.
  cbv zeta in Hs. fold n in Hs. set (q := asked _ _ _ _ _) in Hs.
  pose proof (asked_fixed (is_binder fd w) prot flags fd offset) as Eq. fold q in Eq.
  destruct (sys_mmap _ _ _ _ _ _ _ _ _) as [[ret w']|s]; [|done]. unfold mmap_result in Hs. rewrite Eq in Hs.
  destruct Hs as [(_ & -> & _)|[Hns [(_ & _ & _ & Hu & _)|(a & top & b & b' & r & w1 & Hpl & [[A1 A2] _ _ _ _] & Hmp & -> & _)]]];
    [by left|by left|].
  change (shown (set_binder b' w1) x) with (shown w1 x). rewrite (mp_shown _ _ _ _ _ Hmp).
  unfold with_region, contains, r_end. rewrite A1, A2. destruct ((a <=? x) && (x <? a + n)) eqn:E; [|by left]. bool_to_prop.
  rewrite Eq in Hpl. destruct Hpl as [(-> & _ & [Hfx|[_ Hfree]])|(Hfx & -> & _)].
  - specialize (Hns Hfx x ltac:(lia)). congruence.
  - unfold sealed_at in Hseal. by rewrite Hfree in Hseal.
  - by right.
Qed.

(** C7: a sealed page cannot be unmapped, moved, re-protected or mapped over by
    any of the calls: after one, the page is what it was. Two ways around the
    seal are left open: a mapping placed by the allocator, which does not look
    at what is there, and the program break moved down, which does not ask. *)
Theorem seals_hold c w x :
  world_ok w → admissible c w → sealed_at w x = true →
  match run_call c w with
  | Ret (_, w') =>
      shown w' x = shown w x ∨
      (∃ addr len prot flags fd offset, c = Mmap addr len prot flags fd offset ∧ has flags LINUX_MAP_FIXED = false ∧
         mm_top (w_mm w) ≤ x < mm_top (w_mm w) + roundup len GUEST_MMAP_GRANULE) ∨
      (∃ brk, c = Brk brk ∧ roundup brk GUEST_MMAP_GRANULE ≤ x < roundup (mm_current_brk (w_mm w)) GUEST_MMAP_GRANULE)
  | Stop _ => True
  end.
Proof.
  intros Hw Hadm Hseal.
  assert (∀ lo hi, (∀ y, lo ≤ y < hi → sealed_at w y = false) → ¬ lo ≤ x < hi) as Hout.
  { intros lo hi Hns Hx. by rewrite Hns in Hseal. }
  destruct c as [addr len prot flags fd offset|addr len|addr len prot|addr len|brk]; cbn [run_call admissible] in *.
  - destruct Hadm as (Hr & Hl & Hf & Hx). pose proof (mmap_keeps addr len prot flags fd offset w x Hw Hr Hl Hf Hx Hseal) as Hs.
    destruct (sys_mmap _ _ _ _ _ _ _ _ _) as [[ret w']|s]; [|done]. destruct Hs as [Hs|[Hs1 Hs2]]; [by left|].
    right. left. by exists addr, len, prot, flags, fd, offset.
  - destruct Hadm as (Hp & Ha & Hl & Hlt). pose proof (sys_munmap_spec addr len w Hw Hp Ha Hl Hlt) as Hs. cbv zeta in Hs.
    destruct (sys_munmap _ _ _ _) as [[ret w']|s]; [|done]. left. destruct Hs as [(_ & -> & _)|(Hns & Hu & _)]; [done|].
    rewrite (ut_shown _ _ _ Hu). apply cleared_out. by apply Hout.
  - destruct Hadm as (Hp & Ha & Hl & Hlow & Hpr & Hs & Hroom).
    pose proof (sys_mprotect_spec junk addr len prot w Hw Hs Hp Ha ltac:(lia) Hlow ltac:(lia) Hpr Hroom) as Hm.
    destruct (sys_mprotect _ _ _ _ _) as [[ret w']|s]; [|done]. left.
    destruct Hm as [(_ & -> & _)|(Hns & [[_ Hr]|(_ & y & Hy & _ & Hr)])]; [done|..]; apply (rp_out _ _ _ _ _ Hr);
      apply Hout; intros z Hz; apply Hns; lia.
  - destruct Hadm as (Hp & Ha & Hl & Hlow). destruct (sys_mseal_spec junk addr len w Hw Hp Ha Hl Hlow) as (ret & w' & -> & Hm).
    left. destruct Hm as [[_ Hs]|(_ & -> & _)]; [|done].
    destruct (decide (addr ≤ x < roundup (addr + len) PAGE_4KB)) as [Hin|Hn]; [|by apply (sl_out _ _ _ _ Hs)].
    destruct (sl_in _ _ _ _ Hs x Hin) as (v & Hv & ->). rewrite Hv. f_equal. unfold sealed_at in Hseal. rewrite Hv in Hseal.
    destruct v. cbn in Hseal. by subst.
  - pose proof (sys_brk_spec brk w Hw Hadm) as Hs. destruct (sys_brk _ _ _ _) as [[ret w']|s]; [|done].
    destruct Hs as [[_ ->]|(_ & Hne & [_ _ M3 M4 _])]; [by left|]. destruct (decide (brk < mm_current_brk (w_mm w))) as [Hlt|Hge].
    + rewrite M3 by done. unfold cleared. destruct (_ && _) eqn:E; [|by left]. bool_to_prop. right. right. exists brk. split; [done|lia].
    + left. specialize (M4 x ltac:(lia)). destruct (_ && _); [|done]. destruct M4 as [[? _]|[E _]]; [done|]. unfold sealed_at in Hseal. by rewrite E in Hseal.
Qed.
End Calls.

(** * On a concrete machine *)

(** A machine without binder endpoints. *)
#[global] Instance no_binder : BinderOps unit := {|
  binder_emul_is _ b := (false, b);
  binder_emul_mmap _ _ _ b := (0, b);
|}.

Abbreviation demo_world := (world toy toy_vm unit).

Definition demo_mm : mm := mk_mm ∅ Leaf [] 1 0x600000 0x600800 0 0xc0000000.
Definition demo_w : demo_world := mk_world demo_m demo_mm demo_empty 0 ().

Definition after (c : mem_call) (w : demo_world) : demo_world := (ret_or (0, w) (run_call (λ _, false) 0 c w)).2.
Definition answer (c : mem_call) (w : demo_world) : Z := (ret_or (0, w) (run_call (λ _, false) 0 c w)).1.

Definition anon : Z := Z.lor LINUX_MAP_PRIVATE LINUX_MAP_ANONYMOUS.
Definition demo_map3 : mem_call := Mmap 0 0x3000 3 anon (-1) 0.

Lemma demo_blocks : forallb (λ b, bool_decide (is_Some (chunk_index (m_pt demo_m) !! b))) (map_to_list (s2_map (m_s2 demo_m))).*1 = true.
Proof. vm_compute. reflexivity. Qed.

Lemma empty_coherent (m : machine toy toy_vm) :
  machine_ok m → (∀ va, pte (m_pt m) va = 0) →
  forallb (λ b, bool_decide (is_Some (chunk_index (m_pt m) !! b))) (map_to_list (s2_map (m_s2 m))).*1 = true →
  coherent (λ _, None) m.
Proof.
  intros Hok Hz Hb. split; try done.
  - intros va _ _. unfold agrees, xlate. by rewrite Hz.
  - intros va vb _ _ _. by rewrite Hz.
  - intros b e He Hi. exfalso. rewrite forallb_forall in Hb. specialize (Hb b). rewrite <- list_elem_of_In in Hb.
    ospecialize (Hb _). { apply (list_elem_of_fmap_2 fst _ (b, e)). by apply elem_of_map_to_list. }
    apply bool_decide_eq_true in Hb. rewrite Hi in Hb. by destruct Hb.
Qed.

Lemma demo_w_ok : world_ok demo_w.
Proof.
  pose proof demo_m_ok as (Hok & Hz & _). pose proof (empty_coherent demo_m Hok Hz demo_blocks) as Hc. revert Hc.
  unfold demo_w. generalize demo_m. intros m Hc. split; [pose proof demo_empty_ok as []; by split| |exact Hc]. intros id Hid. by apply elem_of_nil in Hid.
Qed.

Lemma demo_w_room : room 100 (w_m demo_w).
Proof. apply demo_m_ok. Qed.

(** Three pages, asked for anywhere. *)
Definition demo_w1 : demo_world := after demo_map3 demo_w.

Lemma demo_map3_admissible : admissible demo_map3 demo_w.
Proof.
  cbn [admissible demo_map3]. split; [|split; [lia|split; [vm_compute; congruence|vm_compute; congruence]]].
  split; [split; [reflexivity|split; [lia|vm_compute; congruence]]|split; [reflexivity|split; [vm_compute; reflexivity|vm_compute; congruence]]|].
  apply (room_le _ 100 (w_m demo_w)); [vm_compute; split; congruence|exact demo_w_room].
Qed.

Lemma after_ok c (w : demo_world) :
  is_ret (run_call (λ _, false) 0 c w) = true → world_ok w → admissible c w → world_ok (after c w).
Proof.
  intros Hr Hw Ha. pose proof (run_call_spec (λ _, false) 0 c w Hw Ha) as Hs. unfold after.
  destruct (run_call (λ _, false) 0 c w) as [[ret w']|s]; [exact Hs|discriminate Hr].
Qed.

Lemma demo_w1_ok : world_ok demo_w1.
Proof. apply after_ok; [vm_compute; reflexivity|exact demo_w_ok|exact demo_map3_admissible]. Qed.


Lemma demo_w1_reachable : reachable (λ _, false) 0 demo_w demo_w1.
Proof.
  apply (reach_call _ _ _ demo_map3 demo_w (answer demo_map3 demo_w)); [apply reach_start|exact demo_map3_admissible|].
  assert (is_ret (run_call (λ _, false) 0 demo_map3 demo_w) = true) as Hr by (vm_compute; reflexivity).
  unfold demo_w1, after, answer. destruct (run_call (λ _, false) 0 demo_map3 demo_w) as [[ret w']|s]; [reflexivity|discriminate Hr].
Qed.

Lemma kernel_and_hardware_agree_witness :
  ∃ h, guest_to_host 0xc0001234 (w_mm demo_w1) demo_empty = Some (h + 0x234) ∧
       (λ '(h, _, _), h) <$> xlate (w_m demo_w1) 0xc0001000 = Some h.
Proof.
  pose proof (kernel_and_hardware_agree (λ _, false) 0 demo_w demo_w1 demo_empty 0xc0001234 demo_w_ok demo_w1_reachable
    demo_empty_ok ltac:(split; vm_compute; congruence) eq_refl) as E.
  assert (is_Some (guest_to_host 0xc0001234 (w_mm demo_w1) demo_empty)) as [g Hg] by (vm_compute; eauto).
  rewrite Hg in *. change (0xc0001234 - 0xc0001234 mod PAGE) with 0xc0001000 in E. change (0xc0001234 mod PAGE) with 0x234 in E.
  destruct (xlate (w_m demo_w1) 0xc0001000) as [[[h p] q]|]; [|discriminate E]. exists h. split; [exact E|reflexivity].
Defined.

(** The middle page of the three unmapped. *)
Lemma sys_munmap_exact_witness :
  match sys_munmap (λ _, false) 0xc0001000 0x800 demo_w1 with
  | Ret (ret, w') => ret = 0 ∧ look (areas (w_mm w')) 0xc0001fff = None ∧
      look (areas (w_mm w')) 0xc0002000 = look (areas (w_mm demo_w1)) 0xc0002000
  | Stop _ => False
  end.
Proof.
  pose proof (sys_munmap_exact (λ _, false) 0xc0001000 0x800 demo_w1 demo_w1_ok eq_refl ltac:(lia) ltac:(lia) ltac:(reflexivity)) as Hs.
  assert ((ret_or (0, demo_w1) (sys_munmap (λ _, false) 0xc0001000 0x800 demo_w1)).1 = 0 ∧ is_ret (sys_munmap (λ _, false) 0xc0001000 0x800 demo_w1) = true)
    as [Ha Hr] by (vm_compute; split; reflexivity).
  revert Hs Ha Hr. generalize demo_w1. intros w Hs Ha Hr.
  destruct (sys_munmap (λ _, false) 0xc0001000 0x800 w) as [[ret w']|s]; [|discriminate Hr]. cbn [ret_or fst] in Ha. subst ret.
  destruct Hs as [(E & _)|[(E & _)|(_ & _ & _ & _ & Hsh & _)]]; [discriminate E|discriminate E|].
  split; [reflexivity|]. split; [exact (Hsh 0xc0001fff)|exact (Hsh 0xc0002000)].
Defined.


Lemma runs_within (w : demo_world) a :
  forallb (λ r, (a <=? r_gaddr r) && (r_end r <=? a + 2^31)) (areas (w_mm w)) = true → short_runs w.
Proof.
  intros Hf lo hi Hle Hx. destruct (decide (lo = hi)) as [->|Hne]; [lia|]. rewrite forallb_forall in Hf.
  assert (∀ x, look (areas (w_mm w)) x ≠ None → a ≤ x < a + 2^31) as Hin.
  { intros x Hn. destruct (look _ x) as [v|] eqn:E; [|done]. destruct (look_some _ _ _ E) as (r & Hr%list_elem_of_In & Hc & _).
    specialize (Hf r Hr). unfold contains in Hc. bool_to_prop. lia. }
  pose proof (Hin lo (Hx lo ltac:(lia))). pose proof (Hin (hi - 1) (Hx (hi - 1) ltac:(lia))). lia.
Qed.

Lemma demo_w1_runs : short_runs demo_w1.
Proof. apply (runs_within _ 0xc0000000). vm_compute. reflexivity. Qed.

(** The middle page made read-only. *)
Lemma sys_mprotect_exact_witness :
  match sys_mprotect (λ _, false) 0xc0001000 0x1000 1 demo_w1 with
  | Ret (ret, w') => ret = 0 ∧ v_prot <$> look (areas (w_mm w')) 0xc0001000 = Some 1 ∧
      look (areas (w_mm w')) 0xc0002000 = look (areas (w_mm demo_w1)) 0xc0002000
  | Stop _ => False
  end.
Proof.
  assert (room (4 * pages (roundup 0x1000 PAGE_4KB)) (w_m demo_w1)) as Hroom by (vm_compute; split; congruence).
  pose proof (sys_mprotect_exact (λ _, false) 0xc0001000 0x1000 1 demo_w1 demo_w1_ok demo_w1_runs eq_refl ltac:(lia) ltac:(lia)
    ltac:(vm_compute; congruence) ltac:(lia) ltac:(lia) Hroom) as Hs. clear Hroom.
  assert ((ret_or (0, demo_w1) (sys_mprotect (λ _, false) 0xc0001000 0x1000 1 demo_w1)).1 = 0 ∧
    is_ret (sys_mprotect (λ _, false) 0xc0001000 0x1000 1 demo_w1) = true) as [Ha Hr] by (vm_compute; split; reflexivity).
  revert Hs Ha Hr. generalize demo_w1. intros w. change (roundup 0x1000 PAGE_4KB) with 0x1000. intros Hs Ha Hr.
  destruct (sys_mprotect (λ _, false) 0xc0001000 0x1000 1 w) as [[ret w']|s]; [|discriminate Hr]. cbn [ret_or fst] in Ha. subst ret.
  destruct Hs as [(E & _)|(e & [[_ ->]|(E & _)] & _ & _ & Hsh & _)]; [discriminate E| |discriminate E].
  split; [reflexivity|]. split; [|exact (Hsh 0xc0002000)].
  destruct (Hsh 0xc0001000) as (v & v' & _ & -> & Hp & _). cbn. by rewrite Hp.
Defined.

Lemma sys_mseal_all_or_nothing_witness :
  ∃ w', sys_mseal (λ _, false) 0xc0001000 0x1000 0 demo_w1 = Ret (0, w') ∧ sealed_at w' 0xc0001000 = true.
Proof.
  assert (∃ w', sys_mseal (λ _, false) 0xc0001000 0x1000 0 demo_w1 = Ret (0, w')) as Hr.
  { assert (fst <$> (match sys_mseal (λ _, false) 0xc0001000 0x1000 0 demo_w1 with Ret a => Some a | Stop _ => None end) = Some 0) as E
      by (vm_compute; reflexivity).
    destruct (sys_mseal _ _ _ _ _) as [[ret w']|s]; [|discriminate E]. cbn in E. injection E as ->. by exists w'. }
  destruct (sys_mseal_all_or_nothing (λ _, false) 0xc0001000 0x1000 demo_w1 demo_w1_ok eq_refl ltac:(lia) ltac:(lia)
    ltac:(vm_compute; congruence)) as (ret & w' & E & _ & _ & Hs).
  destruct Hr as [w2 Hr]. rewrite Hr in E. injection E as <- <-. exists w2. split; [exact Hr|].
  destruct Hs as [(_ & _ & Hs)|(E & _)]; [|discriminate E]. apply Hs. split; [lia|reflexivity].
Defined.

Lemma demo_brk_ok : brk_ok demo_w 0x602000.
Proof.
  split; [split; vm_compute; congruence|split; vm_compute; congruence|vm_compute; congruence|
          split; [reflexivity|split; vm_compute; congruence]|].
  intros _. apply (room_le _ 100 (w_m demo_w)); [vm_compute; split; congruence|exact demo_w_room].
Qed.

Lemma sys_brk_exact_witness :
  match sys_brk (λ _, false) 0 0x602000 demo_w with
  | Ret (ret, w') => ret = 0x602000 ∧ look (areas (w_mm w')) 0x601fff ≠ None
  | Stop _ => False
  end.
Proof.
  pose proof (sys_brk_exact (λ _, false) 0 0x602000 demo_w demo_w_ok demo_brk_ok) as Hs.
  assert ((ret_or (0, demo_w) (sys_brk (λ _, false) 0 0x602000 demo_w)).1 = 0x602000 ∧
    is_ret (sys_brk (λ _, false) 0 0x602000 demo_w) = true ∧ mm_current_brk (w_mm demo_w) = 0x600800) as (Ha & Hr & Hc)
    by (vm_compute; repeat split; reflexivity).
  revert Hs Ha Hr Hc. generalize demo_w. intros w Hs Ha Hr Hc. rewrite Hc in Hs.
  destruct (sys_brk (λ _, false) 0 0x602000 w) as [[ret w']|s]; [|discriminate Hr]. cbn [ret_or fst] in Ha. subst ret.
  split; [reflexivity|]. destruct Hs as [[E _]|(_ & _ & _ & _ & Hs & _)]; [discriminate E|].
  destruct (Hs 0x601fff) as [[-> Hn]|(_ & v & -> & _)]; [exact Hn|discriminate].
Defined.

(** The middle page sealed, and all three asked to be unmapped. *)
Definition demo_sealed : demo_world := after (Mseal 0xc0001000 0x1000) demo_w1.

Lemma demo_sealed_ok : world_ok demo_sealed.
Proof.
  apply after_ok; [vm_compute; reflexivity|exact demo_w1_ok|].
  split; [reflexivity|split; [lia|split; [lia|vm_compute; congruence]]].
Qed.

Lemma seals_hold_witness :
  match run_call (λ _, false) 0 (Munmap 0xc0000000 0x3000) demo_sealed with
  | Ret (ret, w') => look (areas (w_mm w')) 0xc0001000 = look (areas (w_mm demo_sealed)) 0xc0001000
  | Stop _ => False
  end.
Proof.
  assert (admissible (Munmap 0xc0000000 0x3000) demo_sealed) as Had
    by (split; [reflexivity|split; [lia|split; [lia|vm_compute; congruence]]]).
  assert (sealed_at demo_sealed 0xc0001000 = true) as Hse by (vm_compute; reflexivity).
  pose proof (seals_hold (λ _, false) 0 (Munmap 0xc0000000 0x3000) demo_sealed 0xc0001000 demo_sealed_ok Had Hse) as Hs.
  clear Had Hse. assert (is_ret (run_call (λ _, false) 0 (Munmap 0xc0000000 0x3000) demo_sealed) = true) as Hr by (vm_compute; reflexivity).
  revert Hs Hr. generalize demo_sealed. intros w Hs Hr.
  destruct (run_call (λ _, false) 0 (Munmap 0xc0000000 0x3000) w) as [[ret w']|s]; [|discriminate Hr].
  destruct Hs as [Hs|[(? & ? & ? & ? & ? & ? & E & _)|(? & E & _)]]; [exact Hs|discriminate E|discriminate E].
Defined.

(** ** Ways around a seal *)

(** A page mapped at a hint that happens to be the allocator's top, and sealed. *)
Definition demo_hint : demo_world := after (Mmap 0xc0000000 0x1000 3 anon (-1) 0) demo_w.
Definition demo_hint_sealed : demo_world := after (Mseal 0xc0000000 0x1000) demo_hint.

(** mmap with no address at all replaces it: the allocator hands out addresses
    in order and never asks what a hint put there. *)
Theorem mmap_replaces_sealed :
  sealed_at demo_hint_sealed 0xc0000000 = true ∧
  answer (Mmap 0 0x1000 3 anon (-1) 0) demo_hint_sealed = 0xc0000000 ∧
  sealed_at (after (Mmap 0 0x1000 3 anon (-1) 0) demo_hint_sealed) 0xc0000000 = false.
Proof. vm_compute. repeat split; reflexivity. Qed.

Definition demo_heap : demo_world := after (Mseal 0x601000 0x1000) (after (Brk 0x602000) demo_w).

(** A sealed page of the heap goes when the break moves down. *)
Theorem brk_unmaps_sealed :
  sealed_at demo_heap 0x601000 = true ∧ answer (Brk 0x600800) demo_heap = 0x600800 ∧
  look (areas (w_mm (after (Brk 0x600800) demo_heap))) 0x601000 = None.
Proof. vm_compute. repeat split; reflexivity. Qed.

(** munmap of no bytes inside a region reports success, having cut the region
    in two. *)
Theorem munmap_nothing_splits :
  match sys_munmap (λ _, false) 0xc0001000 0 demo_w1 with
  | Ret (ret, w') => ret = 0 ∧ length (mm_list (w_mm demo_w1)) = 1%nat ∧ length (mm_list (w_mm w')) = 2%nat
  | Stop _ => False
  end.
Proof. vm_compute. repeat split; reflexivity. Qed.

(** mremap of a reservation copies from the null pointer. *)
Theorem mremap_reserved_faults :
  sys_mremap (λ _, false) 0xc0000000 0x1000 0x4000 LINUX_MREMAP_MAYMOVE 0
    (after (Mmap 0 0x1000 0 anon (-1) 0) demo_w) = Stop Faulted.
Proof. vm_compute. reflexivity. Qed.

(** Two mappings of four pages, next to each other in the arena; the first cut
    down to one page. *)
Definition demo_two : demo_world := after (Mmap 0 0x4000 3 anon (-1) 0) (after (Mmap 0 0x4000 3 anon (-1) 0) demo_w).
Definition demo_two_shrunk : demo_world :=
  (ret_or (0, demo_two) (sys_mremap (λ _, false) 0xc0000000 0x4000 0x1000 LINUX_MREMAP_MAYMOVE 0 demo_two)).2.

(** mremap gives back arena space from the next 4 KiB boundary, and arena_free
    rounds what it is given up to 16 KiB: the first page of the neighbour,
    still mapped, is no longer in the arena's table, so that a snapshot for a
    child does not contain it. *)
Theorem mremap_shrink_forgets_neighbour :
  match look (areas (w_mm demo_two_shrunk)) 0xc0004000 with
  | Some v => look (areas (w_mm demo_two)) 0xc0004000 = Some v ∧ v_reserved v = false ∧
      arena_offset_of (m_arena (w_m demo_two)) (v_host v) = v_off v ∧
      arena_offset_of (m_arena (w_m demo_two_shrunk)) (v_host v) = -1
  | None => False
  end.
Proof. vm_compute. repeat split; reflexivity. Qed.
