(* ===== verification/PidNs.v ===== *)
(** Pid namespaces (src/proc/pidns.c) and the table of published credentials
    (src/proc/credtab.c): two tables that separate host processes keep in
    files, and what their readers may conclude from them. *)

From S2P Require Import Prelude.

(** * Pid namespaces *)

Module PidNs.

Definition PIDNS_MAX : nat := 512.
Definition NS_INO_FIRST : Z := 4026531835.
Definition NS_PID : Z := 3.

(** struct pidns_file; [n] is the length of [map], whose entries are pairs of a
    host pid and the pid inside. *)
Record pidns_file := mk_pidns { parent_ino : Z; next : Z; map : list (Z * Z) }.

(** The files, by inode; one that cannot be opened or read is not there. *)
Abbreviation files := (gmap Z pidns_file).

Definition initial_pid_ino : Z := NS_INO_FIRST + NS_PID.

Definition pidns_create (ino parent : Z) (fs : files) : files := <[ino := mk_pidns parent 1 []]> fs.

Definition find_host (host : Z) (l : list (Z * Z)) : option Z := snd <$> find (λ e, e.1 =? host) l.
Definition find_ns (ns : Z) (l : list (Z * Z)) : option Z := fst <$> find (λ e, e.2 =? ns) l.

(** [self] is the inode of the caller's own pid namespace. *)
Definition pidns_active (self : Z) : bool := negb (self =? initial_pid_ino).

Definition pidns_to_ns (self host : Z) (fs : files) : Z :=
  if negb (pidns_active self) then host
  else
    match fs !! self with
    | None => 0
    | Some f => default 0 (find_host host (map f))
    end.

Definition pidns_to_host (self ns : Z) (fs : files) : Z :=
  if negb (pidns_active self) then ns
  else
    match fs !! self with
    | None => -1
    | Some f => default (-1) (find_ns ns (map f))
    end.

(** What fits of the host pids, and how many there are. *)
Definition pidns_hosts (self : Z) (max : nat) (fs : files) : list Z * nat :=
  if negb (pidns_active self) then ([], O)
  else
    match fs !! self with
    | None => ([], O)
    | Some f => (take max (map f).*1, length (map f))
    end.

Definition enrol (ino host : Z) (fs : files) : files :=
  match fs !! ino with
  | None => fs
  | Some f =>
      if Nat.ltb (length (map f)) PIDNS_MAX then
        if existsb (λ e, e.1 =? host) (map f) then fs
        else <[ino := mk_pidns (parent_ino f) (u32 (next f + 1)) (map f ++ [(host, s32 (next f))])]> fs
      else fs
  end.

Fixpoint add_to_ancestors (fuel : nat) (ino host : Z) (fs : files) : outcome files :=
  if ino =? initial_pid_ino then Ret fs
  else
    match fuel with
    | O => Stop OutOfFuel
    | S fuel =>
        let fs := enrol ino host fs in
        match fs !! ino with
        | None => Ret fs
        | Some f =>
            if (parent_ino f =? 0) || (parent_ino f =? ino) then Ret fs
            else add_to_ancestors fuel (parent_ino f) host fs
        end
    end.

(** [child_ns] is the namespace the caller's children go into. *)
Definition pidns_add_child (self child_ns host : Z) (fs : files) : outcome (Z * files) :=
  fs ← add_to_ancestors (S (size fs)) child_ns host fs;
  Ret (pidns_to_ns self host fs, fs).

(** ** What a table is *)

(** Every host pid once, the pids inside counted from one in the order of
    arrival. *)
Record table_ok (f : pidns_file) : Prop := {
  to_next : next f = Z.of_nat (length (map f)) + 1;
  to_short : (length (map f) ≤ PIDNS_MAX)%nat;
  to_pids : (map f).*2 = (λ i, Z.of_nat i + 1) <$> seq 0 (length (map f));
  to_hosts : NoDup (map f).*1;
}.

Definition tables_ok (fs : files) : Prop := ∀ ino f, fs !! ino = Some f → table_ok f.

(** A parent is the initial namespace, nobody, or a namespace made before. *)
Definition nested (fs : files) : Prop := ∀ ino f, fs !! ino = Some f →
  parent_ino f = initial_pid_ino ∨ parent_ino f = 0 ∨ parent_ino f < ino.

Definition member (ino host : Z) (fs : files) : Prop := ∃ f, fs !! ino = Some f ∧ host ∈ (map f).*1.

Lemma find_host_some host l ns : NoDup l.*1 → (host, ns) ∈ l → find_host host l = Some ns.
Proof.
  unfold find_host. induction l as [|[h p] l IH]; cbn; [by intros _ ?%elem_of_nil|].
  intros [Hh Hl]%NoDup_cons [[= -> ->]|Hin]%elem_of_cons; [by rewrite Z.eqb_refl|].
  destruct (h =? host) eqn:E; [|auto]. bool_to_prop. subst h. destruct Hh. by apply (list_elem_of_fmap_2 fst l (host, ns)).
Qed.

Lemma find_ns_some host l ns : NoDup l.*2 → (host, ns) ∈ l → find_ns ns l = Some host.
Proof.
  unfold find_ns. induction l as [|[h p] l IH]; cbn; [by intros _ ?%elem_of_nil|].
  intros [Hp Hl]%NoDup_cons [[= -> ->]|Hin]%elem_of_cons; [by rewrite Z.eqb_refl|].
  destruct (p =? ns) eqn:E; [|auto]. bool_to_prop. subst p. destruct Hp. by apply (list_elem_of_fmap_2 snd l (host, ns)).
Qed.

Lemma find_host_in host l ns : find_host host l = Some ns → (host, ns) ∈ l.
Proof.
  unfold find_host. intros E. destruct (find _ l) as [[h p]|] eqn:Ef; [|done]. apply find_some in Ef as [Hin Hh].
  apply list_elem_of_In in Hin. cbn in *. bool_to_prop. subst. by injection E as <-.
Qed.

Lemma find_ns_in host l ns : find_ns ns l = Some host → (host, ns) ∈ l.
Proof.
  unfold find_ns. intros E. destruct (find _ l) as [[h p]|] eqn:Ef; [|done]. apply find_some in Ef as [Hin Hh].
  apply list_elem_of_In in Hin. cbn in *. bool_to_prop. subst. by injection E as <-.
Qed.

Lemma table_pids f : table_ok f → NoDup (map f).*2.
Proof. intros [_ _ -> _]. apply NoDup_fmap_2; [intros i j; lia|apply NoDup_seq]. Qed.

Lemma table_pid_pos f host ns : table_ok f → (host, ns) ∈ map f → 0 < ns ≤ Z.of_nat PIDNS_MAX.
Proof.
  intros [_ Hs Hp _] Hin%(list_elem_of_fmap_2 snd). cbn in Hin. rewrite Hp in Hin.
  apply list_elem_of_fmap in Hin as (i & -> & Hi%elem_of_seq). lia.
Qed.

(** ** Enrolling *)

Lemma enrol_lookup ino host fs i : i ≠ ino → enrol ino host fs !! i = fs !! i.
Proof.
  intros Hne. unfold enrol. destruct (fs !! ino) as [f|]; [|done]. destruct (Nat.ltb _ _); [|done].
  destruct (existsb _ _); [done|]. by rewrite lookup_insert_ne.
Qed.

(** The entry of the namespace itself: as it was, or one longer. *)
Lemma enrol_self ino host fs f : fs !! ino = Some f → ∃ f', (enrol ino host fs !! ino = Some f' ∧ parent_ino f' = parent_ino f ∧
  ((f' = f ∧ (host ∈ (map f).*1 ∨ length (map f) = PIDNS_MAX)) ∨
   (host ∉ (map f).*1 ∧ (length (map f) < PIDNS_MAX)%nat ∧ map f' = map f ++ [(host, s32 (next f))] ∧ next f' = u32 (next f + 1)))) ∨
  (PIDNS_MAX < length (map f))%nat.
Proof.
  intros Hf. unfold enrol. rewrite Hf. destruct (Nat.ltb (length (map f)) PIDNS_MAX) eqn:El.
  - apply Nat.ltb_lt in El. exists (if existsb (λ e, e.1 =? host) (map f) then f
      else mk_pidns (parent_ino f) (u32 (next f + 1)) (map f ++ [(host, s32 (next f))])). left.
    destruct (existsb (λ e, e.1 =? host) (map f)) eqn:Ex.
    + split; [done|]. split; [done|]. left. split; [done|]. left. apply existsb_exists in Ex as ([h p] & Hin%list_elem_of_In & E).
      cbn in E. bool_to_prop. subst h. by apply (list_elem_of_fmap_2 fst _ (host, p)).
    + split; [by rewrite lookup_insert_eq|]. split; [done|]. right. split; [|done].
      intros ([h p] & -> & Hin)%list_elem_of_fmap. apply not_true_iff_false in Ex. apply Ex. apply existsb_exists.
      exists (h, p). split; [by apply list_elem_of_In|]. cbn. apply Z.eqb_refl.
  - apply Nat.ltb_ge in El. destruct (decide (length (map f) = PIDNS_MAX)) as [E|E]; [|exists f; right; lia].
    exists f. left. split; [done|]. split; [done|]. left. split; [done|]. by right.
Qed.

Lemma pidns_grown f host :
  table_ok f → host ∉ (map f).*1 → (length (map f) < PIDNS_MAX)%nat →
  table_ok (mk_pidns (parent_ino f) (u32 (next f + 1)) (map f ++ [(host, s32 (next f))])).
Proof.
  intros [H1 H2 H3 H4] Hn Hl. unfold PIDNS_MAX in Hl.
  assert (u32 (next f + 1) = next f + 1) as Hu by (apply u32_small; lia).
  assert (s32 (next f) = next f) as Hs by (apply s32_small; lia).
  split; cbn [next map parent_ino]; rewrite ?Hu, ?Hs, ?length_app, ?fmap_app; cbn.
  - lia.
  - unfold PIDNS_MAX. lia.
  - rewrite H3, H1. replace (length (map f) + 1)%nat with (S (length (map f))) by lia. rewrite seq_S, fmap_app. cbn. done.
  - apply NoDup_app. split; [done|]. split; [|apply NoDup_singleton]. intros x Hx ->%list_elem_of_singleton. done.
Qed.

(** Enrolling keeps every translation there was. *)
Definition keeps (fs fs' : files) : Prop := ∀ ino f, fs !! ino = Some f → ∃ f' l, fs' !! ino = Some f' ∧
  parent_ino f' = parent_ino f ∧ map f' = map f ++ l.

Lemma keeps_refl fs : keeps fs fs.
Proof. intros ino f Hf. exists f, []. by rewrite app_nil_r. Qed.

Lemma keeps_trans fs fs1 fs2 : keeps fs fs1 → keeps fs1 fs2 → keeps fs fs2.
Proof.
  intros K1 K2 ino f (f1 & l1 & Hf1 & Hp1 & Hm1)%K1. destruct (K2 _ _ Hf1) as (f2 & l2 & Hf2 & Hp2 & Hm2).
  exists f2, (l1 ++ l2). split; [done|]. split; [congruence|]. by rewrite Hm2, Hm1, app_assoc.
Qed.

Lemma enrol_spec ino host fs :
  tables_ok fs → tables_ok (enrol ino host fs) ∧ keeps fs (enrol ino host fs) ∧
  (∀ i, is_Some (enrol ino host fs !! i) ↔ is_Some (fs !! i)) ∧
  (∀ f, fs !! ino = Some f → (length (map f) < PIDNS_MAX)%nat → member ino host (enrol ino host fs)).
Proof.
  intros Hok. destruct (fs !! ino) as [f|] eqn:Hf; cycle 1.
  { assert (enrol ino host fs = fs) as -> by (unfold enrol; by rewrite Hf). split; [done|]. split; [apply keeps_refl|]. done. }
  pose proof (Hok _ _ Hf) as Ht. destruct (enrol_self ino host fs f Hf) as (f' & [(Hf' & Hp & Hcase)|Hbig]); cycle 1.
  { pose proof (to_short _ Ht). lia. }
  assert (table_ok f' ∧ ∃ l, map f' = map f ++ l) as [Ht' Hl].
  { destruct Hcase as [[-> _]|(Hn & Hlt & Hm & Hx)]; [split; [done|exists []; by rewrite app_nil_r]|].
    split; [|by eexists]. destruct f' as [p' n' m']. cbn in *. subst. by apply pidns_grown. }
  split; [|split; [|split]].
  - intros i g Hg. destruct (decide (i = ino)) as [->|Hne]; [rewrite Hf' in Hg; by injection Hg as <-|].
    rewrite enrol_lookup in Hg by done. by apply (Hok i).
  - intros i g Hg. destruct (decide (i = ino)) as [->|Hne].
    + rewrite Hf in Hg. injection Hg as <-. destruct Hl as [l Hl]. exists f', l. done.
    + exists g, []. rewrite enrol_lookup by done. by rewrite app_nil_r.
  - intros i. destruct (decide (i = ino)) as [->|Hne]; [rewrite Hf', Hf; done|by rewrite enrol_lookup].
  - intros g [= <-] Hlt. exists f'. split; [done|]. destruct Hcase as [[-> [Hin|Hfull]]|(_ & _ & -> & _)]; [done|lia|].
    rewrite fmap_app. apply elem_of_app. right. by left.
Qed.

(** ** The chain of ancestors *)

Inductive above (fs : files) : Z → Z → Prop :=
  | above_self ino f : ino ≠ initial_pid_ino → fs !! ino = Some f → above fs ino ino
  | above_up ino f a : ino ≠ initial_pid_ino → fs !! ino = Some f → parent_ino f ≠ 0 → parent_ino f ≠ ino →
      above fs (parent_ino f) a → above fs ino a.

Lemma above_active fs a b : above fs a b → pidns_active b = true.
Proof. induction 1; [|done]. unfold pidns_active. by rewrite (proj2 (Z.eqb_neq _ _)). Qed.

(** Namespaces no newer than [ino]: the chain is no longer than this. *)
Definition older (ino : Z) (fs : files) : nat := length (filter (λ i, i ≤ ino) (elements (dom fs))).

Lemma older_step ino p fs : p < ino → is_Some (fs !! ino) → (older p fs < older ino fs)%nat.
Proof.
  intros Hp Hin%elem_of_dom%elem_of_elements. unfold older. revert Hin. generalize (elements (dom fs)) as l.
  assert (∀ l : list Z, (length (filter (λ i, (i ≤ p)%Z) l) ≤ length (filter (λ i, (i ≤ ino)%Z) l))%nat) as Hle.
  { induction l as [|x l IH]; [done|]. rewrite !filter_cons. repeat case_decide; cbn; lia. }
  induction l as [|x l IH]; [by intros ?%elem_of_nil|]. specialize (Hle l). rewrite !filter_cons.
  intros [->|Hin]%elem_of_cons; [rewrite decide_False, decide_True by lia; cbn; lia|].
  specialize (IH Hin). repeat case_decide; cbn; lia.
Qed.

Lemma nested_keeps fs fs' :
  keeps fs fs' → (∀ i, is_Some (fs' !! i) ↔ is_Some (fs !! i)) → nested fs → nested fs'.
Proof.
  intros Hk Hd Hn ino f' Hf'. destruct (proj1 (Hd ino)) as [f Hf]; [by rewrite Hf'|].
  destruct (Hk _ _ Hf) as (f2 & l & Hf2 & Hp & _). rewrite Hf' in Hf2. injection Hf2 as <-. rewrite Hp. by apply Hn.
Qed.

Lemma above_keeps fs fs' a b : keeps fs fs' → above fs a b → above fs' a b.
Proof.
  intros Hk. induction 1 as [ino f Hi Hf|ino f b Hi Hf H0 Hs _ IH].
  - destruct (Hk _ _ Hf) as (f' & l & Hf' & _). by apply (above_self _ _ f').
  - destruct (Hk _ _ Hf) as (f' & l & Hf' & Hp & _). rewrite <- Hp in *. by apply (above_up _ _ f').
Qed.

Lemma above_back fs fs' a b : keeps fs fs' → (∀ i, is_Some (fs' !! i) ↔ is_Some (fs !! i)) → above fs' a b → above fs a b.
Proof.
  intros Hk Hd. induction 1 as [ino f' Hi Hf'|ino f' b Hi Hf' H0 Hs _ IH];
    (destruct (proj1 (Hd ino)) as [f Hf]; [by rewrite Hf'|]).
  - by apply (above_self _ _ f).
  - destruct (Hk _ _ Hf) as (f2 & l & Hf2 & Hp & _). rewrite Hf' in Hf2. injection Hf2 as <-. rewrite Hp in *.
    by apply (above_up _ _ f).
Qed.

Lemma member_keeps fs fs' a host : keeps fs fs' → member a host fs → member a host fs'.
Proof.
  intros Hk (f & Hf & Hin). destruct (Hk _ _ Hf) as (f' & l & Hf' & _ & Hm). exists f'. split; [done|].
  rewrite Hm, fmap_app. apply elem_of_app. by left.
Qed.

Definition room_in (fs : files) (a : Z) : Prop := ∀ f, fs !! a = Some f → (length (map f) < PIDNS_MAX)%nat.

Lemma add_to_ancestors_spec fuel : ∀ ino host fs,
  tables_ok fs → nested fs → (older ino fs < fuel)%nat →
  ∃ fs', add_to_ancestors fuel ino host fs = Ret fs' ∧ tables_ok fs' ∧ nested fs' ∧ keeps fs fs' ∧
    (∀ a, above fs ino a → room_in fs a → member a host fs') ∧ (∀ a, ¬ above fs ino a → fs' !! a = fs !! a).
Proof.
  induction fuel as [|fuel IH]; intros ino host fs Hok Hn Hf; [lia|]. cbn [add_to_ancestors].
  destruct (ino =? initial_pid_ino) eqn:Ei; bool_to_prop.
  { exists fs. split; [done|]. split; [done|]. split; [done|]. split; [apply keeps_refl|]. split; [|done].
    intros a Ha. inversion Ha; congruence. }
  destruct (enrol_spec ino host fs Hok) as (Hok1 & Hk1 & Hd1 & Hm1). set (fs1 := enrol ino host fs) in *.
  pose proof (nested_keeps fs fs1 Hk1 Hd1 Hn) as Hn1.
  destruct (fs !! ino) as [f|] eqn:Hfi; cycle 1.
  { assert (fs1 = fs) as -> by (unfold fs1, enrol; by rewrite Hfi). rewrite Hfi.
    exists fs. split; [done|]. split; [done|]. split; [done|]. split; [apply keeps_refl|]. split; [|done]. intros a Ha. inversion Ha; congruence. }
  destruct (Hk1 _ _ Hfi) as (f1 & l1 & Hf1 & Hp1 & _). rewrite Hf1.
  assert (∀ a, above fs ino a → a = ino ∨ parent_ino f ≠ 0 ∧ parent_ino f ≠ ino ∧ above fs (parent_ino f) a) as Hinv.
  { intros a Ha. inversion Ha as [|? g]; subst; [by left|right]. assert (g = f) as -> by congruence. done. }
  destruct ((parent_ino f1 =? 0) || (parent_ino f1 =? ino)) eqn:Ep.
  - exists fs1. split; [done|]. split; [done|]. split; [done|]. split; [done|]. split.
    + intros a [->|(H0 & Hs & _)]%Hinv Hr; [by apply (Hm1 f), Hr|]. bool_to_prop. lia.
    + intros a Ha. apply enrol_lookup. intros ->. apply Ha. by apply (above_self _ _ f).
  - bool_to_prop. rewrite Hp1 in *.
    assert (parent_ino f = initial_pid_ino ∨ parent_ino f < ino) as Hlt by (destruct (Hn _ _ Hfi) as [?|[?|?]]; auto; lia).
    assert (older (parent_ino f) fs1 = older (parent_ino f) fs) as Ho.
    { unfold older. f_equal. f_equal. f_equal. apply set_eq. intros i. rewrite !elem_of_dom. apply Hd1. }
    assert (∃ fs', add_to_ancestors fuel (parent_ino f) host fs1 = Ret fs' ∧ tables_ok fs' ∧ nested fs' ∧ keeps fs1 fs' ∧
      (∀ a, above fs1 (parent_ino f) a → room_in fs1 a → member a host fs') ∧
      (∀ a, ¬ above fs1 (parent_ino f) a → fs' !! a = fs1 !! a)) as (fs' & E & Hok' & Hn' & Hk' & Hm' & Hs').
    { destruct Hlt as [Hini|Hlt].
      - exists fs1. split; [destruct fuel; cbn [add_to_ancestors]; by rewrite Hini, Z.eqb_refl|].
        split; [done|]. split; [done|]. split; [apply keeps_refl|]. split; [|done]. intros a Ha. inversion Ha; congruence.
      - apply IH; [done|done|]. pose proof (older_step ino (parent_ino f) fs Hlt ltac:(by rewrite Hfi)). lia. }
    exists fs'. split; [done|]. split; [done|]. split; [done|]. split; [by eapply keeps_trans|].
    split.
    + intros a Ha Hr. destruct (decide (a = ino)) as [->|Hne]; [apply (member_keeps fs1 fs'); [done|]; by apply (Hm1 f), Hr|].
      apply Hinv in Ha as [?|(_ & _ & Ha)]; [done|]. apply Hm'; [by apply (above_keeps fs)|].
      intros g. unfold fs1. rewrite enrol_lookup by done. apply Hr.
    + intros a Ha. assert (a ≠ ino) as Hne by (intros ->; apply Ha; by apply (above_self _ _ f)).
      rewrite Hs'; [by apply enrol_lookup|]. intros Hb%(above_back fs fs1); [|done|done]. apply Ha. by apply (above_up _ _ f).
Qed.

(** ** The translations *)

Lemma older_size ino fs : (older ino fs < S (size fs))%nat.
Proof.
  unfold older. rewrite <- size_dom. unfold size, set_size. cbn.
  pose proof (length_filter (λ i, i ≤ ino) (elements (dom fs))). lia.
Qed.

Lemma find_app {A} (p : A → bool) l k : find p (l ++ k) = match find p l with Some x => Some x | None => find p k end.
Proof. induction l as [|x l IH]; [done|]. cbn. by destruct (p x). Qed.

Lemma to_ns_keeps self host fs fs' :
  keeps fs fs' → pidns_to_ns self host fs ≠ 0 → pidns_to_ns self host fs' = pidns_to_ns self host fs.
Proof.
  unfold pidns_to_ns. destruct (negb _); [done|]. intros Hk. destruct (fs !! self) as [f|] eqn:Hf; [|done].
  destruct (Hk _ _ Hf) as (f' & l & -> & _ & ->). unfold find_host. rewrite find_app.
  by destruct (find _ (map f)) as [e|].
Qed.

Lemma member_to_ns self host fs :
  pidns_active self = true → tables_ok fs → member self host fs →
  0 < pidns_to_ns self host fs ≤ Z.of_nat PIDNS_MAX ∧ pidns_to_host self (pidns_to_ns self host fs) fs = host.
Proof.
  intros Ha Hok (f & Hf & ([h p] & -> & Hin)%list_elem_of_fmap). pose proof (Hok _ _ Hf) as Ht.
  unfold pidns_to_ns, pidns_to_host. rewrite Ha, Hf. cbn [negb fst].
  rewrite (find_host_some h (map f) p) by (done || apply Ht). change (default 0 (Some p)) with p.
  split; [by apply (table_pid_pos f h)|]. by rewrite (find_ns_some h (map f) p) by (done || by apply table_pids).
Qed.

Lemma to_host_member self ns fs :
  pidns_active self = true → tables_ok fs → pidns_to_host self ns fs ≠ -1 →
  member self (pidns_to_host self ns fs) fs ∧ pidns_to_ns self (pidns_to_host self ns fs) fs = ns.
Proof.
  intros Ha Hok. unfold pidns_to_ns, pidns_to_host. rewrite Ha. cbn [negb].
  destruct (fs !! self) as [f|] eqn:Hf; [|done]. destruct (find_ns ns (map f)) as [h|] eqn:E; [|done]. intros _. change (default (-1) (Some h)) with h.
  apply find_ns_in in E. split; [exists f; split; [done|]; by apply (list_elem_of_fmap_2 fst _ (h, ns))|].
  rewrite (find_host_some h (map f) ns); [done|by apply (Hok self)|done].
Qed.

Lemma outsider self host fs : pidns_active self = true → ¬ member self host fs → pidns_to_ns self host fs = 0.
Proof.
  intros Ha Hm. unfold pidns_to_ns. rewrite Ha. cbn [negb]. destruct (fs !! self) as [f|] eqn:Hf; [|done].
  destruct (find_host host (map f)) as [p|] eqn:E; [|done]. destruct Hm. exists f. split; [done|].
  apply find_host_in in E. by apply (list_elem_of_fmap_2 fst _ (host, p)).
Qed.

(** ** The theorems *)

(** C39: registering a child is total and safe: the walk up the parents ends,
    tables stay well formed (host pids once, pids inside counted from one) and
    the nesting stays acyclic, no pid already handed out ever changes, the child
    gets an entry in the namespace it joins and in every ancestor that has room,
    no other namespace is touched, and the caller is told the child's pid in the
    caller's own namespace. *)
Theorem pidns_add_child_correct self child_ns host fs :
  tables_ok fs → nested fs →
  ∃ fs', pidns_add_child self child_ns host fs = Ret (pidns_to_ns self host fs', fs') ∧ tables_ok fs' ∧ nested fs' ∧
    (∀ ino h, pidns_to_ns ino h fs ≠ 0 → pidns_to_ns ino h fs' = pidns_to_ns ino h fs) ∧
    (∀ a, above fs child_ns a → room_in fs a →
      0 < pidns_to_ns a host fs' ≤ Z.of_nat PIDNS_MAX ∧ pidns_to_host a (pidns_to_ns a host fs') fs' = host) ∧
    (∀ a, ¬ above fs child_ns a → fs' !! a = fs !! a).
Proof.
  intros Hok Hn. destruct (add_to_ancestors_spec (S (size fs)) child_ns host fs Hok Hn (older_size _ _))
    as (fs' & E & Hok' & Hn' & Hk & Hm & Hs).
  exists fs'. unfold pidns_add_child. rewrite E. split; [done|]. split; [done|]. split; [done|].
  split; [intros ino h; by apply to_ns_keeps|]. split; [|done].
  intros a Ha Hr. apply member_to_ns; [|done|by apply Hm]. by apply (above_active fs child_ns).
Qed.

(** In a namespace other than the initial one the two translations are
    inverse to each other, and contained: a host pid translates exactly when it
    is a member, the answer is a pid from 1 to PIDNS_MAX that translates back,
    and a pid inside either names a member, and translates back, or nobody. *)
Theorem pidns_roundtrip self fs :
  pidns_active self = true → tables_ok fs →
  (∀ host, member self host fs →
    0 < pidns_to_ns self host fs ≤ Z.of_nat PIDNS_MAX ∧ pidns_to_host self (pidns_to_ns self host fs) fs = host) ∧
  (∀ host, ¬ member self host fs → pidns_to_ns self host fs = 0) ∧
  (∀ ns, pidns_to_host self ns fs ≠ -1 →
    member self (pidns_to_host self ns fs) fs ∧ pidns_to_ns self (pidns_to_host self ns fs) fs = ns).
Proof.
  intros Ha Hok. split; [intros host; by apply member_to_ns|]. split; [intros host; by apply outsider|].
  intros ns. by apply to_host_member.
Qed.

(** Two namespaces, the second inside the first. *)
Definition demo_files : files :=
  <[4026531901 := mk_pidns 4026531900 1 []]> {[4026531900 := mk_pidns initial_pid_ino 2 [(700, 1)]]}.

Lemma demo_tables : tables_ok demo_files ∧ nested demo_files.
Proof.
  split; intros ino f; unfold demo_files; rewrite lookup_insert_Some, lookup_singleton_Some;
    intros [[<- <-]|[_ [<- <-]]].
  - split; cbn; [lia|lia|done|apply NoDup_nil_2].
  - split; cbn; [lia|unfold PIDNS_MAX; lia|done|apply NoDup_singleton].
  - cbn. lia.
  - by left.
Qed.

Lemma pidns_add_child_correct_witness : tables_ok demo_files ∧ nested demo_files ∧
  ∃ fs', pidns_add_child 4026531900 4026531901 800 demo_files = Ret (pidns_to_ns 4026531900 800 fs', fs') ∧
    pidns_to_host 4026531901 (pidns_to_ns 4026531901 800 fs') fs' = 800 ∧
    pidns_to_host 4026531900 (pidns_to_ns 4026531900 800 fs') fs' = 800.
Proof.
  destruct demo_tables as [H1 H2]. split; [done|]. split; [done|].
  destruct (pidns_add_child_correct 4026531900 4026531901 800 demo_files H1 H2) as (fs' & E & _ & _ & _ & Hin & _).
  assert (demo_files !! 4026531901 = Some (mk_pidns 4026531900 1 [])) as L1 by done.
  assert (demo_files !! 4026531900 = Some (mk_pidns initial_pid_ino 2 [(700, 1)])) as L2 by done.
  exists fs'. split; [exact E|]. split; apply Hin.
  - refine (above_self _ _ _ _ L1). unfold initial_pid_ino, NS_INO_FIRST, NS_PID. lia.
  - unfold room_in. rewrite L1. intros f [= <-]. cbn. unfold PIDNS_MAX. lia.
  - refine (above_up _ _ _ _ _ L1 _ _ (above_self _ _ _ _ L2)); unfold initial_pid_ino, NS_INO_FIRST, NS_PID; cbn [parent_ino]; lia.
  - unfold room_in. rewrite L2. intros f [= <-]. cbn. unfold PIDNS_MAX. lia.
Defined.

Lemma pidns_roundtrip_witness : pidns_active 4026531900 = true ∧ tables_ok demo_files ∧
  pidns_to_ns 4026531900 700 demo_files = 1 ∧ pidns_to_host 4026531900 1 demo_files = 700.
Proof.
  split; [done|]. split; [apply demo_tables|].
  destruct (pidns_roundtrip 4026531900 demo_files eq_refl (proj1 demo_tables)) as (_ & _ & H).
  destruct (H 1) as [_ E]; [by vm_compute|]. split; [|by vm_compute]. exact E.
Defined.

(** Entries are never taken out, so a table counts the processes a namespace
    ever had: the one after the last is not registered and the caller gets 0. *)
Lemma pidns_full self host fs f :
  pidns_active self = true → fs !! self = Some f → parent_ino f = initial_pid_ino → tables_ok fs →
  length (map f) = PIDNS_MAX → host ∉ (map f).*1 → pidns_add_child self self host fs = Ret (0, fs).
Proof.
  intros Ha Hf Hp Hok Hl Hh. assert (add_to_ancestors (S (size fs)) self host fs = Ret fs) as E.
  { cbn [add_to_ancestors].
    assert (self =? initial_pid_ino = false) as -> by (unfold pidns_active in Ha; by apply negb_true_iff).
    assert (enrol self host fs = fs) as -> by (unfold enrol; by rewrite Hf, Hl, Nat.ltb_irrefl).
    rewrite Hf, Hp. destruct ((initial_pid_ino =? 0) || (initial_pid_ino =? self)); [done|]. by destruct (size fs). }
  unfold pidns_add_child. rewrite E. cbn. rewrite outsider; [done|done|]. intros (g & Hg & Hin). congruence.
Qed.
End PidNs.

(** * The table of published credentials *)

Module CredTab.

Definition CREDTAB_MAX : nat := 1024.

(** An entry of struct credtab_file; [n] is the length of the list. *)
Record entry := mk_entry { pid : Z; uid : Z; gid : Z }.
Abbreviation credtab := (list entry).

(** A table that does not exist yet, or is short, reads as an empty one. *)
Definition credtab_read (file : option credtab) : credtab := default [] file.

(** The slot a publication goes to: one's own, the next free one, or in a full
    table the first whose process is gone. *)
Definition slot_of (gone : Z → bool) (me : Z) (t : credtab) : nat :=
  let n := length t in
  let slot := default n (fst <$> list_find (λ e, pid e = me) t) in
  if (Nat.eqb slot n && Nat.eqb n CREDTAB_MAX)%bool
  then default n (fst <$> list_find (λ e, gone (pid e) = true) t)
  else slot.

(** [gone p] is kill(p, 0) failing with ESRCH. *)
Definition cred_publish (gone : Z → bool) (me uid gid : Z) (file : option credtab) : option credtab :=
  let t := credtab_read file in
  let slot := slot_of gone me t in
  if Nat.ltb slot CREDTAB_MAX then
    if Nat.eqb slot (length t) then Some (t ++ [mk_entry me uid gid])
    else Some (<[slot := mk_entry me uid gid]> t)
  else file.

Definition cred_of_host_pid (p : Z) (file : option credtab) : option (Z * Z) :=
  (λ e, (uid e, gid e)) <$> (snd <$> list_find (λ e, pid e = p) (credtab_read file)).

Record table_ok (t : credtab) : Prop := {
  ct_short : (length t ≤ CREDTAB_MAX)%nat;
  ct_pids : NoDup (pid <$> t);
}.

Lemma cred_lookup p t : NoDup (pid <$> t) → ∀ e, e ∈ t → pid e = p →
  snd <$> list_find (λ e, pid e = p) t = Some e.
Proof.
  intros Hd e He Hp. destruct (list_find_elem_of (λ e, pid e = p) t e He Hp) as [[i x] E]. rewrite E. cbn.
  apply list_find_Some in E as (Hi & Hx & _). apply list_elem_of_lookup in He as [j Hj].
  assert (i = j) as ->; [|congruence].
  apply (NoDup_lookup (pid <$> t) i j p Hd); rewrite list_lookup_fmap, ?Hi, ?Hj; cbn; congruence.
Qed.

Lemma cred_absent p t : (∀ e, e ∈ t → pid e ≠ p) → snd <$> list_find (λ e, pid e = p) t = None.
Proof.
  intros H. destruct (list_find _ t) as [[i x]|] eqn:E; [|done]. apply list_find_Some in E as (Hi & Hx & _).
  destruct (H x); [by eapply list_elem_of_lookup_2|done].
Qed.

(** Where the publication goes. *)
Lemma slot_spec gone me t : table_ok t →
  let s := slot_of gone me t in
  (∃ e, t !! s = Some e ∧ pid e = me) ∨
  (s = length t ∧ (length t < CREDTAB_MAX)%nat ∧ me ∉ (pid <$> t)) ∨
  (∃ e, t !! s = Some e ∧ gone (pid e) = true ∧ length t = CREDTAB_MAX ∧ me ∉ (pid <$> t)) ∨
  (s = length t ∧ length t = CREDTAB_MAX ∧ me ∉ (pid <$> t) ∧ ∀ e, e ∈ t → gone (pid e) = false).
Proof.
  intros [Hs _]. unfold slot_of. cbv zeta. destruct (list_find (λ e, pid e = me) t) as [[i x]|] eqn:E.
  { apply list_find_Some in E as (Hi & Hx & _). cbn. left. pose proof (lookup_lt_Some _ _ _ Hi).
    rewrite (proj2 (Nat.eqb_neq i (length t))) by lia. cbn. by exists x. }
  apply list_find_None in E. assert (me ∉ (pid <$> t)) as Hn.
  { intros (e & -> & He)%list_elem_of_fmap. rewrite Forall_forall in E. by apply (E e). }
  cbn. rewrite Nat.eqb_refl. cbn. destruct (Nat.eqb (length t) CREDTAB_MAX) eqn:El; cycle 1.
  { apply Nat.eqb_neq in El. right. left. split; [done|]. split; [lia|done]. }
  apply Nat.eqb_eq in El. right. right. destruct (list_find (λ e, gone (pid e) = true) t) as [[i x]|] eqn:Eg.
  - apply list_find_Some in Eg as (Hi & Hx & _). left. cbn. by exists x.
  - apply list_find_None in Eg. rewrite Forall_forall in Eg. right. split; [done|]. split; [done|]. split; [done|].
    intros e He. apply not_true_iff_false. by apply Eg.
Qed.

Lemma insert_table s e0 me u g t :
  table_ok t → t !! s = Some e0 → pid e0 = me ∨ me ∉ (pid <$> t) → table_ok (<[s := mk_entry me u g]> t).
Proof.
  intros [Hs Hd] Hl Hme. split; [by rewrite length_insert|]. rewrite list_fmap_insert. cbn.
  destruct Hme as [<-|Hn]; [rewrite list_insert_id; [done|by rewrite list_lookup_fmap, Hl]|].
  apply NoDup_alt. intros i j x Hi Hj. apply list_lookup_insert_Some in Hi as [(-> & -> & _)|[Hi1 Hi2]];
    apply list_lookup_insert_Some in Hj as [(Hj1 & Hj2 & _)|[Hj1 Hj2]]; subst; try done.
  - destruct Hn. by eapply list_elem_of_lookup_2.
  - destruct Hn. by eapply list_elem_of_lookup_2.
  - by eapply NoDup_lookup.
Qed.

Lemma insert_others s e0 me u g t p :
  t !! s = Some e0 → p ≠ me → p ≠ pid e0 → NoDup (pid <$> t) → table_ok (<[s := mk_entry me u g]> t) →
  cred_of_host_pid p (Some (<[s := mk_entry me u g]> t)) = cred_of_host_pid p (Some t).
Proof.
  intros Hl Hp Hp0 Hd [_ Hd']. unfold cred_of_host_pid. cbn. f_equal.
  destruct (decide (p ∈ (pid <$> t))) as [(e & -> & He)%list_elem_of_fmap|Hn].
  - rewrite (cred_lookup _ t Hd e He eq_refl). apply cred_lookup; [done| |done].
    apply list_elem_of_lookup in He as [j Hj]. apply list_elem_of_lookup. exists j.
    rewrite list_lookup_insert_ne; [done|]. intros ->. congruence.
  - rewrite !cred_absent; [done| |].
    + intros e He <-. apply Hn. by apply list_elem_of_fmap_2.
    + intros e [i Hi]%list_elem_of_lookup. apply list_lookup_insert_Some in Hi as [(-> & <- & _)|[_ Hi]]; [done|].
      intros <-. apply Hn. apply list_elem_of_fmap_2. by eapply list_elem_of_lookup_2.
Qed.

(** What one publication does to a table. *)
Record published (gone : Z → bool) (me u g : Z) (t t' : credtab) : Prop := {
  pb_ok : table_ok t';
  pb_mine : cred_of_host_pid me (Some t') = Some (u, g);
  pb_others : ∀ p, p ≠ me → gone p = false → cred_of_host_pid p (Some t') = cred_of_host_pid p (Some t);
}.

Lemma publish_at gone s e0 me u g t :
  table_ok t → t !! s = Some e0 → pid e0 = me ∨ (gone (pid e0) = true ∧ me ∉ (pid <$> t)) →
  published gone me u g t (<[s := mk_entry me u g]> t).
Proof.
  intros Ht Hl Hc. assert (table_ok (<[s := mk_entry me u g]> t)) as Ht' by (apply (insert_table s e0); naive_solver).
  split; [done| |].
  - unfold cred_of_host_pid, credtab_read. cbn [default from_option id]. rewrite (cred_lookup me _ (ct_pids _ Ht') (mk_entry me u g)); [done| |done].
    apply list_elem_of_lookup. exists s. apply list_lookup_insert_eq. by eapply lookup_lt_Some.
  - intros p Hp Hg. apply (insert_others s e0); [done|done| |apply Ht|done].
    destruct Hc as [->|[Hc _]]; [done|]. intros ->. congruence.
Qed.

Lemma publish_new gone me u g t :
  table_ok t → (length t < CREDTAB_MAX)%nat → me ∉ (pid <$> t) → published gone me u g t (t ++ [mk_entry me u g]).
Proof.
  intros [Hs Hd] Hl Hn. split.
  - split; [rewrite length_app; cbn; lia|]. rewrite fmap_app. apply NoDup_app. split; [done|].
    split; [|apply NoDup_singleton]. intros x Hx ->%list_elem_of_singleton. done.
  - unfold cred_of_host_pid. cbn. rewrite list_find_app_r; [cbn; by rewrite decide_True|].
    apply list_find_None. apply Forall_forall. intros e He <-. apply Hn. by apply list_elem_of_fmap_2.
  - intros p Hp _. unfold cred_of_host_pid. cbn. destruct (list_find (λ e, pid e = p) t) as [[i x]|] eqn:E.
    + by rewrite (list_find_app_l _ _ _ _ _ E).
    + rewrite list_find_app_r by done. cbn. by rewrite decide_False.
Qed.

(** Publishing credentials: unless the table is full of live processes, the
    table stays well formed, a lookup of the publisher gives what it published
    last and every live process's answer is as before; a table full of live
    processes is left as it is. *)
Theorem cred_publish_correct gone me u g file :
  table_ok (credtab_read file) →
  (∃ t', cred_publish gone me u g file = Some t' ∧ published gone me u g (credtab_read file) t') ∨
  (cred_publish gone me u g file = file ∧ length (credtab_read file) = CREDTAB_MAX ∧ cred_of_host_pid me file = None ∧
   ∀ e, e ∈ credtab_read file → gone (pid e) = false).
Proof.
  intros Ht. unfold cred_publish, cred_of_host_pid. set (t := credtab_read file) in *. pose proof (slot_spec gone me t Ht) as H.
  cbv zeta in H. pose proof (ct_short _ Ht) as Hlen.
  destruct H as [(e & Hl & He)|[(E & Hl & Hn)|[(e & Hl & Hg & El & Hn)|(E & El & Hn & Hall)]]].
  - pose proof (lookup_lt_Some _ _ _ Hl). left. rewrite (proj2 (Nat.ltb_lt _ _)), (proj2 (Nat.eqb_neq _ _)) by lia.
    eexists. split; [done|]. apply (publish_at gone _ e); auto.
  - left. rewrite E, Nat.eqb_refl, (proj2 (Nat.ltb_lt _ _)) by lia. eexists. split; [done|]. by apply publish_new.
  - pose proof (lookup_lt_Some _ _ _ Hl). left. rewrite (proj2 (Nat.ltb_lt _ _)), (proj2 (Nat.eqb_neq _ _)) by lia.
    eexists. split; [done|]. apply (publish_at gone _ e); auto.
  - right. rewrite E, El. rewrite Nat.ltb_irrefl. split; [done|]. split; [done|]. split; [|done].
    rewrite cred_absent; [done|]. intros e He <-. apply Hn. by apply list_elem_of_fmap_2.
Qed.

Lemma cred_publish_correct_witness : table_ok [mk_entry 7 0 0] ∧
  cred_of_host_pid 8 (cred_publish (λ _, false) 8 1000 100 (Some [mk_entry 7 0 0])) = Some (1000, 100).
Proof.
  assert (table_ok [mk_entry 7 0 0]) as Ht by (split; [cbn; unfold CREDTAB_MAX; lia|apply NoDup_singleton]).
  split; [done|]. destruct (cred_publish_correct (λ _, false) 8 1000 100 (Some [mk_entry 7 0 0]) Ht) as [(t' & -> & H)|(_ & H & _)];
    [by apply (pb_mine _ _ _ _ _ _ H)|done].
Defined.

(** A process outside that is given the pid of a dead guest process is answered
    for with the dead one's ids. *)
Lemma stale_entry_answers gone t me u g p :
  table_ok t → p ≠ me → (length t < CREDTAB_MAX)%nat →
  cred_of_host_pid p (cred_publish gone me u g (Some t)) = cred_of_host_pid p (Some t).
Proof.
  intros Ht Hp Hl. unfold cred_publish. change (credtab_read (Some t)) with t. pose proof (slot_spec gone me t Ht) as H. cbv zeta in H.
  destruct H as [(e & He & Hm)|[(E & _ & Hn)|[(e & _ & _ & El & _)|(_ & El & _)]]]; [| |lia|lia].
  - pose proof (lookup_lt_Some _ _ _ He). rewrite (proj2 (Nat.ltb_lt _ _)), (proj2 (Nat.eqb_neq _ _)) by lia.
    apply (insert_others _ e); [done|done|congruence|apply Ht|]. apply (insert_table _ e); auto.
  - rewrite E, Nat.eqb_refl, (proj2 (Nat.ltb_lt _ _)) by lia. by apply (pb_others (λ _, false) me u g t _ (publish_new _ me u g t Ht Hl Hn)).
Qed.
End CredTab.
