(* ===== verification/Guest.v ===== *)
(** The guest's memory as a system call sees it: the interface through which
    the handlers of the later files read their arguments and write their
    results, the proof that nabi's own copies (UserCopy.v, over the region map)
    provide it, and a flat memory to run the handlers on. *)

From S2P Require Import Prelude Host RbTree Regions UserCopy.

(** * The interface *)

(** [copy_in p n] is copy_from_user of [n] bytes when it copied them all;
    [copy_out p l] is copy_to_user with whether it did; the two word operations
    go through the pointer guest_to_host gives; [shared_at] is whether the
    region there is a shared mapping, if there is a region. *)
Class GuestMem (G : Type) := {
  copy_in : Z → Z → G → option (list Z);
  copy_out : Z → list Z → G → bool * G;
  word_at : Z → G → option Z;
  set_word : Z → Z → G → G;
  shared_at : Z → G → option bool;
}.

(** [own g p n]: no two of the [n] bytes at [p] are one byte of memory. *)
Class GuestLaws (G : Type) `{GuestMem G} := {
  own : G → Z → Z → Prop;
  copy_in_length g p n l : own g p n → copy_in p n g = Some l → Z.of_nat (length l) = n;
  copy_out_in g p l g' : own g p (Z.of_nat (length l)) → copy_out p l g = (true, g') →
    copy_in p (Z.of_nat (length l)) g' = Some l;
  copy_out_own g p l b g' q n : own g p (Z.of_nat (length l)) → copy_out p l g = (b, g') → own g q n → own g' q n;
}.

(** Integers in guest memory. *)
Definition get_int {G} `{GuestMem G} (p n : Z) (g : G) : option Z := le_load <$> copy_in p n g.
Definition put_int {G} `{GuestMem G} (p : Z) (n : nat) (v : Z) (g : G) : bool * G := copy_out p (le_store n v) g.

Lemma put_get {G} `{GuestLaws G} p n v (g g' : G) :
  own g p (Z.of_nat n) → put_int p n v g = (true, g') → get_int p (Z.of_nat n) g' = Some (v mod 256 ^ Z.of_nat n).
Proof.
  unfold put_int, get_int. intros Ho E. pose proof (copy_out_in g p (le_store n v) g') as L.
  rewrite length_le_store in L. rewrite (L Ho E). cbn. by rewrite le_load_store.
Qed.

(** * nabi's copies provide it *)

Record kernel_mem (H : Type) := mk_kmem { k_mm : mm; k_vkern : mm; k_host : H }.
Arguments mk_kmem {H}. Arguments k_mm {H}. Arguments k_vkern {H}. Arguments k_host {H}.

Section Kernel.
Context {H : Type} `{HIO : HostIOLaws H}.

Definition kernel_copy_in (p n : Z) (k : kernel_mem H) : option (list Z) :=
  match copy_from_user (k_mm k) (k_vkern k) p n (k_host k) with
  | Ret (rest, l) => if rest =? 0 then Some l else None
  | Stop _ => None
  end.

Definition kernel_copy_out (p : Z) (l : list Z) (k : kernel_mem H) : bool * kernel_mem H :=
  match copy_to_user (k_mm k) (k_vkern k) p l (Z.of_nat (length l)) (k_host k) with
  | Ret (rest, h) => (rest =? 0, mk_kmem (k_mm k) (k_vkern k) h)
  | Stop _ => (false, k)
  end.

Definition kernel_word (p : Z) (k : kernel_mem H) : option Z :=
  (λ q, le_load (load (k_host k) q 4)) <$> guest_to_host p (k_mm k) (k_vkern k).

Definition kernel_set_word (p v : Z) (k : kernel_mem H) : kernel_mem H :=
  match guest_to_host p (k_mm k) (k_vkern k) with
  | Some q => mk_kmem (k_mm k) (k_vkern k) (h_store (k_host k) q (le_store 4 v))
  | None => k
  end.

Definition kernel_shared (p : Z) (k : kernel_mem H) : option bool :=
  (λ id, has (r_flags (reg (k_mm k) id)) LINUX_MAP_SHARED) <$> find_region p (k_mm k).

#[export] Instance kernel_guest : GuestMem (kernel_mem H) := {|
  copy_in := kernel_copy_in;
  copy_out := kernel_copy_out;
  word_at := kernel_word;
  set_word := kernel_set_word;
  shared_at := kernel_shared;
|}.

Record kernel_own (k : kernel_mem H) (p n : Z) : Prop := {
  ko_map : mm_ok (k_mm k);
  ko_kern : mm_ok (k_vkern k);
  ko_span : user_span p n;
  ko_clean : clean (k_mm k) (k_vkern k) (k_host k) p n;
}.

Lemma kernel_out k p l :
  kernel_own k p (Z.of_nat (length l)) →
  ∃ j h', 0 ≤ j ≤ Z.of_nat (length l) ∧
    kernel_copy_out p l k = (Z.of_nat (length l) - j =? 0, mk_kmem (k_mm k) (k_vkern k) h') ∧
    (∀ d, 0 ≤ d < j → is_Some (guest_to_host (p + d) (k_mm k) (k_vkern k))) ∧
    wrote (k_mm k) (k_vkern k) (k_host k) p (take (Z.to_nat j) l) h'.
Proof.
  intros [Hm Hv Hs Hc]. destruct (copy_to_spec (k_mm k) (k_vkern k) Hm Hv (copy_fuel (Z.of_nat (length l))) p l
    (Z.of_nat (length l)) (k_host k) Hs) as (j & h' & E & Hj & Hin & _ & Hw); [apply copy_fuel_enough, Hs|done|done|].
  exists j, h'. split; [done|]. unfold kernel_copy_out, copy_to_user. by rewrite E.
Qed.

#[export] Program Instance kernel_guest_laws : GuestLaws (kernel_mem H) := {| own := kernel_own |}.
Next Obligation.
  intros k p n l [Hm Hv Hs _]. cbn. unfold kernel_copy_in.
  destruct (copy_from_user_exact (k_mm k) (k_vkern k) Hm Hv p n (k_host k) Hs) as (l' & -> & _).
  destruct (_ =? 0) eqn:E; [|done]. intros [= <-]. bool_to_prop. lia.
Qed.
Next Obligation.
  intros k p l k' Ho E. cbn in E. destruct (kernel_out k p l Ho) as (j & h' & Hj & E' & Hin & Hw). rewrite E' in E.
  injection E as E <-. bool_to_prop. assert (j = Z.of_nat (length l)) as -> by lia. rewrite Nat2Z.id, firstn_all in Hw.
  destruct Ho as [Hm Hv Hs Hc]. cbn. unfold kernel_copy_in. cbn [k_mm k_vkern k_host].
  rewrite (copy_from_reads (k_mm k) (k_vkern k) Hm Hv h' p _ l Hs); [done| |done].
  intros d Hd. destruct (Hin d Hd) as [q Hq]. exists q. split; [done|]. symmetry. by apply (wr_in _ _ _ _ _ _ Hw).
Qed.
Next Obligation.
  intros k p l b k' q n Ho E [Hm Hv Hs [Hl Hn]]. cbn in E. destruct (kernel_out k p l Ho) as (j & h' & Hj & E' & _ & Hw).
  rewrite E' in E. injection E as _ <-. split; [done|done|done|]. cbn [k_mm k_vkern k_host]. split.
  - intros i r Hi Hr. rewrite (wr_back _ _ _ _ _ _ Hw). by apply (Hl i).
  - intros i i' r r' Hi Hi' Hne Hr Hr'. destruct (Hn i i' r r' Hi Hi' Hne Hr Hr') as [Hrr Ha]. split; [done|].
    intros (fd & o & Ha1 & Ha2). apply Ha. exists fd, o. by rewrite <- !(wr_back _ _ _ _ _ _ Hw).
Qed.
End Kernel.

(** * A flat memory

    Bytes where there are any, private below 0x8000 and shared from there. *)

Definition flat := gmap Z Z.

Definition flat_in (p n : Z) (g : flat) : option (list Z) := mapM (λ d, (g : gmap Z Z) !! (p + d)) (counter 1 n).

Fixpoint flat_out (p : Z) (l : list Z) (g : flat) : bool * flat :=
  match l with
  | [] => (true, g)
  | b :: l => if decide (is_Some ((g : gmap Z Z) !! p)) then flat_out (p + 1) l (<[p := b]> (g : gmap Z Z)) else (false, g)
  end.

Definition flat_set (p v : Z) (g : flat) : flat := (flat_out p (le_store 4 v) g).2.

#[export] Instance flat_guest : GuestMem flat := {|
  copy_in := flat_in;
  copy_out := flat_out;
  word_at p g := le_load <$> flat_in p 4 g;
  set_word := flat_set;
  shared_at p g := (λ _, p >=? 0x8000) <$> (g : gmap Z Z) !! p;
|}.

Lemma flat_out_spec l : ∀ p g g', flat_out p l g = (true, g') →
  ∀ a, (g' : gmap Z Z) !! a = if in_range p (Z.of_nat (length l)) a then l !! Z.to_nat (a - p) else (g : gmap Z Z) !! a.
Proof.
  induction l as [|b l IH]; intros p g g'; cbn [flat_out length].
  - intros [= <-] a. unfold in_range. destruct (p <=? a) eqn:E1, (a <? p + Z.of_nat 0) eqn:E2; cbn; bool_to_prop; [lia|done..].
  - case_decide; [|done]. intros E a. rewrite (IH _ _ _ E). unfold in_range.
    destruct (decide (a = p)) as [->|Hne].
    + rewrite (proj2 (Z.leb_gt (p + 1) p)), (proj2 (Z.leb_le p p)), (proj2 (Z.ltb_lt p (p + Z.of_nat (S (length l))))) by lia.
      cbn. by rewrite lookup_insert_eq, Z.sub_diag.
    + rewrite lookup_insert_ne by done. destruct (p + 1 <=? a) eqn:E1, (a <? p + 1 + Z.of_nat (length l)) eqn:E2; bool_to_prop;
        destruct (p <=? a) eqn:E3, (a <? p + Z.of_nat (S (length l))) eqn:E4; bool_to_prop; cbn; try lia; try done.
      replace (Z.to_nat (a - p)) with (S (Z.to_nat (a - (p + 1)))) by lia. done.
Qed.

Lemma length_bytes n : 0 ≤ n → Z.of_nat (length (counter 1 n)) = n.
Proof. intros Hn. rewrite length_counter by lia. rewrite Z.div_1_r. lia. Qed.

#[export] Program Instance flat_laws : GuestLaws flat := {| own g p n := 0 ≤ n |}.
Next Obligation.
  intros g p n l Hn E. cbn in E. unfold flat_in in E. apply length_mapM in E. by rewrite <- E, length_bytes.
Qed.
Next Obligation.
  intros g p l g' _ E. cbn in *. unfold flat_in. apply mapM_Some.
  apply Forall2_same_length_lookup. split; [apply Nat2Z.inj; by rewrite length_bytes by lia|].
  intros i d b Hd Hb. unfold counter in Hd. rewrite list_lookup_fmap in Hd. pose proof (lookup_lt_Some _ _ _ Hb).
  destruct (seq _ _ !! i) as [j|] eqn:Ej; [|done]. apply lookup_seq in Ej as [-> _]. injection Hd as <-.
  rewrite (flat_out_spec l p g g' E). unfold in_range.
  rewrite (proj2 (Z.leb_le _ _)), (proj2 (Z.ltb_lt _ _)) by lia. cbn [andb]. rewrite <- Hb. f_equal. lia.
Qed.
Next Obligation. done. Qed.
