(* ===== verification/Futex.v ===== *)
(** Futexes, src/ipc/futex.c: the queues of waiting threads of one process,
    every operation of the futex calls on them, and the threads that sleep and
    wake as steps that interleave. *)

From S2P Require Import Prelude Guest.

(** * Constants, include/linux/futex.h *)

Definition LINUX_FUTEX_WAIT : Z := 0.
Definition LINUX_FUTEX_WAKE : Z := 1.
Definition LINUX_FUTEX_FD : Z := 2.
Definition LINUX_FUTEX_REQUEUE : Z := 3.
Definition LINUX_FUTEX_CMP_REQUEUE : Z := 4.
Definition LINUX_FUTEX_WAKE_OP : Z := 5.
Definition LINUX_FUTEX_LOCK_PI : Z := 6.
Definition LINUX_FUTEX_UNLOCK_PI : Z := 7.
Definition LINUX_FUTEX_TRYLOCK_PI : Z := 8.
Definition LINUX_FUTEX_WAIT_BITSET : Z := 9.
Definition LINUX_FUTEX_WAKE_BITSET : Z := 10.
Definition LINUX_FUTEX_WAIT_REQUEUE_PI : Z := 11.
Definition LINUX_FUTEX_CMP_REQUEUE_PI : Z := 12.
Definition LINUX_FUTEX_PRIVATE_FLAG : Z := 128.
Definition LINUX_FUTEX_CLOCK_REALTIME : Z := 256.
Definition LINUX_FUTEX_CMD_MASK : Z := 127.

Definition LINUX_FUTEX_GETOP (v : Z) : Z := Z.land (Z.shiftr v 28) 0xf.
Definition LINUX_FUTEX_GETCMP (v : Z) : Z := Z.land (Z.shiftr v 24) 0xf.
Definition LINUX_FUTEX_GETOPARG (v : Z) : Z := Z.land (Z.shiftr v 12) 0xfff.
Definition LINUX_FUTEX_GETCMPARG (v : Z) : Z := Z.land v 0xfff.

Definition FUTEX_WAITERS : Z := 0x80000000.
Definition FUTEX_BITSET_MATCH_ANY : Z := 0xffffffff.

Definition FUTEX_SHARED_POLL_NS : Z := 20 * 1000 * 1000.
Definition NSEC : Z := 1000000000.

Definition LINUX_CLOCK_REALTIME : Z := 0.
Definition LINUX_CLOCK_MONOTONIC : Z := 1.

Definition LINUX_FUTEX2_SIZE_MASK : Z := 3.
Definition LINUX_FUTEX2_SIZE_U32 : Z := 2.
Definition LINUX_FUTEX2_NUMA : Z := 4.
Definition LINUX_FUTEX2_PRIVATE : Z := LINUX_FUTEX_PRIVATE_FLAG.

(** * State *)

(** struct timespec: seconds and nanoseconds. *)
Abbreviation timespec := (Z * Z)%type.

(** What clock_gettime answers during a call. *)
Record clocks := mk_clocks { realtime : timespec; monotonic : timespec }.

(** The calls of the family, with their arguments. *)
Inductive call :=
| Futex (uaddr op val timeout_ptr uaddr2 val3 : Z)
| Futex_wake (uaddr mask nr flags : Z)
| Futex_wait (uaddr val mask flags timeout_ptr clockid : Z)
| Futex_requeue (waiters_ptr flags nr_wake nr_requeue : Z)
| Futex_waitv (waiters_ptr nr_futexes flags timeout_ptr clockid : Z)
| Exit_wake (uaddr count : Z).

(** struct pfutex_entry. Each condition variable has one thread that waits on
    it, so [condp] is that thread; [woken] is whether the entry has a slot for
    its index, which is the same thread's. *)
Record pfutex_entry := mk_pfutex { e_uaddr : Z; e_bitset : Z; e_condp : Z; e_index : Z; e_woken : bool }.

(** A thread inside __cond_wait, with what it continues with: its entries, the
    deadline it was given and the one it sleeps to, the address it expects to be
    requeued to, and whether it is futex_waitv that waits. *)
Record waiter := mk_waiter {
  w_entries : list Z;
  w_signalled : bool;
  w_index : Z;
  w_shared : bool;
  w_ts : option timespec;
  w_until : option timespec;
  w_requeue : option Z;
  w_many : bool;
  w_call : call;
}.

(** [fx_q] is proc.pfutex, a list that was never made being an empty one;
    [fx_e] the entries there are, by address, [fx_w] the threads asleep,
    [fx_shared] the static futex_shared. *)
Record fx (G : Type) := mk_fx {
  fx_g : G;
  fx_q : gmap Z (list Z);
  fx_e : gmap Z pfutex_entry;
  fx_w : gmap Z waiter;
  fx_next : Z;
  fx_shared : bool;
}.
Arguments mk_fx {G}. Arguments fx_g {G}. Arguments fx_q {G}. Arguments fx_e {G}. Arguments fx_w {G}. Arguments fx_next {G}. Arguments fx_shared {G}.

(** * Deadlines *)

(** The two loops that bring the nanoseconds into a second. *)
Fixpoint carry (fuel : nat) (sec nsec : Z) : outcome timespec :=
  if nsec >=? NSEC then
    match fuel with O => Stop OutOfFuel | S fuel => carry fuel (s64 (sec + 1)) (nsec - NSEC) end
  else Ret (sec, nsec).

Fixpoint borrow (fuel : nat) (sec nsec : Z) : outcome timespec :=
  if nsec <? 0 then
    match fuel with O => Stop OutOfFuel | S fuel => borrow fuel (s64 (sec - 1)) (nsec + NSEC) end
  else Ret (sec, nsec).

Definition futex_deadline (t : timespec) (relative realtime_clock : bool) (clk : clocks) : outcome timespec :=
  let now := realtime clk in
  let out :=
    if relative then (s64 (now.1 + t.1), s64 (now.2 + t.2))
    else
      let sec := s64 (t.1 - (monotonic clk).1) in
      let nsec := s64 (t.2 - (monotonic clk).2) in
      (s64 (now.1 + sec), s64 (now.2 + nsec)) in
  if negb relative && realtime_clock then Ret t
  else
    let fuel := Z.to_nat (Z.abs out.2 / NSEC + 1) in
    out ← carry fuel out.1 out.2;
    borrow fuel out.1 out.2.

(** * The operations *)

Section Ops.
Context {G : Type} `{GuestMem G}.
Implicit Type s : fx G.

Definition queue (uaddr : Z) (s : fx G) : list Z := default [] (fx_q s !! uaddr).

Definition set_shared (b : bool) s : fx G := mk_fx (fx_g s) (fx_q s) (fx_e s) (fx_w s) (fx_next s) b.

Definition set_g (g : G) s : fx G := mk_fx g (fx_q s) (fx_e s) (fx_w s) (fx_next s) (fx_shared s).

(** list_del_init: by the entry's own links, whatever list it is on. *)
Definition unlink (p : Z) s : fx G := mk_fx (fx_g s) (filter (λ x, x ≠ p) <$> fx_q s) (fx_e s) (fx_w s) (fx_next s) (fx_shared s).

(** list_add_tail. *)
Definition link (p uaddr : Z) s : fx G :=
  mk_fx (fx_g s) (<[uaddr := queue uaddr s ++ [p]]> (fx_q s)) (fx_e s) (fx_w s) (fx_next s) (fx_shared s).

(** What a waker does to the thread an entry belongs to: it writes the index
    where there is a slot for it, and signals. *)
Definition wake_thread (e : pfutex_entry) (w : waiter) : waiter :=
  mk_waiter (w_entries w) true (if e_woken e then e_index e else w_index w) (w_shared w) (w_ts w) (w_until w)
    (w_requeue w) (w_many w) (w_call w).

Definition signal (e : pfutex_entry) s : fx G :=
  mk_fx (fx_g s) (fx_q s) (fx_e s) (alter (wake_thread e) (e_condp e) (fx_w s)) (fx_next s) (fx_shared s).

Fixpoint wake_loop (use_bitset : bool) (bitset : Z) (l : list Z) (count ret : Z) s : outcome (Z * fx G) :=
  match l with
  | [] => Ret (ret, s)
  | p :: l =>
      if count =? 0 then Ret (ret, s)
      else
        match fx_e s !! p with
        | None => Stop Faulted
        | Some e =>
            if use_bitset && (Z.land (e_bitset e) bitset =? 0) then wake_loop use_bitset bitset l count ret s
            else wake_loop use_bitset bitset l (count - 1) (ret + 1) (signal e (unlink p s))
        end
  end.

Definition do_private_futex_wake (uaddr count : Z) (use_bitset : bool) (bitset : Z) s : outcome (Z * fx G) :=
  wake_loop use_bitset bitset (queue uaddr s) count 0 s.

(** The time __cond_wait sleeps to: on shared memory, no longer than the time
    to look at the word again. *)
Definition cond_until (shared : bool) (ts : option timespec) (now : timespec) : option timespec :=
  if shared then
    let nsec := now.2 + FUTEX_SHARED_POLL_NS in
    let until := if nsec >=? NSEC then (now.1 + 1, nsec - NSEC) else (now.1, nsec) in
    match ts with
    | Some t => Some (if (t.1 <? until.1) || ((t.1 =? until.1) && (t.2 <? until.2)) then t else until)
    | None => Some until
    end
  else ts.

(** malloc and INIT of an entry, and its place at the end of the queue. *)
Definition add_entry (e : pfutex_entry) s : Z * fx G :=
  let p := fx_next s in
  (p, link p (e_uaddr e) (mk_fx (fx_g s) (fx_q s) (<[p := e]> (fx_e s)) (fx_w s) (p + 1) (fx_shared s))).

Definition asleep (me : Z) (w : waiter) s : fx G :=
  mk_fx (fx_g s) (fx_q s) (fx_e s) (<[me := w]> (fx_w s)) (fx_next s) (fx_shared s).

Section Call.
(** The thread, the call it is in, and the clocks. *)
Variable (me : Z) (c : call) (clk : clocks).

(** Up to the sleep in __cond_wait. *)
Definition do_private_wait (uaddr : Z) (ts : option timespec) (requeue : option Z) (bitset : option Z) s : fx G :=
  let '(p, s) := add_entry (mk_pfutex uaddr (default FUTEX_BITSET_MATCH_ANY bitset) me 0 false) s in
  asleep me (mk_waiter [p] false (-1) (fx_shared s) ts (cond_until (fx_shared s) ts (realtime clk)) requeue false c) s.

(** 0 when the word is what the caller saw. *)
Definition futex_should_block (uaddr val : Z) s : Z :=
  match get_int uaddr 4 (fx_g s) with
  | None => - EFAULT
  | Some uval => if uval =? val then 0 else - EAGAIN
  end.

Definition get_timespec (p : Z) s : option timespec :=
  (λ l, (s64 (le_load (take 8 l)), s64 (le_load (drop 8 l)))) <$> copy_in p 16 (fx_g s).

(** The timeout of a call, if it has one: EFAULT when it cannot be read. *)
Definition read_timeout (timeout_ptr : Z) (relative realtime_clock : bool) s : outcome (Z + option timespec) :=
  if timeout_ptr =? 0 then Ret (inr None)
  else
    match get_timespec timeout_ptr s with
    | None => Ret (inl (- EFAULT))
    | Some t => ts ← futex_deadline t relative realtime_clock clk; Ret (inr (Some ts))
    end.

(** Sleep once the timeout is known. *)
Definition wait_with (timeout : Z + option timespec) (uaddr : Z) (requeue bitset : option Z) s : outcome (option Z * fx G) :=
  match timeout with
  | inl err => Ret (Some err, s)
  | inr ts => Ret (None, do_private_wait uaddr ts requeue bitset s)
  end.

(** list_for_each_safe with a body that moves the entry to the end of [to]:
    [p] is the entry, [n] its successor, read before the entry is moved. *)
Fixpoint next_in (q : list Z) (p : Z) : option Z :=
  match q with [] => None | x :: q => if x =? p then head q else next_in q p end.

Definition move_tail (p to : Z) s : fx G :=
  let s := link p to (unlink p s) in
  mk_fx (fx_g s) (fx_q s)
    (alter (λ e, mk_pfutex to (e_bitset e) (e_condp e) (e_index e) (e_woken e)) p (fx_e s)) (fx_w s) (fx_next s) (fx_shared s).

Fixpoint requeue_loop (fuel : nat) (full : Z → bool) (from to : Z) (p n : option Z) (val2 num : Z) s : outcome (Z * fx G) :=
  match p with
  | None => Ret (num, s)
  | Some x =>
      if full val2 then Ret (num, s)
      else
        match fuel with
        | O => Stop OutOfFuel
        | S fuel =>
            let s := move_tail x to s in
            requeue_loop fuel full from to n (n ≫= next_in (queue from s)) (val2 - 1) (num + 1) s
        end
  end.

Definition requeue (full : Z → bool) (from to val2 num : Z) s : outcome (Z * fx G) :=
  let q := queue from s in
  let p := head q in
  let fuel := if from =? to then Z.to_nat val2 else length q in
  requeue_loop fuel full from to p (p ≫= next_in q) val2 num s.

(** FUTEX_WAKE_OP: the new value of the second word, and the test on the old. *)
Definition op_value (val3 oldval : Z) : option Z :=
  let arg := LINUX_FUTEX_GETOPARG val3 in
  match LINUX_FUTEX_GETOP val3 with
  | 0 => Some arg
  | 1 => Some (s32 (oldval + arg))
  | 2 => Some (Z.lor oldval arg)
  | 3 => Some (Z.land oldval (Z.lnot arg))
  | 4 => Some (Z.lxor oldval arg)
  | _ => None
  end.

Definition op_cond (val3 oldval : Z) : option bool :=
  let arg := LINUX_FUTEX_GETCMPARG val3 in
  match LINUX_FUTEX_GETCMP val3 with
  | 0 => Some (oldval =? arg)
  | 1 => Some (negb (oldval =? arg))
  | 2 => Some (oldval <? arg)
  | 3 => Some (oldval <=? arg)
  | 4 => Some (oldval >? arg)
  | 5 => Some (oldval >=? arg)
  | _ => None
  end.

Definition wake_op (uaddr val timeout_ptr uaddr2 val3 : Z) s : outcome (option Z * fx G) :=
  match get_int uaddr2 4 (fx_g s) with
  | None => Ret (Some (- EFAULT), s)
  | Some old =>
      let oldval := s32 old in
      match op_value val3 oldval with
      | None => Stop Panicked
      | Some newval =>
          let '(ok, g) := put_int uaddr2 4 (u32 newval) (fx_g s) in
          let s := set_g g s in
          if negb ok then Ret (Some (- EFAULT), s)
          else
            '(ret, s) ← do_private_futex_wake uaddr (s32 val) false 0 s;
            match op_cond val3 oldval with
            | None => Stop Panicked
            | Some false => Ret (Some ret, s)
            | Some true =>
                '(ret2, s) ← do_private_futex_wake uaddr2 (s32 (u32 timeout_ptr)) false 0 s;
                Ret (Some (ret + ret2), s)
            end
      end
  end.

Definition lock_pi (uaddr timeout_ptr : Z) (realtime_clock : bool) s : outcome (option Z * fx G) :=
  timeout ← read_timeout timeout_ptr false realtime_clock s;
  match timeout with
  | inl err => Ret (Some err, s)
  | inr ts =>
      match word_at uaddr (fx_g s) with
      | None => Stop Asserted
      | Some value =>
          let s := set_g (set_word uaddr me (fx_g s)) s in
          if value =? 0 then Ret (Some 0, s)
          else
            let s := set_g (set_word uaddr (Z.lor value FUTEX_WAITERS) (fx_g s)) s in
            Ret (None, do_private_wait uaddr ts None None s)
      end
  end.

Definition cmp_requeue_pi (uaddr val timeout_ptr uaddr2 val3 : Z) s : outcome (option Z * fx G) :=
  if negb (val =? 1) then Ret (Some (- EINVAL), s)
  else
    match get_int uaddr 4 (fx_g s) with
    | None => Ret (Some (- EFAULT), s)
    | Some oldval =>
        if negb (s32 oldval =? val3) then Ret (Some (- EAGAIN), s)
        else
          '(num, s) ← do_private_futex_wake uaddr (s32 val) false 0 s;
          '(num, s) ← requeue (λ v, v =? 0) uaddr uaddr2 (s32 timeout_ptr) num s;
          Ret (Some num, s)
    end.

(** Wake some and move some more; the answer counts only the woken. *)
Definition wake_requeue (uaddr uaddr2 nr_wake nr_requeue : Z) s : outcome (option Z * fx G) :=
  '(woken, s) ← do_private_futex_wake uaddr nr_wake false 0 s;
  '(_, s) ← requeue (λ v, v <=? 0) uaddr uaddr2 nr_requeue 0 s;
  Ret (Some woken, s).

Definition trylock_pi (uaddr : Z) s : outcome (option Z * fx G) :=
  match word_at uaddr (fx_g s) with
  | None => Ret (Some (- EFAULT), s)
  | Some value =>
      if value =? 0 then Ret (Some 0, set_g (set_word uaddr me (fx_g s)) s) else Ret (Some (- EAGAIN), s)
  end.

(** [None] for a call that sleeps. *)
Definition do_private_futex (uaddr op val timeout_ptr uaddr2 val3 : Z) s : outcome (option Z * fx G) :=
  let realtime_clock := has op LINUX_FUTEX_CLOCK_REALTIME in
  let cmd := Z.land op LINUX_FUTEX_CMD_MASK in
  if cmd =? LINUX_FUTEX_WAKE then
    '(ret, s) ← do_private_futex_wake uaddr (s32 val) false 0 s; Ret (Some ret, s)
  else if cmd =? LINUX_FUTEX_WAIT then
    let r := futex_should_block uaddr val s in
    if r <? 0 then Ret (Some r, s)
    else timeout ← read_timeout timeout_ptr true false s; wait_with timeout uaddr None None s
  else if cmd =? LINUX_FUTEX_WAKE_OP then wake_op uaddr val timeout_ptr uaddr2 val3 s
  else if cmd =? LINUX_FUTEX_LOCK_PI then lock_pi uaddr timeout_ptr realtime_clock s
  else if cmd =? LINUX_FUTEX_UNLOCK_PI then
    '(_, s) ← do_private_futex_wake uaddr 1 false 0 s; Ret (Some 0, s)
  else if cmd =? LINUX_FUTEX_CMP_REQUEUE_PI then cmp_requeue_pi uaddr val timeout_ptr uaddr2 val3 s
  else if cmd =? LINUX_FUTEX_WAIT_REQUEUE_PI then
    timeout ← read_timeout timeout_ptr false realtime_clock s; wait_with timeout uaddr (Some uaddr2) None s
  else if cmd =? LINUX_FUTEX_WAIT_BITSET then
    let r := futex_should_block uaddr val s in
    if r <? 0 then Ret (Some r, s)
    else timeout ← read_timeout timeout_ptr false realtime_clock s; wait_with timeout uaddr None (Some (u32 val3)) s
  else if cmd =? LINUX_FUTEX_WAKE_BITSET then
    '(ret, s) ← do_private_futex_wake uaddr (s32 val) true (u32 val3) s; Ret (Some ret, s)
  else if (cmd =? LINUX_FUTEX_REQUEUE) || (cmd =? LINUX_FUTEX_CMP_REQUEUE) then
    let r := if cmd =? LINUX_FUTEX_CMP_REQUEUE then futex_should_block uaddr (u32 val3) s else 0 in
    if r <? 0 then Ret (Some r, s)
    else wake_requeue uaddr uaddr2 (s32 val) (s32 timeout_ptr) s
  else if cmd =? LINUX_FUTEX_TRYLOCK_PI then trylock_pi uaddr s
  else Ret (Some (- ENOSYS), s).
End Call.

(** * The system calls *)

(** struct l_futex_waitv, 24 bytes. *)
Record futex_waitv := mk_waitv { v_val : Z; v_uaddr : Z; v_flags : Z; v_reserved : Z }.

Definition waitv_at (l : list Z) (i : nat) : futex_waitv :=
  let l := drop (24 * i) l in
  mk_waitv (le_load (take 8 l)) (le_load (take 8 (drop 8 l))) (le_load (take 4 (drop 16 l))) (le_load (take 4 (drop 20 l))).

Definition waitv_array (p : Z) (n : nat) s : option (list futex_waitv) :=
  (λ l, waitv_at l <$> seq 0 n) <$> copy_in p (24 * Z.of_nat n) (fx_g s).

Definition futex2_check_flags (flags : Z) : Z :=
  if negb (Z.land flags LINUX_FUTEX2_SIZE_MASK =? LINUX_FUTEX2_SIZE_U32) then - EINVAL
  else if has flags LINUX_FUTEX2_NUMA then - EINVAL
  else if has flags (u32 (Z.lnot (Z.lor LINUX_FUTEX2_SIZE_MASK LINUX_FUTEX2_PRIVATE))) then - EINVAL
  else 0.

Definition sys_futex (me : Z) (clk : clocks) (uaddr op val timeout_ptr uaddr2 val3 : Z) s : outcome (option Z * fx G) :=
  let c := Futex uaddr op val timeout_ptr uaddr2 val3 in
  let run shared op :=
    '(ret, s) ← do_private_futex me c clk uaddr op val timeout_ptr uaddr2 (s32 val3) (set_shared shared s);
    Ret (ret, if ret is None then s else set_shared false s) in
  if has op LINUX_FUTEX_PRIVATE_FLAG then run false (Z.land op (Z.lnot LINUX_FUTEX_PRIVATE_FLAG))
  else
    match shared_at uaddr (fx_g s) with
    | None => Ret (Some (- EFAULT), s)
    | Some shared => run shared op
    end.

Definition sys_futex_wake (uaddr mask nr flags : Z) s : outcome (option Z * fx G) :=
  let r := futex2_check_flags flags in
  if r <? 0 then Ret (Some r, s)
  else if nr <? 0 then Ret (Some (- EINVAL), s)
  else '(r, s) ← do_private_futex_wake uaddr nr true (u32 mask) s; Ret (Some r, s).

Definition sys_futex_wait (me : Z) (clk : clocks) (uaddr val mask flags timeout_ptr clockid : Z) s : outcome (option Z * fx G) :=
  let c := Futex_wait uaddr val mask flags timeout_ptr clockid in
  let r := futex2_check_flags flags in
  if r <? 0 then Ret (Some r, s)
  else if negb (clockid =? LINUX_CLOCK_MONOTONIC) && negb (clockid =? LINUX_CLOCK_REALTIME) then Ret (Some (- EINVAL), s)
  else
    timeout ← read_timeout clk timeout_ptr false (clockid =? LINUX_CLOCK_REALTIME) s;
    match timeout with
    | inl err => Ret (Some err, s)
    | inr ts =>
        let r := futex_should_block uaddr (u32 val) s in
        if r =? 0 then Ret (None, do_private_wait me c clk uaddr ts None (Some (u32 mask)) s)
        else Ret (Some r, s)
    end.

Definition sys_futex_requeue (waiters_ptr flags nr_wake nr_requeue : Z) s : outcome (option Z * fx G) :=
  if negb (flags =? 0) then Ret (Some (- EINVAL), s)
  else if (nr_wake <? 0) || (nr_requeue <? 0) then Ret (Some (- EINVAL), s)
  else
    match copy_in waiters_ptr 48 (fx_g s) with
    | None => Ret (Some (- EFAULT), s)
    | Some l =>
        let w0 := waitv_at l 0 in
        let w1 := waitv_at l 1 in
        let r0 := futex2_check_flags (v_flags w0) in
        let r1 := futex2_check_flags (v_flags w1) in
        if r0 <? 0 then Ret (Some r0, s)
        else if r1 <? 0 then Ret (Some r1, s)
        else
          let r := futex_should_block (v_uaddr w0) (u32 (v_val w0)) s in
          if r <? 0 then Ret (Some r, s)
          else wake_requeue (v_uaddr w0) (v_uaddr w1) nr_wake nr_requeue s
    end.

(** The first entry of the array that is not acceptable, and its error. *)
Fixpoint check_waitv (w : list futex_waitv) : Z :=
  match w with
  | [] => 0
  | v :: w =>
      let fr := futex2_check_flags (v_flags v) in
      if (fr <? 0) || negb (v_reserved v =? 0) then if fr <? 0 then fr else - EINVAL else check_waitv w
  end.

(** Every word, before anything sleeps. *)
Fixpoint check_words (w : list futex_waitv) s : Z :=
  match w with
  | [] => 0
  | v :: w =>
      let r := futex_should_block (v_uaddr v) (u32 (v_val v)) s in
      if r <? 0 then r else check_words w s
  end.

(** One entry for each futex, numbered from [i]. *)
Fixpoint add_waitv (me i : Z) (w : list futex_waitv) s : list Z * fx G :=
  match w with
  | [] => ([], s)
  | v :: w =>
      let '(p, s) := add_entry (mk_pfutex (v_uaddr v) FUTEX_BITSET_MATCH_ANY me i true) s in
      let '(ps, s) := add_waitv me (i + 1) w s in
      (p :: ps, s)
  end.

Definition sys_futex_waitv (me : Z) (clk : clocks) (waiters_ptr nr_futexes flags timeout_ptr clockid : Z) s
  : outcome (option Z * fx G) :=
  let c := Futex_waitv waiters_ptr nr_futexes flags timeout_ptr clockid in
  let nr_futexes := u32 nr_futexes in
  if negb (flags =? 0) then Ret (Some (- EINVAL), s)
  else if (nr_futexes =? 0) || (nr_futexes >? 128) then Ret (Some (- EINVAL), s)
  else if negb (timeout_ptr =? 0) && negb (clockid =? LINUX_CLOCK_MONOTONIC) && negb (clockid =? LINUX_CLOCK_REALTIME)
  then Ret (Some (- EINVAL), s)
  else
    match waitv_array waiters_ptr (Z.to_nat nr_futexes) s with
    | None => Ret (Some (- EFAULT), s)
    | Some w =>
        let fr := check_waitv w in
        if fr <? 0 then Ret (Some fr, s)
        else
          timeout ← read_timeout clk timeout_ptr false (clockid =? LINUX_CLOCK_REALTIME) s;
          match timeout with
          | inl err => Ret (Some err, s)
          | inr ts =>
              let r := check_words w s in
              if r <? 0 then Ret (Some r, s)
              else
                let '(ps, s) := add_waitv me 0 w s in
                Ret (None, asleep me (mk_waiter ps false (-1) (fx_shared s) ts (cond_until (fx_shared s) ts (realtime clk)) None true c) s)
          end
    end.

(** What a thread of the process does to its futexes when it exits. *)
Definition do_futex_wake (uaddr count : Z) s : outcome (option Z * fx G) :=
  '(ret, s) ← do_private_futex_wake uaddr count false 0 s; Ret (Some ret, s).

(** get_robust_list; [tid] is do_gettid() and [robust_list] the task's. *)
Definition sys_get_robust_list (tid robust_list pid head_ptr len_ptr : Z) (g : G) : Z * G :=
  if negb (pid =? 0) && negb (pid =? tid) then (- EPERM, g)
  else
    let '(ok, g) := put_int head_ptr 8 robust_list g in
    if negb ok then (- EFAULT, g)
    else
      let '(ok, g) := put_int len_ptr 8 24 g in
      if negb ok then (- EFAULT, g) else (0, g).

Definition run_call (me : Z) (clk : clocks) (c : call) s : outcome (option Z * fx G) :=
  match c with
  | Futex uaddr op val timeout_ptr uaddr2 val3 => sys_futex me clk uaddr op val timeout_ptr uaddr2 val3 s
  | Futex_wake uaddr mask nr flags => sys_futex_wake uaddr mask nr flags s
  | Futex_wait uaddr val mask flags timeout_ptr clockid => sys_futex_wait me clk uaddr val mask flags timeout_ptr clockid s
  | Futex_requeue waiters_ptr flags nr_wake nr_requeue => sys_futex_requeue waiters_ptr flags nr_wake nr_requeue s
  | Futex_waitv waiters_ptr nr_futexes flags timeout_ptr clockid =>
      sys_futex_waitv me clk waiters_ptr nr_futexes flags timeout_ptr clockid s
  | Exit_wake uaddr count => do_futex_wake uaddr count s
  end.

(** * Waking up *)

(** How the host's wait ended. *)
Inductive cond_result := CondWoken | CondTimedOut | CondError.

(** What __cond_wait makes of it. *)
Definition cond_return (w : waiter) (r : cond_result) : Z :=
  if w_shared w then
    match r with
    | CondWoken => 0
    | CondTimedOut =>
        if bool_decide (is_Some (w_ts w) ∧ w_ts w = w_until w) then - ETIMEDOUT else 0
    | CondError => - EINTR
    end
  else
    match w_ts w with
    | None => 0
    | Some _ => match r with CondWoken => 0 | CondTimedOut => - ETIMEDOUT | CondError => - EINTR end
    end.

(** list_del_init and free of each entry. *)
Fixpoint free_entries (ps : list Z) s : fx G :=
  match ps with
  | [] => s
  | p :: ps =>
      let s := unlink p s in
      free_entries ps (mk_fx (fx_g s) (fx_q s) (delete p (fx_e s)) (fx_w s) (fx_next s) (fx_shared s))
  end.

(** The rest of the call, from the return of the host's wait on; futex itself
    then clears futex_shared. *)
Definition finish (me : Z) (w : waiter) (r : cond_result) s : outcome (Z * fx G) :=
  let ret := cond_return w r in
  ret ← (if w_many w then
           Ret (if ret =? 0 then if w_index w >=? 0 then w_index w else - EAGAIN else ret)
         else
           match w_requeue w with
           | None => Ret ret
           | Some uaddr2 =>
               match head (w_entries w) ≫= λ p, fx_e s !! p with
               | None => Stop Faulted
               | Some e => Ret (if e_uaddr e =? uaddr2 then ret else - EAGAIN)
               end
           end);
  let s := free_entries (w_entries w) s in
  Ret (ret, mk_fx (fx_g s) (fx_q s) (fx_e s) (delete me (fx_w s)) (fx_next s)
              (if w_call w is Futex _ _ _ _ _ _ then false else fx_shared s)).

(** When the host's wait may end: once signalled, for no reason, or, if it had
    a time to wait to, because that came or was not one. *)
Definition may_end (w : waiter) (r : cond_result) : Prop :=
  match r with CondWoken => True | _ => w_until w ≠ None end.

(** * Steps

    Every call runs under proc.futex_mutex, from its start to its end or to its
    sleep, and from its waking to its end; the guest's own stores to its memory
    come in between as they please. *)

Inductive label :=
| Called (me : Z) (c : call) (ret : option Z)
| Returned (me : Z) (ret : Z)
| Stored.

Inductive step : fx G → label → fx G → Prop :=
| step_call me clk c ret s s' :
    fx_w s !! me = None → run_call me clk c s = Ret (ret, s') → step s (Called me c ret) s'
| step_return me w r ret s s' :
    fx_w s !! me = Some w → may_end w r → finish me w r s = Ret (ret, s') → step s (Returned me ret) s'
| step_store g s : step s Stored (set_g g s).

Inductive steps (s0 : fx G) : fx G → Prop :=
| steps_refl : steps s0 s0
| steps_step s l s' : steps s0 s → step s l s' → steps s0 s'.
End Ops.

(** * Deadlines: the loops end *)

Lemma carry_spec fuel : ∀ sec nsec, (nsec / NSEC < Z.of_nat fuel) → ∃ sec', carry fuel sec nsec = Ret (sec', if nsec >=? NSEC then nsec mod NSEC else nsec).
Proof.
  unfold NSEC. induction fuel as [|fuel IH]; intros sec nsec Hf; cbn [carry]; unfold NSEC; case_bool; bool_to_prop.
  - lia_mod.
  - by eexists.
  - destruct (IH (s64 (sec + 1)) (nsec - 1000000000)) as [sec' E']; [lia_mod|]. exists sec'. rewrite E'. do 2 f_equal.
    case_bool; bool_to_prop; lia_mod.
  - by eexists.
Qed.

Lemma borrow_spec fuel : ∀ sec nsec, (- nsec / NSEC + 1 ≤ Z.of_nat fuel) → ∃ sec', borrow fuel sec nsec = Ret (sec', if nsec <? 0 then nsec mod NSEC else nsec).
Proof.
  unfold NSEC. induction fuel as [|fuel IH]; intros sec nsec Hf; cbn [borrow]; unfold NSEC; case_bool; bool_to_prop.
  - lia_mod.
  - by eexists.
  - destruct (decide (nsec + 1000000000 < 0)) as [Hn|Hn].
    + destruct (IH (s64 (sec - 1)) (nsec + 1000000000)) as [sec' E']; [lia_mod|]. exists sec'. rewrite E'. do 2 f_equal.
      case_bool; bool_to_prop; lia_mod.
    + exists (s64 (sec - 1)). destruct fuel; cbn [borrow]; (case_bool; bool_to_prop; [lia|]); do 2 f_equal; lia_mod.
  - by eexists.
Qed.

Lemma futex_deadline_total t relative rt clk : ∃ ts, futex_deadline t relative rt clk = Ret ts.
Proof.
  unfold futex_deadline. destruct (negb relative && rt); [by eexists|].
  match goal with |- context [carry _ (fst ?o) (snd ?o)] => set (out := o) end.
  set (fuel := Z.to_nat (Z.abs out.2 / NSEC + 1)).
  destruct (carry_spec fuel out.1 out.2) as [sec ->]; [unfold fuel, NSEC; lia_mod|]. cbn [mbind outcome_bind fst snd].
  destruct (borrow_spec fuel sec (if out.2 >=? NSEC then out.2 mod NSEC else out.2)) as [sec' ->]; [|by eexists].
  unfold fuel, NSEC. case_bool; bool_to_prop; lia_mod.
Qed.

Section Facts.
Context {G : Type} `{GuestMem G}.
Implicit Type s : fx G.

(** * Queues *)

Lemma queue_unlink a p s : queue a (unlink p s) = filter (λ x, x ≠ p) (queue a s).
Proof. unfold queue, unlink. cbn. rewrite lookup_fmap. by destruct (fx_q s !! a). Qed.

Lemma queue_link a p b s : queue a (link p b s) = if decide (a = b) then queue a s ++ [p] else queue a s.
Proof.
  unfold link. destruct (decide (a = b)) as [->|Hne]; unfold queue; cbn; [by rewrite lookup_insert_eq|by rewrite lookup_insert_ne].
Qed.

(** The lists are sound: an entry is on the list of its address only, once;
    every entry belongs to a thread that is asleep, and one that nobody has
    signalled has all of its entries where a waker will look. *)
Record fx_ok s : Prop := {
  ok_nodup a : NoDup (queue a s);
  ok_queued a p : p ∈ queue a s → ∃ e, fx_e s !! p = Some e ∧ e_uaddr e = a;
  ok_entry p e : fx_e s !! p = Some e → p < fx_next s ∧ ∃ w, fx_w s !! e_condp e = Some w ∧ p ∈ w_entries w;
  ok_waiter t w : fx_w s !! t = Some w → NoDup (w_entries w) ∧ w_entries w ≠ [] ∧
    ∀ p, p ∈ w_entries w → ∃ e, fx_e s !! p = Some e ∧ e_condp e = t;
  ok_waiting t w p e : fx_w s !! t = Some w → w_signalled w = false → p ∈ w_entries w → fx_e s !! p = Some e →
    p ∈ queue (e_uaddr e) s;
}.

Lemma fx_ok_set_g g s : fx_ok s → fx_ok (set_g g s).
Proof. intros [H1 H2 H3 H4 H5]. split; [apply H1|apply H2|apply H3|apply H4|apply H5]. Qed.

Lemma fx_ok_set_shared b s : fx_ok s → fx_ok (set_shared b s).
Proof. intros [H1 H2 H3 H4 H5]. split; [apply H1|apply H2|apply H3|apply H4|apply H5]. Qed.

(** ** Waking *)

(** All but whether it was signalled, and by which entry. *)
Definition same_call (w w' : waiter) : Prop :=
  w' = mk_waiter (w_entries w) (w_signalled w') (w_index w') (w_shared w) (w_ts w) (w_until w) (w_requeue w) (w_many w) (w_call w).

Definition owned_by (s : fx G) (t p : Z) : bool :=
  match fx_e s !! p with Some e => e_condp e =? t | None => false end.

(** The entries of [hit] are off their queues and their threads signalled. *)
Record woke (hit : list Z) s s' : Prop := {
  wk_g : fx_g s' = fx_g s;
  wk_e : fx_e s' = fx_e s;
  wk_next : fx_next s' = fx_next s;
  wk_shared : fx_shared s' = fx_shared s;
  wk_q a : queue a s' = filter (λ x, x ∉ hit) (queue a s);
  wk_w t : match fx_w s !! t with
           | None => fx_w s' !! t = None
           | Some w => ∃ w', fx_w s' !! t = Some w' ∧ same_call w w' ∧
               w_signalled w' = w_signalled w || existsb (owned_by s t) hit
           end;
}.

Lemma woke_nil s : woke [] s s.
Proof.
  split; try done.
  - intros a. induction (queue a s) as [|x q IH]; [done|]. rewrite filter_cons, decide_True by apply not_elem_of_nil. by rewrite <- IH.
  - intros t. destruct (fx_w s !! t) as [w|]; [|done]. exists w. split; [done|]. split; [by destruct w|]. cbn. by rewrite orb_false_r.
Qed.

Lemma woke_one p e s : fx_e s !! p = Some e → woke [p] s (signal e (unlink p s)).
Proof.
  intros He. split; try done.
  - intros a. transitivity (queue a (unlink p s)); [done|]. rewrite queue_unlink. apply list_filter_iff. intros x. set_solver.
  - intros t. cbn. unfold owned_by. rewrite He. destruct (decide (e_condp e = t)) as [<-|Hne].
    + rewrite lookup_alter_eq. destruct (fx_w s !! e_condp e) as [w|]; [|done]. cbn. eexists. split; [done|]. split; [done|].
      rewrite Z.eqb_refl. cbn. by rewrite orb_true_r.
    + rewrite lookup_alter_ne by done. destruct (fx_w s !! t) as [w|]; [|done]. exists w. split; [done|]. split; [by destruct w|].
      rewrite (proj2 (Z.eqb_neq _ _)) by done. cbn. by rewrite orb_false_r.
Qed.

Lemma woke_app h1 h2 s s1 s2 : woke h1 s s1 → woke h2 s1 s2 → woke (h1 ++ h2) s s2.
Proof.
  intros [A1 A2 A3 A4 A5 A6] [B1 B2 B3 B4 B5 B6]. split; try congruence.
  - intros a. rewrite B5, A5, list_filter_filter. apply list_filter_iff. intros x. rewrite elem_of_app. naive_solver.
  - intros t. specialize (A6 t). specialize (B6 t). destruct (fx_w s !! t) as [w|]; [|by rewrite A6 in B6].
    destruct A6 as (w1 & E1 & S1 & G1). rewrite E1 in B6. destruct B6 as (w2 & E2 & S2 & G2).
    exists w2. split; [done|]. split; [unfold same_call in *; rewrite S2, S1; done|].
    rewrite G2, G1, existsb_app, <- orb_assoc. do 2 f_equal. unfold owned_by. by rewrite A2.
Qed.

Definition takez {A} (count : Z) (l : list A) : list A := if count <? 0 then l else take (Z.to_nat count) l.

Definition matches (use_bitset : bool) (bitset : Z) s (p : Z) : Prop :=
  ∃ e, fx_e s !! p = Some e ∧ use_bitset && (Z.land (e_bitset e) bitset =? 0) = false.
#[export] Instance matches_dec ub bs s p : Decision (matches ub bs s p).
Proof.
  refine (match fx_e s !! p as o return fx_e s !! p = o → _ with
          | Some e => λ E, if decide (ub && (Z.land (e_bitset e) bs =? 0) = false) then left _ else right _
          | None => λ E, right _ end eq_refl); unfold matches; naive_solver.
Defined.

(** The entries a wake takes: the first [count] that match, in the order they
    were queued; all of them when [count] is negative. *)
Definition hits (use_bitset : bool) (bitset count : Z) (l : list Z) s : list Z :=
  takez count (filter (matches use_bitset bitset s) l).

Lemma takez_cons {A} count (x : A) l : count ≠ 0 → takez count (x :: l) = x :: takez (count - 1) l.
Proof.
  intros Hc. unfold takez. destruct (count <? 0) eqn:E1, (count - 1 <? 0) eqn:E2; bool_to_prop; try lia; [done|].
  replace (Z.to_nat count) with (S (Z.to_nat (count - 1))) by lia. done.
Qed.

Lemma wake_loop_spec ub bs l : ∀ count ret s,
  (∀ p, p ∈ l → is_Some (fx_e s !! p)) →
  ∃ s', wake_loop ub bs l count ret s = Ret (ret + Z.of_nat (length (hits ub bs count l s)), s') ∧
    woke (hits ub bs count l s) s s'.
Proof.
  induction l as [|p l IH]; intros count ret s Hl; cbn [wake_loop].
  - exists s. unfold hits, takez. rewrite filter_nil, take_nil. case_bool; (split; [cbn; do 2 f_equal; lia|apply woke_nil]).
  - destruct (count =? 0) eqn:Ec; bool_to_prop.
    { subst. exists s. assert (hits ub bs 0 (p :: l) s = []) as -> by done. split; [cbn; do 2 f_equal; lia|apply woke_nil]. }
    destruct (Hl p) as [e He]; [by left|]. rewrite He. destruct (ub && _) eqn:Eb.
    + destruct (IH count ret s) as (s' & E & Hw); [intros q Hq; apply Hl; by right|]. exists s'.
      assert (hits ub bs count (p :: l) s = hits ub bs count l s) as ->; [|done].
      unfold hits. rewrite filter_cons, decide_False; [done|]. intros (e' & He' & Eb'). congruence.
    + destruct (IH (count - 1) (ret + 1) (signal e (unlink p s))) as (s' & E & Hw); [intros q Hq; apply Hl; by right|].
      exists s'. assert (hits ub bs count (p :: l) s = p :: hits ub bs (count - 1) l (signal e (unlink p s))) as ->.
      { unfold hits. rewrite filter_cons, decide_True by (by exists e). by rewrite takez_cons. }
      split; [rewrite E; cbn [length]; do 2 f_equal; lia|]. apply (woke_app [p] _ s (signal e (unlink p s))); [by apply woke_one|done].
Qed.

Lemma same_entries w w' : same_call w w' → w_entries w' = w_entries w.
Proof. intros ->. done. Qed.

Lemma woke_ok hit s s' : fx_ok s → woke hit s s' → fx_ok s'.
Proof.
  intros [H1 H2 H3 H4 H5] [A1 A2 A3 A4 A5 A6].
  assert (∀ t w', fx_w s' !! t = Some w' → ∃ w, fx_w s !! t = Some w ∧ same_call w w' ∧
    w_signalled w' = w_signalled w || existsb (owned_by s t) hit) as Hback.
  { intros t w' Hw'. specialize (A6 t). destruct (fx_w s !! t) as [w|]; [|congruence].
    destruct A6 as (w2 & E & Hs & Hg). rewrite Hw' in E. injection E as <-. by exists w. }
  split.
  - intros a. rewrite A5. by apply NoDup_filter.
  - intros a p. rewrite A5, A2. intros [_ Hp]%list_elem_of_filter. by apply H2.
  - intros p e. rewrite A2, A3. intros He. destruct (H3 p e He) as (Hlt & w & Hw & Hin). split; [done|].
    specialize (A6 (e_condp e)). rewrite Hw in A6. destruct A6 as (w' & Hw' & Hs & _). exists w'. split; [done|]. by rewrite (same_entries w).
  - intros t w' (w & Hw & Hs%same_entries & _)%Hback. rewrite Hs, A2. by apply H4.
  - intros t w' p e (w & Hw & Hs%same_entries & Hg)%Hback Hsig. rewrite Hs, A2, A5. intros Hp He.
    rewrite Hsig in Hg. symmetry in Hg. apply orb_false_iff in Hg as [Hg1 Hg2]. apply list_elem_of_filter. split; [|by apply (H5 t w)].
    intros Hin. apply not_true_iff_false in Hg2. apply Hg2. apply existsb_exists. exists p. split; [by apply list_elem_of_In|].
    unfold owned_by. rewrite He. destruct (H4 t w Hw) as (_ & _ & Hown). destruct (Hown p Hp) as (e' & He' & Ht).
    rewrite He in He'. injection He' as <-. by apply Z.eqb_eq.
Qed.

(** What a wake does, to any state in order. *)
Lemma wake_spec uaddr count ub bs s :
  fx_ok s → let hit := hits ub bs count (queue uaddr s) s in
  ∃ s', do_private_futex_wake uaddr count ub bs s = Ret (Z.of_nat (length hit), s') ∧ woke hit s s' ∧ fx_ok s'.
Proof.
  intros Hok hit. destruct (wake_loop_spec ub bs (queue uaddr s) count 0 s) as (s' & E & Hw).
  { intros p (e & He & _)%(ok_queued _ Hok). by exists e. }
  exists s'. split; [done|]. split; [done|]. by apply (woke_ok hit s).
Qed.

(** ** Requeueing *)

Lemma queue_move a x to s :
  queue a (move_tail x to s) = if decide (a = to) then filter (λ y, y ≠ x) (queue a s) ++ [x] else filter (λ y, y ≠ x) (queue a s).
Proof.
  transitivity (queue a (link x to (unlink x s))); [done|]. rewrite queue_link, !queue_unlink. done.
Qed.

Lemma move_entry x to s p :
  fx_e (move_tail x to s) !! p =
    if decide (p = x) then (λ e, mk_pfutex to (e_bitset e) (e_condp e) (e_index e) (e_woken e)) <$> fx_e s !! p else fx_e s !! p.
Proof. cbn. destruct (decide (p = x)) as [->|Hne]; [by rewrite lookup_alter_eq|by rewrite lookup_alter_ne]. Qed.

Lemma move_entry_some x to s p e' :
  fx_e (move_tail x to s) !! p = Some e' → ∃ e, fx_e s !! p = Some e ∧ e_condp e' = e_condp e ∧
    e_uaddr e' = if decide (p = x) then to else e_uaddr e.
Proof.
  rewrite move_entry. destruct (decide (p = x)) as [->|Hne].
  - destruct (fx_e s !! x) as [e|] eqn:E; [|done]. intros [= <-]. by exists e.
  - intros Hp. by exists e'.
Qed.

Lemma move_ok x from to s : fx_ok s → x ∈ queue from s → fx_ok (move_tail x to s).
Proof.
  intros [H1 H2 H3 H4 H5] Hx. destruct (H2 _ _ Hx) as (ex & Hex & Hux). split.
  - intros a. rewrite queue_move. pose proof (NoDup_filter (λ y, y ≠ x) _ (H1 a)). case_decide; [|done].
    apply NoDup_app. split; [done|]. split; [|apply NoDup_singleton]. intros y [Hy _]%list_elem_of_filter ->%list_elem_of_singleton. done.
  - intros a p. rewrite queue_move, move_entry. intros Hp.
    assert (p = x ∧ a = to ∨ p ≠ x ∧ p ∈ queue a s) as [[-> ->]|[Hne Hq]].
    { destruct (decide (a = to)) as [->|]; [apply elem_of_app in Hp as [Hp|Hp]; [right|left]|right].
      - by apply list_elem_of_filter in Hp.
      - by apply list_elem_of_singleton in Hp.
      - by apply list_elem_of_filter in Hp. }
    + rewrite decide_True by done. rewrite Hex. cbn. by eexists.
    + rewrite decide_False by done. by apply H2.
  - intros p e' (e & He & Hc & _)%move_entry_some. rewrite Hc. by apply H3.
  - intros t w Hw. destruct (H4 t w Hw) as (Hd & Hn & Hp). split; [done|]. split; [done|].
    intros p Hin. destruct (Hp p Hin) as (e & He & Hc). rewrite move_entry, He. case_decide; cbn; by eexists.
  - intros t w p e' Hw Hs Hp (e & He & _ & Hu)%move_entry_some. rewrite queue_move, Hu. destruct (decide (p = x)) as [->|Hne].
    + rewrite decide_True by done. apply elem_of_app. right. by left.
    + pose proof (H5 t w p e Hw Hs Hp He) as Hin.
      case_decide; [apply elem_of_app; left|]; apply list_elem_of_filter; done.
Qed.

Lemma next_in_spec q : ∀ x y, NoDup q → next_in q x = Some y → x ∈ q ∧ y ∈ q ∧ y ≠ x.
Proof.
  induction q as [|z q IH]; intros x y; cbn; [done|]. intros [Hz Hq]%NoDup_cons. case_bool; bool_to_prop.
  - subst z. destruct q as [|z q]; [done|]. cbn. intros [= ->]. apply not_elem_of_cons in Hz as [Hz _]. split; [by left|]. split; [right; by left|done].
  - intros Hn. destruct (IH x y Hq Hn) as (? & ? & ?). split; [by right|]. split; [by right|done].
Qed.

(** The entries one pass moves. *)
Fixpoint moving (full : Z → bool) (val2 : Z) (q : list Z) : list Z :=
  match q with [] => [] | p :: q => if full val2 then [] else p :: moving full (val2 - 1) q end.

Lemma moving_count val2 q : moving (λ v, v <=? 0) val2 q = take (Z.to_nat val2) q.
Proof.
  revert val2. induction q as [|p q IH]; intros val2; cbn; [by rewrite take_nil|]. case_bool; bool_to_prop.
  - by replace (Z.to_nat val2) with O by lia.
  - replace (Z.to_nat val2) with (S (Z.to_nat (val2 - 1))) by lia. cbn. by rewrite IH.
Qed.

Lemma moving_pi val2 q : moving (λ v, v =? 0) val2 q = takez val2 q.
Proof.
  revert val2. induction q as [|p q IH]; intros val2; cbn [moving].
  - unfold takez. rewrite take_nil. by destruct (val2 <? 0).
  - case_bool; bool_to_prop; [by subst|]. rewrite takez_cons by done. by rewrite IH.
Qed.

(** The entries of [ps] are now at the end of the list of [to]. *)
Record requeued (ps : list Z) (from to : Z) s s' : Prop := {
  rq_g : fx_g s' = fx_g s;
  rq_w : fx_w s' = fx_w s;
  rq_from : queue from s = ps ++ queue from s';
  rq_to : queue to s' = queue to s ++ ps;
  rq_q a : a ≠ from → a ≠ to → queue a s' = queue a s;
  rq_in p : p ∈ ps → e_uaddr <$> fx_e s' !! p = Some to;
  rq_out p : p ∉ ps → fx_e s' !! p = fx_e s !! p;
}.

Lemma filter_absent (x : Z) (q : list Z) : x ∉ q → filter (λ y, y ≠ x) q = q.
Proof.
  induction q as [|y q IH]; [done|]. intros [Hy Hq]%not_elem_of_cons. rewrite filter_cons, decide_True by naive_solver.
  by rewrite IH.
Qed.

Lemma requeue_loop_spec full from to fuel : ∀ val2 num s,
  fx_ok s → from ≠ to → (length (queue from s) ≤ fuel)%nat →
  let ps := moving full val2 (queue from s) in
  ∃ s', requeue_loop fuel full from to (head (queue from s)) (head (queue from s) ≫= next_in (queue from s)) val2 num s =
      Ret (num + Z.of_nat (length ps), s') ∧ requeued ps from to s s'.
Proof.
  assert (∀ s, requeued [] from to s s) as Hnil by (intros s; split; try done; [by rewrite app_nil_r|intros p Hp; by apply not_elem_of_nil in Hp]).
  induction fuel as [|fuel IH]; intros val2 num s Hok Hne Hlen ps; unfold ps; destruct (queue from s) as [|x q] eqn:Eq; cbn in Hlen; try lia.
  - exists s. split; [cbn; do 2 f_equal; lia|apply Hnil].
  - exists s. split; [cbn; do 2 f_equal; lia|apply Hnil].
  - cbn [head mbind option_bind next_in requeue_loop moving]. rewrite Z.eqb_refl. destruct (full val2).
    { exists s. split; [cbn; do 2 f_equal; lia|apply Hnil]. }
    set (s1 := move_tail x to s). pose proof (ok_nodup _ Hok from) as Hd. rewrite Eq in Hd. apply NoDup_cons in Hd as [Hx Hd].
    assert (x ∈ queue from s) as Hin by (rewrite Eq; by left).
    assert (queue from s1 = q) as Eq1.
    { unfold s1. rewrite queue_move, decide_False, Eq by done. rewrite filter_cons, decide_False by naive_solver. by apply filter_absent. }
    destruct (ok_queued _ Hok _ _ Hin) as (e & He & Hu).
    assert (x ∉ queue to s) as Hto by (intros (e' & He' & Hu')%(ok_queued _ Hok); congruence).
    destruct (IH (val2 - 1) (num + 1) s1) as (s' & E & Hr); [by apply (move_ok x from)|done|rewrite Eq1; lia|].
    rewrite Eq1 in E, Hr. exists s'. split; [fold s1; rewrite Eq1, E; cbn [length]; do 2 f_equal; lia|].
    destruct Hr as [R1 R2 R3 R4 R5 R6 R7]. split; [done|done| | | | |].
    + rewrite Eq. cbn. f_equal. by rewrite <- R3.
    + rewrite R4. unfold s1. rewrite queue_move, decide_True by done. rewrite filter_absent by done. by rewrite <- app_assoc.
    + intros a Ha Hb. rewrite R5 by done. unfold s1. rewrite queue_move, decide_False by done. apply filter_absent.
      intros (e' & He' & Hu')%(ok_queued _ Hok). congruence.
    + intros p [->|Hp]%elem_of_cons; [|by apply R6]. rewrite R7.
      * unfold s1. by rewrite move_entry, decide_True, He.
      * intros Hp. apply Hx. rewrite <- Eq1, R3. apply elem_of_app. by left.
    + intros p [Hp1 Hp2]%not_elem_of_cons. rewrite R7 by done. unfold s1. by rewrite move_entry, decide_False.
Qed.

Lemma requeue_spec full from to val2 num s :
  fx_ok s → from ≠ to → let ps := moving full val2 (queue from s) in
  ∃ s', requeue full from to val2 num s = Ret (num + Z.of_nat (length ps), s') ∧ requeued ps from to s s'.
Proof.
  intros Hok Hne ps. destruct (requeue_loop_spec full from to (length (queue from s)) val2 num s Hok Hne ltac:(lia)) as (s' & E & Hr).
  exists s'. split; [|done]. unfold requeue. by rewrite (proj2 (Z.eqb_neq _ _) Hne).
Qed.

(** With a count that is not negative the loop ends on any lists. *)
Lemma requeue_loop_ends full from to fuel : ∀ p n val2 num s,
  (∀ v, v ≤ 0 → 0 ≤ v → full v = true) → 0 ≤ val2 → val2 ≤ Z.of_nat fuel →
  ∃ r, requeue_loop (G:=G) fuel full from to p n val2 num s = Ret r.
Proof.
  induction fuel as [|fuel IH]; intros p n val2 num s Hfull H0 Hf; cbn [requeue_loop]; destruct p as [x|]; try by eexists.
  - rewrite Hfull by lia. by eexists.
  - destruct (full val2) eqn:E; [by eexists|]. apply IH; [done| |lia]. assert (val2 ≠ 0); [intros ->; by rewrite Hfull in E|lia].
Qed.

(** ** Going to sleep *)

(** [ps] are new entries of the thread [me], each at the end of its queue. *)
Record queued (me : Z) (ps : list Z) s s' : Prop := {
  qd_g : fx_g s' = fx_g s;
  qd_w : fx_w s' = fx_w s;
  qd_next : fx_next s ≤ fx_next s';
  qd_nodup : NoDup ps;
  qd_range p : p ∈ ps → fx_next s ≤ p < fx_next s';
  qd_old p : p ∉ ps → fx_e s' !! p = fx_e s !! p;
  qd_new p : p ∈ ps → ∃ e, fx_e s' !! p = Some e ∧ e_condp e = me ∧ p ∈ queue (e_uaddr e) s';
  qd_q a : ∃ l, queue a s' = queue a s ++ l ∧ NoDup l ∧ ∀ p, p ∈ l → p ∈ ps ∧ ∃ e, fx_e s' !! p = Some e ∧ e_uaddr e = a;
}.

Lemma queued_nil me s : queued me [] s s.
Proof.
  split; try done; [apply NoDup_nil_2|by intros p ?%not_elem_of_nil|by intros p ?%not_elem_of_nil|].
  intros a. exists []. rewrite app_nil_r. split; [done|]. split; [apply NoDup_nil_2|]. by intros p ?%not_elem_of_nil.
Qed.

Lemma queued_one me e s : e_condp e = me → queued me [fx_next s] s (add_entry e s).2.
Proof.
  intros He. unfold add_entry. cbn [snd].
  set (s1 := mk_fx (fx_g s) (fx_q s) (<[fx_next s:=e]> (fx_e s)) (fx_w s) (fx_next s + 1) (fx_shared s)).
  assert (∀ a, queue a s1 = queue a s) as Hq by done.
  split; try done.
  - cbn. lia.
  - apply NoDup_singleton.
  - intros p ->%list_elem_of_singleton. cbn. lia.
  - intros p Hp. cbn. apply lookup_insert_ne. intros <-. apply Hp. by left.
  - intros p ->%list_elem_of_singleton. exists e. split; [cbn; by rewrite lookup_insert_eq|]. split; [done|].
    rewrite queue_link, decide_True by done. apply elem_of_app. right. by left.
  - intros a. rewrite queue_link, Hq. destruct (decide (a = e_uaddr e)) as [->|Hne]; [exists [fx_next s]|exists []; rewrite app_nil_r].
    + split; [done|]. split; [apply NoDup_singleton|]. intros p ->%list_elem_of_singleton. split; [by left|]. exists e. cbn. by rewrite lookup_insert_eq.
    + split; [done|]. split; [apply NoDup_nil_2|]. by intros p ?%not_elem_of_nil.
Qed.

Lemma queued_app me ps1 ps2 s s1 s2 : queued me ps1 s s1 → queued me ps2 s1 s2 → queued me (ps1 ++ ps2) s s2.
Proof.
  intros [A1 A2 A3 A4 A5 A6 A7 A8] [B1 B2 B3 B4 B5 B6 B7 B8].
  assert (∀ p, p ∈ ps1 → p ∉ ps2) as Hdis by (intros p ?%A5 ?%B5; lia).
  split; try congruence; try lia.
  - apply NoDup_app. done.
  - intros p [Hp|Hp]%elem_of_app; [apply A5 in Hp|apply B5 in Hp]; lia.
  - intros p [Hp1 Hp2]%not_elem_of_app. by rewrite B6, A6.
  - intros p [Hp|Hp]%elem_of_app; [|by apply B7]. destruct (A7 p Hp) as (e & He & Hc & Hin). exists e.
    rewrite B6 by auto. split; [done|]. split; [done|]. destruct (B8 (e_uaddr e)) as (l & -> & _). apply elem_of_app. by left.
  - intros a. destruct (A8 a) as (l1 & E1 & D1 & H1), (B8 a) as (l2 & E2 & D2 & H2). exists (l1 ++ l2).
    rewrite E2, E1, app_assoc. split; [done|]. split; [apply NoDup_app; split; [done|]; split; [|done]|].
    + intros p Hp1 Hp2. apply (Hdis p); [by apply H1|by apply H2].
    + intros p [Hp|Hp]%elem_of_app.
      * destruct (H1 p Hp) as [Hin Ha]. split; [apply elem_of_app; by left|]. by rewrite B6 by auto.
      * destruct (H2 p Hp) as [Hin Ha]. split; [apply elem_of_app; by right|done].
Qed.

Lemma asleep_ok me ps w s s' :
  fx_ok s → fx_w s !! me = None → queued me ps s s' → ps ≠ [] → w_entries w = ps → fx_ok (asleep me w s').
Proof.
  intros [H1 H2 H3 H4 H5] Hme [A1 A2 A3 A4 A5 A6 A7 A8] Hps Hw.
  assert (∀ p, p ∈ ps → fx_e s !! p = None) as Hnew.
  { intros p Hp. destruct (fx_e s !! p) as [e|] eqn:He; [|done]. apply H3 in He as [Hlt _]. apply A5 in Hp. lia. }
  assert (∀ p e, fx_e s !! p = Some e → p ∉ ps) as Hold by (intros p e He Hp%Hnew; congruence).
  assert (∀ p e, fx_e s' !! p = Some e → p ∉ ps → fx_e s !! p = Some e) as Hback by (intros p e He Hp; by rewrite A6 in He).
  split.
  - intros a. change (queue a (asleep me w s')) with (queue a s'). destruct (A8 a) as (l & -> & Hl & Hin). apply NoDup_app.
    split; [done|]. split; [|done]. intros p (e & He & _)%H2 [Hp _]%Hin. by apply (Hold p e).
  - intros a p. change (queue a (asleep me w s')) with (queue a s'). cbn. destruct (A8 a) as (l & -> & Hl & Hin).
    intros [Hp|Hp]%elem_of_app; [|by apply Hin]. destruct (H2 a p Hp) as (e & He & Hu). exists e. split; [|done].
    rewrite A6; [done|]. by apply (Hold p e).
  - intros p e. cbn. intros He. destruct (decide (p ∈ ps)) as [Hp|Hp].
    + split; [by apply A5|]. destruct (A7 p Hp) as (e' & He' & Hc & _). rewrite He in He'. injection He' as <-.
      exists w. rewrite Hc, lookup_insert_eq. by rewrite Hw.
    + apply Hback in He; [|done]. destruct (H3 p e He) as (Hlt & w' & Hw' & Hin). split; [lia|]. exists w'.
      rewrite lookup_insert_ne by congruence. by rewrite A2.
  - intros t w'. cbn. rewrite lookup_insert_Some. intros [[<- <-]|[Hne Hw']].
    + rewrite Hw. split; [done|]. split; [done|]. intros p (e & He & Hc & _)%A7. by exists e.
    + rewrite A2 in Hw'. destruct (H4 t w' Hw') as (Hd & Hn & Hp). split; [done|]. split; [done|].
      intros p Hin. destruct (Hp p Hin) as (e & He & Hc). exists e. split; [|done]. rewrite A6; [done|]. by apply (Hold p e).
  - intros t w' p e. change (queue ?a (asleep me w s')) with (queue a s'). cbn. rewrite lookup_insert_Some. intros [[<- <-]|[Hne Hw']] Hs Hp He.
    + rewrite Hw in Hp. destruct (A7 p Hp) as (e' & He' & _ & Hq). rewrite He in He'. by injection He' as <-.
    + rewrite A2 in Hw'. destruct (H4 t w' Hw') as (_ & _ & Hx). destruct (Hx p Hp) as (e0 & He0 & _).
      apply Hback in He; [|by apply (Hold p e0)]. destruct (A8 (e_uaddr e)) as (l & -> & _). apply elem_of_app. left. by apply (H5 t w').
Qed.

Lemma do_private_wait_ok me c clk uaddr ts rq bitset s :
  fx_ok s → fx_w s !! me = None → fx_ok (do_private_wait me c clk uaddr ts rq bitset s).
Proof.
  intros Hok Hme. unfold do_private_wait. set (e := mk_pfutex _ _ _ _ _). change (add_entry e s) with (fx_next s, (add_entry e s).2).
  cbv iota beta. apply (asleep_ok me [fx_next s] _ s); [done|done|by apply queued_one|done|done].
Qed.

Lemma add_waitv_queued me w : ∀ i s, ∃ ps s', add_waitv me i w s = (ps, s') ∧ queued me ps s s' ∧ length ps = length w.
Proof.
  induction w as [|v w IH]; intros i s; cbn [add_waitv]; [exists [], s; split; [done|]; split; [apply queued_nil|done]|].
  set (e := mk_pfutex _ _ _ _ _). change (add_entry e s) with (fx_next s, (add_entry e s).2). cbv iota beta.
  destruct (IH (i + 1) (add_entry e s).2) as (ps & s' & -> & Hq & Hl). exists (fx_next s :: ps), s'. split; [done|].
  split; [|cbn; lia]. apply (queued_app me [fx_next s] ps _ (add_entry e s).2); [by apply queued_one|done].
Qed.

(** ** Waking up *)

Lemma free_entries_spec ps : ∀ s,
  let s' := free_entries ps s in
  fx_g s' = fx_g s ∧ fx_w s' = fx_w s ∧ fx_next s' = fx_next s ∧ fx_shared s' = fx_shared s ∧
  (∀ a, queue a s' = filter (λ x, x ∉ ps) (queue a s)) ∧
  (∀ p, fx_e s' !! p = if decide (p ∈ ps) then None else fx_e s !! p).
Proof.
  induction ps as [|p ps IH]; intros s; cbn [free_entries].
  - do 4 (split; [done|]). split; [|intros p; rewrite decide_False; [done|apply not_elem_of_nil]].
    intros a. induction (queue a s) as [|x q IHq]; [done|]. rewrite filter_cons, decide_True by apply not_elem_of_nil. by rewrite <- IHq.
  - cbv zeta. set (s1 := mk_fx _ _ _ _ _ _). destruct (IH s1) as (A1 & A2 & A3 & A4 & A5 & A6). cbv zeta in *.
    do 4 (split; [done|]). split.
    + intros a. rewrite A5. change (queue a s1) with (queue a (unlink p s)). rewrite queue_unlink, list_filter_filter.
      apply list_filter_iff. intros x. rewrite not_elem_of_cons. naive_solver.
    + intros q. rewrite A6. cbn. destruct (decide (q = p)) as [->|Hne].
      * rewrite lookup_delete_eq. rewrite (decide_True (P := p ∈ p :: ps)) by (by left). by case_decide.
      * rewrite lookup_delete_ne by done. destruct (decide (q ∈ ps)) as [Hq|Hq].
        -- by rewrite decide_True by (by right).
        -- rewrite decide_False; [done|]. by intros [?|?]%elem_of_cons.
Qed.

(** A waking thread ends its call: its entries are gone, from wherever they
    were, and nobody else's are touched. *)
Record finished (me : Z) (w : waiter) s s' : Prop := {
  fn_ok : fx_ok s';
  fn_g : fx_g s' = fx_g s;
  fn_w : fx_w s' = delete me (fx_w s);
  fn_q a : queue a s' = filter (λ x, x ∉ w_entries w) (queue a s);
  fn_e p : fx_e s' !! p = if decide (p ∈ w_entries w) then None else fx_e s !! p;
}.

Lemma finish_spec me w r s :
  fx_ok s → fx_w s !! me = Some w → ∃ ret s', finish me w r s = Ret (ret, s') ∧ finished me w s s'.
Proof.
  intros Hok Hw. pose proof Hok as [H1 H2 H3 H4 H5]. destruct (H4 me w Hw) as (Hd & Hne & Hown).
  pose proof (free_entries_spec (w_entries w) s) as (A1 & A2 & A3 & A4 & A5 & A6). cbv zeta in *.
  set (s1 := free_entries (w_entries w) s) in *.
  set (s' := mk_fx (fx_g s1) (fx_q s1) (fx_e s1) (delete me (fx_w s1)) (fx_next s1)
              (if w_call w is Futex _ _ _ _ _ _ then false else fx_shared s1)).
  assert (finished me w s s') as Hf.
  { assert (∀ t w' p, t ≠ me → fx_w s !! t = Some w' → p ∈ w_entries w' → p ∉ w_entries w) as Hdis.
    { intros t w' p Ht Hw' Hp Hp'. destruct (H4 t w' Hw') as (_ & _ & Ho). destruct (Ho p Hp) as (e & He & Hc).
      destruct (Hown p Hp') as (e' & He' & Hc'). congruence. }
    split; [|done|cbn; by rewrite A2|done|done]. split; change (queue ?a s') with (queue a s1) in *.
    - intros a. rewrite A5. by apply NoDup_filter.
    - intros a p. cbn. rewrite A5, A6. intros [Hp Hq]%list_elem_of_filter. rewrite decide_False by done. by apply H2.
    - intros p e. cbn. rewrite A6, A3, A2. case_decide as Hp; [done|]. intros He. destruct (H3 p e He) as (Hlt & w' & Hw' & Hin).
      split; [done|]. exists w'. split; [|done]. apply lookup_delete_Some. split; [|done]. intros Heq. rewrite <- Heq, Hw in Hw'. injection Hw' as <-. done.
    - intros t w'. cbn. rewrite A2, lookup_delete_Some. intros [Ht Hw']. destruct (H4 t w' Hw') as (Hd' & Hn' & Ho). split; [done|]. split; [done|].
      intros p Hp. destruct (Ho p Hp) as (e & He & Hc). exists e. split; [|done]. rewrite A6, decide_False; [done|]. by apply (Hdis t w').
    - intros t w' p e. cbn. rewrite A2, A6, A5, lookup_delete_Some. intros [Ht Hw'] Hs Hp. case_decide as Hp'; [done|]. intros He.
      apply list_elem_of_filter. split; [done|]. by apply (H5 t w'). }
  unfold finish. fold s1. destruct (w_many w); [by eexists _, s'|]. destruct (w_requeue w) as [u2|]; [|by eexists _, s'].
  destruct (w_entries w) as [|p ps] eqn:Ew; [done|]. destruct (Hown p) as (e & He & _); [by left|]. cbn [head mbind option_bind].
  rewrite He. cbn [mbind outcome_bind]. by eexists _, s'.
Qed.

(** ** What a call does to the others *)

(** Nobody falls asleep or wakes up, signals stay, and entries come onto the
    lists of [P] only. *)
Record mild (P : Z → Prop) s s' : Prop := {
  md_ok : fx_ok s';
  md_stay t w : fx_w s !! t = Some w → ∃ w', fx_w s' !! t = Some w' ∧ same_call w w' ∧ (w_signalled w = true → w_signalled w' = true);
  md_none t : fx_w s !! t = None → fx_w s' !! t = None;
  md_q a p : p ∈ queue a s' → p ∈ queue a s ∨ P a;
  md_next : fx_next s' = fx_next s;
}.

Lemma mild_refl P s : fx_ok s → mild P s s.
Proof. intros Hok. split; try done; [|by left]. intros t w Hw. exists w. split; [done|]. by destruct w. Qed.

Lemma mild_trans (P Q : Z → Prop) s s1 s2 : (∀ a, Q a → P a) → mild Q s s1 → mild P s1 s2 → mild P s s2.
Proof.
  intros HPQ [A1 A2 A3 A4 A5] [B1 B2 B3 B4 B5]. split; [done| |auto| |congruence].
  - intros t w (w1 & Hw1 & Hs1 & Hg1)%A2. destruct (B2 t w1 Hw1) as (w2 & Hw2 & Hs2 & Hg2). exists w2. split; [done|].
    split; [|auto]. unfold same_call in *. by rewrite Hs2, Hs1.
  - intros a p [Hp|Hp]%B4; [|by right]. apply A4 in Hp as [Hp|Hp]; [by left|right; auto].
Qed.

Lemma mild_woke P hit s s' : fx_ok s → woke hit s s' → mild P s s'.
Proof.
  intros Hok Hw. pose proof (woke_ok _ _ _ Hok Hw) as Hok'. destruct Hw as [A1 A2 A3 A4 A5 A6]. split; [done| | | |done].
  - intros t w Hw. specialize (A6 t). rewrite Hw in A6. destruct A6 as (w' & Hw' & Hs & Hg). exists w'. split; [done|].
    split; [done|]. rewrite Hg. by intros ->.
  - intros t Ht. specialize (A6 t). by rewrite Ht in A6.
  - intros a p. rewrite A5. intros [_ Hp]%list_elem_of_filter. by left.
Qed.

Lemma mild_set_g P g s : fx_ok s → mild P s (set_g g s).
Proof. intros Hok. destruct (mild_refl P s Hok). split; [by apply fx_ok_set_g|done..]. Qed.

Lemma mild_set_shared P b s : fx_ok s → mild P s (set_shared b s).
Proof. intros Hok. destruct (mild_refl P s Hok). split; [by apply fx_ok_set_shared|done..]. Qed.

Lemma mild_move x from to s : fx_ok s → x ∈ queue from s → mild (λ a, a = to) s (move_tail x to s).
Proof.
  intros Hok Hx. destruct (mild_refl (λ a, a = to) s Hok). split; [by apply (move_ok x from)|done|done| |done].
  intros a p. rewrite queue_move. case_decide; [by right|]. intros [_ Hp]%list_elem_of_filter. by left.
Qed.

(** Whatever the two lists are, the loop keeps them sound. *)
Lemma requeue_loop_mild full from to fuel : ∀ p n val2 num s num' s',
  fx_ok s → (∀ x, p = Some x → x ∈ queue from s) → (∀ y, n = Some y → y ∈ queue from s ∧ p ≠ Some y ∧ p ≠ None) →
  requeue_loop fuel full from to p n val2 num s = Ret (num', s') → mild (λ a, a = to) s s'.
Proof.
  induction fuel as [|fuel IH]; intros p n val2 num s num' s' Hok Hp Hn; cbn [requeue_loop]; destruct p as [x|].
  - by destruct (full val2); [intros [= _ <-]; apply mild_refl|].
  - intros [= _ <-]. by apply mild_refl.
  - destruct (full val2); [intros [= _ <-]; by apply mild_refl|]. pose proof (mild_move x from to s Hok (Hp x eq_refl)) as Hm.
    intros E. apply (mild_trans _ (λ a, a = to) _ (move_tail x to s)); [done|done|]. revert E. apply IH; [apply Hm| |].
    + intros y ->. destruct (Hn y eq_refl) as (Hy & Hne & _). rewrite queue_move.
      case_decide; [apply elem_of_app; left|]; apply list_elem_of_filter; naive_solver.
    + intros z Hz. destruct n as [y|]; [|done]. cbn in Hz.
      destruct (next_in_spec _ _ _ (ok_nodup _ (md_ok _ _ _ Hm) from) Hz) as (_ & Hin & Hne). naive_solver.
  - intros [= _ <-]. by apply mild_refl.
Qed.

Lemma requeue_mild full from to val2 num s num' s' :
  fx_ok s → requeue full from to val2 num s = Ret (num', s') → mild (λ a, a = to) s s'.
Proof.
  intros Hok. unfold requeue. pose proof (ok_nodup _ Hok from) as Hd. apply requeue_loop_mild; [done| |].
  - intros x Hx. destruct (queue from s); [done|]. injection Hx as ->. by left.
  - intros y Hy. destruct (queue from s) as [|x q] eqn:Eq; [done|]. cbn [head mbind option_bind] in *.
    destruct (next_in_spec _ _ _ Hd Hy) as (_ & Hin & Hne). naive_solver.
Qed.

Definition cmd_of (op : Z) : Z := Z.land op LINUX_FUTEX_CMD_MASK.

(** The call sleeps only while the word at [a] is [v]. *)
Definition waits_for (c : call) (a v : Z) : Prop :=
  match c with
  | Futex uaddr op val _ _ _ => uaddr = a ∧ val = v ∧ (cmd_of op = LINUX_FUTEX_WAIT ∨ cmd_of op = LINUX_FUTEX_WAIT_BITSET)
  | Futex_wait uaddr val _ _ _ _ => uaddr = a ∧ u32 val = v
  | _ => False
  end.

(** The call may move entries to the list of [a]. *)
Definition requeues (g : G) (c : call) (a : Z) : Prop :=
  match c with
  | Futex _ op _ _ uaddr2 _ => uaddr2 = a ∧
      (cmd_of op = LINUX_FUTEX_REQUEUE ∨ cmd_of op = LINUX_FUTEX_CMP_REQUEUE ∨ cmd_of op = LINUX_FUTEX_CMP_REQUEUE_PI)
  | Futex_requeue waiters_ptr _ _ _ => ∃ l, copy_in waiters_ptr 48 g = Some l ∧ v_uaddr (waitv_at l 1) = a
  | _ => False
  end.

(** The one call whose loop need not end: all of a list moved to its own end. *)
Definition endless (c : call) : Prop :=
  match c with
  | Futex uaddr op _ timeout_ptr uaddr2 _ => cmd_of op = LINUX_FUTEX_CMP_REQUEUE_PI ∧ uaddr = uaddr2 ∧ s32 timeout_ptr < 0
  | _ => False
  end.

Record effect (me : Z) (c : call) s (ret : option Z) s' : Prop := {
  ef_ok : fx_ok s';
  ef_stay t w : fx_w s !! t = Some w → ∃ w', fx_w s' !! t = Some w' ∧ same_call w w' ∧ (w_signalled w = true → w_signalled w' = true);
  ef_new t w' : fx_w s' !! t = Some w' → fx_w s !! t = None → t = me ∧ ret = None ∧ w_call w' = c ∧
    ∀ a v, waits_for c a v → get_int a 4 (fx_g s) = Some v;
  ef_q a p : p ∈ queue a s' → p ∈ queue a s ∨ fx_next s ≤ p ∨ requeues (fx_g s) c a;
  ef_next : fx_next s ≤ fx_next s';
}.

Lemma effect_mild me c s r s' (P : Z → Prop) :
  (∀ a, P a → requeues (fx_g s) c a) → mild P s s' → effect me c s (Some r) s'.
Proof.
  intros HP [A1 A2 A3 A4 A5]. split; [done|done| | |lia].
  - intros t w' Hw' Ht. rewrite A3 in Hw' by done. done.
  - intros a p [Hp|Hp]%A4; [by left|right; right; auto].
Qed.

(** Falling asleep, after changes to the guest's memory only. *)
Lemma effect_asleep me c s s1 s2 ps w (P : Z → Prop) :
  (∀ a, ¬ P a) → mild P s s1 → queued me ps s1 s2 → fx_w s !! me = None → ps ≠ [] → w_entries w = ps → w_call w = c →
  (∀ a v, waits_for c a v → get_int a 4 (fx_g s) = Some v) → effect me c s None (asleep me w s2).
Proof.
  intros HP Hm Hq Hme Hps Hw Hc Hwait. pose proof (md_none _ _ _ Hm me Hme) as Hme1.
  pose proof (asleep_ok me ps w s1 s2 (md_ok _ _ _ Hm) Hme1 Hq Hps Hw) as Hok.
  destruct Hm as [A1 A2 A3 A4 A5], Hq as [B1 B2 B3 B4 B5 B6 B7 B8]. split; [done| | | |cbn; lia].
  - intros t w0 Hw0. destruct (A2 t w0 Hw0) as (w' & Hw' & Hs & Hg). exists w'. cbn. rewrite lookup_insert_ne by congruence. by rewrite B2.
  - intros t w'. cbn. rewrite lookup_insert_Some, B2. intros [[<- <-]|[Hne Hw']] Ht; [done|]. rewrite A3 in Hw' by done. done.
  - intros a p. change (queue a (asleep me w s2)) with (queue a s2). destruct (B8 a) as (l & -> & _ & Hl).
    intros [Hp|Hp]%elem_of_app; [apply A4 in Hp as [Hp|Hp]; [by left|by destruct (HP a)]|]. right. left. apply Hl in Hp as [Hp _]. apply B5 in Hp. lia.
Qed.

Lemma effect_wait me c clk uaddr ts rq bitset s s1 (P : Z → Prop) :
  (∀ a, ¬ P a) → mild P s s1 → fx_w s !! me = None → (∀ a v, waits_for c a v → get_int a 4 (fx_g s) = Some v) →
  effect me c s None (do_private_wait me c clk uaddr ts rq bitset s1).
Proof.
  intros HP Hm Hme Hwait. unfold do_private_wait. set (e := mk_pfutex _ _ _ _ _).
  change (add_entry e s1) with (fx_next s1, (add_entry e s1).2). cbv iota beta.
  by apply (effect_asleep me c s s1 _ [fx_next s1] _ P HP Hm (queued_one me e s1 eq_refl)).
Qed.

(** How a call may end. *)
Definition answered (me : Z) (c : call) s (o : outcome (option Z * fx G)) : Prop :=
  match o with
  | Ret (ret, s') => effect me c s ret s'
  | Stop why => why = Panicked ∨ why = Asserted ∨ why = OutOfFuel ∧ endless c
  end.

(** ** Every call *)

Lemma read_timeout_total clk p relative rt s : ∃ t, read_timeout (G:=G) clk p relative rt s = Ret t.
Proof.
  unfold read_timeout. destruct (p =? 0); [by eexists|]. destruct (get_timespec p s) as [t|]; [|by eexists].
  destruct (futex_deadline_total t relative rt clk) as [ts ->]. by eexists.
Qed.

Lemma should_block_zero uaddr val s : (futex_should_block uaddr val s <? 0) = false → get_int uaddr 4 (fx_g s) = Some val.
Proof.
  unfold futex_should_block. destruct (get_int uaddr 4 (fx_g s)) as [u|]; [|done]. destruct (u =? val) eqn:E; [|done].
  intros _. bool_to_prop. by subst.
Qed.

Section Answer.
Context (me : Z) (c : call) (clk : clocks).

Lemma answered_error r s : fx_ok s → answered me c s (Ret (Some r, s)).
Proof. intros Hok. apply (effect_mild _ _ _ _ _ (λ _, False)); [done|by apply mild_refl]. Qed.

Lemma answered_wake uaddr count ub bs (f : Z → Z) s :
  fx_ok s → answered me c s ('(ret, s) ← do_private_futex_wake uaddr count ub bs s; Ret (Some (f ret), s)).
Proof.
  intros Hok. destruct (wake_spec uaddr count ub bs s Hok) as (s' & -> & Hw & _). cbn.
  apply (effect_mild _ _ _ _ _ (λ _, False)); [done|]. by apply (mild_woke _ _ _ _ Hok Hw).
Qed.

Lemma answered_wait timeout_ptr relative rt uaddr rq bitset s :
  fx_ok s → fx_w s !! me = None → (∀ a v, waits_for c a v → get_int a 4 (fx_g s) = Some v) →
  answered me c s (timeout ← read_timeout clk timeout_ptr relative rt s; wait_with me c clk timeout uaddr rq bitset s).
Proof.
  intros Hok Hme Hwait. destruct (read_timeout_total clk timeout_ptr relative rt s) as [[err|ts] ->]; cbn.
  - by apply (answered_error err).
  - apply (effect_wait _ _ _ _ _ _ _ _ _ (λ _, False)); [by intros a []|by apply mild_refl|done|done].
Qed.

Lemma answered_wake_op uaddr val timeout_ptr uaddr2 val3 s :
  fx_ok s → answered me c s (wake_op uaddr val timeout_ptr uaddr2 val3 s).
Proof.
  intros Hok. unfold wake_op. destruct (get_int uaddr2 4 (fx_g s)) as [old|]; [|by apply answered_error].
  destruct (op_value val3 (s32 old)) as [newval|]; [|by left]. destruct (put_int uaddr2 4 (u32 newval) (fx_g s)) as [ok g].
  pose proof (mild_set_g (λ _, False) g s Hok) as M1. destruct ok; cbn [negb]; [|by apply (effect_mild _ _ _ _ _ (λ _, False))].
  destruct (wake_spec uaddr (s32 val) false 0 (set_g g s) (md_ok _ _ _ M1)) as (s2 & -> & Hw2 & Hok2). cbn [mbind outcome_bind].
  pose proof (mild_trans _ (λ _, False) _ _ _ ltac:(done) M1 (mild_woke _ _ _ _ (md_ok _ _ _ M1) Hw2)) as M2.
  destruct (op_cond val3 (s32 old)) as [[|]|]; [|by apply (effect_mild _ _ _ _ _ (λ _, False))|by left].
  destruct (wake_spec uaddr2 (s32 (u32 timeout_ptr)) false 0 s2 Hok2) as (s3 & -> & Hw3 & Hok3). cbn.
  apply (effect_mild _ _ _ _ _ (λ _, False)); [done|]. apply (mild_trans _ (λ _, False) _ s2); [done|done|]. by apply (mild_woke _ _ _ _ Hok2 Hw3).
Qed.

Lemma answered_lock_pi uaddr timeout_ptr rt s :
  fx_ok s → fx_w s !! me = None → (∀ a v, ¬ waits_for c a v) → answered me c s (lock_pi me c clk uaddr timeout_ptr rt s).
Proof.
  intros Hok Hme Hc. unfold lock_pi. destruct (read_timeout_total clk timeout_ptr false rt s) as [[err|ts] ->]; cbn [mbind outcome_bind].
  { by apply answered_error. }
  destruct (word_at uaddr (fx_g s)) as [value|]; [|right; by left].
  pose proof (mild_set_g (λ _, False) (set_word uaddr me (fx_g s)) s Hok) as M1. destruct (value =? 0).
  { by apply (effect_mild _ _ _ _ _ (λ _, False)). }
  apply (effect_wait _ _ _ _ _ _ _ _ _ (λ _, False)); [by intros a []| |done|by intros a v ?%Hc].
  apply (mild_trans _ (λ _, False) _ _ _ ltac:(done) M1). by apply mild_set_g, M1.
Qed.

Lemma requeue_stop full from to val2 num s why :
  fx_ok s → (∀ v, v ≤ 0 → 0 ≤ v → full v = true) → requeue full from to val2 num s = Stop why →
  why = OutOfFuel ∧ from = to ∧ val2 < 0 ∧ full val2 = false.
Proof.
  intros Hok Hfull E. destruct (decide (from = to)) as [->|Hne]; cycle 1.
  { destruct (requeue_spec full from to val2 num s Hok Hne) as (s' & E' & _). congruence. }
  unfold requeue in E. rewrite Z.eqb_refl in E. destruct (Z.le_gt_cases 0 val2) as [H0|H0].
  { destruct (requeue_loop_ends full to to (Z.to_nat val2) (head (queue to s)) (head (queue to s) ≫= next_in (queue to s)) val2 num s) as [r Er];
      [done|done|lia|congruence]. }
  replace (Z.to_nat val2) with O in E by lia. cbn [requeue_loop] in E. destruct (head (queue to s)); [|done].
  destruct (full val2) eqn:Ef; [done|]. by injection E as <-.
Qed.

Lemma answered_requeue full from to nr_wake val2 (i : Z → Z) (f : Z → Z → Z) s :
  fx_ok s → (∀ v, v ≤ 0 → 0 ≤ v → full v = true) → requeues (fx_g s) c to →
  (from = to → val2 < 0 → full val2 = false → endless c) →
  answered me c s ('(num, s) ← do_private_futex_wake from nr_wake false 0 s;
                   '(num', s) ← requeue full from to val2 (i num) s; Ret (Some (f num num'), s)).
Proof.
  intros Hok Hfull Hto Hend. destruct (wake_spec from nr_wake false 0 s Hok) as (s1 & -> & Hw & Hok1). cbn [mbind outcome_bind].
  pose proof (mild_woke (λ _, False) _ _ _ Hok Hw) as M1.
  destruct (requeue full from to val2 _ s1) as [[num' s2]|why] eqn:E; cbn [mbind outcome_bind].
  - apply (effect_mild _ _ _ _ _ (λ a, a = to)); [by intros a ->|].
    apply (mild_trans _ (λ _, False) _ s1); [done|done|]. by apply (requeue_mild _ _ _ _ _ _ _ _ Hok1 E).
  - destruct (requeue_stop _ _ _ _ _ _ _ Hok1 Hfull E) as (-> & -> & H0 & Hf). right. right. split; [done|]. by apply Hend.
Qed.

Lemma answered_wake_requeue uaddr uaddr2 nr_wake nr_requeue s :
  fx_ok s → requeues (fx_g s) c uaddr2 → answered me c s (wake_requeue uaddr uaddr2 nr_wake nr_requeue s).
Proof.
  intros Hok Hto. apply (answered_requeue (λ v, v <=? 0) _ _ _ _ (λ _, 0) (λ woken _, woken)); [done| |done|].
  - intros v Hv _. by apply Z.leb_le.
  - intros _ Hv Hf. bool_to_prop. lia.
Qed.

Lemma answered_trylock uaddr s : fx_ok s → answered me c s (trylock_pi me uaddr s).
Proof.
  intros Hok. unfold trylock_pi. destruct (word_at uaddr (fx_g s)) as [v|]; [|by apply answered_error].
  destruct (v =? 0); [|by apply answered_error]. apply (effect_mild _ _ _ _ _ (λ _, False)); [done|]. by apply mild_set_g.
Qed.
End Answer.

Lemma effect_shared me c b s ret s' :
  effect me c (set_shared b s) ret s' → effect me c s ret s'.
Proof. intros [A1 A2 A3 A4 A5]. by split. Qed.

Lemma effect_unshared me c b s ret s' : effect me c s ret s' → effect me c s ret (set_shared b s').
Proof. intros [A1 A2 A3 A4 A5]. split; try done. by apply fx_ok_set_shared. Qed.

Lemma do_private_futex_answered me clk uaddr op op0 val timeout_ptr uaddr2 val3 v3 s :
  let c := Futex uaddr op0 val timeout_ptr uaddr2 v3 in
  Z.land op LINUX_FUTEX_CMD_MASK = cmd_of op0 → fx_ok s → fx_w s !! me = None →
  answered me c s (do_private_futex me c clk uaddr op val timeout_ptr uaddr2 val3 s).
Proof.
  intros c Hop Hok Hme. unfold do_private_futex. rewrite Hop.
  case_bool; [by apply (answered_wake me c _ _ _ _ id)|].
  case_bool.
  { case_bool; [by apply answered_error|]. apply answered_wait; [done|done|]. intros a v (<- & <- & _). by apply should_block_zero. }
  case_bool; [by apply answered_wake_op|].
  case_bool; [apply answered_lock_pi; [done|done|]; bool_to_prop; intros a v (_ & _ & Hc); rewrite E2 in Hc; by destruct Hc|].
  case_bool; [by apply (answered_wake me c _ _ _ _ (λ _, 0))|].
  case_bool.
  { unfold cmp_requeue_pi. case_bool; [by apply answered_error|]. destruct (get_int uaddr 4 (fx_g s)); [|by apply answered_error].
    case_bool; [by apply answered_error|]. bool_to_prop. apply (answered_requeue me c (λ v, v =? 0) _ _ _ _ id (λ _ n, n)); [done| | |].
    - intros v Hv Hv'. apply Z.eqb_eq. lia.
    - split; [done|]. auto.
    - intros -> Hv _. done. }
  case_bool; [apply answered_wait; [done|done|]; bool_to_prop; intros a v (_ & _ & Hc); exfalso; clear -Hc E5; rewrite E5 in Hc; by destruct Hc|].
  case_bool.
  { case_bool; [by apply answered_error|]. apply answered_wait; [done|done|]. intros a v (<- & <- & _). by apply should_block_zero. }
  case_bool; [by apply (answered_wake me c _ _ _ _ id)|].
  case_bool.
  { destruct (_ <? 0); [by apply answered_error|]. apply answered_wake_requeue; [done|]. split; [done|].
    apply orb_true_iff in E8 as [E8|E8]; bool_to_prop; auto. }
  case_bool; [by apply answered_trylock|]. by apply answered_error.
Qed.

Lemma sys_futex_answered me clk uaddr op val timeout_ptr uaddr2 val3 s :
  fx_ok s → fx_w s !! me = None →
  answered me (Futex uaddr op val timeout_ptr uaddr2 val3) s (sys_futex me clk uaddr op val timeout_ptr uaddr2 val3 s).
Proof.
  intros Hok Hme. unfold sys_futex. set (c := Futex uaddr op val timeout_ptr uaddr2 val3).
  assert (∀ shared op', Z.land op' LINUX_FUTEX_CMD_MASK = cmd_of op → answered me c s
    ('(ret, s) ← do_private_futex me c clk uaddr op' val timeout_ptr uaddr2 (s32 val3) (set_shared shared s);
     Ret (ret, if ret is None then s else set_shared false s))) as Hrun.
  { intros shared op' Hop.
    pose proof (do_private_futex_answered me clk uaddr op' op val timeout_ptr uaddr2 (s32 val3) val3 (set_shared shared s) Hop
      (fx_ok_set_shared _ _ Hok) Hme) as Ha. cbv zeta in Ha. fold c in Ha.
    destruct (do_private_futex _ _ _ _ _ _ _ _ _ _) as [[ret s']|why]; [|done]. cbn in *. apply effect_shared in Ha.
    destruct ret; [by apply effect_unshared|done]. }
  destruct (has op LINUX_FUTEX_PRIVATE_FLAG).
  - apply Hrun. unfold cmd_of. rewrite <- Z.land_assoc. done.
  - destruct (shared_at uaddr (fx_g s)) as [b|]; [by apply Hrun|]. by apply answered_error.
Qed.

(** Every call, in any state in order, keeps it in order and answers or sleeps. *)
Lemma run_call_answered me clk c s : fx_ok s → fx_w s !! me = None → answered me c s (run_call me clk c s).
Proof.
  intros Hok Hme. destruct c; cbn [run_call].
  - by apply sys_futex_answered.
  - unfold sys_futex_wake. case_bool; [by apply answered_error|]. case_bool; [by apply answered_error|]. by apply (answered_wake me _ _ _ _ _ id).
  - unfold sys_futex_wait. case_bool; [by apply answered_error|]. case_bool; [by apply answered_error|].
    destruct (read_timeout_total clk timeout_ptr false (clockid =? LINUX_CLOCK_REALTIME) s) as [[err|ts] ->]; cbn [mbind outcome_bind];
      [by apply answered_error|]. case_bool; [|by apply answered_error].
    apply (effect_wait _ _ _ _ _ _ _ _ _ (λ _, False)); [by intros a []|by apply mild_refl|done|].
    intros a v [<- <-]. apply should_block_zero. bool_to_prop. rewrite E1. done.
  - unfold sys_futex_requeue. case_bool; [by apply answered_error|]. case_bool; [by apply answered_error|].
    destruct (copy_in waiters_ptr 48 (fx_g s)) as [l|] eqn:El; [|by apply answered_error].
    case_bool; [by apply answered_error|]. case_bool; [by apply answered_error|]. case_bool; [by apply answered_error|].
    apply answered_wake_requeue; [done|]. by exists l.
  - unfold sys_futex_waitv. case_bool; [by apply answered_error|]. case_bool; [by apply answered_error|]. case_bool; [by apply answered_error|].
    destruct (waitv_array waiters_ptr (Z.to_nat (u32 nr_futexes)) s) as [w|] eqn:Ew; [|by apply answered_error]. case_bool; [by apply answered_error|].
    destruct (read_timeout_total clk timeout_ptr false (clockid =? LINUX_CLOCK_REALTIME) s) as [[err|ts] ->]; cbn [mbind outcome_bind];
      [by apply answered_error|]. case_bool; [by apply answered_error|].
    destruct (add_waitv_queued me w 0 s) as (ps & s' & -> & Hq & Hlen). cbn.
    apply (effect_asleep _ _ _ s _ ps _ (λ _, False)); [by intros a []|by apply mild_refl|done|done| |done|done|done].
    unfold waitv_array in Ew. destruct (copy_in _ _ _) as [l|]; [|done]. injection Ew as <-. rewrite length_fmap, length_seq in Hlen.
    intros ->. cbn in Hlen. bool_to_prop. pose proof (u32_range nr_futexes). lia.
  - by apply (answered_wake me _ _ _ _ _ id).
Qed.

(** * The theorems *)

Lemma step_ok s l s' : fx_ok s → step s l s' → fx_ok s'.
Proof.
  intros Hok Hs. destruct Hs as [me clk c ret s s' Hme E|me w r ret s s' Hw _ E|g s].
  - pose proof (run_call_answered me clk c s Hok Hme) as Ha. rewrite E in Ha. apply Ha.
  - destruct (finish_spec me w r s Hok Hw) as (ret' & s2 & E' & Hf). rewrite E in E'. injection E' as _ <-. apply Hf.
  - by apply fx_ok_set_g.
Qed.

Lemma steps_ok s0 s : fx_ok s0 → steps s0 s → fx_ok s.
Proof. intros Hok. induction 1 as [|s l s' _ IH Hs]; [done|]. by apply (step_ok s l). Qed.

(** C22: whatever the threads of a process do with futexes, in whatever order,
    with stores to memory in between and waits that end for any reason, the
    queues stay sound: every queued entry is live, on the list of its own
    address and on no other, and belongs to a sleeping thread. The next call
    then never touches an entry that is gone: it answers, sleeps, or stops the
    process on purpose (FUTEX_WAKE_OP with an unknown operation, FUTEX_LOCK_PI
    on an address that is not mapped); only CMP_REQUEUE_PI of a futex onto
    itself with a negative count need not end. A thread that wakes up always
    completes its call. *)
Theorem futex_queues_sound s0 s :
  fx_ok s0 → steps s0 s → fx_ok s ∧
  (∀ me clk c, fx_w s !! me = None →
    match run_call me clk c s with
    | Ret (_, s') => fx_ok s'
    | Stop why => why = Panicked ∨ why = Asserted ∨ why = OutOfFuel ∧ endless c
    end) ∧
  (∀ me w r, fx_w s !! me = Some w → ∃ ret s', finish me w r s = Ret (ret, s') ∧ fx_ok s' ∧ fx_w s' !! me = None).
Proof.
  intros Hok0 Hs. pose proof (steps_ok s0 s Hok0 Hs) as Hok. split; [done|]. split.
  - intros me clk c Hme. pose proof (run_call_answered me clk c s Hok Hme) as Ha.
    destruct (run_call me clk c s) as [[ret s']|why]; [apply Ha|done].
  - intros me w r Hw. destruct (finish_spec me w r s Hok Hw) as (ret & s' & E & Hf). exists ret, s'. split; [done|].
    split; [apply Hf|]. rewrite (fn_w _ _ _ _ Hf). apply lookup_delete_eq.
Qed.

Lemma hits_in ub bs count q s p : p ∈ hits ub bs count q s → p ∈ q.
Proof.
  unfold hits, takez. case_bool; [|intros Hp%elem_of_take; destruct Hp as (i & Hp & _); apply list_elem_of_lookup_2 in Hp; revert Hp];
    by intros [_ ?]%list_elem_of_filter.
Qed.

Lemma filter_other (hit q : list Z) : (∀ p, p ∈ q → p ∉ hit) → filter (λ x, x ∉ hit) q = q.
Proof.
  induction q as [|x q IH]; intros Hq; [done|]. rewrite filter_cons, decide_True by (apply Hq; by left). f_equal.
  apply IH. intros p Hp. apply Hq. by right.
Qed.

Lemma woke_other hit s s' uaddr a : fx_ok s → woke hit s s' → (∀ p, p ∈ hit → p ∈ queue uaddr s) → a ≠ uaddr → queue a s' = queue a s.
Proof.
  intros Hok Hw Hin Ha. rewrite (wk_q _ _ _ Hw). apply filter_other. intros p (e & He & Hu)%(ok_queued _ Hok) (e' & He' & Hu')%Hin%(ok_queued _ Hok).
  congruence.
Qed.

Lemma owned_hit s t hit : existsb (owned_by s t) hit = true ↔ ∃ p e, p ∈ hit ∧ fx_e s !! p = Some e ∧ e_condp e = t.
Proof.
  rewrite existsb_exists. split.
  - intros (p & Hp%list_elem_of_In & Ho). unfold owned_by in Ho. destruct (fx_e s !! p) as [e|] eqn:He; [|done]. bool_to_prop. by exists p, e.
  - intros (p & e & Hp & He & Hc). exists p. split; [by apply list_elem_of_In|]. unfold owned_by. rewrite He. by apply Z.eqb_eq.
Qed.

(** C23: a wake takes the first [count] waiters of the address whose bitset
    meets the mask, in the order they came (all of them for a negative count),
    answers how many, signals exactly their threads, and leaves everybody else
    queued in the same order, here and at every other address. *)
Theorem futex_wake_exact uaddr count use_bitset bitset s :
  fx_ok s →
  let hit := takez count (filter (matches use_bitset bitset s) (queue uaddr s)) in
  ∃ s', do_private_futex_wake uaddr count use_bitset bitset s = Ret (Z.of_nat (length hit), s') ∧
    queue uaddr s' = filter (λ p, p ∉ hit) (queue uaddr s) ∧ (∀ a, a ≠ uaddr → queue a s' = queue a s) ∧
    fx_g s' = fx_g s ∧ fx_e s' = fx_e s ∧
    (∀ t w, fx_w s !! t = Some w → ∃ w', fx_w s' !! t = Some w' ∧ w_call w' = w_call w ∧
      (w_signalled w' = true ↔ w_signalled w = true ∨ ∃ p e, p ∈ hit ∧ fx_e s !! p = Some e ∧ e_condp e = t)).
Proof.
  intros Hok hit. destruct (wake_spec uaddr count use_bitset bitset s Hok) as (s' & E & Hw & _). fold hit in E, Hw.
  exists s'. split; [done|]. split; [apply Hw|]. split; [intros a; apply (woke_other hit s s' uaddr a Hok Hw); intros p; apply hits_in|].
  split; [apply Hw|]. split; [apply Hw|]. intros t w Ht. pose proof (wk_w _ _ _ Hw t) as Hx. rewrite Ht in Hx.
  destruct Hx as (w' & Hw' & Hs & Hg). exists w'. split; [done|]. split; [by rewrite Hs|]. rewrite Hg, orb_true_iff.
  apply or_iff_compat_l, owned_hit.
Qed.

Lemma filter_plain (s : fx G) (q : list Z) : (∀ p, p ∈ q → is_Some (fx_e s !! p)) → filter (matches false 0 s) q = q.
Proof.
  induction q as [|x q IH]; intros Hq; [done|]. rewrite filter_cons, decide_True; [f_equal; apply IH; intros p Hp; apply Hq; by right|].
  destruct (Hq x) as [e He]; [by left|]. by exists e.
Qed.

Lemma filter_drop (n : nat) (q : list Z) : NoDup q → filter (λ p, p ∉ take n q) q = drop n q.
Proof.
  intros Hd. rewrite <- (take_drop n q) in Hd. apply NoDup_app in Hd as (_ & Hdis & _).
  transitivity (filter (λ p, p ∉ take n q) (take n q ++ drop n q)); [by rewrite take_drop|]. rewrite filter_app.
  rewrite (filter_other _ (drop n q)) by (intros p Hp Hp'; by apply (Hdis p)).
  assert (filter (λ p, p ∉ take n q) (take n q) = []) as ->; [|done].
  apply elem_of_nil_inv. intros p [Hp Hp']%list_elem_of_filter. done.
Qed.

(** Requeueing, from one address to another: the first [nr_wake] waiters
    are woken, the next [nr_requeue] are moved, still asleep, to the end of the
    other queue in the same order, the rest stay; the answer counts the woken. *)
Theorem futex_requeue_exact uaddr uaddr2 nr_wake nr_requeue s :
  fx_ok s → uaddr ≠ uaddr2 → 0 ≤ nr_wake →
  let q := queue uaddr s in
  let woken := take (Z.to_nat nr_wake) q in
  let moved := take (Z.to_nat nr_requeue) (drop (Z.to_nat nr_wake) q) in
  ∃ s', wake_requeue uaddr uaddr2 nr_wake nr_requeue s = Ret (Some (Z.of_nat (length woken)), s') ∧
    queue uaddr s' = drop (Z.to_nat nr_requeue) (drop (Z.to_nat nr_wake) q) ∧
    queue uaddr2 s' = queue uaddr2 s ++ moved ∧
    (∀ p, p ∈ moved → e_uaddr <$> fx_e s' !! p = Some uaddr2) ∧
    (∀ a, a ≠ uaddr → a ≠ uaddr2 → queue a s' = queue a s) ∧
    (∀ t w, fx_w s !! t = Some w → w_signalled w = false → ∃ w', fx_w s' !! t = Some w' ∧
      (w_signalled w' = true ↔ ∃ p e, p ∈ woken ∧ fx_e s !! p = Some e ∧ e_condp e = t)).
Proof.
  intros Hok Hne Hnr q woken moved. destruct (wake_spec uaddr nr_wake false 0 s Hok) as (s1 & E1 & Hw & Hok1).
  assert (hits false 0 nr_wake (queue uaddr s) s = woken) as Hhit.
  { unfold hits, takez. rewrite (proj2 (Z.ltb_ge _ _)) by lia. rewrite filter_plain; [done|]. intros p (e & He & _)%(ok_queued _ Hok). by exists e. }
  rewrite Hhit in E1, Hw.
  assert (queue uaddr s1 = drop (Z.to_nat nr_wake) q) as Hq1.
  { rewrite (wk_q _ _ _ Hw). apply filter_drop, Hok. }
  destruct (requeue_spec (λ v, v <=? 0) uaddr uaddr2 nr_requeue 0 s1 Hok1 Hne) as (s' & E2 & Hr).
  rewrite moving_count, Hq1 in E2, Hr. fold moved in E2, Hr. destruct Hr as [R1 R2 R3 R4 R5 R6 R7].
  assert (∀ a, a ≠ uaddr → queue a s1 = queue a s) as Hoth.
  { intros a. apply (woke_other woken s s1 uaddr a Hok Hw). intros p Hp%elem_of_take. destruct Hp as (i & Hp & _). by eapply list_elem_of_lookup_2. }
  exists s'. split; [unfold wake_requeue; rewrite E1; cbn [mbind outcome_bind]; by rewrite E2|].
  split; [|split; [by rewrite R4, Hoth|split; [done|split; [intros a Ha Hb; by rewrite R5, Hoth|]]]].
  - rewrite Hq1 in R3. apply (app_inv_head moved). rewrite <- R3. unfold moved. by rewrite take_drop.
  - intros t w Ht Hsig. pose proof (wk_w _ _ _ Hw t) as Hx. rewrite Ht in Hx. destruct Hx as (w' & Hw' & _ & Hg). exists w'.
    rewrite R2. split; [done|]. rewrite Hg, Hsig. apply owned_hit.
Qed.

(** ** No wakeup is lost *)

(** An execution without end, in which the host lets every thread that was
    signalled run sooner or later. *)
Record run (σ : nat → fx G) (lab : nat → label) : Prop := {
  run_start : fx_ok (σ 0%nat);
  run_step n : step (σ n) (lab n) (σ (S n));
  run_fair n t w : fx_w (σ n) !! t = Some w → w_signalled w = true → ∃ k ret, (n ≤ k)%nat ∧ lab k = Returned t ret;
}.

Lemma run_ok σ lab n : run σ lab → fx_ok (σ n).
Proof. intros Hr. induction n as [|n IH]; [apply Hr|]. by apply (step_ok (σ n) (lab n)), (run_step _ _ Hr). Qed.

(** No thread sleeps unsignalled on the list of [a] for the word to change
    from [v]. *)
Definition none_waits (a v : Z) s : Prop := ∀ t w p, fx_w s !! t = Some w → waits_for (w_call w) a v → w_signalled w = false →
  p ∈ w_entries w → p ∉ queue a s.

Lemma none_waits_step a v s l s' :
  fx_ok s → step s l s' → get_int a 4 (fx_g s) ≠ Some v → (∀ me c ret, l = Called me c ret → ¬ requeues (fx_g s) c a) →
  none_waits a v s → none_waits a v s'.
Proof.
  intros Hok Hs Hword Hrq Hn. destruct Hs as [me clk c ret s s' Hme E|me w0 r ret s s' Hw0 _ E|g s]; [| |done].
  - pose proof (run_call_answered me clk c s Hok Hme) as Ha. rewrite E in Ha. destruct Ha as [A1 A2 A3 A4 A5].
    intros t w' p Hw' Hwf Hsig Hp Hq. destruct (fx_w s !! t) as [w|] eqn:Hw.
    + destruct (A2 t w Hw) as (w2 & Hw2 & Hsc & Hg). rewrite Hw' in Hw2. injection Hw2 as <-.
      destruct (w_signalled w) eqn:Esig; [rewrite Hg in Hsig by done; done|]. rewrite Hsc in Hwf, Hp. cbn [w_call w_entries] in Hwf, Hp.
      destruct (A4 a p Hq) as [Hin|[Hge|Hr]]; [by apply (Hn t w p)| |by apply (Hrq me c ret)].
      destruct (ok_waiter _ Hok t w Hw) as (_ & _ & Ho). destruct (Ho p Hp) as (e & He & _). apply (ok_entry _ Hok) in He as [Hlt _]. lia.
    + destruct (A3 t w' Hw' Hw) as (_ & _ & Hc & Hwait). rewrite Hc in Hwf. by apply Hword, Hwait.
  - destruct (finish_spec me w0 r s Hok Hw0) as (ret' & s2 & E' & Hf). rewrite E in E'. injection E' as _ <-.
    intros t w p. rewrite (fn_w _ _ _ _ Hf), (fn_q _ _ _ _ Hf), lookup_delete_Some. intros [_ Hw] Hwf Hsig Hp [_ Hq]%list_elem_of_filter.
    by apply (Hn t w p).
Qed.

Lemma wake_all me clk uaddr op count tp u2 v3 s r s' :
  fx_ok s → cmd_of op = LINUX_FUTEX_WAKE → Z.of_nat (length (queue uaddr s)) ≤ s32 count → 0 ≤ r →
  sys_futex me clk uaddr op count tp u2 v3 s = Ret (Some r, s') → queue uaddr s' = [].
Proof.
  intros Hok Hop Hc Hr E.
  assert (∃ b op', Z.land op' LINUX_FUTEX_CMD_MASK = LINUX_FUTEX_WAKE ∧
    ('(ret, s) ← do_private_futex me (Futex uaddr op count tp u2 v3) clk uaddr op' count tp u2 (s32 v3) (set_shared b s);
     Ret (ret, if ret is None then s else set_shared false s)) = Ret (Some r, s')) as (b & op' & Hop' & E').
  { unfold sys_futex in E. destruct (has op LINUX_FUTEX_PRIVATE_FLAG).
    - eexists false, _. split; [|exact E]. rewrite <- Hop. unfold cmd_of. rewrite <- Z.land_assoc. done.
    - destruct (shared_at uaddr (fx_g s)) as [b|]; [by exists b, op|]. injection E as <- _. unfold EFAULT in Hr. lia. }
  unfold do_private_futex in E'. rewrite Hop' in E'. cbn [Z.eqb LINUX_FUTEX_WAKE Pos.eqb] in E'.
  destruct (wake_spec uaddr (s32 count) false 0 (set_shared b s)) as (s2 & E2 & Hw & _); [by apply fx_ok_set_shared|].
  rewrite E2 in E'. cbn [mbind outcome_bind] in E'. injection E' as _ <-.
  change (queue uaddr (set_shared false s2)) with (queue uaddr s2). rewrite (wk_q _ _ _ Hw).
  assert (∀ p, p ∈ queue uaddr s → p ∈ hits false 0 (s32 count) (queue uaddr (set_shared b s)) (set_shared b s)) as Hall.
  { intros p Hp. unfold hits, takez. rewrite filter_plain by (intros x (e & He & _)%(ok_queued _ Hok); by exists e).
    rewrite (proj2 (Z.ltb_ge _ _)) by lia. change (queue uaddr (set_shared b s)) with (queue uaddr s). by rewrite take_ge by lia. }
  apply elem_of_nil_inv. intros p [Hp1 Hp2]%list_elem_of_filter. by apply Hp1, Hall.
Qed.

(** C21: no wakeup is lost. In any execution in which signalled threads get to
    run: once a FUTEX_WAKE for all waiters has been made after the word stopped
    being [v], every thread that slept in a call which only sleeps while the
    word is [v], whether it got there before or after the wake, returns, unless
    the guest has moved it to another futex's queue. *)
Theorem no_lost_wakeup σ lab uaddr v q waker op count tp u2 v3 r :
  run σ lab →
  lab q = Called waker (Futex uaddr op count tp u2 v3) (Some r) → 0 ≤ r →
  cmd_of op = LINUX_FUTEX_WAKE → Z.of_nat (length (queue uaddr (σ q))) ≤ s32 count →
  (∀ n, (q ≤ n)%nat → get_int uaddr 4 (fx_g (σ n)) ≠ Some v) →
  (∀ n me c ret, (q < n)%nat → lab n = Called me c ret → ¬ requeues (fx_g (σ n)) c uaddr) →
  ∀ n t w, (q < n)%nat → fx_w (σ n) !! t = Some w → waits_for (w_call w) uaddr v →
    (∃ k ret, (n ≤ k)%nat ∧ lab k = Returned t ret) ∨
    (∀ p e, p ∈ w_entries w → fx_e (σ n) !! p = Some e → e_uaddr e ≠ uaddr).
Proof.
  intros Hrun Hq Hr Hop Hc Hword Hrq.
  assert (∀ n, (q < n)%nat → none_waits uaddr v (σ n)) as Hnone.
  { intros n Hn. induction n as [|n IH]; [lia|]. destruct (decide (q = n)) as [<-|Hne].
    - pose proof (run_step _ _ Hrun q) as Hs. rewrite Hq in Hs. inversion Hs as [? clk ? ? ? ? Hme E| |]; subst. cbn [run_call] in E.
      intros t w p _ _ _ _. rewrite (wake_all _ _ _ _ _ _ _ _ _ _ _ (run_ok _ _ q Hrun) Hop Hc Hr E). apply not_elem_of_nil.
    - apply (none_waits_step uaddr v (σ n) (lab n)); [by apply (run_ok σ lab)|apply (run_step _ _ Hrun)|apply Hword; lia| |apply IH; lia].
      intros me c ret El. apply (Hrq n me c ret); [lia|done]. }
  intros n t w Hn Hw Hwf. destruct (w_signalled w) eqn:Esig; [left; by apply (run_fair _ _ Hrun n t w)|right].
  intros p e Hp He Hu. apply (Hnone n Hn t w p Hw Hwf Esig Hp). rewrite <- Hu. by apply (ok_waiting _ (run_ok _ _ n Hrun) t w).
Qed.
End Facts.

(** * The promises at work *)

(** The little-endian words at 0x1000 and 0x8000, and an array of two futexes
    for futex_waitv at 0x2000. *)
Definition words (l : list (Z * list Z)) : flat := list_to_map (l ≫= λ '(p, bs), imap (λ i b, (p + Z.of_nat i, b)) bs).
Definition demo_g (v v2 : Z) : flat := words
  [(0x1000, le_store 4 v); (0x8000, le_store 4 v2);
   (0x2000, le_store 8 0 ++ le_store 8 0x1000 ++ le_store 4 2 ++ le_store 4 0);
   (0x2018, le_store 8 0 ++ le_store 8 0x8000 ++ le_store 4 2 ++ le_store 4 0);
   (0x3000, le_store 8 5 ++ le_store 8 0)].
Definition demo_clk : clocks := mk_clocks (100, 0) (10, 0).
Definition demo0 : fx flat := mk_fx (demo_g 0 0) ∅ ∅ ∅ 1 false.

Lemma demo0_ok : fx_ok demo0.
Proof. split; try done; [intros a; apply NoDup_nil_2|by intros a p ?%elem_of_nil]. Qed.

#[export] Instance cond_result_eq : EqDecision cond_result.
Proof. solve_decision. Defined.

Definition awake (me : Z) (s : fx flat) : bool := if fx_w s !! me is None then true else false.

(** The state a call leaves, and one a thread leaves when it wakes up. *)
Definition after (me : Z) (c : call) (s : fx flat) : fx flat := (ret_or (None, s) (run_call me demo_clk c s)).2.
Definition woken (me : Z) (r : cond_result) (s : fx flat) : fx flat :=
  match fx_w s !! me with Some w => (ret_or (0, s) (finish me w r s)).2 | None => s end.

Lemma called me c (s : fx flat) ret :
  awake me s = true → is_ret (run_call me demo_clk c s) = true →
  (ret_or (None, s) (run_call me demo_clk c s)).1 = ret → step s (Called me c ret) (after me c s).
Proof.
  intros H1 H2 <-. apply (step_call me demo_clk); [unfold awake in H1; by destruct (fx_w s !! me)|]. unfold after.
  destruct (run_call me demo_clk c s) as [[ret' s']|]; [done|done].
Qed.

Lemma returned me r (s : fx flat) ret w :
  fx_w s !! me = Some w → bool_decide (r = CondWoken ∨ is_Some (w_until w)) = true → is_ret (finish me w r s) = true →
  (ret_or (0, s) (finish me w r s)).1 = ret → step s (Returned me ret) (woken me r s).
Proof.
  intros H1 H2%bool_decide_eq_true H3 <-. apply (step_return me w r); [done| |].
  - destruct H2 as [->|[u Hu]]; [done|]. destruct r; [done|by cbn; rewrite Hu..].
  - unfold woken. rewrite H1. by destruct (finish me w r s) as [[ret' s']|].
Qed.

(** Thread 1 waits for the word at 0x1000 to change, the word changes, thread 2
    wakes one, thread 1 returns. *)
Definition demo_wait : call := Futex 0x1000 128 0 0 0 0.
Definition demo_wake : call := Futex 0x1000 129 1 0 0 0.
Definition demo1 : fx flat := after 1 demo_wait demo0.
Definition demo2 : fx flat := set_g (demo_g 1 0) demo1.
Definition demo3 : fx flat := after 2 demo_wake demo2.
Definition demo4 : fx flat := woken 1 CondWoken demo3.

Definition demo_run (n : nat) : fx flat :=
  match n with O => demo0 | S O => demo1 | S (S O) => demo2 | S (S (S O)) => demo3 | _ => demo4 end.
Definition demo_lab (n : nat) : label :=
  match n with
  | O => Called 1 demo_wait None
  | S O => Stored
  | S (S O) => Called 2 demo_wake (Some 1)
  | S (S (S O)) => Returned 1 0
  | _ => Stored
  end.

(** The one thread that sleeps. *)
Definition demo_waiter (n : nat) : waiter :=
  default (mk_waiter [] false 0 false None None None false demo_wait) (fx_w (demo_run n) !! 1).

Lemma demo_run_ok : run demo_run demo_lab.
Proof.
  split; [apply demo0_ok| |].
  - intros [|[|[|[|n]]]]; cbn [demo_run demo_lab].
    + apply called; vm_compute; reflexivity.
    + apply step_store.
    + apply called; vm_compute; reflexivity.
    + apply (returned 1 CondWoken demo3 0 (demo_waiter 3)); vm_compute; reflexivity.
    + assert (demo4 = set_g (fx_g demo4) demo4) as E by by destruct demo4. rewrite E at 2. apply step_store.
  - intros n t w. assert ((fx_w (demo_run n) = {[1 := demo_waiter n]} ∨ fx_w (demo_run n) = ∅) ∧
      (w_signalled (demo_waiter n) = true → n = 3%nat)) as [Hsub Hn].
    { destruct n as [|[|[|[|n]]]]; split;
        [right|intros E|left|intros E|left|intros E|left|intros E|right|intros E]; try (vm_compute in E; discriminate E); vm_compute; reflexivity. }
    intros Hw Hsig. destruct Hsub as [E|E]; rewrite E in Hw; [|done]. apply lookup_singleton_Some in Hw as [<- <-]. rewrite Hn by done.
    by exists 3%nat, 0.
Qed.

Lemma demo_word n : (2 ≤ n)%nat → get_int 0x1000 4 (fx_g (demo_run n)) ≠ Some 0.
Proof. destruct n as [|[|[|[|n]]]]; [lia|lia|..]; intros _ E; vm_compute in E; discriminate E. Qed.

Lemma no_lost_wakeup_witness : run demo_run demo_lab ∧ waits_for (w_call (demo_waiter 3)) 0x1000 0 ∧
  ∃ k ret, (3 ≤ k)%nat ∧ demo_lab k = Returned 1 ret.
Proof.
  split; [exact demo_run_ok|]. assert (waits_for (w_call (demo_waiter 3)) 0x1000 0) as Hwf by (by vm_compute; auto). split; [exact Hwf|].
  assert (fx_w (demo_run 3) !! 1 = Some (demo_waiter 3)) as Hw by (vm_compute; reflexivity).
  assert (∃ e, 1 ∈ w_entries (demo_waiter 3) ∧ fx_e (demo_run 3) !! 1 = Some e ∧ e_uaddr e = 0x1000) as (e & Hp & He & Hu).
  { eexists. split; [vm_compute; by left|]. split; [vm_compute; reflexivity|reflexivity]. }
  assert (Z.of_nat (length (queue 0x1000 (demo_run 2))) ≤ s32 1) as Hlen by (vm_compute; discriminate).
  assert (∀ n me c ret, (2 < n)%nat → demo_lab n = Called me c ret → ¬ requeues (fx_g (demo_run n)) c 0x1000) as Hrq.
  { intros [|[|[|[|n]]]] me c ret Hlt El; [lia|lia|lia|discriminate El|discriminate El]. }
  destruct (no_lost_wakeup demo_run demo_lab 0x1000 0 2 2 129 1 0 0 0 1 demo_run_ok eq_refl ltac:(lia) eq_refl Hlen demo_word Hrq
    3 1 (demo_waiter 3) ltac:(lia) Hw Hwf) as [Hk|Hno]; [exact Hk|]. destruct (Hno 1 e Hp He Hu).
Defined.

Lemma futex_queues_sound_witness : fx_ok demo0 ∧ steps demo0 demo1 ∧ fx_ok demo1.
Proof.
  assert (steps demo0 demo1) as Hs.
  { apply (steps_step _ demo0 (Called 1 demo_wait None)); [apply steps_refl|]. apply called; vm_compute; reflexivity. }
  split; [exact demo0_ok|]. split; [exact Hs|]. exact (proj1 (futex_queues_sound demo0 demo1 demo0_ok Hs)).
Defined.

Lemma demo1_ok : fx_ok demo1.
Proof. apply (step_ok demo0 (Called 1 demo_wait None)); [apply demo0_ok|]. apply called; vm_compute; reflexivity. Qed.

Lemma futex_wake_exact_witness : fx_ok demo1 ∧
  ∃ s', do_private_futex_wake 0x1000 1 false 0 demo1 = Ret (1, s') ∧ queue 0x1000 s' = [].
Proof.
  split; [exact demo1_ok|]. destruct (futex_wake_exact 0x1000 1 false 0 demo1 demo1_ok) as (s' & E & Hq & _).
  assert (takez 1 (filter (matches false 0 demo1) (queue 0x1000 demo1)) = [1]) as Eh by (vm_compute; reflexivity).
  cbv zeta in E, Hq. rewrite Eh in E, Hq. exists s'. split; [exact E|]. rewrite Hq. vm_compute. reflexivity.
Defined.

Lemma futex_requeue_exact_witness : fx_ok demo1 ∧
  ∃ s', wake_requeue 0x1000 0x8000 0 1 demo1 = Ret (Some 0, s') ∧ queue 0x1000 s' = [] ∧ queue 0x8000 s' = [1].
Proof.
  split; [exact demo1_ok|].
  destruct (futex_requeue_exact 0x1000 0x8000 0 1 demo1 demo1_ok ltac:(lia) ltac:(lia)) as (s' & E & Hq & Hq2 & _).
  assert (queue 0x1000 demo1 = [1] ∧ queue 0x8000 demo1 = []) as [E1 E2] by (split; vm_compute; reflexivity).
  cbv zeta in E, Hq, Hq2. rewrite E1 in E, Hq, Hq2. rewrite E2 in Hq2. exists s'. split; [exact E|]. split; [exact Hq|exact Hq2].
Defined.

(** ** What the code leaves open *)

(** A waiter whose time runs out as it is being woken reports the timeout: the
    wake was counted, and the thread behind it sleeps on. *)
Theorem timeout_swallows_wake : ∃ s1 s2 s3 s4 w,
  step demo0 (Called 1 (Futex 0x1000 128 0 0x3000 0 0) None) s1 ∧ step s1 (Called 3 demo_wait None) s2 ∧
  step s2 (Called 2 demo_wake (Some 1)) s3 ∧ step s3 (Returned 1 (- ETIMEDOUT)) s4 ∧
  fx_w s4 !! 3 = Some w ∧ w_signalled w = false.
Proof.
  set (s1 := after 1 (Futex 0x1000 128 0 0x3000 0 0) demo0). set (s2 := after 3 demo_wait s1). set (s3 := after 2 demo_wake s2).
  set (s4 := woken 1 CondTimedOut s3).
  exists s1, s2, s3, s4, (default (demo_waiter 3) (fx_w s4 !! 3)).
  split; [apply called; vm_compute; reflexivity|]. split; [apply called; vm_compute; reflexivity|].
  split; [apply called; vm_compute; reflexivity|].
  split; [apply (returned 1 CondTimedOut s3 _ (default (demo_waiter 3) (fx_w s3 !! 1))); vm_compute; reflexivity|].
  split; vm_compute; reflexivity.
Qed.

(** FUTEX_UNLOCK_PI leaves the word as it is: a lock that was once contended is
    never free again. Thread 2 gets it from thread 1, lets it go, and thread 3
    sleeps with nobody left to wake it. *)
Definition lock_pi_call : call := Futex 0x1000 134 0 0 0 0.
Definition unlock_pi_call : call := Futex 0x1000 135 0 0 0 0.
Theorem unlock_pi_keeps_the_lock : ∃ s1 s2 s3 s4 s5 s6,
  step demo0 (Called 1 lock_pi_call (Some 0)) s1 ∧ step s1 (Called 2 lock_pi_call None) s2 ∧
  step s2 (Called 1 unlock_pi_call (Some 0)) s3 ∧ step s3 (Returned 2 0) s4 ∧ step s4 (Called 2 unlock_pi_call (Some 0)) s5 ∧
  step s5 (Called 3 lock_pi_call None) s6 ∧ get_int 0x1000 4 (fx_g s5) = Some (Z.lor FUTEX_WAITERS 1).
Proof.
  set (s1 := after 1 lock_pi_call demo0). set (s2 := after 2 lock_pi_call s1). set (s3 := after 1 unlock_pi_call s2).
  set (s4 := woken 2 CondWoken s3). set (s5 := after 2 unlock_pi_call s4). set (s6 := after 3 lock_pi_call s5).
  exists s1, s2, s3, s4, s5, s6.
  split; [apply called; vm_compute; reflexivity|]. split; [apply called; vm_compute; reflexivity|].
  split; [apply called; vm_compute; reflexivity|].
  split; [apply (returned 2 CondWoken s3 _ (default (demo_waiter 3) (fx_w s3 !! 2))); vm_compute; reflexivity|].
  split; [apply called; vm_compute; reflexivity|]. split; [apply called; vm_compute; reflexivity|]. vm_compute. reflexivity.
Qed.

(** Of two wakers of a futex_waitv the last names the futex, not the first. *)
Theorem waitv_names_the_last : ∃ s1 s2 s3 s4,
  step demo0 (Called 1 (Futex_waitv 0x2000 2 0 0 0) None) s1 ∧ step s1 (Called 2 demo_wake (Some 1)) s2 ∧
  step s2 (Called 2 (Futex 0x8000 129 1 0 0 0) (Some 1)) s3 ∧ step s3 (Returned 1 1) s4.
Proof.
  set (s1 := after 1 (Futex_waitv 0x2000 2 0 0 0) demo0). set (s2 := after 2 demo_wake s1).
  set (s3 := after 2 (Futex 0x8000 129 1 0 0 0) s2). exists s1, s2, s3, (woken 1 CondWoken s3).
  split; [apply called; vm_compute; reflexivity|]. split; [apply called; vm_compute; reflexivity|].
  split; [apply called; vm_compute; reflexivity|].
  apply (returned 1 CondWoken s3 _ (default (demo_waiter 3) (fx_w s3 !! 1))); vm_compute; reflexivity.
Qed.

(** A thread asleep on a shared futex has let the lock go with futex_shared
    set: a futex_wait on private memory made meanwhile takes it for its own,
    and reports a wake nobody made when its interval is over. *)
Theorem shared_flag_leaks : ∃ s1 s2 s3,
  step demo0 (Called 1 (Futex 0x8000 0 0 0 0 0) None) s1 ∧
  step s1 (Called 2 (Futex_wait 0x1000 0 0xffffffff 2 0 0) None) s2 ∧ step s2 (Returned 2 0) s3 ∧
  w_signalled (default (demo_waiter 0) (fx_w s2 !! 2)) = false ∧
  ∃ w, fx_w s2 !! 2 = Some w ∧ cond_return w CondTimedOut = 0 ∧ may_end w CondTimedOut ∧ w_ts w = None.
Proof.
  set (s1 := after 1 (Futex 0x8000 0 0 0 0 0) demo0). set (s2 := after 2 (Futex_wait 0x1000 0 0xffffffff 2 0 0) s1).
  exists s1, s2, (woken 2 CondTimedOut s2).
  split; [apply called; vm_compute; reflexivity|]. split; [apply called; vm_compute; reflexivity|].
  split; [apply (returned 2 CondTimedOut s2 _ (default (demo_waiter 3) (fx_w s2 !! 2))); vm_compute; reflexivity|].
  split; [vm_compute; reflexivity|]. exists (default (demo_waiter 3) (fx_w s2 !! 2)).
  split; [vm_compute; reflexivity|]. split; [vm_compute; reflexivity|]. split; [vm_compute; discriminate|vm_compute; reflexivity].
Qed.

(** Two waiters requeued onto their own futex with a negative count are passed
    from the head of the list to its end for ever, with the lock held. *)
Theorem requeue_onto_itself (s : fx flat) a x y fuel :
  queue a s = [x; y] → x ≠ y → ∀ val2 num, val2 < 0 →
  requeue_loop fuel (λ v, v =? 0) a a (Some x) (Some y) val2 num s = Stop OutOfFuel.
Proof.
  revert s x y. induction fuel as [|fuel IH]; intros s x y Hq Hne val2 num Hv; cbn [requeue_loop];
    rewrite (proj2 (Z.eqb_neq val2 0)) by lia; [done|].
  assert (queue a (move_tail x a s) = [y; x]) as Hq'.
  { rewrite queue_move, decide_True, Hq by done. rewrite !filter_cons, filter_nil, decide_False, decide_True by naive_solver. done. }
  rewrite Hq'. cbn [mbind option_bind next_in]. rewrite Z.eqb_refl. cbn [head]. apply IH; [done|done|lia].
Qed.

(** The shift flag of FUTEX_WAKE_OP's operand stops the process. *)
Theorem oparg_shift_panics : run_call 1 demo_clk (Futex 0x1000 133 1 0 0x8000 (Z.shiftl 8 28)) demo0 = Stop Panicked.
Proof. vm_compute. reflexivity. Qed.
