(* ===== verification/SysV.v ===== *)
(** System V IPC objects, src/ipc/sysv.c: a directory for each IPC namespace,
    with a file of bookkeeping and one of contents for each object and a
    symbolic link for each key. Separate host processes work on it at the same
    time, so an operation is a sequence of file system calls here, and what
    they promise each other is stated of every interleaving. *)

From S2P Require Import Prelude.

(** * Constants and data, include/sysv.h and include/linux/ipc.h *)

Inductive sysv_kind := SYSV_SHM | SYSV_SEM | SYSV_MSG.

#[export] Instance sysv_kind_eq : EqDecision sysv_kind.
Proof. solve_decision. Defined.

Definition kind_no (k : sysv_kind) : Z := match k with SYSV_SHM => 0 | SYSV_SEM => 1 | SYSV_MSG => 2 end.

#[export] Instance sysv_kind_countable : Countable sysv_kind.
Proof.
  apply (inj_countable' kind_no (λ n, if n =? 0 then SYSV_SHM else if n =? 1 then SYSV_SEM else SYSV_MSG)). by intros [].
Defined.

Definition SYSV_MAGIC : Z := 0x76737973.
Definition SYSV_MAX_ID : Z := 4096.
Definition SYSV_R : Z := 4.
Definition SYSV_W : Z := 2.

Definition LINUX_IPC_PRIVATE : Z := 0.
Definition LINUX_IPC_CREAT : Z := 512.
Definition LINUX_IPC_EXCL : Z := 1024.
Definition LINUX_IPC_NOWAIT : Z := 2048.

(** struct sysv_meta; a file just extended to its size is all zeros. *)
Record sysv_meta := mk_meta {
  m_magic : Z; m_kind : Z; m_key : Z; m_mode : Z;
  m_uid : Z; m_gid : Z; m_cuid : Z; m_cgid : Z;
  m_size : Z; m_host_id : Z; m_nattch : Z; m_cpid : Z; m_lpid : Z; m_removed : Z;
  m_atime : Z; m_dtime : Z; m_ctime : Z; m_otime : Z;
}.
Definition zero_meta : sysv_meta := mk_meta 0 0 0 0 0 0 0 0 0 0 0 0 0 0 0 0 0 0.

(** The guest credentials of a process, its host pid and the time. *)
Record ctx := mk_ctx { euid : Z; egid : Z; getpid : Z; now : Z }.

Definition sysv_perm_ok (c : ctx) (m : sysv_meta) (want : Z) : bool :=
  if euid c =? 0 then true
  else
    let bits := if (m_uid m =? euid c) || (m_cuid m =? euid c) then Z.shiftr (m_mode m) 6
                else if (m_gid m =? egid c) || (m_cgid m =? egid c) then Z.shiftr (m_mode m) 3
                else m_mode m in
    Z.land bits want =? want.

Definition sysv_owner_ok (c : ctx) (m : sysv_meta) : bool := (euid c =? 0) || (m_uid m =? euid c) || (m_cuid m =? euid c).

Definition sysv_host_key (ino id : Z) : Z :=
  let h := Z.lxor (u64 (ino * 1099511628211)) (u64 (id + 0x9e3779b97f4a7c15)) in
  let h := Z.lxor h (Z.shiftr h 29) in
  let h := u64 (h * 0xbf58476d1ce4e5b9) in
  let h := Z.lxor h (Z.shiftr h 32) in
  let k := Z.land h 0x7fffffff in
  if k =? 0 then 1 else k.

(** * The file system calls *)

Inductive created := Created (ino : Z) | Exists | Failed (errno : Z).

(** The calls on one namespace's directory, with the type of their answers; an
    [option Z] that is an error number is [None] for success. A file that is
    mapped keeps being itself after its name is gone, so the mapped accesses
    are by inode. [Locked] is what is done to a data file between flock and
    close; [ReadDir] is the ids of the bookkeeping files of a kind. *)
Inductive op : Type → Type :=
| Mkdir : op (option Z)
| ReadLink (k : sysv_kind) (key : Z) : op (option Z)
| OpenMeta (k : sysv_kind) (id : Z) : op (option Z)
| Mmap (ino : Z) : op (option Z)
| ReadMeta (ino : Z) : op sysv_meta
| WriteMeta (ino : Z) (f : sysv_meta → sysv_meta) : op unit
| CreateMeta (k : sysv_kind) (id : Z) : op created
| Ftruncate (ino : Z) : op (option Z)
| CreateData (k : sysv_kind) (id size : Z) : op (option Z)
| Symlink (k : sysv_kind) (key id : Z) : op (option Z)
| UnlinkKey (k : sysv_kind) (key : Z) : op (option Z)
| UnlinkMeta (k : sysv_kind) (id : Z) : op (option Z)
| UnlinkData (k : sysv_kind) (id : Z) : op (option Z)
| Locked (k : sysv_kind) (id : Z) (X : Type) (f : list Z → X * list Z) : op (Z + X)
| ReadDir (k : sysv_kind) : op (list Z)
| SigPending : op bool.

(** A process between two calls: what it does next with the answer. [Spin] is
    a loop that has used up its turns. *)
Inductive prog (A : Type) : Type :=
| Done (a : A)
| Do {X : Type} (o : op X) (f : X → prog A)
| Spin.
Arguments Done {A} a. Arguments Do {A X} o f. Arguments Spin {A}.

Fixpoint prog_bind {A B} (f : A → prog B) (p : prog A) : prog B :=
  match p with
  | Done a => f a
  | Do o g => Do o (λ x, prog_bind f (g x))
  | Spin => Spin
  end.
#[export] Instance prog_ret : MRet prog := λ A a, Done a.
#[export] Instance prog_mbind : MBind prog := λ A B f p, prog_bind f p.
Definition call {X} (o : op X) : prog X := Do o Done.

(** * The operations *)

(** here(): a Linux error number, or 0. *)
Definition here : prog Z := e ← call Mkdir; Done (match e with None => 0 | Some e => - e end).

(** map_meta. *)
Definition map_meta (ino : Z) : prog Z := e ← call (Mmap ino); Done (match e with None => 0 | Some e => - e end).

(** The answer, and the object when it is not an error. *)
Definition sysv_open (k : sysv_kind) (id : Z) : prog (Z * Z) :=
  if (id <? 0) || (id >=? SYSV_MAX_ID) then Done (- EINVAL, -1)
  else
    r ← here;
    if r <? 0 then Done (r, -1)
    else
      ino ← call (OpenMeta k id);
      match ino with
      | None => Done (- EINVAL, -1)
      | Some ino =>
          r ← map_meta ino;
          if r <? 0 then Done (r, -1)
          else
            m ← call (ReadMeta ino);
            if (m_magic m =? SYSV_MAGIC) && (m_kind m =? kind_no k) then Done (0, ino) else Done (- EINVAL, -1)
      end.

Definition destroy_object (k : sysv_kind) (id errno : Z) : prog Z :=
  r ← call (UnlinkMeta k id);
  let errno := default errno r in
  r ← call (UnlinkData k id);
  Done (default errno r).

(** alloc_id, from [id] on, [n] ids left: the id and the new file. *)
Fixpoint alloc_id (n : nat) (k : sysv_kind) (id : Z) : prog (Z * Z) :=
  match n with
  | O => Done (- ENOSPC, -1)
  | S n =>
      r ← call (CreateMeta k id);
      match r with
      | Created ino =>
          e ← call (Ftruncate ino);
          match e with
          | None => Done (id, ino)
          | Some e => _ ← call (UnlinkMeta k id); Done (- e, -1)
          end
      | Exists => alloc_id n k (id + 1)
      | Failed e => Done (- e, -1)
      end
  end.

Section Get.
Variable (c : ctx) (k : sysv_kind) (key size l_flags : Z).

Definition want : Z :=
  Z.lor (if has l_flags 0x124 then SYSV_R else 0) (if has l_flags 0x92 then SYSV_W else 0).

Definition get_found (id : Z) : prog (Z * Z) :=
  if has l_flags LINUX_IPC_CREAT && has l_flags LINUX_IPC_EXCL then Done (- EEXIST, -1)
  else
    '(r, ino) ← sysv_open k id;
    if r <? 0 then Done (r, -1)
    else
      m ← call (ReadMeta ino);
      if negb (sysv_perm_ok c m want) then Done (- EACCES, -1)
      else if size >? m_size m then Done (- EINVAL, -1)
      else Done (id, ino).

Definition new_meta : sysv_meta :=
  mk_meta SYSV_MAGIC (kind_no k) key (Z.land l_flags 0x1ff) (euid c) (egid c) (euid c) (egid c)
    size (-1) 0 (getpid c) 0 0 0 0 (now c) 0.

(** From the symbolic link on; errno is whatever failed last. *)
Definition get_bind (again : prog (Z * Z)) (id ino : Z) : prog (Z * Z) :=
  if key =? LINUX_IPC_PRIVATE then Done (id, ino)
  else
    r ← call (Symlink k key id);
    match r with
    | None => Done (id, ino)
    | Some e =>
        e ← destroy_object k id e;
        if e =? EEXIST then again else Done (- e, -1)
    end.

Definition get_fill (again : prog (Z * Z)) (id ino : Z) : prog (Z * Z) :=
  r ← map_meta ino;
  if r <? 0 then _ ← destroy_object k id 0; Done (r, -1)
  else _ ← call (WriteMeta ino (λ _, new_meta)); get_bind again id ino.

Definition get_data (again : prog (Z * Z)) (id ino : Z) : prog (Z * Z) :=
  if bool_decide (k = SYSV_SEM) then get_fill again id ino
  else
    e ← call (CreateData k id (if bool_decide (k = SYSV_SHM) then size else 0));
    match e with
    | None => get_fill again id ino
    | Some e => _ ← destroy_object k id 0; Done (- e, -1)
    end.

Definition get_create (again : prog (Z * Z)) : prog (Z * Z) :=
  '(id, ino) ← alloc_id (Z.to_nat SYSV_MAX_ID) k 0;
  if id <? 0 then Done (id, -1) else get_data again id ino.

(** From the label on. *)
Fixpoint get_again (fuel : nat) : prog (Z * Z) :=
  match fuel with
  | O => Spin
  | S fuel =>
      if key =? LINUX_IPC_PRIVATE then get_create (get_again fuel)
      else
        id ← call (ReadLink k key);
        match id with
        | Some id => get_found id
        | None => if has l_flags LINUX_IPC_CREAT then get_create (get_again fuel) else Done (- ENOENT, -1)
        end
  end.

Definition sysv_get (fuel : nat) : prog (Z * Z) :=
  r ← here;
  if r <? 0 then Done (r, -1) else get_again fuel.
End Get.

Definition set_removed (c : ctx) (m : sysv_meta) : sysv_meta :=
  mk_meta (m_magic m) (m_kind m) (m_key m) (m_mode m) (m_uid m) (m_gid m) (m_cuid m) (m_cgid m) (m_size m) (m_host_id m)
    (m_nattch m) (m_cpid m) (m_lpid m) 1 (m_atime m) (m_dtime m) (now c) (m_otime m).

(** [ino] is the object the caller has open. *)
Definition sysv_remove (c : ctx) (k : sysv_kind) (id ino : Z) : prog Z :=
  r ← here;
  if r <? 0 then Done r
  else
    m ← call (ReadMeta ino);
    _ ← (if m_key m =? LINUX_IPC_PRIVATE then Done None else call (UnlinkKey k (m_key m)));
    _ ← call (WriteMeta ino (set_removed c));
    _ ← destroy_object k id 0;
    Done 0.

(** sysv_list: the bookkeeping of every object that can be opened, with the id
    the guest was given in place of the host's. *)
Definition with_host_id (id : Z) (m : sysv_meta) : sysv_meta :=
  mk_meta (m_magic m) (m_kind m) (m_key m) (m_mode m) (m_uid m) (m_gid m) (m_cuid m) (m_cgid m) (m_size m) id
    (m_nattch m) (m_cpid m) (m_lpid m) (m_removed m) (m_atime m) (m_dtime m) (m_ctime m) (m_otime m).

Fixpoint list_ids (k : sysv_kind) (ids : list Z) : prog (list sysv_meta) :=
  match ids with
  | [] => Done []
  | id :: ids =>
      '(r, ino) ← sysv_open k id;
      if r <? 0 then list_ids k ids
      else m ← call (ReadMeta ino); l ← list_ids k ids; Done (with_host_id id m :: l)
  end.

Definition sysv_list (k : sysv_kind) : prog (list sysv_meta) :=
  r ← here;
  if r <? 0 then Done [] else ids ← call (ReadDir k); list_ids k ids.

(** How many there are, the highest id and the sum of the sizes. *)
Definition sysv_count (k : sysv_kind) : prog (Z * Z * Z) :=
  l ← sysv_list k;
  Done (foldl (λ '(used, high, total) m, (used + 1, Z.max high (m_host_id m), u64 (total + m_size m))) (0, 0, 0)
          (take (Z.to_nat SYSV_MAX_ID) l)).

(** * What the calls do *)

(** One namespace's directory: the links, by kind and key; the names of the
    bookkeeping files, and the files themselves; the contents files. *)
Record fs := mk_fs {
  f_key : gmap (sysv_kind * Z) Z;
  f_name : gmap (sysv_kind * Z) Z;
  f_meta : gmap Z sysv_meta;
  f_data : gmap (sysv_kind * Z) (list Z);
  f_next : Z;
}.

Definition set_key (f : gmap (sysv_kind * Z) Z → gmap (sysv_kind * Z) Z) (s : fs) : fs :=
  mk_fs (f (f_key s)) (f_name s) (f_meta s) (f_data s) (f_next s).
Definition set_name (f : gmap (sysv_kind * Z) Z → gmap (sysv_kind * Z) Z) (s : fs) : fs :=
  mk_fs (f_key s) (f (f_name s)) (f_meta s) (f_data s) (f_next s).
Definition set_meta (f : gmap Z sysv_meta → gmap Z sysv_meta) (s : fs) : fs :=
  mk_fs (f_key s) (f_name s) (f (f_meta s)) (f_data s) (f_next s).
Definition set_data (f : gmap (sysv_kind * Z) (list Z) → gmap (sysv_kind * Z) (list Z)) (s : fs) : fs :=
  mk_fs (f_key s) (f_name s) (f_meta s) (f (f_data s)) (f_next s).
Definition new_file (k : sysv_kind) (id : Z) (s : fs) : fs :=
  mk_fs (f_key s) (<[(k, id) := f_next s]> (f_name s)) (<[f_next s := zero_meta]> (f_meta s)) (f_data s) (f_next s + 1).

(** unlink of a name that is there, or not. *)
Definition gone {A} (o : option A) : option Z := match o with Some _ => None | None => Some ENOENT end.

(** The answers, with the state after: what the file system does when it can,
    and, for the calls that need a resource, the failures it may answer with
    instead. The error numbers are Linux's already. *)
Definition exec {X} (o : op X) (s : fs) : X → fs → Prop :=
  match o in op X return X → fs → Prop with
  | Mkdir => λ r s', s' = s ∧ ∀ e, r = Some e → 0 < e
  | ReadLink k key => λ r s', s' = s ∧ r = f_key s !! (k, key)
  | OpenMeta k id => λ r s', s' = s ∧ (r = f_name s !! (k, id) ∨ r = None)
  | Mmap ino => λ r s', s' = s ∧ ∀ e, r = Some e → 0 < e
  | ReadMeta ino => λ m s', s' = s ∧ f_meta s !! ino = Some m
  | WriteMeta ino f => λ _ s', s' = set_meta (alter f ino) s
  | CreateMeta k id => λ r s',
      match r with
      | Created ino => f_name s !! (k, id) = None ∧ ino = f_next s ∧ s' = new_file k id s
      | Exists => f_name s !! (k, id) ≠ None ∧ s' = s
      | Failed e => 0 < e ∧ s' = s
      end
  | Ftruncate ino => λ r s', s' = s ∧ ∀ e, r = Some e → 0 < e
  | CreateData k id size => λ r s',
      match r with
      | None => s' = set_data <[(k, id) := replicate (Z.to_nat size) 0]> s
      | Some e => 0 < e ∧ s' = s
      end
  | Symlink k key id => λ r s',
      match r with
      | None => f_key s !! (k, key) = None ∧ s' = set_key <[(k, key) := id]> s
      | Some e => 0 < e ∧ s' = s ∧ (e = EEXIST → f_key s !! (k, key) ≠ None)
      end
  | UnlinkKey k key => λ r s', r = gone (f_key s !! (k, key)) ∧ s' = set_key (delete (k, key)) s
  | UnlinkMeta k id => λ r s', r = gone (f_name s !! (k, id)) ∧ s' = set_name (delete (k, id)) s
  | UnlinkData k id => λ r s', r = gone (f_data s !! (k, id)) ∧ s' = set_data (delete (k, id)) s
  | Locked k id X f => λ r s',
      match r with
      | inr x => ∃ b, f_data s !! (k, id) = Some b ∧ x = (f b).1 ∧ s' = set_data <[(k, id) := (f b).2]> s
      | inl e => e < 0 ∧ s' = s ∧ (f_data s !! (k, id) = None → e = - ENOENT)
      end
  | ReadDir k => λ l s', s' = s ∧ (l = [] ∨ NoDup l ∧ ∀ id, id ∈ l ↔ f_name s !! (k, id) ≠ None)
  | SigPending => λ _ s', s' = s
  end.

(** Processes that work on the directory at the same time, one call of one of
    them at a time. *)
Record conf (A : Type) := mk_conf { c_fs : fs; c_procs : gmap Z (prog A) }.
Arguments mk_conf {A}. Arguments c_fs {A}. Arguments c_procs {A}.

Inductive cstep {A} : conf A → conf A → Prop :=
| cstep_do i X (o : op X) f x s s' ps : ps !! i = Some (Do o f) → exec o s x s' →
    cstep (mk_conf s ps) (mk_conf s' (<[i := f x]> ps)).

Inductive csteps {A} (c0 : conf A) : conf A → Prop :=
| csteps_refl : csteps c0 c0
| csteps_step c c' : csteps c0 c → cstep c c' → csteps c0 c'.

(** * Rely and guarantee

    What a process in sysv_get may count on while others run, and what it owes
    them, apart from the others' code. *)

Record job := mk_job { j_ctx : ctx; j_kind : sysv_kind; j_key : Z; j_size : Z; j_flags : Z }.

(** What a process knows: the id it has taken and not yet published, with the
    file and whether it is filled in; the id its key is bound to; whether it was
    the one that bound it. *)
Record ghost := mk_ghost { g_hold : option (Z * Z * bool); g_bound : option Z; g_made : bool }.

(** The bookkeeping of an id's object is there and filled in, under a key; of
    the contents file it says nothing. *)
Definition registered (s : fs) (k : sysv_kind) (key id : Z) : Prop :=
  ∃ ino m, f_name s !! (k, id) = Some ino ∧ f_meta s !! ino = Some m ∧
    m_magic m = SYSV_MAGIC ∧ m_kind m = kind_no k ∧ m_key m = key.

Record fs_ok (s : fs) : Prop := {
  fo_file k id ino : f_name s !! (k, id) = Some ino → ino < f_next s ∧ is_Some (f_meta s !! ino);
  fo_inj a b ino : f_name s !! a = Some ino → f_name s !! b = Some ino → a = b;
  fo_key k key id : f_key s !! (k, key) = Some id → registered s k key id;
}.

(** What [g] says of the directory. *)
Record knows (j : job) (g : ghost) (s : fs) : Prop := {
  kn_hold id ino w : g_hold g = Some (id, ino, w) → f_name s !! (j_kind j, id) = Some ino ∧
    (∀ key, f_key s !! (j_kind j, key) ≠ Some id) ∧
    (w = true → registered s (j_kind j) (j_key j) id);
  kn_bound id : g_bound g = Some id → f_key s !! (j_kind j, j_key j) = Some id;
  kn_made : g_made g = true → g_bound g ≠ None;
}.

(** The changes a process makes: none, taking a free id, filling in a file it
    has taken, contents, publishing, giving back. *)
Inductive guar (j : job) : fs → ghost → fs → ghost → Prop :=
| gu_look s h m b b' : (∀ id, b' = Some id → b = Some id ∨ f_key s !! (j_kind j, j_key j) = Some id) → (b ≠ None → b' = b) →
    guar j s (mk_ghost h b m) s (mk_ghost h b' m)
| gu_take s b m id : f_name s !! (j_kind j, id) = None →
    guar j s (mk_ghost None b m) (new_file (j_kind j) id s) (mk_ghost (Some (id, f_next s, false)) b m)
| gu_fill s b m id ino x w : m_magic x = SYSV_MAGIC → m_kind x = kind_no (j_kind j) → m_key x = j_key j →
    guar j s (mk_ghost (Some (id, ino, w)) b m) (set_meta (alter (λ _, x) ino) s) (mk_ghost (Some (id, ino, true)) b m)
| gu_data s f g : guar j s g (set_data f s) g
| gu_bind s b m id ino : f_key s !! (j_kind j, j_key j) = None →
    guar j s (mk_ghost (Some (id, ino, true)) b m) (set_key <[(j_kind j, j_key j) := id]> s) (mk_ghost None (Some id) true)
| gu_drop s b m id ino w :
    guar j s (mk_ghost (Some (id, ino, w)) b m) (set_name (delete (j_kind j, id)) s) (mk_ghost None b m).

Lemma registered_other s s' k key id :
  registered s k key id → (∀ ino, f_name s !! (k, id) = Some ino → f_name s' !! (k, id) = Some ino ∧ f_meta s' !! ino = f_meta s !! ino) →
  registered s' k key id.
Proof. intros (ino & m & Hn & Hm & H1) Hs. destruct (Hs ino Hn) as [Hn' Hm']. exists ino, m. by rewrite Hm'. Qed.

(** A process that keeps to the guarantee leaves the directory in order, and
    keeps its own knowledge true. *)
Lemma guar_own j s g s' g' : fs_ok s → knows j g s → guar j s g s' g' → fs_ok s' ∧ knows j g' s'.
Proof.
  intros [F1 F2 F3] [K1 K2 K3] Hg.
  destruct Hg as [s h m b b' Hb Hb'|s b m id Hnone|s b m id ino x w Hx1 Hx2 Hx3|s f g|s b m id ino Hkey|s b m id ino w]; cbn in *.
  - split; [done|]. split; cbn; [done| |].
    + intros id Hid. destruct (Hb id Hid) as [->|?]; [by apply K2|done].
    + intros Hm. by rewrite Hb'; [apply K3|apply K3].
  - assert (∀ a ino, f_name s !! a = Some ino → ino ≠ f_next s) as Hfresh by (intros [k' id'] ino Hn ->; apply F1 in Hn; lia).
    assert (∀ k key id', registered s k key id' → registered (new_file (j_kind j) id s) k key id') as Hc.
    { intros k key id' Hc. apply (registered_other s); [done|]. intros ino Hn. cbn. rewrite lookup_insert_ne by congruence.
      split; [done|]. apply lookup_insert_ne. by apply not_eq_sym, (Hfresh _ _ Hn). }
    split; [split; cbn|split; cbn].
    + intros k id' ino. rewrite lookup_insert_Some. intros [[_ <-]|[_ Hn]]; [rewrite lookup_insert_eq; split; [lia|done]|].
      destruct (F1 _ _ _ Hn) as [Hlt Hm]. split; [lia|]. rewrite lookup_insert_ne by lia. done.
    + intros a a' ino. rewrite !lookup_insert_Some. intros [[<- <-]|[Ha Hn]] [[<- E]|[Ha' Hn']]; [done| | |by apply (F2 _ _ ino)].
      * by apply Hfresh in Hn'.
      * subst. by apply Hfresh in Hn.
    + intros k key id' Hk. by apply Hc, F3.
    + intros id' ino w [= <- <- <-]. rewrite lookup_insert_eq. split; [done|]. split; [|done].
      intros key Hk. destruct (F3 _ _ _ Hk) as (ino & m' & Hn & _). congruence.
    + done.
    + done.
  - destruct (K1 id ino w eq_refl) as (Hn & Hnk & _). destruct (F1 _ _ _ Hn) as (_ & m0 & Hm0).
    assert (registered (set_meta (alter (λ _, x) ino) s) (j_kind j) (j_key j) id) as Hcomp.
    { exists ino, x. cbn. rewrite lookup_alter_eq, Hm0. done. }
    split; [split; cbn|split; cbn].
    + intros k id' ino' Hn'. destruct (F1 _ _ _ Hn') as (Hlt & m' & Hm'). split; [done|]. destruct (decide (ino' = ino)) as [->|Hne];
        [rewrite lookup_alter_eq, Hm'; by eexists|rewrite lookup_alter_ne, Hm' by done; by eexists].
    + done.
    + intros k key id' Hk. apply (registered_other s); [by apply F3|]. intros ino' Hn'. split; [done|]. cbn. apply lookup_alter_ne.
      intros ->. pose proof (F2 _ _ _ Hn Hn') as [= <- <-]. by apply (Hnk key).
    + intros id' ino' w' [= <- <- <-]. done.
    + done.
    + done.
  - split; [by split|]. by split.
  - destruct (K1 id ino true eq_refl) as (Hn & Hnk & Hc). split; [split; cbn|split; cbn].
    + done.
    + done.
    + intros k key id'. rewrite lookup_insert_Some. intros [[[= <- <-] <-]|[_ Hk]]; [by apply Hc|by apply F3].
    + done.
    + intros id' [= <-]. by rewrite lookup_insert_eq.
    + done.
  - destruct (K1 id ino w eq_refl) as (Hn & Hnk & _). split; [split; cbn|split; cbn].
    + intros k id' ino'. rewrite lookup_delete_Some. intros [_ Hn']. by apply (F1 k id').
    + intros a a' ino'. rewrite !lookup_delete_Some. intros [_ ?] [_ ?]. by apply (F2 _ _ ino').
    + intros k key id' Hk. apply (registered_other s); [by apply F3|]. intros ino' Hn'. split; [|done]. cbn. apply lookup_delete_Some.
      split; [|done]. intros [= <- <-]. by apply (Hnk key).
    + done.
    + done.
    + done.
Qed.

(** And of the others'. *)
Definition apart (j : job) (g : ghost) (j' : job) (g' : ghost) : Prop :=
  (∀ id ino w id' ino' w', g_hold g = Some (id, ino, w) → g_hold g' = Some (id', ino', w') → (j_kind j, id) ≠ (j_kind j', id')) ∧
  (g_made g = true → g_made g' = true → (j_kind j, j_key j) ≠ (j_kind j', j_key j')).

Lemma guar_other j s g s' g' j2 g2 :
  fs_ok s → knows j g s → knows j2 g2 s → apart j g j2 g2 → guar j s g s' g' → knows j2 g2 s' ∧ apart j g' j2 g2.
Proof.
  intros [F1 F2 F3] [K1 K2 K3] [L1 L2 L3] [A1 A2] Hg.
  destruct Hg as [s h m b b' Hb Hb'|s b m id Hnone|s b m id ino x w Hx1 Hx2 Hx3|s f g|s b m id ino Hkey|s b m id ino w]; cbn in *.
  - done.
  - assert (∀ id2 ino2, f_name s !! (j_kind j2, id2) = Some ino2 → (j_kind j, id) ≠ (j_kind j2, id2) ∧ ino2 ≠ f_next s) as Hd.
    { intros id2 ino2 Hn. split; [congruence|]. apply F1 in Hn. lia. }
    split; [split; cbn; [|done|done]|split; cbn; [|done]].
    + intros id2 ino2 w2 Hh. destruct (L1 id2 ino2 w2 Hh) as (Hn & Hnk & Hc). destruct (Hd id2 ino2 Hn) as [Hne Hni].
      rewrite lookup_insert_ne by done. split; [done|]. split; [done|]. intros Hw. apply (registered_other s); [by apply Hc|].
      intros ino' Hn'. cbn. rewrite lookup_insert_ne by done. split; [done|]. apply lookup_insert_ne. congruence.
    + intros id1 ino1 w1 id2 ino2 w2 [= <- <- <-] Hh. by apply (Hd id2 ino2), (L1 id2 ino2 w2).
  - destruct (K1 id ino w eq_refl) as (Hn0 & Hnk0 & _). split; [split; cbn; [|done|done]|split; cbn; [|done]].
    + intros id2 ino2 w2 Hh. destruct (L1 id2 ino2 w2 Hh) as (Hn & Hnk & Hc). split; [done|]. split; [done|].
      intros Hw. apply (registered_other s); [by apply Hc|]. intros ino' Hn'. split; [done|]. cbn. apply lookup_alter_ne. intros ->.
      pose proof (F2 _ _ _ Hn0 Hn') as E. by apply (A1 id ino' w id2 ino2 w2).
    + intros id1 ino1 w1 id2 ino2 w2 [= <- <- <-]. by apply (A1 id ino w).
  - split; [by split|done].
  - destruct (K1 id ino true eq_refl) as (Hn0 & Hnk0 & Hc0). split; [split; cbn|split; cbn].
    + intros id2 ino2 w2 Hh. destruct (L1 id2 ino2 w2 Hh) as (Hn & Hnk & Hc). split; [done|]. split; [|done].
      intros key. rewrite lookup_insert_Some. intros [[[= Ek <-] <-]|[_ Hk]]; [|by apply (Hnk key)].
      apply (A1 id ino true id ino2 w2 eq_refl Hh). by rewrite Ek.
    + intros id2 Hb2. apply L2 in Hb2. rewrite lookup_insert_ne; [done|]. congruence.
    + done.
    + done.
    + intros _ Hm2 E. apply L3 in Hm2. destruct (g_bound g2) as [id2|] eqn:Eb; [|done]. specialize (L2 id2 eq_refl). rewrite <- E in L2. congruence.
  - destruct (K1 id ino w eq_refl) as (Hn0 & Hnk0 & _). split; [split; cbn; [|done|done]|split; cbn; [done|done]].
    intros id2 ino2 w2 Hh. destruct (L1 id2 ino2 w2 Hh) as (Hn & Hnk & Hc).
    assert ((j_kind j, id) ≠ (j_kind j2, id2)) as Hne by (by apply (A1 id ino w id2 ino2 w2)).
    rewrite lookup_delete_ne by done. split; [done|]. split; [done|]. intros Hw. apply (registered_other s); [by apply Hc|].
    intros ino' Hn'. cbn. by rewrite lookup_delete_ne.
Qed.

(** A program that keeps to the guarantee at every call, whatever the others
    do in between, never runs out of turns, and ends with [Q]. *)
Fixpoint ok {A} (j : job) (Q : A → ghost → Prop) (p : prog A) (g : ghost) : Prop :=
  match p with
  | Done a => Q a g
  | Spin => False
  | Do o f => ∀ s x s', fs_ok s → knows j g s → exec o s x s' → ∃ g', guar j s g s' g' ∧ ok j Q (f x) g'
  end.
Arguments ok {A} j Q p g : simpl never.

Lemma guar_refl j s g : guar j s g s g.
Proof. destruct g as [h b m]. apply gu_look; [by left|done]. Qed.

Section Ok.
Context (j : job).

Lemma ok_bind {A B} (P : A → ghost → Prop) (Q : B → ghost → Prop) (f : A → prog B) p : ∀ g,
  ok j P p g → (∀ a g', P a g' → ok j Q (f a) g') → ok j Q (p ≫= f) g.
Proof.
  induction p as [a|X o k IH|]; intros g Hp Hf; [by apply Hf| |done].
  intros s x s' Hs Hk He. destruct (Hp s x s' Hs Hk He) as (g' & Hg & Hok). exists g'. split; [done|]. by apply IH.
Qed.

Lemma ok_call {X A} (Q : A → ghost → Prop) (o : op X) (f : X → prog A) g :
  (∀ s x s', fs_ok s → knows j g s → exec o s x s' → ∃ g', guar j s g s' g' ∧ ok j Q (f x) g') → ok j Q (call o ≫= f) g.
Proof. intros Ho s x s' Hs Hk He. by apply Ho. Qed.

(** A call that changes nothing. *)
Lemma ok_look {X A} (Q : A → ghost → Prop) (o : op X) (f : X → prog A) g :
  (∀ s x s', exec o s x s' → s' = s) → (∀ s x s', fs_ok s → knows j g s → exec o s x s' → ok j Q (f x) g) → ok j Q (call o ≫= f) g.
Proof.
  intros H1 H2. apply ok_call. intros s x s' Hs Hk He. exists g. pose proof (H1 s x s' He) as ->.
  split; [apply guar_refl|]. by apply (H2 s x s).
Qed.

Lemma ok_here {A} (Q : A → ghost → Prop) (f : Z → prog A) g :
  ok j Q (f 0) g → (∀ e, e < 0 → ok j Q (f e) g) → ok j Q (here ≫= f) g.
Proof.
  intros H0 He. apply (ok_bind (λ r g', g' = g ∧ (r = 0 ∨ r < 0))).
  - apply ok_look; [by intros s x s' [? _]|]. intros s [e|] s' _ _ [_ Hx]; (split; [done|]); [right|by left].
    specialize (Hx e eq_refl). lia.
  - intros r g' [-> [->|Hr]]; [done|by apply He].
Qed.

Lemma ok_map_meta {A} ino (Q : A → ghost → Prop) (f : Z → prog A) g :
  ok j Q (f 0) g → (∀ e, e < 0 → ok j Q (f e) g) → ok j Q (map_meta ino ≫= f) g.
Proof.
  intros H0 He. apply (ok_bind (λ r g', g' = g ∧ (r = 0 ∨ r < 0))).
  - apply ok_look; [by intros s x s' [? _]|]. intros s [e|] s' _ _ [_ Hx]; (split; [done|]); [right|by left].
    specialize (Hx e eq_refl). lia.
  - intros r g' [-> [->|Hr]]; [done|by apply He].
Qed.

Lemma ok_open k id (Q : Z * Z → ghost → Prop) g :
  (∀ ino, 0 ≤ id → Q (0, ino) g) → (∀ e, e < 0 → Q (e, -1) g) → ok j Q (sysv_open k id) g.
Proof.
  intros H0 He. unfold sysv_open. destruct (_ || _) eqn:E; [by apply He|]. bool_to_prop.
  apply ok_here; [|intros e Hlt; rewrite (proj2 (Z.ltb_lt _ _)) by done; by apply He]. cbn [Z.ltb Z.compare].
  apply ok_look; [by intros s x s' [? _]|]. intros s [ino|] s' _ _ _; [|by apply He].
  apply ok_map_meta; [|intros e Hlt; rewrite (proj2 (Z.ltb_lt _ _)) by done; by apply He]. cbn [Z.ltb Z.compare].
  apply ok_look; [by intros s2 x s2' [? _]|]. intros s2 m s2' _ _ _. destruct (_ && _); [by apply H0|by apply He].
Qed.

Abbreviation k := (j_kind j).
Abbreviation key := (j_key j).

(** The id is given back; the errno that is left is the one there was, or
    that of a name that was not there. *)
Lemma ok_destroy {A} (Q : A → ghost → Prop) (f : Z → prog A) id ino w b m e :
  (∀ e', e' = e ∨ e' = ENOENT → ok j Q (f e') (mk_ghost None b m)) →
  ok j Q (destroy_object k id e ≫= f) (mk_ghost (Some (id, ino, w)) b m).
Proof.
  intros Hf. apply (ok_bind (λ e' g', (e' = e ∨ e' = ENOENT) ∧ g' = mk_ghost None b m)); [|intros e' g' [He' ->]; by apply Hf].
  unfold destroy_object. apply ok_call. intros s x s' _ _ [-> ->]. eexists. split; [apply gu_drop|].
  apply ok_call. intros s2 x2 s2' _ _ [-> ->]. eexists. split; [apply gu_data|]. split; [|done].
  destruct (f_data s2 !! _), (f_name s !! _); cbn; auto.
Qed.

Lemma ok_alloc n b m (Q : Z * Z → ghost → Prop) : ∀ id, 0 ≤ id →
  (∀ id ino, 0 ≤ id → Q (id, ino) (mk_ghost (Some (id, ino, false)) b m)) → (∀ e, e < 0 → Q (e, -1) (mk_ghost None b m)) →
  ok j Q (alloc_id n k id) (mk_ghost None b m).
Proof.
  induction n as [|n IH]; intros id Hid H0 He; cbn [alloc_id]; [by apply He|].
  apply ok_call. intros s [ino| |e] s' _ _ Hx; cbn in Hx.
  - destruct Hx as (Hn & -> & ->). eexists. split; [by apply gu_take|].
    apply ok_look; [by intros s2 x s2' [? _]|]. intros s2 [e|] s2' _ _ [_ Hx]; [|by apply H0].
    apply ok_call. intros s3 x s3' _ _ [_ ->]. eexists. split; [apply gu_drop|]. apply He. specialize (Hx e eq_refl). lia.
  - destruct Hx as [_ ->]. eexists. split; [apply guar_refl|]. apply IH; [lia|done|done].
  - destruct Hx as [Hx ->]. eexists. split; [apply guar_refl|]. apply He. lia.
Qed.

(** What sysv_get ends with. *)
Definition post (r : Z * Z) (g : ghost) : Prop :=
  if r.1 <? 0 then g_hold g = None
  else if key =? LINUX_IPC_PRIVATE then ∃ ino, g_hold g = Some (r.1, ino, true)
  else g_hold g = None ∧ g_bound g = Some r.1 ∧
    (has (j_flags j) LINUX_IPC_CREAT && has (j_flags j) LINUX_IPC_EXCL = true → g_made g = true).

Lemma post_error e g : e < 0 → g_hold g = None → post (e, -1) g.
Proof. intros He Hg. unfold post. cbn [fst]. by rewrite (proj2 (Z.ltb_lt _ _)). Qed.

Abbreviation C := (j_ctx j).
Abbreviation Size := (j_size j).
Abbreviation Flags := (j_flags j).

Lemma ok_found id m : key ≠ LINUX_IPC_PRIVATE → ok j post (get_found C k Size Flags id) (mk_ghost None (Some id) m).
Proof.
  intros Hkey. unfold get_found. destruct (_ && _) eqn:E; [by apply post_error|].
  apply (ok_bind (λ r g', g' = mk_ghost None (Some id) m ∧ (r.1 < 0 ∨ r.1 = 0 ∧ 0 ≤ id))).
  { apply ok_open; [intros ino Hid; split; [done|by right]|intros e He; split; [done|by left]]. }
  intros [r ino] g' [-> Hr]. cbn [fst] in Hr. case_bool; bool_to_prop; [by apply post_error|]. destruct Hr as [Hr|[-> Hid]]; [lia|].
  apply ok_look; [by intros s x s' [? _]|]. intros s x s' _ _ _. case_bool; [by apply post_error|]. case_bool; [by apply post_error|].
  unfold ok, post. cbn [fst g_hold g_bound g_made]. rewrite (proj2 (Z.ltb_ge _ _)), (proj2 (Z.eqb_neq _ _)) by done. by rewrite E.
Qed.

Lemma ok_get_bind again id ino b m :
  0 ≤ id → (∀ id', key ≠ LINUX_IPC_PRIVATE → ok j post again (mk_ghost None (Some id') m)) → (b = None) →
  ok j post (get_bind k key again id ino) (mk_ghost (Some (id, ino, true)) b m).
Proof.
  intros Hid Hag ->. unfold get_bind. case_bool; bool_to_prop.
  { unfold ok, post. cbn [fst g_hold]. rewrite (proj2 (Z.ltb_ge _ _)), (proj2 (Z.eqb_eq _ _)) by done. by eexists. }
  apply ok_call. intros s [e|] s' Hs Hk Hx; cbn in Hx.
  - destruct Hx as (He & -> & Hex). destruct (f_key s !! (k, key)) as [id'|] eqn:Ek.
    + exists (mk_ghost (Some (id, ino, true)) (Some id') m). split; [apply gu_look; [intros i [= <-]; by right|done]|].
      apply ok_destroy. intros e' He'. case_bool; [by apply Hag|]. apply post_error; [|done]. unfold ENOENT in He'. lia.
    + eexists. split; [apply guar_refl|]. apply ok_destroy. intros e' He'. case_bool; bool_to_prop.
      * unfold EEXIST, ENOENT in *. exfalso. apply Hex; [lia|done].
      * apply post_error; [|done]. unfold ENOENT in He'. lia.
  - destruct Hx as (Hkn & ->). eexists. split; [by apply gu_bind|]. unfold ok, post. cbn [fst g_hold g_bound g_made].
    by rewrite (proj2 (Z.ltb_ge _ _)), (proj2 (Z.eqb_neq _ _)).
Qed.

Lemma ok_fill again id ino m :
  0 ≤ id → (∀ id', key ≠ LINUX_IPC_PRIVATE → ok j post again (mk_ghost None (Some id') m)) →
  ok j post (get_fill C k key Size Flags again id ino) (mk_ghost (Some (id, ino, false)) None m).
Proof.
  intros Hid Hag. unfold get_fill. apply ok_map_meta; [|intros e He; rewrite (proj2 (Z.ltb_lt _ _)) by done; apply ok_destroy; intros; by apply post_error].
  cbn [Z.ltb Z.compare]. apply ok_call. intros s x s' _ _ ->. eexists. split; [by apply gu_fill|]. by apply ok_get_bind.
Qed.

Lemma ok_get_data again id ino m :
  0 ≤ id → (∀ id', key ≠ LINUX_IPC_PRIVATE → ok j post again (mk_ghost None (Some id') m)) →
  ok j post (get_data C k key Size Flags again id ino) (mk_ghost (Some (id, ino, false)) None m).
Proof.
  intros Hid Hag. unfold get_data. case_bool; [by apply ok_fill|]. apply ok_call. intros s [e|] s' _ _ Hx; cbn in Hx.
  - destruct Hx as [He ->]. eexists. split; [apply guar_refl|]. apply ok_destroy. intros. apply post_error; [lia|done].
  - subst. eexists. split; [apply gu_data|]. by apply ok_fill.
Qed.

Lemma ok_create again m :
  (∀ id', key ≠ LINUX_IPC_PRIVATE → ok j post again (mk_ghost None (Some id') m)) →
  ok j post (get_create C k key Size Flags again) (mk_ghost None None m).
Proof.
  intros Hag. unfold get_create.
  apply (ok_bind (λ r g', 0 ≤ r.1 ∧ g' = mk_ghost (Some (r.1, r.2, false)) None m ∨ r.1 < 0 ∧ g' = mk_ghost None None m)).
  { apply ok_alloc; [done|intros id ino Hid; by left|intros e He; by right]. }
  intros [id ino] g' [[Hid ->]|[Hid ->]]; cbn [fst snd] in *.
  - rewrite (proj2 (Z.ltb_ge _ _)) by done. by apply ok_get_data.
  - rewrite (proj2 (Z.ltb_lt _ _)) by done. by apply post_error.
Qed.

(** Once the key is known to be bound, the lookup finds it. *)
Lemma ok_again_bound fuel id m :
  key ≠ LINUX_IPC_PRIVATE → ok j post (get_again C k key Size Flags (S fuel)) (mk_ghost None (Some id) m).
Proof.
  intros Hkey. cbn [get_again]. rewrite (proj2 (Z.eqb_neq _ _)) by done. apply ok_look; [by intros s x s' [? _]|].
  intros s x s' _ Hk [_ ->]. rewrite (kn_bound _ _ _ Hk id eq_refl). by apply ok_found.
Qed.

Lemma ok_sysv_get fuel : ok j post (sysv_get C k key Size Flags (S (S fuel))) (mk_ghost None None false).
Proof.
  unfold sysv_get. apply ok_here; [|intros e He; rewrite (proj2 (Z.ltb_lt _ _)) by done; by apply post_error]. cbn [Z.ltb Z.compare].
  remember (S fuel) as f1 eqn:E1. cbn [get_again]. subst f1.
  assert (∀ id', key ≠ LINUX_IPC_PRIVATE → ok j post (get_again C k key Size Flags (S fuel)) (mk_ghost None (Some id') false)) as Hag
    by (intros id' Hkey; by apply ok_again_bound).
  case_bool; bool_to_prop; [by apply ok_create|].
  apply ok_call. intros s x s' _ Hk [-> ->]. destruct (f_key s !! (k, key)) as [id|] eqn:Ek.
  - exists (mk_ghost None (Some id) false). split; [apply gu_look; [intros i [= <-]; by right|done]|]. by apply ok_found.
  - eexists. split; [apply guar_refl|]. case_bool; [by apply ok_create|by apply post_error].
Qed.
End Ok.

(** * All of them together *)

Definition start (j : job) : prog (Z * Z) := sysv_get (j_ctx j) (j_kind j) (j_key j) (j_size j) (j_flags j) 2.

Record all_ok (jobs : gmap Z job) (c : conf (Z * Z)) (gs : gmap Z ghost) : Prop := {
  al_fs : fs_ok (c_fs c);
  al_proc i j : jobs !! i = Some j → ∃ p g, c_procs c !! i = Some p ∧ gs !! i = Some g ∧ ok j (post j) p g ∧ knows j g (c_fs c);
  al_jobs i p : c_procs c !! i = Some p → is_Some (jobs !! i);
  al_apart i i' j j' g g' : i ≠ i' → jobs !! i = Some j → jobs !! i' = Some j' → gs !! i = Some g → gs !! i' = Some g' → apart j g j' g';
}.

Lemma all_start jobs s : fs_ok s → ∃ gs, all_ok jobs (mk_conf s (start <$> jobs)) gs.
Proof.
  intros Hs. exists ((λ _, mk_ghost None None false) <$> jobs). split; [done| | |].
  - intros i j Hj. exists (start j), (mk_ghost None None false). cbn. rewrite !lookup_fmap, Hj. split; [done|]. split; [done|].
    split; [exact (ok_sysv_get j 0)|]. by split.
  - intros i p. cbn. rewrite lookup_fmap. by destruct (jobs !! i).
  - intros i i' j j' g g' _ Hj Hj'. rewrite !lookup_fmap, Hj, Hj'. intros [= <-] [= <-]. done.
Qed.

Lemma all_step jobs c gs c' : all_ok jobs c gs → cstep c c' → ∃ gs', all_ok jobs c' gs'.
Proof.
  intros [A1 A2 A3 A4] Hs. destruct Hs as [i X o f x s s' ps Hi He]. cbn in *. destruct (A3 i _ Hi) as [j Hj].
  destruct (A2 i j Hj) as (p & g & Hp & Hg & Hok & Hk). rewrite Hi in Hp. injection Hp as <-.
  destruct (Hok s x s' A1 Hk He) as (g' & Hgu & Hok'). destruct (guar_own j s g s' g' A1 Hk Hgu) as [Hs' Hk'].
  exists (<[i := g']> gs). split; cbn.
  - done.
  - intros i2 j2 Hj2. destruct (decide (i2 = i)) as [->|Hne].
    + rewrite Hj in Hj2. injection Hj2 as <-. exists (f x), g'. by rewrite !lookup_insert_eq.
    + destruct (A2 i2 j2 Hj2) as (p2 & g2 & Hp2 & Hg2 & Hok2 & Hk2). exists p2, g2. rewrite !lookup_insert_ne by done.
      split; [done|]. split; [done|]. split; [done|]. apply (guar_other j s g s' g' j2 g2); try done. by apply (A4 i i2).
  - intros i2 p. rewrite lookup_insert_Some. intros [[<- _]|[_ Hp]]; [by exists j|by apply (A3 i2 p)].
  - intros i1 i2 j1 j2 g1 g2 Hne Hj1 Hj2. rewrite !lookup_insert_Some.
    intros [[<- <-]|[Hn1 Hg1]] [[<- <-]|[Hn2 Hg2]]; [done| | |by apply (A4 i1 i2)].
    + rewrite Hj in Hj1. injection Hj1 as <-. destruct (A2 i2 j2 Hj2) as (p2 & g2' & _ & Hg2' & _ & Hk2). rewrite Hg2 in Hg2'. injection Hg2' as <-.
      apply (guar_other j s g s' g' j2 g2); try done. by apply (A4 i i2).
    + rewrite Hj in Hj2. injection Hj2 as <-. destruct (A2 i1 j1 Hj1) as (p1 & g1' & _ & Hg1' & _ & Hk1). rewrite Hg1 in Hg1'. injection Hg1' as <-.
      assert (apart j g' j1 g1) as [B1 B2] by (apply (guar_other j s g s' g' j1 g1); try done; by apply (A4 i i1)).
      split; [intros; by apply not_eq_sym, B1 with ino' w' ino w|intros; by apply not_eq_sym, B2].
Qed.

Lemma all_steps jobs s c : fs_ok s → csteps (mk_conf s (start <$> jobs)) c → ∃ gs, all_ok jobs c gs.
Proof.
  intros Hs. induction 1 as [|c c' _ (gs & IH) Hst]; [by apply all_start|]. by apply (all_step jobs c gs).
Qed.

(** * The theorem *)

Lemma registered_key s k key key' id : registered s k key id → registered s k key' id → key = key'.
Proof. intros (i & m & Hn & Hm & _ & _ & Hk) (i' & m' & Hn' & Hm' & _ & _ & Hk'). congruence. Qed.

Lemma done_registered j id ino g s :
  fs_ok s → knows j g s → post j (id, ino) g → 0 ≤ id → registered s (j_kind j) (j_key j) id.
Proof.
  intros Hs Hk Hp Hid. unfold post in Hp. cbn [fst] in Hp. rewrite (proj2 (Z.ltb_ge _ _)) in Hp by done.
  case_match; [destruct Hp as [ino' Hp]; by apply (kn_hold _ _ _ Hk id ino' true Hp)|]. apply (fo_key _ Hs), (kn_bound _ _ _ Hk), Hp.
Qed.

(** C26: any number of processes of a namespace may look for and create objects
    at the same time by sysv_get, interleaved in any way and with host calls
    failing at any point, while nobody removes one: none retries more than
    once; the bookkeeping of an id that is answered is there, filled in for the
    kind and key that were asked for; two processes that ask for one key get
    one id, any two others get different ids, and of those that ask with
    IPC_EXCL at most one gets the object. That the contents file is there too
    is not claimed, and not so: see [loser_takes_anothers_data]; nor does it
    hold beside removals: see [key_bound_to_nothing]. *)
Theorem sysv_get_agrees jobs s0 c :
  fs_ok s0 → csteps (mk_conf s0 (start <$> jobs)) c →
  (∀ i, c_procs c !! i ≠ Some Spin) ∧
  (∀ i j id ino, jobs !! i = Some j → c_procs c !! i = Some (Done (id, ino)) → 0 ≤ id →
    registered (c_fs c) (j_kind j) (j_key j) id) ∧
  (∀ i i' j j' id id' ino ino', i ≠ i' → jobs !! i = Some j → jobs !! i' = Some j' → j_kind j = j_kind j' →
    c_procs c !! i = Some (Done (id, ino)) → c_procs c !! i' = Some (Done (id', ino')) → 0 ≤ id → 0 ≤ id' →
    (id = id' ↔ j_key j = j_key j' ∧ j_key j ≠ LINUX_IPC_PRIVATE) ∧
    (id = id' → ¬ (has (j_flags j) LINUX_IPC_CREAT && has (j_flags j) LINUX_IPC_EXCL = true ∧
                   has (j_flags j') LINUX_IPC_CREAT && has (j_flags j') LINUX_IPC_EXCL = true))).
Proof.
  intros Hs0 Hst. destruct (all_steps jobs s0 c Hs0 Hst) as (gs & [A1 A2 A3 A4]).
  assert (∀ i j r, jobs !! i = Some j → c_procs c !! i = Some (Done r) → ∃ g, gs !! i = Some g ∧ post j r g ∧ knows j g (c_fs c)) as Hdone.
  { intros i j r Hj Hp. destruct (A2 i j Hj) as (p & g & Hp' & Hg & Hok & Hk). rewrite Hp in Hp'. injection Hp' as <-. by exists g. }
  split; [|split].
  - intros i Hp. destruct (A3 i _ Hp) as [j Hj]. destruct (A2 i j Hj) as (p & g & Hp' & _ & Hok & _). rewrite Hp in Hp'. by injection Hp' as <-.
  - intros i j id ino Hj Hp Hid. destruct (Hdone i j _ Hj Hp) as (g & _ & Hpost & Hk). by apply (done_registered j id ino g).
  - intros i i' j j' id id' ino ino' Hne Hj Hj' Hkind Hp Hp' Hid Hid'.
    destruct (Hdone i j _ Hj Hp) as (g & Hg & Hpost & Hk), (Hdone i' j' _ Hj' Hp') as (g' & Hg' & Hpost' & Hk').
    destruct (A4 i i' j j' g g' Hne Hj Hj' Hg Hg') as [B1 B2].
    pose proof (done_registered j id ino g _ A1 Hk Hpost Hid) as C1. pose proof (done_registered j' id' ino' g' _ A1 Hk' Hpost' Hid') as C2.
    unfold post in Hpost, Hpost'. cbn [fst] in Hpost, Hpost'. rewrite (proj2 (Z.ltb_ge id _)) in Hpost by done. rewrite (proj2 (Z.ltb_ge id' _)) in Hpost' by done.
    assert (id = id' → j_key j = j_key j') as Hkey by (intros <-; rewrite Hkind in C1; by apply (registered_key _ _ _ _ _ C1 C2)).
    split; [split|].
    + intros E. split; [by apply Hkey|]. intros Hpriv. rewrite <- (Hkey E), Hpriv in Hpost'. rewrite Hpriv in Hpost. cbn in Hpost, Hpost'.
      destruct Hpost as [i1 Hpost], Hpost' as [i2 Hpost']. apply (B1 _ _ _ _ _ _ Hpost Hpost'). by rewrite Hkind, E.
    + intros [E Hpriv]. rewrite <- E in Hpost'. rewrite (proj2 (Z.eqb_neq _ _)) in Hpost, Hpost' by done.
      destruct Hpost as (_ & Hb & _), Hpost' as (_ & Hb' & _). apply (kn_bound _ _ _ Hk) in Hb. apply (kn_bound _ _ _ Hk') in Hb'.
      rewrite Hkind, E in Hb. congruence.
    + intros E [X1 X2]. specialize (Hkey E). destruct (j_key j =? LINUX_IPC_PRIVATE) eqn:Epriv.
      * rewrite <- Hkey, Epriv in Hpost'. destruct Hpost as [i1 Hpost], Hpost' as [i2 Hpost'].
        apply (B1 _ _ _ _ _ _ Hpost Hpost'). by rewrite Hkind, E.
      * rewrite <- Hkey, Epriv in Hpost'. destruct Hpost as (_ & _ & M1), Hpost' as (_ & _ & M2). apply (B2 (M1 X1) (M2 X2)).
        by rewrite Hkind, Hkey.
Qed.

(** * Runs *)

(** The file system at its best, as a function. *)
Definition do_op {X} (o : op X) (s : fs) : option (X * fs) :=
  match o in op X return option (X * fs) with
  | Mkdir => Some (None, s)
  | ReadLink k key => Some (f_key s !! (k, key), s)
  | OpenMeta k id => Some (f_name s !! (k, id), s)
  | Mmap ino => Some (None, s)
  | ReadMeta ino => (λ m, (m, s)) <$> f_meta s !! ino
  | WriteMeta ino f => Some (tt, set_meta (alter f ino) s)
  | CreateMeta k id => match f_name s !! (k, id) with None => Some (Created (f_next s), new_file k id s) | Some _ => Some (Exists, s) end
  | Ftruncate ino => Some (None, s)
  | CreateData k id size => Some (None, set_data <[(k, id) := replicate (Z.to_nat size) 0]> s)
  | Symlink k key id => match f_key s !! (k, key) with None => Some (None, set_key <[(k, key) := id]> s) | Some _ => Some (Some EEXIST, s) end
  | UnlinkKey k key => Some (gone (f_key s !! (k, key)), set_key (delete (k, key)) s)
  | UnlinkMeta k id => Some (gone (f_name s !! (k, id)), set_name (delete (k, id)) s)
  | UnlinkData k id => Some (gone (f_data s !! (k, id)), set_data (delete (k, id)) s)
  | Locked k id X f =>
      match f_data s !! (k, id) with
      | Some b => Some (inr (f b).1, set_data <[(k, id) := (f b).2]> s)
      | None => Some (inl (- ENOENT), s)
      end
  | ReadDir k => Some ([], s)
  | SigPending => Some (false, s)
  end.

Lemma do_op_exec {X} (o : op X) s x s' : do_op o s = Some (x, s') → exec o s x s'.
Proof.
  destruct o as [|k key|k id|ino|ino|ino f|k id|ino|k id size|k key id|k key|k id|k id|k id X f|k|]; cbn; intros E.
  - injection E as <- <-. done.
  - injection E as <- <-. done.
  - injection E as <- <-. split; [done|by left].
  - injection E as <- <-. done.
  - destruct (f_meta s !! ino) as [m|]; [|done]. by injection E as <- <-.
  - by injection E as _ <-.
  - destruct (f_name s !! (k, id)); injection E as <- <-; done.
  - injection E as <- <-. done.
  - injection E as <- <-. done.
  - destruct (f_key s !! (k, key)); injection E as <- <-; [|done]. unfold EEXIST. split; [lia|done].
  - injection E as <- <-. done.
  - injection E as <- <-. done.
  - injection E as <- <-. done.
  - destruct (f_data s !! (k, id)) as [b|]; injection E as <- <-; [by exists b|]. unfold ENOENT. split; [lia|done].
  - injection E as <- <-. split; [done|by left].
  - injection E as <- <-. done.
Qed.

(** Each process of the list makes one call, in this order. *)
Fixpoint sched {A} (l : list Z) (c : conf A) : option (conf A) :=
  match l with
  | [] => Some c
  | i :: l =>
      match c_procs c !! i with
      | Some (Do o f) => '(x, s) ← do_op o (c_fs c); sched l (mk_conf s (<[i := f x]> (c_procs c)))
      | _ => None
      end
  end.

Lemma csteps_trans {A} (c0 c1 c2 : conf A) : csteps c0 c1 → csteps c1 c2 → csteps c0 c2.
Proof. intros H1. induction 1 as [|c c' _ IH Hs]; [done|]. by apply (csteps_step _ c). Qed.

Lemma sched_steps {A} l : ∀ c c' : conf A, sched l c = Some c' → csteps c c'.
Proof.
  induction l as [|i l IH]; intros [s ps] c'; cbn [sched]; [intros [= <-]; apply csteps_refl|]. cbn [c_procs c_fs].
  destruct (ps !! i) as [[a|X o f|]|] eqn:Ei; [done| |done|done]. destruct (do_op o s) as [[x s']|] eqn:Eo; [|done]. cbn. intros Hs.
  apply (csteps_trans _ (mk_conf s' (<[i := f x]> ps))); [|by apply IH].
  apply (csteps_step _ (mk_conf s ps)); [apply csteps_refl|]. apply (cstep_do i X o f x); [done|]. by apply do_op_exec.
Qed.

Definition empty_fs : fs := mk_fs ∅ ∅ ∅ ∅ 1.
Lemma empty_fs_ok : fs_ok empty_fs.
Proof. by split. Qed.

Definition root : ctx := mk_ctx 0 0 77 1000.

(** Two processes create a segment for key 5 at the same time: the second has
    the key bound first, and the first finds it. *)
Definition demo_jobs : gmap Z job :=
  {[1 := mk_job root SYSV_SHM 5 4096 0x3ff; 2 := mk_job root SYSV_SHM 5 4096 0x3ff]}.
Definition demo_sched : list Z := replicate 7 1 ++ replicate 9 2 ++ replicate 9 1.
Definition demo_end : option (conf (Z * Z)) := sched demo_sched (mk_conf empty_fs (start <$> demo_jobs)).

(** The answer of a process that has one. *)
Definition answer (i : Z) (c : option (conf (Z * Z))) : option Z :=
  c ← c; match c_procs c !! i with Some (Done r) => Some r.1 | _ => None end.

Lemma answered_done i c r : answer i (Some c) = Some r → ∃ ino, c_procs c !! i = Some (Done (r, ino)).
Proof. cbn. destruct (c_procs c !! i) as [[[id ino]| |]|]; [|done..]. intros [= <-]. by exists ino. Qed.

Lemma sysv_get_agrees_witness : fs_ok empty_fs ∧ ∃ c ino ino', demo_end = Some c ∧
  c_procs c !! 1 = Some (Done (1, ino)) ∧ c_procs c !! 2 = Some (Done (1, ino')) ∧ registered (c_fs c) SYSV_SHM 5 1.
Proof.
  split; [exact empty_fs_ok|]. destruct demo_end as [c|] eqn:E; [|vm_compute in E; discriminate E].
  assert (answer 1 demo_end = Some 1 ∧ answer 2 demo_end = Some 1) as [H1 H2] by (split; vm_compute; reflexivity).
  rewrite E in H1, H2. apply answered_done in H1 as [i1 H1]. apply answered_done in H2 as [i2 H2].
  destruct (sysv_get_agrees demo_jobs empty_fs c empty_fs_ok (sched_steps _ _ _ E)) as (_ & Hc & _).
  exists c, i1, i2. split; [reflexivity|]. split; [exact H1|]. split; [exact H2|].
  assert (demo_jobs !! 1 = Some (mk_job root SYSV_SHM 5 4096 0x3ff)) as Hj by (vm_compute; reflexivity).
  exact (Hc 1 _ 1 i1 Hj H1 ltac:(lia)).
Defined.

(** ** What the code leaves open *)

(** For semaphores, which have no contents file, giving the id back leaves
    ENOENT in errno: the process that lost the race is told there is no such
    object instead of finding the winner's. *)
Definition sem_jobs : gmap Z job := {[1 := mk_job root SYSV_SEM 5 1 0x3ff; 2 := mk_job root SYSV_SEM 5 1 0x3ff]}.
Theorem sem_loser_told_enoent :
  let c := sched (replicate 6 1 ++ replicate 8 2 ++ replicate 3 1) (mk_conf empty_fs (start <$> sem_jobs)) in
  answer 2 c = Some 1 ∧ answer 1 c = Some (- ENOENT).
Proof. split; vm_compute; reflexivity. Qed.

(** IPC_RMID of an id, as a process. *)
Definition remove (k : sysv_kind) (id : Z) : prog (Z * Z) :=
  '(r, ino) ← sysv_open k id;
  if r <? 0 then Done (r, -1) else r ← sysv_remove root k id ino; Done (r, -1).

(** An object that exists, for key 5, with id 0. *)
Definition one_segment : fs := default empty_fs (c_fs <$> sched (replicate 8 1) (mk_conf empty_fs (start <$> demo_jobs))).

(** Giving an id back takes the bookkeeping first and the contents second: a
    process that takes the id in between loses its contents. *)
Theorem removal_takes_anothers_data :
  let c0 := mk_conf one_segment {[1 := remove SYSV_SHM 0; 2 := start (mk_job root SYSV_SHM 6 4096 0x3ff)]} in
  let c := sched (replicate 9 1 ++ replicate 8 2 ++ replicate 1 1) c0 in
  answer 1 c = Some 0 ∧ answer 2 c = Some 0 ∧
  (c ← c; Some (f_key (c_fs c) !! (SYSV_SHM, 6), bool_decide (is_Some (f_data (c_fs c) !! (SYSV_SHM, 0))))) = Some (Some 0, false).
Proof. split; [|split]; vm_compute; reflexivity. Qed.

(** It needs no removal: the process that loses the race for key 5 gives its id
    back in the same order, and the one that takes it for key 6 in between is
    answered an id without contents. *)
Theorem loser_takes_anothers_data :
  let get key := start (mk_job root SYSV_SHM key 4096 0x3ff) in
  let c := sched (replicate 7 1 ++ replicate 9 2 ++ replicate 2 1 ++ replicate 8 3 ++ replicate 1 1)
    (mk_conf empty_fs {[1 := get 5; 2 := get 5; 3 := get 6]}) in
  answer 2 c = Some 1 ∧ answer 3 c = Some 0 ∧
  (c ← c; Some (f_key (c_fs c) !! (SYSV_SHM, 6), bool_decide (is_Some (f_data (c_fs c) !! (SYSV_SHM, 0))))) = Some (Some 0, false).
Proof. split; [|split]; vm_compute; reflexivity. Qed.

(** An object can be removed by its id before its key is bound: the key then
    names nothing for good. *)
Theorem key_bound_to_nothing :
  let c0 := mk_conf empty_fs {[1 := start (mk_job root SYSV_SHM 5 4096 0x3ff); 2 := remove SYSV_SHM 0;
                               3 := start (mk_job root SYSV_SHM 5 4096 0x3ff); 4 := start (mk_job root SYSV_SHM 5 4096 0x7ff)]} in
  let c := sched (replicate 7 1 ++ replicate 10 2 ++ replicate 1 1 ++ replicate 4 3 ++ replicate 2 4) c0 in
  answer 1 c = Some 0 ∧ answer 2 c = Some 0 ∧ answer 3 c = Some (- EINVAL) ∧ answer 4 c = Some (- EEXIST).
Proof. do 3 (split; [vm_compute; reflexivity|]). vm_compute. reflexivity. Qed.

(** * The directories

    A directory of an IPC namespace in TMPDIR, by the boot session and the
    inode in its name: what is in it, and the pid written in its .owner file,
    if there is one (0 when it cannot be read). *)
Record ns_dir := mk_nsdir { nd_owner : option Z; nd_fs : fs }.
Abbreviation tmpdir := (gmap (Z * Z) ns_dir).

(** The host's semaphore arrays. *)
Abbreviation host_sems := (gset Z).

(** What semctl IPC_RMID is called on. *)
Definition sems_of (d : ns_dir) : host_sems :=
  list_to_set (omap (λ '((k, id), ino),
    match f_meta (nd_fs d) !! ino with
    | Some m => if bool_decide (k = SYSV_SEM) && (m_magic m =? SYSV_MAGIC) && (m_host_id m >=? 0) then Some (m_host_id m) else None
    | None => None
    end) (map_to_list (f_name (nd_fs d)))).

Definition release_host_semaphores (d : ns_dir) (h : host_sems) : host_sems := h ∖ sems_of d.

Section Dirs.
(** This boot's tag and this process's pid. *)
Variable (boot pid : Z).

Definition sysv_ns_destroy (ino : Z) (t : tmpdir) (h : host_sems) : tmpdir * host_sems :=
  match t !! (boot, ino) with
  | Some d => (delete (boot, ino) t, release_host_semaphores d h)
  | None => (t, h)
  end.

Definition sysv_ns_claim (ino : Z) (t : tmpdir) : tmpdir :=
  let d := default empty_fs (nd_fs <$> t !! (boot, ino)) in
  <[(boot, ino) := mk_nsdir (Some pid) d]> t.

Definition sysv_ns_release_owned (ino : Z) (t : tmpdir) (h : host_sems) : tmpdir * host_sems :=
  match t !! (boot, ino) ≫= nd_owner with
  | Some owner => if owner =? pid then sysv_ns_destroy ino t h else (t, h)
  | None => (t, h)
  end.

(** Whether nobody is in a directory: another boot's, or its owner is gone.
    [dead p] is kill(p, 0) failing with ESRCH. *)
Definition over (dead : Z → bool) (a : Z * Z) (d : ns_dir) : bool :=
  if negb (a.1 =? boot) then true
  else match nd_owner d with Some owner => (owner >? 0) && dead owner | None => false end.

Definition sweep_one (dead : Z → bool) (th : tmpdir * host_sems) (e : Z * Z * ns_dir) : tmpdir * host_sems :=
  if over dead e.1 e.2 then (delete e.1 th.1, release_host_semaphores e.2 th.2) else th.

Definition sysv_sweep (dead : Z → bool) (t : tmpdir) (h : host_sems) : tmpdir * host_sems :=
  foldl (sweep_one dead) (t, h) (map_to_list t).

Lemma sweep_loop dead l : ∀ th, let th' := foldl (sweep_one dead) th l in
  (∀ a, th'.1 !! a = if existsb (λ e, bool_decide (e.1 = a) && over dead e.1 e.2) l then None else th.1 !! a) ∧
  (∀ i, i ∈ th'.2 ↔ i ∈ th.2 ∧ ∀ e, e ∈ l → over dead e.1 e.2 = true → i ∉ sems_of e.2).
Proof.
  induction l as [|[a d] l IH]; intros [t h]; cbn [foldl].
  - split; [done|]. intros i. split; [|by intros [? _]]. intros Hi. split; [done|]. by intros e ?%elem_of_nil.
  - destruct (IH (sweep_one dead (t, h) (a, d))) as [I1 I2]. cbv zeta in *. split.
    + intros b. rewrite I1. unfold sweep_one. cbn [existsb fst snd]. destruct (over dead a d); cbn [fst]; [|by rewrite andb_false_r].
      case_bool_decide as Hb; subst; cbn [andb orb]; [rewrite lookup_delete_eq; by case_match|by rewrite lookup_delete_ne].
    + intros i. rewrite I2. unfold sweep_one, release_host_semaphores. cbn [fst snd]. setoid_rewrite elem_of_cons.
      destruct (over dead a d) eqn:Eo; cbn [snd]; [rewrite elem_of_difference|].
      * split; [intros [[H1 H2] H3]|intros [H1 H2]]; (split; [|intros e; auto]); [done|by intros [->|?]; auto|].
        split; [done|]. by apply (H2 (a, d)); [left|].
      * split; intros [H1 H2]; (split; [done|]); intros e; [intros [->|?]; [cbn; congruence|by apply H2]|auto].
Qed.

(** A sweep takes the directories that are over and no others, and with them
    their semaphores and no others. *)
Lemma sysv_sweep_spec dead t h :
  (∀ a, (sysv_sweep dead t h).1 !! a = match t !! a with Some d => if over dead a d then None else Some d | None => None end) ∧
  (∀ i, i ∈ (sysv_sweep dead t h).2 ↔ i ∈ h ∧ ∀ a d, t !! a = Some d → over dead a d = true → i ∉ sems_of d).
Proof.
  destruct (sweep_loop dead (map_to_list t) (t, h)) as [L1 L2]. cbv zeta in *. cbn [fst snd] in *. split.
  - intros a. unfold sysv_sweep. rewrite L1. destruct (existsb _ _) eqn:E.
    + apply existsb_exists in E as ([b d] & Hin%list_elem_of_In%elem_of_map_to_list & [Hb Ho]%andb_true_iff).
      apply bool_decide_eq_true in Hb. cbn in *. subst b. by rewrite Hin, Ho.
    + destruct (t !! a) as [d|] eqn:Ea; [|done]. destruct (over dead a d) eqn:Eo; [|done]. apply not_true_iff_false in E. destruct E.
      apply existsb_exists. exists (a, d). split; [by apply list_elem_of_In, elem_of_map_to_list|]. cbn.
      by rewrite bool_decide_eq_true_2.
  - intros i. unfold sysv_sweep. rewrite L2. apply and_iff_compat_l. split.
    + intros H a d Ha. by apply (H (a, d)), elem_of_map_to_list.
    + intros H [a d] Hin%elem_of_map_to_list. by apply H.
Qed.
End Dirs.
