(* ===== verification/Msg.v ===== *)
(** System V message queues, src/ipc/msg.c: a queue is a file of records, and
    every process of the namespace works on it under the file's lock. The file
    is modelled byte by byte and shown to be a list of messages. *)

From S2P Require Import Prelude Guest SysV.

Definition MSG_QBYTES_DEFAULT : Z := 16384.
Definition MSG_MAX : Z := 8192.
Definition MSGQ_MAGIC : Z := 0x5173676d.
Definition LINUX_MSG_NOERROR : Z := 0x1000.
Definition LINUX_MSG_EXCEPT : Z := 0x2000.

(** * Files *)

(** Fewer bytes than asked for at the end of the file. *)
Definition pread (b : list Z) (off n : Z) : list Z := take (Z.to_nat n) (drop (Z.to_nat off) b).

(** A write past the end leaves zeros in between. *)
Definition pwrite (b : list Z) (off : Z) (l : list Z) : list Z :=
  take (Z.to_nat off) (b ++ replicate (Z.to_nat off - length b) 0) ++ l ++ drop (Z.to_nat off + length l) b.

(** * The layout *)

(** struct msgq_hdr, 40 bytes, and struct msgq_rec, 24; the padding is zero. *)
Record msgq_hdr := mk_hdr { h_magic : Z; h_head : Z; h_tail : Z; h_qnum : Z; h_cbytes : Z }.
Record msgq_rec := mk_rec { r_live : Z; r_type : Z; r_size : Z }.

Definition hdr_image (h : msgq_hdr) : list Z :=
  le_store 4 (h_magic h) ++ le_store 4 0 ++ le_store 8 (h_head h) ++ le_store 8 (h_tail h) ++ le_store 8 (h_qnum h) ++ le_store 8 (h_cbytes h).
Definition hdr_of (l : list Z) : msgq_hdr :=
  mk_hdr (le_load (take 4 l)) (le_load (take 8 (drop 8 l))) (le_load (take 8 (drop 16 l))) (le_load (take 8 (drop 24 l)))
    (le_load (take 8 (drop 32 l))).

Definition rec_image (r : msgq_rec) : list Z :=
  le_store 4 (r_live r) ++ le_store 4 0 ++ le_store 8 (u64 (r_type r)) ++ le_store 8 (r_size r).
Definition rec_of (l : list Z) : msgq_rec :=
  mk_rec (le_load (take 4 l)) (s64 (le_load (take 8 (drop 8 l)))) (le_load (take 8 (drop 16 l))).

Definition rec_span (size : Z) : Z := u64 (24 + roundup size 8).

(** * The operations under the lock *)

Definition hdr_read (b : list Z) : option msgq_hdr :=
  let l := pread b 0 40 in
  if Nat.eqb (length l) 40 && (h_magic (hdr_of l) =? MSGQ_MAGIC) then Some (hdr_of l) else None.

Definition hdr_write (b : list Z) (h : msgq_hdr) : list Z := pwrite b 0 (hdr_image h).

Definition rec_read (b : list Z) (off : Z) : option msgq_rec :=
  let l := pread b off 24 in
  if Nat.eqb (length l) 24 then Some (rec_of l) else None.

Definition matches (msgtyp msgflg type : Z) : bool :=
  if msgtyp =? 0 then true
  else if msgtyp >? 0 then (if has msgflg LINUX_MSG_EXCEPT then negb (type =? msgtyp) else type =? msgtyp)
  else type <=? s64 (- msgtyp).

(** The offset of the record to take, and the record; [best] is 0 for none. *)
Fixpoint pick_loop (fuel : nat) (b : list Z) (tail msgtyp msgflg off : Z) (best : Z * msgq_rec) : outcome (Z * msgq_rec) :=
  if off <? tail then
    match fuel with
    | O => Stop OutOfFuel
    | S fuel =>
        match rec_read b off with
        | None => Ret best
        | Some r =>
            let next := u64 (off + rec_span (r_size r)) in
            if r_live r =? 0 then pick_loop fuel b tail msgtyp msgflg next best
            else if matches msgtyp msgflg (r_type r) then
              if msgtyp >=? 0 then Ret (off, r)
              else pick_loop fuel b tail msgtyp msgflg next
                     (if (best.1 =? 0) || (r_type r <? r_type best.2) then (off, r) else best)
            else pick_loop fuel b tail msgtyp msgflg next best
        end
    end
  else Ret best.

(** A record takes 24 bytes at least. *)
Definition walk_fuel (h : msgq_hdr) : nat := Z.to_nat ((h_tail h - h_head h) / 24 + 1).

Definition pick (b : list Z) (h : msgq_hdr) (msgtyp msgflg : Z) : outcome (Z * msgq_rec) :=
  pick_loop (walk_fuel h) b (h_tail h) msgtyp msgflg (h_head h) (0, mk_rec 0 0 0).

Fixpoint compact_loop (fuel : nat) (b : list Z) (head tail : Z) : outcome Z :=
  if head <? tail then
    match fuel with
    | O => Stop OutOfFuel
    | S fuel =>
        match rec_read b head with
        | None => Ret head
        | Some r => if r_live r =? 0 then compact_loop fuel b (u64 (head + rec_span (r_size r))) tail else Ret head
        end
    end
  else Ret head.

(** [trunc] is whether ftruncate succeeds. *)
Definition compact (trunc : bool) (b : list Z) (h : msgq_hdr) : outcome (msgq_hdr * list Z) :=
  head ← compact_loop (walk_fuel h) b (h_head h) (h_tail h);
  if head >=? h_tail h then Ret (mk_hdr (h_magic h) 40 40 (h_qnum h) (h_cbytes h), if trunc then take 40 b else b)
  else Ret (mk_hdr (h_magic h) head (h_tail h) (h_qnum h) (h_cbytes h), b).

Definition queue_init (b : list Z) : list Z :=
  match hdr_read b with
  | Some _ => b
  | None => hdr_write b (mk_hdr MSGQ_MAGIC 40 40 0 0)
  end.

(** One turn of msgsnd's loop. *)
Inductive sent := SndError (r : Z) | Sent | Full.
Definition send_turn (mtype : Z) (text : list Z) (qbytes : Z) (b : list Z) : sent * list Z :=
  let msgsz := Z.of_nat (length text) in
  match hdr_read b with
  | None => (SndError (- EINVAL), b)
  | Some h =>
      if u64 (h_cbytes h + msgsz) <=? qbytes then
        let off := h_tail h in
        let b := pwrite b off (rec_image (mk_rec 1 mtype msgsz)) in
        let b := if 0 <? msgsz then pwrite b (off + 24) text else b in
        let h := mk_hdr (h_magic h) (h_head h) (u64 (h_tail h + rec_span msgsz)) (u64 (h_qnum h + 1)) (u64 (h_cbytes h + msgsz)) in
        (Sent, hdr_write b h)
      else (Full, b)
  end.

(** One turn of msgrcv's. *)
Inductive received := RcvError (r : Z) | Nothing | Received (type : Z) (text : list Z).
Definition recv_turn (trunc : bool) (msgsz msgtyp msgflg : Z) (b : list Z) : outcome (received * list Z) :=
  match hdr_read b with
  | None => Ret (RcvError (- EINVAL), b)
  | Some h =>
      '(off, rec) ← pick b h msgtyp msgflg;
      if off =? 0 then Ret (Nothing, b)
      else if (r_size rec >? msgsz) && negb (has msgflg LINUX_MSG_NOERROR) then Ret (RcvError (- E2BIG), b)
      else
        let take := if r_size rec >? msgsz then msgsz else r_size rec in
        let text := pread b (off + 24) take in
        if negb (Z.of_nat (length text) =? take) then Ret (RcvError (- EIO), b)
        else
          let b := pwrite b off (rec_image (mk_rec 0 (r_type rec) (r_size rec))) in
          let h := mk_hdr (h_magic h) (h_head h) (h_tail h) (u64 (h_qnum h - 1)) (u64 (h_cbytes h - r_size rec)) in
          '(h, b) ← compact trunc b h;
          Ret (Received (r_type rec) text, hdr_write b h)
  end.

(** * The system calls *)

Section Calls.
Context {G : Type} `{GuestMem G}.

(** One turn of a wait: 0 to look again. The sleep itself is no call on the
    directory. *)
Definition wait_a_moment (id : Z) : prog Z :=
  '(r, ino) ← sysv_open SYSV_MSG id;
  if r <? 0 then Done (- EIDRM)
  else
    m ← call (ReadMeta ino);
    if negb (m_removed m =? 0) then Done (- EIDRM)
    else
      sig ← call SigPending;
      if (sig : bool) then Done (- EINTR)
      else sig ← call SigPending; Done (if (sig : bool) then - EINTR else 0).

Definition sys_msgget (c : ctx) (fuel : nat) (key msgflg : Z) : prog Z :=
  '(id, ino) ← sysv_get c SYSV_MSG key MSG_QBYTES_DEFAULT msgflg fuel;
  if id <? 0 then Done id
  else
    r ← call (Locked SYSV_MSG id unit (λ b, (tt, queue_init b)));
    Done (match r with inl e => e | inr _ => id end).

(** What a send leaves in the bookkeeping. *)
Definition stamp_send (c : ctx) (m : sysv_meta) : sysv_meta :=
  mk_meta (m_magic m) (m_kind m) (m_key m) (m_mode m) (m_uid m) (m_gid m) (m_cuid m) (m_cgid m) (m_size m) (m_host_id m)
    (m_nattch m) (if m_cpid m =? 0 then getpid c else m_cpid m) (getpid c) (m_removed m) (now c) (m_dtime m) (m_ctime m) (m_otime m).
Definition stamp_recv (c : ctx) (m : sysv_meta) : sysv_meta :=
  mk_meta (m_magic m) (m_kind m) (m_key m) (m_mode m) (m_uid m) (m_gid m) (m_cuid m) (m_cgid m) (m_size m) (m_host_id m)
    (m_nattch m) (m_cpid m) (getpid c) (m_removed m) (m_atime m) (now c) (m_ctime m) (m_otime m).

Definition stamp (f : sysv_meta → sysv_meta) (id ret : Z) : prog Z :=
  '(r, ino) ← sysv_open SYSV_MSG id;
  if r =? 0 then _ ← call (WriteMeta ino f); Done ret else Done ret.

Fixpoint send_loop (fuel : nat) (c : ctx) (msqid mtype : Z) (text : list Z) (qbytes msgflg : Z) : prog Z :=
  match fuel with
  | O => Spin
  | S fuel =>
      r ← call (Locked SYSV_MSG msqid sent (send_turn mtype text qbytes));
      match r with
      | inl e => Done e
      | inr (SndError e) => Done e
      | inr Sent => stamp (stamp_send c) msqid 0
      | inr Full =>
          if has msgflg LINUX_IPC_NOWAIT then Done (- EAGAIN)
          else
            r ← wait_a_moment msqid;
            if r <? 0 then Done r else send_loop fuel c msqid mtype text qbytes msgflg
      end
  end.

Definition sys_msgsnd (fuel : nat) (c : ctx) (msqid msgp msgsz msgflg : Z) (g : G) : prog Z :=
  if msgsz >? MSG_MAX then Done (- EINVAL)
  else
    match get_int msgp 8 g with
    | None => Done (- EFAULT)
    | Some t =>
        let mtype := s64 t in
        if mtype <? 1 then Done (- EINVAL)
        else
          match (if msgsz =? 0 then Some [] else copy_in (u64 (msgp + 8)) msgsz g) with
          | None => Done (- EFAULT)
          | Some text =>
              '(r, ino) ← sysv_open SYSV_MSG msqid;
              if r <? 0 then Done r
              else
                m ← call (ReadMeta ino);
                if negb (sysv_perm_ok c m SYSV_W) then Done (- EACCES)
                else send_loop fuel c msqid mtype text (m_size m) msgflg
          end
    end.

Fixpoint recv_loop (fuel : nat) (trunc : bool) (c : ctx) (msqid msgp msgsz msgtyp msgflg : Z) (g : G) : prog (Z * G) :=
  match fuel with
  | O => Spin
  | S fuel =>
      r ← call (Locked SYSV_MSG msqid (option received)
                  (λ b, match recv_turn trunc msgsz msgtyp msgflg b with Ret (r, b) => (Some r, b) | Stop _ => (None, b) end));
      match r with
      | inl e => Done (e, g)
      | inr None => Spin
      | inr (Some (RcvError e)) => Done (e, g)
      | inr (Some (Received type text)) =>
          let '(ok, g) := put_int msgp 8 (u64 type) g in
          let '(ok, g) := if (ok : bool) then if Nat.eqb (length text) 0 then (true, g) else copy_out (u64 (msgp + 8)) text g else (false, g) in
          if negb ok then Done (- EFAULT, g)
          else r ← stamp (stamp_recv c) msqid (Z.of_nat (length text)); Done (r, g)
      | inr (Some Nothing) =>
          if has msgflg LINUX_IPC_NOWAIT then Done (- ENOMSG, g)
          else
            r ← wait_a_moment msqid;
            if r <? 0 then Done (r, g) else recv_loop fuel trunc c msqid msgp msgsz msgtyp msgflg g
      end
  end.

Definition sys_msgrcv (fuel : nat) (trunc : bool) (c : ctx) (msqid msgp msgsz msgtyp msgflg : Z) (g : G) : prog (Z * G) :=
  '(r, ino) ← sysv_open SYSV_MSG msqid;
  if r <? 0 then Done (r, g)
  else
    m ← call (ReadMeta ino);
    if negb (sysv_perm_ok c m SYSV_R) then Done (- EACCES, g)
    else recv_loop fuel trunc c msqid msgp msgsz msgtyp msgflg g.

(** ** msgctl *)

Definition sysv_msg_stats (b : list Z) : Z * Z :=
  let l := pread b 0 40 in
  if Nat.eqb (length l) 40 && (h_magic (hdr_of l) =? MSGQ_MAGIC) then (h_qnum (hdr_of l), h_cbytes (hdr_of l)) else (0, 0).

(** struct l_ipc64_perm, 48 bytes, and struct l_msqid64_ds, 120. *)
Definition perm_image (m : sysv_meta) : list Z :=
  le_store 4 (m_key m) ++ le_store 4 (m_uid m) ++ le_store 4 (m_gid m) ++ le_store 4 (m_cuid m) ++ le_store 4 (m_cgid m) ++
  le_store 4 (m_mode m) ++ replicate 24 0.
Definition fill_msqid_ds (m : sysv_meta) (stats : Z * Z) : list Z :=
  perm_image m ++ le_store 8 (m_atime m) ++ le_store 8 (m_dtime m) ++ le_store 8 (m_ctime m) ++
  le_store 8 stats.2 ++ le_store 8 stats.1 ++ le_store 8 (m_size m) ++ le_store 4 (m_lpid m) ++ le_store 4 (m_lpid m) ++ replicate 16 0.

(** What IPC_SET takes from the guest's structure. *)
Definition set_msqid (c : ctx) (l : list Z) (m : sysv_meta) : sysv_meta :=
  let qbytes := le_load (take 8 (drop 88 l)) in
  mk_meta (m_magic m) (m_kind m) (m_key m) (Z.land (le_load (take 4 (drop 20 l))) 0x1ff)
    (le_load (take 4 (drop 4 l))) (le_load (take 4 (drop 8 l))) (m_cuid m) (m_cgid m)
    (if qbytes =? 0 then m_size m else qbytes) (m_host_id m) (m_nattch m) (m_cpid m) (m_lpid m) (m_removed m)
    (m_atime m) (m_dtime m) (now c) (m_otime m).

Definition LINUX_IPC_64 : Z := 0x100.
Definition LINUX_IPC_RMID : Z := 0.
Definition LINUX_IPC_SET : Z := 1.
Definition LINUX_IPC_STAT : Z := 2.
Definition LINUX_IPC_INFO : Z := 3.
Definition LINUX_MSG_STAT : Z := 11.
Definition LINUX_MSG_INFO : Z := 12.
Definition LINUX_MSG_STAT_ANY : Z := 13.

(** struct l_msginfo, 32 bytes. *)
Definition msginfo (info : bool) (used : Z) : list Z :=
  le_store 4 (if info then used else SYSV_MAX_ID * MSG_QBYTES_DEFAULT / 1024) ++ le_store 4 (if info then 0 else SYSV_MAX_ID) ++
  le_store 4 MSG_MAX ++ le_store 4 MSG_QBYTES_DEFAULT ++ le_store 4 SYSV_MAX_ID ++ le_store 4 16 ++
  le_store 4 (if info then 0 else SYSV_MAX_ID) ++ le_store 2 SYSV_MAX_ID ++ le_store 2 0.

Definition give (p : Z) (l : list Z) (ret : Z) (g : G) : prog (Z * G) :=
  let '(ok, g) := copy_out p l g in Done (if (ok : bool) then ret else - EFAULT, g).

Definition msg_stat (c : ctx) (msqid buf_ptr : Z) (check : bool) (ret : Z) (g : G) : prog (Z * G) :=
  '(r, ino) ← sysv_open SYSV_MSG msqid;
  if r <? 0 then Done (r, g)
  else
    m ← call (ReadMeta ino);
    if check && negb (sysv_perm_ok c m SYSV_R) then Done (- EACCES, g)
    else
      stats ← call (Locked SYSV_MSG msqid (Z * Z) (λ b, (sysv_msg_stats b, b)));
      give buf_ptr (fill_msqid_ds m (match stats with inl _ => (0, 0) | inr x => x end)) ret g.

Definition sys_msgctl (c : ctx) (msqid cmd buf_ptr : Z) (g : G) : prog (Z * G) :=
  let cmd := Z.land cmd (Z.lnot LINUX_IPC_64) in
  if (cmd =? LINUX_IPC_INFO) || (cmd =? LINUX_MSG_INFO) then
    '(used, high, total) ← sysv_count SYSV_MSG;
    give buf_ptr (msginfo (cmd =? LINUX_MSG_INFO) used) high g
  else if (cmd =? LINUX_MSG_STAT) || (cmd =? LINUX_MSG_STAT_ANY) then
    msg_stat c msqid buf_ptr (cmd =? LINUX_MSG_STAT) msqid g
  else if cmd =? LINUX_IPC_STAT then msg_stat c msqid buf_ptr true 0 g
  else if cmd =? LINUX_IPC_SET then
    match copy_in buf_ptr 120 g with
    | None => Done (- EFAULT, g)
    | Some l =>
        '(r, ino) ← sysv_open SYSV_MSG msqid;
        if r <? 0 then Done (r, g)
        else
          m ← call (ReadMeta ino);
          if negb (sysv_owner_ok c m) then Done (- EPERM, g)
          else _ ← call (WriteMeta ino (set_msqid c l)); Done (0, g)
    end
  else if cmd =? LINUX_IPC_RMID then
    '(r, ino) ← sysv_open SYSV_MSG msqid;
    if r <? 0 then Done (r, g)
    else
      m ← call (ReadMeta ino);
      if negb (sysv_owner_ok c m) then Done (- EPERM, g)
      else r ← sysv_remove c SYSV_MSG msqid ino; Done (r, g)
  else Done (- EINVAL, g).
End Calls.

(** * Files, read after written *)

Lemma length_pwrite b off l : 0 ≤ off → Z.of_nat (length (pwrite b off l)) = Z.max (Z.of_nat (length b)) (off + Z.of_nat (length l)).
Proof.
  intros Ho. unfold pwrite. rewrite !length_app, length_take, length_drop, length_app, length_replicate. lia.
Qed.

Lemma lookup_pwrite b off l (i : nat) : 0 ≤ off →
  pwrite b off l !! i = if decide (i < Z.to_nat off)%nat then (b ++ replicate (Z.to_nat off - length b) 0) !! i
                        else if decide (i < Z.to_nat off + length l)%nat then l !! (i - Z.to_nat off)%nat else b !! i.
Proof.
  intros Ho. unfold pwrite. set (p := take _ _).
  assert (length p = Z.to_nat off) as Hp by (unfold p; rewrite length_take, length_app, length_replicate; lia).
  case_decide as H1.
  - rewrite lookup_app_l by lia. unfold p. by rewrite lookup_take_lt.
  - rewrite lookup_app_r, Hp by lia. case_decide as H2.
    + by rewrite lookup_app_l by lia.
    + rewrite lookup_app_r by lia. rewrite lookup_drop. f_equal. lia.
Qed.

Lemma pread_pwrite_same b off l : 0 ≤ off → pread (pwrite b off l) off (Z.of_nat (length l)) = l.
Proof.
  intros Ho. unfold pread, pwrite. rewrite Nat2Z.id. rewrite drop_app_length'.
  - by rewrite take_app_length.
  - rewrite length_take, length_app, length_replicate. lia.
Qed.

Lemma pread_pwrite_other b off l off' n :
  0 ≤ off → 0 ≤ off' → 0 ≤ n → (off' + n ≤ off ∧ off' + n ≤ Z.of_nat (length b) ∨ off + Z.of_nat (length l) ≤ off') →
  pread (pwrite b off l) off' n = pread b off' n.
Proof.
  intros Ho Ho' Hn Hd. unfold pread. apply list_eq. intros i. destruct (decide (i < Z.to_nat n)%nat) as [Hi|Hi].
  - rewrite !lookup_take_lt, !lookup_drop, lookup_pwrite by done. destruct Hd as [[H1 H2]|H1].
    + rewrite decide_True by lia. by rewrite lookup_app_l by lia.
    + rewrite decide_False, decide_False by lia. done.
  - by rewrite !lookup_take_ge by lia.
Qed.

Lemma length_pread b off n : 0 ≤ off → 0 ≤ n → Z.of_nat (length (pread b off n)) = n → 0 < n → off + n ≤ Z.of_nat (length b).
Proof. unfold pread. rewrite length_take, length_drop. lia. Qed.

(** * Images *)

Lemma le_app n v l : 0 ≤ v < 256 ^ Z.of_nat n → le_load (take n (le_store n v ++ l)) = v.
Proof. intros Hv. rewrite take_app_length' by (by rewrite length_le_store). by apply le_load_store_small. Qed.

Lemma drop_app_image n (a l : list Z) : length a = n → drop n (a ++ l) = l.
Proof. intros <-. apply drop_app_length. Qed.

Record hdr_ok (h : msgq_hdr) : Prop := {
  hk_magic : 0 ≤ h_magic h < 2^32; hk_head : 0 ≤ h_head h < 2^64; hk_tail : 0 ≤ h_tail h < 2^64;
  hk_qnum : 0 ≤ h_qnum h < 2^64; hk_cbytes : 0 ≤ h_cbytes h < 2^64 }.

Lemma length_hdr h : length (hdr_image h) = 40%nat.
Proof. unfold hdr_image. by rewrite !length_app, !length_le_store. Qed.

Lemma length_rec r : length (rec_image r) = 24%nat.
Proof. unfold rec_image. by rewrite !length_app, !length_le_store. Qed.

Lemma hdr_of_image h : hdr_ok h → hdr_of (hdr_image h) = h.
Proof.
  intros [H1 H2 H3 H4 H5]. unfold hdr_of, hdr_image. destruct h as [m hd tl qn cb]. cbn [h_magic h_head h_tail h_qnum h_cbytes] in *. f_equal.
  - by rewrite le_app.
  - rewrite (app_assoc (le_store 4 m)). rewrite (drop_app_image 8) by done. by rewrite le_app.
  - rewrite (app_assoc (le_store 4 m)), (app_assoc (_ ++ _)). rewrite (drop_app_image 16) by done. by rewrite le_app.
  - rewrite (app_assoc (le_store 4 m)), (app_assoc (_ ++ _)), (app_assoc ((_ ++ _) ++ _)). rewrite (drop_app_image 24) by done. by rewrite le_app.
  - rewrite (app_assoc (le_store 4 m)), (app_assoc (_ ++ _)), (app_assoc ((_ ++ _) ++ _)), (app_assoc (((_ ++ _) ++ _) ++ _)).
    rewrite (drop_app_image 32) by done. rewrite <- (app_nil_r (le_store 8 cb)). by rewrite le_app.
Qed.

Lemma rec_of_image r : 0 ≤ r_live r < 2^32 → -2^63 ≤ r_type r < 2^63 → 0 ≤ r_size r < 2^64 → rec_of (rec_image r) = r.
Proof.
  intros H1 H2 H3. unfold rec_of, rec_image. destruct r as [lv ty sz]. cbn [r_live r_type r_size] in *. f_equal.
  - by rewrite le_app.
  - rewrite (app_assoc (le_store 4 lv)). rewrite (drop_app_image 8) by done. rewrite le_app by apply u64_range.
    unfold s64, u64. rewrite Zplus_mod_idemp_l. rewrite Z.mod_small; lia.
  - rewrite (app_assoc (le_store 4 lv)), (app_assoc (_ ++ _)). rewrite (drop_app_image 16) by done.
    rewrite <- (app_nil_r (le_store 8 sz)). by rewrite le_app.
Qed.

(** * A file of records is a list of messages *)

(** A message: its type and its text. *)
Abbreviation message := (Z * list Z)%type.
Definition size_of (m : message) : Z := Z.of_nat (length m.2).
Definition msg_ok (m : message) : Prop := 0 < m.1 < 2^63 ∧ size_of m ≤ MSG_MAX.
Definition span (m : message) : Z := 24 + (size_of m + 7) / 8 * 8.

Lemma rec_span_eq m : msg_ok m → rec_span (size_of m) = span m.
Proof.
  intros [_ Hm]. unfold rec_span, span, roundup, MSG_MAX in *. assert (0 ≤ size_of m) by (unfold size_of; lia).
  rewrite (u64_small (size_of m + 8 - 1)) by lia. replace (size_of m + 8 - 1) with (size_of m + 7) by lia.
  apply u64_small. lia_mod.
Qed.

Lemma span_bounds m : 24 + size_of m ≤ span m.
Proof. unfold span. lia_mod. Qed.

Definition cell_rec (c : bool * message) : msgq_rec := mk_rec (if c.1 then 1 else 0) c.2.1 (size_of c.2).

(** The records from [off] to [tail]; dead ones are still there. *)
Fixpoint cells_at (b : list Z) (off : Z) (cells : list (bool * message)) (tail : Z) : Prop :=
  match cells with
  | [] => off = tail
  | c :: cells => pread b off 24 = rec_image (cell_rec c) ∧ pread b (off + 24) (size_of c.2) = c.2.2 ∧ msg_ok c.2 ∧
      cells_at b (off + span c.2) cells tail
  end.

Definition lives (cells : list (bool * message)) : list message := omap (λ c : bool * message, if c.1 then Some c.2 else None) cells.
Definition bytes_of (q : list message) : Z := foldr (λ (m : message) n, size_of m + n) 0 q.
Definition total (cells : list (bool * message)) : Z := foldr (λ (c : bool * message) n, span c.2 + n) 0 cells.

(** The file holds the queue [q]. *)
Record holds (b : list Z) (q : list message) (h : msgq_hdr) (cells : list (bool * message)) : Prop := {
  ho_hdr : pread b 0 40 = hdr_image h;
  ho_magic : h_magic h = MSGQ_MAGIC;
  ho_head : 40 ≤ h_head h;
  ho_cells : cells_at b (h_head h) cells (h_tail h);
  ho_q : lives cells = q;
  ho_qnum : h_qnum h = Z.of_nat (length q);
  ho_cbytes : h_cbytes h = bytes_of q;
  ho_tail : h_tail h ≤ Z.of_nat (length b) + 7;
  ho_first : match cells with [] => h_head h = 40 | c :: _ => c.1 = true end;
}.
Definition repr (b : list Z) (q : list message) : Prop := ∃ h cells, holds b q h cells.

Lemma cells_at_app b l1 : ∀ off l2 tail, cells_at b off (l1 ++ l2) tail ↔ cells_at b off l1 (off + total l1) ∧ cells_at b (off + total l1) l2 tail.
Proof.
  induction l1 as [|c l1 IH]; intros off l2 tail; cbn [cells_at app total foldr].
  - rewrite Z.add_0_r. naive_solver.
  - rewrite IH. fold (total l1). replace (off + (span c.2 + total l1)) with (off + span c.2 + total l1) by lia. naive_solver.
Qed.

Lemma cells_total b cells : ∀ off tail, cells_at b off cells tail → tail = off + total cells.
Proof.
  induction cells as [|c cells IH]; intros off tail; cbn [cells_at total foldr]; [lia|]. fold (total cells). intros (_ & _ & _ & Hc).
  apply IH in Hc. lia.
Qed.

Lemma total_bounds cells : 24 * Z.of_nat (length cells) ≤ total cells ∧ bytes_of (lives cells) ≤ total cells ∧ 0 ≤ bytes_of (lives cells) ∧
  Z.of_nat (length (lives cells)) ≤ Z.of_nat (length cells).
Proof.
  induction cells as [|[lv m] cells (I1 & I2 & I3 & I4)]; [done|]. cbn [total foldr lives omap length fst snd list_omap]. fold (total cells). fold (lives cells).
  pose proof (span_bounds m). assert (0 ≤ size_of m) by (unfold size_of; lia). destruct lv; cbn [bytes_of foldr length]; fold (bytes_of (lives cells)).
  - unfold lives in *. cbn in *. lia.
  - unfold lives in *. cbn in *. lia.
Qed.

(** ** Frames *)

Lemma pread_length b off l : 0 ≤ off → pread b off (Z.of_nat (length l)) = l → l ≠ [] → off + Z.of_nat (length l) ≤ Z.of_nat (length b).
Proof. intros Ho Hr Hl. assert (length l ≠ 0%nat) by (by destruct l). apply length_pread; [lia..|by rewrite Hr|lia]. Qed.

Lemma cell_within b off c : 0 ≤ off → pread b off 24 = rec_image (cell_rec c) → pread b (off + 24) (size_of c.2) = c.2.2 →
  off + 24 + size_of c.2 ≤ Z.of_nat (length b).
Proof.
  intros Ho Hr Ht. assert (off + 24 ≤ Z.of_nat (length b)) as H1.
  { change 24 with (Z.of_nat 24). rewrite <- (length_rec (cell_rec c)). apply pread_length; [done| |done]. by rewrite length_rec. }
  destruct c as [lv [ty [|z t]]]; cbn [snd] in *; unfold size_of in *; cbn [snd] in *; [cbn [length]; lia|].
  apply pread_length in Ht; [lia..|done].
Qed.

(** Records survive whatever leaves the bytes between [off] and [tail] alone. *)
Lemma cells_frame b b' cells : ∀ off tail,
  0 ≤ off → cells_at b off cells tail →
  (∀ o n, off ≤ o → 0 ≤ n → o + n ≤ tail → o + n ≤ Z.of_nat (length b) → pread b' o n = pread b o n) →
  cells_at b' off cells tail.
Proof.
  induction cells as [|c cells IH]; intros off tail Ho; cbn [cells_at]; [done|]. intros (Hr & Ht & Hm & Hc) Hf.
  pose proof (cell_within _ _ _ Ho Hr Ht). pose proof (span_bounds c.2). pose proof (cells_total _ _ _ _ Hc). pose proof (total_bounds cells).
  assert (0 ≤ size_of c.2) by (unfold size_of; lia).
  rewrite !Hf by lia. split_and!; [done..|]. apply IH; [lia|done|]. intros o n Hon. apply Hf. lia.
Qed.

Lemma cells_frame_write b cells off tail o l :
  0 ≤ off → cells_at b off cells tail → 0 ≤ o → (tail ≤ o ∨ o + Z.of_nat (length l) ≤ off) → cells_at (pwrite b o l) off cells tail.
Proof. intros Ho Hc Hp Hd. apply (cells_frame b); [done..|]. intros o' n' H1 H2 H3 H4. apply pread_pwrite_other; lia. Qed.

(** Marking a record dead. *)
Lemma cells_kill b off pre m post tail :
  0 ≤ off → cells_at b off (pre ++ (true, m) :: post) tail →
  cells_at (pwrite b (off + total pre) (rec_image (cell_rec (false, m)))) off (pre ++ (false, m) :: post) tail.
Proof.
  intros Ho. rewrite !cells_at_app. cbn [cells_at fst snd]. intros (H1 & H2 & H3 & Hm & H4). pose proof (total_bounds pre). pose proof (span_bounds m).
  assert (0 ≤ size_of m) by (unfold size_of; lia). pose proof (length_rec (cell_rec (false, m))) as Hl. split_and!.
  - apply cells_frame_write; [lia|done|lia|lia].
  - change 24 with (Z.of_nat 24). rewrite <- Hl. apply pread_pwrite_same. lia.
  - rewrite pread_pwrite_other; [done|lia..].
  - done.
  - apply cells_frame_write; [lia|done|lia|lia].
Qed.

(** Appending one. *)
Lemma cells_append b off cells tail m :
  0 ≤ off → msg_ok m → cells_at b off cells tail →
  let b' := pwrite b tail (rec_image (cell_rec (true, m))) in
  let b' := if 0 <? size_of m then pwrite b' (tail + 24) m.2 else b' in
  cells_at b' off (cells ++ [(true, m)]) (tail + span m) ∧ Z.of_nat (length b') = Z.max (Z.of_nat (length b)) (tail + 24 + size_of m).
Proof.
  intros Ho Hm Hc b1 b2. pose proof (cells_total _ _ _ _ Hc) as Ht. pose proof (total_bounds cells). pose proof (length_rec (cell_rec (true, m))) as Hl.
  assert (Z.of_nat (length b1) = Z.max (Z.of_nat (length b)) (tail + 24)) as Hb1 by (unfold b1; rewrite length_pwrite, Hl; lia).
  assert (cells_at b1 off cells tail) as Hc1 by (apply cells_frame_write; [done..|lia|lia]).
  assert (pread b1 tail 24 = rec_image (cell_rec (true, m))) as Hr1.
  { change 24 with (Z.of_nat 24). rewrite <- Hl. apply pread_pwrite_same. lia. }
  rewrite cells_at_app, <- Ht. cbn [cells_at fst snd]. assert (0 ≤ size_of m) by (unfold size_of; lia). subst b2. destruct (Z.ltb_spec 0 (size_of m)) as [Hz|Hz].
  - split_and!.
    + apply cells_frame_write; [done..|lia|lia].
    + rewrite pread_pwrite_other; [done|lia..].
    + apply pread_pwrite_same. lia.
    + done.
    + done.
    + rewrite length_pwrite by lia. unfold size_of in *. lia.
  - assert (m.2 = []) as Hn by (destruct m as [ty [|]]; [done|unfold size_of in *; cbn in *; lia]). split_and!; try done.
    + unfold size_of. rewrite Hn. done.
    + lia.
Qed.

(** ** The choice of a message *)

(** msgrcv takes the first message that fits, or, for a negative type, the
    first one of the lowest type. *)
Definition chosen (msgtyp msgflg : Z) (q1 : list message) (m : message) (q2 : list message) : Prop :=
  matches msgtyp msgflg m.1 = true ∧
  if msgtyp >=? 0 then Forall (λ m', matches msgtyp msgflg m'.1 = false) q1
  else Forall (λ m', m.1 < m'.1) q1 ∧ Forall (λ m', m.1 ≤ m'.1) q2.

(** What the loop carries, over the records. *)
Fixpoint scan (msgtyp msgflg off : Z) (cells : list (bool * message)) (best : Z * msgq_rec) : Z * msgq_rec :=
  match cells with
  | [] => best
  | (lv, m) :: cells =>
      let next := off + span m in
      if negb lv then scan msgtyp msgflg next cells best
      else if matches msgtyp msgflg m.1 then
        if msgtyp >=? 0 then (off, cell_rec (true, m))
        else scan msgtyp msgflg next cells (if (best.1 =? 0) || (m.1 <? r_type best.2) then (off, cell_rec (true, m)) else best)
      else scan msgtyp msgflg next cells best
  end.

Lemma rec_read_cell b off c : pread b off 24 = rec_image (cell_rec c) → msg_ok c.2 → rec_read b off = Some (cell_rec c).
Proof.
  intros Hr [Hm Hs]. unfold rec_read. rewrite Hr, length_rec. cbn [Nat.eqb]. rewrite rec_of_image; [done| | |]; unfold cell_rec; cbn [r_live r_type r_size].
  - by destruct c.1.
  - lia.
  - unfold MSG_MAX, size_of in *. lia.
Qed.

Lemma pick_scan b msgtyp msgflg tail cells : ∀ fuel off best,
  40 ≤ off → tail < 2^64 → cells_at b off cells tail → (length cells ≤ fuel)%nat →
  pick_loop fuel b tail msgtyp msgflg off best = Ret (scan msgtyp msgflg off cells best).
Proof.
  induction cells as [|[lv m] cells IH]; intros fuel off best Ho Ht Hc Hf; cbn [cells_at] in Hc.
  - subst off. destruct fuel; cbn [pick_loop]; by rewrite Z.ltb_irrefl.
  - destruct Hc as (Hr & _ & Hm & Hc). cbn [length] in Hf. destruct fuel as [|fuel]; [lia|]. cbn [pick_loop scan snd] in *.
    pose proof (cells_total _ _ _ _ Hc). pose proof (total_bounds cells). pose proof (span_bounds m). assert (0 ≤ size_of m) by (unfold size_of; lia).
    destruct (Z.ltb_spec off tail); [|lia]. rewrite (rec_read_cell _ _ _ Hr) by done. 
    change (r_size (cell_rec (lv, m))) with (size_of m). change (r_type (cell_rec (lv, m))) with m.1. change (r_live (cell_rec (lv, m))) with (if lv then 1 else 0).
    rewrite rec_span_eq by done. rewrite u64_small by lia.
    destruct lv; cbn [negb Z.eqb]; [|apply IH; [lia..|done|lia]].
    destruct (matches _ _ _); [|apply IH; [lia..|done|lia]]. destruct (msgtyp >=? 0); [done|apply IH; [lia..|done|lia]].
Qed.

(** What the loop has found in the records [seen]. *)
Definition picked (msgtyp msgflg head : Z) (seen : list (bool * message)) (best : Z * msgq_rec) : Prop :=
  best.1 = 0 ∧ Forall (λ m, matches msgtyp msgflg m.1 = false) (lives seen) ∨
  ∃ pre m post, seen = pre ++ (true, m) :: post ∧ best = (head + total pre, cell_rec (true, m)) ∧
    chosen msgtyp msgflg (lives pre) m (lives post).

Lemma lives_app l1 l2 : lives (l1 ++ l2) = lives l1 ++ lives l2.
Proof. apply omap_app. Qed.

Lemma total_app l1 l2 : total (l1 ++ l2) = total l1 + total l2.
Proof. induction l1 as [|c l1 IH]; [done|]. cbn [app total foldr]. fold (total (l1 ++ l2)) (total l1). lia. Qed.

(** A record the call does not want changes nothing. *)
Lemma picked_skip msgtyp msgflg head seen best lv m :
  picked msgtyp msgflg head seen best → (lv = true → matches msgtyp msgflg m.1 = false) → picked msgtyp msgflg head (seen ++ [(lv, m)]) best.
Proof.
  intros [[Hb Hn]|(pre & m' & post & -> & Hb & Hm & Hc)] Hs.
  - left. split; [done|]. rewrite lives_app, Forall_app. split; [done|]. destruct lv; [|done]. apply Forall_cons. auto.
  - right. exists pre, m', (post ++ [(lv, m)]). rewrite <- app_assoc. split_and!; [done..|]. split; [done|]. rewrite lives_app.
    destruct (msgtyp >=? 0) eqn:E; [done|]. destruct Hc as [H1 H2]. split; [done|]. rewrite Forall_app. split; [done|].
    destruct lv; [|done]. apply Forall_singleton. specialize (Hs eq_refl). unfold matches in *. rewrite Z.geb_leb, Z.leb_gt in E.
    destruct (Z.eqb_spec msgtyp 0); [lia|]. destruct (Z.gtb_spec msgtyp 0); [lia|]. cbn. lia.
Qed.

(** One it wants more than what it has, for a negative type. *)
Lemma picked_take msgtyp msgflg head seen best m :
  0 < head → msgtyp < 0 → picked msgtyp msgflg head seen best → matches msgtyp msgflg m.1 = true →
  picked msgtyp msgflg head (seen ++ [(true, m)])
    (if (best.1 =? 0) || (m.1 <? r_type best.2) then (head + total seen, cell_rec (true, m)) else best).
Proof.
  intros Hh Hneg Hp Hm. assert ((msgtyp >=? 0) = false) as E by lia.
  assert (∀ t, matches msgtyp msgflg t = (t <=? s64 (- msgtyp))) as Hmt.
  { intros t. unfold matches. destruct (Z.eqb_spec msgtyp 0); [lia|]. by destruct (Z.gtb_spec msgtyp 0); [lia|]. }
  assert ((∀ m', m' ∈ lives seen → m.1 < m'.1) → picked msgtyp msgflg head (seen ++ [(true, m)]) (head + total seen, cell_rec (true, m))) as Hnew.
  { intros Hlt. right. exists seen, m, []. split_and!; [done..|]. split; [done|]. rewrite E. split; [by apply Forall_forall|done]. }
  rewrite Hmt in Hm. destruct Hp as [[Hb Hn]|(pre & m' & post & -> & -> & Hm' & Hc)].
  - rewrite Hb. cbn [Z.eqb orb]. apply Hnew. intros m' Hin. rewrite Forall_forall in Hn. apply Hn in Hin. rewrite Hmt in Hin. lia.
  - pose proof (total_bounds pre). rewrite E in Hc. destruct Hc as [H1 H2]. cbn [fst snd]. destruct (Z.eqb_spec (head + total pre) 0); [lia|].
    unfold cell_rec at 1. cbn [orb r_type fst snd]. destruct (Z.ltb_spec m.1 m'.1) as [Hlt|Hge].
    + apply Hnew. intros m0. rewrite lives_app, elem_of_app. rewrite Forall_forall in H1, H2.
      intros [Hin|Hin]; [apply H1 in Hin; lia|]. apply elem_of_cons in Hin as [->|Hin]; [exact Hlt|]. apply H2 in Hin. lia.
    + right. exists pre, m', (post ++ [(true, m)]). rewrite <- app_assoc. split_and!; [done..|]. split; [done|]. rewrite E. split; [done|].
      rewrite lives_app, Forall_app. split; [done|]. by apply Forall_singleton.
Qed.

Lemma scan_picked msgtyp msgflg head rest : 0 < head → ∀ seen best,
  picked msgtyp msgflg head seen best → (0 ≤ msgtyp → best.1 = 0) →
  picked msgtyp msgflg head (seen ++ rest) (scan msgtyp msgflg (head + total seen) rest best).
Proof.
  intros Hh. induction rest as [|[lv m] rest IH]; intros seen best Hp Hb; cbn [scan]; [by rewrite app_nil_r|].
  assert (∀ best', picked msgtyp msgflg head (seen ++ [(lv, m)]) best' → (0 ≤ msgtyp → best'.1 = 0) →
    picked msgtyp msgflg head (seen ++ (lv, m) :: rest) (scan msgtyp msgflg (head + total seen + span m) rest best')) as Hstep.
  { intros best' H1 H2. specialize (IH _ _ H1 H2). rewrite <- app_assoc, total_app in IH. cbn [total foldr snd app] in IH.
    by replace (head + (total seen + (span m + 0))) with (head + total seen + span m) in IH by lia. }
  destruct lv; cbn [negb]; [|apply Hstep; [by apply picked_skip|done]].
  destruct (matches msgtyp msgflg m.1) eqn:Em; [|apply Hstep; [by apply picked_skip|done]].
  destruct (msgtyp >=? 0) eqn:E.
  - right. exists seen, m, rest. split_and!; [done..|]. split; [done|]. rewrite E.
    destruct Hp as [[_ Hn]|(pre & m' & post & _ & -> & _)]; [done|]. cbn [fst] in Hb. pose proof (total_bounds pre). lia.
  - apply Hstep; [|lia]. apply picked_take; [done|lia|done..].
Qed.

Lemma pick_correct b q h cells msgtyp msgflg :
  holds b q h cells → h_tail h < 2^64 →
  ∃ best, pick b h msgtyp msgflg = Ret best ∧ picked msgtyp msgflg (h_head h) cells best.
Proof.
  intros Hh Ht. destruct Hh. pose proof (cells_total _ _ _ _ ho_cells0). pose proof (total_bounds cells).
  eexists. unfold pick. rewrite (pick_scan _ _ _ _ cells); [split; [done|]|lia|lia|done|unfold walk_fuel].
  - replace (h_head h) with (h_head h + total []) at 2 by (cbn; lia). apply (scan_picked msgtyp msgflg (h_head h) cells ltac:(lia) []); [by left|done].
  - assert (Z.of_nat (length cells) ≤ (h_tail h - h_head h) / 24) by (apply Z.div_le_lower_bound; lia). lia.
Qed.

(** ** The invariant, kept *)

Lemma holds_hdr b q h cells : holds b q h cells → Z.of_nat (length b) < 2^62 → hdr_ok h ∧ 40 ≤ Z.of_nat (length b).
Proof.
  intros Hh Hb. destruct Hh. pose proof (cells_total _ _ _ _ ho_cells0). pose proof (total_bounds cells). subst q.
  assert (40 ≤ Z.of_nat (length b)) as H40.
  { pose proof (pread_length b 0 (hdr_image h)) as Hl. rewrite length_hdr in Hl. apply Hl; [lia|done|done]. }
  split; [|done]. constructor; [rewrite ho_magic0; done|lia..].
Qed.

Lemma hdr_read_holds b q h cells : holds b q h cells → Z.of_nat (length b) < 2^62 → hdr_read b = Some h.
Proof.
  intros Hh Hb. destruct (holds_hdr _ _ _ _ Hh Hb) as [Hok _]. destruct Hh. unfold hdr_read.
  by rewrite ho_hdr0, length_hdr, hdr_of_image, ho_magic0.
Qed.

(** Writing a header completes a file of records. *)
Lemma hdr_write_holds b q h cells :
  h_magic h = MSGQ_MAGIC → 40 ≤ h_head h → cells_at b (h_head h) cells (h_tail h) → lives cells = q →
  h_qnum h = Z.of_nat (length q) → h_cbytes h = bytes_of q → 40 ≤ Z.of_nat (length b) → h_tail h ≤ Z.of_nat (length b) + 7 →
  match cells with [] => h_head h = 40 | c :: _ => c.1 = true end →
  holds (hdr_write b h) q h cells ∧ length (hdr_write b h) = length b.
Proof.
  intros H1 H2 H3 H4 H5 H6 H7 H8 H9. pose proof (length_hdr h) as Hl.
  assert (Z.of_nat (length (hdr_write b h)) = Z.of_nat (length b)) as Hlen by (unfold hdr_write; rewrite length_pwrite; lia).
  split; [|lia]. constructor; try done.
  - apply cells_frame_write; [lia|done|lia|lia].
  - by rewrite Hlen.
Qed.

Lemma compact_drops b tail cells : ∀ fuel off,
  40 ≤ off → tail < 2^64 → cells_at b off cells tail → (length cells ≤ fuel)%nat →
  ∃ pre post, cells = pre ++ post ∧ lives pre = [] ∧ match post with [] => True | c :: _ => c.1 = true end ∧
    compact_loop fuel b off tail = Ret (off + total pre).
Proof.
  induction cells as [|[lv m] cells IH]; intros fuel off Ho Ht Hc Hf; cbn [cells_at] in Hc.
  - subst off. exists [], []. split_and!; try done. destruct fuel; cbn; rewrite Z.ltb_irrefl; by rewrite Z.add_0_r.
  - destruct Hc as (Hr & _ & Hm & Hc). cbn [length] in Hf. destruct fuel as [|fuel]; [lia|]. cbn [compact_loop snd] in *.
    pose proof (cells_total _ _ _ _ Hc). pose proof (total_bounds cells). pose proof (span_bounds m). assert (0 ≤ size_of m) by (unfold size_of; lia).
    destruct (Z.ltb_spec off tail); [|lia]. rewrite (rec_read_cell _ _ _ Hr) by done.
    change (r_size (cell_rec (lv, m))) with (size_of m). change (r_live (cell_rec (lv, m))) with (if lv then 1 else 0).
    rewrite rec_span_eq by done. rewrite u64_small by lia. destruct lv; cbn [Z.eqb].
    + exists [], ((true, m) :: cells). cbn. by rewrite Z.add_0_r.
    + destruct (IH fuel (off + span m)) as (pre & post & -> & H4 & H5 & H6); [lia..|done|lia|].
      exists ((false, m) :: pre), post. split_and!; try done. rewrite H6. cbn [total foldr snd]. fold (total pre). f_equal. lia.
Qed.

(** Compaction and the header written after it leave the messages alone. *)
Lemma compact_holds trunc b q h cells :
  h_magic h = MSGQ_MAGIC → 40 ≤ h_head h → cells_at b (h_head h) cells (h_tail h) → lives cells = q →
  h_qnum h = Z.of_nat (length q) → h_cbytes h = bytes_of q → 40 ≤ Z.of_nat (length b) → h_tail h ≤ Z.of_nat (length b) + 7 →
  Z.of_nat (length b) < 2^62 →
  ∃ h' b', compact trunc b h = Ret (h', b') ∧ repr (hdr_write b' h') q ∧ (length (hdr_write b' h') ≤ length b)%nat.
Proof.
  intros H1 H2 H3 H4 H5 H6 H7 H8 H9. pose proof (cells_total _ _ _ _ H3) as Ht. pose proof (total_bounds cells).
  destruct (compact_drops b (h_tail h) cells (walk_fuel h) (h_head h)) as (pre & post & -> & Hp & Hf & Hl); [lia..|done| |].
  { assert (Z.of_nat (length cells) ≤ (h_tail h - h_head h) / 24) by (apply Z.div_le_lower_bound; lia). unfold walk_fuel. lia. }
  rewrite lives_app, Hp in H4. cbn [app] in H4. apply cells_at_app in H3 as [_ H3].
  unfold compact. rewrite Hl. cbn [mbind outcome_bind]. pose proof (cells_total _ _ _ _ H3) as Ht'. pose proof (total_bounds pre). pose proof (total_bounds post).
  destruct post as [|c post].
  - cbn [cells_at] in H3. rewrite Z.geb_leb. destruct (Z.leb_spec (h_tail h) (h_head h + total pre)); [|lia].
    eexists _, _. split; [done|]. set (h' := mk_hdr _ _ _ _ _). set (b' := if trunc then _ else _).
    assert (40 ≤ Z.of_nat (length b') ≤ Z.of_nat (length b)) as Hb' by (unfold b'; destruct trunc; [rewrite length_take; lia|lia]).
    destruct (hdr_write_holds b' q h' []) as [G1 G2]; [done..|cbn; lia|cbn; lia|done|]. split; [by exists h', []|lia].
  - assert (0 < total (c :: post)).
    { cbn [total foldr]. fold (total post). pose proof (total_bounds post). pose proof (span_bounds c.2). unfold size_of in *. lia. }
    rewrite Z.geb_leb. destruct (Z.leb_spec (h_tail h) (h_head h + total pre)); [lia|].
    eexists _, _. split; [done|]. set (h' := mk_hdr _ _ _ _ _).
    destruct (hdr_write_holds b q h' (c :: post)) as [G1 G2]; try done; [cbn; lia|]. split; [by exists h', (c :: post)|lia].
Qed.

Lemma bytes_app q1 q2 : bytes_of (q1 ++ q2) = bytes_of q1 + bytes_of q2.
Proof. induction q1 as [|m q1 IH]; [done|]. cbn [app bytes_of foldr]. fold (bytes_of (q1 ++ q2)) (bytes_of q1). lia. Qed.

Lemma bytes_nonneg q : 0 ≤ bytes_of q.
Proof. induction q as [|m q IH]; [done|]. cbn [bytes_of foldr]. fold (bytes_of q). unfold size_of. lia. Qed.

(** ** The operations *)

Lemma queue_init_repr : repr (queue_init []) [].
Proof.
  assert (queue_init [] = hdr_write [] (mk_hdr MSGQ_MAGIC 40 40 0 0)) as -> by done. exists (mk_hdr MSGQ_MAGIC 40 40 0 0), [].
  constructor; try done.
Qed.

Lemma queue_init_again b q : repr b q → Z.of_nat (length b) < 2^62 → queue_init b = b.
Proof. intros (h & cells & Hh) Hb. unfold queue_init. by rewrite (hdr_read_holds b q h cells). Qed.

Lemma send_turn_spec b q m qbytes :
  repr b q → Z.of_nat (length b) < 2^62 → msg_ok m → 
  if decide (bytes_of q + size_of m ≤ qbytes) then
    ∃ b', send_turn m.1 m.2 qbytes b = (Sent, b') ∧ repr b' (q ++ [m]) ∧
      Z.of_nat (length b') ≤ Z.of_nat (length b) + 7 + 24 + size_of m
  else send_turn m.1 m.2 qbytes b = (Full, b).
Proof.
  intros (h & cells & Hh) Hb Hm. pose proof (hdr_read_holds _ _ _ _ Hh Hb) as Hr. destruct (holds_hdr _ _ _ _ Hh Hb) as [Hok H40]. destruct Hh.
  pose proof (cells_total _ _ _ _ ho_cells0). pose proof (total_bounds cells) as Htb. pose proof (span_bounds m). rewrite ho_q0 in Htb.
  unfold send_turn. rewrite Hr. fold (size_of m). assert (0 ≤ size_of m ≤ MSG_MAX) as Hs by (destruct Hm; unfold size_of in *; lia).
  unfold MSG_MAX in Hs. rewrite ho_cbytes0. rewrite (u64_small (bytes_of q + size_of m)) by lia.
  case_decide as Hd; destruct (Z.leb_spec (bytes_of q + size_of m) qbytes); try lia; [|done].
  destruct (cells_append b (h_head h) cells (h_tail h) m) as [Hc Hl]; [lia|done..|]. change (mk_rec 1 m.1 (size_of m)) with (cell_rec (true, m)).
  set (b1 := if 0 <? size_of m then _ else _) in *. clearbody b1. rewrite rec_span_eq by done.
  assert (span m ≤ 24 + size_of m + 7) by (unfold span; lia_mod).
  rewrite (u64_small (h_tail h + span m)), (u64_small (h_qnum h + 1)) by lia.
  set (h' := mk_hdr _ _ _ _ _). eexists. split; [done|].
  destruct (hdr_write_holds b1 (q ++ [m]) h' (cells ++ [(true, m)])) as [G1 G2]; try done; cbn [h' h_tail h_qnum h_cbytes]; try lia.
  - by rewrite lives_app, ho_q0.
  - rewrite length_app. cbn. lia.
  - rewrite bytes_app. cbn. lia.
  - destruct cells as [|c cells]; [done|exact ho_first0].
  - split; [by exists h', (cells ++ [(true, m)])|]. rewrite G2. lia.
Qed.

(** What a receive may answer, and the queue it leaves. *)
Definition spec_recv (msgsz msgtyp msgflg : Z) (q : list message) (r : received) (q' : list message) : Prop :=
  match r with
  | Nothing => q' = q ∧ Forall (λ m, matches msgtyp msgflg m.1 = false) q
  | RcvError e => q' = q ∧ e = - E2BIG ∧ has msgflg LINUX_MSG_NOERROR = false ∧
      ∃ q1 m q2, q = q1 ++ m :: q2 ∧ chosen msgtyp msgflg q1 m q2 ∧ msgsz < size_of m
  | Received type text => ∃ q1 m q2, q = q1 ++ m :: q2 ∧ chosen msgtyp msgflg q1 m q2 ∧
      (size_of m ≤ msgsz ∨ has msgflg LINUX_MSG_NOERROR = true) ∧
      type = m.1 ∧ text = take (Z.to_nat msgsz) m.2 ∧ q' = q1 ++ q2
  end.

Lemma pread_take b off n m : 0 ≤ m ≤ n → pread b off m = take (Z.to_nat m) (pread b off n).
Proof. intros Hm. unfold pread. rewrite take_take. f_equal. lia. Qed.

(** The bytes of the text the receiver gets. *)
Lemma cell_text b off m msgsz : 0 ≤ msgsz → pread b (off + 24) (size_of m) = m.2 →
  pread b (off + 24) (if size_of m >? msgsz then msgsz else size_of m) = take (Z.to_nat msgsz) m.2 ∧
  Z.of_nat (length (take (Z.to_nat msgsz) m.2)) = (if size_of m >? msgsz then msgsz else size_of m).
Proof.
  intros Hs Ht. rewrite length_take. fold (size_of m). rewrite Z.gtb_ltb. destruct (Z.ltb_spec msgsz (size_of m)); unfold size_of in *.
  - rewrite (pread_take _ _ (Z.of_nat (length m.2))) by lia. rewrite Ht. split; [done|lia].
  - rewrite Ht, take_ge by lia. split; [done|lia].
Qed.

Lemma recv_turn_spec trunc b q msgsz msgtyp msgflg :
  repr b q → Z.of_nat (length b) < 2^62 → 0 ≤ msgsz →
  ∃ r b' q', recv_turn trunc msgsz msgtyp msgflg b = Ret (r, b') ∧ spec_recv msgsz msgtyp msgflg q r q' ∧ repr b' q' ∧
    (length b' ≤ length b)%nat.
Proof.
  intros (h & cells & Hh) Hb Hs. pose proof (hdr_read_holds _ _ _ _ Hh Hb) as Hr. destruct (holds_hdr _ _ _ _ Hh Hb) as [Hok H40].
  assert (repr b q) as Hrepr by (by exists h, cells).
  unfold recv_turn. rewrite Hr. destruct (pick_correct _ _ _ _ msgtyp msgflg Hh (proj2 (hk_tail _ Hok))) as ([off rec] & -> & Hp). cbn [mbind outcome_bind].
  destruct Hp as [[H0 Hn]|(pre & m & post & Hcells & Hbest & Hch)].
  { cbn [fst] in H0. subst off. cbn [Z.eqb]. exists Nothing, b, q. rewrite (ho_q _ _ _ _ Hh) in Hn. done. }
  injection Hbest as -> ->. destruct Hh. pose proof (total_bounds pre). destruct (Z.eqb_spec (h_head h + total pre) 0); [lia|].
  change (r_size (cell_rec (true, m))) with (size_of m). change (r_type (cell_rec (true, m))) with m.1.
  subst cells. rewrite lives_app in ho_q0. change (lives ((true, m) :: post)) with (m :: lives post) in ho_q0.
  pose proof ho_cells0 as Hc. apply cells_at_app in Hc as [_ (_ & Htext & Hm & _)]. cbn [snd] in Htext, Hm.
  destruct ((size_of m >? msgsz) && negb (has msgflg LINUX_MSG_NOERROR)) eqn:E.
  { apply andb_true_iff in E as [E1 E2]. exists (RcvError (- E2BIG)), b, q. split_and!; try done. split_and!; try done; [by apply negb_true_iff in E2|].
    exists (lives pre), m, (lives post). split_and!; [done..|lia]. }
  destruct (cell_text b _ m msgsz Hs Htext) as [-> ->]. rewrite Z.eqb_refl. cbn [negb].
  change (mk_rec 0 m.1 (size_of m)) with (cell_rec (false, m)).
  pose proof (cells_kill b (h_head h) pre m post (h_tail h) ltac:(lia) ho_cells0) as Hk. set (b1 := pwrite b _ _) in *.
  assert (0 ≤ size_of m) by (unfold size_of; lia). pose proof (span_bounds m). pose proof (total_bounds post). pose proof (cells_total _ _ _ _ ho_cells0) as Ht.
  rewrite total_app in Ht. cbn [total foldr snd] in Ht. fold (total post) in Ht.
  apply cells_at_app in ho_cells0 as [_ (Hrec & Htx & _)]. cbn [snd] in *.
  pose proof (cell_within b (h_head h + total pre) (true, m) ltac:(lia) Hrec Htx) as Hw. cbn [snd] in Hw.
  assert (Z.of_nat (length b1) = Z.of_nat (length b)) as Hl1 by (unfold b1; rewrite length_pwrite, length_rec; lia).
  destruct Hok. rewrite ho_qnum0, ho_cbytes0 in *. subst q. rewrite length_app, bytes_app in *. cbn [length bytes_of foldr] in *. fold (bytes_of (lives post)) in *.
  rewrite !u64_small by lia. set (h' := mk_hdr _ _ _ _ _).
  destruct (compact_holds trunc b1 (lives pre ++ lives post) h' (pre ++ (false, m) :: post)) as (h2 & b2 & -> & Hrp & Hln); cbn [h' h_magic h_head h_tail h_qnum h_cbytes]; try done; try lia.
  - by rewrite lives_app.
  - rewrite length_app. lia.
  - rewrite bytes_app. lia.
  - cbn [mbind outcome_bind]. eexists _, _, _. split; [done|]. split; [|split; [exact Hrp|lia]].
    exists (lives pre), m, (lives post). split_and!; try done.
    destruct (has msgflg LINUX_MSG_NOERROR); [by right|left]. rewrite andb_true_r in E. lia.
Qed.

(** ** Histories *)

(** The operations several processes make under the lock, in its order. *)
Inductive turn := TSend (m : message) (qbytes : Z) | TRecv (trunc : bool) (msgsz msgtyp msgflg : Z).
Inductive answered := ASend (r : sent) | ARecv (r : received).

Definition run_turn (t : turn) (b : list Z) : outcome (answered * list Z) :=
  match t with
  | TSend m qbytes => let '(r, b) := send_turn m.1 m.2 qbytes b in Ret (ASend r, b)
  | TRecv trunc msgsz msgtyp msgflg => '(r, b) ← recv_turn trunc msgsz msgtyp msgflg b; Ret (ARecv r, b)
  end.

Fixpoint run_turns (l : list turn) (b : list Z) : outcome (list answered * list Z) :=
  match l with
  | [] => Ret ([], b)
  | t :: l => '(r, b) ← run_turn t b; '(rs, b) ← run_turns l b; Ret (r :: rs, b)
  end.

(** The queue msgop(2) describes: a list, appended to while the limit allows. *)
Inductive queue_step : turn → list message → answered → list message → Prop :=
  | q_sent m qbytes q : bytes_of q + size_of m ≤ qbytes → queue_step (TSend m qbytes) q (ASend Sent) (q ++ [m])
  | q_full m qbytes q : qbytes < bytes_of q + size_of m → queue_step (TSend m qbytes) q (ASend Full) q
  | q_recv trunc msgsz msgtyp msgflg q r q' : spec_recv msgsz msgtyp msgflg q r q' →
      queue_step (TRecv trunc msgsz msgtyp msgflg) q (ARecv r) q'.

Inductive queue_steps : list turn → list message → list answered → list message → Prop :=
  | qs_nil q : queue_steps [] q [] q
  | qs_cons t l q r q1 rs q2 : queue_step t q r q1 → queue_steps l q1 rs q2 → queue_steps (t :: l) q (r :: rs) q2.

Definition turn_ok (t : turn) : Prop := match t with TSend m _ => msg_ok m | TRecv _ msgsz _ _ => 0 ≤ msgsz end.

Lemma run_turn_refines t b q :
  repr b q → Z.of_nat (length b) < 2^62 → turn_ok t →
  ∃ r b' q', run_turn t b = Ret (r, b') ∧ queue_step t q r q' ∧ repr b' q' ∧ Z.of_nat (length b') ≤ Z.of_nat (length b) + 8223.
Proof.
  intros Hr Hb Ht. destruct t as [m qbytes|trunc msgsz msgtyp msgflg]; cbn [run_turn].
  - pose proof (send_turn_spec b q m qbytes Hr Hb Ht) as Hs. destruct Ht as [_ Hm]. unfold MSG_MAX in Hm. case_decide.
    + destruct Hs as (b' & -> & Hr' & Hl). exists (ASend Sent), b', (q ++ [m]). split_and!; [done|by constructor|done|lia].
    + rewrite Hs. exists (ASend Full), b, q. split_and!; [done|constructor; lia|done|lia].
  - destruct (recv_turn_spec trunc b q msgsz msgtyp msgflg Hr Hb Ht) as (r & b' & q' & -> & Hs & Hr' & Hl).
    exists (ARecv r), b', q'. split_and!; [done|by constructor|done|lia].
Qed.

Lemma run_turns_refine l : ∀ b q,
  repr b q → Forall turn_ok l → Z.of_nat (length b) + 8223 * Z.of_nat (length l) < 2^62 →
  ∃ rs b' q', run_turns l b = Ret (rs, b') ∧ queue_steps l q rs q' ∧ repr b' q' ∧ Z.of_nat (length b') < 2^62.
Proof.
  induction l as [|t l IH]; intros b q Hr Hl Hb; [exists [], b, q; split_and!; [done|constructor|done|lia]|].
  apply Forall_cons in Hl as [Ht Hl]. cbn [length] in Hb.
  destruct (run_turn_refines t b q Hr) as (r & b1 & q1 & E1 & Hs & Hr1 & Hb1); [lia|done|].
  destruct (IH b1 q1 Hr1 Hl) as (rs & b2 & q2 & E2 & Hs2 & Hr2 & Hb2); [lia|].
  exists (r :: rs), b2, q2. cbn [run_turns]. rewrite E1. cbn [mbind outcome_bind]. rewrite E2. split_and!; [done| |done|done]. by apply (qs_cons _ _ _ _ q1).
Qed.

(** C30: The file of a message queue is a queue: whatever sends and receives
    processes make on it in the order of its lock, every one of them returns,
    and the answers are those of a list of messages - a send appends while the
    limit on bytes allows it, a receive takes the first message that fits (for
    a negative type the first of the lowest type), cut to the caller's size
    only under MSG_NOERROR, and E2BIG leaves it in place - whether or not the
    file could be truncated, and with dead records still between live ones;
    and IPC_STAT counts exactly what is queued. *)
Theorem msgq_refines l :
  Forall turn_ok l → Z.of_nat (length l) < 2^48 →
  ∃ rs b q, run_turns l (queue_init []) = Ret (rs, b) ∧ queue_steps l [] rs q ∧ sysv_msg_stats b = (Z.of_nat (length q), bytes_of q).
Proof.
  intros Hl Hn. assert (Z.of_nat (length (queue_init [])) = 40) as H40 by done.
  destruct (run_turns_refine l _ _ queue_init_repr Hl) as (rs & b & q & E & Hs & (h & cells & Hh) & Hb); [lia|].
  exists rs, b, q. split_and!; [done..|]. pose proof (hdr_read_holds _ _ _ _ Hh Hb) as Hr. unfold hdr_read in Hr.
  unfold sysv_msg_stats. case_bool; [|done]. injection Hr as ->. by rewrite (ho_qnum _ _ _ _ Hh), (ho_cbytes _ _ _ _ Hh).
Qed.

(** Four senders, one of them over the limit, and five receivers. *)
Definition demo_turns : list turn :=
  [TSend (7, [1;2;3]) 16; TSend (3, [4;5;6;7;8;9;10;11;12]) 16; TSend (5, [13;14;15;16;17]) 16; TSend (3, [18;19;20;21]) 16;
   TRecv true 4 (-4) 0; TRecv true 4 (-4) LINUX_MSG_NOERROR; TRecv true 100 9 0; TRecv true 100 3 LINUX_MSG_EXCEPT; TRecv false 100 0 0].

Lemma msgq_refines_witness :
  Forall turn_ok demo_turns ∧ ∃ b q, queue_steps demo_turns []
    [ASend Sent; ASend Sent; ASend Full; ASend Sent; ARecv (RcvError (- E2BIG)); ARecv (Received 3 [4;5;6;7]); ARecv Nothing;
     ARecv (Received 7 [1;2;3]); ARecv (Received 3 [18;19;20;21])] q ∧ sysv_msg_stats b = (Z.of_nat (length q), bytes_of q).
Proof.
  assert (Forall turn_ok demo_turns) as Hok.
  { unfold demo_turns. repeat (apply Forall_cons; split); try apply Forall_nil; cbn; unfold msg_ok, size_of, MSG_MAX; cbn; lia. }
  split; [exact Hok|]. destruct (msgq_refines demo_turns Hok) as (rs & b & q & E & Hs & Hst); [cbn; lia|]. exists b, q.
  assert (rs = match run_turns demo_turns (queue_init []) with Ret (rs, _) => rs | Stop _ => [] end) as Hrs by (by rewrite E).
  vm_compute in Hrs. subst rs. split; [exact Hs|exact Hst].
Defined.

(** * What msgget makes of a lowered limit *)

(** One process: msgget, IPC_SET of a smaller msg_qbytes, and msgget again. *)
Definition lowered_limit (g : flat) : prog (Z * Z) :=
  id ← sys_msgget root 2 5 0x3b6;
  '(r, g) ← sys_msgctl root id LINUX_IPC_SET 0x100 g;
  r' ← sys_msgget root 2 5 0;
  Done (r, r').

(** A guest's struct msqid64_ds asking for 4096 bytes. *)
Definition msqid_arg : flat := (flat_out 0x100 (replicate 88 0 ++ le_store 8 4096 ++ replicate 24 0) (gset_to_gmap 0 (list_to_set (Z.add 0x100 <$> counter 1 120)))).2.

(** A queue whose limit its owner lowered cannot be looked up any more:
    msgget passes the default limit as the size it needs, and the lookup
    refuses an object smaller than that. *)
Theorem msgget_after_lowered_limit :
  (c ← sched (replicate 22 1) (mk_conf empty_fs {[1 := lowered_limit msqid_arg]}); c_procs c !! 1) = Some (Done (0, - EINVAL)).
Proof. vm_compute. reflexivity. Qed.
