(* ===== verification/FdTable.v ===== *)
(** File descriptors, src/fs/fs.c: the guest's table and nabi's own, over the
    one table the host has. A guest's number is the host's number; nabi keeps
    its descriptors in the top 64 numbers below the limit, and a few below. The
    files themselves, and what other parts keep about a descriptor, are not
    here. *)

From S2P Require Import Prelude Guest.

(** * The host's descriptors *)

(** What a descriptor is: the open file description and FD_CLOEXEC. *)
Abbreviation descs := (gmap Z (Z * bool)).

(** The calls on descriptors, with their result as [syswrap] gives it: a
    number, or minus a Linux error. *)
Class HostFds (H : Type) := {
  fds : H → descs;
  h_open : bool → H → Z * H;
  h_dup2 : Z → Z → H → Z * H;
  h_dupfd : Z → Z → bool → H → Z * H;
  h_close : Z → H → Z * H;
  h_setfd : Z → bool → H → Z * H;
  h_pipe : H → Z * (Z * Z) * H;
}.

Definition desc {H} `{HostFds H} (fd : Z) (h : H) : option (Z * bool) := fds h !! fd.

(** What POSIX says of them. A new descriptor is one that was not open. *)
Class HostFdLaws (H : Type) `{HostFds H} := {
  fds_nonneg h d : is_Some (fds h !! d) → 0 ≤ d;
  open_law c h r h' : h_open c h = (r, h') →
    r < 0 ∧ fds h' = fds h ∨ 0 ≤ r ∧ fds h !! r = None ∧ ∃ d, fds h' = <[r := (d, c)]> (fds h);
  dup2_law a b h r h' : h_dup2 a b h = (r, h') →
    r < 0 ∧ fds h' = fds h ∨
    r = b ∧ ∃ d, fds h !! a = Some d ∧ fds h' = if decide (a = b) then fds h else <[b := (d.1, false)]> (fds h);
  dupfd_law a min c h r h' : h_dupfd a min c h = (r, h') →
    r < 0 ∧ fds h' = fds h ∨
    0 ≤ r ∧ min ≤ r ∧ fds h !! r = None ∧ ∃ d, fds h !! a = Some d ∧ fds h' = <[r := (d.1, c)]> (fds h);
  close_law a h r h' : h_close a h = (r, h') → fds h' = delete a (fds h);
  setfd_law a c h r h' : h_setfd a c h = (r, h') →
    r < 0 ∧ fds h !! a = None ∧ fds h' = fds h ∨ 0 ≤ r ∧ ∃ d, fds h !! a = Some d ∧ fds h' = <[a := (d.1, c)]> (fds h);
  pipe_law h r p0 p1 h' : h_pipe h = (r, (p0, p1), h') →
    r < 0 ∧ fds h' = fds h ∨
    0 ≤ r ∧ 0 ≤ p0 ∧ 0 ≤ p1 ∧ p0 ≠ p1 ∧ fds h !! p0 = None ∧ fds h !! p1 = None ∧
      ∃ d0 d1, fds h' = <[p0 := (d0, false)]> (<[p1 := (d1, false)]> (fds h));
}.

(** * The tables *)

Definition vkern_fdtable_maxsize : Z := 64.
Definition fdtable_alloc_unit : Z := 64.

(** Which static table of operations; none in a slot never used. [f_dirp] is
    the descriptor of the directory stream. *)
Inductive file_ops := NoOps | Darwinfs | Pathfd.
#[export] Instance file_ops_eq_dec : EqDecision file_ops.
Proof. solve_decision. Defined.
Record file := mk_file { f_ops : file_ops; f_fd : Z; f_path : option (list Z); f_dirp : option Z }.
Definition zero_file : file := mk_file NoOps 0 None None.

(** The files are one list here: [files[i / 64][i % 64]] is entry [i]. *)
Record fdtable := mk_table { t_start : Z; t_size : Z; t_files : list file; t_open : list Z; t_cloexec : list Z }.

Definition set_open (l : list Z) (t : fdtable) : fdtable := mk_table (t_start t) (t_size t) (t_files t) l (t_cloexec t).
Definition set_cloexec (l : list Z) (t : fdtable) : fdtable := mk_table (t_start t) (t_size t) (t_files t) (t_open t) l.
Definition set_files (l : list file) (t : fdtable) : fdtable := mk_table (t_start t) (t_size t) l (t_open t) (t_cloexec t).

Definition alloc_fdtable (newsize : Z) (t : fdtable) : fdtable :=
  let newsize := Z.quot (newsize + fdtable_alloc_unit - 1) fdtable_alloc_unit * fdtable_alloc_unit in
  let oldsize := t_size t in
  if newsize <=? oldsize then t
  else
    let more := Z.to_nat (Z.quot newsize fdtable_alloc_unit - Z.quot oldsize fdtable_alloc_unit) in
    mk_table (t_start t) newsize (t_files t ++ replicate (more * Z.to_nat fdtable_alloc_unit) zero_file)
      (t_open t ++ replicate more 0) (t_cloexec t ++ replicate more 0).

(** ** Bits *)

Definition idx_table (t : fdtable) (fd : Z) : Z := Z.quot (fd - t_start t) 64.
Definition idx_bit (t : fdtable) (fd : Z) : Z := fd - t_start t - idx_table t fd * 64.

(** An index or a shift out of range is a fault. *)
Definition fdbits_word (t : fdtable) (fdbits : list Z) (fd : Z) : outcome Z :=
  if (0 <=? idx_table t fd) && (0 <=? idx_bit t fd) then
    match fdbits !! Z.to_nat (idx_table t fd) with Some w => Ret w | None => Stop Faulted end
  else Stop Faulted.

Definition set_fdbit (t : fdtable) (fdbits : list Z) (fd : Z) : outcome (list Z) :=
  w ← fdbits_word t fdbits fd; Ret (<[Z.to_nat (idx_table t fd) := Z.lor w (Z.shiftl 1 (idx_bit t fd))]> fdbits).
Definition clear_fdbit (t : fdtable) (fdbits : list Z) (fd : Z) : outcome (list Z) :=
  w ← fdbits_word t fdbits fd; Ret (<[Z.to_nat (idx_table t fd) := Z.ldiff w (Z.shiftl 1 (idx_bit t fd))]> fdbits).
Definition test_fdbit (t : fdtable) (fdbits : list Z) (fd : Z) : outcome bool :=
  w ← fdbits_word t fdbits fd; Ret (Z.testbit w (idx_bit t fd)).

(** ** Files *)

Definition file_index (t : fdtable) (fd : Z) : outcome nat :=
  let offset := fd - t_start t in
  if (0 <=? offset) && (offset <? Z.of_nat (length (t_files t))) then Ret (Z.to_nat offset) else Stop Faulted.

Definition alloc_file (fd : Z) (t : fdtable) : outcome fdtable :=
  i ← file_index t fd; Ret (set_files (<[i := mk_file Darwinfs fd None None]> (t_files t)) t).

Definition pathfd_adopt (fd : Z) (abs : list Z) (t : fdtable) : outcome fdtable :=
  i ← file_index t fd;
  let f := nth i (t_files t) zero_file in
  Ret (set_files (<[i := mk_file Pathfd (f_fd f) (Some abs) (f_dirp f)]> (t_files t)) t).

Definition do_get_file (t : fdtable) (fd : Z) : outcome (option file) :=
  b ← test_fdbit t (t_open t) fd;
  if (b : bool) then i ← file_index t fd; Ret (t_files t !! i) else Ret None.

(** Marking a number open, close-on-exec or not, and its file new. *)
Definition enter_fd (fd : Z) (is_cloexec : bool) (t : fdtable) : outcome fdtable :=
  o ← set_fdbit t (t_open t) fd;
  let t := set_open o t in
  c ← (if is_cloexec then set_fdbit t (t_cloexec t) fd else clear_fdbit t (t_cloexec t) fd);
  alloc_file fd (set_cloexec c t).

(** ffs(3) takes an int: the number of the lowest bit of the low 32, or 0. *)
Fixpoint ctz (p : positive) : Z := match p with xO p => 1 + ctz p | _ => 0 end.
Definition ffs (x : Z) : Z := match u32 x with Zpos p => 1 + ctz p | _ => 0 end.

Fixpoint find_loop (start i : Z) (words : list Z) : Z :=
  match words with
  | [] => -1
  | w :: words =>
      let ret := ffs (Z.lnot w) in
      if ret >? 0 then start + ret - 1 + i * 64 else find_loop start (i + 1) words
  end.
Definition find_emptyfd (t : fdtable) : Z := find_loop (t_start t) 0 (take (Z.to_nat (Z.quot (t_size t) 64)) (t_open t)).

(** * The operations *)

(** struct fileinfo, and the host. *)
Record st (H : Type) := mk_st { s_rootfd : Z; s_user : fdtable; s_vkern : fdtable; s_host : H }.
Arguments mk_st {H}. Arguments s_rootfd {H}. Arguments s_user {H}. Arguments s_vkern {H}. Arguments s_host {H}.

Section Ops.
Context {H : Type} `{HostFds H}.
Implicit Type s : st H.

Definition set_user (t : fdtable) s : st H := mk_st (s_rootfd s) t (s_vkern s) (s_host s).
Definition set_vkern (t : fdtable) s : st H := mk_st (s_rootfd s) (s_user s) t (s_host s).
Definition set_h (h : H) s : st H := mk_st (s_rootfd s) (s_user s) (s_vkern s) h.

Definition in_userfd (fd : Z) s : bool := (0 <=? fd) && (fd <? t_start (s_vkern s)).

Definition register_fd (fd : Z) (is_cloexec : bool) s : outcome (Z * st H) :=
  if fd >=? t_start (s_vkern s) then Ret (- EMFILE, s)
  else
    let t := if t_size (s_user s) <=? fd then alloc_fdtable (fd + 1) (s_user s) else s_user s in
    t ← enter_fd fd is_cloexec t;
    Ret (0, set_user t s).

Definition vkern_dup_fd (fd : Z) (is_cloexec : bool) s : outcome (Z * st H) :=
  let vkern_fd := find_emptyfd (s_vkern s) in
  if vkern_fd =? -1 then Stop Panicked
  else
    let '(r, h) := h_dup2 fd vkern_fd (s_host s) in
    if r <? 0 then Ret (- EBADF, set_h h s)
    else
      t ← enter_fd vkern_fd is_cloexec (s_vkern s);
      Ret (vkern_fd, set_vkern t (set_h h s)).

Definition get_file (fd : Z) s : outcome (option file) :=
  if (fd <? 0) || (fd >=? t_size (s_user s)) then Ret None else do_get_file (s_user s) fd.

(** darwinfs_close, which ends the stream first, and pathfd_close. *)
Definition close_file (f : file) (h : H) : Z * H :=
  match f_ops f, f_dirp f with
  | Darwinfs, Some d => h_close (f_fd f) (h_close d h).2
  | _, _ => h_close (f_fd f) h
  end.

Definition closed_file (f : file) : file :=
  match f_ops f with
  | Darwinfs => mk_file Darwinfs (f_fd f) (f_path f) None
  | _ => mk_file (f_ops f) (f_fd f) None (f_dirp f)
  end.

Definition do_close (t : fdtable) (fd : Z) (h : H) : outcome (Z * fdtable * H) :=
  if (fd <? t_start t) || (fd >=? t_start t + t_size t) then Ret (- EBADF, t, h)
  else
    b ← test_fdbit t (t_open t) fd;
    if negb b then Ret (- EBADF, t, h)
    else
      f ← do_get_file t fd;
      match f with
      | None => Ret (- EBADF, t, h)
      | Some f =>
          let '(n, h) := close_file f h in
          i ← file_index t fd;
          let t := set_files (<[i := closed_file f]> (t_files t)) t in
          o ← clear_fdbit t (t_open t) fd;
          let t := set_open o t in
          c ← clear_fdbit t (t_cloexec t) fd;
          Ret (n, set_cloexec c t, h)
      end.

Definition user_close (fd : Z) s : outcome (Z * st H) :=
  if fd <? 0 then Ret (- EBADF, s)
  else '(n, t, h) ← do_close (s_user s) fd (s_host s); Ret (n, set_h h (set_user t s)).

Definition vkern_close (fd : Z) s : outcome (Z * st H) :=
  '(n, t, h) ← do_close (s_vkern s) fd (s_host s); Ret (n, set_h h (set_vkern t s)).

(** One word of close_cloexec, from bit [j] on. *)
Fixpoint cloexec_word (fuel : nat) (i j : Z) (t : fdtable) (h : H) : outcome (fdtable * H) :=
  match fuel with
  | O => Ret (t, h)
  | S fuel =>
      match t_cloexec t !! Z.to_nat i with
      | None => Stop Faulted
      | Some w =>
          if w =? 0 then Ret (t, h)
          else if Z.testbit w j then
            '(_, t, h) ← do_close t (j + i * 64) h; cloexec_word fuel i (j + 1) t h
          else cloexec_word fuel i (j + 1) t h
      end
  end.

Definition close_cloexec s : outcome (st H) :=
  '(t, h) ← for_each (λ i '(t, h), cloexec_word 64 i 0 t h) (counter 1 (Z.quot (t_size (s_user s)) 64)) (s_user s, s_host s);
  Ret (set_h h (set_user t s)).

(** ** The calls *)

(** A directory's first getdents opens its stream on a copy. *)
Definition open_stream (fd : Z) s : outcome (Z * st H) :=
  f ← get_file fd s;
  match f with
  | None => Ret (- EBADF, s)
  | Some f =>
      match f_ops f, f_dirp f with
      | Pathfd, _ => Ret (- ENOTDIR, s)
      | _, Some _ => Ret (0, s)
      | _, None =>
          let '(r, h) := h_dupfd (f_fd f) 0 false (s_host s) in
          if r <? 0 then Ret (r, set_h h s)
          else
            i ← file_index (s_user s) fd;
            let t := set_files (<[i := mk_file (f_ops f) (f_fd f) (f_path f) (Some r)]> (t_files (s_user s))) (s_user s) in
            Ret (0, set_h h (set_user t s))
      end
  end.

(** user_openat, once the host has opened [fd]; [as_path] is the name of an
    O_PATH descriptor the host would not open. *)
Definition open_tail (fd : Z) (cloexec : bool) (as_path : option (list Z)) s : outcome (Z * st H) :=
  '(err, s) ← register_fd fd cloexec s;
  if err <? 0 then let '(_, h) := h_close err (s_host s) in Ret (err, set_h h s)
  else
    match as_path with
    | None => Ret (fd, s)
    | Some abs => t ← pathfd_adopt fd abs (s_user s); Ret (fd, set_user t s)
    end.

(** An open the host answers; the carrier of an O_PATH descriptor is always
    opened O_CLOEXEC. *)
Definition user_open (cloexec : bool) (as_path : option (list Z)) s : outcome (Z * st H) :=
  let '(fd, h) := h_open (if as_path is Some _ then true else cloexec) (s_host s) in
  if fd <? 0 then Ret (fd, set_h h s) else open_tail fd cloexec as_path (set_h h s).

(** A descriptor the host just made: registered, or closed again. *)
Definition register_new (r : Z) (cloexec : bool) s : outcome (Z * st H) :=
  '(err, s) ← register_fd r cloexec s;
  if err <? 0 then let '(_, h) := h_close r (s_host s) in Ret (err, set_h h s) else Ret (r, s).

(** The commands of fcntl that touch the table. *)
Inductive fcntl_cmd := F_DUPFD | F_DUPFD_CLOEXEC | F_GETFD | F_SETFD.

Definition darwinfs_fcntl (f : file) (cmd : fcntl_cmd) (arg : Z) s : outcome (Z * st H) :=
  match cmd with
  | F_DUPFD =>
      let '(r, h) := h_dupfd (f_fd f) (s32 arg) false (s_host s) in
      if r >=? 0 then register_new r false (set_h h s) else Ret (r, set_h h s)
  | F_DUPFD_CLOEXEC =>
      let '(r, h) := h_dupfd (f_fd f) (s32 arg) true (s_host s) in
      if r >=? 0 then register_new r true (set_h h s) else Ret (r, set_h h s)
  | F_GETFD => Ret (match desc (f_fd f) (s_host s) with Some (_, c) => if c then 1 else 0 | None => - EBADF end, s)
  | F_SETFD =>
      let '(r, h) := h_setfd (f_fd f) (has arg 1) (s_host s) in
      if r >=? 0 then
        let t := s_user s in
        c ← (if has arg 1 then set_fdbit t (t_cloexec t) (f_fd f) else clear_fdbit t (t_cloexec t) (f_fd f));
        Ret (r, set_user (set_cloexec c t) (set_h h s))
      else Ret (r, set_h h s)
  end.

Definition sys_fcntl (fd : Z) (cmd : fcntl_cmd) (arg : Z) s : outcome (Z * st H) :=
  f ← get_file (s32 fd) s;
  match f with None => Ret (- EBADF, s) | Some f => darwinfs_fcntl f cmd arg s end.

Definition sys_dup (fd : Z) s : outcome (Z * st H) :=
  '(ret, s) ← sys_fcntl fd F_DUPFD 0 s;
  if ret >=? 0 then register_new ret false s else Ret (ret, s).

Definition sys_dup2 (fd1 fd2 : Z) s : outcome (Z * st H) :=
  if negb (in_userfd (s32 fd1) s) || negb (in_userfd (s32 fd2) s) then Ret (- EBADF, s)
  else
    let '(ret, h) := h_dup2 (s32 fd1) (s32 fd2) (s_host s) in
    let s := set_h h s in
    if ret >=? 0 then register_new ret false s else Ret (ret, s).

Definition sys_dup3 (oldfd newfd : Z) (flags : Z) s : outcome (Z * st H) :=
  if has flags (Z.lnot 0x80000) then Ret (- EINVAL, s)
  else if oldfd =? newfd then Ret (- EINVAL, s)
  else
    let '(ret, h) := h_dup2 (s32 oldfd) (s32 newfd) (s_host s) in
    let s := set_h h s in
    if ret <? 0 then Ret (ret, s)
    else
      let '(err, h) := if has flags 0x80000 then h_setfd (s32 newfd) true (s_host s) else (0, s_host s) in
      let s := set_h h s in
      if err <? 0 then let '(_, h) := h_close ret (s_host s) in Ret (err, set_h h s)
      else register_new ret (has flags 0x80000) s.

Definition LINUX_CLOSE_RANGE_UNSHARE : Z := 2.
Definition LINUX_CLOSE_RANGE_CLOEXEC : Z := 4.

(** One descriptor of close_range. *)
Definition close_one (mark : bool) (fd : Z) (th : fdtable * H) : outcome (fdtable * H) :=
  let '(t, h) := th in
  b ← test_fdbit t (t_open t) fd;
  if negb b then Ret (t, h)
  else if mark then
    let '(r, h) := h_setfd fd true h in
    if r >=? 0 then c ← set_fdbit t (t_cloexec t) fd; Ret (set_cloexec c t, h) else Ret (t, h)
  else '(_, t, h) ← do_close t fd h; Ret (t, h).

Definition sys_close_range (first last flags : Z) s : outcome (Z * st H) :=
  if has flags (Z.lnot (Z.lor LINUX_CLOSE_RANGE_UNSHARE LINUX_CLOSE_RANGE_CLOEXEC)) then Ret (- EINVAL, s)
  else if first >? last then Ret (- EINVAL, s)
  else
    let t := s_user s in
    let top := u32 (t_start t + t_size t) in
    let last := if last >=? top then if top =? 0 then 0 else top - 1 else last in
    '(t, h) ← for_each (close_one (has flags LINUX_CLOSE_RANGE_CLOEXEC))
                (seqZ first (Z.min (last + 1) top - first)) (t, s_host s);
    Ret (0, set_h h (set_user t s)).

(** ** Handing the tables over to the child of a fork *)

Definition fdtable_open_fds (t : fdtable) : list Z :=
  filter (λ fd, ret_or false (test_fdbit t (t_open t) fd) = true) (seqZ (t_start t) (t_size t)).

Record checkpoint_fd := mk_cfd { c_table : Z; c_index : Z; c_host_fd : Z; c_cloexec : Z }.
Record fd_header := mk_fhdr { fh_rootfd : Z; fh_user_start : Z; fh_user_size : Z; fh_vkern_start : Z; fh_vkern_size : Z }.

Definition fdtable_snapshot_one (t : fdtable) (which : Z) : list checkpoint_fd :=
  (λ fd, mk_cfd which fd (f_fd (nth (Z.to_nat (fd - t_start t)) (t_files t) zero_file))
           (if ret_or false (test_fdbit t (t_cloexec t) fd) then 1 else 0)) <$> fdtable_open_fds t.

(** The buffer is as long as the first, counting call said. *)
Definition fdtable_snapshot s : list checkpoint_fd * fd_header :=
  (fdtable_snapshot_one (s_user s) 0 ++ fdtable_snapshot_one (s_vkern s) 1,
   mk_fhdr (s_rootfd s) (t_start (s_user s)) (t_size (s_user s)) (t_start (s_vkern s)) (t_size (s_vkern s))).

Definition restore_entry (c : checkpoint_fd) (t : fdtable) : outcome fdtable :=
  t ← alloc_file (c_index c) t;
  o ← set_fdbit t (t_open t) (c_index c);
  let t := set_open o t in
  if negb (c_cloexec c =? 0) then l ← set_fdbit t (t_cloexec t) (c_index c); Ret (set_cloexec l t) else Ret t.

Definition restore_one (c : checkpoint_fd) (tv : fdtable * fdtable) : outcome (fdtable * fdtable) :=
  if negb (c_table c =? 0) then v ← restore_entry c tv.2; Ret (tv.1, v) else t ← restore_entry c tv.1; Ret (t, tv.2).

Definition fdtable_restore (fs : list checkpoint_fd) (hdr : fd_header) (h : H) : outcome (st H) :=
  '(u, v) ← for_each restore_one fs
      (alloc_fdtable (fh_user_size hdr) (mk_table (fh_user_start hdr) 0 [] [] []),
       alloc_fdtable (fh_vkern_size hdr) (mk_table (fh_vkern_start hdr) 0 [] [] []));
  Ret (mk_st (fh_rootfd hdr) u v h).

(** In the child, between the host's fork and its exec. *)
Definition clear_one (fd : Z) (h : H) : H :=
  match desc fd h with
  | Some (_, true) => (h_setfd fd false h).2
  | _ => h
  end.
Definition fdtable_clear_host_cloexec s : st H :=
  set_h (foldl (λ h fd, clear_one fd h) (s_host s) (fdtable_open_fds (s_user s) ++ fdtable_open_fds (s_vkern s))) s.

(** ** Start *)

(** One number of init_fileinfo's loop. *)
Definition adopt_one (rootfd arena : Z) (i : Z) s : outcome (st H) :=
  if (i =? rootfd) || (i =? arena) then Ret s
  else
    match desc i (s_host s) with
    | None => Ret s
    | Some (_, c) =>
        if in_userfd i s then '(_, s) ← register_fd i c s; Ret s
        else Ret (set_h (h_close i (s_host s)).2 s)
    end.

Definition init_fileinfo (rootfd arena rlim_cur : Z) (h : H) : outcome (st H) :=
  let vk := alloc_fdtable vkern_fdtable_maxsize (mk_table (s32 (rlim_cur - vkern_fdtable_maxsize)) 0 [] [] []) in
  let us := alloc_fdtable 64 (mk_table 0 0 [] [] []) in
  s ← for_each (adopt_one rootfd arena) (counter 1 (s32 rlim_cur)) (mk_st 0 us vk h);
  '(r, s) ← vkern_dup_fd rootfd false s;
  Ret (mk_st r (s_user s) (s_vkern s) (s_host s)).

(** ** Pipes *)

Context {G : Type} `{GuestMem G}.

Definition sys_pipe (fildes_ptr : Z) (g : G) s : outcome (Z * st H * G) :=
  let '(r, (p0, p1), h) := h_pipe (s_host s) in
  let s := set_h h s in
  if r <? 0 then Ret (r, s, g)
  else
    let '(ok, g) := copy_out fildes_ptr (le_store 4 p0 ++ le_store 4 p1) g in
    if negb ok then Ret (- EFAULT, s, g)
    else
      '(err0, s) ← register_fd p0 false s;
      '(err1, s) ← register_fd p1 false s;
      if (err0 <? 0) || (err1 <? 0) then
        let h := (h_close err1 (h_close err0 (s_host s)).2).2 in
        Ret (if err0 <? 0 then err0 else err1, set_h h s, g)
      else Ret (r, s, g).
End Ops.

(** * Tables as functions of the number *)

Definition bit (l : list Z) (d : Z) : bool := Z.testbit (nth (Z.to_nat (d / 64)) l 0) (d mod 64).
Definition within (t : fdtable) (fd : Z) : Prop := t_start t ≤ fd < t_start t + t_size t.
Definition opened (t : fdtable) (fd : Z) : bool := (t_start t <=? fd) && bit (t_open t) (fd - t_start t).
Definition marked (t : fdtable) (fd : Z) : bool := (t_start t <=? fd) && bit (t_cloexec t) (fd - t_start t).
Definition file_at (t : fdtable) (fd : Z) : option file :=
  if t_start t <=? fd then t_files t !! Z.to_nat (fd - t_start t) else None.

Record shape (t : fdtable) : Prop := {
  sh_open : t_size t = 64 * Z.of_nat (length (t_open t));
  sh_cloexec : length (t_cloexec t) = length (t_open t);
  sh_files : Z.of_nat (length (t_files t)) = t_size t }.

(** What holds of an entry the guest or nabi has open. *)
Record table_ok (t : fdtable) : Prop := {
  ok_shape : shape t;
  ok_marked fd : marked t fd = true → opened t fd = true;
  ok_file fd : opened t fd = true → ∃ f, file_at t fd = Some f ∧ f_fd f = fd ∧ f_ops f ≠ NoOps ∧ (f_ops f = Pathfd → f_dirp f = None) }.

(** [t'] is [t] with the entry of [fd] replaced. *)
Record change (t t' : fdtable) (fd : Z) (o c : bool) (f : file) : Prop := {
  ch_start : t_start t' = t_start t;
  ch_size : t_size t' = t_size t;
  ch_shape : shape t';
  ch_open x : opened t' x = if x =? fd then o else opened t x;
  ch_marked x : marked t' x = if x =? fd then c else marked t x;
  ch_file x : file_at t' x = if x =? fd then Some f else file_at t x }.

Lemma bit_out l d : 64 * Z.of_nat (length l) ≤ d → bit l d = false.
Proof. intros Hd. unfold bit. rewrite nth_overflow; [apply Z.bits_0|]. assert (Z.of_nat (length l) ≤ d / 64) by (apply Z.div_le_lower_bound; lia). lia. Qed.

Lemma opened_within t fd : shape t → opened t fd = true → within t fd.
Proof.
  intros [Hs _ _] Ho. unfold opened in Ho. apply andb_true_iff in Ho as [H1 H2]. split; [lia|].
  destruct (decide (fd < t_start t + t_size t)); [done|]. rewrite bit_out in H2; [done|lia].
Qed.

Lemma quot_div x : 0 ≤ x → Z.quot x 64 = x / 64.
Proof. intros. apply Z.quot_div_nonneg; lia. Qed.

Lemma fdbits_word_in t l fd : t_start t ≤ fd < t_start t + 64 * Z.of_nat (length l) →
  let d := fd - t_start t in
  idx_table t fd = d / 64 ∧ idx_bit t fd = d mod 64 ∧ fdbits_word t l fd = Ret (nth (Z.to_nat (d / 64)) l 0) ∧
  (Z.to_nat (d / 64) < length l)%nat.
Proof.
  intros Hfd d. unfold fdbits_word, idx_bit, idx_table. fold d. rewrite quot_div by lia.
  assert (d - d / 64 * 64 = d mod 64) as -> by lia_mod.
  assert (0 ≤ d / 64 < Z.of_nat (length l)) by lia_mod. pose proof (Z.mod_pos_bound d 64 ltac:(lia)).
  split_and!; [done..| |lia]. destruct (Z.leb_spec 0 (d / 64)); [|lia]. destruct (Z.leb_spec 0 (d mod 64)); [|lia]. cbn [andb].
  rewrite nth_lookup. destruct (lookup_lt_is_Some_2 l (Z.to_nat (d / 64))) as [w ->]; [lia|done].
Qed.

Lemma bit_insert l (i : nat) w d : 0 ≤ d → (i < length l)%nat →
  bit (<[i := w]> l) d = if decide (Z.to_nat (d / 64) = i) then Z.testbit w (d mod 64) else bit l d.
Proof.
  intros Hd Hi. unfold bit. rewrite !nth_lookup. case_decide as E.
  - rewrite E. by rewrite list_lookup_insert_eq.
  - by rewrite list_lookup_insert_ne.
Qed.

Lemma one_bit b d : 0 ≤ b → 0 ≤ d → Z.testbit (Z.shiftl 1 b) d = (d =? b).
Proof.
  intros Hb Hd. rewrite Z.shiftl_1_l. destruct (Z.eqb_spec d b) as [->|Hne]; [by apply Z.pow2_bits_true|apply Z.pow2_bits_false; lia].
Qed.

(** Both updates, by what they do to a word. *)
Lemma fdbit_update t l fd (f : Z → Z → Z) (g : bool → bool → bool) :
  (∀ w b d, 0 ≤ d → 0 ≤ b → Z.testbit (f w (Z.shiftl 1 b)) d = g (Z.testbit w d) (d =? b)) →
  (∀ x, g x false = x) →
  t_start t ≤ fd < t_start t + 64 * Z.of_nat (length l) →
  ∃ l', (w ← fdbits_word t l fd; Ret (<[Z.to_nat (idx_table t fd) := f w (Z.shiftl 1 (idx_bit t fd))]> l)) = Ret l' ∧ length l' = length l ∧
    ∀ d, 0 ≤ d → bit l' d = g (bit l d) (d =? fd - t_start t).
Proof.
  intros Hf Hg Hfd. destruct (fdbits_word_in t l fd Hfd) as (Hi & Hb & Hw & Hl). rewrite Hw, Hi, Hb. cbn [mbind outcome_bind].
  eexists. split; [done|]. split; [apply length_insert|]. intros d Hd. rewrite bit_insert by done. set (e := fd - t_start t) in *.
  pose proof (Z.mod_pos_bound d 64 ltac:(lia)). pose proof (Z.mod_pos_bound e 64 ltac:(lia)). case_decide as E.
  - assert (d / 64 = e / 64) as Hde by lia_mod. rewrite Hf by lia. unfold bit. rewrite Hde. f_equal.
    destruct (Z.eqb_spec d e), (Z.eqb_spec (d mod 64) (e mod 64)); try done; subst; [done|]. exfalso. lia_mod.
  - assert (d ≠ e) by (intros ->; done). destruct (Z.eqb_spec d e); [done|]. by rewrite Hg.
Qed.

Lemma set_fdbit_spec t l fd : t_start t ≤ fd < t_start t + 64 * Z.of_nat (length l) →
  ∃ l', set_fdbit t l fd = Ret l' ∧ length l' = length l ∧ ∀ d, 0 ≤ d → bit l' d = bit l d || (d =? fd - t_start t).
Proof.
  apply (fdbit_update t l fd Z.lor orb); [|by intros []]. intros w b d Hd Hb. by rewrite Z.lor_spec, one_bit.
Qed.

Lemma clear_fdbit_spec t l fd : t_start t ≤ fd < t_start t + 64 * Z.of_nat (length l) →
  ∃ l', clear_fdbit t l fd = Ret l' ∧ length l' = length l ∧ ∀ d, 0 ≤ d → bit l' d = bit l d && negb (d =? fd - t_start t).
Proof.
  apply (fdbit_update t l fd Z.ldiff (λ x y, x && negb y)); [|by intros []]. intros w b d Hd Hb. by rewrite Z.ldiff_spec, one_bit.
Qed.

Lemma test_open t fd : shape t → within t fd → test_fdbit t (t_open t) fd = Ret (opened t fd).
Proof.
  intros [Hs _ _] [H1 H2]. destruct (fdbits_word_in t (t_open t) fd) as (_ & Hb & Hw & _); [lia|]. unfold test_fdbit, opened. rewrite Hw, Hb. cbn.
  by destruct (Z.leb_spec (t_start t) fd); [|lia].
Qed.

Lemma test_cloexec t fd : shape t → within t fd → test_fdbit t (t_cloexec t) fd = Ret (marked t fd).
Proof.
  intros [Hs Hc _] [H1 H2]. destruct (fdbits_word_in t (t_cloexec t) fd) as (_ & Hb & Hw & _); [rewrite Hc; lia|]. unfold test_fdbit, marked. rewrite Hw, Hb. cbn.
  by destruct (Z.leb_spec (t_start t) fd); [|lia].
Qed.

Lemma file_index_in t fd : shape t → within t fd → file_index t fd = Ret (Z.to_nat (fd - t_start t)) ∧
  file_at t fd = t_files t !! Z.to_nat (fd - t_start t) ∧ is_Some (file_at t fd).
Proof.
  intros [_ _ Hf] [H1 H2]. unfold file_index, file_at. rewrite Hf.
  destruct (Z.leb_spec 0 (fd - t_start t)), (Z.ltb_spec (fd - t_start t) (t_size t)), (Z.leb_spec (t_start t) fd); try lia.
  split_and!; [done..|]. apply lookup_lt_is_Some_2. lia.
Qed.

(** An entry replaced in the three arrays. *)
Lemma change_intro t fd o c f lo lc :
  shape t → within t fd → length lo = length (t_open t) → length lc = length (t_cloexec t) →
  (∀ d, 0 ≤ d → bit lo d = if d =? fd - t_start t then o else bit (t_open t) d) →
  (∀ d, 0 ≤ d → bit lc d = if d =? fd - t_start t then c else bit (t_cloexec t) d) →
  change t (mk_table (t_start t) (t_size t) (<[Z.to_nat (fd - t_start t) := f]> (t_files t)) lo lc) fd o c f.
Proof.
  intros [Hs Hc Hf] [H1 H2] Ho Hl Hbo Hbc. constructor; cbn; [done..|constructor; cbn; rewrite ?length_insert; lia| | |]; intros x.
  - unfold opened; cbn. destruct (Z.leb_spec (t_start t) x) as [Hx|Hx]; cbn [andb].
    + rewrite Hbo by lia. by destruct (Z.eqb_spec x fd), (Z.eqb_spec (x - t_start t) (fd - t_start t)); try lia.
    + by destruct (Z.eqb_spec x fd); [lia|].
  - unfold marked; cbn. destruct (Z.leb_spec (t_start t) x) as [Hx|Hx]; cbn [andb].
    + rewrite Hbc by lia. by destruct (Z.eqb_spec x fd), (Z.eqb_spec (x - t_start t) (fd - t_start t)); try lia.
    + by destruct (Z.eqb_spec x fd); [lia|].
  - unfold file_at; cbn. destruct (Z.leb_spec (t_start t) x) as [Hx|Hx].
    + destruct (Z.eqb_spec x fd) as [->|Hne]; [apply list_lookup_insert_eq; lia|apply list_lookup_insert_ne; lia].
    + by destruct (Z.eqb_spec x fd); [lia|].
Qed.

Lemma change_ok t t' fd o c f :
  table_ok t → change t t' fd o c f → (c = true → o = true) →
  (o = true → f_fd f = fd ∧ f_ops f ≠ NoOps ∧ (f_ops f = Pathfd → f_dirp f = None)) → table_ok t'.
Proof.
  intros [Hs Hm Hf] Hc Hco Hfo. constructor; [by apply Hc| |]; intros x.
  - rewrite (ch_marked _ _ _ _ _ _ Hc), (ch_open _ _ _ _ _ _ Hc). by destruct (x =? fd); auto.
  - rewrite (ch_open _ _ _ _ _ _ Hc), (ch_file _ _ _ _ _ _ Hc). destruct (Z.eqb_spec x fd) as [->|]; [|auto]. intros Ho. exists f. auto.
Qed.

Lemma enter_fd_spec t fd c : shape t → within t fd →
  ∃ t', enter_fd fd c t = Ret t' ∧ change t t' fd true c (mk_file Darwinfs fd None None).
Proof.
  intros Hs Hw. pose proof Hs as [H1 H2 H3]. pose proof Hw as [W1 W2]. destruct (set_fdbit_spec t (t_open t) fd) as (lo & Eo & Lo & Bo); [lia|].
  assert (∃ lc, (if c then set_fdbit t (t_cloexec t) fd else clear_fdbit t (t_cloexec t) fd) = Ret lc ∧ length lc = length (t_cloexec t) ∧
    ∀ d, 0 ≤ d → bit lc d = if d =? fd - t_start t then c else bit (t_cloexec t) d) as (lc & Ec & Lc & Bc).
  { destruct c.
    - destruct (set_fdbit_spec t (t_cloexec t) fd) as (lc & ? & ? & B); [rewrite H2; lia|]. exists lc. split_and!; [done..|]. intros d Hd. rewrite B by done.
      by destruct (d =? _), (bit _ d).
    - destruct (clear_fdbit_spec t (t_cloexec t) fd) as (lc & ? & ? & B); [rewrite H2; lia|]. exists lc. split_and!; [done..|]. intros d Hd. rewrite B by done.
      by destruct (d =? _), (bit _ d). }
  destruct (file_index_in t fd Hs Hw) as (Hi & _). unfold enter_fd. rewrite Eo. cbn [mbind outcome_bind].
  change (t_cloexec (set_open lo t)) with (t_cloexec t). change (set_fdbit (set_open lo t)) with (set_fdbit t).
  change (clear_fdbit (set_open lo t)) with (clear_fdbit t). rewrite Ec. cbn [mbind outcome_bind]. unfold alloc_file.
  change (file_index (set_cloexec lc (set_open lo t)) fd) with (file_index t fd). rewrite Hi. cbn [mbind outcome_bind].
  eexists. split; [done|]. apply (change_intro t fd true c _ lo lc); try done. intros d Hd. rewrite Bo by done. by destruct (d =? _), (bit _ d).
Qed.

Lemma do_get_file_spec t fd : table_ok t → within t fd → do_get_file t fd = Ret (if opened t fd then file_at t fd else None).
Proof.
  intros [Hs _ _] Hw. unfold do_get_file. rewrite (test_open t fd Hs Hw). cbn [mbind outcome_bind]. destruct (opened t fd); [|done].
  destruct (file_index_in t fd Hs Hw) as (-> & -> & _). done.
Qed.

Section Close.
Context {H : Type} `{HF : HostFds H, HL : !HostFdLaws H}.

(** The descriptors a file stands on. *)
Definition without (f : file) (m : descs) : descs :=
  delete (f_fd f) (match f_ops f, f_dirp f with Darwinfs, Some d => delete d m | _, _ => m end).

Lemma close_file_spec f (h : H) n h' : close_file f h = (n, h') → fds h' = without f (fds h).
Proof.
  unfold close_file, without. intros E. destruct (f_ops f), (f_dirp f) as [d|]; try (by apply close_law in E).
  destruct (h_close d h) as [n1 h1] eqn:E1. cbn [snd] in E. apply close_law in E, E1. by rewrite E, E1.
Qed.

Lemma do_close_spec t fd (h : H) : table_ok t →
  (opened t fd = true ∧ ∃ f n t' h', file_at t fd = Some f ∧ do_close t fd h = Ret (n, t', h') ∧
     change t t' fd false false (closed_file f) ∧ fds h' = without f (fds h)) ∨
  (opened t fd = false ∧ do_close t fd h = Ret (- EBADF, t, h)).
Proof.
  intros Hok. pose proof (ok_shape _ Hok) as Hs. pose proof Hs as [S1 S2 S3]. unfold do_close.
  destruct ((fd <? t_start t) || (fd >=? t_start t + t_size t)) eqn:Er.
  { right. split; [|done]. destruct (opened t fd) eqn:Eo; [|done]. apply (opened_within t fd Hs) in Eo. unfold within in Eo. lia. }
  assert (within t fd) as Hw by (unfold within; lia). rewrite (test_open t fd Hs Hw). cbn [mbind outcome_bind].
  destruct (opened t fd) eqn:Eo; cbn [negb]; [|by right]. left. split; [done|]. rewrite (do_get_file_spec t fd Hok Hw), Eo. cbn [mbind outcome_bind].
  destruct (ok_file _ Hok fd Eo) as (f & Hf & _). rewrite Hf. destruct (close_file f h) as [n h'] eqn:Ec.
  destruct (file_index_in t fd Hs Hw) as (-> & _). cbn [mbind outcome_bind]. set (t1 := set_files _ t).
  destruct (clear_fdbit_spec t (t_open t) fd) as (lo & Elo & Llo & Blo); [unfold within in *; lia|].
  destruct (clear_fdbit_spec t (t_cloexec t) fd) as (lc & Elc & Llc & Blc); [unfold within in *; lia|].
  change (clear_fdbit t1 (t_open t1) fd) with (clear_fdbit t (t_open t) fd). rewrite Elo. cbn [mbind outcome_bind].
  change (clear_fdbit (set_open lo t1) (t_cloexec (set_open lo t1)) fd) with (clear_fdbit t (t_cloexec t) fd). rewrite Elc. cbn [mbind outcome_bind].
  exists f, n. eexists _, h'. split_and!; [done..| |by apply close_file_spec in Ec].
  apply (change_intro t fd false false _ lo lc); try done; intros d Hd; rewrite ?Blo, ?Blc by done; by destruct (d =? _), (bit _ d).
Qed.
End Close.

Lemma alloc_fdtable_spec n t : shape t → 0 ≤ n →
  let t' := alloc_fdtable n t in
  shape t' ∧ t_start t' = t_start t ∧ t_size t ≤ t_size t' ∧ n ≤ t_size t' ∧ t_size t' ≤ Z.max (t_size t) (n + 63) ∧
  (∀ x, opened t' x = opened t x) ∧ (∀ x, marked t' x = marked t x) ∧ (∀ x, within t x → file_at t' x = file_at t x).
Proof.
  intros [H1 H2 H3] Hn. unfold alloc_fdtable, fdtable_alloc_unit. rewrite !(quot_div (n + 64 - 1)) by lia.
  set (m := (n + 64 - 1) / 64 * 64). assert (n ≤ m < n + 64) by (unfold m; lia_mod). destruct (Z.leb_spec m (t_size t)) as [Hle|Hgt]; cbn zeta.
  { split_and!; try done; lia. }
  assert (Z.quot m 64 = (n + 64 - 1) / 64) as Eq by (unfold m; rewrite quot_div by lia_mod; apply Z.div_mul; lia).
  assert (Z.quot (t_size t) 64 = Z.of_nat (length (t_open t))) as Eo by (rewrite H1, quot_div by lia; rewrite Z.mul_comm; apply Z.div_mul; lia).
  rewrite Eq, Eo. set (k := Z.to_nat _). assert (m = 64 * Z.of_nat (length (t_open t)) + 64 * Z.of_nat k) by (unfold k, m in *; lia).
  assert (∀ l d, bit (l ++ replicate k 0) d = bit l d) as Hb.
  { intros l d. unfold bit. rewrite !nth_lookup. f_equal. rewrite lookup_app. destruct (l !! Z.to_nat (d / 64)) eqn:E; [done|]. cbn.
    destruct (replicate k 0 !! _) eqn:E2; [|done]. by apply lookup_replicate in E2 as [-> _]. }
  split_and!; cbn; try lia.
  - constructor; cbn; rewrite ?length_app, ?length_replicate; lia.
  - intros x. unfold opened; cbn. by rewrite Hb.
  - intros x. unfold marked; cbn. by rewrite Hb.
  - intros x [W1 W2]. unfold file_at; cbn. destruct (t_start t <=? x); [|done]. apply lookup_app_l. lia.
Qed.

Lemma alloc_ok n t : table_ok t → 0 ≤ n → table_ok (alloc_fdtable n t).
Proof.
  intros [Hs Hm Hf] Hn. destruct (alloc_fdtable_spec n t Hs Hn) as (S1 & S2 & S3 & S4 & _ & S5 & S6 & S7). constructor; [done| |]; intros x.
  - rewrite S5, S6. apply Hm.
  - rewrite S5. intros Ho. rewrite S7 by (by apply opened_within). by apply Hf.
Qed.

(** * What belongs to the guest *)

Section Guest.
Context {H : Type} `{HF : HostFds H, HL : !HostFdLaws H}.
Implicit Type s : st H.

(** The directory stream of [fd] is on [d]. *)
Definition stream (t : fdtable) (fd d : Z) : Prop := opened t fd = true ∧ ∃ f, file_at t fd = Some f ∧ f_dirp f = Some d.
Definition mine s (d : Z) : Prop := opened (s_user s) d = true ∨ ∃ fd, stream (s_user s) fd d.

Record inv s : Prop := {
  v_user : table_ok (s_user s);
  v_zero : t_start (s_user s) = 0;
  v_top : 0 < t_start (s_vkern s) < 2^31 - 64;
  v_size : t_size (s_user s) ≤ t_start (s_vkern s) + 63;
  v_below fd : opened (s_user s) fd = true → fd < t_start (s_vkern s);
  v_open fd f : opened (s_user s) fd = true → file_at (s_user s) fd = Some f →
    ∃ o c, fds (s_host s) !! fd = Some (o, c) ∧ (f_ops f = Darwinfs → c = marked (s_user s) fd);
  v_stream fd d : stream (s_user s) fd d → opened (s_user s) d = false ∧ is_Some (fds (s_host s) !! d);
  v_inj fd fd' d : stream (s_user s) fd d → stream (s_user s) fd' d → fd = fd' }.

(** A call leaves nabi's descriptors, those that are not the guest's, to nabi. *)
Record good s s' : Prop := {
  g_inv : inv s';
  g_kept d : ¬ mine s d → is_Some (fds (s_host s) !! d) → fds (s_host s') !! d = fds (s_host s) !! d ∧ ¬ mine s' d;
  g_vkern : s_vkern s' = s_vkern s;
  g_root : s_rootfd s' = s_rootfd s }.

Lemma good_refl s : inv s → good s s.
Proof. by split. Qed.

Lemma good_trans s s1 s2 : good s s1 → good s1 s2 → good s s2.
Proof.
  intros [A1 A2 A3 A4] [B1 B2 B3 B4]. split; [done| |congruence..]. intros d Hm Hd. destruct (A2 d Hm Hd) as [E Hm1].
  rewrite <- E. apply B2; [done|]. by rewrite E.
Qed.

Lemma open_host s fd : inv s → opened (s_user s) fd = true → is_Some (fds (s_host s) !! fd).
Proof.
  intros Hi Ho. destruct (ok_file _ (v_user _ Hi) fd Ho) as (f & Hf & _). destruct (v_open _ Hi fd f Ho Hf) as (o & c & E & _). by rewrite E.
Qed.

Lemma open_nonneg s fd : inv s → opened (s_user s) fd = true → 0 ≤ fd < t_size (s_user s).
Proof.
  intros Hi Ho. pose proof (opened_within _ _ (ok_shape _ (v_user _ Hi)) Ho) as Hw. unfold within in Hw. rewrite (v_zero _ Hi) in Hw. lia.
Qed.

(** One number becomes an open descriptor of the guest's; the flag may differ
    from the bit only under a path descriptor. *)
Lemma enter_inv s t' h' r o c c' f' :
  inv s → 0 ≤ r < t_start (s_vkern s) → (∀ fd, ¬ stream (s_user s) fd r) →
  fds h' !! r = Some (o, c') → (∀ d, d ≠ r → is_Some (fds (s_host s) !! d) → fds h' !! d = fds (s_host s) !! d) →
  table_ok t' → t_start t' = 0 → t_size t' ≤ t_start (s_vkern s) + 63 →
  (∀ x, opened t' x = if x =? r then true else opened (s_user s) x) →
  (∀ x, marked t' x = if x =? r then c else marked (s_user s) x) →
  (∀ x, opened t' x = true → file_at t' x = if x =? r then Some f' else file_at (s_user s) x) →
  f_dirp f' = None → (f_ops f' = Darwinfs → c' = c) →
  inv (set_h h' (set_user t' s)) ∧ ∀ fd d, stream t' fd d → stream (s_user s) fd d.
Proof.
  intros Hi Hr Hsr Er Eh Hok Hz Hsz Ho Hm Hf F1 F2.
  assert (∀ fd d, stream t' fd d → stream (s_user s) fd d) as Hst.
  { intros fd d [S1 (f & S2 & S3)]. rewrite (Hf fd S1) in S2. rewrite Ho in S1. destruct (Z.eqb_spec fd r) as [->|]; [injection S2 as <-; congruence|].
    split; [done|by exists f]. }
  split; [|done]. constructor; cbn.
  - done.
  - done.
  - apply Hi.
  - done.
  - intros fd. rewrite Ho. destruct (Z.eqb_spec fd r) as [->|]; [lia|]. by apply Hi.
  - intros fd f H1 H2. rewrite (Hf fd H1) in H2. rewrite Ho in H1. rewrite Hm. destruct (Z.eqb_spec fd r) as [->|Hne].
    + exists o, c'. injection H2 as <-. auto.
    + rewrite Eh; [by apply (v_open _ Hi)|done|by apply open_host].
  - intros fd d Hs. apply Hst in Hs. destruct (v_stream _ Hi _ _ Hs) as [H3 H4]. rewrite Ho.
    destruct (Z.eqb_spec d r) as [->|]; [by destruct (Hsr fd)|]. by rewrite Eh.
  - intros fd fd' d S1 S2. apply (v_inj _ Hi fd fd' d); by apply Hst.
Qed.

Lemma fresh_not_stream s r : inv s → opened (s_user s) r = true ∨ fds (s_host s) !! r = None → ∀ fd, ¬ stream (s_user s) fd r.
Proof.
  intros Hi Hfr fd Hs. destruct (v_stream _ Hi _ _ Hs) as [S1 S2]. destruct Hfr as [Hfr|Hfr]; [congruence|]. rewrite Hfr in S2. by destruct S2.
Qed.

Lemma enter_good s t' h' r o c c' f' :
  inv s → 0 ≤ r < t_start (s_vkern s) → (opened (s_user s) r = true ∨ fds (s_host s) !! r = None) →
  fds h' = <[r := (o, c')]> (fds (s_host s)) →
  table_ok t' → t_start t' = 0 → t_size t' ≤ t_start (s_vkern s) + 63 →
  (∀ x, opened t' x = if x =? r then true else opened (s_user s) x) →
  (∀ x, marked t' x = if x =? r then c else marked (s_user s) x) →
  (∀ x, opened t' x = true → file_at t' x = if x =? r then Some f' else file_at (s_user s) x) →
  f_dirp f' = None → (f_ops f' = Darwinfs → c' = c) →
  good s (set_h h' (set_user t' s)).
Proof.
  intros Hi Hr Hfr Eh Hok Hz Hsz Ho Hm Hf F1 F2.
  destruct (enter_inv s t' h' r o c c' f') as [Hi' Hst]; try done; [by apply fresh_not_stream|by rewrite Eh, lookup_insert_eq|intros d Hd _; by rewrite Eh, lookup_insert_ne|].
  split; [done| |done..]. intros d Hn Hd. cbn. assert (d ≠ r) as Hdr.
  { intros ->. destruct Hfr as [Hfr|Hfr]; [apply Hn; by left|]. rewrite Hfr in Hd. by destruct Hd. }
  rewrite Eh, lookup_insert_ne by done. split; [done|]. intros [Hm'|[fd Hm']]; apply Hn.
  - left. cbn in Hm'. rewrite Ho in Hm'. by destruct (Z.eqb_spec d r).
  - right. exists fd. by apply Hst.
Qed.

(** What register_fd does to the table, which may grow. *)
Lemma register_table s h' r c : inv s → 0 ≤ r < t_start (s_vkern s) →
  ∃ t', register_fd r c (set_h h' s) = Ret (0, set_h h' (set_user t' s)) ∧ table_ok t' ∧ t_start t' = 0 ∧ t_size t' ≤ t_start (s_vkern s) + 63 ∧ within t' r ∧
    (∀ x, opened t' x = if x =? r then true else opened (s_user s) x) ∧
    (∀ x, marked t' x = if x =? r then c else marked (s_user s) x) ∧
    (∀ x, opened t' x = true → file_at t' x = if x =? r then Some (mk_file Darwinfs r None None) else file_at (s_user s) x).
Proof.
  intros Hi Hr. unfold register_fd. cbn [s_vkern s_user set_h]. rewrite Z.geb_leb. destruct (Z.leb_spec (t_start (s_vkern s)) r); [lia|].
  set (t1 := if t_size (s_user s) <=? r then alloc_fdtable (r + 1) (s_user s) else s_user s).
  assert (table_ok t1 ∧ t_start t1 = 0 ∧ t_size t1 ≤ t_start (s_vkern s) + 63 ∧ r < t_size t1 ∧ (∀ x, opened t1 x = opened (s_user s) x) ∧
    (∀ x, marked t1 x = marked (s_user s) x) ∧ (∀ x, opened (s_user s) x = true → file_at t1 x = file_at (s_user s) x)) as (T1 & T2 & T3 & T4 & T5 & T6 & T7).
  { unfold t1. pose proof (v_size _ Hi). destruct (Z.leb_spec (t_size (s_user s)) r); [|split_and!; try done; [apply Hi|apply Hi]].
    destruct (alloc_fdtable_spec (r + 1) (s_user s) (ok_shape _ (v_user _ Hi))) as (A1 & A2 & A3 & A4 & A5 & A6 & A7 & A8); [lia|].
    split_and!; try done; [apply alloc_ok; [apply Hi|lia]|rewrite A2; apply Hi|lia|lia|]. intros x Hx. apply A8. apply opened_within; [apply Hi|done]. }
  destruct (enter_fd_spec t1 r c (ok_shape _ T1)) as (t' & -> & Hc); [unfold within; lia|]. cbn [mbind outcome_bind].
  assert (∀ x, opened t' x = if x =? r then true else opened (s_user s) x) as E1 by (intros x; by rewrite (ch_open _ _ _ _ _ _ Hc), T5).
  exists t'. split; [done|]. split_and!; try done.
  - apply (change_ok t1 t' r true c _ T1 Hc); [done|]. by intros _.
  - by rewrite (ch_start _ _ _ _ _ _ Hc).
  - by rewrite (ch_size _ _ _ _ _ _ Hc).
  - unfold within. rewrite (ch_start _ _ _ _ _ _ Hc), (ch_size _ _ _ _ _ _ Hc). lia.
  - intros x. by rewrite (ch_marked _ _ _ _ _ _ Hc), T6.
  - intros x Hx. rewrite (ch_file _ _ _ _ _ _ Hc). rewrite E1 in Hx. destruct (Z.eqb_spec x r); [done|]. by apply T7.
Qed.

Lemma register_good s h' r o c :
  inv s → 0 ≤ r < t_start (s_vkern s) → (opened (s_user s) r = true ∨ fds (s_host s) !! r = None) →
  fds h' = <[r := (o, c)]> (fds (s_host s)) →
  ∃ s', register_fd r c (set_h h' s) = Ret (0, s') ∧ good s s' ∧ s_host s' = h' ∧
    (∀ x, opened (s_user s') x = if x =? r then true else opened (s_user s) x) ∧
    (∀ x, marked (s_user s') x = if x =? r then c else marked (s_user s) x).
Proof.
  intros Hi Hr Hfr Eh. destruct (register_table s h' r c Hi Hr) as (t' & -> & T1 & T2 & T3 & _ & T4 & T5 & T6).
  eexists. split; [done|]. split_and!; try done. by apply (enter_good s t' h' r o c c (mk_file Darwinfs r None None)).
Qed.

(** A descriptor the host has just made. *)
Lemma register_new_good s h' r o c :
  inv s → 0 ≤ r → fds (s_host s) !! r = None → fds h' = <[r := (o, c)]> (fds (s_host s)) →
  ∃ n s', register_new r c (set_h h' s) = Ret (n, s') ∧ good s s' ∧
    (n < 0 ∨ n = r ∧ opened (s_user s') r = true ∧ fds (s_host s') !! r = Some (o, c) ∧ r < t_start (s_vkern s)).
Proof.
  intros Hi Hr Hn Eh. unfold register_new. destruct (decide (r < t_start (s_vkern s))) as [Hlt|Hge].
  - destruct (register_good s h' r o c Hi) as (s' & -> & Hg & Hh & Ho & _); [lia|by right|done|]. cbn. exists r, s'. split; [done|]. split; [done|]. right.
    rewrite Ho, Z.eqb_refl, Hh, Eh, lookup_insert_eq. done.
  - unfold register_fd. cbn [s_vkern set_h]. rewrite Z.geb_leb. destruct (Z.leb_spec (t_start (s_vkern s)) r); [|lia]. cbn [mbind outcome_bind].
    destruct (Z.ltb_spec (- EMFILE) 0); [|done]. cbn [s_host set_h]. destruct (h_close r h') as [n h2] eqn:Ec. apply close_law in Ec.
    rewrite Eh, delete_insert_id in Ec by done. eexists _, _. split; [done|]. split; [|by left].
    destruct Hi. split; [constructor; cbn; rewrite ?Ec; try done| |done..]. intros d Hd Hs. cbn. rewrite Ec. split; [done|]. intros Hm. apply Hd. done.
Qed.

(** ** Closing *)

(** What goes when the descriptors [P] are closed: they and their streams. *)
Definition gone (P : Z → bool) s (x : Z) : Prop :=
  opened (s_user s) x = true ∧ P x = true ∨ ∃ fd, stream (s_user s) fd x ∧ P fd = true.

Record closing (P : Z → bool) s s' : Prop := {
  cl_good : good s s';
  cl_size : t_size (s_user s') = t_size (s_user s);
  cl_open x : opened (s_user s') x = opened (s_user s) x && negb (P x);
  cl_marked x : marked (s_user s') x = marked (s_user s) x && negb (P x);
  cl_file x : P x = false → file_at (s_user s') x = file_at (s_user s) x;
  cl_gone x : gone P s x → fds (s_host s') !! x = None;
  cl_stay x : ¬ gone P s x → fds (s_host s') !! x = fds (s_host s) !! x }.

Lemma closing_ext P Q s s' : (∀ x, P x = Q x) → closing P s s' → closing Q s s'.
Proof.
  intros E [A1 A2 A3 A4 A5 A6 A7]. split; try done.
  - intros x. by rewrite <- E.
  - intros x. by rewrite <- E.
  - intros x. rewrite <- E. apply A5.
  - intros x [[G1 G2]|[fd [G1 G2]]]; apply A6; [left|right; exists fd]; by rewrite E.
  - intros x Hn. apply A7. intros [[G1 G2]|[fd [G1 G2]]]; apply Hn; [left|right; exists fd]; by rewrite <- E.
Qed.

Lemma closing_none s : inv s → closing (λ _, false) s s.
Proof.
  intros Hi. split; try done; try (intros x; cbn [negb]; by rewrite andb_true_r). intros x [[_ ?]|[? [_ ?]]]; done.
Qed.

Lemma closing_trans P Q s s1 s2 : closing P s s1 → closing Q s1 s2 → closing (λ x, P x || Q x) s s2.
Proof.
  intros [A1 A2 A3 A4 A5 A6 A7] [B1 B2 B3 B4 B5 B6 B7].
  assert (∀ fd x, stream (s_user s1) fd x → stream (s_user s) fd x ∧ P fd = false) as Hs1.
  { intros fd x [S1 (f & S2 & S3)]. rewrite A3 in S1. apply andb_true_iff in S1 as [S1 S4]. apply negb_true_iff in S4. split; [|done].
    split; [done|]. exists f. by rewrite <- A5. }
  assert (∀ fd x, stream (s_user s) fd x → P fd = false → stream (s_user s1) fd x) as Hs2.
  { intros fd x [S1 (f & S2 & S3)] Hp. split; [by rewrite A3, S1, Hp|]. exists f. by rewrite A5. }
  assert (∀ x, gone Q s1 x → gone (λ x, P x || Q x) s x) as Hg.
  { intros x [[G1 G2]|[fd [G1 G2]]]; [left|right; exists fd].
    - rewrite A3 in G1. apply andb_true_iff in G1 as [G1 _]. by rewrite G2, orb_true_r.
    - apply Hs1 in G1 as [G1 _]. by rewrite G2, orb_true_r. }
  split; try congruence.
  - by apply (good_trans s s1 s2).
  - intros x. by rewrite B3, A3, negb_orb, andb_assoc.
  - intros x. by rewrite B4, A4, negb_orb, andb_assoc.
  - intros x E. apply orb_false_iff in E as [E1 E2]. by rewrite B5, A5.
  - intros x Hx. assert (gone P s x ∨ gone Q s1 x) as [G|G].
    { destruct Hx as [[G1 G2]|[fd [G1 G2]]]; [destruct (P x) eqn:E|destruct (P fd) eqn:E].
      - left. by left.
      - right. left. by rewrite A3, G1, E.
      - left. right. by exists fd.
      - right. right. exists fd. split; [by apply Hs2|done]. }
    + destruct (fds (s_host s2) !! x) eqn:E2; [|done]. pose proof (A6 x G) as E1. assert (¬ gone Q s1 x) as Hn.
      { intros Hn. rewrite (B6 x Hn) in E2. done. }
      rewrite (B7 x Hn), E1 in E2. done.
    + by apply B6.
  - intros x Hn. rewrite B7, A7; [done| |auto]. intros [[G1 G2]|[fd [G1 G2]]]; apply Hn; [left|right; exists fd]; by rewrite G2.
Qed.

Lemma without_lookup f m x : without f m !! x =
  if decide (x = f_fd f ∨ f_ops f = Darwinfs ∧ f_dirp f = Some x) then None else m !! x.
Proof.
  unfold without. destruct (decide (x = f_fd f)) as [->|Hne]; [rewrite lookup_delete_eq; by rewrite decide_True by (by left)|].
  rewrite lookup_delete_ne by done. destruct (f_ops f), (f_dirp f) as [d|]; try (rewrite decide_False; [done|naive_solver]).
  destruct (decide (x = d)) as [->|Hd]; [rewrite lookup_delete_eq; by rewrite decide_True by (right; done)|].
  rewrite lookup_delete_ne by done. rewrite decide_False; [done|naive_solver].
Qed.

(** The descriptors under one of the guest's. *)
Lemma gone_one s fd f : inv s → opened (s_user s) fd = true → file_at (s_user s) fd = Some f →
  ∀ x, gone (Z.eqb fd) s x ↔ x = f_fd f ∨ f_ops f = Darwinfs ∧ f_dirp f = Some x.
Proof.
  intros Hi Ho Hf x. destruct (ok_file _ (v_user _ Hi) fd Ho) as (f' & Hf' & F1 & F2 & F3). rewrite Hf in Hf'. injection Hf' as <-. unfold gone. split.
  - intros [[G1 G2]|[x' [[G1 (f' & G3 & G4)] G2]]]; apply Z.eqb_eq in G2; subst; [by left|]. right. rewrite Hf in G3. injection G3 as <-.
    split; [|done]. destruct (f_ops f); [done..|]. by rewrite F3 in G4.
  - intros [->|[G1 G2]]; [left; rewrite F1; by rewrite Z.eqb_refl|]. right. exists fd. rewrite Z.eqb_refl. split; [|done]. split; [done|by exists f].
Qed.

Lemma close_good s fd f t' h' :
  inv s → change (s_user s) t' fd false false (closed_file f) →
  (∀ x, ¬ gone (Z.eqb fd) s x → fds h' !! x = fds (s_host s) !! x) → good s (set_h h' (set_user t' s)).
Proof.
  intros Hi Hc Eh.
  assert (∀ x y, stream t' x y → x ≠ fd ∧ stream (s_user s) x y) as Hst.
  { intros x y [S1 (f' & S2 & S3)]. rewrite (ch_open _ _ _ _ _ _ Hc) in S1. rewrite (ch_file _ _ _ _ _ _ Hc) in S2.
    destruct (Z.eqb_spec x fd); [done|]. split; [done|]. split; [done|by exists f']. }
  assert (∀ x, x ≠ fd → opened (s_user s) x = true ∨ (∃ y, stream (s_user s) y x ∧ y ≠ fd) → fds h' !! x = fds (s_host s) !! x) as Hsame.
  { intros x Hx Hox. apply Eh. intros [[G1 G2]|[x' [G1 G2]]]; apply Z.eqb_eq in G2; subst; [done|].
    destruct Hox as [Hox|(y & Hy & Hny)]; [destruct (v_stream _ Hi _ _ G1); congruence|]. apply Hny. by eapply (v_inj _ Hi). }
  split; [constructor; cbn| |done..].
  - by apply (change_ok _ _ _ _ _ _ (v_user _ Hi) Hc).
  - rewrite (ch_start _ _ _ _ _ _ Hc). apply Hi.
  - apply Hi.
  - rewrite (ch_size _ _ _ _ _ _ Hc). apply Hi.
  - intros x. rewrite (ch_open _ _ _ _ _ _ Hc). destruct (x =? fd); [done|apply Hi].
  - intros x f'. rewrite (ch_open _ _ _ _ _ _ Hc), (ch_file _ _ _ _ _ _ Hc), (ch_marked _ _ _ _ _ _ Hc).
    destruct (Z.eqb_spec x fd); [done|]. intros X1 X2. rewrite Hsame by (by auto). by apply (v_open _ Hi).
  - intros x y Hs. apply Hst in Hs as [X1 X2]. destruct (v_stream _ Hi _ _ X2) as [X3 X4]. rewrite (ch_open _ _ _ _ _ _ Hc).
    destruct (Z.eqb_spec y fd) as [->|Hy].
    + split; [done|]. rewrite Eh; [done|]. intros [[G1 _]|[x' [G1 G2]]]; [congruence|]. apply Z.eqb_eq in G2. subst. apply X1. by eapply (v_inj _ Hi).
    + split; [done|]. rewrite Hsame; [done|done|right; by exists x].
  - intros x x' y S1 S2. apply Hst in S1 as [_ S1], S2 as [_ S2]. by apply (v_inj _ Hi x x' y).
  - intros d Hn Hd. cbn. rewrite Eh.
    + split; [done|]. intros [Hm|[x Hm]]; apply Hn; cbn in Hm.
      * left. rewrite (ch_open _ _ _ _ _ _ Hc) in Hm. by destruct (d =? fd).
      * right. exists x. apply (Hst _ _ Hm).
    + intros [[G1 G2]|[x' [G1 G2]]]; apply Hn; [by left|right; by eexists].
Qed.

(** One descriptor of the guest's, open or not. *)
Lemma close_closing s fd : inv s →
  ∃ n t' h', do_close (s_user s) fd (s_host s) = Ret (n, t', h') ∧ closing (Z.eqb fd) s (set_h h' (set_user t' s)).
Proof.
  intros Hi. destruct (do_close_spec (s_user s) fd (s_host s) (v_user _ Hi)) as [(Ho & f & n & t' & h' & Hf & -> & Hc & Eh)|[Ho ->]].
  2:{ eexists _, _, _. split; [done|]. replace (set_h _ (set_user _ s)) with s by (by destruct s). assert (marked (s_user s) fd = false) as Hm.
      { destruct (marked (s_user s) fd) eqn:E; [|done]. apply (ok_marked _ (v_user _ Hi)) in E. congruence. }
      split; try done; intros x.
      - destruct (Z.eqb_spec fd x) as [<-|]; [by rewrite Ho|by rewrite andb_true_r].
      - destruct (Z.eqb_spec fd x) as [<-|]; [by rewrite Hm|by rewrite andb_true_r].
      - intros [[G1 G2]|[x' [[G1 _] G2]]]; apply Z.eqb_eq in G2; subst; congruence. }
  pose proof (gone_one s fd f Hi Ho Hf) as Hg.
  assert (∀ x, gone (Z.eqb fd) s x → fds h' !! x = None) as G1 by (intros x Hx; apply Hg in Hx; by rewrite Eh, without_lookup, decide_True).
  assert (∀ x, ¬ gone (Z.eqb fd) s x → fds h' !! x = fds (s_host s) !! x) as G2.
  { intros x Hx. rewrite Eh, without_lookup, decide_False; [done|]. by rewrite <- Hg. }
  exists n, t', h'. split; [done|]. split; cbn; try done.
  - by apply (close_good s fd f).
  - apply Hc.
  - intros x. rewrite (ch_open _ _ _ _ _ _ Hc), (Z.eqb_sym fd). by destruct (x =? fd), (opened (s_user s) x).
  - intros x. rewrite (ch_marked _ _ _ _ _ _ Hc), (Z.eqb_sym fd). by destruct (x =? fd), (marked (s_user s) x).
  - intros x Hx. rewrite (ch_file _ _ _ _ _ _ Hc). destruct (Z.eqb_spec x fd) as [->|]; [|done]. by rewrite Z.eqb_refl in Hx.
Qed.

Lemma set_set s t h t' h' : set_h h' (set_user t' (set_h h (set_user t s))) = set_h h' (set_user t' s).
Proof. done. Qed.

(** One word of close_cloexec closes what is marked in it from bit [j] on. *)
Lemma cloexec_word_spec i fuel : 0 ≤ i → ∀ s j, inv s → 0 ≤ j → j + Z.of_nat fuel = 64 → 64 * i < t_size (s_user s) →
  ∃ t' h', cloexec_word fuel i j (s_user s) (s_host s) = Ret (t', h') ∧
    closing (λ x, marked (s_user s) x && (64 * i + j <=? x) && (x <? 64 * i + 64)) s (set_h h' (set_user t' s)).
Proof.
  intros Hi0. induction fuel as [|fuel IH]; intros s j Hi Hj Hf Hsz.
  - exists (s_user s), (s_host s). split; [done|]. replace (set_h _ (set_user _ s)) with s by (by destruct s).
    apply (closing_ext (λ _, false)); [|by apply closing_none]. intros x. destruct (marked _ x); cbn [andb]; [|done]. lia.
  - cbn [cloexec_word]. destruct (v_user _ Hi) as [[S1 S2 S3] Hm _].
    destruct (lookup_lt_is_Some_2 (t_cloexec (s_user s)) (Z.to_nat i)) as [w Ew]; [rewrite S2; lia|]. rewrite Ew.
    assert (∀ k, 0 ≤ k < 64 → marked (s_user s) (64 * i + k) = Z.testbit w k) as Hw.
    { intros k Hk. unfold marked, bit. rewrite (v_zero _ Hi), Z.sub_0_r. destruct (Z.leb_spec 0 (64 * i + k)); [|lia]. cbn [andb].
      replace ((64 * i + k) / 64) with i by lia_mod. replace ((64 * i + k) mod 64) with k by lia_mod. by rewrite nth_lookup, Ew. }
    destruct (Z.eqb_spec w 0) as [->|Hw0].
    { exists (s_user s), (s_host s). split; [done|]. replace (set_h _ (set_user _ s)) with s by (by destruct s).
      apply (closing_ext (λ _, false)); [|by apply closing_none]. intros x.
      destruct (Z.leb_spec (64 * i + j) x), (Z.ltb_spec x (64 * i + 64)); rewrite ?andb_false_r; try done.
      replace x with (64 * i + (x - 64 * i)) by lia. rewrite Hw by lia. by rewrite Z.bits_0. }
    destruct (Z.testbit w j) eqn:Eb.
    + destruct (close_closing s (j + i * 64) Hi) as (n & t1 & h1 & -> & Hc). cbn [mbind outcome_bind].
      destruct (IH (set_h h1 (set_user t1 s)) (j + 1)) as (t2 & h2 & E2 & Hc2); [apply Hc|lia|lia|by rewrite (cl_size _ _ _ Hc)|].
      cbn [s_user s_host set_h set_user] in E2. exists t2, h2. split; [done|]. rewrite set_set in Hc2.
      eapply closing_ext; [|apply (closing_trans _ _ _ _ _ Hc Hc2)]. intros x. cbn beta. rewrite (cl_marked _ _ _ Hc).
      destruct (Z.eqb_spec (j + i * 64) x) as [<-|Hne]; cbn [orb negb andb].
      * replace (j + i * 64) with (64 * i + j) by lia. rewrite Hw, Eb by lia. cbn [andb]. lia.
      * rewrite andb_true_r. destruct (marked (s_user s) x); cbn [andb]; lia.
    + destruct (IH s (j + 1)) as (t2 & h2 & E2 & Hc2); [done|lia|lia|done|]. exists t2, h2. split; [done|].
      eapply closing_ext; [|apply Hc2]. intros x. cbn beta.
      destruct (decide (x = 64 * i + j)) as [->|Hne]; [rewrite Hw, Eb by lia; done|]. destruct (marked (s_user s) x); cbn [andb]; lia.
Qed.

Lemma close_cloexec_loop l : ∀ s, inv s → Forall (λ i, 0 ≤ i ∧ 64 * i < t_size (s_user s)) l →
  ∃ t' h', for_each (λ i '(t, h), cloexec_word 64 i 0 t h) l (s_user s, s_host s) = Ret (t', h') ∧
    closing (λ x, marked (s_user s) x && bool_decide (x / 64 ∈ l)) s (set_h h' (set_user t' s)).
Proof.
  induction l as [|i l IH]; intros s Hi Hl; cbn [for_each].
  - exists (s_user s), (s_host s). split; [done|]. replace (set_h _ (set_user _ s)) with s by (by destruct s).
    apply (closing_ext (λ _, false)); [|by apply closing_none]. intros x. rewrite bool_decide_false by (by intros ?%elem_of_nil). by rewrite andb_false_r.
  - apply Forall_cons in Hl as [[Hi0 Hi1] Hl]. destruct (cloexec_word_spec i 64 Hi0 s 0 Hi) as (t1 & h1 & -> & Hc); [lia..|]. cbn [mbind outcome_bind].
    destruct (IH (set_h h1 (set_user t1 s))) as (t2 & h2 & E2 & Hc2); [apply Hc|by rewrite (cl_size _ _ _ Hc)|].
    cbn [s_user s_host set_h set_user] in E2. exists t2, h2. split; [done|]. rewrite set_set in Hc2.
    eapply closing_ext; [|apply (closing_trans _ _ _ _ _ Hc Hc2)]. intros x. cbn beta. rewrite (cl_marked _ _ _ Hc).
    destruct (marked (s_user s) x) eqn:Em; cbn [andb]; [|done]. rewrite (bool_decide_ext (x / 64 ∈ i :: l) (x / 64 = i ∨ x / 64 ∈ l)) by apply elem_of_cons.
    destruct (decide (x / 64 = i)) as [Ex|Ex].
    + rewrite (bool_decide_true (_ ∨ _)) by (by left). assert ((64 * i + 0 <=? x) && (x <? 64 * i + 64) = true) as -> by (apply andb_true_iff; split; [apply Z.leb_le|apply Z.ltb_lt]; lia_mod). done.
    + rewrite (bool_decide_ext (x / 64 = i ∨ x / 64 ∈ l) (x / 64 ∈ l)) by (split; [by intros [?|?]|by right]).
      assert ((64 * i + 0 <=? x) && (x <? 64 * i + 64) = false) as -> by (apply andb_false_iff; destruct (decide (x < 64 * i)); [left; apply Z.leb_gt|right; apply Z.ltb_ge]; lia_mod). done.
Qed.

Lemma close_cloexec_closing s : inv s → ∃ s', close_cloexec s = Ret s' ∧ closing (marked (s_user s)) s s'.
Proof.
  intros Hi. destruct (v_user _ Hi) as [Hs Hm _]. pose proof Hs as [S1 S2 S3]. unfold close_cloexec. rewrite quot_div by lia.
  destruct (close_cloexec_loop (counter 1 (t_size (s_user s) / 64)) s Hi) as (t' & h' & -> & Hc).
  - apply Forall_forall. intros i Hin. apply elem_of_counter in Hin; [lia_mod|lia|lia_mod].
  - cbn [mbind outcome_bind]. eexists. split; [done|]. eapply closing_ext; [|apply Hc]. intros x. cbn beta.
    destruct (marked (s_user s) x) eqn:Em; [|done]. apply bool_decide_true. pose proof (open_nonneg s x Hi (Hm x Em)).
    apply elem_of_counter; [lia|lia_mod|]. rewrite Z.mod_1_r. split; [done|lia_mod].
Qed.

(** ** Marking *)

(** F_SETFD and CLOSE_RANGE_CLOEXEC: the flag in the host and the bit here. *)
Record marking (P : Z → bool) (c : bool) s s' : Prop := {
  mk_good : good s s';
  mk_size : t_size (s_user s') = t_size (s_user s);
  mk_open x : opened (s_user s') x = opened (s_user s) x;
  mk_file' x : file_at (s_user s') x = file_at (s_user s) x;
  mk_marked x : marked (s_user s') x = if opened (s_user s) x && P x then c else marked (s_user s) x;
  mk_descr x : fds (s_host s') !! x =
    if opened (s_user s) x && P x then (λ d : Z * bool, (d.1, c)) <$> fds (s_host s) !! x else fds (s_host s) !! x }.

Lemma mark_good s fd (c : bool) o c0 h' l' :
  inv s → opened (s_user s) fd = true → fds (s_host s) !! fd = Some (o, c0) → fds h' = <[fd := (o, c)]> (fds (s_host s)) →
  length l' = length (t_cloexec (s_user s)) →
  (∀ d, 0 ≤ d → bit l' d = if d =? fd then c else bit (t_cloexec (s_user s)) d) →
  marking (Z.eqb fd) c s (set_h h' (set_user (set_cloexec l' (s_user s)) s)).
Proof.
  intros Hi Ho Hd Eh Hl Hb. pose proof (open_nonneg s fd Hi Ho) as Hn. destruct (v_user _ Hi) as [[S1 S2 S3] Hm Hf].
  set (t' := set_cloexec l' (s_user s)).
  assert (∀ x, marked t' x = if x =? fd then c else marked (s_user s) x) as Em.
  { intros x. unfold marked, t'; cbn. rewrite (v_zero _ Hi), Z.sub_0_r. destruct (Z.leb_spec 0 x); cbn [andb]; [by apply Hb|]. by destruct (Z.eqb_spec x fd); [lia|]. }
  assert (table_ok t') as Hok.
  { constructor; [constructor; unfold t'; cbn; [done|congruence|done]| |exact Hf]. intros x. rewrite Em. destruct (Z.eqb_spec x fd) as [->|]; [done|apply Hm]. }
  assert (∀ x, x ≠ fd → fds h' !! x = fds (s_host s) !! x) as Hne by (intros x Hx; by rewrite Eh, lookup_insert_ne).
  assert (∀ x, is_Some (fds (s_host s) !! x) → is_Some (fds h' !! x)) as Hsome.
  { intros x Hx. destruct (decide (x = fd)) as [->|]; [rewrite Eh, lookup_insert_eq; by eexists|by rewrite Hne]. }
  split; cbn; try done.
  - split; [constructor; cbn| |done..]; try (by apply Hi); [done| | |].
    + intros x f X1 X2. rewrite Em. destruct (Z.eqb_spec x fd) as [->|Hx]; [|rewrite Hne by done; by apply (v_open _ Hi)].
      rewrite Eh, lookup_insert_eq. by exists o, c.
    + intros x y Hs. destruct (v_stream _ Hi _ _ Hs). split; [done|by apply Hsome].
    + intros d Hnm Hs. cbn. rewrite Hne; [split; [done|]; exact Hnm|]. intros ->. apply Hnm. by left.
  - intros x. fold t'. rewrite Em, (Z.eqb_sym fd). destruct (Z.eqb_spec x fd) as [->|]; [by rewrite Ho|by rewrite andb_false_r].
  - intros x. rewrite (Z.eqb_sym fd). destruct (Z.eqb_spec x fd) as [->|Hx]; [by rewrite Ho, Eh, lookup_insert_eq, Hd|]. by rewrite Hne, andb_false_r.
Qed.

(** The bit update of either value. *)
Lemma mark_bit s fd (c : bool) : inv s → opened (s_user s) fd = true →
  let t := s_user s in
  ∃ l', (if c then set_fdbit t (t_cloexec t) fd else clear_fdbit t (t_cloexec t) fd) = Ret l' ∧ length l' = length (t_cloexec t) ∧
    ∀ d, 0 ≤ d → bit l' d = if d =? fd then c else bit (t_cloexec t) d.
Proof.
  intros Hi Ho t. pose proof (open_nonneg s fd Hi Ho) as Hn. destruct (v_user _ Hi) as [[S1 S2 S3] _ _]. pose proof (v_zero _ Hi) as Hz. fold t in Hn, S1, S2, Hz. destruct c.
  - destruct (set_fdbit_spec t (t_cloexec t) fd) as (l' & E & L & B); [lia|]. exists l'. split_and!; [done..|]. intros d Hd. rewrite B, Hz, Z.sub_0_r by done.
    by destruct (d =? fd), (bit _ d).
  - destruct (clear_fdbit_spec t (t_cloexec t) fd) as (l' & E & L & B); [lia|]. exists l'. split_and!; [done..|]. intros d Hd. rewrite B, Hz, Z.sub_0_r by done.
    by destruct (d =? fd), (bit _ d).
Qed.

(** Only the host changed, and none of what was open. *)
Lemma host_good s h' : inv s → (∀ d, is_Some (fds (s_host s) !! d) → fds h' !! d = fds (s_host s) !! d) → good s (set_h h' s).
Proof.
  intros Hi Eh. split; [constructor; cbn; try (by apply Hi)| |done..].
  - intros fd f X1 X2. rewrite Eh by (by apply open_host). by apply (v_open _ Hi).
  - intros fd d Hs. destruct (v_stream _ Hi _ _ Hs). split; [done|]. by rewrite Eh.
  - intros d Hn Hd. cbn. by rewrite Eh.
Qed.

Lemma same_good s h' : inv s → fds h' = fds (s_host s) → good s (set_h h' s).
Proof. intros Hi E. apply host_good; [done|]. intros d _. by rewrite E. Qed.

Lemma get_file_spec s fd : inv s → get_file fd s = Ret (if opened (s_user s) fd then file_at (s_user s) fd else None).
Proof.
  intros Hi. unfold get_file. destruct ((fd <? 0) || (fd >=? t_size (s_user s))) eqn:E.
  - destruct (opened (s_user s) fd) eqn:Eo; [|done]. pose proof (open_nonneg s fd Hi Eo). lia.
  - apply do_get_file_spec; [apply Hi|]. unfold within. rewrite (v_zero _ Hi). lia.
Qed.

Lemma fcntl_good s f cmd arg : inv s → opened (s_user s) (f_fd f) = true →
  ∃ r s', darwinfs_fcntl f cmd arg s = Ret (r, s') ∧ good s s'.
Proof.
  intros Hi Ho. destruct (open_host s _ Hi Ho) as [[o c0] Hd].
  assert (∀ c, ∃ r s', (let '(r, h) := h_dupfd (f_fd f) (s32 arg) c (s_host s) in
      if r >=? 0 then register_new r c (set_h h s) else Ret (r, set_h h s)) = Ret (r, s') ∧ good s s') as Hdup.
  { intros c. destruct (h_dupfd (f_fd f) (s32 arg) c (s_host s)) as [r h'] eqn:E. apply dupfd_law in E as [[E1 E2]|(E0 & E1 & E2 & d & E3 & E4)].
    - destruct (Z.geb_spec r 0); [lia|]. eexists _, _. split; [done|]. by apply same_good.
    - destruct (Z.geb_spec r 0); [|lia]. destruct (register_new_good s h' r d.1 c Hi) as (n & s' & E' & Hg & _); [lia|done..|]. by exists n, s'. }
  destruct cmd; cbn [darwinfs_fcntl]; [apply Hdup|apply Hdup|eexists _, _; split; [done|by apply good_refl]|].
  destruct (h_setfd (f_fd f) (has arg 1) (s_host s)) as [r h'] eqn:E. apply setfd_law in E as [(E1 & _ & E2)|(E1 & d & E3 & E4)].
  - destruct (Z.geb_spec r 0); [lia|]. eexists _, _. split; [done|]. by apply same_good.
  - destruct (Z.geb_spec r 0); [|lia]. destruct (mark_bit s (f_fd f) (has arg 1) Hi Ho) as (l' & -> & L & B). cbn [mbind outcome_bind].
    eexists _, _. split; [done|]. rewrite Hd in E3. injection E3 as <-. apply (mark_good s (f_fd f) (has arg 1) o c0 h' l' Hi Ho Hd E4 L B).
Qed.

(** ** close_range *)

Lemma marking_none s : inv s → marking (λ _, false) true s s.
Proof. intros Hi. split; try done; intros x; by rewrite andb_false_r. Qed.

Lemma marking_trans P Q s s1 s2 : marking P true s s1 → marking Q true s1 s2 → marking (λ x, P x || Q x) true s s2.
Proof.
  intros [A1 A2 A3 A4 A5 A6] [B1 B2 B3 B4 B5 B6]. split; try (intros x); try congruence.
  - by apply (good_trans s s1 s2).
  - rewrite B5, A5, A3. by destruct (opened _ x), (P x), (Q x).
  - rewrite B6, A6, A3. destruct (opened _ x), (P x), (Q x); cbn; try done. by destruct (fds (s_host s) !! x).
Qed.

Lemma marking_ext P Q s s' : (∀ x, P x = Q x) → marking P true s s' → marking Q true s s'.
Proof. intros E [A1 A2 A3 A4 A5 A6]. split; try done; intros x; by rewrite <- E. Qed.

Lemma close_one_spec mark fd s : inv s → 0 ≤ fd < t_size (s_user s) →
  ∃ t' h', close_one mark fd (s_user s, s_host s) = Ret (t', h') ∧
    let s' := set_h h' (set_user t' s) in if mark then marking (Z.eqb fd) true s s' else closing (Z.eqb fd) s s'.
Proof.
  intros Hi Hfd. unfold close_one. rewrite test_open; [|apply Hi|unfold within; rewrite (v_zero _ Hi); lia]. cbn [mbind outcome_bind].
  destruct (opened (s_user s) fd) eqn:Eo; cbn [negb].
  - destruct mark.
    + destruct (open_host s fd Hi Eo) as [[o c0] Hd]. destruct (h_setfd fd true (s_host s)) as [r h'] eqn:E.
      apply setfd_law in E as [(_ & E & _)|(E1 & d & E3 & E4)]; [congruence|]. destruct (Z.geb_spec r 0); [|lia].
      destruct (mark_bit s fd true Hi Eo) as (l' & -> & L & B). cbn [mbind outcome_bind]. rewrite Hd in E3. injection E3 as <-.
      eexists _, _. split; [done|]. by apply (mark_good s fd true o c0 h' l').
    + destruct (close_closing s fd Hi) as (n & t' & h' & -> & Hc). by exists t', h'.
  - exists (s_user s), (s_host s). split; [done|]. cbn zeta. replace (set_h _ (set_user _ s)) with s by (by destruct s). destruct mark.
    + pose proof (marking_none s Hi) as [A1 A2 A3 A4 A5 A6]. split; try done; intros x; destruct (Z.eqb_spec fd x) as [<-|]; rewrite ?Eo, ?andb_false_r; done.
    + destruct (close_closing s fd Hi) as (n & t' & h' & E & Hc). destruct (do_close_spec (s_user s) fd (s_host s) (v_user _ Hi)) as [[? _]|[_ E2]]; [congruence|].
      rewrite E2 in E. injection E as <- <- <-. by replace (set_h _ (set_user _ s)) with s in Hc by (by destruct s).
Qed.

Lemma close_each_spec mark l : ∀ s, inv s → Forall (λ fd, 0 ≤ fd < t_size (s_user s)) l →
  ∃ t' h', for_each (close_one mark) l (s_user s, s_host s) = Ret (t', h') ∧
    let P x := bool_decide (x ∈ l) in
    let s' := set_h h' (set_user t' s) in if mark then marking P true s s' else closing P s s'.
Proof.
  induction l as [|fd l IH]; intros s Hi Hl; cbn [for_each].
  - exists (s_user s), (s_host s). split; [done|]. cbn zeta. replace (set_h _ (set_user _ s)) with s by (by destruct s).
    assert (∀ x : Z, false = bool_decide (x ∈ [])) as E by (intros x; by rewrite bool_decide_false by (by intros ?%elem_of_nil)).
    destruct mark; [apply (marking_ext _ _ _ _ E); by apply marking_none|apply (closing_ext _ _ _ _ E); by apply closing_none].
  - apply Forall_cons in Hl as [Hfd Hl]. destruct (close_one_spec mark fd s Hi Hfd) as (t1 & h1 & -> & Hc). cbn [mbind outcome_bind]. cbn zeta in Hc.
    set (s1 := set_h h1 (set_user t1 s)) in *. assert (inv s1 ∧ t_size (s_user s1) = t_size (s_user s)) as [Hi1 Hs1] by (destruct mark; split; apply Hc).
    destruct (IH s1 Hi1) as (t2 & h2 & E2 & Hc2); [by rewrite Hs1|]. exists t2, h2. split; [done|]. cbn zeta in *. change (set_h h2 (set_user t2 s1)) with (set_h h2 (set_user t2 s)) in Hc2.
    assert (∀ x, (fd =? x) || bool_decide (x ∈ l) = bool_decide (x ∈ fd :: l)) as E.
    { intros x. rewrite (bool_decide_ext (x ∈ fd :: l) (x = fd ∨ x ∈ l)) by apply elem_of_cons. rewrite bool_decide_or. f_equal. rewrite Z.eqb_sym. by destruct (Z.eqb_spec x fd); [rewrite bool_decide_true|rewrite bool_decide_false]. }
    destruct mark; [apply (marking_ext _ _ _ _ E); by apply (marking_trans _ _ s s1)|apply (closing_ext _ _ _ _ E); by apply (closing_trans _ _ s s1)].
Qed.

(** Only what [P] says of open descriptors matters. *)
Lemma closing_weaken P Q s s' : inv s → (∀ x, opened (s_user s) x = true → P x = Q x) → (∀ x, Q x = false → P x = false) →
  closing P s s' → closing Q s s'.
Proof.
  intros Hi E1 E2 [A1 A2 A3 A4 A5 A6 A7].
  assert (∀ x, gone P s x ↔ gone Q s x) as Hg.
  { intros x. unfold gone. split; intros [[G1 G2]|[fd [G1 G2]]].
    - left. by rewrite <- E1.
    - right. exists fd. rewrite <- E1; [done|apply G1].
    - left. by rewrite E1.
    - right. exists fd. rewrite E1; [done|apply G1]. }
  split; try done.
  - intros x. rewrite A3. destruct (opened (s_user s) x) eqn:Eo; [by rewrite E1|done].
  - intros x. rewrite A4. destruct (marked (s_user s) x) eqn:Em; [|done]. rewrite E1; [done|]. by apply (ok_marked _ (v_user _ Hi)).
  - intros x Hx. apply A5. by apply E2.
  - intros x Hx. apply A6. by apply Hg.
  - intros x Hx. apply A7. by rewrite Hg.
Qed.

Lemma marking_weaken P Q s s' : (∀ x, opened (s_user s) x = true → P x = Q x) → marking P true s s' → marking Q true s s'.
Proof.
  intros E [A1 A2 A3 A4 A5 A6]. split; try done; intros x; rewrite ?A5, ?A6; destruct (opened (s_user s) x) eqn:Eo; cbn [andb]; try done; by rewrite E.
Qed.

Lemma close_range_spec first last flags s : inv s → 0 ≤ first ≤ last → has flags (Z.lnot 6) = false →
  ∃ s', sys_close_range first last flags s = Ret (0, s') ∧
    let P x := (first <=? x) && (x <=? last) in
    if has flags LINUX_CLOSE_RANGE_CLOEXEC then marking P true s s' else closing P s s'.
Proof.
  intros Hi Hfl Hf. unfold sys_close_range. change (Z.lor _ _) with 6. rewrite Hf, Z.gtb_ltb. destruct (Z.ltb_spec last first); [lia|].
  pose proof (v_size _ Hi). pose proof (v_top _ Hi). destruct (v_user _ Hi) as [[S1 _ _] _ _]. rewrite (v_zero _ Hi), u32_small by lia.
  set (n := t_size (s_user s)) in *. set (last' := if last >=? 0 + n then _ else _).
  assert (Z.min (last' + 1) (0 + n) = Z.min (last + 1) n) as -> by (unfold last'; destruct (Z.geb_spec last (0 + n)), (Z.eqb_spec (0 + n) 0); lia).
  destruct (close_each_spec (has flags LINUX_CLOSE_RANGE_CLOEXEC) (seqZ first (Z.min (last + 1) n - first)) s Hi) as (t' & h' & -> & Hc).
  { apply Forall_forall. intros x Hx%elem_of_seqZ. fold n. lia. }
  cbn [mbind outcome_bind]. eexists. split; [done|]. cbn zeta in *.
  assert (∀ x, opened (s_user s) x = true → bool_decide (x ∈ seqZ first (Z.min (last + 1) n - first)) = (first <=? x) && (x <=? last)) as E.
  { intros x Eo. pose proof (open_nonneg s x Hi Eo) as Hx. fold n in Hx.
    destruct (Z.leb_spec first x), (Z.leb_spec x last); [rewrite bool_decide_true|rewrite bool_decide_false..]; rewrite ?elem_of_seqZ; done || lia. }
  destruct (has flags LINUX_CLOSE_RANGE_CLOEXEC); [by apply (marking_weaken _ _ _ _ E)|].
  apply (closing_weaken _ _ _ _ Hi E); [|done]. intros x Hx. apply bool_decide_false. rewrite elem_of_seqZ. lia.
Qed.

(** ** The other calls *)

(** A new stream, or another kind of file, under an open descriptor. *)
Lemma refile_good s fd f f' h' : inv s → opened (s_user s) fd = true → file_at (s_user s) fd = Some f →
  (∀ d, is_Some (fds (s_host s) !! d) → fds h' !! d = fds (s_host s) !! d) →
  f_fd f' = fd → f_ops f' ≠ NoOps → (f_ops f' = Pathfd → f_dirp f' = None) → (f_ops f' = Darwinfs → f_ops f = Darwinfs) →
  (f_dirp f' = f_dirp f ∨ f_dirp f' = None ∨ ∃ d, f_dirp f' = Some d ∧ fds (s_host s) !! d = None ∧ is_Some (fds h' !! d)) →
  good s (set_h h' (set_user (set_files (<[Z.to_nat (fd - t_start (s_user s)) := f']> (t_files (s_user s))) (s_user s)) s)).
Proof.
  intros Hi Ho Hf Eh F1 F2 F3 F4 F5. pose proof (opened_within _ _ (ok_shape _ (v_user _ Hi)) Ho) as Hw.
  assert (change (s_user s) (set_files (<[Z.to_nat (fd - t_start (s_user s)) := f']> (t_files (s_user s))) (s_user s)) fd true (marked (s_user s) fd) f') as Hc.
  { pose proof (v_zero _ Hi) as Hz. unfold within in Hw. apply change_intro; try done; [apply Hi|intros d Hd..]; rewrite Hz, Z.sub_0_r; destruct (Z.eqb_spec d fd) as [->|]; try done.
    - unfold opened in Ho. apply andb_true_iff in Ho as [_ Ho]. by rewrite Hz, Z.sub_0_r in Ho.
    - unfold marked. rewrite Hz, Z.sub_0_r. by destruct (Z.leb_spec 0 fd); [|lia]. }
  set (t' := set_files _ _) in *.
  assert (∀ x, opened t' x = opened (s_user s) x) as Eo by (intros x; rewrite (ch_open _ _ _ _ _ _ Hc); by destruct (Z.eqb_spec x fd) as [->|]).
  assert (∀ x, marked t' x = marked (s_user s) x) as Em by (intros x; rewrite (ch_marked _ _ _ _ _ _ Hc); by destruct (Z.eqb_spec x fd) as [->|]).
  assert (∀ x d, stream t' x d → stream (s_user s) x d ∨ x = fd ∧ fds (s_host s) !! d = None ∧ is_Some (fds h' !! d)) as Hs.
  { intros x d [S1 (g & S2 & S3)]. rewrite Eo in S1. rewrite (ch_file _ _ _ _ _ _ Hc) in S2. destruct (Z.eqb_spec x fd) as [->|].
    - injection S2 as <-. destruct F5 as [E|[E|(d' & E & E1 & E2)]].
      + left. split; [done|]. exists f. by rewrite <- E.
      + congruence.
      + right. rewrite E in S3. by injection S3 as <-.
    - left. split; [done|by exists g]. }
  split; [constructor; cbn; fold t'| |done..].
  - apply (change_ok _ _ _ _ _ _ (v_user _ Hi) Hc); [done|auto].
  - apply Hi.
  - apply Hi.
  - apply Hi.
  - intros x. rewrite Eo. apply Hi.
  - intros x g. rewrite Eo, Em, (ch_file _ _ _ _ _ _ Hc). intros X1 X2. rewrite Eh by (by apply open_host). destruct (Z.eqb_spec x fd) as [->|].
    + injection X2 as <-. destruct (v_open _ Hi fd f Ho Hf) as (o & c & E1 & E2). exists o, c. auto.
    + by apply (v_open _ Hi).
  - intros x d Hst. rewrite Eo. apply Hs in Hst as [Hst|(-> & E1 & E2)].
    + destruct (v_stream _ Hi _ _ Hst). by rewrite Eh.
    + split; [|done]. destruct (opened (s_user s) d) eqn:E; [|done]. apply (open_host s d Hi) in E. rewrite E1 in E. by destruct E.
  - intros x y d S1 S2. apply Hs in S1 as [S1|(-> & E1 & E2)]; apply Hs in S2 as [S2|(-> & E3 & E4)]; try done.
    + by apply (v_inj _ Hi x y d).
    + destruct (v_stream _ Hi _ _ S1) as [_ Hd]. rewrite E3 in Hd. by destruct Hd.
    + destruct (v_stream _ Hi _ _ S2) as [_ Hd]. rewrite E1 in Hd. by destruct Hd.
  - intros d Hn Hd. cbn. rewrite Eh by done. split; [done|]. intros [Hm|[x Hm]]; apply Hn; cbn in Hm; fold t' in Hm.
    + left. by rewrite <- Eo.
    + apply Hs in Hm as [Hm|(-> & E1 & E2)]; [right; by exists x|]. rewrite E1 in Hd. by destruct Hd.
Qed.

Lemma open_stream_good s fd : inv s → ∃ r s', open_stream fd s = Ret (r, s') ∧ good s s'.
Proof.
  intros Hi. unfold open_stream. rewrite get_file_spec by done. cbn [mbind outcome_bind].
  destruct (opened (s_user s) fd) eqn:Eo; [|eexists _, _; split; [done|by apply good_refl]].
  destruct (ok_file _ (v_user _ Hi) fd Eo) as (f & Hf & F1 & F2 & F3). rewrite Hf.
  assert (∀ r : Z, ∃ r' s', Ret (r, s) = Ret (r', s') ∧ good s s') as Hsame by (intros r; exists r, s; split; [done|by apply good_refl]).
  destruct (f_ops f) eqn:Eops; [done| |apply Hsame]. destruct (f_dirp f) as [d0|] eqn:Ed; [apply Hsame|].
  destruct (h_dupfd (f_fd f) 0 false (s_host s)) as [r h'] eqn:E. apply dupfd_law in E as [[E1 E2]|(E0 & E1 & E2 & d & E3 & E4)].
  - destruct (Z.ltb_spec r 0); [|lia]. eexists _, _. split; [done|by apply same_good].
  - destruct (Z.ltb_spec r 0); [lia|]. pose proof (opened_within _ _ (ok_shape _ (v_user _ Hi)) Eo) as Hw.
    destruct (file_index_in (s_user s) fd (ok_shape _ (v_user _ Hi)) Hw) as (-> & _). cbn [mbind outcome_bind]. eexists _, _. split; [done|].
    apply (refile_good s fd f); try done; cbn.
    + intros x Hx. rewrite E4, lookup_insert_ne; [done|]. intros ->. rewrite E2 in Hx. by destruct Hx.
    + right. right. exists r. split_and!; [done..|]. rewrite E4, lookup_insert_eq. by eexists.
Qed.

(** A path descriptor: registered and then given its name. *)
Lemma adopt_good s t' h' r o c abs :
  inv s → 0 ≤ r < t_start (s_vkern s) → (opened (s_user s) r = true ∨ fds (s_host s) !! r = None) →
  fds h' = <[r := (o, true)]> (fds (s_host s)) → table_ok t' → t_start t' = 0 → t_size t' ≤ t_start (s_vkern s) + 63 → within t' r →
  (∀ x, opened t' x = if x =? r then true else opened (s_user s) x) →
  (∀ x, marked t' x = if x =? r then c else marked (s_user s) x) →
  (∀ x, opened t' x = true → file_at t' x = if x =? r then Some (mk_file Darwinfs r None None) else file_at (s_user s) x) →
  good s (set_user (set_files (<[Z.to_nat (r - t_start t') := mk_file Pathfd r (Some abs) None]> (t_files t')) t') (set_h h' (set_user t' s))).
Proof.
  intros Hi Hr Hfr Eh T1 T2 T3 Hw T4 T5 T6. set (f' := mk_file Pathfd r (Some abs) None).
  assert (change t' (set_files (<[Z.to_nat (r - t_start t') := f']> (t_files t')) t') r true c f') as Hc.
  { apply change_intro; try done; [apply T1|intros d Hd..]; rewrite T2, Z.sub_0_r; destruct (Z.eqb_spec d r) as [->|]; try done.
    - specialize (T4 r). unfold opened in T4. rewrite T2, Z.sub_0_r, Z.eqb_refl in T4. by apply andb_true_iff in T4 as [_ T4].
    - specialize (T5 r). unfold marked in T5. rewrite T2, Z.sub_0_r, Z.eqb_refl in T5. destruct (Z.leb_spec 0 r); [done|lia]. }
  set (t2 := set_files _ t') in *. change (set_user t2 (set_h h' (set_user t' s))) with (set_h h' (set_user t2 s)).
  apply (enter_good s t2 h' r o c true f'); try done.
  - by apply (change_ok t' t2 r true c f' T1 Hc).
  - intros x Hx. rewrite (ch_open _ _ _ _ _ _ Hc) in Hx. rewrite (ch_file _ _ _ _ _ _ Hc). destruct (Z.eqb_spec x r) as [E|E]; [done|].
    rewrite T6 by done. by destruct (Z.eqb_spec x r).
Qed.

Lemma user_open_good s cloexec as_path : inv s → ∃ r s', user_open cloexec as_path s = Ret (r, s') ∧ good s s'.
Proof.
  intros Hi. unfold user_open. set (c := if as_path is Some _ then true else cloexec).
  destruct (h_open c (s_host s)) as [r h'] eqn:E. apply open_law in E as [[E1 E2]|(E1 & E2 & o & E3)].
  - destruct (Z.ltb_spec r 0); [|lia]. eexists _, _. split; [done|by apply same_good].
  - destruct (Z.ltb_spec r 0); [lia|]. unfold open_tail. destruct (decide (r < t_start (s_vkern s))) as [Hlt|Hge].
    + destruct (register_table s h' r cloexec Hi) as (t' & -> & T1 & T2 & T3 & T0 & T4 & T5 & T6); [lia|]. cbn [mbind outcome_bind].
      change (0 <? 0) with false. cbn iota. destruct as_path as [abs|].
      * unfold pathfd_adopt. cbn [s_user set_h set_user]. destruct (file_index_in t' r (ok_shape _ T1) T0) as (-> & Hfa & _). cbn [mbind outcome_bind].
        eexists _, _. split; [done|]. rewrite T6, Z.eqb_refl in Hfa by (by rewrite T4, Z.eqb_refl). rewrite nth_lookup, <- Hfa.
        apply (adopt_good s t' h' r o cloexec abs); try done. by right.
      * eexists _, _. split; [done|]. by apply (enter_good s t' h' r o cloexec cloexec (mk_file Darwinfs r None None)); try done; right.
    + unfold register_fd. cbn [s_vkern set_h]. rewrite Z.geb_leb. destruct (Z.leb_spec (t_start (s_vkern s)) r); [|lia]. cbn [mbind outcome_bind].
      destruct (Z.ltb_spec (- EMFILE) 0); [|done]. cbn [s_host set_h]. destruct (h_close (- EMFILE) h') as [n h2] eqn:Ec. apply close_law in Ec.
      eexists _, _. split; [done|]. change (set_h h2 (set_h h' s)) with (set_h h2 s). apply host_good; [done|]. intros d Hd. cbn. rewrite Ec, E3.
      pose proof (fds_nonneg _ _ Hd). rewrite lookup_delete_ne by (unfold EMFILE; lia). rewrite lookup_insert_ne; [done|]. intros ->. rewrite E2 in Hd. by destruct Hd.
Qed.

(** A copy put on a number of the guest's own, or a free one. *)
Lemma dup2_new_good s a b c d h' : inv s → a ≠ b → (opened (s_user s) b = true ∨ fds (s_host s) !! b = None) → 0 ≤ b →
  fds h' = <[b := (d, c)]> (fds (s_host s)) → ∃ n s', register_new b c (set_h h' s) = Ret (n, s') ∧ good s s'.
Proof.
  intros Hi Hab Hb Hb0 Eh. destruct (decide (b < t_start (s_vkern s))) as [Hlt|Hge].
  - unfold register_new. destruct (register_good s h' b d c Hi) as (s' & -> & Hg & _); [lia|done..|]. by exists b, s'.
  - destruct Hb as [Hb|Hb]; [apply (v_below _ Hi) in Hb; lia|]. destruct (register_new_good s h' b d c Hi) as (n & s' & E & Hg & _); [done..|]. by exists n, s'.
Qed.

(** The guest names its own descriptors. *)
Definition own_fds s (a b : Z) : Prop :=
  opened (s_user s) a = true ∧ a ≠ b ∧ 0 ≤ b ∧ (opened (s_user s) b = true ∨ fds (s_host s) !! b = None).

Lemma dup2_good s a b : inv s → own_fds s (s32 a) (s32 b) → ∃ n s', sys_dup2 a b s = Ret (n, s') ∧ good s s'.
Proof.
  intros Hi (Ha & Hab & Hb0 & Hb). unfold sys_dup2. case_bool; [eexists _, _; split; [done|by apply good_refl]|].
  destruct (h_dup2 (s32 a) (s32 b) (s_host s)) as [r h'] eqn:E'. apply dup2_law in E' as [[E1 E2]|(-> & d & E1 & E2)].
  - destruct (Z.geb_spec r 0); [lia|]. eexists _, _. split; [done|by apply same_good].
  - destruct (Z.geb_spec (s32 b) 0); [|lia]. rewrite decide_False in E2 by done. by apply (dup2_new_good s (s32 a) (s32 b) false d.1).
Qed.

Lemma dup3_good s a b flags : inv s → own_fds s (s32 a) (s32 b) → ∃ n s', sys_dup3 a b flags s = Ret (n, s') ∧ good s s'.
Proof.
  intros Hi (Ha & Hab & Hb0 & Hb). unfold sys_dup3. case_bool; [eexists _, _; split; [done|by apply good_refl]|].
  destruct (Z.eqb_spec a b); [by subst|]. destruct (h_dup2 (s32 a) (s32 b) (s_host s)) as [r h'] eqn:E'.
  apply dup2_law in E' as [[E1 E2]|(-> & d & E1 & E2)].
  - destruct (Z.ltb_spec r 0); [|lia]. eexists _, _. split; [done|by apply same_good].
  - destruct (Z.ltb_spec (s32 b) 0); [lia|]. rewrite decide_False in E2 by done. cbn [s_host set_h]. destruct (has flags 0x80000).
    + destruct (h_setfd (s32 b) true h') as [e h2] eqn:Es. apply setfd_law in Es as [(_ & Es & _)|(Es & d' & Es1 & Es2)].
      { rewrite E2, lookup_insert_eq in Es. done. }
      destruct (Z.ltb_spec e 0); [lia|]. rewrite E2, lookup_insert_eq in Es1. injection Es1 as <-. rewrite E2, insert_insert_eq in Es2. cbn [fst] in Es2.
      change (set_h h2 (set_h h' s)) with (set_h h2 s). by apply (dup2_new_good s (s32 a) (s32 b) true d.1).
    + change (0 <? 0) with false. cbn iota. change (set_h h' (set_h h' s)) with (set_h h' s). by apply (dup2_new_good s (s32 a) (s32 b) false d.1).
Qed.

Lemma fcntl_call_good s fd cmd arg : inv s → ∃ r s', sys_fcntl fd cmd arg s = Ret (r, s') ∧ good s s'.
Proof.
  intros Hi. unfold sys_fcntl. rewrite get_file_spec by done. cbn [mbind outcome_bind].
  destruct (opened (s_user s) (s32 fd)) eqn:Eo; [|eexists _, _; split; [done|by apply good_refl]].
  destruct (ok_file _ (v_user _ Hi) _ Eo) as (f & -> & F1 & _). apply fcntl_good; [done|by rewrite F1].
Qed.

Lemma dup_good s fd : inv s → ∃ r s', sys_dup fd s = Ret (r, s') ∧ good s s'.
Proof.
  intros Hi. unfold sys_dup, sys_fcntl. rewrite get_file_spec by done. cbn [mbind outcome_bind].
  destruct (opened (s_user s) (s32 fd)) eqn:Eo; [|eexists _, _; split; [done|by apply good_refl]].
  destruct (ok_file _ (v_user _ Hi) _ Eo) as (f & -> & F1 & _). cbn [darwinfs_fcntl].
  destruct (h_dupfd (f_fd f) (s32 0) false (s_host s)) as [r h'] eqn:E. apply dupfd_law in E as [[E1 E2]|(E0 & E1 & E2 & d & E3 & E4)].
  - destruct (Z.geb_spec r 0); [lia|]. cbn [mbind outcome_bind]. destruct (Z.geb_spec r 0); [lia|]. eexists _, _. split; [done|by apply same_good].
  - destruct (Z.geb_spec r 0); [|lia]. destruct (register_new_good s h' r d.1 false Hi) as (n & s1 & -> & Hg & Hn); [done..|]. cbn [mbind outcome_bind].
    destruct Hn as [Hn|(-> & Ho & Hd & Hlt)]; [destruct (Z.geb_spec n 0); [lia|]; by exists n, s1|]. destruct (Z.geb_spec r 0); [|lia].
    unfold register_new. destruct (register_good s1 (s_host s1) r d.1 false) as (s2 & E5 & Hg2 & _).
    + apply Hg.
    + rewrite (g_vkern _ _ Hg). lia.
    + by left.
    + by rewrite insert_id.
    + replace (set_h (s_host s1) s1) with s1 in E5 by (by destruct s1). rewrite E5. exists r, s2. split; [done|]. by apply (good_trans s s1).
Qed.

(** A descriptor that is open in the host and nobody's becomes the guest's. *)
Lemma register_adopt s r o c : inv s → 0 ≤ r → fds (s_host s) !! r = Some (o, c) → ¬ mine s r →
  ∃ s', register_fd r c s = Ret (if r <? t_start (s_vkern s) then 0 else - EMFILE, s') ∧ inv s' ∧ s_host s' = s_host s ∧ s_vkern s' = s_vkern s ∧ s_rootfd s' = s_rootfd s ∧
    (∀ d, mine s' d → d = r ∨ mine s d) ∧ ∀ fd d, stream (s_user s') fd d → stream (s_user s) fd d.
Proof.
  intros Hi Hr Hd Hn. destruct (decide (r < t_start (s_vkern s))) as [Hlt|Hge].
  - destruct (register_table s (s_host s) r c Hi) as (t' & E & T1 & T2 & T3 & _ & T4 & T5 & T6); [lia|].
    replace (set_h (s_host s) s) with s in E by (by destruct s). rewrite E.
    destruct (enter_inv s t' (s_host s) r o c c (mk_file Darwinfs r None None)) as [Hi2 Hst]; try done; [intros fd Hs; apply Hn; right; by exists fd|].
    destruct (Z.ltb_spec r (t_start (s_vkern s))); [|lia]. eexists. split; [done|]. split_and!; try done. intros d [Hm|[fd Hm]].
    + cbn in Hm. rewrite T4 in Hm. destruct (Z.eqb_spec d r); [by left|right; by left].
    + right. right. exists fd. by apply Hst.
  - unfold register_fd. rewrite Z.geb_leb. destruct (Z.leb_spec (t_start (s_vkern s)) r); [|lia].
    destruct (Z.ltb_spec r (t_start (s_vkern s))); [lia|]. exists s. split_and!; try done. by right.
Qed.

Lemma mine_open s d : inv s → mine s d → is_Some (fds (s_host s) !! d).
Proof. intros Hi [Ho|[fd Hs]]; [by apply open_host|by apply (v_stream _ Hi) in Hs as [_ Hs]]. Qed.

Context {G : Type} `{GM : GuestMem G}.

(** Both ends get numbers of the guest's, or neither does. *)
Definition pipe_fits s : Prop :=
  let '(_, (p0, p1), _) := h_pipe (s_host s) in p0 < t_start (s_vkern s) ↔ p1 < t_start (s_vkern s).

Lemma pipe_good s ptr (g : G) : inv s → pipe_fits s → ∃ r s' g', sys_pipe ptr g s = Ret (r, s', g') ∧ good s s'.
Proof.
  intros Hi. unfold pipe_fits, sys_pipe. destruct (h_pipe (s_host s)) as [[r [p0 p1]] h'] eqn:E. intros Hfit.
  apply pipe_law in E as [[E1 E2]|(E1 & P0 & P1 & Hne & N0 & N1 & d0 & d1 & E2)].
  { destruct (Z.ltb_spec r 0); [|lia]. eexists _, _, _. split; [done|by apply same_good]. }
  destruct (Z.ltb_spec r 0); [lia|]. assert (∀ d, is_Some (fds (s_host s) !! d) → d ≠ p0 ∧ d ≠ p1) as Hold.
  { intros d Hd. split; intros ->; rewrite ?N0, ?N1 in Hd; by destruct Hd. }
  assert (good s (set_h h' s)) as Hg. { apply host_good; [done|]. intros d Hd. destruct (Hold d Hd). by rewrite E2, !lookup_insert_ne. }
  destruct (copy_out ptr (le_store 4 p0 ++ le_store 4 p1) g) as [ok g']. destruct ok; cbn [negb]; [|eexists _, _, _; by split].
  assert (∀ p, p = p0 ∨ p = p1 → ¬ mine s p) as Hnm by (intros p Hp Hm; apply (mine_open s p Hi), Hold in Hm as [? ?]; destruct Hp; done).
  destruct (register_adopt (set_h h' s) p0 d0 false) as (s1 & -> & I1 & H1 & V1 & R1 & M1 & _).
  { apply Hg. } { done. } { cbn. by rewrite E2, lookup_insert_eq. } { apply (Hnm p0). by left. } cbn [mbind outcome_bind].
  destruct (register_adopt s1 p1 d1 false) as (s2 & -> & I2 & H2 & V2 & R2 & M2 & _).
  { done. } { done. } { rewrite H1. cbn. by rewrite E2, lookup_insert_ne, lookup_insert_eq. }
  { intros Hm. apply M1 in Hm as [Hm|Hm]; [done|]. apply (Hnm p1); [by right|done]. } cbn [mbind outcome_bind].
  assert (good s s2) as Hg2.
  { split; [done| |rewrite V2, V1; done|rewrite R2, R1; done]. intros d Hn Hd. destruct (g_kept _ _ Hg d Hn Hd) as [K1 K2]. rewrite H2, H1. split; [done|].
    destruct (Hold d Hd). intros Hm. apply M2 in Hm as [Hm|Hm]; [done|]. apply M1 in Hm as [Hm|Hm]; done. }
  assert (∀ e, e < 0 → ∀ h1, fds (h_close e h1).2 = fds h1) as Hcl.
  { intros e He h1. destruct (h_close e h1) as [n h2] eqn:Ec. apply close_law in Ec. cbn [snd]. rewrite Ec. apply delete_id.
    destruct (fds h1 !! e) eqn:Ed; [|done]. assert (0 ≤ e); [|lia]. apply (fds_nonneg h1). by rewrite Ed. }
  rewrite V1. cbn [s_vkern set_h]. destruct (Z.ltb_spec p0 (t_start (s_vkern s))), (Z.ltb_spec p1 (t_start (s_vkern s))); try lia.
  - by eexists _, _, _.
  - change (- EMFILE <? 0) with true. cbn [orb]. eexists _, _, _. split; [done|]. apply (good_trans s s2 _ Hg2). apply same_good; [done|].
    by rewrite !Hcl.
Qed.

(** ** Everything a guest does to its descriptors *)

Inductive fdcall :=
  | COpen (cloexec : bool) (as_path : option (list Z)) | CGetdents (fd : Z) | CFcntl (fd : Z) (cmd : fcntl_cmd) (arg : Z)
  | CDup (fd : Z) | CDup2 (fd1 fd2 : Z) | CDup3 (oldfd newfd flags : Z) | CClose (fd : Z) | CCloseRange (first last flags : Z)
  | CPipe (ptr : Z) | CExec.

Definition keep (g : G) (o : outcome (Z * st H)) : outcome (Z * st H * G) := '(r, s) ← o; Ret (r, s, g).

Definition do_call (c : fdcall) s (g : G) : outcome (Z * st H * G) :=
  match c with
  | COpen cloexec as_path => keep g (user_open cloexec as_path s)
  | CGetdents fd => keep g (open_stream fd s)
  | CFcntl fd cmd arg => keep g (sys_fcntl fd cmd arg s)
  | CDup fd => keep g (sys_dup fd s)
  | CDup2 fd1 fd2 => keep g (sys_dup2 fd1 fd2 s)
  | CDup3 oldfd newfd flags => keep g (sys_dup3 oldfd newfd flags s)
  | CClose fd => keep g (user_close fd s)
  | CCloseRange first last flags => keep g (sys_close_range first last flags s)
  | CPipe ptr => sys_pipe ptr g s
  | CExec => s ← close_cloexec s; Ret (0, s, g)
  end.

(** dup2 and dup3 copy a descriptor of the guest's to another number, of the
    guest's or free, and a pipe is not cut in two by the limit. *)
Definition proper (c : fdcall) s : Prop :=
  match c with
  | CDup2 a b => own_fds s (s32 a) (s32 b)
  | CDup3 a b _ => own_fds s (s32 a) (s32 b)
  | CCloseRange first _ _ => 0 ≤ first
  | CPipe _ => pipe_fits s
  | _ => True
  end.

Lemma call_good c s (g : G) : inv s → proper c s → ∃ r s' g', do_call c s g = Ret (r, s', g') ∧ good s s'.
Proof.
  intros Hi Hp. assert (∀ o : outcome (Z * st H), (∃ r s', o = Ret (r, s') ∧ good s s') → ∃ r s' g', keep g o = Ret (r, s', g') ∧ good s s') as Hk.
  { intros o (r & s' & -> & Hg). by exists r, s', g. }
  destruct c as [? ?|?|? ? ?|?|? ?|? ? ?|fd|lo hi flags|?|]; cbn [do_call proper] in *; try apply Hk.
  - by apply user_open_good.
  - by apply open_stream_good.
  - by apply fcntl_call_good.
  - by apply dup_good.
  - by apply dup2_good.
  - by apply dup3_good.
  - unfold user_close. destruct (Z.ltb_spec fd 0); [eexists _, _; split; [done|by apply good_refl]|].
    destruct (close_closing s fd Hi) as (n & t' & h' & -> & Hc). eexists _, _. split; [done|apply Hc].
  - destruct (has flags (Z.lnot 6)) eqn:Ef; [unfold sys_close_range; change (Z.lor _ _) with 6; rewrite Ef; eexists _, _; split; [done|by apply good_refl]|].
    destruct (decide (lo ≤ hi)) as [Hle|Hgt].
    + destruct (close_range_spec lo hi flags s Hi) as (s' & -> & Hc); [done..|]. eexists _, _. split; [done|]. cbn zeta in Hc. by destruct (has flags LINUX_CLOSE_RANGE_CLOEXEC); apply Hc.
    + unfold sys_close_range. change (Z.lor _ _) with 6. rewrite Ef, Z.gtb_ltb. destruct (Z.ltb_spec hi lo); [|lia]. eexists _, _. split; [done|by apply good_refl].
  - by apply pipe_good.
  - destruct (close_cloexec_closing s Hi) as (s' & -> & Hc). eexists _, _, _. split; [done|apply Hc].
Qed.

Inductive steps (s0 : st H) : st H → Prop :=
  | steps_refl : steps s0 s0
  | steps_call c g s r s' g' : steps s0 s → proper c s → do_call c s g = Ret (r, s', g') → steps s0 s'.

Lemma steps_good s0 s : inv s0 → steps s0 s → good s0 s.
Proof.
  intros Hi. induction 1 as [|c g s r s' g' _ IH Hp E]; [by apply good_refl|]. destruct (call_good c s g) as (r1 & s1 & g1 & E1 & Hg); [apply IH|done|].
  rewrite E in E1. injection E1 as <- <- <-. by apply (good_trans s0 s).
Qed.

(** ** The start *)

Lemma inv_host s h' : inv s → (∀ d, mine s d → fds h' !! d = fds (s_host s) !! d) → inv (set_h h' s).
Proof.
  intros Hi Eh. constructor; cbn; try (by apply Hi).
  - intros fd f X1 X2. rewrite Eh by (by left). by apply (v_open _ Hi).
  - intros fd d Hs. destruct (v_stream _ Hi _ _ Hs). split; [done|]. rewrite Eh; [done|right; by exists fd].
Qed.

(** The numbers [0, n) have been looked at. *)
Record adopted (rootfd arena n : Z) (s0 s : st H) : Prop := {
  ad_inv : inv s;
  ad_vkern : s_vkern s = s_vkern s0;
  ad_stream fd d : ¬ stream (s_user s) fd d;
  ad_mine d : mine s d → 0 ≤ d < n ∧ d ≠ rootfd ∧ d ≠ arena;
  ad_high d : t_start (s_vkern s) ≤ d < n → d ≠ rootfd → d ≠ arena → fds (s_host s) !! d = None;
  ad_root : fds (s_host s) !! rootfd = fds (s_host s0) !! rootfd }.

Lemma adopt_one_spec rootfd arena n s0 s : 0 ≤ n → adopted rootfd arena n s0 s →
  ∃ s', adopt_one rootfd arena n s = Ret s' ∧ adopted rootfd arena (n + 1) s0 s'.
Proof.
  intros Hn [A1 A2 A0 A3 A4 A5]. unfold adopt_one, desc. pose proof (v_top _ A1).
  destruct ((n =? rootfd) || (n =? arena)) eqn:E.
  { exists s. split; [done|]. split; try done; [intros d Hd; apply A3 in Hd; lia|]. intros d Hd X Y. apply A4; [|done..]. lia. }
  destruct (fds (s_host s) !! n) as [[o c]|] eqn:Ed.
  2:{ exists s. split; [done|]. split; try done; [intros d Hd; apply A3 in Hd; lia|]. intros d Hd X Y. destruct (decide (d = n)) as [->|]; [done|]. apply A4; [lia|done..]. }
  unfold in_userfd. assert (¬ mine s n) as Hnm by (intros Hm; apply A3 in Hm; lia). destruct (Z.leb_spec 0 n), (Z.ltb_spec n (t_start (s_vkern s))); try lia; cbn [andb].
  - destruct (register_adopt s n o c A1 Hn Ed Hnm) as (s' & -> & I1 & Hh1 & V1 & R1 & M1 & S1). cbn [mbind outcome_bind]. exists s'. split; [done|]. split; try done.
    + by rewrite V1.
    + intros fd d Hs. by apply (A0 fd d), S1.
    + intros d Hd. apply M1 in Hd as [->|Hd]; [lia|]. apply A3 in Hd. lia.
    + intros d Hd X Y. rewrite Hh1. apply A4; [|done..]. rewrite V1 in Hd. lia.
    + by rewrite Hh1.
  - destruct (h_close n (s_host s)) as [r h'] eqn:Ec. apply close_law in Ec. cbn [snd]. eexists. split; [done|]. split; try done; cbn.
    + apply inv_host; [done|]. intros d Hd. rewrite Ec, lookup_delete_ne; [done|]. intros ->. done.
    + intros d Hd. apply A3 in Hd. lia.
    + intros d Hd X Y. rewrite Ec. destruct (decide (d = n)) as [->|]; [by rewrite lookup_delete_eq|]. rewrite lookup_delete_ne by done. apply A4; [lia|done..].
    + rewrite Ec, lookup_delete_ne; [done|lia].
Qed.

Lemma adopt_all rootfd arena s0 s (n : nat) : adopted rootfd arena 0 s0 s →
  ∃ s', for_each (adopt_one rootfd arena) (Z.of_nat <$> seq 0 n) s = Ret s' ∧ adopted rootfd arena (Z.of_nat n) s0 s'.
Proof.
  intros H0. induction n as [|n IH]; [by exists s|]. destruct IH as (s1 & E1 & A1). rewrite seq_S, fmap_app, for_each_app, E1. cbn [mbind outcome_bind fmap list_fmap for_each].
  destruct (adopt_one_spec rootfd arena (Z.of_nat n) s0 s1) as (s2 & E2 & A2); [lia|done|]. replace (0 + n)%nat with n by lia. rewrite E2. cbn [mbind outcome_bind].
  exists s2. split; [done|]. by replace (Z.of_nat (S n)) with (Z.of_nat n + 1) by lia.
Qed.
End Guest.

(** * What the tables promise *)

Section Claims.
Context {H : Type} `{HF : HostFds H, HL : !HostFdLaws H}.
Context {G : Type} `{GM : GuestMem G}.
Implicit Type s : st H.

Lemma new_table n start : 0 ≤ n →
  let t := alloc_fdtable n (mk_table start 0 [] [] []) in
  table_ok t ∧ t_start t = start ∧ n ≤ t_size t ≤ n + 63 ∧ (∀ x, opened t x = false) ∧ ∀ x, marked t x = false.
Proof.
  intros Hn t. destruct (alloc_fdtable_spec n (mk_table start 0 [] [] [])) as (A1 & A2 & A3 & A4 & A5 & A6 & A7 & A8); [by split|done|]. fold t in A1, A2, A3, A4, A5, A6, A7, A8.
  cbn in A2, A3, A5. assert (∀ x, opened t x = false) as Ho.
  { intros x. rewrite A6. unfold opened; cbn. destruct (Z.leb_spec start x); [|done]. apply bit_out. cbn. lia. }
  assert (∀ x, marked t x = false) as Hm.
  { intros x. rewrite A7. unfold marked; cbn. destruct (Z.leb_spec start x); [|done]. apply bit_out. cbn. lia. }
  split_and!; try done; try lia. constructor; [done| |]; intros x; rewrite ?Hm, ?Ho; done.
Qed.

(** nabi's copy of the root: the first slot of its own table. *)
Lemma first_vkern_dup s v rootfd : inv s → s_vkern s = alloc_fdtable 64 (mk_table v 0 [] [] []) → ¬ mine s v →
  ∃ r s', vkern_dup_fd rootfd false s = Ret (r, s') ∧ inv s' ∧ t_start (s_vkern s') = v ∧ s_user s' = s_user s.
Proof.
  intros Hi Ev Hv. unfold vkern_dup_fd. assert (find_emptyfd (s_vkern s) = v) as ->.
  { rewrite Ev. change (find_emptyfd _) with (find_loop v 0 [0]). cbn [find_loop]. change (ffs (Z.lnot 0)) with 1. cbn. lia. }
  pose proof (v_top _ Hi) as Ht. destruct (new_table 64 v) as (T1 & T2 & T3 & _); [lia|]. rewrite <- Ev in T1, T2, T3.
  destruct (Z.eqb_spec v (-1)); [lia|]. destruct (h_dup2 rootfd v (s_host s)) as [r h'] eqn:E.
  assert (∀ d, mine s d → fds h' !! d = fds (s_host s) !! d) as Hm.
  { intros d Hd. apply dup2_law in E as [[_ ->]|(_ & x & _ & ->)]; [done|]. case_decide; [done|]. apply lookup_insert_ne. by intros ->. }
  destruct (Z.ltb_spec r 0); [eexists _, _; split; [done|]; split_and!; [by apply inv_host|done..]|].
  destruct (enter_fd_spec (s_vkern s) v false) as (t' & -> & Hc); [apply T1|unfold within; lia|]. cbn [mbind outcome_bind]. eexists _, _. split; [done|].
  cbn. rewrite (ch_start _ _ _ _ _ _ Hc). split_and!; [|done..]. pose proof (inv_host s h' Hi Hm) as [I1 I2 I3 I4 I5 I6 I7 I8].
  constructor; cbn; try done; rewrite (ch_start _ _ _ _ _ _ Hc); try done.
Qed.

Lemma init_spec rootfd arena rlim (h : H) : 64 < rlim < 2^31 →
  ∃ s, init_fileinfo rootfd arena rlim h = Ret s ∧ inv s ∧ t_start (s_vkern s) = rlim - 64 ∧
    ¬ mine s rootfd ∧ ¬ mine s arena ∧ ∀ d, rlim - 64 ≤ d → ¬ mine s d.
Proof.
  intros Hr. unfold init_fileinfo. unfold vkern_fdtable_maxsize. rewrite !s32_small by lia.
  set (s0 := mk_st _ _ _ h). destruct (new_table 64 0) as (T1 & T2 & T3 & T4 & T5); [lia|].
  destruct (new_table 64 (rlim - 64)) as (V1 & V2 & V3 & V4 & V5); [lia|].
  assert (inv s0) as Hi0.
  { constructor; unfold s0; cbn [s_user s_vkern s_host]; [done|done|rewrite V2; lia|rewrite V2; change (t_size _) with 64; lia|intros fd; by rewrite T4|intros fd f; by rewrite T4| |].
    - intros fd d [Hs _]. by rewrite T4 in Hs.
    - intros fd fd' d [Hs _]. by rewrite T4 in Hs. }
  assert (adopted rootfd arena 0 s0 s0) as Ha.
  { split; try done; [intros fd d [Hs _]; cbn in Hs; by rewrite T4 in Hs| |cbn [s0 s_vkern]; rewrite V2; lia].
    intros d [Hs|[fd [Hs _]]]; cbn in Hs; by rewrite T4 in Hs. }
  destruct (adopt_all rootfd arena s0 s0 (Z.to_nat rlim) Ha) as (s1 & E1 & [A1 A2 A0 A3 A4 A5]).
  assert (counter 1 rlim = Z.of_nat <$> seq 0 (Z.to_nat rlim)) as ->.
  { unfold counter. replace ((rlim + 1 - 1) / 1) with rlim by (rewrite Z.div_1_r; lia). apply list_fmap_ext. intros i x _. lia. }
  rewrite E1. cbn [mbind outcome_bind]. assert (∀ d, rlim - 64 ≤ d → ¬ mine s1 d) as Hhi.
  { intros d Hd [Hm|[fd Hm]]; [apply (v_below _ A1) in Hm; rewrite A2 in Hm; cbn [s0 s_vkern] in Hm; rewrite V2 in Hm; lia|by apply (A0 fd d)]. }
  destruct (first_vkern_dup s1 (rlim - 64) rootfd A1 A2) as (r & s2 & -> & I2 & W2 & U2); [by apply Hhi|]. cbn [mbind outcome_bind].
  assert (∀ d, mine s2 d ↔ mine s1 d) as Hm by (intros d; unfold mine; by rewrite U2).
  eexists. split; [done|]. split_and!; [by destruct I2|done|..].
  - intros X. change (mine s2 rootfd) in X. apply Hm, A3 in X. lia.
  - intros X. change (mine s2 arena) in X. apply Hm, A3 in X. lia.
  - intros d Hd X. change (mine s2 d) in X. apply Hm in X. by apply (Hhi d).
Qed.


(** C33: On exec, exactly the descriptors marked close-on-exec are closed, with
    their directory streams; every other descriptor keeps its file, its mark
    and what it is open on. *)
Theorem exec_closes_marked s : inv s →
  ∃ s', close_cloexec s = Ret s' ∧
    (∀ fd, opened (s_user s') fd = opened (s_user s) fd && negb (marked (s_user s) fd)) ∧
    (∀ fd, marked (s_user s') fd = false) ∧
    (∀ fd, opened (s_user s') fd = true → file_at (s_user s') fd = file_at (s_user s) fd ∧ fds (s_host s') !! fd = fds (s_host s) !! fd) ∧
    (∀ fd, marked (s_user s) fd = true → fds (s_host s') !! fd = None ∧ ∀ d, stream (s_user s) fd d → fds (s_host s') !! d = None).
Proof.
  intros Hi. destruct (close_cloexec_closing s Hi) as (s' & E & [C1 C2 C3 C4 C5 C6 C7]). exists s'. split_and!; [done..| | |].
  - intros fd. rewrite C4. by destruct (marked (s_user s) fd).
  - intros fd Ho. rewrite C3 in Ho. apply andb_true_iff in Ho as [Ho Hm]. apply negb_true_iff in Hm. split; [by apply C5|]. apply C7.
    intros [[_ X]|[x [X _]]]; [congruence|]. destruct (v_stream _ Hi _ _ X). congruence.
  - intros fd Hm. split.
    + apply C6. left. split; [by apply (ok_marked _ (v_user _ Hi))|done].
    + intros d Hs. apply C6. right. by exists fd.
Qed.

(** Close_range closes exactly the open descriptors of its range, or with
    CLOSE_RANGE_CLOEXEC marks exactly those, in the table and in the host, and
    closes none; all others are as they were. *)
Theorem close_range_exact first last flags s : inv s → 0 ≤ first ≤ last → has flags (Z.lnot 6) = false →
  ∃ s', sys_close_range first last flags s = Ret (0, s') ∧
    ∀ fd, opened (s_user s) fd = true →
      let hit := (first <=? fd) && (fd <=? last) in
      if has flags LINUX_CLOSE_RANGE_CLOEXEC then
        opened (s_user s') fd = true ∧ marked (s_user s') fd = hit || marked (s_user s) fd ∧
        fds (s_host s') !! fd = if hit then (λ d : Z * bool, (d.1, true)) <$> fds (s_host s) !! fd else fds (s_host s) !! fd
      else
        opened (s_user s') fd = negb hit ∧ fds (s_host s') !! fd = (if hit then None else fds (s_host s) !! fd) ∧
        (hit = false → marked (s_user s') fd = marked (s_user s) fd ∧ file_at (s_user s') fd = file_at (s_user s) fd).
Proof.
  intros Hi Hr Hf. destruct (close_range_spec first last flags s Hi Hr Hf) as (s' & E & Hc). exists s'. split; [done|]. intros fd Ho hit. cbn zeta in Hc.
  destruct (has flags LINUX_CLOSE_RANGE_CLOEXEC).
  - destruct Hc as [C1 C2 C3 C4 C5 C6]. rewrite C3, C5, C6, Ho. cbn [andb]. fold hit. split_and!; [done| |done]. by destruct hit.
  - destruct Hc as [C1 C2 C3 C4 C5 C6 C7]. rewrite C3, C4, Ho. cbn [andb]. fold hit. split_and!; [done| |].
    + destruct hit eqn:Eh; [apply C6; by left|apply C7]. intros [[_ X]|[x [X _]]]; [cbn beta in X; fold hit in X; congruence|]. destruct (v_stream _ Hi _ _ X). congruence.
    + intros Hh. rewrite Hh, andb_true_r. split; [done|by apply C5].
Qed.

(** ** Fork *)

(** [t'] has the entries [l] of [t]. *)
Record built (t : fdtable) (l : list Z) (t' : fdtable) : Prop := {
  bu_shape : shape t';
  bu_start : t_start t' = t_start t;
  bu_size : t_size t' = t_size t;
  bu_open x : opened t' x = bool_decide (x ∈ l);
  bu_marked x : marked t' x = bool_decide (x ∈ l) && marked t x;
  bu_file x : x ∈ l → file_at t' x = Some (mk_file Darwinfs x None None) }.

Lemma restore_entry_spec t l t' which fd k : built t l t' → within t fd → fd ∉ l →
  ∃ t2, restore_entry (mk_cfd which fd k (if marked t fd then 1 else 0)) t' = Ret t2 ∧ built t (l ++ [fd]) t2.
Proof.
  intros Hb Hw Hn. pose proof Hb as [B1 B2 B3 B4 B5 B6]. unfold restore_entry, alloc_file. cbn [c_index c_cloexec].
  assert (within t' fd) as Hw' by (unfold within in *; rewrite B2, B3; done). destruct (file_index_in t' fd B1 Hw') as (-> & _). cbn [mbind outcome_bind].
  pose proof B1 as [S1 S2 S3]. pose proof Hw' as [W1 W2]. set (t1 := set_files _ t').
  destruct (set_fdbit_spec t' (t_open t') fd) as (lo & Eo & Lo & Bo); [lia|]. change (set_fdbit t1 (t_open t1) fd) with (set_fdbit t' (t_open t') fd). rewrite Eo. cbn [mbind outcome_bind].
  assert (∃ t2, (if negb ((if marked t fd then 1 else 0) =? 0) then l0 ← set_fdbit (set_open lo t1) (t_cloexec (set_open lo t1)) fd; Ret (set_cloexec l0 (set_open lo t1)) else Ret (set_open lo t1)) = Ret t2 ∧
    change t' t2 fd true (marked t fd) (mk_file Darwinfs fd None None)) as (t2 & E2 & Hc).
  { assert (∀ d, 0 ≤ d → bit lo d = if d =? fd - t_start t' then true else bit (t_open t') d) as Bo' by (intros d Hd; rewrite Bo by done; by destruct (d =? _), (bit _ d)).
    assert (bit (t_cloexec t') (fd - t_start t') = false) as Hmf.
    { specialize (B5 fd). rewrite bool_decide_false in B5 by done. unfold marked in B5 at 1. by destruct (Z.leb_spec (t_start t') fd); [|lia]. }
    destruct (marked t fd).
    - change (negb (1 =? 0)) with true. cbn iota. destruct (set_fdbit_spec t' (t_cloexec t') fd) as (lc & Ec & Lc & Bc); [lia|].
      change (set_fdbit (set_open lo t1) (t_cloexec (set_open lo t1)) fd) with (set_fdbit t' (t_cloexec t') fd). rewrite Ec. eexists. split; [done|].
      apply (change_intro t' fd true true _ lo lc); try done. intros d Hd. rewrite Bc by done. by destruct (d =? _), (bit _ d).
    - eexists. split; [done|]. apply (change_intro t' fd true false _ lo (t_cloexec t')); try done. intros d Hd. by destruct (Z.eqb_spec d (fd - t_start t')) as [->|]. }
  exists t2. split; [done|]. assert (∀ x, bool_decide (x ∈ l ++ [fd]) = if x =? fd then true else bool_decide (x ∈ l)) as El.
  { intros x. destruct (Z.eqb_spec x fd) as [->|Hne]; [apply bool_decide_true, elem_of_app; right; by apply list_elem_of_singleton|].
    apply bool_decide_ext. rewrite elem_of_app, list_elem_of_singleton. naive_solver. }
  split; try (by rewrite (ch_start _ _ _ _ _ _ Hc) || by rewrite (ch_size _ _ _ _ _ _ Hc)); [apply Hc|intros x..].
  - by rewrite (ch_open _ _ _ _ _ _ Hc), El, B4.
  - rewrite (ch_marked _ _ _ _ _ _ Hc), El, B5. by destruct (Z.eqb_spec x fd) as [->|].
  - rewrite (ch_file _ _ _ _ _ _ Hc). intros Hx. destruct (Z.eqb_spec x fd) as [->|]; [done|]. apply B6.
    apply elem_of_app in Hx as [Hx|Hx]; [done|]. by apply list_elem_of_singleton in Hx.
Qed.

Lemma restore_entries t which (k : Z → Z) l2 : ∀ l1 t', built t l1 t' → NoDup (l1 ++ l2) → Forall (within t) l2 →
  ∃ t2, for_each restore_entry ((λ fd, mk_cfd which fd (k fd) (if marked t fd then 1 else 0)) <$> l2) t' = Ret t2 ∧ built t (l1 ++ l2) t2.
Proof.
  induction l2 as [|fd l2 IH]; intros l1 t' Hb Hn Hw; [exists t'; by rewrite app_nil_r|].
  apply Forall_cons in Hw as [Hfd Hw]. replace (l1 ++ fd :: l2) with ((l1 ++ [fd]) ++ l2) in * by (by rewrite <- app_assoc).
  assert (fd ∉ l1) as Hni. { apply NoDup_app in Hn as [Hn _]. apply NoDup_app in Hn as (_ & Hn & _). intros Hin. apply (Hn fd Hin). by apply list_elem_of_singleton. }
  cbn [fmap list_fmap for_each]. destruct (restore_entry_spec t l1 t' which fd (k fd) Hb Hfd Hni) as (t1 & -> & Hb1). cbn [mbind outcome_bind]. by apply IH.
Qed.

Lemma restore_first es : (∀ e, e ∈ es → c_table e = 0) → ∀ u v,
  for_each restore_one es (u, v) = (u ← for_each restore_entry es u; Ret (u, v)).
Proof.
  induction es as [|e es IH]; intros He u v; [done|]. cbn [for_each]. assert (restore_one e (u, v) = (u ← restore_entry e u; Ret (u, v))) as -> by (unfold restore_one; by rewrite (He e) by (by left)).
  destruct (restore_entry e u); cbn [mbind outcome_bind]; [|done]. apply IH. intros e' H'. apply He. by right.
Qed.
Lemma restore_second es : (∀ e, e ∈ es → c_table e = 1) → ∀ u v,
  for_each restore_one es (u, v) = (v ← for_each restore_entry es v; Ret (u, v)).
Proof.
  induction es as [|e es IH]; intros He u v; [done|]. cbn [for_each]. assert (restore_one e (u, v) = (v ← restore_entry e v; Ret (u, v))) as -> by (unfold restore_one; by rewrite (He e) by (by left)).
  destruct (restore_entry e v); cbn [mbind outcome_bind]; [|done]. apply IH. intros e' H'. apply He. by right.
Qed.

Lemma open_fds_spec t : table_ok t → NoDup (fdtable_open_fds t) ∧ (∀ x, x ∈ fdtable_open_fds t ↔ opened t x = true).
Proof.
  intros Hok. pose proof (ok_shape _ Hok) as Hs. split; [apply NoDup_filter, NoDup_seqZ|]. intros x. unfold fdtable_open_fds. rewrite list_elem_of_filter, elem_of_seqZ. split.
  - intros [E Hx]. rewrite test_open in E by (done || unfold within; lia). done.
  - intros Ho. pose proof (opened_within t x Hs Ho) as Hw. rewrite test_open by done. unfold within in Hw. split; [done|lia].
Qed.

Lemma snapshot_one_spec t which : table_ok t → fdtable_snapshot_one t which =
  (λ fd, mk_cfd which fd (f_fd (nth (Z.to_nat (fd - t_start t)) (t_files t) zero_file)) (if marked t fd then 1 else 0)) <$> fdtable_open_fds t.
Proof.
  intros Hok. unfold fdtable_snapshot_one. apply list_fmap_ext. intros i x Hx. apply list_elem_of_lookup_2, (open_fds_spec t Hok) in Hx.
  rewrite test_cloexec by (apply Hok || (apply opened_within; [apply Hok|done])). done.
Qed.

Lemma built_start n t : table_ok t → n = t_size t → built t [] (alloc_fdtable n (mk_table (t_start t) 0 [] [] [])).
Proof.
  intros [[S1 S2 S3] _ _] ->. destruct (new_table (t_size t) (t_start t)) as (T1 & T2 & T3 & T4 & T5); [lia|]. set (t' := alloc_fdtable _ _) in *.
  split; [apply T1|done| |intros x; by rewrite T4|intros x; by rewrite T5|by intros x ?%elem_of_nil].
  pose proof (sh_open _ (ok_shape _ T1)). lia.
Qed.

Lemma restore_table_spec t which (k : Z → Z) : table_ok t →
  ∃ t', for_each restore_entry ((λ fd, mk_cfd which fd (k fd) (if marked t fd then 1 else 0)) <$> fdtable_open_fds t)
          (alloc_fdtable (t_size t) (mk_table (t_start t) 0 [] [] [])) = Ret t' ∧ built t (fdtable_open_fds t) t'.
Proof.
  intros Hok. destruct (open_fds_spec t Hok) as [Hn Hin]. destruct (restore_entries t which k (fdtable_open_fds t) [] _ (built_start _ t Hok eq_refl)) as (t' & E & Hb).
  - done.
  - apply Forall_forall. intros x Hx. apply opened_within; [apply Hok|by apply Hin].
  - by exists t'.
Qed.

(** The child of a fork, which is another nabi started from a checkpoint, has
    the descriptors of its parent: both tables come back with the same numbers
    open and the same close-on-exec marks, each on an ordinary file under its
    own number, and the root with them. *)
Theorem fork_keeps_descriptors s (h' : H) : table_ok (s_user s) → table_ok (s_vkern s) →
  let '(entries, hdr) := fdtable_snapshot s in
  ∃ s', fdtable_restore entries hdr h' = Ret s' ∧ s_rootfd s' = s_rootfd s ∧
    ∀ t t', (t, t') = (s_user s, s_user s') ∨ (t, t') = (s_vkern s, s_vkern s') →
      t_start t' = t_start t ∧ t_size t' = t_size t ∧ table_ok t' ∧
      ∀ fd, opened t' fd = opened t fd ∧ marked t' fd = marked t fd ∧ (opened t fd = true → file_at t' fd = Some (mk_file Darwinfs fd None None)).
Proof.
  intros Hu Hv. cbn. rewrite !snapshot_one_spec by done.
  destruct (restore_table_spec (s_user s) 0 (λ fd, f_fd (nth (Z.to_nat (fd - t_start (s_user s))) (t_files (s_user s)) zero_file)) Hu) as (u & Eu & Bu).
  destruct (restore_table_spec (s_vkern s) 1 (λ fd, f_fd (nth (Z.to_nat (fd - t_start (s_vkern s))) (t_files (s_vkern s)) zero_file)) Hv) as (v & Ev & Bv).
  unfold fdtable_restore. cbn [fh_user_size fh_user_start fh_vkern_size fh_vkern_start fh_rootfd]. rewrite for_each_app, restore_first.
  2:{ intros e (x & -> & _)%list_elem_of_fmap. done. }
  rewrite Eu. cbn [mbind outcome_bind]. rewrite restore_second.
  2:{ intros e (x & -> & _)%list_elem_of_fmap. done. }
  rewrite Ev. cbn [mbind outcome_bind]. eexists. split; [done|]. split; [done|]. cbn [s_user s_vkern].
  assert (∀ t t', table_ok t → built t (fdtable_open_fds t) t' → t_start t' = t_start t ∧ t_size t' = t_size t ∧ table_ok t' ∧
      ∀ fd, opened t' fd = opened t fd ∧ marked t' fd = marked t fd ∧ (opened t fd = true → file_at t' fd = Some (mk_file Darwinfs fd None None))) as Hb.
  { intros t t' Hok [B1 B2 B3 B4 B5 B6]. destruct (open_fds_spec t Hok) as [_ Hin].
    assert (∀ fd, bool_decide (fd ∈ fdtable_open_fds t) = opened t fd) as Ho.
    { intros fd. destruct (opened t fd) eqn:E; [apply bool_decide_true; by apply Hin|]. apply bool_decide_false. intros X%Hin. congruence. }
    assert (∀ fd, opened t' fd = opened t fd) as Eo by (intros fd; by rewrite B4, Ho).
    assert (∀ fd, marked t' fd = marked t fd) as Em.
    { intros fd. rewrite B5, Ho. destruct (marked t fd) eqn:E; [|by rewrite andb_false_r]. by rewrite (ok_marked _ Hok fd E). }
    assert (∀ fd, opened t fd = true → file_at t' fd = Some (mk_file Darwinfs fd None None)) as Ef by (intros fd Hfd; apply B6; by apply Hin).
    split_and!; [done..| |auto]. constructor; [done|intros fd; rewrite Em, Eo; apply Hok|]. intros fd Hfd. rewrite Eo in Hfd. eexists. split; [by apply Ef|done]. }
  intros t t' [E|E]; injection E as -> ->; by apply Hb.
Qed.
End Claims.

(** * A host *)

(** A descriptor table with a limit, which gives out the lowest free number. *)
Record posix := mk_posix { p_table : descs; p_limit : Z; p_next : Z }.
Definition p_fds (h : posix) : descs := filter (λ kv, 0 ≤ kv.1) (p_table h).
Definition p_set (k : Z) (d : Z * bool) (h : posix) : posix := mk_posix (<[k := d]> (p_table h)) (p_limit h) (p_next h + 1).
Definition p_free (min : Z) (h : posix) : option Z :=
  head (filter (λ fd, p_fds h !! fd = None) (seqZ (Z.max min 0) (p_limit h - Z.max min 0))).

#[export] Instance posix_fds : HostFds posix := {|
  fds := p_fds;
  h_open c h := match p_free 0 h with Some r => (r, p_set r (p_next h, c) h) | None => (- EMFILE, h) end;
  h_dup2 a b h := match p_fds h !! a with
    | Some d => if (0 <=? b) && (b <? p_limit h) then (b, if decide (a = b) then h else p_set b (d.1, false) h) else (- EBADF, h)
    | None => (- EBADF, h) end;
  h_dupfd a min c h := match p_fds h !! a with
    | Some d => match p_free min h with Some r => (r, p_set r (d.1, c) h) | None => (- EMFILE, h) end
    | None => (- EBADF, h) end;
  h_close a h := (if decide (is_Some (p_fds h !! a)) then 0 else - EBADF, mk_posix (delete a (p_table h)) (p_limit h) (p_next h));
  h_setfd a c h := match p_fds h !! a with Some d => (0, p_set a (d.1, c) h) | None => (- EBADF, h) end;
  h_pipe h := match filter (λ fd, p_fds h !! fd = None) (seqZ 0 (p_limit h)) with
    | p0 :: p1 :: _ => (0, (p0, p1), p_set p0 (p_next h, false) (p_set p1 (p_next h + 1, false) h))
    | _ => (- EMFILE, (0, 0), h) end;
|}.

Lemma p_fds_set k d h : 0 ≤ k → p_fds (p_set k d h) = <[k := d]> (p_fds h).
Proof. intros Hk. unfold p_fds, p_set; cbn. by rewrite map_filter_insert_True. Qed.

Lemma p_free_spec min h r : p_free min h = Some r → 0 ≤ r ∧ min ≤ r ∧ p_fds h !! r = None.
Proof.
  unfold p_free. intros E. assert (r ∈ filter (λ fd, p_fds h !! fd = None) (seqZ (Z.max min 0) (p_limit h - Z.max min 0))) as Hin.
  { destruct (filter _ _) as [|x l]; [done|]. injection E as ->. by left. }
  apply list_elem_of_filter in Hin as [E1 E2]. apply elem_of_seqZ in E2. split_and!; [lia..|done].
Qed.

#[export] Instance posix_laws : HostFdLaws posix.
Proof.
  split.
  - intros h d [x Hx]. cbn in Hx. apply map_lookup_filter_Some in Hx as [_ Hx]. done.
  - intros c h r h' E. cbn in E. destruct (p_free 0 h) as [x|] eqn:Ef; injection E as <- <-; [right|by left].
    apply p_free_spec in Ef as (F1 & F2 & F3). split_and!; [done..|]. eexists. by apply p_fds_set.
  - intros a b h r h' E. cbn in *. destruct (p_fds h !! a) as [d|] eqn:Ea; [|injection E as <- <-; by left].
    destruct ((0 <=? b) && (b <? p_limit h)) eqn:Eb; injection E as <- <-; [right|by left]. split; [done|]. exists d. split; [done|]. case_decide; [done|]. apply p_fds_set. lia.
  - intros a min c h r h' E. cbn in *. destruct (p_fds h !! a) as [d|] eqn:Ea; [|injection E as <- <-; by left].
    destruct (p_free min h) as [x|] eqn:Ef; injection E as <- <-; [right|by left]. apply p_free_spec in Ef as (F1 & F2 & F3). split_and!; [done..|].
    exists d. split; [done|]. by apply p_fds_set.
  - intros a h r h' E. cbn in *. injection E as _ <-. unfold p_fds; cbn. apply map_filter_delete.
  - intros a c h r h' E. cbn in *. destruct (p_fds h !! a) as [d|] eqn:Ea; injection E as <- <-; [right|by left]. split; [done|]. exists d. split; [done|].
    apply p_fds_set. by apply map_lookup_filter_Some in Ea as [_ Ea].
  - intros h r p0 p1 h' E. cbn in *. destruct (filter _ _) as [|x [|y l]] eqn:Ef; injection E as <- <- <- <-; [by left..|right].
    assert (NoDup (x :: y :: l)) as Hn by (rewrite <- Ef; apply NoDup_filter, NoDup_seqZ).
    assert (∀ z, z ∈ x :: y :: l → p_fds h !! z = None ∧ 0 ≤ z) as Hin.
    { intros z Hz. rewrite <- Ef in Hz. apply list_elem_of_filter in Hz as [Z1 Z2]. apply elem_of_seqZ in Z2. split; [done|lia]. }
    destruct (Hin x) as [X1 X2]; [by left|]. destruct (Hin y) as [Y1 Y2]; [right; by left|]. apply NoDup_cons in Hn as [Hn _]. split_and!; try done.
    + intros ->. apply Hn. by left.
    + eexists _, _. rewrite p_fds_set, p_fds_set by done. done.
Qed.

(** Standard input and output, the root on 3, the memory file on 4, and a
    limit of 128. *)
Definition demo_host : posix := mk_posix {[0 := (100, false); 1 := (101, false); 3 := (103, false); 4 := (104, false)]} 128 200.
Definition no_state : st posix := mk_st 0 (mk_table 0 0 [] [] []) (mk_table 0 0 [] [] []) demo_host.
Definition demo_start : st posix := ret_or no_state (init_fileinfo 3 4 128 demo_host).

(** Calls one after the other, with the answers. *)
Fixpoint run_calls (l : list fdcall) (s : st posix) (g : flat) : outcome (list Z * st posix) :=
  match l with
  | [] => Ret ([], s)
  | c :: l => '(r, s, g) ← do_call c s g; '(rs, s) ← run_calls l s g; Ret (r :: rs, s)
  end.
Definition after_calls (l : list fdcall) : st posix := (ret_or ([], no_state) (run_calls l demo_start ∅)).2.
Definition answers (l : list fdcall) : list Z := (ret_or ([], no_state) (run_calls l demo_start ∅)).1.

Lemma Ret_inj {A} (a b : A) : Ret a = Ret b → a = b.
Proof. by intros [= ->]. Qed.

Lemma demo_started : init_fileinfo 3 4 128 demo_host = Ret demo_start.
Proof. vm_compute. reflexivity. Qed.

Lemma demo_inv : inv demo_start.
Proof.
  destruct (init_spec 3 4 128 demo_host) as (s & E & Hi & _); [lia|]. rewrite demo_started in E. apply Ret_inj in E. subst s. done.
Qed.

(** A close-on-exec descriptor on 2 and another on 5. *)
Definition two_open : st posix := after_calls [COpen true None; COpen false None].
Lemma two_open_steps : steps (G := flat) demo_start two_open.
Proof.
  apply (steps_call _ (COpen false None) ∅ (after_calls [COpen true None]) 5 _ ∅); [|done|vm_compute; reflexivity].
  apply (steps_call _ (COpen true None) ∅ demo_start 2 _ ∅); [apply steps_refl|done|vm_compute; reflexivity].
Qed.
Lemma two_open_inv : inv two_open.
Proof. apply (steps_good (G := flat) demo_start); [apply demo_inv|apply two_open_steps]. Qed.


Lemma exec_closes_marked_witness : ∃ s', close_cloexec two_open = Ret s' ∧ opened (s_user s') 2 = false ∧ opened (s_user s') 5 = true.
Proof.
  destruct (exec_closes_marked two_open two_open_inv) as (s' & E & Ho & _). exists s'. split; [exact E|]. rewrite !Ho. split; vm_compute; reflexivity.
Defined.

Lemma close_range_exact_witness : ∃ s', sys_close_range 3 4294967295 0 two_open = Ret (0, s') ∧ opened (s_user s') 2 = true ∧ opened (s_user s') 5 = false.
Proof.
  destruct (close_range_exact 3 4294967295 0 two_open two_open_inv) as (s' & E & Ho); [lia|reflexivity|]. exists s'. split; [exact E|].
  destruct (Ho 2 ltac:(vm_compute; reflexivity)) as [-> _]. destruct (Ho 5 ltac:(vm_compute; reflexivity)) as [-> _]. split; reflexivity.
Defined.

Lemma two_open_vkern : table_ok (s_vkern two_open).
Proof.
  assert (s_vkern two_open = s_vkern demo_start) as -> by apply (steps_good (G := flat) _ _ demo_inv two_open_steps).
  destruct (new_table 64 64) as (T1 & T2 & T3 & _); [lia|].
  destruct (enter_fd_spec (alloc_fdtable 64 (mk_table 64 0 [] [] [])) 64 false (ok_shape _ T1)) as (t' & E & Hc); [unfold within; lia|].
  assert (t' = s_vkern demo_start) as <-; [|by apply (change_ok _ _ _ _ _ _ T1 Hc)].
  assert (Ret t' = Ret (s_vkern demo_start)) as Et by (rewrite <- E; vm_compute; reflexivity). by apply Ret_inj in Et.
Qed.

Lemma fork_keeps_descriptors_witness :
  table_ok (s_user two_open) ∧ table_ok (s_vkern two_open) ∧
  ∃ s', fdtable_restore (fdtable_snapshot two_open).1 (fdtable_snapshot two_open).2 (s_host two_open) = Ret s' ∧ marked (s_user s') 2 = true ∧ marked (s_user s') 5 = false.
Proof.
  pose proof (v_user _ two_open_inv) as Hu. pose proof two_open_vkern as Hv. split; [exact Hu|]. split; [exact Hv|].
  pose proof (fork_keeps_descriptors two_open (s_host two_open) Hu Hv) as Hf. destruct (fdtable_snapshot two_open) as [es hdr] eqn:Es.
  destruct Hf as (s' & E & _ & Ht). exists s'. split; [exact E|]. destruct (Ht _ _ (or_introl eq_refl)) as (_ & _ & _ & Hfd).
  destruct (Hfd 2) as (_ & -> & _). destruct (Hfd 5) as (_ & -> & _). split; vm_compute; reflexivity.
Defined.

(** * What the checks let through *)

(** dup3 does not ask whose its numbers are: it hands out nabi's root, and on
    its way to an error closes it. *)
Theorem dup3_reaches_the_root :
  answers [CDup3 64 9 0] = [9] ∧ fds (s_host (after_calls [CDup3 64 9 0])) !! 9 = Some (103, false) ∧
  answers [CDup3 0 64 0] = [- EMFILE] ∧ fds (s_host (after_calls [CDup3 0 64 0])) !! s_rootfd demo_start = None.
Proof. split_and!; vm_compute; reflexivity. Qed.

(** dup2 asks only for numbers below nabi's own range, and the memory file is
    among them: it can be copied, and replaced. *)
Theorem dup2_reaches_the_memory :
  answers [CDup2 4 9] = [9] ∧ fds (s_host (after_calls [CDup2 4 9])) !! 9 = Some (104, false) ∧
  answers [CDup2 0 4] = [4] ∧ fds (s_host (after_calls [CDup2 0 4])) !! 4 = Some (100, false).
Proof. split_and!; vm_compute; reflexivity. Qed.

(** dup2 of a descriptor onto itself takes its mark away, and exec keeps it. *)
Theorem dup2_onto_itself_unmarks :
  answers [COpen true None; CDup2 2 2; CExec; CFcntl 2 F_GETFD 0] = [2; 2; 0; 1] ∧ answers [COpen true None; CExec; CFcntl 2 F_GETFD 0] = [2; 0; - EBADF].
Proof. split; vm_compute; reflexivity. Qed.

(** The low numbers are full but for one: pipe closes what the results of
    registering its ends name, and one of these is the 0 of success. *)
Definition full_host : posix := mk_posix {[0 := (100, false); 1 := (101, false); 2 := (102, false); 3 := (103, false); 4 := (104, false)]} 70 200.
Definition full_start : st posix := ret_or no_state (init_fileinfo 3 4 70 full_host).
Definition page : flat := gset_to_gmap 0 (list_to_set (Z.add 0x100 <$> counter 1 8)).
Theorem pipe_closes_standard_input :
  ∃ s g, do_call (CPipe 0x100) full_start page = Ret (- EMFILE, s, g) ∧ opened (s_user s) 0 = true ∧ fds (s_host s) !! 0 = None.
Proof. eexists _, _. split; [vm_compute; reflexivity|]. split; vm_compute; reflexivity. Qed.

(** An open that finds no number for the guest leaves the file open. *)
Theorem open_leaks_at_the_limit :
  ∃ s g, do_call (COpen false None) (ret_or no_state (init_fileinfo 3 4 69 (mk_posix (p_table full_host) 69 200))) (∅ : flat) = Ret (- EMFILE, s, g) ∧
    fds (s_host s) !! 6 = Some (201, false) ∧ opened (s_user s) 6 = false.
Proof. eexists _, _. split; [vm_compute; reflexivity|]. split; vm_compute; reflexivity. Qed.

(** ffs looks at 32 bits of the 64: with half the slots of nabi's table in use
    the other half is not found, and nabi ends. *)
Fixpoint vkern_dups (n : nat) (s : st posix) : outcome (st posix) :=
  match n with O => Ret s | S n => '(_, s) ← vkern_dup_fd 0 false s; vkern_dups n s end.
Theorem half_the_kernel_table :
  (∃ s, vkern_dups 31 demo_start = Ret s ∧ length (fdtable_open_fds (s_vkern s)) = 32%nat ∧ t_size (s_vkern s) = 64) ∧
  vkern_dups 32 demo_start = Stop Panicked.
Proof. split; [eexists; split; [vm_compute; reflexivity|split; vm_compute; reflexivity]|vm_compute; reflexivity]. Qed.

(** The child of a fork reads the host's flag, which was cleared for the host's
    exec, and forgets what an O_PATH descriptor was. *)
Definition child_of (s : st posix) : st posix :=
  ret_or no_state (fdtable_restore (fdtable_snapshot s).1 (fdtable_snapshot s).2 (s_host (fdtable_clear_host_cloexec s))).
Theorem child_reads_cleared_flag :
  let s := after_calls [COpen true None; COpen false (Some [47])] in
  marked (s_user (child_of s)) 2 = true ∧ sys_fcntl 2 F_GETFD 0 s = Ret (1, s) ∧ sys_fcntl 2 F_GETFD 0 (child_of s) = Ret (0, child_of s) ∧
  f_ops <$> file_at (s_user s) 5 = Some Pathfd ∧ f_ops <$> file_at (s_user (child_of s)) 5 = Some Darwinfs.
Proof. split_and!; vm_compute; reflexivity. Qed.
