(* ===== verification/Names.v ===== *)
(** C strings that name files: the string functions the path code uses, and a
    name as the words between its slashes. A string is the characters before
    its NUL. *)

From Stdlib Require Export Ascii.
From stdpp Require Export strings pretty.
From S2P Require Import Prelude.

#[global] Open Scope Z_scope.

Abbreviation cstr := (list ascii).

Definition lit (s : string) : cstr := String.list_ascii_of_string s.
Definition slash : ascii := "/"%char.

(** [strcmp(a, b) == 0] and [strncmp(a, b, n) == 0]. *)
Definition strcmp (a b : cstr) : bool := bool_decide (a = b).
Definition strncmp (a b : cstr) (n : nat) : bool := bool_decide (take n a = take n b).

(** What [snprintf] leaves in a buffer of [size] bytes. *)
Definition snprintf (size : nat) (s : cstr) : cstr := take (size - 1) s.

Definition starts (c : ascii) (s : cstr) : bool := bool_decide (head s = Some c).

(** [s[n]] ends a component: the string ends there or a slash is next. *)
Definition component_end (s : cstr) (n : nat) : bool :=
  match s !! n with None => true | Some c => bool_decide (c = slash) end.

(** * Words *)

Fixpoint words (s : cstr) : list cstr :=
  match s with
  | [] => [[]]
  | c :: s =>
      if decide (c = slash) then [] :: words s
      else match words s with [] => [[c]] | w :: ws => (c :: w) :: ws end
  end.

(** What is left of a name before its last words: each with its slash. *)
Definition tail_of (ws : list cstr) : cstr := ws ≫= cons slash.
Definition join (ws : list cstr) : cstr := match ws with [] => [] | w :: ws => w ++ tail_of ws end.
Definition dirs (ws : list cstr) : cstr := ws ≫= λ w, w ++ [slash].

Arguments tail_of : simpl never.
Arguments dirs : simpl never.

(** A word: no slash. *)
Definition plain (w : cstr) : Prop := slash ∉ w.

#[export] Instance plain_dec w : Decision (plain w) := _.

Lemma tail_cons w ws : tail_of (w :: ws) = slash :: w ++ tail_of ws.
Proof. done. Qed.
Lemma dirs_cons w ws : dirs (w :: ws) = w ++ slash :: dirs ws.
Proof. unfold dirs. cbn. by rewrite <- app_assoc. Qed.

Lemma words_slash s : words (slash :: s) = [] :: words s.
Proof. cbn. by rewrite decide_True. Qed.

Lemma words_nonempty s : words s ≠ [].
Proof. destruct s as [|c s]; cbn; [done|]. case_decide; [done|]. by destruct (words s). Qed.

Lemma join_words s : join (words s) = s.
Proof.
  induction s as [|c s IH]; [done|]. cbn. pose proof (words_nonempty s) as Hn.
  destruct (words s) as [|w ws]; [done|]. cbn in IH. case_decide as Hc; [subst c; cbn|]; [|cbn; by rewrite IH].
  by rewrite tail_cons, IH.
Qed.

Lemma words_plain s : Forall plain (words s).
Proof.
  induction s as [|c s IH]; cbn; [apply Forall_singleton, not_elem_of_nil|]. case_decide as Hc.
  - constructor; [apply not_elem_of_nil|done].
  - destruct (words s) as [|w ws]; [by apply Forall_singleton, not_elem_of_cons; split; [|apply not_elem_of_nil]|].
    apply Forall_cons in IH as [Hw IH]. constructor; [|done]. by apply not_elem_of_cons.
Qed.

Lemma words_word w s : plain w → words (w ++ s) = match words s with [] => [w] | v :: vs => (w ++ v) :: vs end.
Proof.
  induction w as [|c w IH]; intros Hp; cbn; [by destruct (words s) eqn:E; [destruct (words_nonempty s)|]|].
  apply not_elem_of_cons in Hp as [Hc Hp]. rewrite decide_False by done. rewrite IH by done. by destruct (words s).
Qed.

Lemma words_dirs ws s : Forall plain ws → words (dirs ws ++ s) = ws ++ words s.
Proof.
  induction 1 as [|w ws Hw _ IH]; [done|]. rewrite dirs_cons, <- !app_assoc.
  rewrite words_word by done. cbn [app]. by rewrite words_slash, IH, app_nil_r.
Qed.

Lemma words_plain_word w : plain w → words w = [w].
Proof. intros Hw. pose proof (words_word w [] Hw) as E. rewrite app_nil_r in E. rewrite E. cbn. by rewrite app_nil_r. Qed.

Lemma words_tail ws : Forall plain ws → words (tail_of ws) = [] :: ws.
Proof.
  induction 1 as [|w ws Hw _ IH]; [done|]. rewrite tail_cons, words_slash.
  f_equal. rewrite words_word by done. rewrite IH. by rewrite app_nil_r.
Qed.

Lemma words_join ws : ws ≠ [] → Forall plain ws → words (join ws) = ws.
Proof.
  destruct ws as [|w ws]; [done|]. intros _ [Hw Hws]%Forall_cons. cbn. rewrite words_word, words_tail by done.
  by rewrite app_nil_r.
Qed.

Lemma dirs_app a b : dirs (a ++ b) = dirs a ++ dirs b.
Proof. apply bind_app. Qed.
Lemma dirs_snoc a w : dirs (a ++ [w]) = dirs a ++ w ++ [slash].
Proof. by rewrite dirs_app, dirs_cons. Qed.
Lemma tail_of_app a b : tail_of (a ++ b) = tail_of a ++ tail_of b.
Proof. apply bind_app. Qed.

Lemma slash_dirs ws : slash :: dirs ws = tail_of ws ++ [slash].
Proof.
  induction ws as [|w ws IH]; [done|]. rewrite dirs_cons, tail_cons, IH. cbn. by rewrite <- !app_assoc.
Qed.

Lemma dirs_join ws : ws ≠ [] → dirs ws = join ws ++ [slash].
Proof.
  destruct ws as [|w ws]; [done|]. intros _. rewrite dirs_cons. cbn. rewrite <- !app_assoc. f_equal. apply slash_dirs.
Qed.

Lemma dirs_word_join ws w : dirs ws ++ w = join (ws ++ [w]).
Proof.
  induction ws as [|v ws IH]; [cbn; by rewrite app_nil_r|]. rewrite dirs_cons. cbn. rewrite tail_of_app, <- !app_assoc. f_equal.
  rewrite tail_cons. cbn. rewrite app_nil_r, app_comm_cons, slash_dirs. by rewrite <- app_assoc.
Qed.

Lemma dirs_tail ws w rest : dirs ws ++ w ++ tail_of rest = join (ws ++ w :: rest).
Proof.
  rewrite app_assoc, dirs_word_join. change (w :: rest) with ([w] ++ rest). rewrite app_assoc.
  destruct (ws ++ [w]) eqn:E; [by destruct ws|]. cbn. by rewrite tail_of_app, app_assoc.
Qed.

(** * Cutting a name from its end *)

Fixpoint skip_name (r : cstr) : cstr :=
  match r with [] => [] | c :: r' => if decide (c = slash) then r else skip_name r' end.
Definition skip_slash (r : cstr) : cstr :=
  match r with [] => [] | c :: r' => if decide (c = slash) then r' else r end.

(** The name up to and with its last slash. *)
Definition dirpart (s : cstr) : cstr := reverse (skip_name (reverse s)).

Lemma skip_name_plain w r : plain w → skip_name (w ++ r) = skip_name r.
Proof.
  induction w as [|c w IH]; [done|]. intros [Hc Hw]%not_elem_of_cons. cbn. rewrite decide_False by done. by apply IH.
Qed.

Lemma plain_reverse w : plain w → plain (reverse w).
Proof. unfold plain. by rewrite elem_of_reverse. Qed.

Lemma skip_name_dirs ws : skip_name (reverse (dirs ws)) = reverse (dirs ws).
Proof.
  destruct (decide (ws = [])) as [->|Hn]; [done|]. rewrite dirs_join by done. rewrite reverse_app. cbn. done.
Qed.

Lemma dirpart_word ws w : plain w → dirpart (dirs ws ++ w) = dirs ws.
Proof.
  intros Hw. unfold dirpart. rewrite reverse_app, skip_name_plain by by apply plain_reverse.
  by rewrite skip_name_dirs, reverse_involutive.
Qed.

Lemma skip_slash_dirs ws : skip_slash (reverse (dirs ws)) = reverse (join ws).
Proof. destruct (decide (ws = [])) as [->|Hn]; [done|]. rewrite dirs_join by done. by rewrite reverse_app. Qed.

(** What dropping the word before a trailing slash leaves, with neither. *)
Lemma skip_word ws w : plain w →
  reverse (skip_slash (skip_name (skip_slash (reverse (dirs (ws ++ [w])))))) = join ws.
Proof.
  intros Hw. rewrite skip_slash_dirs, <- dirs_word_join, reverse_app.
  rewrite skip_name_plain by by apply plain_reverse. by rewrite skip_name_dirs, skip_slash_dirs, reverse_involutive.
Qed.
