(* ===== verification/MountTable.v ===== *)
(** The mount tables, src/fs/mount.c and include/mount.h: one table per mount
    namespace, each in a file of its own so that nabi's processes share it, a
    mount as a rewrite of one prefix of a path to a host directory, the
    propagation of mounts between namespaces, and what pivot_root does to the
    table. The calls that change a table are in Mounts.v. *)

From S2P Require Import Prelude Names.

Definition LINUX_MS_RDONLY : Z := 0x1.
Definition LINUX_MS_NOSUID : Z := 0x2.
Definition LINUX_MS_NODEV : Z := 0x4.
Definition LINUX_MS_NOEXEC : Z := 0x8.
Definition LINUX_MS_REMOUNT : Z := 0x20.
Definition LINUX_MS_NOATIME : Z := 0x400.
Definition LINUX_MS_NODIRATIME : Z := 0x800.
Definition LINUX_MS_BIND : Z := 0x1000.
Definition LINUX_MS_MOVE : Z := 0x2000.
Definition LINUX_MS_REC : Z := 0x4000.
Definition LINUX_MS_SILENT : Z := 0x8000.
Definition LINUX_MS_UNBINDABLE : Z := 0x20000.
Definition LINUX_MS_PRIVATE : Z := 0x40000.
Definition LINUX_MS_SLAVE : Z := 0x80000.
Definition LINUX_MS_SHARED : Z := 0x100000.
Definition LINUX_MS_RELATIME : Z := 0x200000.
Definition LINUX_MS_STRICTATIME : Z := 0x1000000.

Definition MOUNT_MAX : nat := 64.
Definition MOUNT_PATH_MAX : nat := 256.
(** Darwin's. *)
Definition PATH_MAX : nat := 1024.

Record mount_entry := mk_entry {
  m_source : cstr;
  m_target : cstr;
  m_type : cstr;
  m_hostdir : cstr;
  m_hostdev : cstr;
  m_flags : Z;
  m_id : Z;
  m_propagation : Z;
  m_peer : Z;
  m_master : Z;
}.

(** The first [n] entries of the array. *)
Record mount_table := mk_table { t_m : list mount_entry; t_next_id : Z }.

#[export] Instance mount_entry_eq_dec : EqDecision mount_entry.
Proof. solve_decision. Defined.

Definition set_target (x : cstr) (m : mount_entry) : mount_entry :=
  mk_entry (m_source m) x (m_type m) (m_hostdir m) (m_hostdev m) (m_flags m) (m_id m) (m_propagation m) (m_peer m) (m_master m).
Definition set_flags (x : Z) (m : mount_entry) : mount_entry :=
  mk_entry (m_source m) (m_target m) (m_type m) (m_hostdir m) (m_hostdev m) x (m_id m) (m_propagation m) (m_peer m) (m_master m).
Definition set_relation (prop peer master : Z) (m : mount_entry) : mount_entry :=
  mk_entry (m_source m) (m_target m) (m_type m) (m_hostdir m) (m_hostdev m) (m_flags m) (m_id m) prop peer master.

(** The files the tables are in, by the inode of the namespace; the file of the
    next peer group; whether the directory they are in can be written; and the
    namespace of the process. *)
Record mounts := mk_mounts {
  w_ns : Z;
  w_tables : gmap Z mount_table;
  w_group : Z;
  w_writable : bool;
}.

Definition set_tables (t : gmap Z mount_table) (w : mounts) : mounts := mk_mounts (w_ns w) t (w_group w) (w_writable w).

Definition table_load (ino : Z) (w : mounts) : option mount_table := w_tables w !! ino.

Definition table_store (ino : Z) (t : mount_table) (w : mounts) : mounts :=
  if w_writable w then set_tables (<[ino := t]> (w_tables w)) w else w.

Definition empty_table : mount_table := mk_table [] 30.

(** Whether there is one, and it or an empty one. *)
Definition current_table (w : mounts) : bool * mount_table :=
  match table_load (w_ns w) w with Some t => (true, t) | None => (false, empty_table) end.

Definition peer_group_new (w : mounts) : Z * mounts :=
  if w_writable w then
    let next := if w_group w =? 0 then 1 else w_group w in
    (next, mk_mounts (w_ns w) (w_tables w) (u32 (next + 1)) (w_writable w))
  else (0, w).

Definition clone_entry (m : mount_entry) : mount_entry :=
  if m_propagation m =? LINUX_MS_SHARED then m
  else if m_propagation m =? LINUX_MS_SLAVE then m
  else set_relation (m_propagation m) 0 0 m.

Definition mount_ns_clone (from_ino to_ino : Z) (w : mounts) : mounts :=
  let t := default empty_table (table_load from_ino w) in
  table_store to_ino (mk_table (clone_entry <$> t_m t) (t_next_id t)) w.

(** The tables of this boot but [skip]'s; readdir's order is not specified, the
    model's is the map's. *)
Definition each_table (skip : Z) (max : nat) (w : mounts) : list Z :=
  take max (filter (λ i, i ≠ 0 ∧ i ≠ skip) (map_to_list (w_tables w)).*1).

Definition target_index (target : cstr) (ms : list mount_entry) : option nat :=
  fst <$> last (filter (λ km, m_target km.2 = target) (imap pair ms)).

Definition memmove_out (i : nat) (ms : list mount_entry) : list mount_entry := delete i ms.

Definition propagate_one (parent_peer : Z) (e : mount_entry) (add : bool) (ino : Z) (w : mounts) : mounts :=
  match table_load ino w with
  | None => w
  | Some t =>
      let watching := existsb (λ m, (m_peer m =? parent_peer) || (m_master m =? parent_peer)) (t_m t) in
      if negb watching then w
      else
        match add, target_index (m_target e) (t_m t) with
        | true, Some k => table_store ino (mk_table (<[k := e]> (t_m t)) (t_next_id t)) w
        | true, None =>
            if (length (t_m t) <? MOUNT_MAX)%nat then table_store ino (mk_table (t_m t ++ [e]) (t_next_id t)) w
            else w
        | false, Some k => table_store ino (mk_table (memmove_out k (t_m t)) (t_next_id t)) w
        | false, None => w
        end
  end.

Definition propagate (parent_peer : Z) (e : mount_entry) (add : bool) (w : mounts) : mounts :=
  if parent_peer =? 0 then w
  else foldl (λ w ino, propagate_one parent_peer e add ino w) w (each_table (w_ns w) 64 w).

(** * Prefixes *)

(** How much of [path] the mount point matches, whole components at a time. *)
Definition under (path mnt : cstr) : nat :=
  let n := length mnt in
  if (n =? 1)%nat && starts slash mnt then (if strncmp path (lit "/") 1 then 1 else 0)%nat
  else if negb (strncmp path mnt n) then 0%nat
  else if component_end path n then n
  else 0%nat.

Fixpoint parent_loop (target : cstr) (ms : list mount_entry) (best : option mount_entry) (best_len : nat) : option mount_entry :=
  match ms with
  | [] => best
  | m :: ms =>
      if strcmp (m_target m) target then parent_loop target ms best best_len
      else
        let n := under target (m_target m) in
        if (best_len <? n)%nat then parent_loop target ms (Some m) n else parent_loop target ms best best_len
  end.

Definition parent_peer_of (t : mount_table) (target : cstr) : Z :=
  match parent_loop target (t_m t) None 0 with None => 0 | Some m => m_peer m end.

Fixpoint find_loop (path : cstr) (ms : list mount_entry) (best : option mount_entry) (best_len : nat) : option mount_entry :=
  match ms with
  | [] => best
  | m :: ms =>
      if bool_decide (m_hostdir m = []) then find_loop path ms best best_len
      else
        let n := under path (m_target m) in
        if (best_len <? n)%nat then find_loop path ms (Some m) n else find_loop path ms best best_len
  end.

Definition find_mount (t : mount_table) (path : cstr) : option mount_entry := find_loop path (t_m t) None 0.

Definition mount_resolve (path : cstr) (outsz : nat) (w : mounts) : option (cstr * bool) :=
  let '(ok, t) := current_table w in
  if negb ok || (length (t_m t) =? 0)%nat then None
  else
    m ← find_mount t path;
    let n := under path (m_target m) in
    Some (snprintf outsz (m_hostdir m ++ drop n path), has (m_flags m) LINUX_MS_RDONLY).

Definition mount_is_rdonly (path : cstr) (w : mounts) : bool :=
  let '(ok, t) := current_table w in
  if negb ok || (length (t_m t) =? 0)%nat then false
  else match find_mount t path with None => false | Some m => has (m_flags m) LINUX_MS_RDONLY end.

(** * The way back *)

(** The loop of host_path_norm; [out] is what has been written, last first. *)
Fixpoint norm_loop (inp out : cstr) (outsz : nat) : cstr :=
  match inp with
  | [] => out
  | c :: inp =>
      if (length out + 1 <? outsz)%nat then
        if bool_decide (c = slash) && starts slash out then norm_loop inp out outsz
        else norm_loop inp (c :: out) outsz
      else out
  end.

Definition host_path_norm (inp : cstr) (outsz : nat) : cstr :=
  let priv := lit "/private" in
  let inp := if strncmp inp priv 8 && component_end inp 8 then drop 8 inp else inp in
  let out := norm_loop inp [] outsz in
  let out := if (1 <? length out)%nat && starts slash out then tail out else out in
  if (length out =? 0)%nat && (1 <? outsz)%nat then lit "/" else reverse out.

Fixpoint guest_loop (want : cstr) (ms : list mount_entry) (best : option mount_entry) (best_len : nat) : option mount_entry * nat :=
  match ms with
  | [] => (best, best_len)
  | m :: ms =>
      if bool_decide (m_hostdir m = []) then guest_loop want ms best best_len
      else
        let n := under want (host_path_norm (m_hostdir m) MOUNT_PATH_MAX) in
        if (0 <? n)%nat && (best_len <=? n)%nat then guest_loop want ms (Some m) n
        else guest_loop want ms best best_len
  end.

Definition mount_guest_path_of (host : cstr) (outsz : nat) (w : mounts) : option cstr :=
  let '(ok, t) := current_table w in
  if negb ok || (length (t_m t) =? 0)%nat then None
  else
    let want := host_path_norm host MOUNT_PATH_MAX in
    match guest_loop want (t_m t) None 0 with
    | (None, _) => None
    | (Some m, best_len) =>
        let out := m_target m ++ drop best_len want in
        if (0 <? length out)%nat && (length out <? outsz)%nat then Some out else None
    end.

(** * pivot_root's half *)

Definition pivot_target (new_root put_old : cstr) (target : cstr) : cstr :=
  let n := under target new_root in
  let re :=
    if (0 <? n)%nat then
      let rest := drop n target in if bool_decide (rest = []) then lit "/" else rest
    else put_old ++ (if strcmp target (lit "/") then [] else target) in
  snprintf MOUNT_PATH_MAX re.

Definition mount_pivot (new_root put_old_after old_root_host : cstr) (w : mounts) : bool * mounts :=
  let '(_, t) := current_table w in
  let ms := (λ m, set_target (pivot_target new_root put_old_after (m_target m)) m) <$> t_m t in
  if (length ms =? MOUNT_MAX)%nat then (false, w)
  else
    let e := mk_entry (lit "/dev/root") (snprintf MOUNT_PATH_MAX put_old_after) (lit "rootfs")
               (snprintf MOUNT_PATH_MAX old_root_host) [] 0 (t_next_id t) 0 0 0 in
    (true, table_store (w_ns w) (mk_table (ms ++ [e]) (u32 (t_next_id t + 1))) w).

(** * Which mount a path is in *)

(** The path is the mount point or below it. *)
Definition covers (mnt p : cstr) : Prop :=
  if decide (mnt = lit "/") then head p = Some slash
  else take (length mnt) p = mnt ∧ component_end p (length mnt) = true.

#[export] Instance covers_dec mnt p : Decision (covers mnt p).
Proof. unfold covers. case_decide; apply _. Defined.

Lemma root_mount mnt : (length mnt =? 1)%nat && starts slash mnt = bool_decide (mnt = lit "/").
Proof.
  unfold starts. destruct mnt as [|c [|d mnt]]; [done| |symmetry; by apply bool_decide_eq_false].
  cbn. apply bool_decide_ext. split; [by intros [= ->]|by intros [= ->]].
Qed.

Lemma under_root p : under p (lit "/") = if decide (head p = Some slash) then 1%nat else 0%nat.
Proof.
  unfold under, strncmp. rewrite root_mount, bool_decide_true by done. destruct p as [|c p]; [done|]. cbn. rewrite take_0.
  unfold slash. case_bool_decide as E; case_decide as E'; congruence.
Qed.

Lemma under_covers p mnt : under p mnt = if decide (covers mnt p) then length mnt else 0%nat.
Proof.
  destruct (decide (mnt = lit "/")) as [->|Hr]; [by rewrite under_root; do 2 case_decide|].
  unfold under. rewrite root_mount, bool_decide_false by done. unfold strncmp. rewrite (firstn_all mnt).
  assert (covers mnt p ↔ take (length mnt) p = mnt ∧ component_end p (length mnt) = true) as Hc.
  { unfold covers. by case_decide. }
  case_bool_decide as He; cbn.
  - destruct (component_end p (length mnt)) eqn:E; case_decide as Hd; [done| |by rewrite Hc in Hd; destruct Hd|done].
    by destruct Hd; rewrite Hc.
  - case_decide as Hd; [|done]. rewrite Hc in Hd. by destruct Hd.
Qed.

Definition backed (m : mount_entry) : Prop := m_hostdir m ≠ [].

(** Of the mounts with a directory that hold the path, the first of those with
    the longest mount point. *)
Record holds (ms : list mount_entry) (p : cstr) (m : mount_entry) : Prop := {
  h_in : m ∈ ms;
  h_backed : backed m;
  h_covers : covers (m_target m) p;
  h_longest m' : m' ∈ ms → backed m' → covers (m_target m') p → (length (m_target m') ≤ length (m_target m))%nat;
}.

(** What the loop has found, having [best] with a mount point of length [n]. *)
Definition found (p : cstr) (ms : list mount_entry) (best : option mount_entry) (n : nat) (r : option mount_entry) : Prop :=
  match r with
  | None => best = None ∧ ∀ m, m ∈ ms → backed m → covers (m_target m) p → m_target m = []
  | Some m => (best = Some m ∨ m ∈ ms ∧ backed m ∧ covers (m_target m) p) ∧ (n ≤ length (m_target m))%nat ∧
      ∀ m', m' ∈ ms → backed m' → covers (m_target m') p → (length (m_target m') ≤ length (m_target m))%nat
  end.

Lemma found_skip p x ms best n r :
  (best = None → n = 0%nat) → (backed x → covers (m_target x) p → (length (m_target x) ≤ n)%nat) →
  found p ms best n r → found p (x :: ms) best n r.
Proof.
  intros Hn Hx. destruct r as [m|]; cbn.
  - intros (Hm & Hle & Hl). split_and!; [|done|].
    + destruct Hm as [?|(?&?&?)]; [by left|right]. split; [by right|done].
    + intros m' [->|Hin]%elem_of_cons Hb Hc; [specialize (Hx Hb Hc); lia|by apply Hl].
  - intros [-> Hl]. split; [done|]. intros m' [->|Hin]%elem_of_cons Hb Hc; [|by apply Hl].
    specialize (Hx Hb Hc). rewrite Hn in Hx by done. apply nil_length_inv. lia.
Qed.

Lemma find_loop_spec p ms : ∀ best n,
  match best with None => n = 0%nat | Some b => n = length (m_target b) end → found p ms best n (find_loop p ms best n).
Proof.
  induction ms as [|x ms IH]; intros best n Hn; cbn [find_loop].
  { destruct best as [b|]; cbn; [split; [by left|split; [lia|]]|split; [done|]]; by intros m ?%not_elem_of_nil. }
  assert (best = None → n = 0%nat) as Hz by by intros ->.
  rewrite under_covers. case_bool_decide as Hb; [by apply found_skip, IH|].
  case_decide as Hc; [|by rewrite (proj2 (Nat.ltb_ge n 0)) by lia; apply found_skip, IH].
  destruct (n <? length (m_target x))%nat eqn:E; [|apply Nat.ltb_ge in E; by apply found_skip, IH].
  apply Nat.ltb_lt in E. specialize (IH (Some x) _ eq_refl).
  destruct (find_loop p ms (Some x) _) as [m|]; cbn in *; [|by destruct IH]. destruct IH as (Hm & Hle & Hl).
  split_and!; [|lia|].
  - right. destruct Hm as [[= ->]|(?&?&?)]; [split; [by left|done]|split; [by right|done]].
  - intros m' [->|Hin]%elem_of_cons Hb' Hc'; [done|]. by apply Hl.
Qed.

Lemma find_mount_holds t p m : find_mount t p = Some m → holds (t_m t) p m.
Proof.
  intros E. pose proof (find_loop_spec p (t_m t) None 0 eq_refl) as L. unfold find_mount in E. rewrite E in L.
  destruct L as ([?|(?&?&?)] & _ & Hl); [done|]. by split.
Qed.

Lemma find_mount_none t p m : find_mount t p = None → m ∈ t_m t → backed m → m_target m ≠ [] → ¬ covers (m_target m) p.
Proof.
  intros E Hin Hb Hne Hc. pose proof (find_loop_spec p (t_m t) None 0 eq_refl) as L. unfold find_mount in E. rewrite E in L.
  destruct L as [_ Hl]. by apply Hne, Hl.
Qed.

Lemma covers_take mnt p : covers mnt p → take (length mnt) p = mnt.
Proof.
  unfold covers. case_decide as E; [|by intros [? _]]. subst mnt. destruct p as [|c p]; [done|]. intros [= ->]. cbn.
  by rewrite take_0.
Qed.

Lemma covers_head mnt p : covers mnt p → p ≠ [] → mnt ≠ [] → head mnt = head p.
Proof. intros E%covers_take Hp Hm. destruct mnt, p; try done. cbn in E. by injection E as -> _. Qed.

Lemma mount_resolve_none p outsz w :
  table_load (w_ns w) w = None → mount_resolve p outsz w = None.
Proof. unfold mount_resolve, current_table. by intros ->. Qed.

Lemma mount_resolve_found p outsz w t :
  table_load (w_ns w) w = Some t →
  mount_resolve p outsz w =
    m ← find_mount t p; Some (snprintf outsz (m_hostdir m ++ drop (length (m_target m)) p), has (m_flags m) LINUX_MS_RDONLY).
Proof.
  unfold mount_resolve, current_table. intros ->. cbn [negb orb]. destruct (length (t_m t) =? 0)%nat eqn:E.
  - unfold find_mount. apply Nat.eqb_eq, nil_length_inv in E. by rewrite E.
  - destruct (find_mount t p) as [m|] eqn:F; [|done]. cbn. rewrite under_covers, decide_True; [done|].
    by apply find_mount_holds in F as [].
Qed.

(** A path in a mount is the mount's directory followed by what is below the
    mount point, of the mount with the longest mount point that holds it, and
    read-only if that one is; a path no mount holds is left alone. *)
Theorem mount_resolve_longest p outsz w t :
  table_load (w_ns w) w = Some t → (∀ m, m ∈ t_m t → m_target m ≠ []) →
  match mount_resolve p outsz w with
  | Some (host, rdonly) => ∃ m rest, holds (t_m t) p m ∧ p = m_target m ++ rest ∧
      host = snprintf outsz (m_hostdir m ++ rest) ∧ rdonly = has (m_flags m) LINUX_MS_RDONLY
  | None => ∀ m, m ∈ t_m t → backed m → ¬ covers (m_target m) p
  end.
Proof.
  intros Ht Hne. rewrite (mount_resolve_found p outsz w t Ht). destruct (find_mount t p) as [m|] eqn:E; cbn.
  - apply find_mount_holds in E. exists m, (drop (length (m_target m)) p). split_and!; [done| |done|done].
    rewrite <- (take_drop (length (m_target m)) p) at 1. f_equal. apply covers_take, E.
  - intros m Hm Hb. eapply find_mount_none; [done|done|done|]. by apply Hne.
Qed.

(** * What a mount on the root is *)

Definition bind_on (target host : string) (id : Z) : mount_entry :=
  mk_entry (lit "none") (lit target) (lit "none") (lit host) [] LINUX_MS_BIND id 0 0 0.

Definition demo_mounts (ms : list mount_entry) : mounts := mk_mounts 7 {[ 7 := mk_table ms 40 ]} 0 true.

Lemma mount_resolve_longest_witness :
  match mount_resolve (lit "/a/b/c") PATH_MAX (demo_mounts [bind_on "/a" "/h" 30; bind_on "/a/b" "/k" 31]) with
  | Some (host, rdonly) => ∃ m rest, holds [bind_on "/a" "/h" 30; bind_on "/a/b" "/k" 31] (lit "/a/b/c") m ∧
      lit "/a/b/c" = m_target m ++ rest ∧
      host = snprintf PATH_MAX (m_hostdir m ++ rest) ∧ rdonly = has (m_flags m) LINUX_MS_RDONLY
  | None => ∀ m, m ∈ [bind_on "/a" "/h" 30; bind_on "/a/b" "/k" 31] → backed m → ¬ covers (m_target m) (lit "/a/b/c")
  end.
Proof.
  apply (mount_resolve_longest (lit "/a/b/c") PATH_MAX (demo_mounts [bind_on "/a" "/h" 30; bind_on "/a/b" "/k" 31])
    (mk_table [bind_on "/a" "/h" 30; bind_on "/a/b" "/k" 31] 40)); [reflexivity|].
  intros m [->|[->|?%not_elem_of_nil]%elem_of_cons]%elem_of_cons; done.
Defined.

(** A mount on the root joins its directory to the next component: the
    separator is counted as part of the mount point. *)
Example mount_on_root_joins :
  mount_resolve (lit "/etc") PATH_MAX (demo_mounts [bind_on "/" "/h" 30]) = Some (lit "/hetc", false).
Proof. vm_compute. reflexivity. Qed.

(** So, after the pivot_root a container does, onto a directory bound on
    itself, nothing resolves. *)
Example pivot_breaks_bound_root :
  let '(ok, w) := mount_pivot (lit "/newroot") (lit "/old") (lit "/img") (demo_mounts [bind_on "/newroot" "/img/newroot" 30]) in
  ok = true ∧ mount_resolve (lit "/bin/sh") PATH_MAX w = Some (lit "/img/newrootbin/sh", false).
Proof. vm_compute. done. Qed.
