(* ===== verification/Paths.v ===== *)
(** Names to files, src/fs/fs.c: how a name the guest gives is resolved to a
    directory descriptor and a path below it. A name starts in a mount, in a
    part of the file system nabi or the host serves, or in the guest's root; it
    is then walked a component at a time, with its dots folded, its symbolic
    links expanded and search permission asked of each directory; where this
    keeps it in the root, and where not, is shown. The guest's permissions are
    here too. *)

From S2P Require Import Prelude Names MountTable.

Definition LOOKUP_NOFOLLOW : Z := 1.
Definition LOOKUP_DIRECTORY : Z := 2.
Definition LOOP_MAX : Z := 20.
Definition LINUX_PATH_MAX : nat := 4096.
Definition LINUX_AT_FDCWD : Z := -100.
(** Darwin's. *)
Definition AT_FDCWD : Z := -2.

(** * Around it *)

Record l_newstat := mk_stat { st_mode : Z; st_uid : Z; st_gid : Z }.

(** The host's file system: readlinkat; fstat, the device and the inode;
    F_GETPATH; and fstatat with what nabi keeps beside a file in place of the
    owner and mode of the host's, or the error as a Linux number. *)
Class HostFs (H : Type) := {
  h_readlinkat : Z → cstr → H → option cstr;
  h_fstat : Z → H → option (Z * Z);
  h_getpath : Z → H → option cstr;
  h_fstatat : Z → cstr → bool → H → Z + l_newstat;
}.

(** There is no link at an empty name. *)
Class HostFsLaws (H : Type) `{HostFs H} := {
  readlink_empty fd h : h_readlinkat fd [] h = None;
}.

Record creds := mk_creds {
  c_uid : Z; c_gid : Z; c_euid : Z; c_egid : Z; c_fsuid : Z; c_fsgid : Z; c_groups : list Z;
}.

(** What a /proc name is to own_procfs_file_n. *)
Inductive procfs_file := PROCFS_EXE | PROCFS_FD (fd : Z) | PROCFS_OTHER.

(** The process: its root, where nabi's descriptors start, its credentials,
    which of /proc and /sys the host has, its mounts, its pid namespace, its
    program, and where nabi keeps the control groups and its part of /sys. *)
Record env := mk_env {
  e_rootfd : Z;
  e_vkern : Z;
  e_cred : creds;
  e_live : list bool;
  e_mounts : mounts;
  e_pidns : option (Z → Z);
  e_procfs : cstr → procfs_file;
  e_exe : cstr;
  e_cgroup : option cstr;
  e_sysfs : option cstr;
}.

(** The root's device and inode, once they have been asked for. *)
Abbreviation identity := (option (Z * Z)).

(** struct path, after a resolution. *)
Record path := mk_path { p_dir : Z; p_subpath : cstr; p_rdonly : bool }.

(** * Numbers in names *)

Definition is_digit (c : ascii) : bool := (48 <=? nat_of_ascii c)%nat && (nat_of_ascii c <=? 57)%nat.

(** The number at the front of a string, and the rest. *)
Fixpoint digits (s : cstr) (n : Z) : Z * cstr :=
  match s with
  | c :: s' => if is_digit c then digits s' (n * 10 + (Z.of_nat (nat_of_ascii c) - 48)) else (n, s)
  | [] => (n, [])
  end.

Definition decimal (n : Z) : cstr := lit (pretty (Z.to_N n)).
Definition pad3 (s : cstr) : cstr := replicate (3 - length s) "0"%char ++ s.

Definition devpts_number_of (hostname : cstr) : option Z :=
  if negb (strncmp hostname (lit "/dev/ttys") 9) then None
  else
    let p := drop 9 hostname in
    match p with
    | [] => None
    | c :: _ => if negb (is_digit c) then None
                else let '(n, e) := digits p 0 in if bool_decide (e = []) then Some (u32 n) else None
    end.

Definition devpts_to_host (name : cstr) : option cstr :=
  if negb (strncmp name (lit "/dev/pts/") 9) then None
  else
    let p := drop 9 name in
    match p with
    | [] => None
    | c :: _ => if negb (is_digit c) then None
                else let '(n, e) := digits p 0 in
                     if bool_decide (e = []) then Some (snprintf 32 (lit "/dev/ttys" ++ pad3 (decimal (u32 n)))) else None
    end.

(** Nothing to say; nobody has that number; or the host's number in its place. *)
Definition procfs_pidns_path (e : env) (name : cstr) (outsz : nat) : option (option cstr) :=
  match e_pidns e with
  | None => None
  | Some pidns_to_host =>
      if negb (strncmp name (lit "/proc/") 6) then None
      else
        let p := drop 6 name in
        match p with
        | [] => None
        | c :: _ =>
            if negb (is_digit c) then None
            else
              let '(n, rest) := digits p 0 in
              if negb (component_end rest 0) then None
              else
                let host := pidns_to_host (s32 (Z.min n (2^63 - 1))) in
                if host <? 0 then Some None
                else Some (Some (snprintf outsz (lit "/proc/" ++ decimal host ++ rest)))
        end
  end.

Definition procfs_exe_path (e : env) (name : cstr) (outsz : nat) : option cstr :=
  match e_procfs e name with
  | PROCFS_EXE => if bool_decide (e_exe e = []) then None
                  else if (length (e_exe e) <? outsz)%nat then Some (e_exe e) else None
  | _ => None
  end.

Definition procfs_fd_number (e : env) (name : cstr) : Z :=
  match e_procfs e name with PROCFS_FD fd => fd | _ => -1 end.

(** * Whose name it is *)

Definition match_component (name prefix : cstr) : bool :=
  let n := length prefix in strncmp name prefix n && component_end name n.

Definition host_passthrough : list cstr :=
  [lit "/Users"; lit "/Volumes"; lit "/dev"; lit "/tmp"; lit "/private"; lit "/System/Volumes/Data"].

Definition optional_passthrough : list cstr := [lit "/proc"; lit "/sys"].

Definition is_host_passthrough (e : env) (name : cstr) : bool :=
  existsb (match_component name) host_passthrough ||
  existsb (λ '(live, p), live && match_component name p) (zip (e_live e) optional_passthrough).

Definition cgroupfs_to_host (e : env) (name : cstr) (outsz : nat) : option cstr :=
  let pre := lit "/sys/fs/cgroup" in
  let n := length pre in
  if negb (strncmp name pre n) || negb (component_end name n) then None
  else
    match e_cgroup e with
    | None => None
    | Some root => let out := root ++ drop n name in if (length out <? outsz)%nat then Some out else None
    end.

(** The path under /sys, and whether it is a file. *)
Definition sysfs_tree : list (cstr * bool) :=
  [(lit "/class", false); (lit "/class/net", false); (lit "", false); (lit "/fs", false); (lit "/fs/cgroup", false);
   (lit "/class/udc", false); (lit "/kernel", false); (lit "/kernel/mm", false);
   (lit "/kernel/mm/transparent_hugepage", false); (lit "/kernel/mm/transparent_hugepage/enabled", true);
   (lit "/kernel/tracing", false); (lit "/kernel/debug", false); (lit "/kernel/debug/tracing", false); (lit "/power", false)].

Definition sysfs_known (rest : cstr) : bool :=
  existsb (λ '(p, is_file),
    let tn := length p in
    if (tn =? 0)%nat then bool_decide (rest = [])
    else strncmp rest p tn &&
         match rest !! tn with None => true | Some c => bool_decide (c = slash) && negb is_file end) sysfs_tree.

Definition sysfs_to_host (e : env) (name : cstr) (outsz : nat) : option cstr :=
  let n := 4%nat in
  if negb (strncmp name (lit "/sys") n) || negb (component_end name n) then None
  else
    let rest := drop n name in
    if strncmp rest (lit "/fs/cgroup/") 11 || strcmp rest (lit "/fs/cgroup") then None
    else if negb (sysfs_known rest) then None
    else
      match e_sysfs e with
      | None => None
      | Some root => let out := root ++ rest in if (length out <? outsz)%nat then Some out else None
      end.

(** * Permissions *)

Definition WANT_R : Z := 4.
Definition WANT_W : Z := 2.
Definition WANT_X : Z := 1.
Definition S_ISDIR (mode : Z) : bool := Z.land mode 0xF000 =? 0x4000.
Definition S_ISVTX : Z := 0x200.

Definition guest_in_group (c : creds) (gid : Z) : bool := (gid =? c_egid c) || existsb (Z.eqb gid) (c_groups c).

Definition cred_may (c : creds) (st : l_newstat) (want : Z) (real : bool) : Z :=
  let uid := if real then c_uid c else c_fsuid c in
  let gid := if real then c_gid c else c_fsgid c in
  if uid =? 0 then
    if has want WANT_X && negb (S_ISDIR (st_mode st)) && (Z.land (st_mode st) 0x49 =? 0) then - EACCES else 0
  else
    let shift := if st_uid st =? uid then 6 else if (st_gid st =? gid) || guest_in_group c (st_gid st) then 3 else 0 in
    if Z.land (Z.shiftr (st_mode st) shift) want =? want then 0 else - EACCES.

Definition cred_is_root (c : creds) : bool := c_fsuid c =? 0.

Section Resolve.
Context {H : Type} `{HostFs H}.

Definition permit_at (c : creds) (dirfd : Z) (p : cstr) (nofollow : bool) (want : Z) (real : bool) (h : H) : Z :=
  match h_fstatat dirfd p nofollow h with
  | inl err => - err
  | inr st => cred_may c st want real
  end.

(** The directory that holds an entry, as permit_parent names it. *)
Definition parent_dir (entry : cstr) : cstr :=
  if bool_decide (slash ∈ entry) then
    let n := (length (dirpart entry) - 1)%nat in
    let n := if (n =? 0)%nat then 1%nat else n in
    let n := if (LINUX_PATH_MAX <=? n)%nat then (LINUX_PATH_MAX - 1)%nat else n in
    take n entry
  else lit ".".

Definition permit_parent (c : creds) (dirfd : Z) (entry : cstr) (removing : bool) (h : H) : Z :=
  if cred_is_root c then 0
  else
    match h_fstatat dirfd (parent_dir entry) false h with
    | inl err => - err
    | inr dir =>
        let r := cred_may c dir (Z.lor WANT_W WANT_X) false in
        if (r <? 0) || negb removing || negb (has (st_mode dir) S_ISVTX) then r
        else
          match h_fstatat dirfd entry true h with
          | inl _ => 0
          | inr v => if (st_uid v =? c_euid c) || (st_uid dir =? c_euid c) then 0 else - EACCES
          end
    end.

(** * Resolution *)

Definition in_userfd (e : env) (fd : Z) : bool := (0 <=? fd) && (fd <? e_vkern e).

Definition dir_is_rootfs (e : env) (fd : Z) (h : H) (ca : identity) : bool * identity :=
  if fd =? e_rootfd e then (true, ca)
  else if fd =? AT_FDCWD then (false, ca)
  else
    match match ca with Some i => Some i | None => h_fstat (e_rootfd e) h end with
    | None => (false, ca)
    | Some i =>
        match h_fstat fd h with
        | None => (false, Some i)
        | Some j => (bool_decide (j = i), Some i)
        end
    end.

(** Where an absolute name starts: at the root itself; nowhere; or with what
    name below which directory, read-only by its mount, and in nabi's /sys. *)
Inductive start := Root | Nobody | Walk (fd : Z) (name : cstr) (rdonly sysfs : bool).

Definition begin_walk (e : env) (parent : Z) (name : cstr) (h : H) : start :=
  if bool_decide (name = lit "/") then Root
  else
    match procfs_pidns_path e name PATH_MAX with
    | Some None => Nobody
    | pid =>
        let name := match pid with Some (Some n) => n | _ => name end in
        let name := default name (procfs_exe_path e name LINUX_PATH_MAX) in
        match devpts_to_host name with
        | Some n => Walk parent n false false
        | None =>
            match mount_resolve name PATH_MAX (e_mounts e) with
            | Some (n, rdonly) => Walk parent (default n (devpts_to_host n)) rdonly false
            | None =>
                match cgroupfs_to_host e name PATH_MAX with
                | Some n => Walk parent n false false
                | None =>
                    match sysfs_to_host e name PATH_MAX with
                    | Some n => Walk parent n false true
                    | None =>
                        if negb (is_host_passthrough e name) then Walk (e_rootfd e) (tail name) false false
                        else
                          let procfd := procfs_fd_number e name in
                          match (if (0 <=? procfd) && in_userfd e procfd then h_getpath procfd h else None) with
                          | Some n => Walk parent n false false
                          | None => Walk parent (default name (devpts_to_host name)) false false
                          end
                    end
                end
            end
        end
    end.

(** A component, once it has been copied behind [sub]: dots are folded. *)
Definition fold_dots (e : env) (fd : Z) (h : H) (sub w : cstr) (ca : identity) : cstr * identity :=
  if bool_decide (w = lit ".") then (sub, ca)
  else if bool_decide (w = lit "..") then
    if bool_decide (sub = []) then
      let '(b, ca) := dir_is_rootfs e fd h ca in (if b then [] else sub ++ w, ca)
    else (reverse (skip_slash (skip_name (skip_slash (reverse sub)))), ca)
  else (sub ++ w, ca).

Abbreviation resolved := (outcome ((Z + path) * identity)).

Definition read_only (sysfs : bool) (r : Z + path) : Z + path :=
  match r with
  | inl err => inl err
  | inr p => inr (mk_path (p_dir p) (p_subpath p) (p_rdonly p || sysfs))
  end.

(** The link at a path that is not to be kept as it is. *)
Definition link_at (fd : Z) (flags : Z) (last : bool) (sub : cstr) (h : H) : option cstr :=
  if negb (has flags LOOKUP_NOFOLLOW) || negb last then
    match h_readlinkat fd sub h with
    | Some (c :: t) => Some (take LINUX_PATH_MAX (c :: t))
    | _ => None
    end
  else None.

(** The rest of a walk: what is in [path->subpath] and the components to come;
    [again] resolves the name a link leads to. *)
Fixpoint walk (e : env) (flags : Z) (h : H) (again : cstr → identity → resolved) (fd : Z) (leading rdonly sysfs : bool)
    (sub : cstr) (todo : list cstr) (ca : identity) : resolved :=
  let done := Ret (inr (mk_path fd (if bool_decide (sub = []) then lit "." else sub) (rdonly || sysfs)), ca) in
  match todo with
  | [] => done
  | w :: rest =>
      let last := bool_decide (rest = []) in
      if (LINUX_PATH_MAX <=? length (sub ++ w))%nat then Stop Faulted
      else if bool_decide (w = []) && last then done
      else
        let '(sub, ca) := fold_dots e fd h sub w ca in
        let c := tail_of rest in
        match link_at fd flags last sub h with
        | Some t =>
            let name := if starts slash t then t ++ c else dirpart sub ++ t ++ c in
            if (LINUX_PATH_MAX <=? length (t ++ c))%nat || (LINUX_PATH_MAX <=? length name)%nat then Stop Faulted
            else '(r, ca) ← again name ca; Ret (read_only sysfs r, ca)
        | None =>
            let r := if negb last && bool_decide (sub ≠ []) && negb (cred_is_root (e_cred e))
                     then permit_at (e_cred e) fd sub false WANT_X false h else 0 in
            if r <? 0 then Ret (inl r, ca)
            else
              let sub := if negb last && (bool_decide (sub ≠ []) || leading) then sub ++ [slash] else sub in
              walk e flags h again fd leading rdonly sysfs sub rest ca
        end
  end.

Fixpoint resolve_path (fuel : nat) (e : env) (h : H) (parent : Z) (name : cstr) (flags loop : Z) (ca : identity) : resolved :=
  match fuel with
  | O => Stop OutOfFuel
  | S fuel =>
      if loop >? LOOP_MAX then Ret (inl (- ELOOP), ca)
      else
        match (if starts slash name then begin_walk e parent name h else Walk parent name false false) with
        | Nobody => Ret (inl (- ENOENT), ca)
        | Root => Ret (inr (mk_path (e_rootfd e) (lit ".") false), ca)
        | Walk fd name rdonly sysfs =>
            if bool_decide (name = []) then Stop Asserted
            else walk e flags h (λ n ca, resolve_path fuel e h fd n flags (loop + 1) ca)
                   fd (starts slash name) rdonly sysfs [] (words name) ca
        end
  end.

(** Each expansion of a link counts, and the twenty-second is not looked at. *)
Definition resolve_fuel : nat := 22.

Definition vfs_grab_dir (e : env) (h : H) (dirfd : Z) (name : cstr) (flags : Z) (ca : identity) : resolved :=
  if negb (Z.land flags (Z.lnot (Z.lor LOOKUP_NOFOLLOW LOOKUP_DIRECTORY)) =? 0) then Ret (inl (- EINVAL), ca)
  else if bool_decide (name = []) then Ret (inl (- ENOENT), ca)
  else if (dirfd =? LINUX_AT_FDCWD) || starts slash name then resolve_path resolve_fuel e h AT_FDCWD name flags 0 ca
  else if negb (in_userfd e dirfd) then Ret (inl (- EBADF), ca)
  else resolve_path resolve_fuel e h dirfd name flags 0 ca.

(** Whether what a refused write needs is not even there. *)
Definition missing (p : path) (creating : bool) (h : H) : bool :=
  let gone q nofollow := match h_fstatat (p_dir p) q nofollow h with inl err => err =? ENOENT | inr _ => false end in
  if creating then
    let parent := take (length (dirpart (p_subpath p)) - 1) (p_subpath p) in
    if bool_decide (parent = []) then false else gone parent false
  else gone (p_subpath p) true.

Definition vfs_grab_dir_w (e : env) (h : H) (dirfd : Z) (name : cstr) (flags : Z) (creating : bool) (ca : identity) : resolved :=
  '(r, ca) ← vfs_grab_dir e h dirfd name flags ca;
  match r with
  | inl err => Ret (inl err, ca)
  | inr p =>
      if p_rdonly p then Ret (inl (if missing p creating h then - ENOENT else - EROFS), ca)
      else Ret (inr p, ca)
  end.

(** * The host's name of a file *)

Definition guest_to_host_path (e : env) (h : H) (name : cstr) (outsz : nat) (ca : identity) : outcome ((Z + cstr) * identity) :=
  let fits out ca : (Z + cstr) * identity := (if (length out <? outsz)%nat then inr out else inl (- ENAMETOOLONG), ca) in
  let served :=
    if starts slash name then
      match mount_resolve name PATH_MAX (e_mounts e) with
      | Some (n, _) => Some n
      | None => match cgroupfs_to_host e name PATH_MAX with
                | Some n => Some n
                | None => match sysfs_to_host e name PATH_MAX with
                          | Some n => Some n
                          | None => if is_host_passthrough e name then Some name else None
                          end
                end
      end
    else None in
  match served with
  | Some n => Ret (fits n ca)
  | None =>
      '(r, ca) ← vfs_grab_dir e h LINUX_AT_FDCWD name LOOKUP_NOFOLLOW ca;
      match r with
      | inl err => Ret (inl err, ca)
      | inr p =>
          match h_getpath (p_dir p) h with
          | None => Ret (inl (- ENOENT), ca)
          | Some dirpath =>
              Ret (fits (if strcmp (p_subpath p) (lit ".") then dirpath else dirpath ++ slash :: p_subpath p) ca)
          end
      end
  end.

(** The root changes: its identity is asked for again. *)
Definition fs_root_commit (e : env) (vfd : Z) : env * identity :=
  (mk_env vfd (e_vkern e) (e_cred e) (e_live e) (e_mounts e) (e_pidns e) (e_procfs e) (e_exe e) (e_cgroup e) (e_sysfs e), None).

End Resolve.

(** * Every resolution ends *)

#[local] Opaque LINUX_PATH_MAX.

Section Proofs.
Context {H : Type} `{HF : HostFs H}.
Implicit Types (e : env) (h : H) (ca : identity).

(** A link a walk meets, in a form that is used for all of them. *)
Lemma walk_returns e flags h again fd leading rdonly sysfs todo : ∀ sub ca,
  (∀ n ca, again n ca ≠ Stop OutOfFuel) → walk e flags h again fd leading rdonly sysfs sub todo ca ≠ Stop OutOfFuel.
Proof.
  induction todo as [|w rest IH]; intros sub ca Ha; cbn [walk]; [done|].
  case_match; [done|]. case_match; [done|]. destruct (fold_dots e fd h sub w ca) as [sub' ca'].
  destruct (link_at fd flags _ sub' h) as [t|].
  - case_match; [done|]. match goal with |- context [again ?n ca'] => specialize (Ha n ca') end.
    destruct (again _ ca') as [[r ca'']|why]; [done|]. intros [= ->]. done.
  - case_match; [done|]. by apply IH.
Qed.

(** However the links lead, a name is resolved or refused after at most
    twenty-one expansions: the resolution never runs on. *)
Lemma resolve_path_total e h flags fuel : ∀ parent name loop ca,
  loop ≤ LOOP_MAX + 1 < Z.of_nat fuel + loop → resolve_path fuel e h parent name flags loop ca ≠ Stop OutOfFuel.
Proof.
  induction fuel as [|fuel IH]; intros parent name loop ca Hf; [lia|]. cbn [resolve_path].
  destruct (loop >? LOOP_MAX) eqn:E; [done|].
  destruct (if starts slash name then _ else _) as [| |fd n rdonly sysfs]; [done|done|]. case_match; [done|].
  apply walk_returns. intros m ca'. apply IH. lia.
Qed.

(** C24: however the links lead, a name is resolved or refused: after twenty-one
    expansions of a link the walk is given up, and it never runs on. *)
Theorem resolution_ends e h dirfd name flags ca : vfs_grab_dir e h dirfd name flags ca ≠ Stop OutOfFuel.
Proof.
  unfold vfs_grab_dir. destruct (negb _); [done|]. case_bool_decide; [done|].
  destruct (_ || _); [by apply resolve_path_total|]. destruct (negb _); [done|]. by apply resolve_path_total.
Qed.

(** * The root holds *)

(** The names that are the guest's own: nobody else serves them. *)
Definition in_root e (name : cstr) : bool :=
  bool_decide (procfs_pidns_path e name PATH_MAX = None) && bool_decide (procfs_exe_path e name LINUX_PATH_MAX = None) &&
  bool_decide (devpts_to_host name = None) && bool_decide (mount_resolve name PATH_MAX (e_mounts e) = None) &&
  bool_decide (cgroupfs_to_host e name PATH_MAX = None) && bool_decide (sysfs_to_host e name PATH_MAX = None) &&
  negb (is_host_passthrough e name).

(** The root, or a name of the guest's own with one slash at its front. *)
Definition rooted_name e (n : cstr) : Prop := n = lit "/" ∨ in_root e n = true ∧ starts slash (tail n) = false ∧ tail n ≠ [].

Lemma begin_rooted e parent name h :
  name ≠ lit "/" → rooted_name e name → begin_walk e parent name h = Walk (e_rootfd e) (tail name) false false.
Proof.
  intros Hn [?|[Hr _]]; [done|]. unfold in_root in Hr. rewrite !andb_true_iff, !bool_decide_eq_true, negb_true_iff in Hr.
  destruct Hr as ((((((E1 & E2) & E3) & E4) & E5) & E6) & E7). unfold begin_walk. rewrite bool_decide_false by done.
  by rewrite E1, E2; cbn [default from_option]; unfold id; rewrite E3, E4, E5, E6, E7.
Qed.

(** The descriptor is one on the guest's root. *)
Definition at_root e h (fd : Z) : Prop :=
  fd = e_rootfd e ∨ fd ≠ AT_FDCWD ∧ ∃ i, h_fstat (e_rootfd e) h = Some i ∧ h_fstat fd h = Some i.

Definition coherent e h ca : Prop := ca = None ∨ ca = h_fstat (e_rootfd e) h.

Lemma dir_is_rootfs_exact e fd h ca : coherent e h ca →
  ∃ b ca', dir_is_rootfs e fd h ca = (b, ca') ∧ coherent e h ca' ∧ (b = true ↔ at_root e h fd).
Proof.
  intros Hc. unfold dir_is_rootfs, at_root. destruct (fd =? e_rootfd e) eqn:E1; bool_to_prop.
  { exists true, ca. split_and!; [done|done|]. split; [by left|done]. }
  destruct (fd =? AT_FDCWD) eqn:E2; bool_to_prop.
  { exists false, ca. split_and!; [done|done|]. split; [done|]. by intros [?|[? _]]. }
  assert (match ca with Some i => Some i | None => h_fstat (e_rootfd e) h end = h_fstat (e_rootfd e) h ∨ h_fstat (e_rootfd e) h = None ∧ ca = None) as Hm.
  { destruct Hc as [->| ->]; [by left|]. destruct (h_fstat (e_rootfd e) h); by left. }
  destruct Hm as [->|[E ->]]; [|rewrite E; exists false, None; split_and!; [done|by left|]; split; [done|]; intros [?|(_&i&?&?)]; done].
  destruct (h_fstat (e_rootfd e) h) as [i|] eqn:E.
  - destruct (h_fstat fd h) as [j|] eqn:E'.
    + exists (bool_decide (j = i)), (Some i). split_and!; [done|by right|]. rewrite bool_decide_eq_true. split.
      * intros ->. right. split; [done|]. by exists i.
      * intros [?|(_&k&[= ->]&[= ->])]; done.
    + exists false, (Some i). split_and!; [done|by right|]. split; [done|]. intros [?|(_&k&_&?)]; done.
  - exists false, ca. split_and!; [done|done|]. split; [done|]. intros [?|(_&k&?&_)]; done.
Qed.

(** The words of a path below the root: none climbs, and the first is not
    empty. *)
Record below (ws : list cstr) : Prop := {
  b_plain : Forall plain ws;
  b_down : lit ".." ∉ ws;
  b_head : head ws ≠ Some [];
}.

Lemma below_nil : below [].
Proof. split; [done|apply not_elem_of_nil|done]. Qed.

Lemma below_snoc ws w : below ws → plain w → w ≠ lit ".." → (ws = [] → w ≠ []) → below (ws ++ [w]).
Proof.
  intros [Hp Hd Hh] Hw Hn He. split.
  - apply Forall_app. split; [done|]. by apply Forall_singleton.
  - rewrite elem_of_app, list_elem_of_singleton. intros [?|?]; [by apply Hd|by apply Hn].
  - destruct ws; [|done]. cbn. intros [= ->]. by apply He.
Qed.

Lemma below_prefix ws vs : below (ws ++ vs) → below ws.
Proof.
  intros [Hp Hd Hh]. apply Forall_app in Hp as [Hp _]. split; [done| |by destruct ws].
  intros Hin. apply Hd, elem_of_app. by left.
Qed.

Lemma below_join ws : below ws → ws ≠ [] → join ws ≠ [].
Proof. intros [_ _ Hh] Hn. destruct ws as [|[|c w] ws]; done. Qed.

Lemma below_starts ws s : below ws → ws ≠ [] → starts slash (join ws ++ s) = false ∧ starts slash (dirs ws ++ s) = false.
Proof.
  intros [Hp _ Hh] Hn. destruct ws as [|[|c w] ws]; [done|done|]. rewrite dirs_cons. cbn.
  apply Forall_cons in Hp as [[Hc _]%not_elem_of_cons _]. unfold starts. cbn.
  split; apply bool_decide_eq_false; by intros [= ->].
Qed.

Lemma starts_app c t s : t ≠ [] → starts c (t ++ s) = starts c t.
Proof. by destruct t. Qed.

(** What folding a component leaves, below the root. *)
Lemma fold_below e fd h ws w ca :
  at_root e h fd → coherent e h ca → below ws → plain w →
  ∃ vs ca', fold_dots e fd h (dirs ws) w ca = (join vs, ca') ∧ coherent e h ca' ∧ below vs.
Proof.
  intros Hfd Hca Hws Hw. unfold fold_dots. case_bool_decide as E1.
  { destruct (decide (ws = [])) as [->|Hn]; [exists [], ca; split_and!; [done|done|apply below_nil]|].
    exists (ws ++ [[]]), ca. split_and!; [by rewrite <- dirs_word_join, app_nil_r|done|].
    apply below_snoc; [done|apply not_elem_of_nil|done|done]. }
  case_bool_decide as E2.
  - destruct ws as [|v ws0 _] using rev_ind.
    + cbn [dirs mbind list_bind]. destruct (dir_is_rootfs_exact e fd h ca Hca) as (b & ca' & -> & Hc' & Hb).
      rewrite (proj2 Hb Hfd). rewrite bool_decide_true by done. exists [], ca'. split_and!; [done|done|apply below_nil].
    + rewrite bool_decide_false by (rewrite dirs_snoc; by destruct (dirs ws0), v). pose proof Hws as [Hp _ _].
      apply Forall_app in Hp as [_ Hv]. rewrite Forall_singleton in Hv. rewrite skip_word by done.
      exists ws0, ca. split_and!; [done|done|by apply below_prefix in Hws].
  - destruct (decide (ws = [] ∧ w = [])) as [[-> ->]|Hn]; [exists [], ca; split_and!; [done|done|apply below_nil]|].
    exists (ws ++ [w]), ca. split_and!; [by rewrite dirs_word_join|done|]. apply below_snoc; [done|done|done|].
    intros -> ->. by apply Hn.
Qed.

Definition inside e h (p : path) : Prop :=
  at_root e h (p_dir p) ∧ starts slash (p_subpath p) = false ∧ lit ".." ∉ words (p_subpath p).

(** A resolution that stays inside: it succeeds there, or is refused, or a
    link's expansion does not fit where it is written. *)
Definition stays e h (r : outcome ((Z + path) * identity)) : Prop :=
  match r with
  | Ret (inl _, ca) => coherent e h ca
  | Ret (inr p, ca) => inside e h p ∧ coherent e h ca
  | Stop why => why = Faulted
  end.

(** No link leads out of the root by an absolute name. *)
Definition tame e h : Prop :=
  ∀ fd sub t rest, h_readlinkat fd sub h = Some t → starts slash t = true →
    rooted_name e (take LINUX_PATH_MAX t ++ tail_of rest).

Lemma link_at_some fd flags last sub h t :
  link_at fd flags last sub h = Some t → ∃ s, h_readlinkat fd sub h = Some s ∧ t = take LINUX_PATH_MAX s ∧ t ≠ [] ∧ head t = head s.
Proof.
  unfold link_at. case_match; [|done]. destruct (h_readlinkat fd sub h) as [[|c s]|]; [done| |done].
  intros [= <-]. exists (c :: s). split_and!; done.
Qed.

Lemma inside_join e h fd ro vs :
  at_root e h fd → below vs → inside e h (mk_path fd (if bool_decide (join vs = []) then lit "." else join vs) ro).
Proof.
  intros Hfd Hvs. case_bool_decide as E.
  - split_and!; [done|done|]. by apply (bool_decide_unpack _).
  - assert (vs ≠ []) as Hn by by intros ->. split_and!; cbn; [done| |].
    + rewrite <- (app_nil_r (join vs)). by apply below_starts.
    + rewrite words_join; [apply Hvs|done|apply Hvs].
Qed.

(** The name a link expands to below the root is again one below it, or the
    guest's own. *)
Lemma link_name e h fd flags last vs t rest :
  tame e h → below vs → link_at fd flags last (join vs) h = Some t →
  let name := if starts slash t then t ++ tail_of rest else dirpart (join vs) ++ t ++ tail_of rest in
  name ≠ [] ∧ (starts slash name = true → rooted_name e name).
Proof.
  intros Ht Hvs El. apply link_at_some in El as (s & Es & -> & Hne & Hh). cbv zeta. split.
  { destruct (take LINUX_PATH_MAX s); [done|]. destruct (starts slash _); [done|]. by destruct (dirpart _). }
  intros Hn. destruct (starts slash (take LINUX_PATH_MAX s)) eqn:Es'.
  { eapply Ht; [done|]. unfold starts in *. by rewrite <- Hh. }
  exfalso. destruct vs as [|v vs0 _] using rev_ind.
  - change (dirpart (join [])) with (@nil ascii) in Hn. rewrite app_nil_l, starts_app in Hn by done. congruence.
  - rewrite <- dirs_word_join in Hn. pose proof Hvs as [Hp _ _]. apply Forall_app in Hp as [_ Hv].
    rewrite Forall_singleton in Hv. rewrite dirpart_word in Hn by done. apply below_prefix in Hvs.
    destruct (decide (vs0 = [])) as [->|Hn0].
    + change (dirs []) with (@nil ascii) in Hn. rewrite app_nil_l, starts_app in Hn by done. congruence.
    + by rewrite (proj2 (below_starts vs0 _ Hvs Hn0)) in Hn.
Qed.

Lemma walk_stays e h flags again fd rdonly sysfs :
  tame e h → at_root e h fd →
  (∀ n ca, n ≠ [] → (starts slash n = true → rooted_name e n) → coherent e h ca → stays e h (again n ca)) →
  ∀ todo ws ca, Forall plain todo → below ws → coherent e h ca →
  stays e h (walk e flags h again fd false rdonly sysfs (dirs ws) todo ca).
Proof.
  intros Ht Hfd Ha todo. induction todo as [|w rest IH]; intros ws ca Htodo Hws Hca; cbn [walk].
  all: assert (stays e h (Ret (inr (mk_path fd (if bool_decide (dirs ws = []) then lit "." else dirs ws) (rdonly || sysfs)), ca))) as Hdone.
  1, 3: cbn; split; [|done]; destruct (decide (ws = [])) as [->|Hn];
    [by apply (inside_join e h fd _ [])|rewrite <- (app_nil_r (dirs ws)), dirs_word_join; apply inside_join; [done|];
     apply below_snoc; [done|apply not_elem_of_nil|done|done]].
  { done. }
  destruct (LINUX_PATH_MAX <=? _)%nat; [done|]. destruct (bool_decide (w = []) && _); [done|]. apply Forall_cons in Htodo as [Hw Hrest].
  destruct (fold_below e fd h ws w ca Hfd Hca Hws Hw) as (vs & ca' & -> & Hca' & Hvs).
  destruct (link_at fd flags (bool_decide (rest = [])) (join vs) h) as [t|] eqn:El.
  - destruct ((LINUX_PATH_MAX <=? _)%nat || _); [done|].
    match goal with |- context [again ?n ca'] => assert (stays e h (again n ca')) as Hs end.
    { by apply Ha; [eapply link_name|eapply link_name|]. }
    destruct (again _ ca') as [[[err|p] ca'']|why]; cbn in *; [done| |done]. by destruct Hs as [[? ?] ?].
  - destruct (_ <? 0); [done|]. destruct (bool_decide (rest = [])) eqn:Er.
    + apply bool_decide_eq_true in Er as ->. cbn [negb andb walk]. split; [|done]. by apply inside_join.
    + cbn [negb andb]. rewrite orb_false_r. destruct (decide (join vs = [])) as [Ev|Ev].
      * rewrite bool_decide_false, Ev by by intros ?. by apply (IH []); [|apply below_nil|].
      * rewrite bool_decide_true by done. rewrite <- dirs_join by (by intros ->). by apply IH.
Qed.

Lemma resolve_path_stays e h flags fuel : ∀ parent name loop ca,
  tame e h → name ≠ [] → (if starts slash name then rooted_name e name else at_root e h parent) →
  coherent e h ca → loop ≤ LOOP_MAX + 1 < Z.of_nat fuel + loop →
  stays e h (resolve_path fuel e h parent name flags loop ca).
Proof.
  induction fuel as [|fuel IH]; intros parent name loop ca Ht Hn Hs Hca Hf; [lia|]. cbn [resolve_path].
  destruct (loop >? LOOP_MAX) eqn:E; [done|].
  assert (∀ fd nm, at_root e h fd → nm ≠ [] → starts slash nm = false → stays e h
    (walk e flags h (λ n ca, resolve_path fuel e h fd n flags (loop + 1) ca) fd false false false [] (words nm) ca)) as Hw.
  { intros fd nm Hfd Hnm Hsl. apply (walk_stays e h flags _ fd false false Ht Hfd) with (ws := []);
      [|apply words_plain|apply below_nil|done].
    intros n ca' Hne Hr Hc. apply IH; [done|done| |done|lia]. destruct (starts slash n); [by apply Hr|done]. }
  destruct (starts slash name) eqn:Es.
  - destruct (decide (name = lit "/")) as [->|Hne].
    + cbn. split; [|done]. split; [by left|]. split; [done|]. by apply (bool_decide_unpack _).
    + rewrite begin_rooted by done. destruct Hs as [?|(_ & Hs & Ht')]; [done|]. rewrite bool_decide_false by done.
      rewrite Hs. apply Hw; [by left|done|done].
  - rewrite bool_decide_false by done. rewrite Es. apply Hw; [done|done|done].
Qed.

(** C9: a name of the guest's own with exactly one leading slash, or a relative
    one below a descriptor on the guest's root other than AT_FDCWD, is resolved
    to a path below the root that does not climb, or refused, whatever dots and
    relative links are in it, when the host's links are [tame]: every absolute
    target is again such a name, so none is "/", has two leading slashes or is
    a name that nabi, a mount or the host serves. Nothing else can come of it
    but a link whose expansion does not fit its buffer. Without these
    conditions it fails: see [double_slash_leaves_root],
    [link_to_root_leaves_it] and [passthrough_climbs]. *)
Theorem guest_paths_stay_in_root e h dirfd name flags ca :
  tame e h → coherent e h ca →
  (if starts slash name then rooted_name e name else at_root e h dirfd ∧ dirfd ≠ LINUX_AT_FDCWD) →
  stays e h (vfs_grab_dir e h dirfd name flags ca).
Proof.
  intros Ht Hca Hn. unfold vfs_grab_dir. destruct (negb _); [done|]. case_bool_decide as He; [done|].
  destruct (starts slash name) eqn:Es.
  - rewrite orb_true_r. apply resolve_path_stays; [done|done|by rewrite Es|done|done].
  - destruct Hn as [Hr Hd]. rewrite orb_false_r. rewrite (proj2 (Z.eqb_neq _ _) Hd).
    destruct (negb (in_userfd e dirfd)); [done|].
    apply resolve_path_stays; [done|done|by rewrite Es|done|done].
Qed.

(** * The walk in one pass

    A stack of directories and the components to come. A component goes on the
    stack, ".." takes one off and stays at the root, a link's words take its
    place, below the same directory or from the root. How a link is read, the
    check of a directory that is passed through and the limit on expansions are
    nabi's; that a component exists is not asked, no more than nabi does. *)

Definition target_words (t : cstr) : bool * list cstr := if starts slash t then (true, words (tail t)) else (false, words t).

(** A path as resolution leaves it. *)
Definition spell (ws : list cstr) : cstr := if bool_decide (join ws = []) then lit "." else join ws.

Section Namei.
Context (e : env) (h : H) (flags : Z).

Fixpoint follow (again : list cstr → list cstr → outcome (Z + list cstr)) (st todo : list cstr) : outcome (Z + list cstr) :=
  match todo with
  | [] => Ret (inr st)
  | w :: rest =>
      if bool_decide (w = lit "..") then follow again (removelast st) rest
      else
        let here := st ++ [w] in
        match link_at (e_rootfd e) flags (bool_decide (rest = [])) (join here) h with
        | Some t =>
            let '(absolute, ts) := target_words t in
            let st := if absolute then [] else st in
            if (LINUX_PATH_MAX <=? (if absolute then 1 else 0) + length (join (st ++ ts ++ rest)))%nat then Stop Faulted
            else again st (ts ++ rest)
        | None =>
            let r := if bool_decide (rest ≠ []) && negb (cred_is_root (e_cred e))
                     then permit_at (e_cred e) (e_rootfd e) (join here) false WANT_X false h else 0 in
            if r <? 0 then Ret (inl r) else follow again here rest
        end
  end.

Fixpoint namei (fuel : nat) (loop : Z) (st todo : list cstr) : outcome (Z + list cstr) :=
  match fuel with
  | O => Stop OutOfFuel
  | S fuel => if loop >? LOOP_MAX then Ret (inl (- ELOOP)) else follow (namei fuel (loop + 1)) st todo
  end.

Definition as_path (ca : identity) (r : outcome (Z + list cstr)) : outcome ((Z + path) * identity) :=
  match r with
  | Ret (inl err) => Ret (inl err, ca)
  | Ret (inr ws) => Ret (inr (mk_path (e_rootfd e) (spell ws) false), ca)
  | Stop why => Stop why
  end.

(** A component with something in it, other than ".". *)
Definition clean (w : cstr) : Prop := plain w ∧ w ≠ [] ∧ w ≠ lit ".".

(** The links on the way have clean components and fit. *)
Definition clean_links : Prop :=
  ∀ sub t, h_readlinkat (e_rootfd e) sub h = Some t → (length t ≤ LINUX_PATH_MAX)%nat ∧ Forall clean (target_words t).2.

(** A directory the walk has been through: neither it nor one above it is a
    link, and all may be searched. *)
Definition settled (st : list cstr) : Prop :=
  ∀ a b, st = a ++ b → a ≠ [] → link_at (e_rootfd e) 0 false (join a) h = None ∧
    (cred_is_root (e_cred e) = false → 0 ≤ permit_at (e_cred e) (e_rootfd e) (join a) false WANT_X false h).

Lemma settled_nil : settled [].
Proof. intros a b E Hn. by destruct a. Qed.

Lemma settled_prefix a b : settled (a ++ b) → settled a.
Proof. intros Hs x y -> Hn. apply (Hs x (y ++ b)); [by rewrite app_assoc|done]. Qed.

Lemma settled_snoc st w :
  settled st → link_at (e_rootfd e) 0 false (join (st ++ [w])) h = None →
  (cred_is_root (e_cred e) = false → 0 ≤ permit_at (e_cred e) (e_rootfd e) (join (st ++ [w])) false WANT_X false h) →
  settled (st ++ [w]).
Proof.
  intros Hs Hl Hp a b E Hn. destruct b as [|v b _] using rev_ind.
  - rewrite app_nil_r in E. by subst a.
  - rewrite app_assoc in E. apply app_inj_tail in E as [E _]. by apply (Hs a b).
Qed.

Lemma link_at_settled fl last sub :
  link_at (e_rootfd e) 0 false sub h = None → link_at (e_rootfd e) fl last sub h = None.
Proof. unfold link_at. change (negb false) with true. rewrite orb_true_r. intros ->. by destruct (_ || _). Qed.

Lemma link_at_nonlast sub : link_at (e_rootfd e) flags false sub h = link_at (e_rootfd e) 0 false sub h.
Proof. unfold link_at. change (negb false) with true. by rewrite !orb_true_r. Qed.

Lemma link_words t : join (words t) = t ∧ (t ≠ [] → starts slash t = true → slash :: join (words (tail t)) = t).
Proof.
  split; [apply join_words|]. destruct t as [|c t]; [done|]. intros _ [= ->]%bool_decide_eq_true. cbn. by rewrite join_words.
Qed.

Lemma clean_below st : Forall clean st → lit ".." ∉ st → below st.
Proof.
  intros Hc Hd. split; [|done|].
  - eapply Forall_impl; [done|]. by intros w [? _].
  - destruct st as [|w st]; [done|]. apply Forall_cons in Hc as [(_ & Hn & _) _]. by intros [= ->].
Qed.

(** What is in the path when the components to come are [rest]. *)
Definition next (st rest : list cstr) : cstr := if bool_decide (rest = []) then join st else dirs st.

Lemma next_word st w rest : dirs st ++ w ≠ [] →
  (if negb (bool_decide (rest = [])) && (bool_decide (dirs st ++ w ≠ []) || false) then (dirs st ++ w) ++ [slash] else dirs st ++ w)
  = next (st ++ [w]) rest.
Proof.
  intros Hn. unfold next. rewrite (bool_decide_true (dirs st ++ w ≠ [])) by done.
  case_bool_decide; cbn; [by rewrite dirs_word_join|]. by rewrite dirs_snoc, app_assoc.
Qed.

Lemma next_join st rest : below st →
  (if negb (bool_decide (rest = [])) && (bool_decide (join st ≠ []) || false) then join st ++ [slash] else join st)
  = next st rest.
Proof.
  intros Hb. unfold next. case_bool_decide as E; cbn; [done|]. destruct (decide (st = [])) as [->|Hn]; [done|].
  rewrite bool_decide_true by by apply below_join. cbn. by rewrite dirs_join.
Qed.

Section Walk.
Context (again : cstr → identity → outcome ((Z + path) * identity)) (again' : list cstr → list cstr → outcome (Z + list cstr)).
Let W := walk e flags h again (e_rootfd e) false false false.

Lemma walk_done st ca : W (join st) [] ca = as_path ca (Ret (inr st)).
Proof. done. Qed.

(** A component that is not a dot goes behind the path. *)
Lemma walk_word st w rest ca :
  clean w → w ≠ lit ".." → (length (dirs (st ++ [w])) ≤ LINUX_PATH_MAX)%nat →
  W (dirs st) (w :: rest) ca =
    match link_at (e_rootfd e) flags (bool_decide (rest = [])) (join (st ++ [w])) h with
    | Some t =>
        let name := if starts slash t then t ++ tail_of rest else dirs st ++ t ++ tail_of rest in
        if (LINUX_PATH_MAX <=? length (t ++ tail_of rest))%nat || (LINUX_PATH_MAX <=? length name)%nat then Stop Faulted
        else '(r, ca) ← again name ca; Ret (read_only false r, ca)
    | None =>
        let r := if bool_decide (rest ≠ []) && negb (cred_is_root (e_cred e))
                 then permit_at (e_cred e) (e_rootfd e) (join (st ++ [w])) false WANT_X false h else 0 in
        if r <? 0 then Ret (inl r, ca) else W (next (st ++ [w]) rest) rest ca
    end.
Proof.
  intros (Hp & Hn & Hd) Hdd Hf. unfold W at 1. cbn [walk].
  assert (dirs st ++ w ≠ []) as Hne by (destruct (dirs st), w; done).
  rewrite (proj2 (Nat.leb_gt LINUX_PATH_MAX (length (dirs st ++ w)))).
  2: { rewrite dirs_snoc, app_assoc, length_app in Hf. cbn in Hf. lia. }
  rewrite (bool_decide_false (w = [])) by done. cbn [andb]. unfold fold_dots.
  rewrite (bool_decide_false (w = lit ".")), (bool_decide_false (w = lit "..")) by done.
  rewrite next_word by done. rewrite dirpart_word by done. rewrite <- !dirs_word_join.
  rewrite (bool_decide_true (dirs st ++ w ≠ [])) by done. rewrite andb_true_r.
  assert (bool_decide (rest ≠ []) = negb (bool_decide (rest = []))) as -> by by destruct rest.
  done.
Qed.

Lemma removelast_snoc {A} (l : list A) x : removelast (l ++ [x]) = l.
Proof. by rewrite removelast_app, app_nil_r. Qed.

(** The directory above is one the walk has been through. *)
Lemma walk_up `{!HostFsLaws H} st rest ca :
  Forall clean st → lit ".." ∉ st → settled st → (length (dirs st) + 3 ≤ LINUX_PATH_MAX)%nat →
  W (dirs st) (lit ".." :: rest) ca = W (next (removelast st) rest) rest ca.
Proof.
  intros Hc Hd Hs Hf. pose proof (clean_below st Hc Hd) as Hb. unfold W at 1. cbn [walk].
  rewrite (proj2 (Nat.leb_gt LINUX_PATH_MAX _)) by (rewrite length_app; cbn [lit]; change (length (lit "..")) with 2%nat; lia).
  change (bool_decide (lit ".." = [])) with false. cbn [andb].
  assert (fold_dots e (e_rootfd e) h (dirs st) (lit "..") ca = (join (removelast st), ca)) as ->.
  { unfold fold_dots. change (bool_decide (lit ".." = lit ".")) with false. rewrite (bool_decide_true (lit ".." = lit "..")) by done.
    destruct st as [|v st _] using rev_ind.
    - change (dirs []) with (@nil ascii). unfold dir_is_rootfs. by rewrite Z.eqb_refl.
    - rewrite bool_decide_false by (rewrite dirs_snoc; by destruct (dirs st), v). rewrite removelast_snoc.
      destruct Hb as [Hp _ _]. apply Forall_app in Hp as [_ Hp]. rewrite Forall_singleton in Hp. by rewrite skip_word. }
  assert (below (removelast st) ∧ settled (removelast st)) as [Hb' Hs'].
  { destruct st as [|v st _] using rev_ind; [by split|]. rewrite removelast_snoc.
    split; [by eapply below_prefix|by eapply settled_prefix]. }
  assert (link_at (e_rootfd e) flags (bool_decide (rest = [])) (join (removelast st)) h = None) as ->.
  { apply link_at_settled. destruct (decide (removelast st = [])) as [->|Hn]; [unfold link_at; cbn; by rewrite readlink_empty|].
    apply (Hs' _ []); [by rewrite app_nil_r|done]. }
  rewrite next_join by done. case_match eqn:E; [|done]. exfalso. bool_to_prop.
  destruct (negb _ && _ && _) eqn:E'; [|done]. rewrite !andb_true_iff, !negb_true_iff, bool_decide_eq_true in E'.
  destruct E' as [[_ Hn] Hr]. destruct (Hs' (removelast st) []) as [_ Hp]; [by rewrite app_nil_r|by intros Ev; rewrite Ev in Hn|].
  specialize (Hp Hr). lia.
Qed.

(** Walking again what has been walked changes nothing. *)
Lemma walk_again b : ∀ a todo ca,
  Forall clean (a ++ b) → lit ".." ∉ a ++ b → settled (a ++ b) → todo ≠ [] →
  (length (dirs (a ++ b)) ≤ LINUX_PATH_MAX)%nat →
  W (dirs a) (b ++ todo) ca = W (dirs (a ++ b)) todo ca.
Proof.
  induction b as [|w b IH]; intros a todo ca Hc Hd Hs Hn Hf; [by rewrite app_nil_r|].
  pose proof (cons_middle w a b) as Em. rewrite Em in *. rewrite (app_assoc a) in *.
  rewrite <- app_comm_cons, walk_word.
  - destruct (Hs (a ++ [w]) b) as [Hl Hp]; [done|by destruct a|].
    rewrite (link_at_settled _ _ _ Hl). rewrite (bool_decide_true (b ++ todo ≠ [])) by by destruct b. cbn [andb].
    case_match eqn:E; [exfalso|].
    + bool_to_prop. destruct (cred_is_root (e_cred e)); cbn in E; [lia|]. specialize (Hp eq_refl). lia.
    + unfold next. rewrite bool_decide_false by by destruct b. by apply IH.
  - rewrite Forall_app in Hc. destruct Hc as [[_ Hw]%Forall_app _]. by rewrite Forall_singleton in Hw.
  - intros ->. apply Hd. rewrite !elem_of_app, list_elem_of_singleton. by left; right.
  - rewrite dirs_app, length_app in Hf. lia.
Qed.

Hypothesis again_below : ∀ st todo ca, todo ≠ [] → Forall clean (st ++ todo) → lit ".." ∉ st → settled st →
  (length (dirs (st ++ todo)) ≤ LINUX_PATH_MAX)%nat → again (join (st ++ todo)) ca = as_path ca (again' st todo).
Hypothesis again_root : ∀ todo ca, todo ≠ [] → Forall clean todo → rooted_name e (slash :: join todo) →
  (S (length (dirs todo)) ≤ LINUX_PATH_MAX)%nat → again (slash :: join todo) ca = as_path ca (again' [] todo).

Lemma as_path_again ca r : ('(r, ca) ← as_path ca r; Ret (read_only false r, ca)) = as_path ca r.
Proof. by destruct r as [[err|ws]|why]. Qed.

Lemma length_dirs_join ws : ws ≠ [] → length (dirs ws) = S (length (join ws)).
Proof. intros Hn. rewrite dirs_join by done. rewrite length_app. cbn. lia. Qed.

Lemma join_app_tail a b : a ≠ [] → join (a ++ b) = join a ++ tail_of b.
Proof. destruct a as [|w a]; [done|]. intros _. cbn. by rewrite tail_of_app, app_assoc. Qed.

Lemma dirs_join_tail st ts rest : ts ≠ [] → dirs st ++ join ts ++ tail_of rest = join (st ++ ts ++ rest).
Proof. destruct ts as [|t ts]; [done|]. intros _. cbn. rewrite <- app_assoc, <- tail_of_app. apply dirs_tail. Qed.

(** A link the walk meets is the link's words in its place. *)
Lemma walk_link st w rest t ca :
  clean_links → tame e h → Forall clean st → lit ".." ∉ st → Forall clean rest → settled st →
  link_at (e_rootfd e) flags (bool_decide (rest = [])) (join (st ++ [w])) h = Some t →
  (let name := if starts slash t then t ++ tail_of rest else dirs st ++ t ++ tail_of rest in
   if (LINUX_PATH_MAX <=? length (t ++ tail_of rest))%nat || (LINUX_PATH_MAX <=? length name)%nat then Stop Faulted
   else '(r, ca) ← again name ca; Ret (read_only false r, ca)) =
  as_path ca
    (let '(absolute, ts) := target_words t in
     let st := if absolute then [] else st in
     if (LINUX_PATH_MAX <=? (if absolute then 1 else 0) + length (join (st ++ ts ++ rest)))%nat then Stop Faulted
     else again' st (ts ++ rest)).
Proof.
  intros Hl Ht Hst Hdd Hrest Hs El. apply link_at_some in El as (s & Es & E & Hne & _).
  destruct (Hl _ _ Es) as [Hlen Hcl]. rewrite take_ge in E by done. subst t.
  destruct (link_words s) as [Hj Hja]. unfold target_words in *. destruct (starts slash s) eqn:Ea; cbn [snd] in Hcl; cbv zeta.
  - specialize (Hja Hne eq_refl). pose proof (words_nonempty (tail s)) as Hn.
    assert (s ++ tail_of rest = slash :: join (words (tail s) ++ rest)) as Hname.
    { rewrite <- Hja at 1. cbn. by rewrite join_app_tail. }
    rewrite Hname, orb_diag. cbn [length app Nat.add].
    destruct (LINUX_PATH_MAX <=? S (length (join (words (tail s) ++ rest))))%nat eqn:Ef; [done|]. apply Nat.leb_gt in Ef.
    rewrite again_root, as_path_again; [done|by destruct (words (tail s))|by apply Forall_app| |].
    + rewrite <- Hname. specialize (Ht _ _ _ rest Es Ea). by rewrite take_ge in Ht.
    + rewrite length_dirs_join by by destruct (words (tail s)). lia.
  - pose proof (words_nonempty s) as Hn.
    assert (dirs st ++ s ++ tail_of rest = join (st ++ words s ++ rest)) as Hname.
    { rewrite <- Hj at 1. by rewrite dirs_join_tail. }
    rewrite Hname. replace ((_ <=? length (s ++ tail_of rest))%nat || _) with (LINUX_PATH_MAX <=? length (join (st ++ words s ++ rest)))%nat.
    2: { rewrite <- Hname, (length_app (dirs st)). destruct (_ <=? length (s ++ _))%nat eqn:Ef; [|done]. cbn.
         apply Nat.leb_le in Ef. apply Nat.leb_le. lia. }
    cbn [Nat.add]. destruct (LINUX_PATH_MAX <=? length (join (st ++ words s ++ rest)))%nat eqn:Ef; [done|]. apply Nat.leb_gt in Ef.
    rewrite again_below, as_path_again; [done|by destruct (words s)|by rewrite !Forall_app|done|done|].
    rewrite length_dirs_join by (destruct st, (words s); done). lia.
Qed.

Lemma walk_follow `{!HostFsLaws H} : clean_links → tame e h → ∀ todo st ca,
  Forall clean st → lit ".." ∉ st → Forall clean todo → settled st → (length (dirs (st ++ todo)) ≤ LINUX_PATH_MAX)%nat →
  W (next st todo) todo ca = as_path ca (follow again' st todo).
Proof.
  intros Hl Ht todo. induction todo as [|w rest IH]; intros st ca Hst Hdd Htodo Hs Hf; [done|].
  apply Forall_cons in Htodo as [Hw Hrest]. unfold next. rewrite bool_decide_false by done. cbn [follow].
  rewrite dirs_app, dirs_cons, !length_app in Hf. cbn [length] in Hf. case_bool_decide as Ew.
  - subst w. rewrite walk_up; [|done|done|done|change (length (lit "..")) with 2%nat in Hf; lia].
    destruct st as [|v st _] using rev_ind.
    + apply IH; [done|done|done|done|]. cbn in *. lia.
    + rewrite removelast_snoc. rewrite dirs_app, length_app in Hf. apply Forall_app in Hst as [Hst _].
      apply IH; [done| |done|by eapply settled_prefix|rewrite dirs_app, length_app; lia].
      intros Hin. apply Hdd, elem_of_app. by left.
  - rewrite walk_word; [|done|done|rewrite dirs_snoc, !length_app; cbn; lia].
    destruct (link_at _ _ _ _ _) as [t|] eqn:El; [by eapply walk_link|].
    cbv zeta. match goal with |- context [?r <? 0] => destruct (r <? 0) eqn:E end; [done|].
    bool_to_prop. destruct (decide (rest = [])) as [->|Hn]; [done|].
    rewrite (bool_decide_false (rest = [])) in El by done. rewrite (bool_decide_true (rest ≠ [])) in E by done.
    apply IH; [apply Forall_app; split; [done|by apply Forall_singleton]| |done| |].
    + rewrite elem_of_app, list_elem_of_singleton. intros [?|?]; [by apply Hdd|by apply Ew].
    + apply settled_snoc; [done|by rewrite <- link_at_nonlast|]. intros Hr. rewrite Hr in E. cbn in E. lia.
    + rewrite <- app_assoc. cbn. rewrite dirs_app, dirs_cons, !length_app. cbn. lia.
Qed.
End Walk.

Lemma clean_starts ws : Forall clean ws → ws ≠ [] → starts slash (join ws) = false ∧ join ws ≠ [].
Proof.
  intros Hc Hn. destruct ws as [|w ws]; [done|]. apply Forall_cons in Hc as [(Hp & Hne & _) _].
  destruct w as [|c w]; [done|]. apply not_elem_of_cons in Hp as [Hp _]. split; [|done]. cbn. unfold starts. cbn.
  apply bool_decide_eq_false. by intros [= ->].
Qed.

(** Both ways into a resolution: below the root, behind what has been walked,
    and from the root. *)
Lemma resolve_namei `{!HostFsLaws H} fuel : clean_links → tame e h → ∀ loop,
  (∀ st todo ca, todo ≠ [] → Forall clean (st ++ todo) → lit ".." ∉ st → settled st →
    (length (dirs (st ++ todo)) ≤ LINUX_PATH_MAX)%nat →
    resolve_path fuel e h (e_rootfd e) (join (st ++ todo)) flags loop ca = as_path ca (namei fuel loop st todo)) ∧
  (∀ todo parent ca, todo ≠ [] → Forall clean todo → rooted_name e (slash :: join todo) →
    (S (length (dirs todo)) ≤ LINUX_PATH_MAX)%nat →
    resolve_path fuel e h parent (slash :: join todo) flags loop ca = as_path ca (namei fuel loop [] todo)).
Proof.
  intros Hl Ht. induction fuel as [|fuel IH]; intros loop; [done|].
  assert (∀ st todo ca, todo ≠ [] → Forall clean (st ++ todo) → lit ".." ∉ st → settled st →
    (length (dirs (st ++ todo)) ≤ LINUX_PATH_MAX)%nat →
    walk e flags h (λ n ca, resolve_path fuel e h (e_rootfd e) n flags (loop + 1) ca) (e_rootfd e) false false false
      [] (st ++ todo) ca = as_path ca (follow (namei fuel (loop + 1)) st todo)) as Hw.
  { intros st todo ca Hn Hc Hd Hs Hf. pose proof Hc as [Hst Htodo]%Forall_app. destruct (IH (loop + 1)) as [IH1 IH2].
    rewrite (walk_again _ st [] todo ca) by (try done; rewrite dirs_app, length_app in Hf; cbn [app]; lia). cbn [app].
    pose proof (walk_follow (λ n ca, resolve_path fuel e h (e_rootfd e) n flags (loop + 1) ca) (namei fuel (loop + 1))
      IH1 (λ t ca, IH2 t (e_rootfd e) ca) Hl Ht todo st ca Hst Hd Htodo Hs Hf) as E.
    unfold next in E. by rewrite bool_decide_false in E by done. }
  assert (∀ ws, Forall clean ws → ws ≠ [] → words (join ws) = ws) as Hwords.
  { intros ws Hc Hn. apply words_join; [done|]. eapply Forall_impl; [done|]. by intros w [? _]. }
  split; cbn [resolve_path namei]; destruct (loop >? LOOP_MAX); try done.
  - intros st todo ca Hn Hc Hd Hs Hf. destruct (clean_starts (st ++ todo)) as [Hsl Hne]; [done|by destruct st|].
    rewrite Hsl. cbv iota. rewrite bool_decide_false, Hsl by done. rewrite Hwords by (try done; by destruct st).
    by apply (Hw st todo ca).
  - intros todo parent ca Hn Hc Hr Hf. destruct (clean_starts todo) as [Hsl Hne]; [done|done|].
    change (starts slash (slash :: join todo)) with true. cbv iota. rewrite begin_rooted; [|by intros [= ?]|done].
    cbn [tail]. rewrite Hsl, bool_decide_false by done. rewrite Hwords by done.
    apply (Hw []); [done|done|apply not_elem_of_nil|apply settled_nil|cbn; lia].
Qed.
End Namei.

(** C10: nabi resolves a name by starting again, on a string, at each link. For
    an absolute name of the guest's own that fits, of non-empty components other
    than ".", in a file system whose links are such names too, this is one pass over
    the components with a stack of directories and the links expanded in
    place: the same directory or the same error. Both sides read links, check
    search permission and count expansions, up to nabi's twenty, in the same
    way. *)
Theorem resolve_path_is_namei `{!HostFsLaws H} e h dirfd flags ws ca :
  clean_links e h → tame e h → ws ≠ [] → Forall clean ws → rooted_name e (slash :: join ws) →
  (length (slash :: join ws) < LINUX_PATH_MAX)%nat →
  flags ∈ [0; LOOKUP_NOFOLLOW; LOOKUP_DIRECTORY; LOOKUP_NOFOLLOW + LOOKUP_DIRECTORY] →
  vfs_grab_dir e h dirfd (slash :: join ws) flags ca = as_path e ca (namei e h flags resolve_fuel 0 [] ws).
Proof.
  intros Hl Ht Hn Hc Hr Hf Hfl. unfold vfs_grab_dir.
  replace (Z.land flags _ =? 0) with true by (repeat (apply elem_of_cons in Hfl as [->|Hfl]; [done|]); by apply not_elem_of_nil in Hfl).
  cbn [negb]. rewrite bool_decide_false by done. change (starts slash (slash :: join ws)) with true. rewrite orb_true_r.
  destruct (resolve_namei e h flags resolve_fuel Hl Ht 0) as [_ E]. apply E; [done|done|done|].
  rewrite length_dirs_join by done. cbn in Hf. lia.
Qed.
End Proofs.

(** * A file system to resolve in *)

(** The links, by the descriptor and path they are asked at; what the
    descriptors are; and what is not there. *)
Record demo_fs := mk_fs { d_links : list (Z * cstr * cstr); d_ids : list (Z * (Z * Z)); d_absent : list cstr }.

Definition demo_link (fd : Z) (sub : cstr) (h : demo_fs) : option cstr :=
  if bool_decide (sub = []) then None
  else snd <$> head (filter (λ l, l.1.1 = fd ∧ l.1.2 = sub) (d_links h)).

#[export] Instance demo_host : HostFs demo_fs := {|
  h_readlinkat := demo_link;
  h_fstat fd h := snd <$> head (filter (λ i, i.1 = fd) (d_ids h));
  h_getpath fd h := if fd <? 0 then None else Some (lit "/img");
  h_fstatat _ p _ h := if bool_decide (p ∈ d_absent h) then inl ENOENT else inr (mk_stat 0x41ed 0 0);
|}.

#[export] Instance demo_host_laws : HostFsLaws demo_fs.
Proof. by split. Qed.

Definition demo_env (w : mounts) : env :=
  mk_env 60 1000 (mk_creds 1000 1000 1000 1000 1000 1000 []) [false; false] w None (λ _, PROCFS_OTHER) [] None None.
Definition no_mounts : mounts := mk_mounts 7 ∅ 0 true.

Definition one_tree : demo_fs :=
  mk_fs [(60, lit "lib", lit "usr/lib"); (60, lit "usr/lib/up", lit "../../etc"); (60, lit "var", lit "/mnt/var")] [(60, (1, 2)); (5, (1, 2))] [].

Lemma one_tree_links fd sub t : h_readlinkat fd sub one_tree = Some t → t ∈ [lit "usr/lib"; lit "../../etc"; lit "/mnt/var"].
Proof.
  cbn. unfold demo_link. case_bool_decide; [done|]. unfold one_tree. cbn [d_links]. intros (l & Hl & ->)%fmap_Some.
  apply head_Some_elem_of, list_elem_of_filter in Hl as [_ Hl].
  repeat (apply elem_of_cons in Hl as [->|Hl]; [cbn; set_solver|]). by apply not_elem_of_nil in Hl.
Qed.

Lemma one_tree_tame : tame (demo_env no_mounts) one_tree.
Proof.
  intros fd sub t rest E Hs. apply one_tree_links in E.
  apply elem_of_cons in E as [->|[->|[->|E%not_elem_of_nil]%elem_of_cons]%elem_of_cons]; [done|done| |done].
  right. split_and!; [|done|done]. vm_compute. reflexivity.
Qed.

Lemma one_tree_clean : clean_links (demo_env no_mounts) one_tree.
Proof.
  intros sub t E. apply one_tree_links in E. unfold clean, plain.
  repeat (apply elem_of_cons in E as [->|E]; [split; [apply (bool_decide_unpack _); vm_compute; exact I|]|]); [..|by apply not_elem_of_nil in E].
  all: apply (bool_decide_unpack _); vm_compute; exact I.
Qed.

(** From a descriptor the guest has on its own root. *)
Lemma guest_paths_stay_in_root_witness :
  stays (demo_env no_mounts) one_tree (vfs_grab_dir (demo_env no_mounts) one_tree 5 (lit "./../lib/up/..//../passwd") 0 None).
Proof.
  apply (guest_paths_stay_in_root (demo_env no_mounts) one_tree 5 (lit "./../lib/up/..//../passwd") 0 None one_tree_tame); [by left|].
  split; [right; split; [done|by exists (1, 2)]|done].
Defined.

Lemma resolve_path_is_namei_witness :
  vfs_grab_dir (demo_env no_mounts) one_tree 5 (lit "/var/../../lib/up/passwd") 0 None =
    as_path (demo_env no_mounts) None (namei (demo_env no_mounts) one_tree 0 resolve_fuel 0 [] (words (lit "var/../../lib/up/passwd"))) ∧
  vfs_grab_dir (demo_env no_mounts) one_tree 5 (lit "/var/../../lib/up/passwd") 0 None = Ret (inr (mk_path 60 (lit "etc/passwd") false), None).
Proof.
  split; [|vm_compute; reflexivity].
  apply (resolve_path_is_namei (demo_env no_mounts) one_tree 5 0 (words (lit "var/../../lib/up/passwd")) None one_tree_clean one_tree_tame).
  - done.
  - unfold clean, plain. apply (bool_decide_unpack _). vm_compute. exact I.
  - right. split_and!; [vm_compute; reflexivity|done|done].
  - apply Nat.ltb_lt. vm_compute. reflexivity.
  - left.
Defined.

(** * What resolution gets wrong *)

Definition root_env (w : mounts) : env :=
  mk_env 60 1000 (mk_creds 0 0 0 0 0 0 []) [false; false] w None (λ _, PROCFS_OTHER) [] None None.
Definition plain_tree : demo_fs := mk_fs [(60, lit "self", lit "/"); (AT_FDCWD, lit "/var", lit "private/var")] [(60, (1, 2))] [].
Definition grab (name : string) : outcome ((Z + path) * identity) :=
  vfs_grab_dir (root_env no_mounts) plain_tree LINUX_AT_FDCWD (lit name) 0 None.

(** One of two leading slashes is taken off and the other makes the path the
    host's: the guest's root is not in it. *)
Example double_slash_leaves_root : grab "//etc/passwd" = Ret (inr (mk_path 60 (lit "/etc/passwd") false), None).
Proof. vm_compute. reflexivity. Qed.

(** A link to the root is expanded to such a name. *)
Example link_to_root_leaves_it : grab "/self/etc/passwd" = Ret (inr (mk_path 60 (lit "/etc/passwd") false), None).
Proof. vm_compute. reflexivity. Qed.

(** The names given to the host climb out of what is given to it. *)
Example passthrough_climbs : grab "/tmp/../etc/passwd" = Ret (inr (mk_path AT_FDCWD (lit "/etc/passwd") false), None).
Proof. vm_compute. reflexivity. Qed.

(** And where such a name climbs to the top it is the working directory. *)
Example passthrough_top_is_cwd : grab "/tmp/.." = Ret (inr (mk_path AT_FDCWD (lit ".") false), None).
Proof. vm_compute. reflexivity. Qed.

(** An empty component, or ".", is what the next ".." takes off. *)
Example dotdot_takes_an_empty_component :
  grab "/usr/lib/./.." = Ret (inr (mk_path 60 (lit "usr/lib") false), None) ∧
  grab "/usr/lib//.." = Ret (inr (mk_path 60 (lit "usr/lib") false), None) ∧
  grab "/usr/lib/.." = Ret (inr (mk_path 60 (lit "usr") false), None).
Proof. split_and!; vm_compute; reflexivity. Qed.

(** Nobody looks whether a component that is passed through is there. *)
Example missing_component_is_passed :
  let fs := mk_fs [] [] [lit "nowhere"] in
  h_fstatat 60 (lit "nowhere") false fs = inl ENOENT ∧
  vfs_grab_dir (root_env no_mounts) fs LINUX_AT_FDCWD (lit "/nowhere/../etc") 0 None = Ret (inr (mk_path 60 (lit "etc") false), None).
Proof. split; vm_compute; reflexivity. Qed.

(** A chain of twenty-one links is too long; Linux follows forty. *)
Example twenty_one_links_loop :
  let name n : cstr := replicate n "l"%char in
  let fs := mk_fs ((λ n, (60, name n, name (S n))) <$> seq 1 21) [] [] in
  vfs_grab_dir (root_env no_mounts) fs LINUX_AT_FDCWD (slash :: name 1%nat) 0 None = Ret (inl (- ELOOP), None) ∧
  vfs_grab_dir (root_env no_mounts) fs LINUX_AT_FDCWD (slash :: name 2%nat) 0 None = Ret (inr (mk_path 60 (name 22%nat) false), None).
Proof. split; vm_compute; reflexivity. Qed.

(** Relative to the working directory, the second ".." takes off the first. *)
Example two_up_is_here : grab "../.." = Ret (inr (mk_path AT_FDCWD (lit ".") false), None).
Proof. vm_compute. reflexivity. Qed.

(** A read-only mount whose directory is reached over a link is written to. *)
Example read_only_lost_over_link :
  let w := demo_mounts [mk_entry (lit "none") (lit "/ro") (lit "none") (lit "/var/ro") [] (Z.lor LINUX_MS_BIND LINUX_MS_RDONLY) 30 0 0 0] in
  mount_is_rdonly (lit "/ro/f") w = true ∧
  vfs_grab_dir_w (root_env w) plain_tree LINUX_AT_FDCWD (lit "/ro/f") 0 true None =
    Ret (inr (mk_path AT_FDCWD (lit "/private/var/ro/f") false), None).
Proof. split; vm_compute; reflexivity. Qed.

(** A long name through a link is written past the end of its buffer. *)
Example long_name_over_link_overflows :
  let name := lit "/" ++ lit "l/" ++ replicate 4000 "a"%char in
  let fs := mk_fs [(60, lit "l", replicate 200 "b"%char)] [] [] in
  (length name < LINUX_PATH_MAX)%nat ∧
  vfs_grab_dir (root_env no_mounts) fs LINUX_AT_FDCWD name 0 None = Stop Faulted.
Proof. split; [apply Nat.ltb_lt|]; vm_compute; reflexivity. Qed.

(** Names too long for the host's are cut in a mount, and meet. *)
Example long_names_in_mount_meet :
  let name n := lit "/m/" ++ replicate n "a"%char in
  mount_resolve (name 1100%nat) PATH_MAX (demo_mounts [bind_on "/m" "/h" 30]) =
  mount_resolve (name 1200%nat) PATH_MAX (demo_mounts [bind_on "/m" "/h" 30]).
Proof. vm_compute. reflexivity. Qed.

(** The host's name of a relative one is never found: the working directory
    has no descriptor to be asked for its path. *)
Example relative_host_path_fails :
  guest_to_host_path (root_env no_mounts) plain_tree (lit "sub/dir") PATH_MAX None = Ret (inl (- ENOENT), None) ∧
  guest_to_host_path (root_env no_mounts) plain_tree (lit "/sub/dir") PATH_MAX None = Ret (inr (lit "/img/sub/dir"), None).
Proof. split; vm_compute; reflexivity. Qed.

(** A pty's number wraps at 32 bits. *)
Example devpts_number_wraps : devpts_to_host (lit "/dev/pts/4294967301") = Some (lit "/dev/ttys005").
Proof. vm_compute. reflexivity. Qed.

(** A file of nabi's /sys that is there is not opened to write. *)
Example sysfs_write_refused :
  let e := mk_env 60 1000 (mk_creds 0 0 0 0 0 0 []) [false; false] no_mounts None (λ _, PROCFS_OTHER) [] None (Some (lit "/tmp/nabi-sysfs")) in
  let file := lit "/sys/kernel/mm/transparent_hugepage/enabled" in
  is_ret (vfs_grab_dir e plain_tree LINUX_AT_FDCWD file 0 None) = true ∧
  vfs_grab_dir_w e plain_tree LINUX_AT_FDCWD file 0 false None = Ret (inl (- EROFS), None).
Proof. split; vm_compute; reflexivity. Qed.

(** * Where nothing is written *)

Section ReadOnly.
Context {H : Type} `{HF : HostFs H}.
Implicit Types (e : env) (h : H).

Definition read_only_result (r : outcome ((Z + path) * identity)) : Prop :=
  match r with Ret (inr p, _) => p_rdonly p = true | _ => True end.

Lemma walk_sysfs e flags h again fd leading rdonly todo : ∀ sub ca,
  read_only_result (walk e flags h again fd leading rdonly true sub todo ca).
Proof.
  induction todo as [|w rest IH]; intros sub ca; cbn [walk]; [apply orb_true_r|].
  destruct (LINUX_PATH_MAX <=? _)%nat; [done|]. destruct (bool_decide (w = []) && _); [apply orb_true_r|].
  destruct (fold_dots _ _ _ _ _ _) as [sub' ca']. destruct (link_at _ _ _ _ _) as [t|].
  - destruct ((LINUX_PATH_MAX <=? _)%nat || _); [done|]. destruct (again _ ca') as [[[err|p] ca'']|why]; [done| |done].
    cbn. apply orb_true_r.
  - destruct (_ <? 0); [done|]. apply IH.
Qed.

(** Nothing that is spelled with these components is a link. *)
Definition linkless h (fd : Z) (ws : list cstr) : Prop :=
  ∀ us, (∀ u, u ∈ us → u = [] ∨ u ∈ ws) → h_readlinkat fd (join us) h = None.

Lemma fold_spelled e fd h (P : cstr → Prop) us w ca :
  (∀ u, u ∈ us → P u) → Forall plain us → P [] → P w → plain w →
  ∃ vs ca', fold_dots e fd h (dirs us) w ca = (join vs, ca') ∧ (∀ u, u ∈ vs → P u) ∧ Forall plain vs.
Proof.
  intros Hu Hp He Hw Hpw. unfold fold_dots.
  assert (∀ v, P v → plain v → (∀ u, u ∈ us ++ [v] → P u) ∧ Forall plain (us ++ [v])) as Hsnoc.
  { intros v Hv Hpv. split; [|by apply Forall_app; split; [|apply Forall_singleton]].
    intros u [?|Hx]%elem_of_app; [auto|]. apply list_elem_of_singleton in Hx. by subst u. }
  case_bool_decide as E1.
  { exists (us ++ [[]]), ca. split; [by rewrite <- dirs_word_join, app_nil_r|]. apply Hsnoc; [done|apply not_elem_of_nil]. }
  case_bool_decide as E2; [|exists (us ++ [w]), ca; rewrite dirs_word_join; auto].
  destruct us as [|v us _] using rev_ind.
  - rewrite bool_decide_true by done. destruct (dir_is_rootfs e fd h ca) as [b ca']. destruct b.
    + exists [], ca'. split_and!; [done|by intros u ?%elem_of_nil|done].
    + exists [w], ca'. split_and!; [cbn; by rewrite app_nil_r|by intros u Hx; apply list_elem_of_singleton in Hx; subst u|by apply Forall_singleton].
  - rewrite bool_decide_false by (rewrite dirs_snoc; by destruct (dirs us), v).
    apply Forall_app in Hp as [Hp Hv]. rewrite Forall_singleton in Hv. rewrite skip_word by done.
    exists us, ca. split_and!; [done| |done]. intros u Hin. apply Hu, elem_of_app. by left.
Qed.

Lemma next_spelled (leading : bool) vs (ws : list cstr) :
  (∀ u, u ∈ vs → u = [] ∨ u ∈ ws) → Forall plain vs →
  ∃ us, (if bool_decide (join vs ≠ []) || leading then join vs ++ [slash] else join vs) = dirs us ∧
    (∀ u, u ∈ us → u = [] ∨ u ∈ ws) ∧ Forall plain us.
Proof.
  intros Hv Hp. destruct (_ || _) eqn:E.
  - destruct (decide (vs = [])) as [->|Hn]; [|exists vs; by rewrite dirs_join].
    exists [[]]. split_and!; [done|intros u Hx; left; by apply list_elem_of_singleton in Hx|apply Forall_singleton, not_elem_of_nil].
  - apply orb_false_iff in E as [E _]. apply bool_decide_eq_false, dec_stable in E. rewrite E.
    exists []. split_and!; [done|by intros u ?%elem_of_nil|done].
Qed.

Lemma walk_linkless e flags h again fd leading rdonly sysfs ws todo : linkless h fd ws → rdonly || sysfs = true →
  (∀ w, w ∈ todo → w ∈ ws) → Forall plain todo → ∀ us ca, (∀ u, u ∈ us → u = [] ∨ u ∈ ws) → Forall plain us →
  read_only_result (walk e flags h again fd leading rdonly sysfs (dirs us) todo ca).
Proof.
  intros Hl Hr. induction todo as [|w rest IH]; intros Htd Hpl us ca Hus Hpu; cbn [walk]; [done|].
  apply Forall_cons in Hpl as [Hpw Hpl]. assert (∀ x, x ∈ rest → x ∈ ws) as Hrest by (intros x Hx; apply Htd; by right).
  destruct (LINUX_PATH_MAX <=? _)%nat; [done|]. destruct (bool_decide (w = []) && _); [done|].
  destruct (fold_spelled e fd h (λ u, u = [] ∨ u ∈ ws) us w ca) as (vs & ca' & -> & Hvs & Hpv);
    [done|done|by left|right; apply Htd; left|done|].
  unfold link_at. rewrite (Hl vs Hvs). destruct (negb (has flags LOOKUP_NOFOLLOW) || _); (destruct (_ <? 0); [done|]).
  all: destruct rest as [|x rest]; [done|]; rewrite bool_decide_false by done; cbn [negb andb].
  all: destruct (next_spelled leading vs ws Hvs Hpv) as (us' & -> & Hu' & Hp'); by apply IH.
Qed.

(** A name of nabi's part of /sys, where nothing is mounted; or one in a
    read-only mount, when nothing spelled with the components of the host's
    name for it is a link. *)
Definition closed_name e h (name : cstr) : Prop :=
  name ≠ lit "/" ∧ procfs_pidns_path e name PATH_MAX = None ∧ procfs_exe_path e name LINUX_PATH_MAX = None ∧
  devpts_to_host name = None ∧
  match mount_resolve name PATH_MAX (e_mounts e) with
  | Some (n, rdonly) => rdonly = true ∧ linkless h AT_FDCWD (words (default n (devpts_to_host n)))
  | None => cgroupfs_to_host e name PATH_MAX = None ∧ is_Some (sysfs_to_host e name PATH_MAX)
  end.

(** C25: a name in nabi's part of /sys, whatever links the resolution follows,
    and a name in a read-only mount on whose way there is no link, is never
    resolved to write through: where resolving it to read finds a file, the
    answer is ENOENT when what the operation needs is not there, the directory
    for one that creates and the name for any other, and EROFS when it is. So
    an existing file of nabi's /sys cannot be opened to write, though a comment
    says it can. *)
Theorem closed_names_refuse_writes e h dirfd name flags creating ca :
  starts slash name = true → closed_name e h name →
  vfs_grab_dir_w e h dirfd name flags creating ca =
    match vfs_grab_dir e h dirfd name flags ca with
    | Ret (inr p, ca') => Ret (inl (if missing p creating h then - ENOENT else - EROFS), ca')
    | r => r
    end.
Proof.
  intros Hs (Hr & Hp & Hx & Hd & Hm). unfold vfs_grab_dir_w.
  assert (read_only_result (vfs_grab_dir e h dirfd name flags ca)) as Hro.
  { unfold vfs_grab_dir. destruct (negb _); [done|]. case_bool_decide; [done|]. rewrite Hs, orb_true_r.
    unfold resolve_fuel. cbn [resolve_path]. destruct (0 >? LOOP_MAX); [done|]. rewrite Hs.
    unfold begin_walk. rewrite bool_decide_false, Hp, Hx by done. cbn [default from_option]. unfold id. rewrite Hd.
    destruct (mount_resolve name PATH_MAX (e_mounts e)) as [[n ro]|].
    - destruct Hm as [-> Hl]. case_bool_decide; [done|].
      apply (walk_linkless e flags h _ AT_FDCWD _ true false (words _) (words _) Hl eq_refl (λ w Hw, Hw) (words_plain _) []); [|done].
      by intros u ?%elem_of_nil.
    - destruct Hm as [-> [n ->]]. case_bool_decide; [done|]. apply walk_sysfs. }
  destruct (vfs_grab_dir e h dirfd name flags ca) as [[[err|p] c]|why]; cbn in *; [done|by rewrite Hro|done].
Qed.
End ReadOnly.

Definition sys_env : env :=
  mk_env 60 1000 (mk_creds 0 0 0 0 0 0 []) [false; false] no_mounts None (λ _, PROCFS_OTHER) [] None (Some (lit "/tmp/nabi-sysfs")).
Definition sys_tree : demo_fs := mk_fs [(AT_FDCWD, lit "/tmp", lit "private/tmp")] [] [].

(** A guest with a read-only mount. *)
Definition ro_mounts : mounts := demo_mounts [mk_entry (lit "none") (lit "/ro") (lit "none") (lit "/Users/ro") [] (Z.lor LINUX_MS_BIND LINUX_MS_RDONLY) 30 0 0 0].

Lemma sys_tree_linkless : linkless sys_tree AT_FDCWD (words (lit "/Users/ro/f")).
Proof.
  intros us Hu. cbn. unfold demo_link. case_bool_decide; [done|]. cbn [sys_tree d_links].
  rewrite filter_cons_False; [done|]. cbn. intros [_ E].
  assert (lit "tmp" ∈ us) as Hin.
  { assert (join us = join [[]; lit "tmp"]) as E' by done.
    apply (f_equal words) in E'. rewrite words_join in E'; [rewrite E'; right; left|..].
    - by intros ->.
    - apply Forall_forall. intros u [->|Hw]%Hu; [apply not_elem_of_nil|]. by eapply Forall_forall in Hw; [|apply words_plain]. }
  apply Hu in Hin as [?|Hin]; [done|]. apply (bool_decide_eq_true_2 _) in Hin. vm_compute in Hin. discriminate Hin.
Qed.

Lemma closed_names_refuse_writes_witness :
  vfs_grab_dir_w sys_env sys_tree LINUX_AT_FDCWD (lit "/sys/power/state") 0 true None = Ret (inl (- EROFS), None) ∧
  vfs_grab_dir_w (root_env ro_mounts) sys_tree LINUX_AT_FDCWD (lit "/ro/f") 0 true None = Ret (inl (- EROFS), None).
Proof.
  split.
  - rewrite (closed_names_refuse_writes sys_env sys_tree LINUX_AT_FDCWD (lit "/sys/power/state") 0 true None); [vm_compute; reflexivity|done|].
    split_and!; [done|done|done|done|]. change (mount_resolve _ _ _) with (@None (cstr * bool)). split; [done|]. by eexists.
  - rewrite (closed_names_refuse_writes (root_env ro_mounts) sys_tree LINUX_AT_FDCWD (lit "/ro/f") 0 true None); [vm_compute; reflexivity|done|].
    split_and!; [done|done|done|done|]. change (mount_resolve _ _ _) with (Some (lit "/Users/ro/f", true)). split; [done|exact sys_tree_linkless].
Defined.

(** * The names of ptys *)

Lemma pretty_digit x : (x < 10)%N → is_digit (pretty_N_char x) = true ∧ Z.of_nat (nat_of_ascii (pretty_N_char x)) - 48 = Z.of_N x.
Proof. intros Hx. destruct x as [|p]; [done|]. do 4 (destruct p as [p|p|]; try done; try lia). Qed.

Lemma digits_pretty x : ∀ s, digits (lit (pretty_N_go x s)) 0 = digits (lit s) (Z.of_N x).
Proof.
  induction (N.lt_wf_0 x) as [x _ IH]. intros s. assert (x = 0 ∨ 0 < x)%N as [->|Hx] by lia; [by rewrite pretty_N_go_0|].
  rewrite pretty_N_go_step by done. rewrite IH by (apply N.div_lt; lia). cbn [lit String.list_ascii_of_string digits].
  destruct (pretty_digit (x `mod` 10)) as [-> ->]; [by apply N.mod_lt|]. f_equal.
  rewrite (N.div_mod x 10) at 3 by done. lia.
Qed.

Lemma length_pretty k : ∀ x s, (x < 10 ^ N.of_nat k)%N → (length (lit (pretty_N_go x s)) ≤ k + length (lit s))%nat.
Proof.
  induction k as [|k IH]; intros x s Hx; assert (x = 0 ∨ 0 < x)%N as [->|Hp] by lia; try (rewrite pretty_N_go_0; lia).
  - cbn in Hx. lia.
  - rewrite pretty_N_go_step by done. etransitivity; [apply IH|unfold lit; cbn [String.list_ascii_of_string length]; lia].
    apply N.Div0.div_lt_upper_bound. rewrite <- N.pow_succ_r'. by rewrite <- Nat2N.inj_succ.
Qed.

Lemma decimal_go n : 0 ≤ n → digits (decimal n) 0 = (n, []) ∧ decimal n ≠ [] ∧ (n < 2^32 → (length (decimal n) ≤ 10)%nat) ∧
  match decimal n with [] => False | c :: _ => is_digit c = true end.
Proof.
  intros Hn. unfold decimal, pretty, pretty_N. case_decide as E.
  { assert (n = 0) as -> by lia. split_and!; [done|done|cbn; lia|done]. }
  pose proof (digits_pretty (Z.to_N n) "") as Hd. change (digits (lit "") ?z) with (z, @nil ascii) in Hd.
  rewrite Z2N.id in Hd by done. split_and!; [done| | |].
  - intros El. rewrite El in Hd. cbn in Hd. injection Hd as Hd. lia.
  - intros Hl. apply (length_pretty 10 (Z.to_N n) ""). cbn. lia.
  - destruct (lit (pretty_N_go (Z.to_N n) "")) as [|c l]; cbn in Hd; [injection Hd as Hd; lia|].
    destruct (is_digit c); [done|]. injection Hd as Hd _. lia.
Qed.

Lemma digits_zeros k s : digits (replicate k "0"%char ++ s) 0 = digits s 0.
Proof. by induction k as [|k IH]. Qed.

(** The slave a guest is told of by its number is the one it then opens:
    the host's name of /dev/pts/n has the number n. *)
Theorem pty_names_roundtrip n : 0 ≤ n < 2^32 →
  ∃ host, devpts_to_host (lit "/dev/pts/" ++ decimal n) = Some host ∧ devpts_number_of host = Some n.
Proof.
  intros Hn. destruct (decimal_go n) as (Hd & Hne & Hl & Hc); [lia|]. specialize (Hl ltac:(lia)).
  exists (lit "/dev/ttys" ++ pad3 (decimal n)). unfold devpts_to_host, devpts_number_of.
  assert (∀ p q : cstr, length p = 9%nat → strncmp (p ++ q) p 9 = true ∧ drop 9 (p ++ q) = q) as Hpre.
  { intros p q Hp. unfold strncmp. rewrite <- Hp, take_app_length, drop_app_length, firstn_all. by rewrite bool_decide_true. }
  destruct (Hpre (lit "/dev/pts/") (decimal n) eq_refl) as [-> ->].
  destruct (Hpre (lit "/dev/ttys") (pad3 (decimal n)) eq_refl) as [-> ->]. cbn [negb].
  assert (digits (pad3 (decimal n)) 0 = (n, [])) as -> by (unfold pad3; by rewrite digits_zeros).
  assert (match pad3 (decimal n) with [] => False | c :: _ => is_digit c = true end) as Hp.
  { unfold pad3. by destruct (3 - length (decimal n))%nat. }
  rewrite Hd. destruct (decimal n) as [|c l] eqn:El; [done|]. rewrite Hc. rewrite <- El in *. cbn [negb].
  rewrite bool_decide_true by done. rewrite u32_small by lia. split.
  - f_equal. unfold snprintf. apply take_ge. unfold pad3. rewrite !length_app, length_replicate. cbn [length lit]. change (length (lit "/dev/ttys")) with 9%nat. lia.
  - destruct (pad3 (decimal n)); [done|]. by rewrite Hp.
Qed.

Lemma pty_names_roundtrip_witness : ∃ host, devpts_to_host (lit "/dev/pts/7") = Some host ∧ devpts_number_of host = Some 7.
Proof. exact (pty_names_roundtrip 7 ltac:(lia)). Defined.

(** * The name of a file below a descriptor *)

(** abs_path_at, with the directory it keeps from the last time; [cwd] is what
    getcwd says. *)
Definition abs_path_at (getpath : Z → option cstr) (cwd : option cstr) (dirfd : Z) (rel : cstr) (len : nat) (cached : option (Z * cstr)) :
    option cstr * option (Z * cstr) :=
  let fits (s : cstr) := if (length s <? len)%nat then Some s else None in
  if starts slash rel then (fits rel, cached)
  else if dirfd =? AT_FDCWD then (cwd ← cwd; fits (cwd ++ slash :: rel), cached)
  else
    let dir :=
      match cached with
      | Some (fd, p) => if fd =? dirfd then Some p else getpath dirfd
      | None => getpath dirfd
      end in
    match dir with
    | None => (None, None)
    | Some p => (fits (p ++ slash :: rel), Some (dirfd, p))
    end.

(** The directory is kept by its number: once the number is another
    directory's, owners and modes are read in the old one. *)
Example stale_directory :
  let '(first, cached) := abs_path_at (λ _, Some (lit "/img/own")) None 5 (lit "f") PATH_MAX None in
  first = Some (lit "/img/own/f") ∧
  (abs_path_at (λ _, Some (lit "/img/etc")) None 5 (lit "shadow") PATH_MAX cached).1 = Some (lit "/img/own/shadow").
Proof. vm_compute. done. Qed.
