(* ===== verification/Mounts.v ===== *)
(** The mount calls, src/fs/mount.c: mount, umount2 and mount_setattr over the
    tables of MountTable.v, what backs a file system of each type, and how a
    mount made in one namespace reaches the others. *)

From S2P Require Import Prelude Names MountTable Paths.

Definition MS_KNOWN : Z :=
  foldr Z.lor 0 [LINUX_MS_RDONLY; LINUX_MS_NOSUID; LINUX_MS_NODEV; LINUX_MS_NOEXEC; LINUX_MS_REMOUNT; LINUX_MS_BIND; LINUX_MS_MOVE;
    LINUX_MS_REC; LINUX_MS_SILENT; LINUX_MS_NOATIME; LINUX_MS_NODIRATIME; LINUX_MS_RELATIME; LINUX_MS_STRICTATIME;
    LINUX_MS_PRIVATE; LINUX_MS_SHARED; LINUX_MS_SLAVE; LINUX_MS_UNBINDABLE].

(** * Around it *)

(** What the calls ask of the host and of other parts of nabi: making a
    directory from a template, its mode, the umask, creating and removing,
    whether a path is there (or the error), a control group's hierarchy, the
    file of a loop device, attaching an image and detaching it, and the binder
    devices. Errors are Linux numbers. *)
Class MountHost (H : Type) := {
  h_tmpdir : H → cstr;
  h_mkdtemp : cstr → H → (Z + cstr) * H;
  h_chmod : cstr → Z → H → H;
  h_umask : H → Z;
  h_create : cstr → H → option Z * H;
  h_rmdir : cstr → H → H;
  h_rmtree : cstr → H → H;
  h_stat : cstr → H → option Z;
  h_cgroup : option cstr → H → (Z + cstr) * H;
  h_loop : cstr → H → option cstr;
  h_image_mount : cstr → H → (Z + cstr * cstr) * H;
  h_image_unmount : cstr → cstr → H → bool * H;
  h_binder_emulated : H → bool;
  h_binder_nodes : cstr → H → H;
}.

(** A path that is not there has an error. *)
Class MountHostLaws (H : Type) `{MountHost H} := {
  stat_error p h err : h_stat p h = Some err → 0 < err;
}.

(** A string argument: no pointer, one that cannot be read, or the string. *)
Inductive gstr := Null | Unreadable | Str (s : cstr).

Inductive got := Missing | Fault | Got (s : cstr).

(** strncpy_from_user into a buffer of [size] bytes. A string that fills it is
    left without its NUL, and what reads it runs on. *)
Definition get_str (size : nat) (a : gstr) : outcome got :=
  match a with
  | Null => Ret Missing
  | Unreadable => Ret Fault
  | Str s => if (length s <? size)%nat then Ret (Got s) else Stop Faulted
  end.

Record st (H : Type) := mk_st { s_env : env; s_ident : identity; s_host : H }.
Arguments mk_st {H}. Arguments s_env {H}. Arguments s_ident {H}. Arguments s_host {H}.

Definition with_mounts (w : mounts) (e : env) : env :=
  mk_env (e_rootfd e) (e_vkern e) (e_cred e) (e_live e) w (e_pidns e) (e_procfs e) (e_exe e) (e_cgroup e) (e_sysfs e).

Definition s_mounts {H} (s : st H) : mounts := e_mounts (s_env s).
Definition set_mounts {H} (w : mounts) (s : st H) : st H := mk_st (with_mounts w (s_env s)) (s_ident s) (s_host s).
Definition set_host {H} (h : H) (s : st H) : st H := mk_st (s_env s) (s_ident s) h.

Definition may_mount (c : creds) : bool := c_euid c =? 0.

(** * Options *)

(** The octal number strtol reads, if there is one. *)
Fixpoint octal (s : cstr) (n : Z) : Z :=
  match s with
  | c :: s => let d := Z.of_nat (nat_of_ascii c) - 48 in if (0 <=? d) && (d <=? 7) then octal s (n * 8 + d) else n
  | [] => n
  end.
Definition is_space (c : ascii) : bool := let n := nat_of_ascii c in (n =? 32)%nat || ((9 <=? n)%nat && (n <=? 13)%nat).
Fixpoint skip_spaces (s : cstr) : cstr := match s with c :: s' => if is_space c then skip_spaces s' else s | [] => [] end.
Definition strtol8 (s : cstr) : option Z :=
  let s := skip_spaces s in
  let '(neg, s) := match s with
                   | c :: s' => if bool_decide (c = "-"%char) then (true, s') else if bool_decide (c = "+"%char) then (false, s') else (false, s)
                   | [] => (false, [])
                   end in
  match s with
  | c :: _ => let d := Z.of_nat (nat_of_ascii c) - 48 in
              if (0 <=? d) && (d <=? 7) then Some (if neg then - octal s 0 else octal s 0) else None
  | [] => None
  end.

(** The text after the next comma, if there is one. *)
Fixpoint after_comma (s : cstr) : option cstr :=
  match s with c :: s => if bool_decide (c = ","%char) then Some s else after_comma s | [] => None end.

(** The loop of tmpfs_mode; the options are at most as many as characters. *)
Fixpoint mode_loop (fuel : nat) (p : cstr) : option Z :=
  match fuel with
  | O => None
  | S fuel =>
      if bool_decide (p = []) then None
      else
        match (if strncmp p (lit "mode=") 5 then strtol8 (drop 5 p) else None) with
        | Some v => if (0 <=? v) && (v <=? 0xfff) then Some v else from_option (mode_loop fuel) None (after_comma p)
        | None => from_option (mode_loop fuel) None (after_comma p)
        end
  end.

Definition tmpfs_mode (data : cstr) (umask : Z) : Z :=
  match mode_loop (S (length data)) data with
  | Some v => v
  | None => Z.land 0x1ff (Z.lnot umask)
  end.

Definition name_char (c : ascii) : bool :=
  let n := nat_of_ascii c in
  ((97 <=? n)%nat && (n <=? 122)%nat) || ((65 <=? n)%nat && (n <=? 90)%nat) || is_digit c || (n =? 95)%nat.

Definition cgroup_ctrl_name_ok (s : cstr) : bool :=
  negb (bool_decide (s = [])) && forallb name_char s && (length s <=? 31)%nat.

Fixpoint until_comma (s : cstr) : cstr :=
  match s with c :: s => if bool_decide (c = ","%char) then [] else c :: until_comma s | [] => [] end.

(** The controller a version-one mount is for: the option's, or what fsconfig
    was told, or the mount point's last component. *)
Definition controller (type : cstr) (data hint target : option cstr) : cstr :=
  if strcmp type (lit "cgroup2") then []
  else
    let named := match (if strcmp type (lit "cpuset") then Some (lit "cpuset") else data) with
                 | Some from => let c := take 31 (until_comma from) in if cgroup_ctrl_name_ok c then c else []
                 | None => []
                 end in
    let hinted := if bool_decide (named = []) then
                    match hint with Some n => if cgroup_ctrl_name_ok n then snprintf 32 n else named | None => named end
                  else named in
    if bool_decide (hinted = []) then
      match target with
      | Some t => let b := drop (length (dirpart t)) t in if cgroup_ctrl_name_ok b then snprintf 32 b else hinted
      | None => hinted
      end
    else hinted.

(** * The calls *)

Section Calls.
Context {H : Type} `{HostFs H} `{MountHost H}.
Implicit Type s : st H.

(** What a file system of a type is here, in the entry [e]. *)
Definition backs (source type hostdir hostdev : cstr) (e : mount_entry) : mount_entry :=
  mk_entry (snprintf 256 source) (m_target e) (snprintf 16 type) (snprintf 256 hostdir) (snprintf 64 hostdev)
    (m_flags e) (m_id e) (m_propagation e) (m_peer e) (m_master e).

Definition one_of (type : cstr) (l : list string) : bool := existsb (λ t, strcmp type (lit t)) l.

(** A fresh directory of nabi's own. *)
Definition fresh_dir (what : string) (h : H) : (Z + cstr) * H :=
  h_mkdtemp (snprintf PATH_MAX (h_tmpdir h ++ lit what)) h.

Definition binderfs_dir (source type : cstr) (e : mount_entry) s : (Z + mount_entry) * st H :=
  match fresh_dir "/nabi-binderfs-XXXXXX" (s_host s) with
  | (inl err, h) => (inl (- err), set_host h s)
  | (inr dir, h) =>
      match h_create (snprintf PATH_MAX (dir ++ lit "/binder-control")) h with
      | (Some err, h) => (inl (- err), set_host (h_rmdir dir h) s)
      | (None, h) => (inr (backs source type dir (m_hostdev e) e), set_host h s)
      end
  end.

Definition image_mount (source type : cstr) (flags : Z) (e : mount_entry) s : outcome ((Z + mount_entry) * st H) :=
  '(img, ca) ← match h_loop source (s_host s) with
               | Some f => Ret (inr f, s_ident s)
               | None => if starts slash source then guest_to_host_path (s_env s) (s_host s) source PATH_MAX (s_ident s)
                         else Ret (inl (- ENOENT), s_ident s)
               end;
  let s := mk_st (s_env s) ca (s_host s) in
  match img with
  | inl _ => Ret (inl (- ENOENT), s)
  | inr f =>
      if negb (has flags LINUX_MS_RDONLY) then Ret (inl (- EROFS), s)
      else
        match h_image_mount f (s_host s) with
        | (inl err, h) => Ret (inl err, set_host h s)
        | (inr (dev, dir), h) => Ret (inr (backs source type dir dev e), set_host h s)
        end
  end.

Definition backing_for_type (type source : cstr) (target hint : option cstr) (flags : Z) (data : option cstr) (probe_only : bool)
    (e : mount_entry) s : outcome ((Z + mount_entry) * st H) :=
  if one_of type ["tmpfs"] then
    match fresh_dir "/nabi-tmpfs-XXXXXX" (s_host s) with
    | (inl err, h) => Ret (inl (- err), set_host h s)
    | (inr dir, h) =>
        Ret (inr (backs (lit "tmpfs") (lit "tmpfs") dir (m_hostdev e) e),
             set_host (h_chmod dir (tmpfs_mode (default [] data) (h_umask h)) h) s)
    end
  else if one_of type ["cgroup2"; "cgroup"; "cpuset"] then
    let ctrl := controller type data hint target in
    match h_cgroup (if bool_decide (ctrl = []) then None else Some ctrl) (s_host s) with
    | (inl err, h) => Ret (inl err, set_host h s)
    | (inr dir, h) => Ret (inr (backs type type dir (m_hostdev e) e), set_host h s)
    end
  else if one_of type ["devtmpfs"; "devpts"] then Ret (inr (backs source type (lit "/dev") (m_hostdev e) e), s)
  else if one_of type ["binderfs"] then
    if negb (h_binder_emulated (s_host s)) then Ret (inr (backs source type (lit "/dev/binderfs") (m_hostdev e) e), s)
    else if probe_only then Ret (inr (backs source type (m_hostdir e) (m_hostdev e) e), s)
    else Ret (binderfs_dir source type e s)
  else if one_of type ["proc"; "sysfs"; "mqueue"; "securityfs"; "debugfs"] then
    Ret (inr (backs source type (m_hostdir e) (m_hostdev e) e), s)
  else if one_of type ["ext4"; "ext3"; "ext2"] then
    if probe_only then Ret (inr (backs (m_source e) type (m_hostdir e) (m_hostdev e) e), s)
    else image_mount source type flags e s
  else Ret (inl (- ENODEV), s).

(** The namespace's table is written and the call succeeds. *)
Definition commit (t : mount_table) s : outcome (Z * st H) :=
  let w := s_mounts s in Ret (0, set_mounts (table_store (w_ns w) t w) s).

(** The relation of the mount [m] at index [i] to other namespaces. *)
Definition relate (prop : Z) (i : nat) (m : mount_entry) (t : mount_table) s : outcome (Z * st H) :=
  let write peer master s := commit (mk_table (<[i := set_relation prop peer master m]> (t_m t)) (t_next_id t)) s in
  if prop =? LINUX_MS_SHARED then
    if m_peer m =? 0 then
      let '(g, w) := peer_group_new (s_mounts s) in write g 0 (set_mounts w s)
    else write (m_peer m) 0 s
  else if prop =? LINUX_MS_SLAVE then write 0 (m_peer m) s
  else if (prop =? LINUX_MS_PRIVATE) || (prop =? LINUX_MS_UNBINDABLE) then write 0 0 s
  else Ret (- EINVAL, s).

(** A propagation type: a mount point that is none becomes an entry for it. *)
Definition set_propagation (prop : Z) (target : cstr) (t : mount_table) s : outcome (Z * st H) :=
  let full := (length (t_m t) =? MOUNT_MAX)%nat in
  match target_index target (t_m t) with
  | None => if full then Ret (- ENOSPC, s) else
      let name := if strcmp target (lit "/") then lit "rootfs" else lit "none" in
      let m := mk_entry name (snprintf 256 target) name [] [] 0 (t_next_id t) 0 0 0 in
      relate prop (length (t_m t)) m (mk_table (t_m t ++ [m]) (u32 (t_next_id t + 1))) s
  | Some at_ => match t_m t !! at_ with None => Stop Faulted | Some m => relate prop at_ m t s end
  end.

(** MS_MOVE: everything at or below [source] is seen from [target]. *)
Definition move_entry (source target : cstr) (m : mount_entry) : mount_entry :=
  if (0 <? under (m_target m) source)%nat then
    set_target (snprintf MOUNT_PATH_MAX (snprintf MOUNT_PATH_MAX (target ++ drop (length source) (m_target m)))) m
  else m.

Definition move_mounts (source target : cstr) (t : mount_table) s : outcome (Z * st H) :=
  if negb (starts slash source) then Ret (- EINVAL, s)
  else if negb (existsb (λ m, strcmp (m_target m) source) (t_m t)) then Ret (- EINVAL, s)
  else if (0 <? under target source)%nat then Ret (- EINVAL, s)
  else commit (mk_table (move_entry source target <$> t_m t) (t_next_id t)) s.

(** What a bind binds. *)
Definition bind_source (source : cstr) (t : mount_table) (e : mount_entry) s : outcome ((Z + mount_entry) * st H) :=
  if negb (starts slash source) then Ret (inl (- EINVAL), s)
  else if existsb (λ m, (m_propagation m =? LINUX_MS_UNBINDABLE) && strcmp (m_target m) source) (t_m t) then Ret (inl (- EINVAL), s)
  else
    '(r, ca) ← guest_to_host_path (s_env s) (s_host s) source PATH_MAX (s_ident s);
    let s := mk_st (s_env s) ca (s_host s) in
    match r with
    | inl err => Ret (inl err, s)
    | inr host =>
        match h_stat host (s_host s) with
        | Some err => Ret (inl (- err), s)
        | None => Ret (inr (backs source (lit "none") host (m_hostdev e) e), s)
        end
    end.

(** The new entry goes into the table, and to everyone watching the place. *)
Definition enter (target : cstr) (e : mount_entry) (t : mount_table) s : outcome (Z * st H) :=
  let s := if bool_decide (m_hostdir e ≠ []) && strcmp target (lit "/dev") then set_host (h_binder_nodes (m_hostdir e) (s_host s)) s else s in
  let pp := parent_peer_of t target in
  let ms := match target_index target (t_m t) with Some i => <[i := e]> (t_m t) | None => t_m t ++ [e] end in
  let w := s_mounts s in
  let w := table_store (w_ns w) (mk_table ms (u32 (t_next_id t + 1))) w in
  Ret (0, set_mounts (propagate pp e true w) s).

Definition new_mount (source target type data : cstr) (flags : Z) (t : mount_table) s : outcome (Z * st H) :=
  if (length (t_m t) =? MOUNT_MAX)%nat then Ret (- ENOSPC, s)
  else
    let e := mk_entry [] (snprintf 256 target) [] [] [] (u32 flags) (t_next_id t) 0 0 0 in
    '(r, s) ← (if has flags LINUX_MS_BIND then bind_source source t e s
               else backing_for_type type source (Some target) None flags (Some data) false e s);
    match r with
    | inl err => Ret (err, s)
    | inr e => enter target e t s
    end.

Definition sys_mount (source_ptr target_ptr type_ptr : gstr) (flags : Z) (data_ptr : gstr) s : outcome (Z * st H) :=
  if negb (may_mount (e_cred (s_env s))) then Ret (- EPERM, s)
  else
    target ← get_str MOUNT_PATH_MAX target_ptr;
    match target with
    | Missing | Fault => Ret (- EFAULT, s)
    | Got target =>
        data ← get_str 256 data_ptr;
        let data := match data with Got d => d | _ => [] end in
        source ← get_str MOUNT_PATH_MAX source_ptr;
        match source with
        | Fault => Ret (- EFAULT, s)
        | _ =>
            let source := match source with Got n => n | _ => lit "none" end in
            type ← get_str 16 type_ptr;
            match type with
            | Fault => Ret (- EFAULT, s)
            | _ =>
                let type := match type with Got n => n | _ => [] end in
                if negb (starts slash target) then Ret (- EINVAL, s)
                else if negb (Z.land flags (Z.lnot MS_KNOWN) =? 0) then Ret (- EINVAL, s)
                else
                  let '(_, t) := current_table (s_mounts s) in
                  let prop := Z.land flags (foldr Z.lor 0 [LINUX_MS_PRIVATE; LINUX_MS_SHARED; LINUX_MS_SLAVE; LINUX_MS_UNBINDABLE]) in
                  if negb (prop =? 0) && negb (has flags LINUX_MS_BIND) then set_propagation prop target t s
                  else if has flags LINUX_MS_REMOUNT then
                    match target_index target (t_m t) with
                    | None => Ret (- EINVAL, s)
                    | Some i =>
                        commit (mk_table (alter (set_flags (u32 (Z.land flags (Z.lnot LINUX_MS_REMOUNT)))) i (t_m t)) (t_next_id t)) s
                    end
                  else if has flags LINUX_MS_MOVE then move_mounts source target t s
                  else new_mount source target type data flags t s
            end
        end
    end.

Definition sys_umount2 (target_ptr : gstr) s : outcome (Z * st H) :=
  if negb (may_mount (e_cred (s_env s))) then Ret (- EPERM, s)
  else
    target ← get_str MOUNT_PATH_MAX target_ptr;
    match target with
    | Missing | Fault => Ret (- EFAULT, s)
    | Got target =>
        let '(ok, t) := current_table (s_mounts s) in
        if negb ok then Ret (- EINVAL, s)
        else
          match list_find (λ m, m_target m = target) (t_m t) with
          | None => Ret (- EINVAL, s)
          | Some (i, m) =>
              let s := if strcmp (m_type m) (lit "tmpfs") && bool_decide (m_hostdir m ≠ [])
                       then set_host (h_rmtree (m_hostdir m) (s_host s)) s else s in
              let '(busy, s) :=
                if bool_decide (m_hostdev m = []) then (false, s)
                else let '(ok, h) := h_image_unmount (m_hostdev m) (m_hostdir m) (s_host s) in (negb ok, set_host h s) in
              if busy then Ret (- EBUSY, s)
              else
                let pp := parent_peer_of t (m_target m) in
                let w := s_mounts s in
                let w := table_store (w_ns w) (mk_table (delete i (t_m t)) (t_next_id t)) w in
                Ret (0, set_mounts (propagate pp m false w) s)
          end
    end.

(** * mount_setattr *)

(** struct l_mount_attr. *)
Record mount_attr := mk_attr { a_set : Z; a_clr : Z; a_propagation : Z; a_userns_fd : Z }.

Definition MOUNT_ATTR_IDMAP : Z := 0x100000.
Definition MOUNT_ATTR__ATIME : Z := 0x70.
Definition MOUNT_ATTR_KNOWN : Z := foldr Z.lor 0 [0x1; 0x2; 0x4; 0x8; MOUNT_ATTR__ATIME; 0x80; MOUNT_ATTR_IDMAP; 0x200000].
Definition LINUX_AT_RECURSIVE : Z := 0x8000.
Definition SETATTR_FLAGS : Z := foldr Z.lor 0 [LINUX_AT_RECURSIVE; 0x100; 0x1000; 0x800].

(** The four attributes are the four lowest mount flags. *)
Definition ms_of_attr (a : Z) : Z := Z.land a 0xf.

Fixpoint pad_check (pad : list (option Z)) : Z :=
  match pad with
  | [] => 0
  | None :: _ => - EFAULT
  | Some b :: pad => if b =? 0 then pad_check pad else - E2BIG
  end.

Definition attr_check (a : mount_attr) : bool :=
  (Z.land (Z.lor (a_set a) (a_clr a)) (Z.lnot MOUNT_ATTR_KNOWN) =? 0) &&
  (Z.land (Z.land (a_set a) (a_clr a)) (Z.lnot MOUNT_ATTR__ATIME) =? 0) &&
  negb (Z.land (a_set a) MOUNT_ATTR__ATIME =? MOUNT_ATTR__ATIME) &&
  negb (has (a_set a) MOUNT_ATTR_IDMAP).

Definition attr_hits (flags : Z) (target : cstr) (m : mount_entry) : bool :=
  strcmp (m_target m) target || (has flags LINUX_AT_RECURSIVE && (0 <? under (m_target m) target)%nat).

Definition attr_apply (a : mount_attr) (m : mount_entry) : mount_entry :=
  let m := set_flags (Z.lor (Z.land (m_flags m) (Z.lnot (ms_of_attr (a_clr a)))) (ms_of_attr (a_set a))) m in
  if a_propagation a =? 0 then m else set_relation (u32 (a_propagation a)) (m_peer m) (m_master m) m.

(** [attr] is what is read at uattr, and [pad] the bytes after it. *)
Definition sys_mount_setattr (path_ptr : gstr) (flags usize : Z) (attr : option mount_attr) (pad : list (option Z)) s : outcome (Z * st H) :=
  if negb (may_mount (e_cred (s_env s))) then Ret (- EPERM, s)
  else if negb (Z.land flags (Z.lnot SETATTR_FLAGS) =? 0) then Ret (- EINVAL, s)
  else if usize <? 32 then Ret (- EINVAL, s)
  else
    match attr with
    | None => Ret (- EFAULT, s)
    | Some a =>
        if negb (pad_check pad =? 0) then Ret (pad_check pad, s)
        else if negb (attr_check a) then Ret (- EINVAL, s)
        else
          target ← get_str MOUNT_PATH_MAX path_ptr;
          match target with
          | Missing | Fault => Ret (- EFAULT, s)
          | Got target =>
              if negb (starts slash target) then Ret (- EINVAL, s)
              else
                let '(ok, t) := current_table (s_mounts s) in
                if negb ok then Ret (- EINVAL, s)
                else if negb (existsb (attr_hits flags target) (t_m t)) then Ret (- EINVAL, s)
                else commit (mk_table ((λ m, if attr_hits flags target m then attr_apply a m else m) <$> t_m t) (t_next_id t)) s
          end
    end.
End Calls.

(** * How an event reaches the other tables *)

(** What a table that is told of a mount becomes. *)
Definition watching (pp : Z) (t : mount_table) : bool :=
  existsb (λ m, (m_peer m =? pp) || (m_master m =? pp)) (t_m t).

Definition receive (pp : Z) (e : mount_entry) (add : bool) (t : mount_table) : mount_table :=
  if negb (watching pp t) then t
  else
    match add, target_index (m_target e) (t_m t) with
    | true, Some k => mk_table (<[k := e]> (t_m t)) (t_next_id t)
    | true, None => if (length (t_m t) <? MOUNT_MAX)%nat then mk_table (t_m t ++ [e]) (t_next_id t) else t
    | false, Some k => mk_table (delete k (t_m t)) (t_next_id t)
    | false, None => t
    end.

Lemma table_store_lookup ino t w i :
  w_tables (table_store ino t w) !! i = if decide (i = ino ∧ w_writable w = true) then Some t else w_tables w !! i.
Proof.
  unfold table_store. destruct (w_writable w); cbn.
  - destruct (decide (i = ino)) as [->|Hn]; [rewrite decide_True by done; apply lookup_insert_eq|].
    rewrite decide_False by (by intros [? _]). by apply lookup_insert_ne.
  - rewrite decide_False by (by intros [_ ?]). done.
Qed.

Lemma table_store_rest ino t w :
  w_ns (table_store ino t w) = w_ns w ∧ w_writable (table_store ino t w) = w_writable w ∧ w_group (table_store ino t w) = w_group w.
Proof. unfold table_store. by destruct (w_writable w) eqn:E. Qed.

Lemma table_store_same ino t w : w_tables w !! ino = Some t → table_store ino t w = w.
Proof.
  intros E. unfold table_store. case_match; [|done]. unfold set_tables. rewrite insert_id by done. by destruct w.
Qed.

Lemma propagate_one_receive pp e add ino w :
  propagate_one pp e add ino w =
    match w_tables w !! ino with None => w | Some t => table_store ino (receive pp e add t) w end.
Proof.
  unfold propagate_one, table_load, receive, watching, memmove_out.
  destruct (w_tables w !! ino) as [t|] eqn:Et; [|done]. pose proof (table_store_same ino t w Et) as Hs.
  destruct (negb _); [done|]. destruct add, (target_index _ _); try done. by destruct (_ <? _)%nat.
Qed.

Lemma propagate_one_spec pp e add ino w : w_writable w = true →
  w_ns (propagate_one pp e add ino w) = w_ns w ∧ w_writable (propagate_one pp e add ino w) = true ∧
  ∀ i, w_tables (propagate_one pp e add ino w) !! i =
    if decide (i = ino) then receive pp e add <$> (w_tables w !! i) else w_tables w !! i.
Proof.
  intros Hw. rewrite propagate_one_receive. destruct (w_tables w !! ino) as [t|] eqn:Et.
  - destruct (table_store_rest ino (receive pp e add t) w) as (-> & -> & _). split_and!; [done|done|]. intros i.
    rewrite table_store_lookup, Hw. destruct (decide (i = ino)) as [->|Hn]; [rewrite decide_True by done; by rewrite Et|].
    rewrite decide_False; [done|]. by intros [? _].
  - split_and!; [done|done|]. intros i. case_decide; [subst i; by rewrite Et|done].
Qed.

Lemma propagate_all pp e add l : ∀ w, w_writable w = true → NoDup l →
  w_ns (foldl (λ w ino, propagate_one pp e add ino w) w l) = w_ns w ∧
  w_writable (foldl (λ w ino, propagate_one pp e add ino w) w l) = true ∧
  ∀ i, w_tables (foldl (λ w ino, propagate_one pp e add ino w) w l) !! i =
    if decide (i ∈ l) then receive pp e add <$> (w_tables w !! i) else w_tables w !! i.
Proof.
  induction l as [|ino l IH]; intros w Hw Hnd; cbn [foldl].
  { split_and!; [done|done|]. intros i. rewrite decide_False by apply not_elem_of_nil. done. }
  apply NoDup_cons in Hnd as [Hni Hnd]. destruct (propagate_one_spec pp e add ino w Hw) as (Hns & Hw' & Hi).
  destruct (IH _ Hw' Hnd) as (-> & -> & Hi'). split_and!; [done|done|]. intros i. rewrite Hi', Hi.
  destruct (decide (i = ino)) as [->|Hne].
  - destruct (decide (ino ∈ l)); [done|]. destruct (decide (ino ∈ ino :: l)) as [|Hx]; [done|]. by destruct Hx; left.
  - destruct (decide (i ∈ l)), (decide (i ∈ ino :: l)) as [Hx|Hx]; [done|by destruct Hx; right| |done].
    by apply elem_of_cons in Hx as [?|?].
Qed.

(** Every table but the namespace's own, when there are no more than the calls
    look at. *)
Definition few_tables (w : mounts) : Prop := (size (w_tables w) ≤ 64)%nat.

Lemma each_table_elem w i : few_tables w → i ∈ each_table (w_ns w) 64 w ↔ is_Some (w_tables w !! i) ∧ i ≠ 0 ∧ i ≠ w_ns w.
Proof.
  intros Hf. unfold each_table. rewrite take_ge.
  2: { etransitivity; [apply length_filter|]. rewrite length_fmap. by rewrite length_map_to_list. }
  rewrite list_elem_of_filter, list_elem_of_fmap. split.
  - intros ([? ?] & ([j t] & -> & Hin%elem_of_map_to_list)). split_and!; [by eexists|done|done].
  - intros ([t Ht] & ? & ?). split; [done|]. exists (i, t). split; [done|]. by apply elem_of_map_to_list.
Qed.

Lemma each_table_nodup skip max w : NoDup (each_table skip max w).
Proof.
  unfold each_table. eapply sublist_NoDup; [|apply sublist_take]. apply NoDup_filter, NoDup_fst_map_to_list.
Qed.

Lemma propagate_lookup pp e add w i : w_writable w = true → few_tables w → pp ≠ 0 →
  w_tables (propagate pp e add w) !! i =
    if decide (i ≠ 0 ∧ i ≠ w_ns w) then receive pp e add <$> (w_tables w !! i) else w_tables w !! i.
Proof.
  intros Hw Hf Hp. unfold propagate. rewrite (proj2 (Z.eqb_neq _ _) Hp).
  destruct (propagate_all pp e add (each_table (w_ns w) 64 w) w Hw (each_table_nodup _ _ _)) as (_ & _ & ->).
  pose proof (each_table_elem w i Hf) as He. destruct (decide (i ≠ 0 ∧ i ≠ w_ns w)) as [Hi|Hi].
  - destruct (decide (i ∈ _)) as [|Hx]; [done|]. destruct (w_tables w !! i) eqn:E; [|done].
    destruct Hx. apply He. split; [by eexists|done].
  - destruct (decide (i ∈ _)) as [Hx|]; [|done]. apply He in Hx as (_ & ? & ?). by destruct Hi.
Qed.

Lemma propagate_each pp e add w :
  w_ns (propagate pp e add w) = w_ns w ∧
  ∀ i, w_tables (propagate pp e add w) !! i = w_tables w !! i ∨
    pp ≠ 0 ∧ w_tables (propagate pp e add w) !! i = receive pp e add <$> (w_tables w !! i).
Proof.
  unfold propagate. destruct (pp =? 0) eqn:Ep; bool_to_prop; [split; [done|]; by left|].
  destruct (w_writable w) eqn:Hw.
  - destruct (propagate_all pp e add (each_table (w_ns w) 64 w) w Hw (each_table_nodup _ _ _)) as (-> & _ & Hi).
    split; [done|]. intros i. rewrite Hi. case_decide; [by right|by left].
  - assert (∀ l, foldl (λ w ino, propagate_one pp e add ino w) w l = w) as ->; [|split; [done|]; by left].
    induction l as [|i l IH]; [done|]. cbn [foldl]. rewrite propagate_one_receive. unfold table_store. rewrite Hw. by destruct (_ !! i).
Qed.

(** * What a call can do to the tables *)

Definition full_of (t : mount_table) : Prop := (length (t_m t) ≤ MOUNT_MAX)%nat.
Definition bounded (w : mounts) : Prop := ∀ i t, w_tables w !! i = Some t → full_of t.

(** The namespace's own table is written, with no more entries than it has room
    for if all had; a peer group is taken; an event is propagated. *)
Inductive change : mounts → mounts → Prop :=
  | ch_store w t : (bounded w → full_of t) → change w (table_store (w_ns w) t w)
  | ch_group w : change w (peer_group_new w).2
  | ch_propagate pp e add w : change w (propagate pp e add w).

Lemma receive_bounded pp e add t : full_of t → full_of (receive pp e add t).
Proof.
  unfold full_of, receive. intros Ht. destruct (negb _); [done|]. destruct add, (target_index _ _); try exact Ht; cbn [t_m].
  - by rewrite length_insert.
  - destruct (length (t_m t) <? MOUNT_MAX)%nat eqn:E; [|done]. apply Nat.ltb_lt in E. cbn [t_m]. rewrite length_app. cbn [length]. lia.
  - etransitivity; [|done]. apply sublist_length, sublist_delete.
Qed.

Lemma change_bounded w w' : change w w' → bounded w → bounded w'.
Proof.
  intros Hc Hb. destruct Hc as [w t Ht|w|pp e add w]; intros i t' E.
  - rewrite table_store_lookup in E. case_decide; [injection E as <-; by apply Ht|by apply (Hb i)].
  - unfold peer_group_new in E. destruct (w_writable w); by apply (Hb i).
  - destruct (propagate_each pp e add w) as [_ Hp]. destruct (Hp i) as [Ei|[_ Ei]]; rewrite Ei in E; [by apply (Hb i)|].
    apply fmap_Some in E as (t & E & ->). by apply receive_bounded, (Hb i).
Qed.

Lemma change_ns w w' : change w w' → w_ns w' = w_ns w.
Proof.
  intros [w0 t _|w0|pp e add w0]; [by apply table_store_rest| |by apply propagate_each].
  unfold peer_group_new. by destruct (w_writable w0).
Qed.

(** A table none of whose mounts is a peer or a slave. *)
Definition unrelated (t : mount_table) : Prop := Forall (λ m, m_peer m = 0 ∧ m_master m = 0) (t_m t).

Lemma unrelated_receive pp e add t : pp ≠ 0 → unrelated t → receive pp e add t = t.
Proof.
  intros Hp Hu. unfold receive, watching. replace (existsb _ _) with false; [done|]. symmetry. apply not_true_iff_false.
  rewrite existsb_exists. intros (m & Hin & Hm). apply list_elem_of_In in Hin.
  unfold unrelated in Hu. rewrite Forall_forall in Hu. destruct (Hu m Hin) as [E1 E2]. rewrite E1, E2 in Hm.
  apply orb_true_iff in Hm as [Hm|Hm]; bool_to_prop; lia.
Qed.

Lemma change_isolated w w' i t : change w w' → i ≠ w_ns w → w_tables w !! i = Some t → unrelated t → w_tables w' !! i = Some t.
Proof.
  intros Hc Hi E Hu. destruct Hc as [w t' _|w|pp e add w].
  - rewrite table_store_lookup, decide_False; [done|]. by intros [? _].
  - unfold peer_group_new. by destruct (w_writable w).
  - destruct (propagate_each pp e add w) as [_ Hp]. destruct (Hp i) as [->|[Hn ->]]; [done|].
    rewrite E. cbn. by rewrite unrelated_receive.
Qed.

Section Effects.
Context {H : Type} `{HF : HostFs H} `{HM : MountHost H}.
Implicit Type s : st H.

(** The call leaves the tables as some changes leave them. *)
Definition effect (w : mounts) (o : outcome (Z * st H)) : Prop :=
  match o with Ret (_, s) => rtc change w (s_mounts s) | Stop _ => True end.

Lemma effect_same r s : effect (s_mounts s) (Ret (r, s)).
Proof. apply rtc_refl. Qed.

Lemma effect_commit t s : (bounded (s_mounts s) → full_of t) → effect (s_mounts s) (commit t s).
Proof. intros Ht. cbn. by apply rtc_once, ch_store. Qed.

Lemma current_bounded w : bounded w → full_of (current_table w).2.
Proof.
  intros Hb. unfold current_table, table_load. destruct (w_tables w !! w_ns w) as [t|] eqn:E; [by apply (Hb _ _ E)|].
  unfold full_of. cbn. lia.
Qed.

Lemma effect_relate prop i m t s : (bounded (s_mounts s) → full_of t) → effect (s_mounts s) (relate prop i m t s).
Proof.
  intros Ht. unfold relate.
  assert (∀ p q s', rtc change (s_mounts s) (s_mounts s') → (bounded (s_mounts s') → full_of t) →
    effect (s_mounts s) (commit (mk_table (<[i:=set_relation prop p q m]> (t_m t)) (t_next_id t)) s')) as Hw.
  { intros p q s' Hr Hb. cbn. eapply rtc_r; [done|]. apply ch_store. intros Hb'. unfold full_of. cbn. rewrite length_insert. by apply Hb. }
  destruct (prop =? LINUX_MS_SHARED).
  - destruct (m_peer m =? 0); [|by apply Hw]. destruct (peer_group_new (s_mounts s)) as [g w] eqn:Eg. apply Hw.
    + cbn. apply rtc_once. replace w with (peer_group_new (s_mounts s)).2 by by rewrite Eg. apply ch_group.
    + cbn. intros Hb. apply Ht. intros j t' Ej. unfold peer_group_new in Eg. destruct (w_writable _); injection Eg as _ <-; by apply (Hb j).
  - destruct (prop =? LINUX_MS_SLAVE); [by apply Hw|]. destruct (_ || _); [by apply Hw|apply effect_same].
Qed.

Lemma effect_propagation prop target s :
  effect (s_mounts s) (set_propagation prop target (current_table (s_mounts s)).2 s).
Proof.
  unfold set_propagation. pose proof (current_bounded (s_mounts s)) as Hb. destruct (target_index _ _) as [i|].
  - destruct (_ !! i); [|done]. by apply effect_relate.
  - destruct (length _ =? MOUNT_MAX)%nat eqn:E; [apply effect_same|]. apply Nat.eqb_neq in E. apply effect_relate.
    intros Hw. specialize (Hb Hw). unfold full_of in *. cbn [t_m]. rewrite length_app. cbn [length]. lia.
Qed.

Lemma effect_move source target s : effect (s_mounts s) (move_mounts source target (current_table (s_mounts s)).2 s).
Proof.
  unfold move_mounts. repeat (case_match; [apply effect_same|]). apply effect_commit. intros Hw.
  pose proof (current_bounded _ Hw) as Hb. unfold full_of. cbn [t_m]. by rewrite length_fmap.
Qed.

(** Finding what backs a mount does not touch the tables. *)
Definition keeps (s : st H) (o : outcome ((Z + mount_entry) * st H)) : Prop :=
  match o with Ret (_, s') => s_mounts s' = s_mounts s | Stop _ => True end.

Lemma keeps_bind source t e s : keeps s (bind_source source t e s).
Proof.
  unfold bind_source. case_match; [done|]. case_match; [done|].
  destruct (guest_to_host_path _ _ _ _ _) as [[[err|host] ca]|why]; [done| |done]. cbn. by destruct (h_stat _ _).
Qed.

Lemma keeps_image source type flags e s : keeps s (image_mount source type flags e s).
Proof.
  unfold image_mount. destruct (match h_loop source (s_host s) with Some f => _ | None => _ end) as [[[err|f] ca]|why]; [done| |done].
  cbn. destruct (negb _); [done|]. by destruct (h_image_mount f (s_host s)) as [[err|[dev dir]] h].
Qed.

Lemma keeps_backing type source target hint flags data probe e s :
  keeps s (backing_for_type type source target hint flags data probe e s).
Proof.
  unfold backing_for_type. destruct (one_of type ["tmpfs"]); [by destruct (fresh_dir _ _) as [[err|dir] h]|].
  destruct (one_of type _); [by destruct (h_cgroup _ _) as [[err|dir] h]|].
  destruct (one_of type _); [done|]. destruct (one_of type _).
  - destruct (negb _); [done|]. destruct probe; [done|]. cbn. unfold binderfs_dir.
    destruct (fresh_dir _ _) as [[err|dir] h]; [done|]. by destruct (h_create _ h) as [[err|] h'].
  - destruct (one_of type _); [done|]. destruct (one_of type _); [|done]. destruct probe; [done|]. apply keeps_image.
Qed.

Lemma effect_enter target e s : (length (t_m (current_table (s_mounts s)).2) ≠ MOUNT_MAX) →
  effect (s_mounts s) (enter target e (current_table (s_mounts s)).2 s).
Proof.
  intros Hn. unfold enter.
  assert (∀ h, s_mounts (if bool_decide (m_hostdir e ≠ []) && strcmp target (lit "/dev") then set_host h s else s) = s_mounts s) as Es
    by (intros h; by destruct (_ && _)).
  cbn. rewrite Es. eapply rtc_l; [|apply rtc_once, ch_propagate]. apply ch_store. intros Hw. pose proof (current_bounded _ Hw) as Hb.
  unfold full_of in *. cbn [t_m]. destruct (target_index _ _); [by rewrite length_insert|]. rewrite length_app. cbn [length]. lia.
Qed.

Lemma effect_new source target type data flags s :
  effect (s_mounts s) (new_mount source target type data flags (current_table (s_mounts s)).2 s).
Proof.
  unfold new_mount. destruct (length _ =? MOUNT_MAX)%nat eqn:E; [apply effect_same|]. apply Nat.eqb_neq in E.
  match goal with |- effect _ (mbind _ ?o) => assert (keeps s o) as Hk; [case_match; [apply keeps_bind|apply keeps_backing]|destruct o as [[r s']|why]; [|done]] end.
  cbn in Hk |- *. destruct r as [err|e]; [cbn; rewrite Hk; apply rtc_refl|]. rewrite <- Hk in *. by apply effect_enter.
Qed.

Lemma effect_mount source target type flags data s : effect (s_mounts s) (sys_mount source target type flags data s).
Proof.
  unfold sys_mount. destruct (negb _); [apply effect_same|].
  destruct (get_str MOUNT_PATH_MAX target) as [[| |tgt]|why]; cbn [mbind outcome_bind]; [apply effect_same|apply effect_same| |done].
  destruct (get_str 256 data) as [d|why]; cbn [mbind outcome_bind]; [|done].
  assert (∀ src typ, effect (s_mounts s)
    (if negb (starts slash tgt) then Ret (- EINVAL, s)
     else if negb (Z.land flags (Z.lnot MS_KNOWN) =? 0) then Ret (- EINVAL, s)
     else
       let '(_, t) := current_table (s_mounts s) in
       let prop := Z.land flags (foldr Z.lor 0 [LINUX_MS_PRIVATE; LINUX_MS_SHARED; LINUX_MS_SLAVE; LINUX_MS_UNBINDABLE]) in
       if negb (prop =? 0) && negb (has flags LINUX_MS_BIND) then set_propagation prop tgt t s
       else if has flags LINUX_MS_REMOUNT then
         match target_index tgt (t_m t) with
         | None => Ret (- EINVAL, s)
         | Some i => commit (mk_table (alter (set_flags (u32 (Z.land flags (Z.lnot LINUX_MS_REMOUNT)))) i (t_m t)) (t_next_id t)) s
         end
       else if has flags LINUX_MS_MOVE then move_mounts src tgt t s
       else new_mount src tgt typ (match d with Got d => d | _ => [] end) flags t s)) as Hd.
  { intros src typ. destruct (negb (starts slash tgt)); [apply effect_same|]. destruct (negb _); [apply effect_same|].
    replace (current_table (s_mounts s)) with ((current_table (s_mounts s)).1, (current_table (s_mounts s)).2)
      by by destruct (current_table (s_mounts s)).
    cbv zeta. destruct (_ && _); [apply effect_propagation|]. destruct (has flags LINUX_MS_REMOUNT).
    - destruct (target_index _ _); [|apply effect_same]. apply effect_commit. intros Hw. pose proof (current_bounded _ Hw) as Hb.
      unfold full_of. cbn [t_m]. by rewrite length_alter.
    - destruct (has flags LINUX_MS_MOVE); [apply effect_move|apply effect_new]. }
  destruct (get_str MOUNT_PATH_MAX source) as [[| |src]|why]; cbn [mbind outcome_bind]; try done.
  all: destruct (get_str 16 type) as [[| |typ]|why]; cbn [mbind outcome_bind]; try done; try apply effect_same.
  all: apply Hd.
Qed.

Lemma effect_umount target s : effect (s_mounts s) (sys_umount2 target s).
Proof.
  unfold sys_umount2. destruct (negb _); [apply effect_same|].
  destruct (get_str MOUNT_PATH_MAX target) as [[| |tgt]|why]; cbn [mbind outcome_bind]; [apply effect_same|apply effect_same| |done].
  pose proof (current_bounded (s_mounts s)) as Hb. destruct (current_table (s_mounts s)) as [ok t]. destruct (negb ok); [apply effect_same|].
  destruct (list_find _ _) as [[i m]|]; [|apply effect_same].
  set (s1 := if strcmp (m_type m) (lit "tmpfs") && _ then _ else s).
  assert (s_mounts s1 = s_mounts s) as E1 by (subst s1; by destruct (_ && _)). clearbody s1.
  destruct (if bool_decide (m_hostdev m = []) then (false, s1) else _) as [busy s2] eqn:E2.
  assert (s_mounts s2 = s_mounts s) as E3.
  { rewrite <- E1. destruct (bool_decide (m_hostdev m = [])); [by injection E2 as _ <-|].
    destruct (h_image_unmount _ _ _). by injection E2 as _ <-. }
  destruct busy; [cbn; rewrite E3; apply rtc_refl|]. cbn. rewrite E3.
  eapply rtc_l; [|apply rtc_once, ch_propagate]. apply ch_store. intros Hw. specialize (Hb Hw). unfold full_of in *. cbn [t_m] in *.
  etransitivity; [|exact Hb]. apply sublist_length, sublist_delete.
Qed.

Lemma effect_setattr path flags usize attr pad s : effect (s_mounts s) (sys_mount_setattr path flags usize attr pad s).
Proof.
  unfold sys_mount_setattr. repeat (case_match; [apply effect_same|]). destruct attr as [a|]; [|apply effect_same].
  repeat (case_match; [apply effect_same|]).
  destruct (get_str MOUNT_PATH_MAX path) as [[| |tgt]|why]; cbn [mbind outcome_bind]; [apply effect_same|apply effect_same| |done].
  destruct (negb (starts slash tgt)); [apply effect_same|]. pose proof (current_bounded (s_mounts s)) as Hb.
  destruct (current_table (s_mounts s)) as [ok t]. destruct (negb ok); [apply effect_same|].
  destruct (negb (existsb _ _)); [apply effect_same|].
  apply effect_commit. intros Hw. specialize (Hb Hw). unfold full_of in *. cbn [t_m] in *. by rewrite length_fmap.
Qed.

Lemma pivot_changes new_root put_old host w : rtc change w (mount_pivot new_root put_old host w).2.
Proof.
  unfold mount_pivot. pose proof (current_bounded w) as Hb. destruct (current_table w) as [ok t]. rewrite length_fmap.
  destruct (length (t_m t) =? MOUNT_MAX)%nat eqn:E; [apply rtc_refl|]. apply Nat.eqb_neq in E. cbn [snd].
  apply rtc_once, ch_store. intros Hw. specialize (Hb Hw). unfold full_of in *. cbn [t_m snd] in *.
  rewrite length_app, length_fmap. cbn [length]. lia.
Qed.

(** * Any number of calls *)

(** A process makes itself a mount namespace, of whatever number. *)
Definition unshare_mounts (to : Z) (w : mounts) : mounts :=
  let w := mount_ns_clone (w_ns w) to w in mk_mounts to (w_tables w) (w_group w) (w_writable w).

(** Or joins one; or it is another process's turn, in another namespace. *)
Definition join_mounts (to : Z) (w : mounts) : mounts := mk_mounts to (w_tables w) (w_group w) (w_writable w).

Inductive mstep : st H → st H → Prop :=
  | step_mount source target type flags data r s s' : sys_mount source target type flags data s = Ret (r, s') → mstep s s'
  | step_umount target r s s' : sys_umount2 target s = Ret (r, s') → mstep s s'
  | step_setattr path flags usize attr pad r s s' : sys_mount_setattr path flags usize attr pad s = Ret (r, s') → mstep s s'
  | step_pivot new_root put_old host s : mstep s (set_mounts (mount_pivot new_root put_old host (s_mounts s)).2 s)
  | step_unshare to s : mstep s (set_mounts (unshare_mounts to (s_mounts s)) s)
  | step_join to s : mstep s (set_mounts (join_mounts to (s_mounts s)) s).

(** A step after which nobody is in namespace [i]: it is not joined, and its
    number is not given to a new namespace. *)
Definition mstep_off (i : Z) s s' : Prop := mstep s s' ∧ w_ns (s_mounts s') ≠ i.

Lemma mstep_effect s s' : mstep s s' →
  rtc change (s_mounts s) (s_mounts s') ∨ ∃ to, s_mounts s' = unshare_mounts to (s_mounts s) ∨ s_mounts s' = join_mounts to (s_mounts s).
Proof.
  intros Hs. destruct Hs as [source target type flags data r s s' E|target r s s' E|path flags usize attr pad r s s' E|new_root put_old host s|to s|to s].
  - left. pose proof (effect_mount source target type flags data s) as He. by rewrite E in He.
  - left. pose proof (effect_umount target s) as He. by rewrite E in He.
  - left. pose proof (effect_setattr path flags usize attr pad s) as He. by rewrite E in He.
  - left. apply pivot_changes.
  - right. exists to. by left.
  - right. exists to. by right.
Qed.

Lemma changes_isolated w w' i t : rtc change w w' → i ≠ w_ns w → w_tables w !! i = Some t → unrelated t →
  w_ns w' = w_ns w ∧ w_tables w' !! i = Some t.
Proof.
  induction 1 as [w|w w1 w' Hc _ IH]; intros Hi E Hu; [done|]. rewrite <- (change_ns _ _ Hc). apply IH; [|by eapply change_isolated|done].
  by rewrite (change_ns _ _ Hc).
Qed.

Lemma unshare_isolated to w i : i ≠ to → w_tables (unshare_mounts to w) !! i = w_tables w !! i.
Proof.
  intros Hi. unfold unshare_mounts, mount_ns_clone. cbn. rewrite table_store_lookup, decide_False; [done|]. by intros [? _].
Qed.

(** C12: along any mount, umount2, mount_setattr, pivot_root, unshare and setns
    calls made in other namespaces than [i], by one process or several in
    turn, the mounts of namespace [i] stay as they are when none of them is
    shared or a slave. A call that gives the number of [i] to a new namespace
    counts as one made in [i]: processes give out numbers without asking each
    other, see [siblings_share_a_new_namespace] in Namespaces.v. *)
Theorem private_mounts_isolated s s' i t : rtc (mstep_off i) s s' → i ≠ w_ns (s_mounts s) → w_tables (s_mounts s) !! i = Some t →
  unrelated t → w_tables (s_mounts s') !! i = Some t.
Proof.
  induction 1 as [s|s s1 s' [Hs Hn] _ IH]; intros Hi E Hu; [done|]. apply IH; [done| |done].
  destruct (mstep_effect s s1 Hs) as [Hc|(to & [E1|E1])].
  - by destruct (changes_isolated _ _ i t Hc Hi E Hu) as [_ E1].
  - rewrite E1 in Hn |- *. rewrite unshare_isolated; [done|]. by intros ->.
  - by rewrite E1.
Qed.

(** And every table keeps to the 64 entries it has room for, those other
    namespaces' mounts are propagated to as well. *)
Theorem tables_stay_bounded s s' : rtc mstep s s' → bounded (s_mounts s) → bounded (s_mounts s').
Proof.
  induction 1 as [s|s s1 s' Hs _ IH]; intros Hb; [done|]. apply IH. destruct (mstep_effect s s1 Hs) as [Hc|(to & [->| ->])]; [| |exact Hb].
  - clear -Hc Hb. induction Hc as [w|w w1 w' Hc _ IH]; [done|]. by eapply IH, change_bounded.
  - intros i t E. unfold unshare_mounts, mount_ns_clone in E. cbn in E. rewrite table_store_lookup in E. case_decide; [|by apply (Hb i)].
    injection E as <-. unfold full_of. cbn [t_m]. rewrite length_fmap. unfold table_load.
    destruct (w_tables (s_mounts s) !! w_ns (s_mounts s)) as [t|] eqn:Et; [by apply (Hb _ _ Et)|cbn; lia].
Qed.

(** * Mounting, and what it undoes *)

Lemma walk_errors e flags (h : H) again fd leading rdonly sysfs todo :
  (∀ n ca err ca', again n ca = Ret (inl err, ca') → err < 0) →
  ∀ sub ca err ca', walk e flags h again fd leading rdonly sysfs sub todo ca = Ret (inl err, ca') → err < 0.
Proof.
  intros Ha. induction todo as [|w rest IH]; intros sub ca err ca'; cbn [walk]; [done|].
  destruct (LINUX_PATH_MAX <=? _)%nat; [done|]. destruct (bool_decide (w = []) && _); [done|].
  destruct (fold_dots _ _ _ _ _ _) as [sub' c]. destruct (link_at _ _ _ _ _) as [t|].
  - destruct ((LINUX_PATH_MAX <=? _)%nat || _); [done|]. destruct (again _ c) as [[[x|p] c']|why] eqn:E; [|done|done].
    cbn. intros [= <- _]. by eapply Ha.
  - match goal with |- context [?r <? 0] => destruct (r <? 0) eqn:E end; [intros [= <- _]; bool_to_prop; lia|apply IH].
Qed.

Lemma resolve_errors e (h : H) flags fuel : ∀ parent name loop ca err ca',
  resolve_path fuel e h parent name flags loop ca = Ret (inl err, ca') → err < 0.
Proof.
  induction fuel as [|fuel IH]; intros parent name loop ca err ca'; cbn [resolve_path]; [done|].
  destruct (loop >? LOOP_MAX); [by intros [= <- _]|].
  destruct (if starts slash name then _ else _) as [| |fd n rdonly sysfs]; [done|by intros [= <- _]|]. case_match; [done|].
  apply walk_errors. intros m c. apply IH.
Qed.

Lemma host_path_errors e (h : H) name outsz ca err ca' :
  guest_to_host_path e h name outsz ca = Ret (inl err, ca') → err < 0.
Proof.
  unfold guest_to_host_path.
  destruct (if starts slash name then _ else None) as [n|]; [destruct (length n <? outsz)%nat; [done|by intros [= <- _]]|].
  destruct (vfs_grab_dir _ _ _ _ _ _) as [[[x|p] c]|why] eqn:E; [|cbn [mbind outcome_bind]|done].
  - cbn. intros [= <- _]. unfold vfs_grab_dir in E. destruct (negb _); [by injection E as <- _|].
    case_bool_decide; [by injection E as <- _|]. destruct (_ || _); [by eapply resolve_errors|].
    destruct (negb _); [by injection E as <- _|]. by eapply resolve_errors.
  - destruct (h_getpath _ _); [|by intros [= <- _]]. destruct (_ <? outsz)%nat; [done|by intros [= <- _]].
Qed.

(** A bind mount, as its success shows it. *)
Record bound (target : cstr) (e : mount_entry) : Prop := {
  bo_target : m_target e = target;
  bo_plain : m_hostdev e = [] ∧ m_type e = lit "none";
  bo_private : m_peer e = 0 ∧ m_master e = 0;
}.

Lemma bind_source_bound `{!MountHostLaws H} source target flags t id s r s0 : (length target < 256)%nat →
  bind_source source t (mk_entry [] (snprintf 256 target) [] [] [] flags id 0 0 0) s = Ret (r, s0) →
  match r with inl err => err < 0 | inr e => bound target e ∧ s_mounts s0 = s_mounts s ∧ e_cred (s_env s0) = e_cred (s_env s) end.
Proof.
  intros Hl. unfold bind_source. case_match; [by intros [= <- _]|]. case_match; [by intros [= <- _]|].
  destruct (guest_to_host_path _ _ _ _ _) as [[[x|host] ca]|why] eqn:E; cbn [mbind outcome_bind]; [| |done].
  - intros [= <- _]. by eapply host_path_errors.
  - cbn [s_host]. destruct (h_stat host (s_host s)) as [x|] eqn:Es; intros [= <- <-]; [apply stat_error in Es; lia|].
    split; [|done]. split; [|done|done]. cbn. unfold snprintf. rewrite take_ge; [done|lia].
Qed.

Lemma bind_mounted `{!MountHostLaws H} source target type flags data s s1 :
  has flags LINUX_MS_BIND = true → has flags LINUX_MS_REMOUNT = false → has flags LINUX_MS_MOVE = false →
  sys_mount source (Str target) type flags data s = Ret (0, s1) →
  may_mount (e_cred (s_env s)) = true ∧ (length target < 256)%nat ∧ length (t_m (current_table (s_mounts s)).2) ≠ MOUNT_MAX ∧
  ∃ e s0, bound target e ∧ s_mounts s0 = s_mounts s ∧ e_cred (s_env s0) = e_cred (s_env s) ∧
    enter target e (current_table (s_mounts s)).2 s0 = Ret (0, s1).
Proof.
  intros Hb Hr Hm. unfold sys_mount. destruct (may_mount (e_cred (s_env s))); [|done]. cbn [negb].
  change (get_str MOUNT_PATH_MAX (Str target)) with (if (length target <? MOUNT_PATH_MAX)%nat then Ret (Got target) else Stop Faulted).
  destruct (length target <? MOUNT_PATH_MAX)%nat eqn:Hl; cbn [mbind outcome_bind]; [|done]. apply Nat.ltb_lt in Hl.
  destruct (get_str 256 data) as [d|why]; [|done]. cbn [mbind outcome_bind].
  destruct (get_str MOUNT_PATH_MAX source) as [src|why]; [|done]. cbn [mbind outcome_bind]. intros E.
  assert (∃ src typ, new_mount src target typ (match d with Got d => d | _ => [] end) flags (current_table (s_mounts s)).2 s = Ret (0, s1)) as (src' & typ & En).
  { destruct src as [| |src]; [|done|]; (destruct (get_str 16 type) as [typ|why]; [|done]); cbn [mbind outcome_bind] in E.
    all: destruct typ as [| |typ]; [|done|]; (destruct (negb (starts slash target)); [done|]); (destruct (negb (_ =? 0)); [done|]).
    all: destruct (current_table (s_mounts s)) as [ok t]; cbv zeta in E; rewrite Hb, Hr, Hm, andb_false_r in E; by eexists _, _. }
  clear E. unfold new_mount in En. rewrite Hb in En. destruct (length _ =? MOUNT_MAX)%nat eqn:Ef; [done|]. apply Nat.eqb_neq in Ef.
  split_and!; [done|done|done|]. destruct (bind_source _ _ _ _) as [[r s0]|why] eqn:Eb; [|done]. cbn [mbind outcome_bind] in En.
  apply bind_source_bound in Eb; [|done]. destruct r as [err|e]; [injection En as -> _; lia|]. destruct Eb as (? & ? & ?).
  by exists e, s0.
Qed.

Lemma target_index_none x ms : target_index x ms = None ↔ ∀ m, m ∈ ms → m_target m ≠ x.
Proof.
  unfold target_index. rewrite fmap_None, last_None. split.
  - intros E m Hin Hm. apply list_elem_of_lookup in Hin as [k Hk]. assert ((k, m) ∈ @nil (nat * mount_entry)) as Hx; [|by apply not_elem_of_nil in Hx].
    rewrite <- E. apply list_elem_of_filter. split; [done|]. apply elem_of_lookup_imap. by exists k, m.
  - intros Hm. destruct (filter _ _) as [|[k m] l] eqn:E; [done|]. exfalso.
    assert ((k, m) ∈ filter (λ km : nat * mount_entry, m_target km.2 = x) (imap pair ms)) as Hx by (rewrite E; by left).
    apply list_elem_of_filter in Hx as [Ht Hx]. apply elem_of_lookup_imap in Hx as (k' & m' & [= -> ->] & Hl).
    cbn in Ht. eapply Hm; [by eapply list_elem_of_lookup_2|done].
Qed.

Lemma target_index_some x ms k : target_index x ms = Some k → ∃ m, ms !! k = Some m ∧ m_target m = x.
Proof.
  unfold target_index. intros ([k' m] & E & ->)%fmap_Some. apply last_Some_elem_of, list_elem_of_filter in E as [Ht E].
  apply elem_of_lookup_imap in E as (k'' & m' & [= -> ->] & Hl). by exists m'.
Qed.

Lemma target_index_snoc x ms e : (∀ m, m ∈ ms → m_target m ≠ x) → m_target e = x → target_index x (ms ++ [e]) = Some (length ms).
Proof.
  intros Hf He. unfold target_index. rewrite imap_app, filter_app, last_app. cbn. case_decide; [|done]. cbn. by rewrite Nat.add_0_r.
Qed.

Lemma receive_undo pp e t : m_peer e = 0 ∧ m_master e = 0 →
  (watching pp t = true → (∀ m, m ∈ t_m t → m_target m ≠ m_target e) ∧ (length (t_m t) < MOUNT_MAX)%nat) →
  t_m (receive pp e false (receive pp e true t)) = t_m t.
Proof.
  intros He Hw. destruct (watching pp t) eqn:E.
  - destruct Hw as [Hf Hl]; [done|].
    assert (receive pp e true t = mk_table (t_m t ++ [e]) (t_next_id t)) as ->.
    { unfold receive. rewrite E. cbn [negb]. rewrite (proj2 (target_index_none _ _)) by done. by rewrite (proj2 (Nat.ltb_lt _ _)). }
    unfold receive. assert (watching pp (mk_table (t_m t ++ [e]) (t_next_id t)) = true) as ->.
    { unfold watching in *. cbn [t_m]. rewrite existsb_app, E. done. }
    cbn [negb t_m]. rewrite target_index_snoc by done. cbn [t_m]. by rewrite delete_middle, app_nil_r.
  - assert (receive pp e true t = t) as -> by (unfold receive; by rewrite E). unfold receive. by rewrite E.
Qed.

Lemma parent_loop_skip target e ms : m_target e = target → ∀ best n, parent_loop target (ms ++ [e]) best n = parent_loop target ms best n.
Proof.
  intros He. induction ms as [|m ms IH]; intros best n; cbn [app parent_loop].
  - unfold strcmp. by rewrite bool_decide_true.
  - rewrite !IH. done.
Qed.

Lemma few_store ino t w : (size (w_tables w) < 64)%nat → few_tables (table_store ino t w).
Proof.
  intros Hs. unfold few_tables, table_store. destruct (w_writable w); [|lia]. cbn. pose proof (map_size_insert ino t (w_tables w)) as E.
  destruct (w_tables w !! ino); unfold id in E; lia.
Qed.

Lemma propagate_few pp e add w : few_tables w → few_tables (propagate pp e add w).
Proof.
  unfold few_tables. intros Hf. rewrite <- size_dom in *. replace (dom (w_tables (propagate pp e add w))) with (dom (w_tables w)); [done|].
  apply leibniz_equiv. intros i. rewrite !elem_of_dom. destruct (propagate_each pp e add w) as [_ Hp].
  destruct (Hp i) as [->|[_ ->]]; [done|]. by rewrite fmap_is_Some.
Qed.

(** Where a mount event has been, when [pp] is the group of the place. *)
Lemma after_event pp e add t w : w_writable w = true → (size (w_tables w) < 64)%nat ∨ few_tables w ∧ is_Some (w_tables w !! w_ns w) →
  let w' := propagate pp e add (table_store (w_ns w) t w) in
  w_ns w' = w_ns w ∧ w_writable w' = true ∧ few_tables w' ∧
  ∀ i, w_tables w' !! i = if decide (i = w_ns w) then Some t
    else if decide (i ≠ 0 ∧ pp ≠ 0) then receive pp e add <$> (w_tables w !! i) else w_tables w !! i.
Proof.
  intros Hw Hs. cbv zeta. destruct (table_store_rest (w_ns w) t w) as (En & Ew & _). rewrite Hw in Ew.
  assert (few_tables (table_store (w_ns w) t w)) as Hf.
  { destruct Hs as [Hs|[Hs [t0 Ht0]]]; [by apply few_store|]. unfold few_tables, table_store. rewrite Hw. cbn.
    pose proof (map_size_insert (w_ns w) t (w_tables w)) as E. rewrite Ht0 in E. unfold few_tables, id in *. lia. }
  assert (w_writable (propagate pp e add (table_store (w_ns w) t w)) = true) as Hw'.
  { unfold propagate. destruct (pp =? 0); [done|]. by apply propagate_all, each_table_nodup. }
  destruct (propagate_each pp e add (table_store (w_ns w) t w)) as [-> _]. split_and!; [done|done|by apply propagate_few|].
  intros i. destruct (decide (pp = 0)) as [->|Hp].
  - change (propagate 0 e add (table_store (w_ns w) t w)) with (table_store (w_ns w) t w). rewrite table_store_lookup, Hw.
    destruct (decide (i = w_ns w)) as [->|Hi]; [by rewrite decide_True|]. rewrite decide_False by (by intros [? _]).
    rewrite decide_False by (by intros [_ ?]). done.
  - rewrite propagate_lookup by done. rewrite En, table_store_lookup, Hw. destruct (decide (i = w_ns w)) as [->|Hi].
    + rewrite decide_False by (by intros [_ ?]). by rewrite decide_True.
    + rewrite (decide_False (P := i = w_ns w ∧ _)) by (by intros [? _]). destruct (decide (i ≠ 0)) as [H0|H0].
      * rewrite !decide_True by done. done.
      * rewrite !decide_False by (by intros [? _]). done.
Qed.

Definition own_table s : mount_table := (current_table (s_mounts s)).2.

(** What a successful bind leaves in every table. *)
Lemma bind_tables `{!MountHostLaws H} source target type flags data s s1 :
  has flags LINUX_MS_BIND = true → has flags LINUX_MS_REMOUNT = false → has flags LINUX_MS_MOVE = false →
  sys_mount source (Str target) type flags data s = Ret (0, s1) →
  w_writable (s_mounts s) = true → (size (w_tables (s_mounts s)) < 64)%nat →
  ∃ e t1, bound target e ∧ s_mounts s1 = propagate (parent_peer_of (own_table s) target) e true
      (table_store (w_ns (s_mounts s)) t1 (s_mounts s)) ∧
    e_cred (s_env s1) = e_cred (s_env s) ∧
    t_m t1 = match target_index target (t_m (own_table s)) with
             | Some i => <[i := e]> (t_m (own_table s))
             | None => t_m (own_table s) ++ [e]
             end.
Proof.
  intros Hb Hr Hm E Hw Hs. destruct (bind_mounted source target type flags data s s1 Hb Hr Hm E) as (_ & _ & _ & e & s0 & He & Em & Ec & En).
  exists e. eexists. unfold enter in En. injection En as <-. split; [done|].
  set (s2 := if _ && _ then _ else s0). assert (s_mounts s2 = s_mounts s ∧ e_cred (s_env s2) = e_cred (s_env s)) as [E2 E3].
  { subst s2. by destruct (_ && _). }
  split_and!; [cbn; by rewrite E2|done|done].
Qed.

(** C27: a bind that succeeds, when fewer than sixty-four tables are kept and
    they can be written, is mounted in exactly the other namespaces that have a
    member of the group of the mount it is under, or a slave of it, and have
    room or a mount at the very target, which it replaces, beside everything
    else they have; every other namespace is left as it was. Where more tables
    are kept, some of those that watch are not told: see
    [sixty_fifth_table_is_skipped]. *)
Theorem bind_reaches_exactly `{!MountHostLaws H} source target type flags data s s1 i t :
  has flags LINUX_MS_BIND = true → has flags LINUX_MS_REMOUNT = false → has flags LINUX_MS_MOVE = false →
  sys_mount source (Str target) type flags data s = Ret (0, s1) →
  w_writable (s_mounts s) = true → (size (w_tables (s_mounts s)) < 64)%nat →
  w_tables (s_mounts s) !! i = Some t → i ≠ 0 → i ≠ w_ns (s_mounts s) →
  let pp := parent_peer_of (own_table s) target in
  if decide (pp ≠ 0 ∧ watching pp t = true ∧ (Exists (λ m, m_target m = target) (t_m t) ∨ (length (t_m t) < MOUNT_MAX)%nat))
  then ∃ e t', bound target e ∧ e ∈ t_m (own_table s1) ∧ w_tables (s_mounts s1) !! i = Some t' ∧ e ∈ t_m t' ∧
    ∀ m, m ∈ t_m t → m_target m ≠ target → m ∈ t_m t'
  else w_tables (s_mounts s1) !! i = Some t.
Proof.
  intros Hb Hr Hm E Hw Hs Ht H0 Hi. cbv zeta.
  destruct (bind_tables source target type flags data s s1 Hb Hr Hm E Hw Hs) as (e & t1 & He & Em & _ & Et1).
  set (pp := parent_peer_of (own_table s) target) in *.
  destruct (after_event pp e true t1 (s_mounts s) Hw (or_introl Hs)) as (En & _ & _ & Hl). rewrite <- Em in *.
  assert (e ∈ t_m (own_table s1)) as Hown.
  { unfold own_table, current_table, table_load. rewrite En, Hl, decide_True by done. cbn [snd]. rewrite Et1.
    destruct (target_index target _) as [k|] eqn:Ek; [|apply elem_of_app; right; by left].
    apply target_index_some in Ek as (m & Hk & _). eapply (list_elem_of_lookup_2 _ k). apply list_lookup_insert_eq.
    by eapply lookup_lt_Some. }
  specialize (Hl i). rewrite decide_False, Ht in Hl by done. cbn in Hl. pose proof He as [Htg _ _].
  match goal with |- context [decide ?P] => destruct (decide P) as [Hc|Hc] end.
  - destruct Hc as (Hp & Hwt & Hroom). rewrite decide_True in Hl by done. exists e. unfold receive in Hl. rewrite Hwt in Hl. cbn [negb] in Hl.
    rewrite Htg in Hl. destruct (target_index target (t_m t)) as [k|] eqn:Ek.
    + destruct (target_index_some _ _ _ Ek) as (m0 & Hk & Hm0). eexists. split_and!; [done|done|exact Hl| |].
      * eapply (list_elem_of_lookup_2 _ k). apply list_lookup_insert_eq. by eapply lookup_lt_Some.
      * intros m Hin Hne. apply list_elem_of_lookup in Hin as [j Hj]. eapply (list_elem_of_lookup_2 _ j).
        cbn [t_m]. rewrite list_lookup_insert_ne; [done|]. intros ->. congruence.
    + assert (length (t_m t) < MOUNT_MAX)%nat as Hlt.
      { destruct Hroom as [(m & Hin & Hmt)%Exists_exists|?]; [|done]. by destruct (proj1 (target_index_none _ _) Ek m Hin). }
      rewrite (proj2 (Nat.ltb_lt _ _) Hlt) in Hl. eexists. split_and!; [done|done|exact Hl| |].
      * cbn [t_m]. apply elem_of_app. right. by left.
      * intros m Hin _. apply elem_of_app. by left.
  - destruct (decide (i ≠ 0 ∧ pp ≠ 0)) as [[_ Hp]|]; [|done]. rewrite Hl. f_equal. unfold receive.
    destruct (watching pp t) eqn:Hwt; [|done]. cbn [negb]. rewrite Htg.
    destruct (target_index target (t_m t)) as [k|] eqn:Ek.
    + destruct Hc. split_and!; [done|done|left]. apply target_index_some in Ek as (m & Hk & Hmt). apply Exists_exists.
      exists m. split; [by eapply list_elem_of_lookup_2|done].
    + destruct (length (t_m t) <? MOUNT_MAX)%nat eqn:El; [|done]. apply Nat.ltb_lt in El. destruct Hc. split_and!; [done|done|by right].
Qed.

(** Unmounting the last mount of the table. *)
Lemma umount_last target e ms nid s :
  let w := s_mounts s in
  may_mount (e_cred (s_env s)) = true → (length target < 256)%nat → w_tables w !! w_ns w = Some (mk_table (ms ++ [e]) nid) →
  bound target e → (∀ m, m ∈ ms → m_target m ≠ target) →
  sys_umount2 (Str target) s =
    Ret (0, set_mounts (propagate (parent_peer_of (mk_table ms nid) target) e false (table_store (w_ns w) (mk_table ms nid) w)) s).
Proof.
  intros w Hmay Hlen Et [Htg [Hdev Hty] _] Hf. unfold sys_umount2. rewrite Hmay. cbn [negb].
  change (get_str MOUNT_PATH_MAX (Str target)) with (if (length target <? MOUNT_PATH_MAX)%nat then Ret (Got target) else Stop Faulted).
  rewrite (proj2 (Nat.ltb_lt _ _)) by done. cbn [mbind outcome_bind]. fold w. unfold current_table, table_load. rewrite Et. cbn [negb t_m].
  rewrite list_find_app_r by (by apply list_find_None, Forall_forall). cbn [list_find]. rewrite decide_True by done.
  cbn [fmap option_fmap option_map prod_map fst snd id]. unfold strcmp. rewrite Hty, (bool_decide_false (lit "none" = lit "tmpfs")) by done.
  cbn [andb]. rewrite bool_decide_true by done. fold w. do 2 f_equal. f_equal. cbn [t_next_id]. rewrite Nat.add_0_l, delete_middle, app_nil_r.
  f_equal. unfold parent_peer_of. cbn [t_m]. rewrite Htg. by rewrite parent_loop_skip.
Qed.

Definition entries (i : Z) s : list mount_entry := default [] (t_m <$> (w_tables (s_mounts s) !! i)).

(** C28: a bind that succeeds where neither the caller nor anyone who watches
    the place had a mount at the target, with room in every table that watches,
    fewer than sixty-four tables kept and all of them writable, is undone by
    umount2: every namespace has the mounts it had, those the bind was
    propagated to included. A mount that was at the target is lost: see
    [second_mount_replaces_first]. *)
Theorem umount_undoes_bind `{!MountHostLaws H} source target type flags data s s1 :
  has flags LINUX_MS_BIND = true → has flags LINUX_MS_REMOUNT = false → has flags LINUX_MS_MOVE = false →
  sys_mount source (Str target) type flags data s = Ret (0, s1) →
  w_writable (s_mounts s) = true → (size (w_tables (s_mounts s)) < 64)%nat →
  (∀ m, m ∈ t_m (own_table s) → m_target m ≠ target) →
  (∀ i t, w_tables (s_mounts s) !! i = Some t → watching (parent_peer_of (own_table s) target) t = true →
    (∀ m, m ∈ t_m t → m_target m ≠ target) ∧ (length (t_m t) < MOUNT_MAX)%nat) →
  ∃ s2, sys_umount2 (Str target) s1 = Ret (0, s2) ∧ ∀ i, entries i s2 = entries i s.
Proof.
  intros Hb Hr Hm E Hw Hs Hf Hwatch.
  destruct (bind_mounted source target type flags data s s1 Hb Hr Hm E) as (Hmay & Hlen & _ & _).
  destruct (bind_tables source target type flags data s s1 Hb Hr Hm E Hw Hs) as (e & t1 & He & Em & Ec & Et1).
  set (pp := parent_peer_of (own_table s) target) in *.
  destruct (after_event pp e true t1 (s_mounts s) Hw (or_introl Hs)) as (En & Ew & Hfew & Hl). rewrite <- Em in *.
  rewrite (proj2 (target_index_none _ _)) in Et1 by done. destruct t1 as [ms1 nid]. cbn [t_m] in Et1. subst ms1.
  assert (w_tables (s_mounts s1) !! w_ns (s_mounts s1) = Some (mk_table (t_m (own_table s) ++ [e]) nid)) as Eown
    by (rewrite En, Hl; by rewrite decide_True).
  eexists. split; [apply umount_last; [by rewrite Ec|done|done|done|done]|]. intros i.
  change (parent_peer_of (mk_table (t_m (own_table s)) nid) target) with pp. unfold entries. cbn [s_mounts set_mounts s_env with_mounts e_mounts].
  destruct (after_event pp e false (mk_table (t_m (own_table s)) nid) (s_mounts s1) Ew) as (_ & _ & _ & Hl2); [right; split; [done|by rewrite Eown]|].
  change (s_mounts (set_mounts ?x s1)) with x. rewrite Hl2, Hl, En.
  destruct (decide (i = w_ns (s_mounts s))) as [->|Hi].
  - cbn. unfold own_table, current_table, table_load. by destruct (w_tables (s_mounts s) !! w_ns (s_mounts s)).
  - destruct (decide (i ≠ 0 ∧ pp ≠ 0)); [|done]. destruct (w_tables (s_mounts s) !! i) as [t|] eqn:Ei; [|done]. cbn.
    apply receive_undo; [apply He|]. rewrite (bo_target _ _ He). by apply (Hwatch i).
Qed.
End Effects.

(** * Namespaces to mount in *)

#[export] Instance demo_mount_host : MountHost demo_fs := {|
  h_tmpdir _ := lit "/tmp";
  h_mkdtemp t h := (inr t, h);
  h_chmod _ _ h := h;
  h_umask _ := 0x12;
  h_create _ h := (None, h);
  h_rmdir _ h := h;
  h_rmtree _ h := h;
  h_stat p h := if bool_decide (p ∈ d_absent h) then Some ENOENT else None;
  h_cgroup _ h := (inr (lit "/tmp/nabi-cgroup"), h);
  h_loop _ _ := None;
  h_image_mount _ h := (inl (- ENODEV), h);
  h_image_unmount _ _ h := (true, h);
  h_binder_emulated _ := false;
  h_binder_nodes _ h := h;
|}.

#[export] Instance demo_mount_laws : MountHostLaws demo_fs.
Proof. split. cbn. intros p h err. case_bool_decide; [by intros [= <-]|done]. Qed.

Definition shared_root : mount_entry := mk_entry (lit "rootfs") (lit "/") (lit "rootfs") [] [] 0 30 LINUX_MS_SHARED 3 0.

(** The process in namespace 7, whose root is shared with namespace 9;
    namespace 11 has a mount of its own. *)
Definition three_spaces : mounts :=
  mk_mounts 7 {[ 7 := mk_table [shared_root] 31; 9 := mk_table [shared_root] 31; 11 := mk_table [bind_on "/x" "/h" 30] 31 ]} 4 true.
Definition demo_st : st demo_fs := mk_st (root_env three_spaces) None plain_tree.
Abbreviation bind_demo := (sys_mount (Str (lit "/src")) (Str (lit "/mnt")) Null LINUX_MS_BIND Null demo_st).
Definition bound_st : st demo_fs := (ret_or (0, demo_st) bind_demo).2.

Lemma bind_demo_ok : bind_demo = Ret (0, bound_st).
Proof. vm_compute. reflexivity. Qed.

Lemma private_mounts_isolated_witness :
  let s' := set_mounts (unshare_mounts 20 (s_mounts bound_st)) bound_st in
  rtc (mstep_off 11) demo_st s' ∧ w_tables (s_mounts s') !! 11 = Some (mk_table [bind_on "/x" "/h" 30] 31).
Proof.
  intros s'. assert (rtc (mstep_off 11) demo_st s') as Hs.
  { eapply rtc_l; [|apply rtc_once].
    - split; [eapply step_mount; exact bind_demo_ok|vm_compute; discriminate].
    - split; [apply step_unshare|vm_compute; discriminate]. }
  split; [exact Hs|]. apply (private_mounts_isolated demo_st s' 11 _ Hs); [done|reflexivity|]. by repeat constructor.
Defined.

Lemma demo_bounded : bounded (s_mounts demo_st).
Proof.
  intros i t E. change (w_tables (s_mounts demo_st)) with (w_tables three_spaces) in E. unfold three_spaces in E. cbn [w_tables] in E.
  apply lookup_insert_Some in E as [[_ <-]|[_ E]]; [by apply Nat.leb_le|].
  apply lookup_insert_Some in E as [[_ <-]|[_ [_ <-]%lookup_singleton_Some]]; by apply Nat.leb_le.
Qed.

Lemma tables_stay_bounded_witness : bounded (s_mounts bound_st).
Proof. apply (tables_stay_bounded demo_st bound_st); [apply rtc_once; eapply step_mount; exact bind_demo_ok|exact demo_bounded]. Defined.

Lemma bind_reaches_exactly_witness :
  ∃ e t', bound (lit "/mnt") e ∧ e ∈ t_m (own_table bound_st) ∧ w_tables (s_mounts bound_st) !! 9 = Some t' ∧ e ∈ t_m t' ∧
    ∀ m, m ∈ [shared_root] → m_target m ≠ lit "/mnt" → m ∈ t_m t'.
Proof.
  pose proof (bind_reaches_exactly (Str (lit "/src")) (lit "/mnt") Null LINUX_MS_BIND Null demo_st bound_st 9 (mk_table [shared_root] 31)
    eq_refl eq_refl eq_refl bind_demo_ok eq_refl ltac:(apply Nat.ltb_lt; vm_compute; reflexivity) eq_refl ltac:(done) ltac:(done)) as E.
  cbv zeta in E. rewrite decide_True in E; [exact E|]. split_and!; [done|done|]. right. cbn. unfold MOUNT_MAX. lia.
Defined.

Lemma umount_undoes_bind_witness :
  ∃ s2, sys_umount2 (Str (lit "/mnt")) bound_st = Ret (0, s2) ∧ ∀ i, entries i s2 = entries i demo_st.
Proof.
  apply (umount_undoes_bind (Str (lit "/src")) (lit "/mnt") Null LINUX_MS_BIND Null demo_st bound_st eq_refl eq_refl eq_refl bind_demo_ok eq_refl).
  - apply Nat.ltb_lt. vm_compute. reflexivity.
  - intros m [->|?%not_elem_of_nil]%elem_of_cons; done.
  - intros i t E _. change (w_tables (s_mounts demo_st)) with (w_tables three_spaces) in E. unfold three_spaces in E. cbn [w_tables] in E.
    apply lookup_insert_Some in E as [[_ <-]|[_ E]]; [|apply lookup_insert_Some in E as [[_ <-]|[_ [_ <-]%lookup_singleton_Some]]].
    all: split; [intros m [->|?%not_elem_of_nil]%elem_of_cons; done|cbn; unfold MOUNT_MAX; lia].
Defined.

(** * What the calls get wrong *)

(** A mount at a target that has one takes its place; Linux keeps the first
    below it, and shows it again when the second is unmounted. *)
Example second_mount_replaces_first :
  let mount src s := (ret_or (0, s) (sys_mount (Str (lit src)) (Str (lit "/mnt")) Null LINUX_MS_BIND Null s)).2 in
  let s1 := mount "/a" demo_st in
  let s2 := mount "/b" s1 in
  let s3 := (ret_or (0, s2) (sys_umount2 (Str (lit "/mnt")) s2)).2 in
  length (entries 7 s1) = 2%nat ∧ length (entries 7 s2) = 2%nat ∧ entries 7 s3 = entries 7 demo_st.
Proof. split_and!; vm_compute; reflexivity. Qed.

(** With sixty-five other tables that all watch, one is not told. *)
Example sixty_fifth_table_is_skipped :
  let tables : gmap Z mount_table := list_to_map ((λ n, (Z.of_nat n + 7, mk_table [shared_root] 31)) <$> seq 0 66) in
  let s : st demo_fs := mk_st (root_env (mk_mounts 7 tables 5 true)) None plain_tree in
  let s' := (ret_or (0, s) (sys_mount (Str (lit "/src")) (Str (lit "/mnt")) Null LINUX_MS_BIND Null s)).2 in
  size tables = 66%nat ∧ length (filter (λ it, length (t_m it.2) = 2%nat) (map_to_list (w_tables (s_mounts s')))) = 65%nat.
Proof. split; vm_compute; reflexivity. Qed.

(** A mount made private by mount_setattr keeps its peer group: what is mounted
    below it still goes to the other namespaces. *)
Example setattr_private_still_shares :
  let made := sys_mount_setattr (Str (lit "/")) 0 32 (Some (mk_attr 0 0 LINUX_MS_PRIVATE 0)) [] demo_st in
  let s := (ret_or (0, demo_st) made).2 in
  let s' := (ret_or (0, s) (sys_mount (Str (lit "/src")) (Str (lit "/mnt")) Null LINUX_MS_BIND Null s)).2 in
  m_propagation <$> t_m (own_table s) = [LINUX_MS_PRIVATE] ∧ m_target <$> entries 9 s' = [lit "/"; lit "/mnt"].
Proof. split; vm_compute; reflexivity. Qed.

(** A bound directory's name on the host is cut at 255 characters. *)
Example bind_cuts_host_name :
  let source := slash :: replicate 253 "a"%char in
  let s' := (ret_or (0, demo_st) (sys_mount (Str source) (Str (lit "/mnt")) Null LINUX_MS_BIND Null demo_st)).2 in
  m_hostdir <$> last (t_m (own_table s')) = Some (lit "/img/" ++ replicate 250 "a"%char).
Proof. vm_compute. reflexivity. Qed.

(** Moved to the root, the mounts below one are at names with two slashes. *)
Example move_to_root_doubles_slash :
  let s := mk_st (root_env (demo_mounts [bind_on "/a" "/h" 30; bind_on "/a/b" "/k" 31])) None plain_tree in
  m_target <$> t_m (own_table (ret_or (0, s) (sys_mount (Str (lit "/a")) (Str (lit "/")) Null LINUX_MS_MOVE Null s)).2) = [lit "/"; lit "//b"].
Proof. vm_compute. reflexivity. Qed.

(** A file system type of sixteen characters is left without its end. *)
Example long_type_runs_on :
  sys_mount Null (Str (lit "/mnt")) (Str (lit "fuse.gvfsd-fuse4")) 0 Null demo_st = Stop Faulted.
Proof. vm_compute. reflexivity. Qed.
