(* ===== verification/Cred.v ===== *)
(** Credentials, src/proc/process.c: the user and group ids a guest process
    has, its supplementary groups, its capabilities and securebits, the calls
    that change them, and what exec and a resumed child do to them. The ids are
    nabi's own: the host process keeps its account throughout. *)

From S2P Require Import Prelude Host RbTree Regions UserCopy PidNs Guest Names MountTable Paths.

(** * The process *)

(** (l_uid_t) -1, an id that is to stay as it is. *)
Definition NOID : Z := 2^32 - 1.

Definition LINUX_NGROUPS_MAX : Z := 1024.

(** struct cred. *)
Record cred := mk_cred {
  uid : Z; euid : Z; suid : Z; gid : Z; egid : Z; sgid : Z; fsuid : Z; fsgid : Z;
}.

(** The capability sets, 64 bits each, and the flag of PR_SET_KEEPCAPS. *)
Record caps := mk_caps {
  cap_effective : Z; cap_permitted : Z; cap_inheritable : Z; cap_bounding : Z; cap_ambient : Z;
  cap_keepcaps : Z;
}.

(** [guest_groups] is the whole array, of which the first [nr_guest_groups]
    count; [p_tab] is the file of published credentials, which all of nabi's
    processes share. *)
Record proc := mk_proc {
  p_cred : cred;
  guest_groups : list Z;
  nr_guest_groups : Z;
  p_caps : caps;
  securebits : Z;
  p_tab : option CredTab.credtab;
}.

Definition set_uids (r e s f : Z) (c : cred) : cred := mk_cred r e s (gid c) (egid c) (sgid c) f (fsgid c).
Definition set_gids (r e s f : Z) (c : cred) : cred := mk_cred (uid c) (euid c) (suid c) r e s (fsuid c) f.
Definition set_cred (c : cred) (p : proc) : proc :=
  mk_proc c (guest_groups p) (nr_guest_groups p) (p_caps p) (securebits p) (p_tab p).
Definition set_caps (k : caps) (p : proc) : proc :=
  mk_proc (p_cred p) (guest_groups p) (nr_guest_groups p) k (securebits p) (p_tab p).
Definition set_groups (a : list Z) (n : Z) (p : proc) : proc :=
  mk_proc (p_cred p) a n (p_caps p) (securebits p) (p_tab p).
Definition set_securebits (b : Z) (p : proc) : proc :=
  mk_proc (p_cred p) (guest_groups p) (nr_guest_groups p) (p_caps p) b (p_tab p).
Definition set_tab (t : option CredTab.credtab) (p : proc) : proc :=
  mk_proc (p_cred p) (guest_groups p) (nr_guest_groups p) (p_caps p) (securebits p) t.

(** The groups the process is in. *)
Definition groups (p : proc) : list Z := take (Z.to_nat (nr_guest_groups p)) (guest_groups p).

(** What the permission checks of Paths.v see of it. *)
Definition view (p : proc) : creds :=
  let c := p_cred p in mk_creds (uid c) (gid c) (euid c) (egid c) (fsuid c) (fsgid c) (groups p).

(** What copy_from_user has copied when it returns, in full or up to the
    fault: the array of groups is copied into where it stands. *)
Class PartialCopy (G : Type) `{GuestMem G} := {
  copied : Z → Z → G → list Z;
  copied_all p n g l : copy_in p n g = Some l → copied p n g = l;
}.

Definition kernel_copied {H} `{HIO : HostIOLaws H} (p n : Z) (k : kernel_mem H) : list Z :=
  match copy_from_user (k_mm k) (k_vkern k) p n (k_host k) with Ret (_, l) => l | Stop _ => [] end.

#[export] Program Instance kernel_partial {H} `{HIO : HostIOLaws H} : PartialCopy (kernel_mem H) := {| copied := kernel_copied |}.
Next Obligation.
  intros H ??? p n k l E. cbn in E. unfold kernel_copy_in in E. unfold kernel_copied.
  destruct (copy_from_user _ _ p n _) as [[rest l']|]; [|done]. destruct (rest =? 0); [|done]. by injection E as ->.
Qed.

Fixpoint flat_copied (ds : list Z) (p : Z) (g : flat) : list Z :=
  match ds with
  | [] => []
  | d :: ds => match (g : gmap Z Z) !! (p + d) with Some b => b :: flat_copied ds p g | None => [] end
  end.

#[export] Program Instance flat_partial : PartialCopy flat := {| copied p n g := flat_copied (counter 1 n) p g |}.
Next Obligation.
  intros p n g. cbn. unfold flat_in. induction (counter 1 n) as [|d ds IH]; intros l E; cbn in *.
  - by injection E as <-.
  - destruct ((g : gmap Z Z) !! (p + d)) as [b|]; [|done]. cbn in E. destruct (mapM _ ds) as [t|] eqn:Et; [|done].
    cbn in E. injection E as <-. by rewrite (IH t).
Qed.

(** * Capabilities and securebits *)

Definition ALL_BITS : Z := 2^64 - 1.
Definition LINUX_CAP_SETPCAP : Z := 8.
Definition LINUX_CAP_LAST_CAP : Z := 40.
Definition CAP_FULL_SET : Z := if 63 <=? LINUX_CAP_LAST_CAP then ALL_BITS else Z.shiftl 1 (LINUX_CAP_LAST_CAP + 1) - 1.

Definition SECBIT_NO_SETUID_FIXUP : Z := 0x04.
Definition SECBIT_KEEP_CAPS : Z := 0x10.
Definition SECBIT_NO_CAP_AMBIENT_RAISE : Z := 0x40.
Definition SECUREBITS_BITS : Z := 0x55.
Definition SECUREBITS_LOCKS : Z := 0xaa.
Definition SECUREBITS_KNOWN : Z := Z.lor SECUREBITS_BITS SECUREBITS_LOCKS.

(** The sets before anything has changed them. *)
Definition caps_initial : caps := mk_caps ALL_BITS ALL_BITS 0 ALL_BITS 0 0.

Definition set_effective (x : Z) (k : caps) : caps :=
  mk_caps x (cap_permitted k) (cap_inheritable k) (cap_bounding k) (cap_ambient k) (cap_keepcaps k).
Definition set_permitted (x : Z) (k : caps) : caps :=
  mk_caps (cap_effective k) x (cap_inheritable k) (cap_bounding k) (cap_ambient k) (cap_keepcaps k).
Definition set_bounding (x : Z) (k : caps) : caps :=
  mk_caps (cap_effective k) (cap_permitted k) (cap_inheritable k) x (cap_ambient k) (cap_keepcaps k).
Definition set_ambient (x : Z) (k : caps) : caps :=
  mk_caps (cap_effective k) (cap_permitted k) (cap_inheritable k) (cap_bounding k) x (cap_keepcaps k).
Definition set_keepcaps (x : Z) (k : caps) : caps :=
  mk_caps (cap_effective k) (cap_permitted k) (cap_inheritable k) (cap_bounding k) (cap_ambient k) x.

Definition cap_after_setresuid (was_priv now_unpriv : bool) (old_euid new_euid sb : Z) (k : caps) : caps :=
  if has sb SECBIT_NO_SETUID_FIXUP then k
  else
    let keep := negb (cap_keepcaps k =? 0) || has sb SECBIT_KEEP_CAPS in
    let k :=
      if was_priv && now_unpriv then
        let k := if negb keep then set_effective 0 (set_permitted 0 k) else k in
        if negb (has sb SECBIT_NO_CAP_AMBIENT_RAISE) then set_ambient 0 k else k
      else k in
    let k := if (old_euid =? 0) && negb (new_euid =? 0) then set_effective 0 k else k in
    if negb (old_euid =? 0) && (new_euid =? 0) then set_effective (cap_permitted k) k else k.

Definition cap_after_exec (k : caps) : caps :=
  let k := set_permitted (Z.lor (cap_permitted k) (cap_ambient k)) k in
  set_effective (Z.lor (cap_effective k) (cap_ambient k)) k.

Definition cap_start_unprivileged (k : caps) : caps :=
  mk_caps 0 0 0 (cap_bounding k) (cap_ambient k) (cap_keepcaps k).

(** * The ids *)

Definition may_become (c : cred) (want : Z) : bool :=
  (want =? NOID) || (euid c =? 0) || (want =? uid c) || (want =? euid c) || (want =? suid c).

Definition may_become_gid (c : cred) (want : Z) : bool :=
  (want =? NOID) || (euid c =? 0) || (want =? gid c) || (want =? egid c) || (want =? sgid c).

(** [if (want != -1) field = want]. *)
Definition or_keep (want old : Z) : Z := if want =? NOID then old else want.

Section Calls.
(** This process's host pid, and whether a pid's process is gone. *)
Context (me : Z) (gone : Z → bool).

Definition publish (p : proc) : proc :=
  set_tab (CredTab.cred_publish gone me (euid (p_cred p)) (egid (p_cred p)) (p_tab p)) p.

Definition do_setresuid (ruid eu su : Z) (p : proc) : Z * proc :=
  let c := p_cred p in
  if negb (may_become c ruid) || negb (may_become c eu) || negb (may_become c su) then (- EPERM, p)
  else
    let r := or_keep ruid (uid c) in let e := or_keep eu (euid c) in let s := or_keep su (suid c) in
    let was_priv := (uid c =? 0) || (euid c =? 0) || (suid c =? 0) in
    let now_unpriv := negb (r =? 0) && negb (e =? 0) && negb (s =? 0) in
    let k := cap_after_setresuid was_priv now_unpriv (euid c) e (securebits p) (p_caps p) in
    (0, publish (set_caps k (set_cred (set_uids r e s e c) p))).

Definition do_setresgid (rgid eg sg : Z) (p : proc) : Z * proc :=
  let c := p_cred p in
  if negb (may_become_gid c rgid) || negb (may_become_gid c eg) || negb (may_become_gid c sg) then (- EPERM, p)
  else
    let r := or_keep rgid (gid c) in let e := or_keep eg (egid c) in let s := or_keep sg (sgid c) in
    (0, publish (set_cred (set_gids r e s e c) p)).

Definition sys_setresuid (ruid eu su : Z) (p : proc) : Z * proc := do_setresuid ruid eu su p.
Definition sys_setresgid (rgid eg sg : Z) (p : proc) : Z * proc := do_setresgid rgid eg sg p.

Definition sys_setreuid (ruid eu : Z) (p : proc) : Z * proc :=
  let c := p_cred p in
  if negb (may_become c ruid) || negb (may_become c eu) then (- EPERM, p)
  else if negb (ruid =? NOID) && negb (euid c =? 0) && negb (ruid =? uid c) && negb (ruid =? euid c) then (- EPERM, p)
  else
    let new_suid :=
      if negb (ruid =? NOID) || (negb (eu =? NOID) && negb (eu =? uid c))
      then (if negb (eu =? NOID) then eu else euid c) else NOID in
    do_setresuid ruid eu new_suid p.

Definition sys_setregid (rgid eg : Z) (p : proc) : Z * proc :=
  let c := p_cred p in
  if negb (may_become_gid c rgid) || negb (may_become_gid c eg) then (- EPERM, p)
  else if negb (rgid =? NOID) && negb (euid c =? 0) && negb (rgid =? gid c) && negb (rgid =? egid c) then (- EPERM, p)
  else
    let new_sgid :=
      if negb (rgid =? NOID) || (negb (eg =? NOID) && negb (eg =? gid c))
      then (if negb (eg =? NOID) then eg else egid c) else NOID in
    do_setresgid rgid eg new_sgid p.

(** The answer is the id there was, whether or not it changed. *)
Definition sys_setfsuid (f : Z) (p : proc) : Z * proc :=
  let c := p_cred p in
  let may := negb (f =? NOID) &&
    ((euid c =? 0) || (f =? uid c) || (f =? euid c) || (f =? suid c) || (f =? fsuid c)) in
  (s32 (fsuid c), if may then set_cred (set_uids (uid c) (euid c) (suid c) f c) p else p).

Definition sys_setfsgid (f : Z) (p : proc) : Z * proc :=
  let c := p_cred p in
  let may := negb (f =? NOID) &&
    ((euid c =? 0) || (f =? gid c) || (f =? egid c) || (f =? sgid c) || (f =? fsgid c)) in
  (s32 (fsgid c), if may then set_cred (set_gids (gid c) (egid c) (sgid c) f c) p else p).

Definition sys_setuid (u : Z) (p : proc) : Z * proc :=
  let c := p_cred p in
  if u =? NOID then (- EINVAL, p)
  else if euid c =? 0 then do_setresuid u u u p
  else if negb (uid c =? u) && negb (suid c =? u) then (- EPERM, p)
  else do_setresuid NOID u NOID p.

Definition sys_setgid (g : Z) (p : proc) : Z * proc :=
  if euid (p_cred p) =? 0 then do_setresgid g g g p else do_setresgid NOID g NOID p.

(** A set-user-ID or set-group-ID image. *)
Definition S_ISUID : Z := 0x800.
Definition S_ISGID : Z := 0x400.

Definition elevate_privilege (owner_uid owner_gid mode : Z) (p : proc) : proc :=
  let c := p_cred p in
  let c := if has mode S_ISUID then set_uids (uid c) owner_uid owner_uid owner_uid c else c in
  let c := if has mode S_ISGID then set_gids (gid c) owner_gid owner_gid owner_gid c else c in
  publish (set_cred c p).

(** exec of an ELF file with this owner and mode: what it does to the
    credentials. *)
Definition exec_creds (owner_uid owner_gid mode : Z) (p : proc) : proc :=
  let p := set_caps (cap_after_exec (p_caps p)) p in
  if has mode (Z.lor S_ISUID S_ISGID) then elevate_privilege owner_uid owner_gid mode p else p.

(** The process nabi is started as. *)
Definition init_creds (initial_uid initial_gid : Z) (tab : option CredTab.credtab) : proc :=
  let u := initial_uid in let g := initial_gid in
  let p := publish (mk_proc (mk_cred u u u g g g u g) (replicate (Z.to_nat LINUX_NGROUPS_MAX) 0) 0 caps_initial 0 tab) in
  if u =? 0 then p else set_caps (cap_start_unprivileged (p_caps p)) p.

(** * Groups *)

Definition guest_groups_set (g : list Z) (n : Z) (p : proc) : proc :=
  if (n <? 0) || (LINUX_NGROUPS_MAX <? n) then p
  else set_groups (take (Z.to_nat n) g ++ drop (Z.to_nat n) (guest_groups p)) n p.

(** A child rebuilt from its parent's checkpoint [h]: the ids and the groups
    are carried over, the rest is as in a new process. *)
Definition resume_creds (h : proc) (tab : option CredTab.credtab) : proc :=
  let fresh := mk_proc (mk_cred 0 0 0 0 0 0 0 0) (replicate (Z.to_nat LINUX_NGROUPS_MAX) 0) 0 caps_initial 0 tab in
  let p := guest_groups_set (groups h) (nr_guest_groups h) fresh in
  publish (set_cred (p_cred h) p).

(** ** Over the guest's memory *)

Context {G : Type} `{PartialCopy G}.

(** The ids an array of bytes holds. *)
Fixpoint ids_of (l : list Z) : list Z :=
  match l with
  | a :: b :: c :: d :: l => le_load [a; b; c; d] :: ids_of l
  | _ => []
  end.

Definition bytes_of (l : list Z) : list Z := l ≫= le_store 4.

Definition sys_getgroups (gidsetsize grouplist_ptr : Z) (p : proc) (g : G) : Z * G :=
  let n := nr_guest_groups p in
  if gidsetsize =? 0 then (n, g)
  else if gidsetsize <? n then (- EINVAL, g)
  else if 0 <? n then
    let '(ok, g) := copy_out grouplist_ptr (bytes_of (groups p)) g in (if ok then n else - EFAULT, g)
  else (n, g).

Definition sys_setgroups (gidsetsize grouplist_ptr : Z) (p : proc) (g : G) : Z * proc :=
  if (gidsetsize <? 0) || (LINUX_NGROUPS_MAX <? gidsetsize) then (- EINVAL, p)
  else if negb (euid (p_cred p) =? 0) then (- EPERM, p)
  else if 0 <? gidsetsize then
    let l := copied grouplist_ptr (gidsetsize * 4) g in
    let a := ids_of (l ++ drop (length l) (bytes_of (guest_groups p))) in
    match copy_in grouplist_ptr (gidsetsize * 4) g with
    | None => (- EFAULT, set_groups a (nr_guest_groups p) p)
    | Some _ => (0, set_groups a gidsetsize p)
    end
  else (0, set_groups (guest_groups p) gidsetsize p).

Definition sys_getresuid (ruid eu su : Z) (p : proc) (g : G) : Z * G :=
  let c := p_cred p in
  let '(ok, g) := put_int ruid 4 (uid c) g in
  if negb ok then (- EFAULT, g)
  else
    let '(ok, g) := put_int eu 4 (euid c) g in
    if negb ok then (- EFAULT, g)
    else
      let '(ok, g) := put_int su 4 (suid c) g in
      (if ok then 0 else - EFAULT, g).

(** ** capget and capset *)

Definition LINUX_CAPABILITY_VERSION_1 : Z := 0x19980330.
Definition LINUX_CAPABILITY_VERSION_2 : Z := 0x20071026.
Definition LINUX_CAPABILITY_VERSION_3 : Z := 0x20080522.
Definition LINUX_CAPABILITY_U32S_1 : Z := 1.
Definition LINUX_CAPABILITY_U32S_3 : Z := 2.

(** The pid of the header and how many words a set has, or an error; a version
    there is none of is corrected in the guest's memory. *)
Definition cap_version (header_ptr : Z) (g : G) : (Z + Z * Z) * G :=
  match copy_in header_ptr 8 g with
  | None => (inl (- EFAULT), g)
  | Some l =>
      let version := le_load (take 4 l) in let pid := s32 (le_load (drop 4 l)) in
      if version =? LINUX_CAPABILITY_VERSION_1 then (inr (pid, LINUX_CAPABILITY_U32S_1), g)
      else if (version =? LINUX_CAPABILITY_VERSION_2) || (version =? LINUX_CAPABILITY_VERSION_3)
      then (inr (pid, LINUX_CAPABILITY_U32S_3), g)
      else
        let '(ok, g) := copy_out header_ptr (le_store 4 LINUX_CAPABILITY_VERSION_3 ++ drop 4 l) g in
        (inl (if ok then - EINVAL else - EFAULT), g)
  end.

(** The caller's pid namespace and the tables of PidNs.v. *)
Context (self_ns : Z) (pid_files : PidNs.files).

Definition cap_check_pid (pid : Z) : Z :=
  if pid <? 0 then - EINVAL
  else if pid =? 0 then 0
  else
    let h := PidNs.pidns_to_host self_ns pid pid_files in
    if (h <? 0) || negb (h =? me) then - ESRCH else 0.

(** struct l_user_cap_data, for the low word of the sets or the high one. *)
Definition cap_data (eff perm inh : Z) : list Z := le_store 4 (u32 eff) ++ le_store 4 (u32 perm) ++ le_store 4 (u32 inh).

Definition sys_capget (header_ptr data_ptr : Z) (p : proc) (g : G) : Z * G :=
  match cap_version header_ptr g with
  | (inl r, g) => (r, g)
  | (inr (pid, nwords), g) =>
      let r := cap_check_pid pid in
      if r <? 0 then (r, g)
      else if data_ptr =? 0 then (0, g)
      else
        let k := p_caps p in
        let eff := Z.land (cap_effective k) CAP_FULL_SET in
        let perm := Z.land (cap_permitted k) CAP_FULL_SET in
        let inh := Z.land (cap_inheritable k) CAP_FULL_SET in
        let data := cap_data eff perm inh ++
          (if 1 <? nwords then cap_data (Z.shiftr eff 32) (Z.shiftr perm 32) (Z.shiftr inh 32) else []) in
        let '(ok, g) := copy_out data_ptr data g in
        (if ok then 0 else - EFAULT, g)
  end.

(** The field at byte [o] of both words of [data]. *)
Definition cap_field (l : list Z) (nwords : Z) (o : nat) : Z :=
  let lo := le_load (take 4 (drop o l)) in
  if 1 <? nwords then Z.lor lo (Z.shiftl (le_load (take 4 (drop (12 + o) l))) 32) else lo.

Definition capset_sets (eff perm inh : Z) (k : caps) : Z * caps :=
  let held := cap_permitted k in
  if negb (Z.ldiff eff perm =? 0) || negb (Z.ldiff perm held =? 0) || negb (Z.ldiff inh held =? 0) then (- EPERM, k)
  else (0, mk_caps (Z.land eff CAP_FULL_SET) (Z.land perm CAP_FULL_SET) (Z.land inh CAP_FULL_SET)
                   (cap_bounding k) (cap_ambient k) (cap_keepcaps k)).

Definition sys_capset (header_ptr data_ptr : Z) (p : proc) (g : G) : Z * proc * G :=
  match cap_version header_ptr g with
  | (inl r, g) => (r, p, g)
  | (inr (pid, nwords), g) =>
      let r := if negb (pid =? 0) then cap_check_pid pid else 0 in
      if r <? 0 then (r, p, g)
      else if data_ptr =? 0 then (- EFAULT, p, g)
      else
        match copy_in data_ptr (12 * nwords) g with
        | None => (- EFAULT, p, g)
        | Some l =>
            let '(r, k) := capset_sets (cap_field l nwords 0) (cap_field l nwords 4) (cap_field l nwords 8) (p_caps p) in
            (r, set_caps k p, g)
        end
  end.

(** ** prctl *)

Definition LINUX_PR_GET_KEEPCAPS : Z := 7.
Definition LINUX_PR_SET_KEEPCAPS : Z := 8.
Definition LINIX_PR_CAPBSET_READ : Z := 23.
Definition LINIX_PR_CAPBSET_DROP : Z := 24.
Definition LINIX_PR_GET_SECUREBITS : Z := 27.
Definition LINIX_PR_SET_SECUREBITS : Z := 28.
Definition LINIX_PR_CAP_AMBIENT : Z := 47.

Definition any (l : list Z) : bool := existsb (λ a, negb (a =? 0)) l.
Definition bit (set n : Z) : Z := Z.land (Z.shiftr set n) 1.
Definition clear_bit (set n : Z) : Z := Z.ldiff set (Z.shiftl 1 n).

Definition prctl_keepcaps (arg1 arg2 arg3 arg4 : Z) (p : proc) : Z * proc :=
  if (1 <? arg1) || any [arg2; arg3; arg4] then (- EINVAL, p)
  else (0, set_caps (set_keepcaps arg1 (p_caps p)) p).

Definition prctl_ambient (arg1 arg2 : Z) (p : proc) : Z * proc :=
  let k := p_caps p in
  if arg1 =? 1 then
    if LINUX_CAP_LAST_CAP <? arg2 then (- EINVAL, p) else (bit (cap_ambient k) arg2, p)
  else if arg1 =? 2 then
    if LINUX_CAP_LAST_CAP <? arg2 then (- EINVAL, p)
    else
      let b := Z.shiftl 1 arg2 in
      if has (cap_permitted k) b && has (cap_inheritable k) b && negb (has (securebits p) SECBIT_NO_CAP_AMBIENT_RAISE)
      then (0, set_caps (set_ambient (Z.lor (cap_ambient k) b) k) p)
      else (- EPERM, p)
  else if arg1 =? 3 then
    if LINUX_CAP_LAST_CAP <? arg2 then (- EINVAL, p)
    else (0, set_caps (set_ambient (clear_bit (cap_ambient k) arg2) k) p)
  else if arg1 =? 4 then
    if negb (arg2 =? 0) then (- EINVAL, p) else (0, set_caps (set_ambient 0 k) p)
  else (- EINVAL, p).

Definition prctl_capbset_drop (arg1 : Z) (p : proc) : Z * proc :=
  let k := p_caps p in
  if LINUX_CAP_LAST_CAP <? arg1 then (- EINVAL, p)
  else if has (cap_effective k) (Z.shiftl 1 LINUX_CAP_SETPCAP)
  then (0, set_caps (set_bounding (clear_bit (cap_bounding k) arg1) k) p)
  else (- EPERM, p).

Definition prctl_securebits (arg1 : Z) (p : proc) : Z * proc :=
  let want := u32 arg1 in
  let have := securebits p in
  let locks := Z.land have SECUREBITS_LOCKS in
  if has (Z.shiftr locks 1) (Z.lxor have want) || negb (Z.ldiff locks want =? 0) ||
     negb (Z.ldiff want SECUREBITS_KNOWN =? 0)
  then (- EPERM, p)
  else (0, set_securebits want p).

(** The options that are about credentials; [None] for the others. *)
Definition prctl_creds (op arg1 arg2 arg3 arg4 : Z) (p : proc) : option (Z * proc) :=
  if op =? LINUX_PR_SET_KEEPCAPS then Some (prctl_keepcaps arg1 arg2 arg3 arg4 p)
  else if op =? LINUX_PR_GET_KEEPCAPS then
    Some (if any [arg1; arg2; arg3; arg4] then - EINVAL else cap_keepcaps (p_caps p), p)
  else if op =? LINIX_PR_CAP_AMBIENT then Some (prctl_ambient arg1 arg2 p)
  else if op =? LINIX_PR_CAPBSET_READ then
    Some (if LINUX_CAP_LAST_CAP <? arg1 then - EINVAL else bit (cap_bounding (p_caps p)) arg1, p)
  else if op =? LINIX_PR_CAPBSET_DROP then Some (prctl_capbset_drop arg1 p)
  else if op =? LINIX_PR_GET_SECUREBITS then Some (s32 (securebits p), p)
  else if op =? LINIX_PR_SET_SECUREBITS then Some (prctl_securebits arg1 p)
  else None.

(** * What a process may do *)

Inductive call :=
  | Setresuid (r e s : Z) | Setreuid (r e : Z) | Setuid (u : Z) | Setfsuid (f : Z)
  | Setresgid (r e s : Z) | Setregid (r e : Z) | Setgid (g : Z) | Setfsgid (f : Z)
  | Setgroups (n ptr : Z) (m : G)
  | Capset (hdr data : Z) (m : G)
  | Prctl (op a1 a2 a3 a4 : Z)
  | Exec (owner_uid owner_gid mode : Z).

(** A call, its answer and the process afterwards; [m] is the guest's memory at
    the time. *)
Definition do_call (c : call) (p : proc) : Z * proc :=
  match c with
  | Setresuid r e s => sys_setresuid r e s p
  | Setreuid r e => sys_setreuid r e p
  | Setuid u => sys_setuid u p
  | Setfsuid f => sys_setfsuid f p
  | Setresgid r e s => sys_setresgid r e s p
  | Setregid r e => sys_setregid r e p
  | Setgid g => sys_setgid g p
  | Setfsgid f => sys_setfsgid f p
  | Setgroups n ptr m => sys_setgroups n ptr p m
  | Capset hdr data m => (sys_capset hdr data p m).1
  | Prctl o a1 a2 a3 a4 => default (- EINVAL, p) (prctl_creds o (u64 a1) (u64 a2) (u64 a3) (u64 a4) p)
  | Exec u g mode => (0, exec_creds u g mode p)
  end.

Definition run (l : list call) (p : proc) : proc := foldl (λ p c, (do_call c p).2) p l.

End Calls.

(** * Ids *)

Arguments publish : simpl never.
Arguments cap_after_setresuid : simpl never.

(** The owners an exec of [c] takes on. *)
Definition owner_uid_of {G} (c : call (G := G)) : gset Z := match c with Exec u _ mode => if has mode S_ISUID then {[u]} else ∅ | _ => ∅ end.
Definition owner_gid_of {G} (c : call (G := G)) : gset Z := match c with Exec _ g mode => if has mode S_ISGID then {[g]} else ∅ | _ => ∅ end.

Section Ids.
Context (me : Z) (gone : Z → bool) {G : Type} `{PartialCopy G}.
Context (self_ns : Z) (pid_files : PidNs.files).
Abbreviation do := (do_call me gone self_ns pid_files).
Abbreviation go := (run me gone self_ns pid_files).

(** The user ids are of [U], the group ids of [V], the file system ids may also
    be of [F] and [W], and the groups are [gs]. *)
Record within (U F V W : gset Z) (gs : list Z) (p : proc) : Prop := {
  in_uid : uid (p_cred p) ∈ U;
  in_euid : euid (p_cred p) ∈ U;
  in_suid : suid (p_cred p) ∈ U;
  in_fsuid : fsuid (p_cred p) ∈ U ∪ F;
  in_gid : gid (p_cred p) ∈ V;
  in_egid : egid (p_cred p) ∈ V;
  in_sgid : sgid (p_cred p) ∈ V;
  in_fsgid : fsgid (p_cred p) ∈ V ∪ W;
  in_groups : groups p = gs;
}.

Context (U F V W : gset Z) (gs : list Z) (unprivileged : 0 ∉ U).
Abbreviation ok := (within U F V W gs).

Lemma within_euid p : ok p → (euid (p_cred p) =? 0) = false.
Proof. intros Hp. apply Z.eqb_neq. intros E. pose proof (in_euid _ _ _ _ _ _ Hp). congruence. Qed.

Lemma may_become_in p want old :
  ok p → may_become (p_cred p) want = true → old ∈ U → or_keep want old ∈ U.
Proof.
  intros Hp Hm Ho. unfold may_become in Hm. rewrite (within_euid p Hp) in Hm. unfold or_keep.
  destruct (want =? NOID); [done|]. destruct Hp. cbn in Hm.
  repeat match type of Hm with (_ || _)%bool = true => apply orb_true_iff in Hm as [Hm|Hm] end; bool_to_prop; congruence.
Qed.

Lemma may_become_gid_in p want old :
  ok p → may_become_gid (p_cred p) want = true → old ∈ V → or_keep want old ∈ V.
Proof.
  intros Hp Hm Ho. unfold may_become_gid in Hm. rewrite (within_euid p Hp) in Hm. unfold or_keep.
  destruct (want =? NOID); [done|]. destruct Hp. cbn in Hm.
  repeat match type of Hm with (_ || _)%bool = true => apply orb_true_iff in Hm as [Hm|Hm] end; bool_to_prop; congruence.
Qed.

(** What does not touch the ids or the groups. *)
Lemma within_frame p p' : p_cred p' = p_cred p → groups p' = groups p → ok p → ok p'.
Proof. intros Ec Eg []. split; rewrite ?Ec, ?Eg; done. Qed.

Lemma setresuid_within r e s p : ok p → ok (do_setresuid me gone r e s p).2.
Proof.
  intros Hp. unfold do_setresuid. destruct (may_become _ r) eqn:Hr, (may_become _ e) eqn:He, (may_become _ s) eqn:Hs; try done.
  pose proof (may_become_in p r _ Hp Hr (in_uid _ _ _ _ _ _ Hp)). pose proof (may_become_in p e _ Hp He (in_euid _ _ _ _ _ _ Hp)).
  pose proof (may_become_in p s _ Hp Hs (in_suid _ _ _ _ _ _ Hp)). destruct Hp. split; cbn; set_solver.
Qed.

Lemma setresgid_within r e s p : ok p → ok (do_setresgid me gone r e s p).2.
Proof.
  intros Hp. unfold do_setresgid. destruct (may_become_gid _ r) eqn:Hr, (may_become_gid _ e) eqn:He, (may_become_gid _ s) eqn:Hs; try done.
  pose proof (may_become_gid_in p r _ Hp Hr (in_gid _ _ _ _ _ _ Hp)). pose proof (may_become_gid_in p e _ Hp He (in_egid _ _ _ _ _ _ Hp)).
  pose proof (may_become_gid_in p s _ Hp Hs (in_sgid _ _ _ _ _ _ Hp)). destruct Hp. split; cbn; set_solver.
Qed.

Lemma setfs_within f p : ok p → ok (sys_setfsuid f p).2 ∧ ok (sys_setfsgid f p).2.
Proof.
  intros Hp. unfold sys_setfsuid, sys_setfsgid. rewrite (within_euid p Hp). cbn [orb snd]. destruct Hp.
  split; case_bool; (split; [cbn; try done..]); cbn; bool_to_prop;
    repeat match goal with H : (_ || _)%bool = true |- _ => apply orb_true_iff in H as [H|H] end; bool_to_prop; subst; set_solver.
Qed.

Lemma setre_within r e p : ok p → ok (sys_setreuid me gone r e p).2 ∧ ok (sys_setregid me gone r e p).2.
Proof.
  intros Hp. unfold sys_setreuid, sys_setregid. split; repeat case_bool; try done; first [by apply setresuid_within|by apply setresgid_within].
Qed.

Lemma set_within u p : ok p → ok (sys_setuid me gone u p).2 ∧ ok (sys_setgid me gone u p).2.
Proof.
  intros Hp. unfold sys_setuid, sys_setgid. rewrite (within_euid p Hp).
  split; repeat case_bool; try done; first [by apply setresuid_within|by apply setresgid_within].
Qed.

Lemma prctl_frame op a1 a2 a3 a4 p :
  let p' := (default (- EINVAL, p) (prctl_creds op a1 a2 a3 a4 p)).2 in
  p_cred p' = p_cred p ∧ groups p' = groups p ∧ p_tab p' = p_tab p.
Proof.
  unfold prctl_creds, prctl_keepcaps, prctl_ambient, prctl_capbset_drop, prctl_securebits. cbv zeta.
  repeat case_bool; done.
Qed.

Lemma capset_frame hdr data p m :
  let p' := (sys_capset me self_ns pid_files hdr data p m).1.2 in
  p_cred p' = p_cred p ∧ groups p' = groups p ∧ p_tab p' = p_tab p ∧ securebits p' = securebits p.
Proof.
  unfold sys_capset. destruct (cap_version hdr m) as [[r|[pid n]] g]; [done|]. cbv zeta.
  case_bool; [done|]. case_bool; [done|]. destruct (copy_in data _ g) as [l|]; [|done]. by destruct (capset_sets _ _ _ _).
Qed.

Lemma setgroups_within n ptr p m : ok p → ok (sys_setgroups n ptr p m).2.
Proof. intros Hp. unfold sys_setgroups. rewrite (within_euid p Hp). by case_bool. Qed.

Lemma exec_within u g mode p :
  owner_uid_of (G := G) (Exec u g mode) ⊆ U → owner_gid_of (G := G) (Exec u g mode) ⊆ V → ok p → ok (exec_creds me gone u g mode p).
Proof.
  cbn. intros Hu Hg Hp. unfold exec_creds. case_bool; [|by apply (within_frame p)]. unfold elevate_privilege. cbv zeta.
  destruct Hp. destruct (has mode S_ISUID), (has mode S_ISGID); split; cbn; set_solver.
Qed.

Lemma call_within c p : owner_uid_of c ⊆ U → owner_gid_of c ⊆ V → ok p → ok (do c p).2.
Proof.
  intros Hu Hg Hp. destruct c; cbn [do_call].
  - by apply setresuid_within.
  - by apply setre_within.
  - by apply set_within.
  - by apply setfs_within.
  - by apply setresgid_within.
  - by apply setre_within.
  - by apply set_within.
  - by apply setfs_within.
  - by apply setgroups_within.
  - destruct (capset_frame hdr data p m) as (? & ? & _). by apply (within_frame p).
  - destruct (prctl_frame op (u64 a1) (u64 a2) (u64 a3) (u64 a4) p) as (? & ? & _). by apply (within_frame p).
  - by apply exec_within.
Qed.

Lemma run_within l p : ⋃ (owner_uid_of <$> l) ⊆ U → ⋃ (owner_gid_of <$> l) ⊆ V → ok p → ok (go l p).
Proof.
  revert p. induction l as [|c l IH]; intros p Hu Hg Hp; [done|]. cbn in *. apply IH; [set_solver..|].
  apply call_within; [set_solver..|done].
Qed.
End Ids.

(** C14: Whatever calls an unprivileged process makes, its user ids stay among its
    real, effective and saved ones and the owners of the set-user-ID programs
    it runs, none of which is root; its group ids likewise; its file system ids
    may also stay what they were; its groups do not change. *)
Theorem ids_never_grow me gone {G} `{PartialCopy G} self_ns pid_files (l : list (call (G := G))) p :
  let c := p_cred p in
  let U : gset Z := {[uid c; euid c; suid c]} ∪ ⋃ (owner_uid_of <$> l) in
  let V : gset Z := {[gid c; egid c; sgid c]} ∪ ⋃ (owner_gid_of <$> l) in
  0 ∉ U → within U {[fsuid c]} V {[fsgid c]} (groups p) (run me gone self_ns pid_files l p).
Proof. cbv zeta. intros HU. apply run_within; [done|set_solver..|]. split; set_solver. Qed.

(** Root's setgid and setuid set all the ids, *)
Lemma root_setgid me gone g p : euid (p_cred p) = 0 → g ≠ NOID →
  p_cred (sys_setgid me gone g p).2 = set_gids g g g g (p_cred p) ∧ groups (sys_setgid me gone g p).2 = groups p.
Proof.
  intros E Hg. unfold sys_setgid, do_setresgid, may_become_gid, or_keep. rewrite E.
  rewrite (proj2 (Z.eqb_neq g NOID) Hg). done.
Qed.

Lemma root_setuid me gone u p : euid (p_cred p) = 0 → u ≠ NOID →
  p_cred (sys_setuid me gone u p).2 = set_uids u u u u (p_cred p) ∧ groups (sys_setuid me gone u p).2 = groups p.
Proof.
  intros E Hu. unfold sys_setuid, do_setresuid, may_become, or_keep. rewrite E.
  rewrite (proj2 (Z.eqb_neq u NOID) Hu). done.
Qed.

(** C13: Dropping privilege is for good: after root's setgid and setuid to a user
    that is not root, and whatever calls follow, programs without set-id bits
    run included, every permission check sees that user and that group and
    nothing else but the groups there were. *)
Theorem drop_is_permanent me gone {G} `{PartialCopy G} self_ns pid_files (l : list (call (G := G))) p u g :
  euid (p_cred p) = 0 → 0 < u < NOID → 0 ≤ g < NOID →
  Forall (λ c, owner_uid_of c = ∅ ∧ owner_gid_of c = ∅) l →
  let p' := run me gone self_ns pid_files (Setgid g :: Setuid u :: l) p in
  view p' = mk_creds u g u g u g (groups p) ∧ suid (p_cred p') = u ∧ sgid (p_cred p') = g ∧ cred_is_root (view p') = false.
Proof.
  intros E Hu Hg Hl. change (run _ _ _ _ (_ :: _ :: l) p) with
    (run me gone self_ns pid_files l (sys_setuid me gone u (sys_setgid me gone g p).2).2). cbv zeta.
  destruct (root_setgid me gone g p E ltac:(lia)) as [Ec1 Eg1]. set (p1 := (sys_setgid me gone g p).2) in *.
  destruct (root_setuid me gone u p1 ltac:(by rewrite Ec1) ltac:(lia)) as [Ec2 Eg2]. set (p2 := (sys_setuid me gone u p1).2) in *.
  assert (within {[u]} ∅ {[g]} ∅ (groups p) (run me gone self_ns pid_files l p2)) as [].
  { apply run_within; [set_solver by lia| | |].
    - clear -Hl. induction Hl as [|c l [E _]]; cbn; [set_solver|rewrite E; set_solver].
    - clear -Hl. induction Hl as [|c l [_ E]]; cbn; [set_solver|rewrite E; set_solver].
    - split; rewrite ?Ec2, ?Eg2, ?Ec1, ?Eg1; cbn; set_solver. }
  assert (∀ x a : Z, x ∈ ({[a]} : gset Z) → x = a) as H1 by set_solver.
  assert (∀ x a : Z, x ∈ ({[a]} ∪ ∅ : gset Z) → x = a) as H2 by set_solver.
  repeat match goal with H : _ ∈ _ |- _ => first [apply H1 in H|apply H2 in H] end.
  unfold view, cred_is_root. cbn [c_fsuid]. split_and!; [by f_equal|done..|]. apply Z.eqb_neq. lia.
Qed.

(** * Capabilities *)

(** [a] is a subset of [b]. *)
Definition sub (a b : Z) : Prop := Z.ldiff a b = 0.

Lemma sub_bits a b : sub a b ↔ ∀ n, 0 ≤ n → Z.testbit a n = true → Z.testbit b n = true.
Proof.
  unfold sub. split.
  - intros E n Hn Ha. destruct (Z.testbit b n) eqn:Hb; [done|]. apply (f_equal (λ x, Z.testbit x n)) in E.
    rewrite Z.ldiff_spec, Ha, Hb, Z.bits_0 in E. done.
  - intros Hab. apply Z.bits_inj'. intros n Hn. rewrite Z.ldiff_spec, Z.bits_0.
    destruct (Z.testbit a n) eqn:Ha; [|done]. by rewrite (Hab n Hn Ha).
Qed.

Lemma sub_refl a : sub a a.
Proof. by apply sub_bits. Qed.
Lemma sub_0 a : sub 0 a.
Proof. done. Qed.
Lemma sub_trans a b c : sub a b → sub b c → sub a c.
Proof. rewrite !sub_bits. eauto. Qed.
Lemma sub_lor a b c : sub (Z.lor a b) c ↔ sub a c ∧ sub b c.
Proof.
  rewrite !sub_bits. split.
  - intros Hs. split; intros n Hn Hx; apply Hs; rewrite ?Z.lor_spec, ?Hx, ?orb_true_r; done.
  - intros [Ha Hb] n Hn. rewrite Z.lor_spec. intros [Hx|Hx]%orb_true_iff; auto.
Qed.
Lemma sub_lor_l a b : sub a (Z.lor a b).
Proof. apply sub_bits. intros n Hn Hx. by rewrite Z.lor_spec, Hx. Qed.
Lemma sub_lor_r a b : sub b (Z.lor a b).
Proof. apply sub_bits. intros n Hn Hx. by rewrite Z.lor_spec, Hx, orb_true_r. Qed.
Lemma sub_land a m b : sub a b → sub (Z.land a m) b.
Proof. rewrite !sub_bits. intros Hs n Hn. rewrite Z.land_spec. intros [Hx _]%andb_true_iff. auto. Qed.
Lemma sub_land_mono a b m : sub a b → sub (Z.land a m) (Z.land b m).
Proof. rewrite !sub_bits. intros Hs n Hn. rewrite !Z.land_spec. intros [Hx ->]%andb_true_iff. by rewrite (Hs n Hn Hx). Qed.
Lemma sub_clear a n : sub (clear_bit a n) a.
Proof. apply sub_bits. intros m Hm. unfold clear_bit. rewrite Z.ldiff_spec. by intros [? _]%andb_true_iff. Qed.
Lemma sub_bit a n : 0 ≤ n → has a (Z.shiftl 1 n) = true → sub (Z.shiftl 1 n) a.
Proof.
  intros Hn Hh. apply sub_bits. intros m Hm. rewrite Z.shiftl_1_l, Z.pow2_bits_eqb by done. intros <-%Z.eqb_eq.
  unfold has in Hh. destruct (Z.testbit a n) eqn:E; [done|]. apply negb_true_iff, Z.eqb_neq in Hh. destruct Hh.
  apply Z.bits_inj'. intros m _. rewrite Z.land_spec, Z.shiftl_1_l, Z.pow2_bits_eqb, Z.bits_0 by done.
  destruct (n =? m) eqn:Em; [|apply andb_false_r]. apply Z.eqb_eq in Em as <-. by rewrite E.
Qed.

#[export] Hint Resolve sub_refl sub_0 sub_lor_l sub_lor_r sub_clear sub_land sub_land_mono : nabi.
#[export] Hint Resolve <- sub_lor : nabi.

(** The permitted and the ambient set are of [P], the inheritable of [I], the
    bounding of [B], and what is effective is permitted. *)
Record caps_in (P I B : Z) (k : caps) : Prop := {
  ci_permitted : sub (cap_permitted k) P;
  ci_ambient : sub (cap_ambient k) P;
  ci_inheritable : sub (cap_inheritable k) I;
  ci_bounding : sub (cap_bounding k) B;
  ci_effective : sub (cap_effective k) (cap_permitted k);
}.

Section Caps.
Context (me : Z) (gone : Z → bool) {G : Type} `{PartialCopy G}.
Context (self_ns : Z) (pid_files : PidNs.files).
Context (P I B : Z) (inh : sub P I).

Lemma setresuid_caps was now old new sb k : caps_in P I B k → caps_in P I B (cap_after_setresuid was now old new sb k).
Proof.
  intros []. unfold cap_after_setresuid. cbv zeta.
  repeat case_bool; split; cbn; auto with nabi.
Qed.

Lemma exec_caps k : caps_in P I B k → caps_in P I B (cap_after_exec k).
Proof.
  intros []. split; cbn; [apply sub_lor; done|done..|].
  apply sub_lor. split; [by eapply sub_trans; [|apply sub_lor_l]|apply sub_lor_r].
Qed.

Lemma capset_caps e p i k : caps_in P I B k → caps_in P I B (capset_sets e p i k).2.
Proof.
  intros []. unfold capset_sets. cbv zeta. destruct (_ || _) eqn:E; [done|]. bool_to_prop.
  assert (sub p P) as Hp by (by apply (sub_trans _ (cap_permitted k))).
  assert (sub i I) as Hi by (apply (sub_trans i (cap_permitted k)); [assumption|by apply (sub_trans _ P)]).
  assert (sub e p) as He by assumption. split; cbn; auto with nabi.
Qed.

Lemma ambient_caps a1 a2 p : 0 ≤ a2 → caps_in P I B (p_caps p) → caps_in P I B (p_caps (prctl_ambient a1 a2 p).2).
Proof.
  intros Ha Hk. unfold prctl_ambient. cbv zeta. repeat case_bool; try done; destruct Hk; split; cbn; auto with nabi.
  - bool_to_prop. apply sub_lor. split; [done|]. apply (sub_trans _ (cap_permitted (p_caps p))); [by apply sub_bit|done].
  - eapply sub_trans; [apply sub_clear|done].
Qed.

Lemma prctl_caps op a1 a2 a3 a4 p : 0 ≤ a2 → caps_in P I B (p_caps p) →
  caps_in P I B (p_caps (default (- EINVAL, p) (prctl_creds op a1 a2 a3 a4 p)).2).
Proof.
  intros Ha Hk. unfold prctl_creds. repeat case_match; try done; cbn [default from_option id]; [|by apply ambient_caps| |].
  - unfold prctl_keepcaps. case_bool; [done|]. destruct Hk. by split.
  - unfold prctl_capbset_drop. cbv zeta. repeat case_bool; try done. destruct Hk. split; cbn; auto with nabi.
    eapply sub_trans; [apply sub_clear|done].
  - unfold prctl_securebits. cbv zeta. by case_bool.
Qed.

Lemma call_caps c p : caps_in P I B (p_caps p) → caps_in P I B (p_caps (do_call me gone self_ns pid_files c p).2).
Proof.
  intros Hk. assert (∀ r e s, caps_in P I B (p_caps (do_setresuid me gone r e s p).2)) as Hu.
  { intros r e s. unfold do_setresuid. cbv zeta. case_bool; [done|]. by apply setresuid_caps. }
  assert (∀ r e s, caps_in P I B (p_caps (do_setresgid me gone r e s p).2)) as Hg.
  { intros r e s. unfold do_setresgid. cbv zeta. by case_bool. }
  destruct c; cbn [do_call]; unfold sys_setresuid, sys_setreuid, sys_setuid, sys_setfsuid, sys_setresgid, sys_setregid, sys_setgid,
    sys_setfsgid, sys_setgroups, exec_creds; cbv zeta; try (repeat case_bool; solve [done|apply Hu|apply Hg]).
  - unfold sys_capset. destruct (cap_version hdr m) as [[r|[pid n]] g]; [done|]. cbv zeta.
    match goal with |- context [?r <? 0] => destruct (r <? 0) end; [done|].
    destruct (data =? 0); [done|]. destruct (copy_in data _ g) as [b|]; [|done].
    pose proof (capset_caps (cap_field b n 0) (cap_field b n 4) (cap_field b n 8) (p_caps p) Hk) as Hc.
    by destruct (capset_sets _ _ _ _).
  - apply prctl_caps; [|done]. apply u64_range.
  - apply exec_caps in Hk. by case_bool.
Qed.

Lemma run_caps l p : caps_in P I B (p_caps p) → caps_in P I B (p_caps (run me gone self_ns pid_files l p)).
Proof. revert p. induction l as [|c l IH]; intros p Hp; [done|]. cbn. apply IH. by apply call_caps. Qed.
End Caps.

(** C15: Capabilities are only dropped: whatever a process calls and executes, what
    it may use is permitted, what is permitted or ambient was permitted or
    ambient before, what is inheritable was one of these or inheritable, and
    the bounding set does not grow. *)
Theorem capabilities_never_grow me gone {G} `{PartialCopy G} self_ns pid_files (l : list (call (G := G))) p :
  let k := p_caps p in let k' := p_caps (run me gone self_ns pid_files l p) in
  let P := Z.lor (cap_permitted k) (cap_ambient k) in
  sub (cap_effective k) (cap_permitted k) →
  sub (cap_effective k') (cap_permitted k') ∧ sub (cap_permitted k') P ∧ sub (cap_ambient k') P ∧
  sub (cap_inheritable k') (Z.lor (cap_inheritable k) P) ∧ sub (cap_bounding k') (cap_bounding k).
Proof.
  cbv zeta. intros He. set (k := p_caps p) in *. set (P := Z.lor (cap_permitted k) (cap_ambient k)).
  destruct (run_caps me gone self_ns pid_files P (Z.lor (cap_inheritable k) P) (cap_bounding k) (sub_lor_r _ _) l p);
    [|done]. split; unfold P; auto with nabi.
Qed.

(** ** Securebits *)

Lemma securebits_step me gone {G} `{PartialCopy G} self_ns pid_files (c : call (G := G)) p :
  let p' := (do_call me gone self_ns pid_files c p).2 in
  securebits p' = securebits p ∨ ∃ a, p' = (prctl_securebits a p).2.
Proof.
  cbv zeta. destruct c; cbn [do_call]; unfold sys_setresuid, sys_setreuid, sys_setuid, sys_setfsuid, sys_setresgid, sys_setregid,
    sys_setgid, sys_setfsgid, sys_setgroups, exec_creds, do_setresuid, do_setresgid; cbv zeta; try (left; repeat case_bool; done).
  - left. apply capset_frame.
  - unfold prctl_creds, prctl_keepcaps, prctl_ambient, prctl_capbset_drop. cbv zeta.
    repeat case_bool; first [by left|right; by eexists].
Qed.

Lemma securebits_locked a p i :
  0 ≤ i → Z.testbit SECUREBITS_LOCKS (i + 1) = true → Z.testbit (securebits p) (i + 1) = true →
  let b := securebits (prctl_securebits a p).2 in
  Z.testbit b (i + 1) = true ∧ Z.testbit b i = Z.testbit (securebits p) i.
Proof.
  intros Hi Hl Hb. unfold prctl_securebits. cbv zeta. destruct (_ || _) eqn:E; [done|]. cbn [securebits set_securebits snd].
  bool_to_prop. set (want := u32 a) in *. set (have := securebits p) in *. unfold has in *. bool_to_prop.
  match goal with H : Z.land (Z.shiftr _ 1) _ = 0 |- _ => apply (f_equal (λ x, Z.testbit x i)) in H; rename H into Hx end.
  match goal with H : Z.ldiff (Z.land have _) want = 0 |- _ => apply (f_equal (λ x, Z.testbit x (i + 1))) in H; rename H into Hy end.
  rewrite Z.ldiff_spec, Z.land_spec, Hl, Hb, Z.bits_0 in Hy. cbn in Hy. apply negb_false_iff in Hy. split; [done|].
  rewrite Z.land_spec, Z.shiftr_spec, Z.land_spec, Hl, Hb, Z.lxor_spec, Z.bits_0 in Hx by done. cbn in Hx.
  by destruct (Z.testbit have i), (Z.testbit want i).
Qed.

(** A securebit that is locked stays as it is, and locked, whatever the process
    calls. *)
Theorem locked_securebits_stay me gone {G} `{PartialCopy G} self_ns pid_files (l : list (call (G := G))) p i :
  i ∈ [0; 2; 4; 6] → Z.testbit (securebits p) (i + 1) = true →
  let b := securebits (run me gone self_ns pid_files l p) in
  Z.testbit b (i + 1) = true ∧ Z.testbit b i = Z.testbit (securebits p) i.
Proof.
  intros Hi Hl. cbv zeta. assert (0 ≤ i ∧ Z.testbit SECUREBITS_LOCKS (i + 1) = true) as [Hz Hk].
  { repeat (apply elem_of_cons in Hi as [->|Hi]; [done|]). by apply elem_of_nil in Hi. }
  revert p Hl. induction l as [|c l IH]; intros p Hl; [done|]. cbn.
  destruct (securebits_step me gone self_ns pid_files c p) as [E|[a E]].
  - rewrite <- E in Hl. rewrite <- E. by apply IH.
  - destruct (securebits_locked a p i Hz Hk Hl) as [H1 H2]. rewrite <- E in H1, H2. rewrite <- H2. by apply IH.
Qed.

(** * What other processes are told *)

Section Told.
Context (me : Z) (gone : Z → bool) {G : Type} `{PartialCopy G} (self_ns : Z) (pid_files : PidNs.files).

(** The table of published credentials has this process's effective ids. *)
Record told (p : proc) : Prop := {
  td_table : CredTab.table_ok (CredTab.credtab_read (p_tab p));
  td_mine : CredTab.cred_of_host_pid me (p_tab p) = Some (euid (p_cred p), egid (p_cred p));
}.

Lemma publish_told p :
  CredTab.table_ok (CredTab.credtab_read (p_tab p)) → is_Some (CredTab.cred_of_host_pid me (p_tab p)) → told (publish me gone p).
Proof.
  intros Ht [x Hx]. unfold publish.
  destruct (CredTab.cred_publish_correct gone me (euid (p_cred p)) (egid (p_cred p)) (p_tab p) Ht) as [(t & E & Hp)|(_ & _ & E & _)];
    [|congruence]. split; cbn; rewrite E; [apply Hp|apply (CredTab.pb_mine _ _ _ _ _ _ Hp)].
Qed.

(** Publishing once the ids are changed. *)
Lemma told_again p p' : told p → p_tab p' = p_tab p → told (publish me gone p').
Proof. intros [Ht Hm] E. apply publish_told; rewrite E; [done|by eexists]. Qed.

Lemma told_frame p p' : told p → p_tab p' = p_tab p →
  euid (p_cred p') = euid (p_cred p) → egid (p_cred p') = egid (p_cred p) → told p'.
Proof. intros [] Et Eu Eg. split; by rewrite Et, ?Eu, ?Eg. Qed.

Lemma call_told c p : told p → told (do_call me gone self_ns pid_files c p).2.
Proof.
  intros Hp. assert (∀ r e s, told (do_setresuid me gone r e s p).2) as Hu.
  { intros r e s. unfold do_setresuid. cbv zeta. case_bool; [done|]. by apply (told_again p). }
  assert (∀ r e s, told (do_setresgid me gone r e s p).2) as Hg.
  { intros r e s. unfold do_setresgid. cbv zeta. case_bool; [done|]. by apply (told_again p). }
  destruct c; cbn [do_call]; unfold sys_setresuid, sys_setreuid, sys_setuid, sys_setfsuid, sys_setresgid, sys_setregid, sys_setgid,
    sys_setfsgid, sys_setgroups; cbv zeta; try (repeat case_bool; solve [done|apply Hu|apply Hg|by apply (told_frame p)]).
  - destruct (capset_frame me self_ns pid_files hdr data p m) as (Ec & _ & Et & _). apply (told_frame p); by rewrite ?Ec.
  - destruct (prctl_frame op (u64 a1) (u64 a2) (u64 a3) (u64 a4) p) as (Ec & _ & Et). apply (told_frame p); by rewrite ?Ec.
  - unfold exec_creds, elevate_privilege. cbv zeta. case_bool; [by apply (told_again p)|by apply (told_frame p)].
Qed.
End Told.

(** Once a process is in the table of published credentials, what its peers are
    told of it is its effective user and group, whatever it calls. *)
Theorem peers_are_told me gone {G} `{PartialCopy G} self_ns pid_files (l : list (call (G := G))) p :
  told me p → told me (run me gone self_ns pid_files l p).
Proof. revert p. induction l as [|c l IH]; intros p Hp; [done|]. cbn. apply IH. by apply call_told. Qed.

(** * A run *)

Abbreviation demo_run := (run 7 (λ _, false) (G := flat) PidNs.initial_pid_ino ∅).

Definition demo_user : proc := init_creds 7 (λ _, false) 1000 100 None.
Definition demo_root : proc := init_creds 7 (λ _, false) 0 0 None.

(** From the guest's memory at 0: a capset header and its data for no
    capability but CAP_SETPCAP. *)
Definition demo_caps : flat :=
  list_to_map (zip (counter 1 32) (le_store 4 LINUX_CAPABILITY_VERSION_3 ++ le_store 4 0 ++
    le_store 4 0x100 ++ le_store 4 0x100 ++ le_store 4 0x100 ++ replicate 12 0)).

Lemma ids_never_grow_witness :
  let p := demo_run [Setuid 0; Setreuid 1000 NOID; Exec 33 34 0x9ed; Setresuid NOID 1000 NOID; Setgid 0] demo_user in
  (uid (p_cred p), euid (p_cred p), suid (p_cred p), gid (p_cred p)) = (1000, 1000, 33, 100) ∧
  ∃ U V : gset Z, (0 ∉ U) ∧ within U {[1000]} V {[100]} [] p.
Proof.
  cbv zeta. set (l := [_; _; _; _; _]). split; [vm_compute; reflexivity|].
  assert (0 ∉ ({[uid (p_cred demo_user); euid (p_cred demo_user); suid (p_cred demo_user)]} ∪ ⋃ (owner_uid_of <$> l) : gset Z)) as HU.
  { refine (bool_decide_unpack _ _). vm_compute. exact I. }
  do 2 eexists. split; [exact HU|]. exact (ids_never_grow 7 (λ _, false) PidNs.initial_pid_ino ∅ l demo_user HU).
Defined.

Lemma drop_is_permanent_witness :
  let p := demo_run [Setgid 100; Setuid 1000; Setuid 0; Setresuid 0 0 0; Setfsuid 0; Exec 0 0 0x1ed; Setgroups 0 0 ∅] demo_root in
  view p = mk_creds 1000 100 1000 100 1000 100 [] ∧ cred_is_root (view p) = false.
Proof.
  cbv zeta. destruct (drop_is_permanent 7 (λ _, false) PidNs.initial_pid_ino ∅
    [Setuid 0; Setresuid 0 0 0; Setfsuid 0; Exec 0 0 0x1ed; Setgroups 0 0 (∅ : flat)] demo_root 1000 100) as (Hv & _ & _ & Hr);
    [reflexivity|unfold NOID; lia|unfold NOID; lia|repeat (constructor; [by split|]); constructor|].
  split; [exact Hv|exact Hr].
Defined.

Lemma capabilities_never_grow_witness :
  let k := p_caps (demo_run [Capset 0 8 demo_caps; Prctl LINIX_PR_CAP_AMBIENT 2 8 0 0; Setuid 1000; Exec 0 0 0x1ed] demo_root) in
  sub (cap_permitted k) ALL_BITS ∧ cap_permitted k = 0.
Proof.
  cbv zeta. split; [|vm_compute; reflexivity].
  destruct (capabilities_never_grow 7 (λ _, false) PidNs.initial_pid_ino ∅
    [Capset 0 8 demo_caps; Prctl LINIX_PR_CAP_AMBIENT 2 8 0 0; Setuid 1000; Exec 0 0 0x1ed] demo_root) as (_ & Hp & _);
    [reflexivity|exact Hp].
Defined.

Lemma locked_securebits_stay_witness :
  let b := securebits (demo_run [Prctl LINIX_PR_SET_SECUREBITS 0x30 0 0 0; Prctl LINIX_PR_SET_SECUREBITS 0x20 0 0 0]
             (set_securebits 0x30 demo_root)) in
  Z.testbit b 5 = true ∧ Z.testbit b 4 = true.
Proof.
  cbv zeta. apply (locked_securebits_stay 7 (λ _, false) PidNs.initial_pid_ino ∅
    [Prctl LINIX_PR_SET_SECUREBITS 0x30 0 0 0; Prctl LINIX_PR_SET_SECUREBITS 0x20 0 0 0 : call (G := flat)] (set_securebits 0x30 demo_root) 4);
    [refine (bool_decide_unpack _ _); vm_compute; exact I|reflexivity].
Defined.

Lemma peers_are_told_witness :
  CredTab.cred_of_host_pid 7 (p_tab (demo_run [Setresuid NOID 1000 NOID; Setgid 100; Exec 33 34 0x9ed] demo_root)) = Some (33, 0).
Proof.
  destruct (peers_are_told 7 (λ _, false) PidNs.initial_pid_ino ∅
    [Setresuid NOID 1000 NOID; Setgid 100; Exec 33 34 0x9ed : call (G := flat)] demo_root) as [_ Hm].
  - split; [|reflexivity]. split; [vm_compute; lia|apply NoDup_singleton].
  - rewrite Hm. vm_compute. reflexivity.
Defined.

(** * What the code does not keep *)

(** A child starts with every capability: the sets are not in the checkpoint,
    whoever the parent was and whatever it had given up. *)
Example resumed_child_has_every_capability :
  cap_effective (p_caps demo_user) = 0 ∧ cap_bounding (p_caps (demo_run [Prctl LINIX_PR_CAPBSET_DROP 3 0 0 0] demo_root)) = ALL_BITS - 8 ∧
  cap_effective (p_caps (resume_creds 8 (λ _, false) demo_user None)) = ALL_BITS ∧
  cap_bounding (p_caps (resume_creds 8 (λ _, false) (demo_run [Prctl LINIX_PR_CAPBSET_DROP 3 0 0 0] demo_root) None)) = ALL_BITS.
Proof. vm_compute. done. Qed.

(** A capability that is given up with capset while it is ambient comes back
    with the next exec. *)
Example ambient_outlives_capset :
  let none : flat := list_to_map (zip (counter 1 32) (le_store 4 LINUX_CAPABILITY_VERSION_3 ++ replicate 28 0)) in
  let l := [Capset 0 8 demo_caps; Prctl LINIX_PR_CAP_AMBIENT 2 8 0 0; Capset 0 8 none] in
  cap_permitted (p_caps (demo_run l demo_root)) = 0 ∧
  cap_effective (p_caps (demo_run (l ++ [Exec 0 0 0x1ed]) demo_root)) = 0x100.
Proof. vm_compute. done. Qed.

(** An exec by a user who is not root keeps all that was permitted. *)
Example exec_keeps_permitted :
  let p := demo_run [Prctl LINUX_PR_SET_KEEPCAPS 1 0 0 0; Setuid 1000; Exec 0 0 0x1ed] demo_root in
  cap_ambient (p_caps p) = 0 ∧ cap_permitted (p_caps p) = ALL_BITS.
Proof. vm_compute. done. Qed.

(** A set-user-ID program of root's runs as root without a capability. *)
Example setuid_root_without_capabilities :
  let p := demo_run [Exec 0 0 0x9ed] demo_user in euid (p_cred p) = 0 ∧ cap_effective (p_caps p) = 0.
Proof. vm_compute. done. Qed.

(** setgroups that fails half way leaves the process in other groups. *)
Example failed_setgroups_changes_groups :
  let half : flat := list_to_map (zip (counter 1 4) (le_store 4 33)) in
  let p := guest_groups_set [20; 21] 2 demo_root in
  let '(r, p') := sys_setgroups 2 0 p half in
  r = - EFAULT ∧ groups p = [20; 21] ∧ groups p' = [33; 21].
Proof. vm_compute. done. Qed.

(** setuid refuses -1 and setgid takes it. *)
Example setgid_takes_no_id :
  (sys_setuid 7 (λ _, false) NOID demo_root).1 = - EINVAL ∧ (sys_setgid 7 (λ _, false) NOID demo_root).1 = 0.
Proof. vm_compute. done. Qed.
