(* ===== verification/IdMap.v ===== *)
(** What user and time namespaces hold, src/proc/namespace.c and
    include/namespace.h: the maps between the ids inside a user namespace and
    outside, the rules for writing them, a time namespace's offsets, and the
    text both are read and written as under /proc. The namespaces themselves
    are in Namespaces.v. *)

From S2P Require Import Prelude PidNs Names MountTable Guest Paths.

(** * Numbers in text *)

(** What strtoull skips, and what the code here skips itself. *)
Definition isspace (c : ascii) : bool :=
  let n := nat_of_ascii c in (n =? 32)%nat || ((9 <=? n)%nat && (n <=? 13)%nat).
Definition blank (c : ascii) : bool :=
  let n := nat_of_ascii c in (n =? 32)%nat || (n =? 9)%nat || (n =? 10)%nat.

Fixpoint skip_while (f : ascii → bool) (s : cstr) : cstr :=
  match s with c :: s' => if f c then skip_while f s' else s | [] => [] end.

(** Whether there is a minus, the digits' value, and what follows; [None] when
    there are no digits, and the end pointer is the beginning. *)
Definition strtonum (s : cstr) : option (bool * Z * cstr) :=
  let s := skip_while isspace s in
  let '(neg, s) :=
    match s with
    | c :: s' => if bool_decide (c = "-"%char) then (true, s') else if bool_decide (c = "+"%char) then (false, s') else (false, s)
    | [] => (false, [])
    end in
  match s with
  | c :: _ => if is_digit c then let '(n, e) := digits s 0 in Some (neg, n, e) else None
  | [] => None
  end.

Definition strtoull (s : cstr) : option (Z * cstr) :=
  '(neg, n, e) ← strtonum s;
  Some (if 2^64 <=? n then 2^64 - 1 else u64 (if neg : bool then - n else n), e).

Definition strtoll (s : cstr) : option (Z * cstr) :=
  '(neg, n, e) ← strtonum s;
  Some (Z.max (- 2^63) (Z.min (2^63 - 1) (if neg : bool then - n else n)), e).

(** "%<w>u" and "%<w>lld". *)
Definition space : ascii := " "%char.
Definition newline : ascii := "010"%char.
Definition pad (w : nat) (s : cstr) : cstr := replicate (w - length s) space ++ s.
Definition signed (n : Z) : cstr := if n <? 0 then "-"%char :: decimal (- n) else decimal n.

(** * Id maps *)

Definition USERNS_MAX_RANGES : nat := 5.
Definition USERNS_OVERFLOW : Z := 65534.

Record id_range := mk_range { inside : Z; outside : Z; count : Z }.

(** [n_uid] and [n_gid] are the lengths. *)
Record user_namespace := mk_user {
  u_uid : list id_range;
  u_gid : list id_range;
  setgroups_allowed : bool;
  uid_written : bool;
  gid_written : bool;
  creator : Z;
}.

(** The map of users or, when [g], of groups. *)
Definition ranges (g : bool) (u : user_namespace) : list id_range := if g then u_gid u else u_uid u.
Definition written (g : bool) (u : user_namespace) : bool := if g then gid_written u else uid_written u.

(** A namespace that has just been made. *)
Definition user_new (euid : Z) : user_namespace := mk_user [] [] true false false euid.

(** calloc's. *)
Definition user_zero : user_namespace := mk_user [] [] false false false 0.

Fixpoint map_inward (r : list id_range) (out : Z) : Z :=
  match r with
  | [] => USERNS_OVERFLOW
  | x :: r => if (outside x <=? out) && (out - outside x <? count x) then u32 (inside x + (out - outside x)) else map_inward r out
  end.

Fixpoint map_outward (r : list id_range) (ins : Z) : option Z :=
  match r with
  | [] => None
  | x :: r => if (inside x <=? ins) && (ins - inside x <? count x) then Some (u32 (outside x + (ins - inside x))) else map_outward r ins
  end.

(** ** As text *)

Definition range_line (r : id_range) : cstr :=
  pad 10 (decimal (inside r)) ++ [space] ++ pad 10 (decimal (outside r)) ++ [space] ++ pad 10 (decimal (count r)) ++ [newline].

(** The lines printed one after the other into a buffer of [n], and the length
    that is returned. *)
Fixpoint emit (ls : list cstr) (n len : nat) (out : cstr) : cstr * nat :=
  match ls with
  | l :: ls => if (len <? n)%nat then emit ls n (len + length l) (out ++ snprintf (n - len) l) else (out, len)
  | [] => (out, len)
  end.

(** [active] is whether the process is in a user namespace of its own. *)
Definition userns_map_read (active g : bool) (n : nat) (u : user_namespace) : cstr * nat :=
  if negb active then let l := range_line (mk_range 0 0 4294967295) in (snprintf n l, length l)
  else emit (range_line <$> ranges g u) n 0 [].

Definition userns_setgroups_read (active : bool) (n : nat) (u : user_namespace) : cstr * nat :=
  let l := (if negb active || setgroups_allowed u then lit "allow" else lit "deny") ++ [newline] in (snprintf n l, length l).

Definition userns_setgroups_write (active : bool) (text : cstr) (u : user_namespace) : Z * user_namespace :=
  if negb active then (- EPERM, u)
  else if gid_written u then (- EPERM, u)
  else
    let text := skip_while blank text in
    let allow b := mk_user (u_uid u) (u_gid u) b (uid_written u) (gid_written u) (creator u) in
    if strncmp text (lit "deny") 4 then (0, allow false)
    else if strncmp text (lit "allow") 5 then (0, allow true)
    else (- EINVAL, u).

(** One line of a map. *)
Definition parse_range (p : cstr) : Z + id_range * cstr :=
  match strtoull p with
  | None => inl (- EINVAL)
  | Some (ins, p) =>
      match strtoull p with
      | None => inl (- EINVAL)
      | Some (out, p) =>
          match strtoull p with
          | None => inl (- EINVAL)
          | Some (n, p) =>
              if (n =? 0) || (0xffffffff <? ins) || (0xffffffff <? out) || (0xffffffff <? n) then inl (- EINVAL)
              else inr (mk_range ins out n, p)
          end
      end
  end.

Fixpoint parse_map (fuel : nat) (p : cstr) (r : list id_range) : outcome (Z + list id_range) :=
  match p with
  | [] => Ret (inr r)
  | _ =>
      match fuel with
      | O => Stop OutOfFuel
      | S fuel =>
          match skip_while blank p with
          | [] => Ret (inr r)
          | p =>
              if (length r =? USERNS_MAX_RANGES)%nat then Ret (inl (- EINVAL))
              else match parse_range p with inl e => Ret (inl e) | inr (x, p) => parse_map fuel p (r ++ [x]) end
          end
      end
  end.

(** Every line takes a character at least. *)
Definition parse_fuel (text : cstr) : nat := length text.

Definition set_map (g : bool) (r : list id_range) (u : user_namespace) : user_namespace :=
  if g then mk_user (u_uid u) r (setgroups_allowed u) (uid_written u) true (creator u)
  else mk_user r (u_gid u) (setgroups_allowed u) true (gid_written u) (creator u).

(** What an unprivileged writer may map: the one id it has. *)
Definition own_range (own : Z) (r : list id_range) : bool :=
  match r with [x] => (count x =? 1) && (outside x =? own) | _ => false end.

Definition userns_map_write (active g : bool) (text : cstr) (euid egid : Z) (u : user_namespace) : outcome (Z * user_namespace) :=
  if negb active then Ret (- EPERM, u)
  else if written g u then Ret (- EPERM, u)
  else
    let privileged := euid =? 0 in
    if g && negb privileged && setgroups_allowed u then Ret (- EPERM, u)
    else
      r ← parse_map (parse_fuel text) text [];
      match r with
      | inl e => Ret (e, u)
      | inr [] => Ret (0, u)
      | inr r =>
          if negb privileged && negb (own_range (if g then egid else euid) r) then Ret (- EPERM, u)
          else Ret (0, set_map g r u)
      end.

(** * Time offsets *)

Record time_namespace := mk_time {
  mono_sec : Z; mono_nsec : Z; boot_sec : Z; boot_nsec : Z; frozen : bool;
}.

Definition time_zero : time_namespace := mk_time 0 0 0 0 false.
Definition set_frozen (b : bool) (t : time_namespace) : time_namespace :=
  mk_time (mono_sec t) (mono_nsec t) (boot_sec t) (boot_nsec t) b.
Definition set_offset (boot : bool) (sec nsec : Z) (t : time_namespace) : time_namespace :=
  if boot then mk_time (mono_sec t) (mono_nsec t) sec nsec (frozen t)
  else mk_time sec nsec (boot_sec t) (boot_nsec t) (frozen t).

Definition offsets_text (t : time_namespace) : cstr :=
  lit "monotonic " ++ pad 11 (signed (mono_sec t)) ++ [space] ++ pad 9 (signed (mono_nsec t)) ++ [newline] ++
  lit "boottime  " ++ pad 11 (signed (boot_sec t)) ++ [space] ++ pad 9 (signed (boot_nsec t)) ++ [newline].

Definition clock_named (p : cstr) : option (bool * cstr) :=
  if strncmp p (lit "monotonic") 9 then Some (false, drop 9 p)
  else if strncmp p (lit "boottime") 8 then Some (true, drop 8 p)
  else if starts "1"%char p then Some (false, drop 1 p)
  else if starts "7"%char p then Some (true, drop 1 p)
  else None.

Fixpoint parse_offsets (fuel : nat) (p : cstr) (t : time_namespace) : outcome (Z + time_namespace) :=
  match p with
  | [] => Ret (inr t)
  | _ =>
      match fuel with
      | O => Stop OutOfFuel
      | S fuel =>
          match skip_while blank p with
          | [] => Ret (inr t)
          | p =>
              match clock_named p with
              | None => Ret (inl (- EINVAL))
              | Some (boot, p) =>
                  match strtoll p with
                  | None => Ret (inl (- EINVAL))
                  | Some (sec, p) =>
                      let '(nsec, p) := match strtoll p with None => (0, p) | Some (nsec, p) => (nsec, p) end in
                      if (nsec <? 0) || (1000000000 <=? nsec) then Ret (inl (- EINVAL))
                      else parse_offsets fuel p (set_offset boot sec nsec t)
                  end
              end
          end
      end
  end.

(** struct timespec. *)
Record timespec := mk_ts { tv_sec : Z; tv_nsec : Z }.

(** [t] is the namespace's offsets; seconds wrap as the processor's do. *)
Definition timens_shift (t : time_namespace) (boottime : bool) (sign : Z) (ts : timespec) : timespec :=
  let sec := if boottime then boot_sec t else mono_sec t in
  let nsec := if boottime then boot_nsec t else mono_nsec t in
  if (sec =? 0) && (nsec =? 0) then ts
  else
    let s := s64 (tv_sec ts + s64 (sign * sec)) in
    let n := s64 (tv_nsec ts + s64 (sign * nsec)) in
    let '(s, n) :=
      if 1000000000 <=? n then (s64 (s + 1), n - 1000000000)
      else if n <? 0 then (s64 (s - 1), n + 1000000000)
      else (s, n) in
    if s <? 0 then mk_ts 0 0 else mk_ts s n.

(** * Reading numbers *)

Lemma skip_le f s : (length (skip_while f s) ≤ length s)%nat.
Proof. induction s as [|c s IH]; cbn; [done|]. destruct (f c); cbn; lia. Qed.

Lemma digits_le s : ∀ n, (length (digits s n).2 ≤ length s)%nat.
Proof. induction s as [|c s IH]; intros n; cbn; [done|]. destruct (is_digit c); cbn; [|done]. etransitivity; [apply IH|lia]. Qed.

(** A number takes a character at least. *)
Lemma number_lt (b neg : bool) n e t :
  match t with c :: _ => if is_digit c then let '(n, e) := digits t 0 in Some (b, n, e) else None | [] => None end = Some (neg, n, e) →
  (length e < length t)%nat.
Proof.
  destruct t as [|d t]; [done|]. cbn. destruct (is_digit d); [|done].
  pose proof (digits_le t (Z.of_nat (nat_of_ascii d) - 48)) as Hd. destruct (digits t _) as [m e']. intros [= _ _ <-]. cbn in Hd. lia.
Qed.

Lemma strtonum_lt s neg n e : strtonum s = Some (neg, n, e) → (length e < length s)%nat.
Proof.
  unfold strtonum. pose proof (skip_le isspace s) as Hl. destruct (skip_while isspace s) as [|c t]; [done|].
  case_bool_decide; [|case_bool_decide]; intros E; [apply number_lt in E..|apply (number_lt false _ _ _ (c :: t)) in E]; cbn in *; lia.
Qed.

Lemma strtoull_lt s n e : strtoull s = Some (n, e) → (length e < length s)%nat.
Proof. unfold strtoull. destruct (strtonum s) as [[[neg m] e']|] eqn:E; [|done]. cbn. intros [= _ <-]. by eapply strtonum_lt. Qed.
Lemma strtoll_lt s n e : strtoll s = Some (n, e) → (length e < length s)%nat.
Proof. unfold strtoll. destruct (strtonum s) as [[[neg m] e']|] eqn:E; [|done]. cbn. intros [= _ <-]. by eapply strtonum_lt. Qed.

Lemma strtoull_range s n e : strtoull s = Some (n, e) → 0 ≤ n < 2^64.
Proof.
  unfold strtoull. destruct (strtonum s) as [[[neg m] e']|]; [|done]. cbn. intros [= <- _].
  case_bool; [lia|apply u64_range].
Qed.

(** ** What was printed *)

Lemma digits_app l rest : ∀ m k, digits l m = (k, []) → digits (l ++ rest) m = digits rest k.
Proof.
  induction l as [|c l IH]; intros m k; cbn; [by intros [= ->]|]. destruct (is_digit c); [apply IH|done].
Qed.

(** [s] does not go on with a digit. *)
Definition stops (s : cstr) : Prop := match s with c :: _ => is_digit c = false | [] => True end.

Lemma digits_decimal n rest : 0 ≤ n → stops rest → digits (decimal n ++ rest) 0 = (n, rest).
Proof.
  intros Hn Hr. destruct (decimal_go n Hn) as (E & _). rewrite (digits_app _ rest _ _ E).
  destruct rest as [|c r]; [done|]. cbn in *. by rewrite Hr.
Qed.

Lemma strtonum_space s : strtonum (space :: s) = strtonum s.
Proof. done. Qed.

Lemma strtonum_pad w s rest : strtonum (pad w s ++ rest) = strtonum (s ++ rest).
Proof. unfold pad. induction (w - length s)%nat as [|k IH]; [done|]. apply IH. Qed.

Lemma digit_plain c : is_digit c = true → isspace c = false ∧ c ≠ "-"%char ∧ c ≠ "+"%char.
Proof.
  unfold is_digit, isspace. intros [H1%Nat.leb_le H2%Nat.leb_le]%andb_true_iff.
  split; [|split; intros ->; vm_compute in H1; lia].
  destruct (_ =? 32)%nat eqn:E1; [apply Nat.eqb_eq in E1; lia|]. cbn.
  destruct (_ <=? 13)%nat eqn:E2; [apply Nat.leb_le in E2; lia|]. apply andb_false_r.
Qed.

Lemma strtonum_decimal n rest : 0 ≤ n → stops rest → strtonum (decimal n ++ rest) = Some (false, n, rest).
Proof.
  intros Hn Hr. pose proof (digits_decimal n rest Hn Hr) as Hd. destruct (decimal_go n Hn) as (_ & Hne & _ & Hc).
  unfold strtonum. destruct (decimal n) as [|c l]; [done|]. destruct (digit_plain c Hc) as (Hs & Hm & Hp).
  cbn [app skip_while]. rewrite Hs, !bool_decide_eq_false_2, Hc by done. cbn [app] in Hd. by rewrite Hd.
Qed.

Lemma strtonum_signed n rest : stops rest → strtonum (signed n ++ rest) = Some (n <? 0, Z.abs n, rest).
Proof.
  intros Hr. unfold signed. destruct (n <? 0) eqn:E; bool_to_prop; [|rewrite strtonum_decimal by (done || lia); by rewrite Z.abs_eq].
  pose proof (digits_decimal (- n) rest ltac:(lia) Hr) as Hd. destruct (decimal_go (- n) ltac:(lia)) as (_ & Hne & _ & Hc).
  unfold strtonum. cbn [app skip_while]. change (isspace "-") with false. cbn iota. rewrite bool_decide_eq_true_2 by done.
  destruct (decimal (- n)) as [|c l]; [done|]. cbn [app] in *. rewrite Hc, Hd. do 3 f_equal. lia.
Qed.

Lemma strtoull_read w n rest : 0 ≤ n < 2^64 → stops rest → strtoull (pad w (decimal n) ++ rest) = Some (n, rest).
Proof.
  intros Hn Hr. unfold strtoull. rewrite strtonum_pad, strtonum_decimal by (try done; lia). cbn.
  rewrite (proj2 (Z.leb_gt _ _)) by lia. by rewrite u64_small.
Qed.

Lemma strtoll_read w n rest : - 2^63 ≤ n < 2^63 → stops rest → strtoll (pad w (signed n) ++ rest) = Some (n, rest).
Proof.
  intros Hn Hr. unfold strtoll. rewrite strtonum_pad, strtonum_signed by done. cbn [mbind option_bind].
  destruct (n <? 0) eqn:E; bool_to_prop; do 2 f_equal; lia.
Qed.

Lemma strtoull_space s : strtoull (space :: s) = strtoull s.
Proof. done. Qed.
Lemma strtoll_space s : strtoll (space :: s) = strtoll s.
Proof. done. Qed.

(** * Reading maps *)

(** What a line can hold. *)
Record range_ok (x : id_range) : Prop := {
  ro_inside : 0 ≤ inside x < 2^32;
  ro_outside : 0 ≤ outside x < 2^32;
  ro_count : 0 < count x < 2^32;
}.

Lemma parse_range_ok p x p' : parse_range p = inr (x, p') → (length p' < length p)%nat ∧ range_ok x.
Proof.
  unfold parse_range. destruct (strtoull p) as [[a p1]|] eqn:E1; [|done]. destruct (strtoull p1) as [[b p2]|] eqn:E2; [|done].
  destruct (strtoull p2) as [[c p3]|] eqn:E3; [|done].
  pose proof (strtoull_range _ _ _ E1). pose proof (strtoull_range _ _ _ E2). pose proof (strtoull_range _ _ _ E3).
  apply strtoull_lt in E1, E2, E3. destruct (_ || _) eqn:E; [done|]. intros [= <- <-]. bool_to_prop. split; [lia|].
  split; cbn; lia.
Qed.

Lemma parse_map_total fuel : ∀ p r, (length p ≤ fuel)%nat → ∃ a, parse_map fuel p r = Ret a.
Proof.
  induction fuel as [|fuel IH]; intros [|c p] r Hf; cbn [parse_map]; [by eexists|cbn in Hf; lia|by eexists|].
  pose proof (skip_le blank (c :: p)) as Hs. destruct (skip_while blank (c :: p)) as [|d q]; [by eexists|].
  case_bool; [by eexists|]. destruct (parse_range (d :: q)) as [e|[x p']] eqn:Ep; [by eexists|].
  apply parse_range_ok in Ep as [Hl _]. apply IH. cbn in *. lia.
Qed.

Lemma parse_map_ok fuel : ∀ p r l, parse_map fuel p r = Ret (inr l) → (length r ≤ USERNS_MAX_RANGES)%nat → Forall range_ok r →
  (length l ≤ USERNS_MAX_RANGES)%nat ∧ Forall range_ok l.
Proof.
  induction fuel as [|fuel IH]; intros [|c p] r l; cbn [parse_map]; [by intros [= <-]|done|by intros [= <-]|].
  destruct (skip_while blank (c :: p)) as [|d q]; [by intros [= <-]|]. destruct (_ =? _)%nat eqn:En; [done|].
  destruct (parse_range (d :: q)) as [e|[x p']] eqn:E; [done|]. apply parse_range_ok in E as [_ Hx]. apply Nat.eqb_neq in En.
  intros El Hr Hf. apply (IH _ _ _ El); [rewrite length_app; cbn; lia|by apply Forall_app_2; [|apply Forall_singleton]].
Qed.

(** ** A line *)

Lemma blank_digit c : is_digit c = true → blank c = false.
Proof.
  intros [Hs _]%digit_plain. unfold isspace in Hs. unfold blank. destruct (_ =? 32)%nat; [done|]. cbn in *.
  destruct (_ =? 9)%nat eqn:E; [apply Nat.eqb_eq in E; by rewrite E in Hs|]. cbn.
  destruct (_ =? 10)%nat eqn:E'; [apply Nat.eqb_eq in E'; by rewrite E' in Hs|]. done.
Qed.

Lemma skip_pad w n rest : 0 ≤ n → skip_while blank (pad w (decimal n) ++ rest) = decimal n ++ rest.
Proof.
  intros Hn. destruct (decimal_go n Hn) as (_ & Hne & _ & Hc). unfold pad.
  induction (w - length (decimal n))%nat as [|k IH]; [|apply IH]. cbn [replicate app].
  destruct (decimal n) as [|c l]; [done|]. cbn [app skip_while]. by rewrite (blank_digit c Hc).
Qed.

Lemma parse_line x rest : range_ok x →
  parse_range (skip_while blank (range_line x ++ rest)) = inr (x, newline :: rest) ∧
  skip_while blank (range_line x ++ rest) ≠ [].
Proof.
  intros [Hi Ho Hc]. unfold range_line. rewrite <- !app_assoc. rewrite skip_pad by lia. split; cycle 1.
  { destruct (decimal_go (inside x) ltac:(lia)) as (_ & Hne & _). by destruct (decimal (inside x)). }
  change (decimal (inside x)) with (pad 0 (decimal (inside x))). unfold parse_range.
  rewrite strtoull_read by (done || lia). cbn [app]. rewrite strtoull_space, strtoull_read by (done || lia).
  cbn [app]. rewrite strtoull_space, strtoull_read by (done || lia).
  rewrite (proj2 (Z.eqb_neq _ _)), !(proj2 (Z.ltb_ge _ _)) by lia. by destruct x.
Qed.

Lemma parse_lines rs : ∀ fuel pre r,
  Forall range_ok rs → (length r + length rs ≤ USERNS_MAX_RANGES)%nat → pre = [] ∨ pre = [newline] →
  (length (pre ++ concat (range_line <$> rs)) ≤ fuel)%nat →
  parse_map fuel (pre ++ concat (range_line <$> rs)) r = Ret (inr (r ++ rs)).
Proof.
  induction rs as [|x rs IH]; intros fuel pre r Hf Hl Hp Hn.
  - cbn [fmap list_fmap concat] in *. rewrite !app_nil_r in *. destruct Hp as [->| ->]; destruct fuel; done || cbn in Hn; lia.
  - apply Forall_cons in Hf as [Hx Hf]. cbn [fmap list_fmap concat] in *.
    destruct (parse_line x (concat (range_line <$> rs)) Hx) as [Ep Hne].
    assert (skip_while blank (pre ++ range_line x ++ concat (range_line <$> rs)) = skip_while blank (range_line x ++ concat (range_line <$> rs)))
      as Es by (by destruct Hp as [->| ->]).
    set (t := range_line x ++ concat (range_line <$> rs)) in *.
    assert (pre ++ t ≠ []) as Hne' by (by destruct Hp as [->| ->]; [destruct t|]).
    destruct fuel as [|fuel]; [destruct (pre ++ t); [done|cbn in Hn; lia]|].
    destruct (pre ++ t) as [|c q] eqn:Eq; [done|]. cbn [parse_map]. rewrite Es.
    destruct (skip_while blank t) as [|d s] eqn:Ed; [done|]. cbn [length] in Hl. rewrite (proj2 (Nat.eqb_neq _ _)) by lia. rewrite Ep.
    change (newline :: ?z) with ([newline] ++ z). rewrite IH; [by rewrite <- app_assoc|done|rewrite length_app; cbn; lia|by right|].
    assert (length (d :: s) ≤ length (c :: q))%nat as Hds by (rewrite <- Es; apply skip_le).
    apply parse_range_ok in Ep as [Hlt _]. cbn in *. lia.
Qed.

(** ** The whole map *)

Lemma emit_all ls : ∀ n len out, (len + length (concat ls) < n)%nat →
  emit ls n len out = (out ++ concat ls, (len + length (concat ls))%nat).
Proof.
  induction ls as [|l ls IH]; intros n len out Hn; cbn [emit concat] in *; [by rewrite app_nil_r, Nat.add_0_r|].
  rewrite length_app in *. rewrite (proj2 (Nat.ltb_lt _ _)) by lia. rewrite IH by lia. unfold snprintf.
  rewrite take_ge by lia. rewrite <- app_assoc. f_equal. lia.
Qed.

Lemma length_range_line x : range_ok x → length (range_line x) = 33%nat.
Proof.
  intros [Hi Ho Hc]. assert (∀ n, 0 ≤ n < 2^32 → length (pad 10 (decimal n)) = 10%nat) as Hp.
  { intros n Hn. destruct (decimal_go n ltac:(lia)) as (_ & _ & Hl & _). unfold pad. rewrite length_app, length_replicate. lia. }
  unfold range_line. rewrite !length_app, !Hp by lia. done.
Qed.

Lemma length_lines rs : Forall range_ok rs → length (concat (range_line <$> rs)) = (33 * length rs)%nat.
Proof.
  induction 1 as [|x rs Hx Hf IH]; [done|]. cbn [fmap list_fmap concat length]. rewrite length_app, length_range_line by done.
  change (list_fmap _ _ range_line rs) with (range_line <$> rs). rewrite IH. lia.
Qed.

(** C31: What is read of a user namespace's map under /proc can be written as the
    map of another: root's write of it installs the same ranges. *)
Theorem map_text_roundtrip (g : bool) egid (v u : user_namespace) :
  ranges g v ≠ [] → (length (ranges g v) ≤ USERNS_MAX_RANGES)%nat → Forall range_ok (ranges g v) → written g u = false →
  userns_map_write true g (userns_map_read true g 256 v).1 0 egid u = Ret (0, set_map g (ranges g v) u).
Proof.
  intros Hne Hl Hf Hw. unfold userns_map_write, userns_map_read. cbn [negb]. rewrite Hw.
  change (0 =? 0) with true. rewrite andb_false_r. cbn [andb]. rewrite emit_all; cycle 1.
  { rewrite length_lines by done. unfold USERNS_MAX_RANGES in Hl. lia. }
  cbn [fst app]. pose proof (parse_lines (ranges g v) (parse_fuel (concat (range_line <$> ranges g v))) [] []) as Hp.
  cbn [app] in Hp. rewrite Hp by (done || by left). cbn. by destruct (ranges g v).
Qed.

(** * Who may write *)

(** A write to uid_map or gid_map by a process with these effective ids, or one
    to setgroups. *)
Inductive map_write := MapWrite (g : bool) (text : cstr) (euid egid : Z) | SetgroupsWrite (text : cstr).

Definition do_write (w : map_write) (u : user_namespace) : outcome user_namespace :=
  match w with
  | MapWrite g text euid egid => '(_, u) ← userns_map_write true g text euid egid u; Ret u
  | SetgroupsWrite text => Ret (userns_setgroups_write true text u).2
  end.

(** What a write can do: leave the maps, or set one that was not set to what
    the writer may set. *)
Definition keeps_maps (u u' : user_namespace) : Prop :=
  (∀ g, ranges g u' = ranges g u ∧ written g u' = written g u) ∧
  (gid_written u = true → setgroups_allowed u' = setgroups_allowed u).

Definition sets_map (w : map_write) (u u' : user_namespace) : Prop :=
  ∃ g text euid egid r, w = MapWrite g text euid egid ∧ u' = set_map g r u ∧ written g u = false ∧ Forall range_ok r ∧
    (euid = 0 ∨ own_range (if g then egid else euid) r = true ∧ (g = true → setgroups_allowed u = false)).

Lemma setgroups_keeps text u : keeps_maps u (userns_setgroups_write true text u).2.
Proof.
  unfold userns_setgroups_write, keeps_maps. cbn [negb]. destruct (gid_written u) eqn:Eg; [done|].
  split; [|done]. intros g. repeat case_bool; by destruct g.
Qed.

Lemma do_write_cases w u : ∃ u', do_write w u = Ret u' ∧ (keeps_maps u u' ∨ sets_map w u u').
Proof.
  destruct w as [g text e eg|text]; cbn [do_write]; cycle 1.
  { eexists. split; [done|]. left. apply setgroups_keeps. }
  assert (keeps_maps u u) as Hk by done.
  unfold userns_map_write. cbn [negb]. destruct (written g u) eqn:Ew; [exists u; auto|].
  destruct (g && _ && _) eqn:Es; [exists u; auto|]. destruct (parse_map_total (parse_fuel text) text [] ltac:(done)) as [r Er]. rewrite Er.
  cbn [mbind outcome_bind]. destruct r as [err|[|x r]]; [exists u; by auto..|].
  destruct (negb (e =? 0) && _) eqn:Eo; [exists u; by auto|].
  eexists. split; [done|]. right. exists g, text, e, eg, (x :: r). do 3 (split; [done|]).
  split; [by apply (parse_map_ok _ _ _ _ Er); [apply Nat.le_0_l|]|].
  destruct (e =? 0) eqn:Ez; [left; by apply Z.eqb_eq|right]. cbn in Eo. apply negb_false_iff in Eo. split; [done|].
  intros ->. by destruct (setgroups_allowed u).
Qed.

(** ** A map is written once *)

(** A map that has been written stays, whoever writes to it. *)
Theorem maps_written_once g u l :
  written g u = true → ∃ u', for_each do_write l u = Ret u' ∧ ranges g u' = ranges g u ∧ written g u' = true.
Proof.
  revert u. induction l as [|w l IH]; intros u Hw; [by exists u|]. cbn [for_each].
  destruct (do_write_cases w u) as (u1 & -> & [[Hk _]|(h & text & e & eg & r & -> & -> & Hn & _)]); cbn [mbind outcome_bind].
  - destruct (Hk g) as [Er Ew]. destruct (IH u1) as (u' & E' & Hr & Hw'); [by rewrite Ew|]. exists u'. by rewrite Hr, Er.
  - assert (h = negb g) as -> by (destruct g, h; done || congruence). destruct (IH (set_map (negb g) r u)) as (u' & E' & Hr & Hw'); [by destruct g|].
    exists u'. split; [done|]. split; [|done]. rewrite Hr. by destruct g.
Qed.

(** ** An unprivileged user maps itself *)

Definition unprivileged (w : map_write) : Prop := match w with MapWrite _ _ e _ => e ≠ 0 | SetgroupsWrite _ => True end.

(** The ids the writers have outside. *)
Definition writers (g : bool) (l : list map_write) : list Z :=
  omap (λ w, match w with MapWrite _ _ e eg => Some (if g then eg else e) | SetgroupsWrite _ => None end) l.

Record maps_self (S : bool → list Z) (u : user_namespace) : Prop := {
  ms_map g : ranges g u = [] ∨ ∃ x, ranges g u = [x] ∧ count x = 1 ∧ outside x ∈ S g ∧ range_ok x;
  ms_written g : ranges g u ≠ [] → written g u = true;
  ms_groups : gid_written u = true → setgroups_allowed u = false;
}.

Lemma own_range_one own r : own_range own r = true → ∃ x, r = [x] ∧ count x = 1 ∧ outside x = own.
Proof. destruct r as [|x [|]]; [done| |done]. cbn. intros H. bool_to_prop. by exists x. Qed.

Lemma set_map_ranges g h r u : ranges g (set_map h r u) = (if eqb g h then r else ranges g u) ∧
  written g (set_map h r u) = (if eqb g h then true else written g u).
Proof. by destruct g, h. Qed.

Lemma do_write_self S w u : unprivileged w → (∀ g, writers g [w] ⊆ S g) → maps_self S u →
  ∃ u', do_write w u = Ret u' ∧ maps_self S u'.
Proof.
  intros Hu HS [Hm Hw Hg]. destruct (do_write_cases w u) as (u' & -> & Hc). exists u'. split; [done|].
  destruct Hc as [[Hk Hs]|(h & text & e & eg & r & -> & -> & Hn & Hf & Hp)].
  - split; [intros g|intros g|]; [destruct (Hk g) as [-> _]; auto|destruct (Hk g) as [-> ->]; auto|]. intros Eg. destruct (Hk true) as [_ Ew]. cbn in Ew.
    rewrite Ew in Eg. rewrite Hs by done. auto.
  - destruct Hp as [->|[Ho Hp]]; [done|]. destruct (own_range_one _ _ Ho) as (x & -> & Hc & Hx).
    split; [intros g|intros g|].
    + destruct (set_map_ranges g h [x] u) as [-> _]. destruct (eqb g h) eqn:E; [|apply Hm]. apply eqb_prop in E as ->. right. exists x.
      rewrite Forall_singleton in Hf. split_and!; [done..| |done]. apply (HS h). rewrite Hx. by apply list_elem_of_singleton.
    + destruct (set_map_ranges g h [x] u) as [-> ->]. destruct (eqb g h); [done|apply Hw].
    + destruct h; cbn in *; auto.
Qed.

Lemma writes_self S l : Forall unprivileged l → (∀ g, writers g l ⊆ S g) → ∀ u, maps_self S u →
  ∃ u', for_each do_write l u = Ret u' ∧ maps_self S u'.
Proof.
  induction 1 as [|w l Hw Hl IH]; intros HS u Hu; [by exists u|]. cbn [for_each].
  destruct (do_write_self S w u Hw) as (u1 & -> & Hu1); [|done|].
  - intros g y Hy. apply (HS g). unfold writers in *. destruct w; cbn in *; [|by apply elem_of_nil in Hy].
    apply list_elem_of_singleton in Hy as ->. by left.
  - apply IH; [|done]. intros g y Hy. apply (HS g). unfold writers in *. destruct w; cbn; [by right|done].
Qed.

(** C32: However an unprivileged process, or several, go about writing the maps of a
    new user namespace, an id inside stands for one the writer has outside or
    for none, at most one id is mapped, and groups are mapped only when
    setgroups has been denied. *)
Theorem unprivileged_map_themselves c l :
  Forall unprivileged l →
  ∃ u, for_each do_write l (user_new c) = Ret u ∧
    (∀ g i o, map_outward (ranges g u) i = Some o → o ∈ writers g l) ∧
    (∀ g i o i' o', map_outward (ranges g u) i = Some o → map_outward (ranges g u) i' = Some o' → i = i') ∧
    (u_gid u ≠ [] → setgroups_allowed u = false).
Proof.
  intros Hl. destruct (writes_self (λ g, writers g l) l Hl) with (u := user_new c) as (u & E & [Hm Hw Hg]);
    [done|by split; [left; destruct g|destruct g|]|].
  exists u. split; [done|]. assert (∀ g i o, map_outward (ranges g u) i = Some o → ∃ x, ranges g u = [x] ∧ i = inside x ∧ o = outside x ∧ o ∈ writers g l) as Ho.
  { intros g i o. destruct (Hm g) as [->|(x & -> & Hc & Hx & Hr)]; [done|]. cbn. destruct (_ && _) eqn:E'; [|done]. intros [= <-]. bool_to_prop.
    exists x. assert (i = inside x) as -> by lia. rewrite Z.sub_diag, Z.add_0_r, u32_small by apply Hr. done. }
  split; [intros g i o H; by destruct (Ho g i o H) as (? & ? & ? & ? & ?)|]. split.
  - intros g i o i' o' H H'. destruct (Ho _ _ _ H) as (x & Ex & -> & _), (Ho _ _ _ H') as (x' & Ex' & -> & _). congruence.
  - intros Hne. apply Hg. by apply (Hw true).
Qed.

(** * Translation *)

Definition in_inside (i : Z) (x : id_range) : Prop := inside x ≤ i < inside x + count x.
Definition in_outside (o : Z) (x : id_range) : Prop := outside x ≤ o < outside x + count x.

(** A map that means something: no range goes past the last id, and no two
    share an id on either side. *)
Record map_ok (r : list id_range) : Prop := {
  mo_range : Forall range_ok r;
  mo_fits : Forall (λ x, inside x + count x ≤ 2^32 ∧ outside x + count x ≤ 2^32) r;
  mo_inside i x y : x ∈ r → y ∈ r → in_inside i x → in_inside i y → x = y;
  mo_outside o x y : x ∈ r → y ∈ r → in_outside o x → in_outside o y → x = y;
}.

Lemma outward_spec r i o : Forall (λ x, 0 ≤ outside x ∧ outside x + count x ≤ 2^32) r → map_outward r i = Some o →
  ∃ x, x ∈ r ∧ in_inside i x ∧ o = outside x + (i - inside x).
Proof.
  induction 1 as [|x r Hx Hr IH]; [done|]. cbn. destruct (_ && _) eqn:E.
  - intros [= <-]. bool_to_prop. exists x. split; [by left|]. unfold in_inside. rewrite u32_small by lia. lia.
  - intros (y & Hy & H)%IH. exists y. split; [by right|done].
Qed.

Lemma outward_in r i x : x ∈ r → in_inside i x → is_Some (map_outward r i).
Proof.
  induction r as [|y r IH]; [by intros ?%elem_of_nil|]. intros [->|Hx]%elem_of_cons [H1 H2]; cbn.
  - rewrite (proj2 (Z.leb_le _ _)), (proj2 (Z.ltb_lt _ _)) by lia. by eexists.
  - destruct (_ && _); [by eexists|by apply IH].
Qed.

Lemma inward_spec r o x : Forall (λ x, 0 ≤ inside x ∧ inside x + count x ≤ 2^32) r → x ∈ r → in_outside o x →
  ∃ y, y ∈ r ∧ in_outside o y ∧ map_inward r o = inside y + (o - outside y).
Proof.
  induction 1 as [|y r Hy Hr IH]; [by intros ?%elem_of_nil|]. intros Hx Ho. cbn. destruct (_ && _) eqn:E.
  - bool_to_prop. exists y. split; [by left|]. unfold in_outside. rewrite u32_small by lia. lia.
  - apply elem_of_cons in Hx as [->|Hx].
    + destruct Ho. rewrite (proj2 (Z.leb_le _ _)), (proj2 (Z.ltb_lt _ _)) in E by lia. done.
    + destruct (IH Hx Ho) as (z & Hz & H). exists z. split; [by right|done].
Qed.

(** Over a map that means something the translations are inverse: an id inside
    stands for [o] outside just when [o] is mapped and shows inside as it. *)
Theorem translation_inverse r i o : map_ok r →
  map_outward r i = Some o ↔ (∃ x, x ∈ r ∧ in_outside o x) ∧ map_inward r o = i.
Proof.
  intros [Hr Hf Hi Ho].
  assert (Forall (λ x, 0 ≤ outside x ∧ outside x + count x ≤ 2^32) r) as Hout
    by (apply Forall_forall; rewrite Forall_forall in Hr, Hf; intros x Hx; pose proof (ro_outside _ (Hr x Hx)); specialize (Hf x Hx); lia).
  assert (Forall (λ x, 0 ≤ inside x ∧ inside x + count x ≤ 2^32) r) as Hin
    by (apply Forall_forall; rewrite Forall_forall in Hr, Hf; intros x Hx; pose proof (ro_inside _ (Hr x Hx)); specialize (Hf x Hx); lia).
  split.
  - intros (x & Hx & Hix & ->)%outward_spec; [|done]. assert (in_outside (outside x + (i - inside x)) x) as Hox by (unfold in_inside, in_outside in *; lia).
    split; [by exists x|]. destruct (inward_spec r _ x Hin Hx Hox) as (y & Hy & Hoy & ->).
    rewrite (Ho _ x y Hx Hy Hox Hoy). lia.
  - intros [(x & Hx & Hox) <-]. destruct (inward_spec r o x Hin Hx Hox) as (y & Hy & Hoy & ->).
    assert (in_inside (inside y + (o - outside y)) y) as Hiy by (unfold in_inside, in_outside in *; lia).
    destruct (outward_in r _ y Hy Hiy) as [o' E]. destruct (outward_spec r _ o' Hout E) as (z & Hz & Hiz & ->).
    rewrite E. f_equal. rewrite (Hi _ y z Hy Hz Hiy Hiz). lia.
Qed.

(** * Time *)

(** What can be written as offsets. *)
Record offsets_ok (t : time_namespace) : Prop := {
  ok_mono : - 2^63 ≤ mono_sec t < 2^63 ∧ 0 ≤ mono_nsec t < 1000000000;
  ok_boot : - 2^63 ≤ boot_sec t < 2^63 ∧ 0 ≤ boot_nsec t < 1000000000;
}.

Lemma strtoll_spaces k s : strtoll (replicate k space ++ s) = strtoll s.
Proof. induction k as [|k IH]; [done|]. apply IH. Qed.

(** One line, from the end of the line before. *)
Lemma parse_offset_line boot k name pre fuel sec nsec rest t :
  let tl := replicate k space ++ pad 11 (signed sec) ++ [space] ++ pad 9 (signed nsec) ++ newline :: rest in
  skip_while blank (pre ++ name ++ tl) = name ++ tl → name ≠ [] → clock_named (name ++ tl) = Some (boot, tl) →
  - 2^63 ≤ sec < 2^63 → 0 ≤ nsec < 1000000000 →
  parse_offsets (S fuel) (pre ++ name ++ tl) t = parse_offsets fuel (newline :: rest) (set_offset boot sec nsec t).
Proof.
  intros tl Hs Hne Hc Hsec Hn. destruct (pre ++ name ++ tl) as [|d q] eqn:Eq; [by destruct pre, name|]. cbn [parse_offsets].
  rewrite Hs. destruct (name ++ tl) as [|d' q'] eqn:Eq'; [by destruct name|]. rewrite Hc. unfold tl.
  rewrite strtoll_spaces, strtoll_read by (done || lia). cbn [app]. rewrite strtoll_space, strtoll_read by (done || lia).
  by rewrite (proj2 (Z.ltb_ge _ _)), (proj2 (Z.leb_gt _ _)) by lia.
Qed.

(** The offsets read of a time namespace under /proc, written as those of
    another, are its offsets; whether it is frozen is not in the text. *)
Theorem offsets_text_roundtrip t t0 :
  offsets_ok t → parse_offsets (parse_fuel (offsets_text t)) (offsets_text t) t0 = Ret (inr (set_frozen (frozen t0) t)).
Proof.
  intros [[Hm Hmn] [Hb Hbn]]. assert (∃ fuel, parse_fuel (offsets_text t) = S (S (S fuel))) as [fuel ->]
    by (unfold parse_fuel, offsets_text; eexists; reflexivity). unfold offsets_text.
  pose proof (parse_offset_line false 1 (lit "monotonic") [] (S (S fuel)) (mono_sec t) (mono_nsec t)
    (lit "boottime  " ++ pad 11 (signed (boot_sec t)) ++ [space] ++ pad 9 (signed (boot_nsec t)) ++ [newline]) t0) as H1.
  pose proof (parse_offset_line true 2 (lit "boottime") [newline] (S fuel) (boot_sec t) (boot_nsec t) []
    (set_offset false (mono_sec t) (mono_nsec t) t0)) as H2.
  refine (eq_trans (H1 eq_refl _ eq_refl Hm Hmn) (eq_trans (H2 eq_refl _ eq_refl Hb Hbn) _)); [done..|]. by destruct t, t0.
Qed.

Lemma map_write_total active g text euid egid u : ∃ r u', userns_map_write active g text euid egid u = Ret (r, u').
Proof.
  unfold userns_map_write. case_bool; [by eexists _, _|]. case_bool; [by eexists _, _|]. cbv zeta. case_bool; [by eexists _, _|].
  destruct (parse_map_total (parse_fuel text) text [] ltac:(done)) as [[e|[|x r]] ->]; cbn [mbind outcome_bind]; [by eexists _, _..|].
  case_bool; by eexists _, _.
Qed.

Lemma clock_named_le p b q : clock_named p = Some (b, q) → (length q ≤ length p)%nat.
Proof. unfold clock_named. repeat case_bool; intros [= _ <-] || done; rewrite length_drop; lia. Qed.

Lemma parse_offsets_total fuel : ∀ p t, (length p ≤ fuel)%nat → ∃ a, parse_offsets fuel p t = Ret a.
Proof.
  induction fuel as [|fuel IH]; intros [|c p] t Hf; cbn [parse_offsets]; [by eexists|cbn in Hf; lia|by eexists|].
  pose proof (skip_le blank (c :: p)) as Hs. destruct (skip_while blank (c :: p)) as [|d q]; [by eexists|].
  destruct (clock_named (d :: q)) as [[b q1]|] eqn:E1; [|by eexists]. apply clock_named_le in E1.
  destruct (strtoll q1) as [[sec q2]|] eqn:E2; [|by eexists]. apply strtoll_lt in E2.
  assert (∃ n q3, match strtoll q2 with None => (0, q2) | Some (nsec, p) => (nsec, p) end = (n, q3) ∧ (length q3 ≤ length q2)%nat) as (n & q3 & -> & E3).
  { destruct (strtoll q2) as [[n q3]|] eqn:E3; [|by exists 0, q2]. apply strtoll_lt in E3. exists n, q3. split; [done|lia]. }
  case_bool; [by eexists|]. apply IH. cbn in *. lia.
Qed.

(** ** Clocks *)

Definition ts_ok (ts : timespec) : Prop := 0 ≤ tv_sec ts ∧ 0 ≤ tv_nsec ts < 1000000000.
Definition nanos (ts : timespec) : Z := tv_sec ts * 1000000000 + tv_nsec ts.

(** The offset in nanoseconds. *)
Definition offset (t : time_namespace) (boottime : bool) : Z :=
  if boottime then boot_sec t * 1000000000 + boot_nsec t else mono_sec t * 1000000000 + mono_nsec t.

(** A clock as a namespace shows it: the host's and the offset, not below zero,
    for clocks and offsets within sixty-two bits of seconds. *)
Lemma timens_shift_spec t (b : bool) sign ts :
  offsets_ok t → sign = 1 ∨ sign = -1 → ts_ok ts → tv_sec ts < 2^62 →
  Z.abs (if b then boot_sec t else mono_sec t) < 2^62 →
  ts_ok (timens_shift t b sign ts) ∧ nanos (timens_shift t b sign ts) = Z.max 0 (nanos ts + sign * offset t b).
Proof.
  intros [Hm Hb] Hs [Hsec Hnsec] Hts Hoff. unfold timens_shift, nanos, ts_ok. cbv zeta.
  set (sec := if b then boot_sec t else mono_sec t) in *. set (nsec := if b then boot_nsec t else mono_nsec t).
  assert (0 ≤ nsec < 1000000000) as Hn by (unfold nsec; destruct b; [apply Hb|apply Hm]).
  assert (offset t b = sec * 1000000000 + nsec) as -> by (by destruct b).
  destruct ((sec =? 0) && (nsec =? 0)) eqn:E0; bool_to_prop; [split; [done|]; subst; lia|].
  rewrite (s64_small (sign * sec)), (s64_small (sign * nsec)),
    (s64_small (tv_sec ts + _)), (s64_small (tv_nsec ts + _)) by (destruct Hs as [->| ->]; lia).
  assert (s64 (tv_sec ts + sign * sec + 1) = tv_sec ts + sign * sec + 1) as E1 by (apply s64_small; destruct Hs as [->| ->]; lia).
  assert (s64 (tv_sec ts + sign * sec - 1) = tv_sec ts + sign * sec - 1) as E2 by (apply s64_small; destruct Hs as [->| ->]; lia).
  destruct (1000000000 <=? tv_nsec ts + sign * nsec) eqn:C1; [|destruct (tv_nsec ts + sign * nsec <? 0) eqn:C2]; rewrite ?E1, ?E2; bool_to_prop;
    case_bool; bool_to_prop; cbn [tv_sec tv_nsec]; destruct Hs as [->| ->]; lia.
Qed.

(** * Examples *)

Definition demo_ranges : list id_range := [mk_range 0 1000 1; mk_range 1 100000 65535].
Definition demo_user_ns : user_namespace := mk_user demo_ranges [] true true false 1000.

Lemma demo_map_ranges : Forall range_ok demo_ranges.
Proof. repeat constructor; cbn; lia. Qed.

Lemma map_text_roundtrip_witness :
  userns_map_write true false (userns_map_read true false 256 demo_user_ns).1 0 0 (user_new 0) =
  Ret (0, set_map false demo_ranges (user_new 0)).
Proof. apply (map_text_roundtrip false 0 demo_user_ns (user_new 0)); [done|cbn; unfold USERNS_MAX_RANGES; lia|apply demo_map_ranges|done]. Defined.

Lemma maps_written_once_witness :
  ∃ u', for_each do_write [MapWrite false (lit "0 0 4294967295") 0 0] demo_user_ns = Ret u' ∧ u_uid u' = demo_ranges.
Proof.
  destruct (maps_written_once false demo_user_ns [MapWrite false (lit "0 0 4294967295") 0 0] eq_refl) as (u' & E & Hr & _).
  by exists u'.
Defined.

Lemma unprivileged_map_themselves_witness :
  ∃ u, for_each do_write [MapWrite false (lit "0 33 1") 1000 100; SetgroupsWrite (lit "deny"); MapWrite true (lit "0 100 1") 1000 100;
                          MapWrite false (lit "0 1000 1") 1000 100] (user_new 1000) = Ret u ∧
    map_outward (u_uid u) 0 = Some 1000 ∧ map_outward (u_gid u) 0 = Some 100 ∧ setgroups_allowed u = false.
Proof.
  destruct (unprivileged_map_themselves 1000 [MapWrite false (lit "0 33 1") 1000 100; SetgroupsWrite (lit "deny");
    MapWrite true (lit "0 100 1") 1000 100; MapWrite false (lit "0 1000 1") 1000 100]) as (u & E & _ & _ & Hg);
    [repeat constructor; cbn; lia|].
  exists u. split; [exact E|]. vm_compute in E. injection E as <-. split_and!; [reflexivity|reflexivity|by apply Hg].
Defined.

Lemma demo_ranges_ok : map_ok demo_ranges.
Proof.
  split; [apply demo_map_ranges|repeat constructor; cbn; lia| |]; intros i x y Hx Hy Hi Hj; unfold in_inside, in_outside in *;
    repeat (apply elem_of_cons in Hx as [->|Hx]); repeat (apply elem_of_cons in Hy as [->|Hy]); try (by apply elem_of_nil in Hx);
    try (by apply elem_of_nil in Hy); try done; cbn in *; lia.
Qed.

Lemma translation_inverse_witness : map_outward demo_ranges 34 = Some 100033 ∧ map_inward demo_ranges 100033 = 34.
Proof.
  assert (map_outward demo_ranges 34 = Some 100033) as E by reflexivity. split; [exact E|].
  by apply (proj1 (translation_inverse demo_ranges 34 100033 demo_ranges_ok)) in E as [_ E].
Defined.

Lemma offsets_text_roundtrip_witness :
  parse_offsets (parse_fuel (offsets_text (mk_time (-5) 500 86400 0 true))) (offsets_text (mk_time (-5) 500 86400 0 true)) time_zero =
  Ret (inr (mk_time (-5) 500 86400 0 false)).
Proof. apply (offsets_text_roundtrip (mk_time (-5) 500 86400 0 true) time_zero). split; cbn; lia. Defined.

(** Ranges may share ids: two users outside are then one inside, and only the
    first can be given files. *)
Example overlapping_ranges_accepted :
  ∃ u, userns_map_write true false (lit "0 1000 10 0 2000 10") 0 0 (user_new 0) = Ret (0, u) ∧
    map_inward (u_uid u) 1000 = 0 ∧ map_inward (u_uid u) 2000 = 0 ∧ map_outward (u_uid u) 0 = Some 1000.
Proof. eexists. split; [vm_compute; reflexivity|]. done. Qed.

(** A range may go past the last id and wraps: outside user 1 is root inside. *)
Example wrapping_range_accepted :
  ∃ u, userns_map_write true false (lit "4294967295 0 10") 0 0 (user_new 0) = Ret (0, u) ∧ map_inward (u_uid u) 1 = 0.
Proof. eexists. split; [vm_compute; reflexivity|]. done. Qed.

(** Numbers are read over the ends of lines: a line of two takes its count from
    the next. *)
Example short_line_takes_the_next :
  parse_map 40 (lit "0 1000" ++ [newline] ++ lit "1 2000 1" ++ [newline]) [] = Ret (inl (- EINVAL)) ∧
  parse_map 40 (lit "0 1000" ++ [newline] ++ lit "1" ++ [newline]) [] = Ret (inr [mk_range 0 1000 1]).
Proof. done. Qed.

(** Seconds alone, with the next clock named by its number on the next line:
    the number is taken for nanoseconds. *)
Example clock_number_taken_as_nanoseconds :
  parse_offsets 40 (lit "1 5" ++ [newline] ++ lit "7 3" ++ [newline]) time_zero = Ret (inl (- EINVAL)) ∧
  parse_offsets 40 (lit "1 5" ++ [newline] ++ lit "7" ++ [newline]) time_zero = Ret (inr (mk_time 5 7 0 0 false)) ∧
  parse_offsets 40 (lit "monotonic 5" ++ [newline] ++ lit "boottime 3" ++ [newline]) time_zero = Ret (inr (mk_time 5 0 3 0 false)).
Proof. done. Qed.
