(* ===== verification/Namespaces.v ===== *)
(** Namespaces, src/proc/namespace.c: the namespaces a process is in and those
    its children will be in, as reference-counted objects of the process, with
    what they hold in files that all of nabi's processes share; unshare, setns
    and the namespace half of clone; hostnames, clocks and ids as the
    namespaces show them. The tables of pid and mount namespaces are those of
    PidNs.v and MountTable.v, the directories of IPC namespaces those of SysV.v,
    the id maps and offsets those of IdMap.v. *)

From S2P Require Import Prelude PidNs SysV Guest Names MountTable Paths Cred IdMap.

(** * The types *)

Inductive ns_type := NS_MNT | NS_UTS | NS_IPC | NS_PID | NS_NET | NS_USER | NS_CGROUP | NS_TIME.

#[export] Instance ns_type_eq_dec : EqDecision ns_type.
Proof. solve_decision. Defined.

(** In the order of the enumeration, which is that of the loops. *)
Definition all_types : list ns_type := [NS_MNT; NS_UTS; NS_IPC; NS_PID; NS_NET; NS_USER; NS_CGROUP; NS_TIME].

Definition ns_index (t : ns_type) : nat :=
  match t with NS_MNT => 0 | NS_UTS => 1 | NS_IPC => 2 | NS_PID => 3 | NS_NET => 4 | NS_USER => 5 | NS_CGROUP => 6 | NS_TIME => 7 end.

Definition LINUX_CLONE_NEWNS : Z := 0x00020000.
Definition LINUX_CLONE_NEWUTS : Z := 0x04000000.
Definition LINUX_CLONE_NEWIPC : Z := 0x08000000.
Definition LINUX_CLONE_NEWPID : Z := 0x20000000.
Definition LINUX_CLONE_NEWNET : Z := 0x40000000.
Definition LINUX_CLONE_NEWUSER : Z := 0x10000000.
Definition LINUX_CLONE_NEWCGROUP : Z := 0x02000000.
Definition LINUX_CLONE_NEWTIME : Z := 0x00000080.

Record ns_kind := mk_kind { k_name : cstr; k_flag : Z; k_supported : bool }.

Definition ns_kinds (t : ns_type) : ns_kind :=
  match t with
  | NS_MNT => mk_kind (lit "mnt") LINUX_CLONE_NEWNS true
  | NS_UTS => mk_kind (lit "uts") LINUX_CLONE_NEWUTS true
  | NS_IPC => mk_kind (lit "ipc") LINUX_CLONE_NEWIPC true
  | NS_PID => mk_kind (lit "pid") LINUX_CLONE_NEWPID true
  | NS_NET => mk_kind (lit "net") LINUX_CLONE_NEWNET true
  | NS_USER => mk_kind (lit "user") LINUX_CLONE_NEWUSER true
  | NS_CGROUP => mk_kind (lit "cgroup") LINUX_CLONE_NEWCGROUP true
  | NS_TIME => mk_kind (lit "time") LINUX_CLONE_NEWTIME true
  end.

Definition NS_ALL_FLAGS : Z :=
  foldr Z.lor 0 [LINUX_CLONE_NEWNS; LINUX_CLONE_NEWUTS; LINUX_CLONE_NEWIPC; LINUX_CLONE_NEWPID; LINUX_CLONE_NEWNET;
                 LINUX_CLONE_NEWUSER; LINUX_CLONE_NEWCGROUP; LINUX_CLONE_NEWTIME].

Definition ns_type_from_name (name : cstr) : option ns_type :=
  find (λ t, strcmp name (k_name (ns_kinds t))) all_types.

Definition NS_INO_FIRST : Z := 4026531835.
Definition ino_initial (t : ns_type) : Z := NS_INO_FIRST + Z.of_nat (ns_index t).

(** * State *)

(** char[65] each, up to the NUL. *)
Record uts_namespace := mk_uts { nodename : cstr; domainname : cstr }.
Definition UTS_LEN : nat := 65.

(** struct namespace. *)
Record namespace := mk_ns {
  n_type : ns_type;
  n_ino : Z;
  n_refcount : Z;
  n_uts : uts_namespace;
  n_time : time_namespace;
  n_user : user_namespace;
}.

Definition set_refcount (r : Z) (n : namespace) : namespace := mk_ns (n_type n) (n_ino n) r (n_uts n) (n_time n) (n_user n).
Definition set_uts (u : uts_namespace) (n : namespace) : namespace := mk_ns (n_type n) (n_ino n) (n_refcount n) u (n_time n) (n_user n).
Definition set_time (t : time_namespace) (n : namespace) : namespace := mk_ns (n_type n) (n_ino n) (n_refcount n) (n_uts n) t (n_user n).
Definition set_user (u : user_namespace) (n : namespace) : namespace := mk_ns (n_type n) (n_ino n) (n_refcount n) (n_uts n) (n_time n) u.

(** calloc's, with its type and number. *)
Definition blank_ns (t : ns_type) (ino : Z) : namespace := mk_ns t ino 1 (mk_uts [] []) time_zero user_zero.

(** struct nsproxy and the statics around it. [slots] is the eight pointers of
    [ns] and then [time_for_children] and [pid_for_children]; a pointer is a
    number, of which the first eight are those of [initial_ns] and the others
    malloc's; what is not in [heap] has been freed. [next_ino] is a 64-bit
    counter from 2^32 and is taken not to come to its end. *)
Record nsproxy := mk_np {
  slots : list Z;
  heap : gmap Z namespace;
  next_ino : Z;
  next_loc : Z;
}.

Definition TIME_FOR_CHILDREN : nat := 8.
Definition PID_FOR_CHILDREN : nat := 9.

Definition slot (i : nat) (p : nsproxy) : Z := default 0 (slots p !! i).
Definition set_slot (i : nat) (l : Z) (p : nsproxy) : nsproxy := mk_np (<[i := l]> (slots p)) (heap p) (next_ino p) (next_loc p).
Definition set_heap (h : gmap Z namespace) (p : nsproxy) : nsproxy := mk_np (slots p) h (next_ino p) (next_loc p).

(** The files in TMPDIR, by the number of the namespace in their names; one
    that cannot be opened, or is short, is not there. [d_open] is whether files
    can be written there. *)
Record nsfiles := mk_files {
  d_uts : gmap Z uts_namespace;
  d_time : gmap Z time_namespace;
  d_user : gmap Z user_namespace;
  d_cgroup : gmap Z cstr;
  d_pid : PidNs.files;
  d_mnt : gmap Z mount_table;
  d_ipc : tmpdir;
  d_open : bool;
}.

Definition with_uts (x : gmap Z uts_namespace) (d : nsfiles) : nsfiles :=
  mk_files x (d_time d) (d_user d) (d_cgroup d) (d_pid d) (d_mnt d) (d_ipc d) (d_open d).
Definition with_time (x : gmap Z time_namespace) (d : nsfiles) : nsfiles :=
  mk_files (d_uts d) x (d_user d) (d_cgroup d) (d_pid d) (d_mnt d) (d_ipc d) (d_open d).
Definition with_user (x : gmap Z user_namespace) (d : nsfiles) : nsfiles :=
  mk_files (d_uts d) (d_time d) x (d_cgroup d) (d_pid d) (d_mnt d) (d_ipc d) (d_open d).
Definition with_cgroup (x : gmap Z cstr) (d : nsfiles) : nsfiles :=
  mk_files (d_uts d) (d_time d) (d_user d) x (d_pid d) (d_mnt d) (d_ipc d) (d_open d).
Definition with_pid (x : PidNs.files) (d : nsfiles) : nsfiles :=
  mk_files (d_uts d) (d_time d) (d_user d) (d_cgroup d) x (d_mnt d) (d_ipc d) (d_open d).
Definition with_mnt (x : gmap Z mount_table) (d : nsfiles) : nsfiles :=
  mk_files (d_uts d) (d_time d) (d_user d) (d_cgroup d) (d_pid d) x (d_ipc d) (d_open d).
Definition with_ipc (x : tmpdir) (d : nsfiles) : nsfiles :=
  mk_files (d_uts d) (d_time d) (d_user d) (d_cgroup d) (d_pid d) (d_mnt d) x (d_open d).

(** A process and the files. *)
Record st := mk_st { s_np : nsproxy; s_fs : nsfiles }.
Definition set_np (p : nsproxy) (s : st) : st := mk_st p (s_fs s).
Definition set_fs (d : nsfiles) (s : st) : st := mk_st (s_np s) d.

(** ** Files *)

Definition uts_load (ino : Z) (d : nsfiles) : option uts_namespace :=
  (λ u, mk_uts (take (UTS_LEN - 1) (nodename u)) (take (UTS_LEN - 1) (domainname u))) <$> d_uts d !! ino.
Definition uts_store (ino : Z) (u : uts_namespace) (d : nsfiles) : nsfiles :=
  if d_open d then with_uts (<[ino := u]> (d_uts d)) d else d.
Definition timens_load (ino : Z) (d : nsfiles) : option time_namespace := d_time d !! ino.
Definition timens_store (ino : Z) (t : time_namespace) (d : nsfiles) : nsfiles :=
  if d_open d then with_time (<[ino := t]> (d_time d)) d else d.
Definition userns_load (ino : Z) (d : nsfiles) : option user_namespace := d_user d !! ino.
Definition userns_store (ino : Z) (u : user_namespace) (d : nsfiles) : nsfiles :=
  if d_open d then with_user (<[ino := u]> (d_user d)) d else d.
Definition cgroup_ns_create (ino : Z) (root : cstr) (d : nsfiles) : nsfiles :=
  if d_open d then with_cgroup (<[ino := root]> (d_cgroup d)) d else d.

(** The mount tables as a process in namespace [ns] has them in MountTable.v;
    the counter of peer groups is not used here. *)
Definition mounts_in (ns : Z) (d : nsfiles) : mounts := mk_mounts ns (d_mnt d) 0 (d_open d).

(** ** Objects *)

(** [ns->...] through a pointer. *)
Definition deref (l : Z) (p : nsproxy) : outcome namespace := match heap p !! l with Some n => Ret n | None => Stop Faulted end.
Definition update (l : Z) (n : namespace) (p : nsproxy) : nsproxy := set_heap (<[l := n]> (heap p)) p.

(** Whether a pointer is into [initial_ns]. *)
Definition is_initial (l : Z) : bool := (0 <=? l) && (l <? 8).

Definition ns_put (l : Z) (p : nsproxy) : outcome nsproxy :=
  if is_initial l then Ret p
  else
    n ← deref l p;
    let r := u32 (n_refcount n - 1) in
    Ret (if r =? 0 then set_heap (delete l (heap p)) p else update l (set_refcount r n) p).

(** [ns->refcount++]. *)
Definition ns_get (l : Z) (p : nsproxy) : outcome nsproxy :=
  n ← deref l p; Ret (update l (set_refcount (u32 (n_refcount n + 1)) n) p).

(** The number of the namespace in a slot. *)
Definition ino_at (i : nat) (p : nsproxy) : outcome Z := n ← deref (slot i p) p; Ret (n_ino n).
Definition ns_ino_of (t : ns_type) (p : nsproxy) : outcome Z := ino_at (ns_index t) p.

(** Whether a process has left the initial namespace of a type. *)
Definition ns_left (t : ns_type) (p : nsproxy) : bool := negb (slot (ns_index t) p =? Z.of_nat (ns_index t)).
Definition userns_active (p : nsproxy) : bool := ns_left NS_USER p.
Definition netns_active (p : nsproxy) : bool := ns_left NS_NET p.

(** * Making and leaving namespaces *)

Section Process.
(** The boot session, this process's host pid and effective user, its control
    group, and the name of the host's machine if it gives one. *)
Context (boot pid euid : Z) (cgroup_current : cstr) (gethostname : option cstr).

(** What a new namespace holds and what is written for it, from the one being
    left: the contents of [from] as they are now. *)
Definition ns_contents (t : ns_type) (from : namespace) (ino : Z) (d : nsfiles) : namespace * nsfiles :=
  let ns := mk_ns t ino 1 (n_uts from) (n_time from) user_zero in
  match t with
  | NS_UTS => let u := default (n_uts from) (uts_load (n_ino from) d) in (set_uts u ns, uts_store ino u d)
  | NS_MNT => (ns, with_mnt (w_tables (mount_ns_clone (n_ino from) ino (mounts_in 0 d))) d)
  | NS_PID => (ns, with_pid (PidNs.pidns_create ino (n_ino from) (d_pid d)) d)
  | NS_CGROUP => (ns, cgroup_ns_create ino cgroup_current d)
  | NS_USER => let u := user_new euid in (set_user u ns, userns_store ino u d)
  | NS_TIME =>
      let o := set_frozen false (default (n_time from) (timens_load (n_ino from) d)) in (set_time o ns, timens_store ino o d)
  | NS_IPC | NS_NET => (ns, d)
  end.

(** The pointer to it; calloc does not fail. *)
Definition ns_new (t : ns_type) (from : Z) (s : st) : outcome (Z * st) :=
  let p := s_np s in
  f ← deref from p;
  let '(ns, d) := ns_contents t f (next_ino p) (s_fs s) in
  let l := next_loc p in
  Ret (l, mk_st (mk_np (slots p) (<[l := ns]> (heap p)) (next_ino p + 1) (l + 1)) d).

(** Which pointer a new namespace goes to: time and pid wait for the
    children. *)
Definition target (t : ns_type) : nat :=
  match t with NS_TIME => TIME_FOR_CHILDREN | NS_PID => PID_FOR_CHILDREN | _ => ns_index t end.

Definition unshare_one (t : ns_type) (s : st) : outcome st :=
  '(l, s) ← ns_new t (slot (ns_index t) (s_np s)) s;
  let s := if decide (t = NS_IPC) then set_fs (with_ipc (sysv_ns_claim boot pid (next_ino (s_np s) - 1) (d_ipc (s_fs s))) (s_fs s)) s else s in
  p ← ns_put (slot (target t) (s_np s)) (s_np s);
  Ret (set_np (set_slot (target t) l p) s).

Definition asked (flags : Z) (t : ns_type) : bool := has flags (k_flag (ns_kinds t)).

Definition nsproxy_unshare (flags : Z) (s : st) : outcome (Z * st) :=
  let wanted := Z.land flags NS_ALL_FLAGS in
  if wanted =? 0 then Ret (0, s)
  else if existsb (λ t, asked wanted t && negb (k_supported (ns_kinds t))) all_types then Ret (- EINVAL, s)
  else
    s ← for_each (λ t s, if asked wanted t then unshare_one t s else Ret s) all_types s;
    Ret (0, s).

Definition nsproxy_clone (clone_flags : Z) (s : st) : outcome (Z * st) := nsproxy_unshare clone_flags s.

Definition nsproxy_become_pid1 (s : st) : outcome (Z * st) :=
  '(l, s) ← ns_new NS_PID (slot (ns_index NS_PID) (s_np s)) s;
  p ← ns_get l (s_np s);
  p ← ns_put (slot PID_FOR_CHILDREN p) p;
  p ← ns_put (slot (ns_index NS_PID) p) p;
  let p := set_slot (ns_index NS_PID) l (set_slot PID_FOR_CHILDREN l p) in
  self ← ino_at (ns_index NS_PID) p;
  child ← ino_at PID_FOR_CHILDREN p;
  '(_, f) ← PidNs.pidns_add_child self child pid (d_pid (s_fs s));
  Ret (0, mk_st p (with_pid f (s_fs s))).

(** ** A process as it starts *)

(** [initial_ns] as nsproxy_init fills it. *)
Definition initial_ns (t : ns_type) : namespace := blank_ns t (ino_initial t).
Definition initial_slots : list Z := [0; 1; 2; 3; 4; 5; 6; 7; 7; 3].

Definition with_initial (h : gmap Z namespace) : gmap Z namespace :=
  foldr (λ t, <[Z.of_nat (ns_index t) := initial_ns t]>) h all_types.

Definition nsproxy_init (s : st) : st :=
  let p := s_np s in
  let i := Z.of_nat (ns_index NS_UTS) in
  let '(u, d) :=
    match uts_load (ino_initial NS_UTS) (s_fs s) with
    | Some u => (u, s_fs s)
    | None =>
        let u := mk_uts (take (UTS_LEN - 1) (default (lit "localhost") gethostname)) (lit "(none)") in
        (u, uts_store (ino_initial NS_UTS) u (s_fs s))
    end in
  mk_st (mk_np initial_slots (<[i := set_uts u (initial_ns NS_UTS)]> (with_initial (heap p))) (next_ino p) (next_loc p)) d.

(** The statics before main. *)
Definition np_start : nsproxy := mk_np (replicate 10 0) ∅ (NS_INO_FIRST + 8) 8.

(** ** Handing over to a child *)

Definition nsproxy_snapshot (p : nsproxy) : outcome (list Z * uts_namespace) :=
  inos ← for_each (λ t acc,
    i ← ino_at (if decide (t = NS_TIME) then TIME_FOR_CHILDREN else if decide (t = NS_PID) then PID_FOR_CHILDREN else ns_index t) p;
    Ret (acc ++ [i])) all_types [];
  u ← deref (slot (ns_index NS_UTS) p) p;
  Ret (inos, n_uts u).

(** One namespace of the parent's: rejoined by its number. *)
Definition rejoin (inos : list Z) (t : ns_type) (p : nsproxy) : outcome nsproxy :=
  let ino := default 0 (inos !! ns_index t) in
  n ← deref (slot (ns_index t) p) p;
  if ino =? n_ino n then Ret p
  else
    let l := next_loc p in
    let p := mk_np (slots p) (<[l := blank_ns t ino]> (heap p)) (next_ino p) (l + 1) in
    p ← ns_put (slot (ns_index t) p) p;
    let p := set_slot (ns_index t) l p in
    Ret (match t with
         | NS_TIME => set_slot TIME_FOR_CHILDREN l p
         | NS_PID => set_slot PID_FOR_CHILDREN l p
         | _ => p
         end).

Definition bump (ino next : Z) : Z := if next <=? ino then ino + 1 else next.

(** Somebody is in the time namespace now. *)
Definition freeze (s : st) : outcome st :=
  let l := slot (ns_index NS_TIME) (s_np s) in
  n ← deref l (s_np s);
  match timens_load (n_ino n) (s_fs s) with
  | None => Ret s
  | Some t =>
      if frozen t then Ret (set_np (update l (set_time t n) (s_np s)) s)
      else
        let t := set_frozen true t in
        Ret (mk_st (update l (set_time t n) (s_np s)) (timens_store (n_ino n) t (s_fs s)))
  end.

Definition reload_uts (uts : uts_namespace) (s : st) : outcome st :=
  let l := slot (ns_index NS_UTS) (s_np s) in
  n ← deref l (s_np s);
  match uts_load (n_ino n) (s_fs s) with
  | Some u => Ret (set_np (update l (set_uts u n) (s_np s)) s)
  | None => Ret (mk_st (update l (set_uts uts n) (s_np s)) (uts_store (n_ino n) uts (s_fs s)))
  end.

Definition nsproxy_restore (inos : list Z) (uts : uts_namespace) (s : st) : outcome st :=
  let s := nsproxy_init s in
  p ← for_each (rejoin inos) all_types (s_np s);
  s ← freeze (set_np p s);
  s ← reload_uts uts s;
  let p := s_np s in
  Ret (set_np (mk_np (slots p) (heap p) (foldl (λ n i, bump i n) (next_ino p) inos) (next_loc p)) s).

(** ** clone *)

Definition LINUX_CLONE_THREAD : Z := 0x00010000.
Definition LINUX_CLONE_PARENT_SETTID : Z := 0x00100000.
Definition LINUX_CLONE_DETACHED : Z := 0x00400000.
Definition LINUX_CLONE_PIDFD : Z := 0x00001000.

Definition clone_pidfd_conflicts (flags : Z) : bool :=
  has flags LINUX_CLONE_PIDFD &&
  has flags (Z.lor LINUX_CLONE_THREAD (Z.lor LINUX_CLONE_PARENT_SETTID LINUX_CLONE_DETACHED)).

(** The namespace half of clone and clone3 in the parent, for a new process.
    [do_clone] answers [ret]: the child's host pid, or an error; the child is enrolled in the pid
    namespace it goes to, and rebuilt from what the checkpoint has, the third
    part of the answer. *)
Definition clone_in_parent (mask flags ret : Z) (s : st) : outcome (Z * option (list Z * uts_namespace) * st) :=
  let moved := has flags mask in
  saved ← if moved then x ← nsproxy_snapshot (s_np s); Ret (Some x) else Ret None;
  '(r, s) ← if moved then nsproxy_clone flags s else Ret (0, s);
  if r <? 0 then Ret (r, None, s)
  else if clone_pidfd_conflicts flags then Ret (- EINVAL, None, s)
  else
    child ← nsproxy_snapshot (s_np s);
    '(r, s) ←
      if ret <? 0 then Ret (ret, s)
      else
        (self ← ino_at (ns_index NS_PID) (s_np s);
         ch ← ino_at PID_FOR_CHILDREN (s_np s);
         '(n, f) ← PidNs.pidns_add_child self ch ret (d_pid (s_fs s));
         Ret (if 0 <? n then n else ret, set_fs (with_pid f (s_fs s)) s));
    s ← match saved with Some (inos, uts) => nsproxy_restore inos uts s | None => Ret s end;
    Ret (r, if ret <? 0 then None else Some child, s).

Definition sys_clone (flags ret : Z) (s : st) : outcome (Z * option (list Z * uts_namespace) * st) :=
  if has flags LINUX_CLONE_NEWTIME then Ret (- EINVAL, None, s)
  else clone_in_parent (Z.ldiff NS_ALL_FLAGS LINUX_CLONE_NEWTIME) flags ret s.


(** ** setns *)

(** [note] is what procfs_ns_of_fd has of the descriptor. *)
Definition setns_children (s : st) : outcome (Z * st) :=
  let p := s_np s in
  let mine := slot (ns_index NS_TIME) p in
  if slot TIME_FOR_CHILDREN p =? mine then Ret (0, s)
  else
    p ← ns_put (slot TIME_FOR_CHILDREN p) p;
    p ← ns_get mine (set_slot TIME_FOR_CHILDREN mine p);
    Ret (0, set_np p s).

Definition setns_join_time (s : st) : outcome (Z * st) :=
  let p := s_np s in
  let l := slot TIME_FOR_CHILDREN p in
  n ← deref l p;
  let t := set_frozen true (default (n_time n) (timens_load (n_ino n) (s_fs s))) in
  p ← ns_put (slot (ns_index NS_TIME) p) (update l (set_time t n) p);
  p ← ns_get l p;
  Ret (0, mk_st (set_slot (ns_index NS_TIME) l p) (timens_store (n_ino n) t (s_fs s))).

Definition sys_setns (note : option (ns_type * Z)) (nstype : Z) (s : st) : outcome (Z * st) :=
  match note with
  | None => Ret (- EINVAL, s)
  | Some (t, ino) =>
      if negb (nstype =? 0) && negb (existsb (λ i, (k_flag (ns_kinds i) =? u64 nstype) && bool_decide (i = t)) all_types) then Ret (- EINVAL, s)
      else if negb (k_supported (ns_kinds t)) then Ret (- EINVAL, s)
      else
        mine ← ns_ino_of t (s_np s);
        if mine =? ino then (if decide (t = NS_TIME) then setns_children s else Ret (0, s))
        else
          children ← ino_at TIME_FOR_CHILDREN (s_np s);
          if bool_decide (t = NS_TIME) && (children =? ino) then setns_join_time s else Ret (- EINVAL, s)
  end.

(** On the way out. *)
Definition nsproxy_release (h : host_sems) (s : st) : outcome (st * host_sems) :=
  ino ← ns_ino_of NS_IPC (s_np s);
  let '(t, h) := sysv_ns_release_owned boot pid ino (d_ipc (s_fs s)) h in
  Ret (set_fs (with_ipc t (s_fs s)) s, h).

(** * Hostnames *)

(** The namespace as it stands, brought up to date in memory. *)
Definition current_uts (s : st) : outcome (uts_namespace * st) :=
  let l := slot (ns_index NS_UTS) (s_np s) in
  n ← deref l (s_np s);
  let u := default (n_uts n) (uts_load (n_ino n) (s_fs s)) in
  Ret (u, set_np (update l (set_uts u n) (s_np s)) s).

Definition current_uts_commit (s : st) : outcome st :=
  n ← deref (slot (ns_index NS_UTS) (s_np s)) (s_np s);
  Ret (set_fs (uts_store (n_ino n) (n_uts n) (s_fs s)) s).

(** The characters of a buffer before its first NUL. *)
Definition up_to_nul (l : list Z) : cstr :=
  (λ b, ascii_of_nat (Z.to_nat b)) <$> take (default (length l) (fst <$> list_find (λ b, b = 0) l)) l.

Section Uts.
Context {G : Type} `{GuestMem G}.

(** [set] stores the name in one of the two fields. *)
Definition uts_set (ptr len : Z) (set : cstr → uts_namespace → uts_namespace) (g : G) (s : st) : outcome (Z * st) :=
  '(u, s) ← current_uts s;
  if Z.of_nat UTS_LEN - 1 <? len then Ret (- EINVAL, s)
  else if negb (euid =? 0) then Ret (- EPERM, s)
  else
    match copy_in ptr len g with
    | None => Ret (- EFAULT, s)
    | Some l =>
        let i := slot (ns_index NS_UTS) (s_np s) in
        n ← deref i (s_np s);
        s ← current_uts_commit (set_np (update i (set_uts (set (up_to_nul l) u) n) (s_np s)) s);
        Ret (0, s)
    end.

Definition sys_sethostname (name_ptr len : Z) : G → st → outcome (Z * st) :=
  uts_set name_ptr len (λ x u, mk_uts x (domainname u)).
Definition sys_setdomainname (name_ptr len : Z) : G → st → outcome (Z * st) :=
  uts_set name_ptr len (λ x u, mk_uts (nodename u) x).
End Uts.

(** * Clocks *)

Definition timens_current (s : st) : outcome time_namespace :=
  n ← deref (slot (ns_index NS_TIME) (s_np s)) (s_np s);
  Ret (default (n_time n) (timens_load (n_ino n) (s_fs s))).

Definition LINUX_CLOCK_MONOTONIC : Z := 1.
Definition LINUX_CLOCK_MONOTONIC_RAW : Z := 4.
Definition LINUX_CLOCK_MONOTONIC_COARSE : Z := 6.
Definition LINUX_CLOCK_BOOTTIME : Z := 7.

(** Whether a clock has an offset and which. *)
Definition clock_is_virtualised (id : Z) : option bool :=
  if (id =? LINUX_CLOCK_MONOTONIC) || (id =? LINUX_CLOCK_MONOTONIC_COARSE) || (id =? LINUX_CLOCK_MONOTONIC_RAW) then Some false
  else if id =? LINUX_CLOCK_BOOTTIME then Some true
  else None.

(** [host] is what the host's clock_gettime gives, or its error. *)
Definition clock_gettime_ns (id : Z) (host : Z + timespec) (s : st) : outcome (Z + timespec) :=
  match host with
  | inl e => Ret (inl (- e))
  | inr ts =>
      match clock_is_virtualised id with
      | None => Ret (inr ts)
      | Some b => t ← timens_current s; Ret (inr (timens_shift t b 1 ts))
      end
  end.

(** The offsets of the namespace the children will be in. *)
Definition timens_offsets_read (n : nat) (s : st) : outcome (cstr * nat) :=
  c ← deref (slot TIME_FOR_CHILDREN (s_np s)) (s_np s);
  let l := offsets_text (default (n_time c) (timens_load (n_ino c) (s_fs s))) in
  Ret (snprintf n l, length l).

Definition timens_offsets_write (text : cstr) (s : st) : outcome (Z * st) :=
  let l := slot TIME_FOR_CHILDREN (s_np s) in
  if l =? slot (ns_index NS_TIME) (s_np s) then Ret (- EPERM, s)
  else
    c ← deref l (s_np s);
    let t := default (n_time c) (timens_load (n_ino c) (s_fs s)) in
    if frozen t then Ret (- EACCES, s)
    else
      match skip_while blank text with
      | [] => Ret (0, s)
      | text =>
          r ← parse_offsets (parse_fuel text) text t;
          match r with
          | inl e => Ret (e, s)
          | inr t => Ret (0, mk_st (update l (set_time t c) (s_np s)) (timens_store (n_ino c) t (s_fs s)))
          end
      end.

(** * Ids *)

Definition userns_current (s : st) : outcome user_namespace :=
  n ← deref (slot (ns_index NS_USER) (s_np s)) (s_np s);
  Ret (default (n_user n) (userns_load (n_ino n) (s_fs s))).

(** Users, or groups when [g]. *)
Definition userns_inward (g : bool) (out : Z) (s : st) : outcome Z :=
  if negb (userns_active (s_np s)) then Ret out
  else u ← userns_current s; Ret (map_inward (ranges g u) out).

Definition userns_outward (g : bool) (ins : Z) (s : st) : outcome (option Z) :=
  if negb (userns_active (s_np s)) then Ret (Some ins)
  else u ← userns_current s; Ret (map_outward (ranges g u) ins).

(** The new contents, in memory and in the file. *)
Definition userns_commit (u : user_namespace) (s : st) : outcome st :=
  let l := slot (ns_index NS_USER) (s_np s) in
  n ← deref l (s_np s);
  Ret (mk_st (update l (set_user u n) (s_np s)) (userns_store (n_ino n) u (s_fs s))).

Definition write_map (g : bool) (text : cstr) (egid : Z) (s : st) : outcome (Z * st) :=
  u ← userns_current s;
  '(r, u') ← userns_map_write (userns_active (s_np s)) g text euid egid u;
  if (r =? 0) && written g u' && userns_active (s_np s) then s ← userns_commit u' s; Ret (r, s) else Ret (r, s).

Definition write_setgroups (text : cstr) (s : st) : outcome (Z * st) :=
  u ← userns_current s;
  let '(r, u') := userns_setgroups_write (userns_active (s_np s)) text u in
  if r =? 0 then s ← userns_commit u' s; Ret (r, s) else Ret (r, s).

(** getuid and the like: an id as the guest is told it. *)
Definition sys_getuid (c : cred) (s : st) : outcome Z := u ← userns_inward false (uid c) s; Ret (s32 u).
Definition sys_geteuid (c : cred) (s : st) : outcome Z := u ← userns_inward false (Cred.euid c) s; Ret (s32 u).
Definition sys_getgid (c : cred) (s : st) : outcome Z := u ← userns_inward true (gid c) s; Ret (s32 u).
Definition sys_getegid (c : cred) (s : st) : outcome Z := u ← userns_inward true (egid c) s; Ret (s32 u).

(** The three group ids into the guest's memory, as it is told them. *)
Definition sys_getresgid {G} `{GuestMem G} (rgid eg sg : Z) (c : cred) (g : G) (s : st) : outcome (Z * G) :=
  n ← userns_inward true (gid c) s;
  let '(ok, g) := put_int rgid 4 n g in
  if negb ok then Ret (- EFAULT, g)
  else
    n ← userns_inward true (egid c) s;
    let '(ok, g) := put_int eg 4 n g in
    if negb ok then Ret (- EFAULT, g)
    else
      n ← userns_inward true (sgid c) s;
      let '(ok, g) := put_int sg 4 n g in
      Ret (if ok then 0 else - EFAULT, g).

(** The owner a chown names, in the ids the rest of nabi works in; -1 stays. *)
Definition chown_ids (u g : Z) (s : st) : outcome (Z + Z * Z) :=
  u ← if u =? NOID then Ret (Some u) else userns_outward false u s;
  match u with
  | None => Ret (inl (- EINVAL))
  | Some u =>
      g ← if g =? NOID then Ret (Some g) else userns_outward true g s;
      match g with None => Ret (inl (- EINVAL)) | Some g => Ret (inr (u, g)) end
  end.

(** * Control groups *)

Definition CGROUP_PATH_MAX : nat := 256.

Definition cgroup_ns_root (s : st) : outcome cstr :=
  if negb (ns_left NS_CGROUP (s_np s)) then Ret (lit "/")
  else
    n ← deref (slot (ns_index NS_CGROUP) (s_np s)) (s_np s);
    Ret (match d_cgroup (s_fs s) !! n_ino n with
         | None => lit "/"
         | Some root => match take (CGROUP_PATH_MAX - 1) root with [] => lit "/" | r => r end
         end).

End Process.

(** * Counted references *)

(** How many of the references [hs] are to [l]. *)
Definition holders (l : Z) (hs : list Z) : nat := length (filter (λ x, x = l) hs).
Arguments holders : simpl never.

Lemma holders_cons l x hs : holders l (x :: hs) = ((if decide (x = l) then 1 else 0) + holders l hs)%nat.
Proof. unfold holders. rewrite filter_cons. by case_decide. Qed.

Lemma holders_le l hs : (holders l hs ≤ length hs)%nat.
Proof. apply length_filter. Qed.

Lemma holders_in l hs : l ∈ hs ↔ holders l hs ≠ 0%nat.
Proof.
  induction hs as [|x hs IH]; [by split; [intros ?%elem_of_nil|]|]. rewrite holders_cons, elem_of_cons. case_decide; naive_solver lia.
Qed.

#[export] Instance holders_perm l : Proper ((≡ₚ) ==> eq) (holders l).
Proof. intros a b E. unfold holders. by rewrite E. Qed.

(** The references [hs] are all to namespaces that are there, a namespace that
    was allocated is referenced as often as it counts or is not referenced any
    more, and nothing is beyond what has been allocated. *)
Record counted (hs : list Z) (p : nsproxy) : Prop := {
  ct_live l : l ∈ hs → is_Some (heap p !! l);
  ct_count l n : heap p !! l = Some n → is_initial l = false →
    (holders l hs = 0%nat ∨ n_refcount n = Z.of_nat (holders l hs)) ∧ 1 ≤ n_refcount n ≤ 12;
  ct_fresh l n : heap p !! l = Some n → 0 ≤ l < next_loc p ∧ n_ino n < next_ino p;
  ct_next : 8 ≤ next_loc p ∧ NS_INO_FIRST + 8 ≤ next_ino p;
}.

Lemma counted_perm a b p : a ≡ₚ b → counted a p → counted b p.
Proof.
  intros E [Hl Hc Hf Hn]. split; [|intros l n Hln Hi|done..]; [intros l; rewrite <- E; apply Hl|].
  rewrite <- (holders_perm l a b E). by apply (Hc l n).
Qed.

(** What stays as it is in a heap: the numbers and the types, of all but what
    may be freed. *)
Definition same_ns (n n' : namespace) : Prop := n_ino n' = n_ino n ∧ n_type n' = n_type n.

(** Writing to a namespace without touching its count. *)
Lemma counted_update hs l n n' p :
  heap p !! l = Some n → same_ns n n' → n_refcount n' = n_refcount n → counted hs p → counted hs (update l n' p).
Proof.
  intros Hl [Hi Ht] Hr [H1 H2 H3 H4]. split; cbn; [| | |done].
  - intros k Hk. rewrite lookup_insert_is_Some. destruct (decide (l = k)); [by left|right]. split; [done|by apply H1].
  - intros k m Hk Hn. apply lookup_insert_Some in Hk as [[<- <-]|[_ Hk]]; [rewrite Hr; by apply (H2 l n)|by apply (H2 k m)].
  - intros k m Hk. apply lookup_insert_Some in Hk as [[<- <-]|[_ Hk]]; [rewrite Hi; by apply (H3 l n)|by apply (H3 k m)].
Qed.

(** What dropping and adding references leaves of the heap. *)
Record kept (hs : list Z) (p p' : nsproxy) : Prop := {
  kp_slots : slots p' = slots p;
  kp_ino : next_ino p' = next_ino p;
  kp_loc : next_loc p' = next_loc p;
  kp_heap l n : l ∈ hs ∨ is_initial l = true → heap p !! l = Some n → ∃ n', heap p' !! l = Some n' ∧ same_ns n n' ∧
    n_uts n' = n_uts n ∧ n_time n' = n_time n ∧ n_user n' = n_user n;
  kp_back l n' : heap p' !! l = Some n' → ∃ n, heap p !! l = Some n ∧ same_ns n n';
}.

Lemma kept_refl hs p : kept hs p p.
Proof. split; [done..| |]; [intros l n _ Hl; by exists n|intros l n Hl; by exists n]. Qed.

(** Of a heap with one namespace's count written. *)
Lemma kept_count hs l n r p : heap p !! l = Some n → kept hs p (update l (set_refcount r n) p).
Proof.
  intros Hn. split; [done..| |]; cbn.
  - intros k m _ Hm. destruct (decide (l = k)) as [<-|Hne].
    + assert (m = n) as -> by congruence. eexists. by rewrite lookup_insert_eq.
    + exists m. by rewrite lookup_insert_ne.
  - intros k m Hk. apply lookup_insert_Some in Hk as [[<- <-]|[_ Hk]]; [by exists n|by exists m].
Qed.

Lemma ns_put_counted l hs p : counted (l :: hs) p → ∃ p', ns_put l p = Ret p' ∧ counted hs p' ∧ kept hs p p'.
Proof.
  intros [H1 H2 H3 H4]. unfold ns_put, deref. destruct (H1 l) as [n Hn]; [by left|]. destruct (is_initial l) eqn:Ei.
  { exists p. split; [done|]. split; [|apply kept_refl]. split; [intros k Hk; apply H1; by right| |done..].
    intros k m Hk Hi. destruct (H2 k m Hk Hi) as [Hh Hb]. rewrite holders_cons, decide_False in Hh by (intros ->; congruence). done. }
  rewrite Hn. cbn. destruct (H2 l n Hn Ei) as [[Hh|Hh] Hb]; rewrite holders_cons, decide_True in Hh by done; [done|].
  rewrite u32_small by lia. assert (n_refcount n - 1 = Z.of_nat (holders l hs)) as -> by lia.
  assert (∀ k m, heap p !! k = Some m → is_initial k = false → k ≠ l →
    (holders k hs = 0%nat ∨ n_refcount m = Z.of_nat (holders k hs)) ∧ 1 ≤ n_refcount m ≤ 12) as Hoth.
  { intros k m Hk Hi Hne. destruct (H2 k m Hk Hi) as [Hh' Hb']. by rewrite holders_cons, decide_False in Hh' by done. }
  destruct (_ =? 0) eqn:E0; bool_to_prop; eexists; (split; [done|]); split.
  - split; cbn; [| | |done].
    + intros k Hk. rewrite lookup_delete_ne; [apply H1; by right|]. intros <-. apply holders_in in Hk. lia.
    + intros k m Hk Hi. apply lookup_delete_Some in Hk as [Hne Hk]. by apply Hoth.
    + intros k m Hk. apply lookup_delete_Some in Hk as [_ Hk]. by apply (H3 k m).
  - split; [done..| |]; cbn.
    + intros k m Hk Hm. exists m. rewrite lookup_delete_ne; [done|]. intros <-.
      destruct Hk as [Hk|Hk]; [apply holders_in in Hk; lia|congruence].
    + intros k m Hk. apply lookup_delete_Some in Hk as [_ Hk]. by exists m.
  - split; cbn; [| | |done].
    + intros k Hk. rewrite lookup_insert_is_Some. destruct (decide (l = k)); [by left|right]. split; [done|]. apply H1. by right.
    + intros k m Hk Hi. apply lookup_insert_Some in Hk as [[<- <-]|[Hne Hk]]; [cbn; lia|by apply Hoth].
    + intros k m Hk. apply lookup_insert_Some in Hk as [[<- <-]|[_ Hk]]; [by apply (H3 l n)|by apply (H3 k m)].
  - by apply kept_count.
Qed.

Lemma ns_get_counted l hs p : counted hs p → l ∈ hs → (length hs < 12)%nat →
  ∃ p', ns_get l p = Ret p' ∧ counted (l :: hs) p' ∧ kept hs p p'.
Proof.
  intros [H1 H2 H3 H4] Hl Hlen. unfold ns_get, deref. destruct (H1 l Hl) as [n Hn]. rewrite Hn. cbn.
  eexists. split; [done|]. split.
  - split; cbn; [| | |done].
    + intros k Hk. rewrite lookup_insert_is_Some. destruct (decide (l = k)); [by left|right]. split; [done|].
      apply elem_of_cons in Hk as [->|Hk]; [done|by apply H1].
    + intros k m Hk Hi. rewrite holders_cons. pose proof (holders_le k hs). apply lookup_insert_Some in Hk as [[<- <-]|[Hne Hk]].
      * rewrite decide_True by done. cbn. destruct (H2 l n Hn Hi) as [[Hh|Hh] Hb]; [by apply holders_in in Hl|].
        rewrite u32_small by lia. lia.
      * rewrite decide_False by done. by apply (H2 k m).
    + intros k m Hk. apply lookup_insert_Some in Hk as [[<- <-]|[_ Hk]]; [by apply (H3 l n)|by apply (H3 k m)].
  - by apply kept_count.
Qed.

(** A namespace that has been allocated, with the reference to it. *)
Lemma counted_alloc hs p n next :
  counted hs p → n_refcount n = 1 → n_ino n < next → next_ino p ≤ next →
  counted (next_loc p :: hs) (mk_np (slots p) (<[next_loc p := n]> (heap p)) next (next_loc p + 1)).
Proof.
  intros [H1 H2 H3 H4] Hr Hi Hn. assert (heap p !! next_loc p = None) as Hnone.
  { destruct (heap p !! next_loc p) as [m|] eqn:E; [|done]. apply H3 in E. lia. }
  assert (holders (next_loc p) hs = 0%nat) as Hz.
  { destruct (holders (next_loc p) hs) eqn:E; [done|]. assert (next_loc p ∈ hs) as Hin by (apply holders_in; lia).
    apply H1 in Hin. rewrite Hnone in Hin. by destruct Hin. }
  split; cbn.
  - intros k [->|Hk]%elem_of_cons; [rewrite lookup_insert_eq; by eexists|]. rewrite lookup_insert_is_Some.
    destruct (decide (next_loc p = k)); [by left|right]. split; [done|by apply H1].
  - intros k m Hk Hk'. rewrite holders_cons. apply lookup_insert_Some in Hk as [[<- <-]|[Hne Hk]].
    + rewrite decide_True, Hz by done. split; [by right|lia].
    + rewrite decide_False by done. by apply (H2 k m).
  - intros k m Hk. apply lookup_insert_Some in Hk as [[<- <-]|[_ Hk]]; [lia|]. apply H3 in Hk. lia.
  - lia.
Qed.

(** ** The ten pointers *)

(** The type of the namespaces a pointer is for. *)
Definition slot_type (i : nat) : ns_type := default NS_TIME ((all_types ++ [NS_TIME; NS_PID]) !! i).

(** The process's pointers are typed, the initial namespaces are there, and
    the pointers with the references [extra] besides are counted. *)
Record live_with (extra : list Z) (p : nsproxy) : Prop := {
  lv_len : length (slots p) = 10%nat;
  lv_count : counted (extra ++ slots p) p;
  lv_type i l : slots p !! i = Some l → ∃ n, heap p !! l = Some n ∧ n_type n = slot_type i;
  lv_init t : ∃ n, heap p !! Z.of_nat (ns_index t) = Some n ∧ n_ino n = ino_initial t ∧ n_type n = t;
  lv_dyn l n : heap p !! l = Some n → is_initial l = false → NS_INO_FIRST + 8 ≤ n_ino n;
}.
Abbreviation live := (live_with []).

(** What there is to see through a pointer. *)
Definition seen (i : nat) (p : nsproxy) : option (Z * uts_namespace * time_namespace * user_namespace) :=
  (λ n, (n_ino n, n_uts n, n_time n, n_user n)) <$> heap p !! slot i p.
Definition ino (i : nat) (p : nsproxy) : Z := match heap p !! slot i p with Some n => n_ino n | None => 0 end.

Lemma seen_ino i p q : seen i q = seen i p → ino i q = ino i p.
Proof.
  unfold seen, ino. destruct (heap q !! _), (heap p !! _); cbn; congruence.
Qed.

Lemma live_slot extra p i : live_with extra p → (i < 10)%nat → slots p !! i = Some (slot i p) ∧ ∃ n, heap p !! slot i p = Some n ∧ n_type n = slot_type i.
Proof.
  intros Hl Hi. unfold slot. destruct (slots p !! i) as [l|] eqn:E; [|apply lookup_ge_None in E; rewrite (lv_len _ _ Hl) in E; lia].
  cbn. split; [done|]. by apply (lv_type _ _ Hl).
Qed.

Lemma ino_at_live extra p i : live_with extra p → (i < 10)%nat → ino_at i p = Ret (ino i p).
Proof. intros Hl Hi. destruct (live_slot _ _ _ Hl Hi) as (_ & n & Hn & _). unfold ino_at, deref, ino. by rewrite Hn. Qed.

Lemma initial_loc l : is_initial l = true → ∃ t, l = Z.of_nat (ns_index t).
Proof.
  unfold is_initial. intros H. bool_to_prop.
  assert (l = 0 ∨ l = 1 ∨ l = 2 ∨ l = 3 ∨ l = 4 ∨ l = 5 ∨ l = 6 ∨ l = 7) as Hl by lia.
  destruct Hl as [->|[->|[->|[->|[->|[->|[->| ->]]]]]]];
    [by exists NS_MNT|by exists NS_UTS|by exists NS_IPC|by exists NS_PID|by exists NS_NET|by exists NS_USER|by exists NS_CGROUP|by exists NS_TIME].
Qed.

Lemma ino_bound extra p i : live_with extra p → (i < 10)%nat → NS_INO_FIRST ≤ ino i p < next_ino p.
Proof.
  intros Hl Hi. destruct (live_slot _ _ _ Hl Hi) as (_ & n & Hn & _). unfold ino. rewrite Hn.
  destruct (ct_fresh _ _ (lv_count _ _ Hl) _ _ Hn) as [Hloc Hino]. split; [|done]. destruct (is_initial (slot i p)) eqn:E; [|apply (lv_dyn _ _ Hl) in Hn; [lia|done]].
  destruct (initial_loc _ E) as [t Ht].
  destruct (lv_init _ _ Hl t) as (m & Hm & Ei & _). rewrite Ht in Hn. assert (m = n) as -> by congruence. rewrite Ei. unfold ino_initial. lia.
Qed.

(** Two heaps with the same namespaces seen by all that has a reference. *)
Lemma kept_seen hs p p' i : kept hs p p' → slot i p ∈ hs → is_Some (heap p !! slot i p) → seen i p' = seen i p.
Proof.
  intros Hk Hin [n Hn]. unfold seen, slot. rewrite (kp_slots _ _ _ Hk). change (default 0 (slots p !! i)) with (slot i p).
  destruct (kp_heap _ _ _ Hk (slot i p) n (or_introl Hin) Hn) as (n' & Hn' & [Ei _] & Eu & Et & Es). rewrite Hn, Hn'. cbn. congruence.
Qed.

Lemma slot_insert i j l p : i ≠ j → slot j (set_slot i l p) = slot j p.
Proof. intros Hne. unfold slot, set_slot. cbn. by rewrite list_lookup_insert_ne. Qed.
Lemma slot_insert_eq i l p : (i < length (slots p))%nat → slot i (set_slot i l p) = l.
Proof. intros Hi. unfold slot, set_slot. cbn. by rewrite list_lookup_insert_eq. Qed.

(** Putting one reference of [extra] in a pointer's place. *)
Lemma swap_slot extra l i n p :
  live_with (l :: extra) p → (i < 10)%nat → heap p !! l = Some n → n_type n = slot_type i →
  ∃ p', ns_put (slot i p) p = Ret p' ∧ live_with extra (set_slot i l p') ∧
    next_ino p' = next_ino p ∧ next_loc p' = next_loc p ∧ slots p' = slots p ∧
    (∀ j, (j < 10)%nat → j ≠ i → seen j (set_slot i l p') = seen j p) ∧
    seen i (set_slot i l p') = Some (n_ino n, n_uts n, n_time n, n_user n).
Proof.
  intros Hl Hi Hn Ht. destruct (live_slot _ _ _ Hl Hi) as (Hs & m & Hm & Htm). destruct Hl as [Hlen Hc Hty Hin Hd].
  assert (slots p ≡ₚ slot i p :: delete i (slots p)) as Hp by (by apply delete_Permutation).
  destruct (ns_put_counted (slot i p) ((l :: extra) ++ delete i (slots p)) p) as (p' & E & Hc' & Hk).
  { apply (counted_perm ((l :: extra) ++ slots p)); [|done]. rewrite Hp at 1. by rewrite Permutation_middle. }
  exists p'. split; [done|]. pose proof (kp_slots _ _ _ Hk) as Es. assert (i < length (slots p))%nat as Hil by lia.
  assert (∀ k x, k ≠ i → slots p !! k = Some x → x ∈ (l :: extra) ++ delete i (slots p)) as Hother.
  { intros k x Hki Hkx. apply elem_of_app. right. apply list_elem_of_lookup. destruct (decide (k < i)%nat).
    - exists k. by rewrite list_lookup_delete_lt.
    - exists (pred k). rewrite list_lookup_delete_ge by lia. by replace (S (pred k)) with k by lia. }
  assert (∀ j, (j < 10)%nat → j ≠ i → seen j (set_slot i l p') = seen j p) as Hseen.
  { intros j Hj Hne. transitivity (seen j p').
    - unfold seen. rewrite slot_insert by done. done.
    - apply (kept_seen _ _ _ _ Hk); [|]. 
      + apply (Hother j); [done|]. unfold slot. destruct (slots p !! j) eqn:Ej; [done|]. apply lookup_ge_None in Ej. lia.
      + destruct (slots p !! j) as [x|] eqn:Ej; [|apply lookup_ge_None in Ej; lia]. destruct (Hty j x Ej) as (y & Hy & _). unfold slot. rewrite Ej. by eexists. }
  assert (∀ x y, x ∈ (l :: extra) ++ delete i (slots p) ∨ is_initial x = true → heap p !! x = Some y → ∃ y', heap p' !! x = Some y' ∧ same_ns y y') as Hsame.
  { intros x y Hx Hy. destruct (kp_heap _ _ _ Hk x y Hx Hy) as (y' & Hy' & Hs' & _). by exists y'. }
  split_and!; [|apply Hk|apply Hk|done|done|]; cycle 1.
  - unfold seen. rewrite slot_insert_eq by (by rewrite Es). destruct (kp_heap _ _ _ Hk l n) as (n' & Hn' & [Ei _] & Eu & Et & Ess); [by left; left|done|].
    change (heap (set_slot i l p')) with (heap p'). rewrite Hn'. cbn. congruence.
  - split; cbn; [by rewrite length_insert, Es| | | |].
    + apply (counted_perm ((l :: extra) ++ delete i (slots p))); [|by destruct Hc'; split].
      rewrite Es. assert (<[i:=l]> (slots p) ≡ₚ l :: delete i (slots p)) as Hp'; [|rewrite Hp'; apply Permutation_middle].
      rewrite insert_take_drop, delete_take_drop by done. by rewrite Permutation_middle.
    + intros j x Hj. rewrite Es in Hj. apply list_lookup_insert_Some in Hj as [(-> & <- & _)|[Hne Hj]].
      * destruct (Hsame l n) as (n' & Hn' & _ & Et); [by left; left|done|]. exists n'. split; [done|]. by rewrite Et.
      * destruct (Hty j x Hj) as (y & Hy & Ety). destruct (Hsame x y) as (y' & Hy' & _ & Et); [left; by apply (Hother j)|done|].
        exists y'. split; [done|]. by rewrite Et.
    + intros t. destruct (Hin t) as (y & Hy & Ey & Ety). destruct (Hsame (Z.of_nat (ns_index t)) y) as (y' & Hy' & Ei & Et); [right; by destruct t|done|].
      exists y'. split_and!; [done|congruence|congruence].
    + intros x y Hx Hxi. destruct (kp_back _ _ _ Hk x y Hx) as (z & Hz & Ei & _). rewrite Ei. by apply (Hd x z).
Qed.

Lemma seen_some i p x : seen i p = Some x → ino i p = x.1.1.1.
Proof. unfold seen, ino. destruct (heap p !! slot i p); cbn; [by intros [= <-]|done]. Qed.

(** Allocating a namespace. *)
Lemma alloc_live extra p n next :
  live_with extra p → n_refcount n = 1 → NS_INO_FIRST + 8 ≤ n_ino n < next → next_ino p ≤ next →
  let q := mk_np (slots p) (<[next_loc p := n]> (heap p)) next (next_loc p + 1) in
  live_with (next_loc p :: extra) q ∧ (∀ j, (j < 10)%nat → seen j q = seen j p) ∧ heap q !! next_loc p = Some n.
Proof.
  intros Hl Hr Hi Hn q. assert (∀ l m, heap p !! l = Some m → l ≠ next_loc p) as Hne.
  { intros l m Hm ->. destruct (ct_fresh _ _ (lv_count _ _ Hl) _ _ Hm). lia. }
  split_and!; [|intros j Hj|apply lookup_insert_eq].
  - destruct Hl as [Hlen Hc Hty Hin Hd]. split; cbn.
    + done.
    + change (next_loc p :: extra ++ slots p) with (next_loc p :: (extra ++ slots p)). apply counted_alloc; [done|done|lia|done].
    + intros i l Hil. destruct (Hty i l Hil) as (m & Hm & Et). exists m. rewrite lookup_insert_ne; [done|]. intros E. by apply (Hne l m).
    + intros t. destruct (Hin t) as (m & Hm & Et). exists m. rewrite lookup_insert_ne; [done|]. intros E. by apply (Hne _ m Hm).
    + intros l m Hm Hini. apply lookup_insert_Some in Hm as [[_ <-]|[_ Hm]]; [lia|by apply (Hd l m)].
  - unfold seen. change (slot j q) with (slot j p). destruct (live_slot _ _ _ Hl Hj) as (_ & m & Hm & _). cbn.
    rewrite lookup_insert_ne; [done|]. intros E. by apply (Hne _ m Hm).
Qed.

(** Writing to a namespace but for its count. *)
Lemma update_live extra p l n n' :
  live_with extra p → heap p !! l = Some n → same_ns n n' → n_refcount n' = n_refcount n → live_with extra (update l n' p).
Proof.
  intros [Hlen Hc Hty Hin Hd] Hn [Ei Et] Hr. split; cbn.
  - done.
  - by apply (counted_update _ l n).
  - intros i k Hk. destruct (Hty i k Hk) as (m & Hm & Etm). destruct (decide (l = k)) as [<-|Hne].
    + exists n'. rewrite lookup_insert_eq. split; [done|]. congruence.
    + exists m. by rewrite lookup_insert_ne.
  - intros t. destruct (Hin t) as (m & Hm & Em & Etm). destruct (decide (l = Z.of_nat (ns_index t))) as [->|Hne].
    + exists n'. rewrite lookup_insert_eq. split_and!; [done|congruence|congruence].
    + exists m. by rewrite lookup_insert_ne.
  - intros k m Hm Hk. apply lookup_insert_Some in Hm as [[<- <-]|[_ Hm]]; [rewrite Ei; by apply (Hd l n)|by apply (Hd k m)].
Qed.

Section Live.
Context (boot pid euid : Z) (cgroup_current : cstr) (gethostname : option cstr).
Abbreviation contents := (ns_contents euid cgroup_current).

Lemma contents_spec t f i d : let n := (contents t f i d).1 in n_type n = t ∧ n_ino n = i ∧ n_refcount n = 1.
Proof. by destruct t. Qed.

Lemma ns_new_live extra t i s : live_with extra (s_np s) → (i < 10)%nat →
  ∃ f, heap (s_np s) !! slot i (s_np s) = Some f ∧
  let '(n, d) := contents t f (next_ino (s_np s)) (s_fs s) in
  ∃ p', ns_new euid cgroup_current t (slot i (s_np s)) s = Ret (next_loc (s_np s), mk_st p' d) ∧
    live_with (next_loc (s_np s) :: extra) p' ∧ next_ino p' = next_ino (s_np s) + 1 ∧
    (∀ j, slot j p' = slot j (s_np s)) ∧ (∀ j, (j < 10)%nat → seen j p' = seen j (s_np s)) ∧ heap p' !! next_loc (s_np s) = Some n.
Proof.
  intros Hl Hi. destruct (live_slot _ _ _ Hl Hi) as (_ & f & Hf & _). exists f. split; [done|].
  pose proof (contents_spec t f (next_ino (s_np s)) (s_fs s)) as Hc. destruct (contents t f _ _) as [n d] eqn:Ec. destruct Hc as (_ & Ei & Er).
  cbn in Ei, Er. unfold ns_new, deref. rewrite Hf. cbn [mbind outcome_bind]. rewrite Ec.
  pose proof (ct_next _ _ (lv_count _ _ Hl)) as Hnx. pose proof (alloc_live extra (s_np s) n (next_ino (s_np s) + 1) Hl Er ltac:(lia) ltac:(lia)) as Ha.
  eexists. split; [done|]. cbv zeta in Ha. destruct Ha as (Ha & Hs & Hh). done.
Qed.

(** The files after a new namespace of type [t] has been made from [f]. *)
Definition made (t : ns_type) (f : namespace) (i : Z) (d : nsfiles) : nsfiles :=
  let d := (contents t f i d).2 in if decide (t = NS_IPC) then with_ipc (sysv_ns_claim boot pid i (d_ipc d)) d else d.

Lemma target_spec t : (target t < 10)%nat ∧ slot_type (target t) = t ∧ (ns_index t < 10)%nat ∧ slot_type (ns_index t) = t.
Proof. destruct t; cbn; unfold TIME_FOR_CHILDREN, PID_FOR_CHILDREN; split_and!; done || lia. Qed.

Lemma unshare_one_spec t s : live (s_np s) →
  ∃ f s', heap (s_np s) !! slot (ns_index t) (s_np s) = Some f ∧ unshare_one boot pid euid cgroup_current t s = Ret s' ∧
    live (s_np s') ∧ next_ino (s_np s') = next_ino (s_np s) + 1 ∧ s_fs s' = made t f (next_ino (s_np s)) (s_fs s) ∧
    (∀ j, (j < 10)%nat → j ≠ target t → seen j (s_np s') = seen j (s_np s)) ∧ ino (target t) (s_np s') = next_ino (s_np s).
Proof.
  intros Hl. destruct (target_spec t) as (Ht & Hty & Hi & _). destruct (ns_new_live [] t (ns_index t) s Hl Hi) as (f & Hf & Hn). exists f.
  pose proof (contents_spec t f (next_ino (s_np s)) (s_fs s)) as Hc. unfold made.
  destruct (contents t f _ _) as [n d]. destruct Hc as (Hnt & Hni & _). cbn in Hnt, Hni. destruct Hn as (p1 & E & Hl1 & Hni1 & Hsl & Hs1 & Hh).
  destruct (swap_slot [] (next_loc (s_np s)) (target t) n p1 Hl1 Ht Hh ltac:(congruence)) as (p2 & E2 & Hl2 & Hn2 & _ & _ & Hs2 & Hst).
  exists (mk_st (set_slot (target t) (next_loc (s_np s)) p2)
    (if decide (t = NS_IPC) then with_ipc (sysv_ns_claim boot pid (next_ino (s_np s)) (d_ipc d)) d else d)). cbn [s_np s_fs].
  split_and!; [done| |done|cbn; congruence|done| |].
  - unfold unshare_one. rewrite E. cbn [mbind outcome_bind]. replace (next_ino (s_np s)) with (next_ino p1 - 1) by lia.
    case_decide; cbn [s_np s_fs set_fs set_np]; rewrite E2; done.
  - intros j Hj Hne. rewrite Hs2, Hs1 by done. done.
  - by rewrite (seen_some _ _ _ Hst).
Qed.

(** ** What the files have *)

(** Two states of the files agree on what is kept for number [k]. *)
Record same_at (k : Z) (d d' : nsfiles) : Prop := {
  sa_uts : d_uts d' !! k = d_uts d !! k;
  sa_time : d_time d' !! k = d_time d !! k;
  sa_user : d_user d' !! k = d_user d !! k;
  sa_cgroup : d_cgroup d' !! k = d_cgroup d !! k;
  sa_pid : d_pid d' !! k = d_pid d !! k;
  sa_mnt : d_mnt d' !! k = d_mnt d !! k;
  sa_ipc b : d_ipc d' !! (b, k) = d_ipc d !! (b, k);
}.

Lemma same_at_refl k d : same_at k d d.
Proof. done. Qed.












End Live.


(** * Rebuilding a process *)

(** Pointers that lead to namespaces of their types, counted or not. *)
Record typed (p : nsproxy) : Prop := {
  tp_len : length (slots p) = 10%nat;
  tp_type i l : slots p !! i = Some l → ∃ n, heap p !! l = Some n ∧ n_type n = slot_type i;
  tp_init t : ∃ n, heap p !! Z.of_nat (ns_index t) = Some n ∧ n_ino n = ino_initial t ∧ n_type n = t;
  tp_fresh l n : heap p !! l = Some n → 0 ≤ l < next_loc p;
  tp_next : 8 ≤ next_loc p;
}.

Lemma live_typed extra p : live_with extra p → typed p.
Proof.
  intros [Hlen [_ _ Hf Hn] Hty Hin _]. split; [done..| |lia]. intros l n Hl. by apply Hf in Hl as [? _].
Qed.

Lemma typed_slot p i : typed p → (i < 10)%nat → slots p !! i = Some (slot i p) ∧ ∃ n, heap p !! slot i p = Some n ∧ n_type n = slot_type i.
Proof.
  intros Ht Hi. unfold slot. destruct (slots p !! i) as [l|] eqn:E; [|apply lookup_ge_None in E; rewrite (tp_len _ Ht) in E; lia].
  cbn. split; [done|]. by apply (tp_type _ Ht).
Qed.

Lemma typed_update l n n' p : typed p → heap p !! l = Some n → same_ns n n' → typed (update l n' p).
Proof.
  intros [Hlen Hty Hin Hf Hn] Hl [Ei Et]. split; cbn; [done| | | |done].
  - intros i k Hk. destruct (Hty i k Hk) as (m & Hm & Etm). destruct (decide (l = k)) as [<-|Hne].
    + exists n'. rewrite lookup_insert_eq. split; [done|]. congruence.
    + exists m. by rewrite lookup_insert_ne.
  - intros t. destruct (Hin t) as (m & Hm & Em & Etm). destruct (decide (l = Z.of_nat (ns_index t))) as [->|Hne].
    + exists n'. rewrite lookup_insert_eq. split_and!; [done|congruence|congruence].
    + exists m. by rewrite lookup_insert_ne.
  - intros k m Hm. apply lookup_insert_Some in Hm as [[<- _]|[_ Hm]]; [by apply (Hf l n)|by apply (Hf k m)].
Qed.

Lemma update_ino l n n' p i : heap p !! l = Some n → same_ns n n' → ino i (update l n' p) = ino i p.
Proof.
  intros Hl [Ei _]. unfold ino. change (slot i (update l n' p)) with (slot i p). cbn. destruct (decide (l = slot i p)) as [<-|Hne].
  - by rewrite lookup_insert_eq, Hl.
  - by rewrite lookup_insert_ne.
Qed.

(** ** The initial namespaces *)

(** What there is in the heap of a process, wherever its pointers are: nothing
    of its own in a new one. *)
Record base (p : nsproxy) : Prop := {
  bs_own l n : heap p !! l = Some n → is_initial l = false →
    0 ≤ l < next_loc p ∧ 1 ≤ n_refcount n ≤ 12 ∧ NS_INO_FIRST + 8 ≤ n_ino n < next_ino p;
  bs_next : 8 ≤ next_loc p ∧ NS_INO_FIRST + 8 ≤ next_ino p;
}.

Lemma base_start : base np_start.
Proof. split; [done|]. cbn. unfold NS_INO_FIRST. lia. Qed.


Lemma with_initial_lookup h l : with_initial h !! l =
  if is_initial l then (initial_ns <$> (all_types !! Z.to_nat l)) else h !! l.
Proof.
  unfold with_initial. cbn [foldr all_types ns_index]. destruct (is_initial l) eqn:E.
  - destruct (initial_loc l E) as [t ->]. destruct t; rewrite ?lookup_insert_ne by done; apply lookup_insert_eq.
  - rewrite !lookup_insert_ne; [done|..]; intros <-; done.
Qed.

(** The heap after nsproxy_init. *)
Lemma init_heap host s l : ∃ u, heap (s_np (nsproxy_init host s)) !! l =
  (if decide (l = 1) then Some (set_uts u (initial_ns NS_UTS)) else with_initial (heap (s_np s)) !! l).
Proof.
  unfold nsproxy_init. destruct (uts_load (ino_initial NS_UTS) (s_fs s)) as [u|]; eexists u || eexists; cbn [s_np heap].
  - case_decide as E; [subst; apply lookup_insert_eq|rewrite lookup_insert_ne; [done|intros <-; by apply E]].
  - case_decide as E; [subst; apply lookup_insert_eq|rewrite lookup_insert_ne; [done|intros <-; by apply E]].
Qed.

Lemma init_slots host s : let q := s_np (nsproxy_init host s) in
  slots q = initial_slots ∧ next_ino q = next_ino (s_np s) ∧ next_loc q = next_loc (s_np s).
Proof. unfold nsproxy_init. by destruct (uts_load _ _). Qed.

Lemma init_initial host s t : ∃ n, heap (s_np (nsproxy_init host s)) !! Z.of_nat (ns_index t) = Some n ∧
  n_ino n = ino_initial t ∧ n_type n = t.
Proof.
  destruct (init_heap host s (Z.of_nat (ns_index t))) as [u ->]. rewrite with_initial_lookup.
  destruct t; (case_decide as E; [try done|try done]); eexists; done.
Qed.

Lemma init_own host s l n : heap (s_np (nsproxy_init host s)) !! l = Some n → is_initial l = false → heap (s_np s) !! l = Some n.
Proof.
  destruct (init_heap host s l) as [u ->]. rewrite with_initial_lookup. intros Hl Hi. rewrite Hi in Hl.
  rewrite decide_False in Hl by (intros ->; done). done.
Qed.

Lemma initial_slots_type i l : initial_slots !! i = Some l → l = Z.of_nat (ns_index (slot_type i)) ∧ is_initial l = true.
Proof. do 10 (destruct i as [|i]; [by intros [= <-]|]). done. Qed.

Lemma init_live host s : base (s_np s) → live (s_np (nsproxy_init host s)).
Proof.
  intros [Ho Hn]. destruct (init_slots host s) as (Es & Ei & El). pose proof (init_initial host s) as Hin. pose proof (init_own host s) as Hown.
  split; rewrite ?Es; [done| | |done|].
  - split; rewrite ?Ei, ?El.
    + intros l Hl. cbn [app] in Hl. apply list_elem_of_lookup in Hl as [i Hi]. apply initial_slots_type in Hi as [-> _].
      destruct (Hin (slot_type i)) as (n & -> & _). by eexists.
    + intros l n Hl Hini. specialize (Ho l n (Hown l n Hl Hini) Hini). split; [left|lia].
      destruct (holders l _) eqn:Eh; [done|]. assert (l ∈ initial_slots) as Hl' by (apply holders_in; cbn in Eh |- *; lia).
      apply list_elem_of_lookup in Hl' as [i Hi]. apply initial_slots_type in Hi as [_ Hi]. congruence.
    + intros l n Hl. destruct (is_initial l) eqn:Hini; [|specialize (Ho l n (Hown l n Hl Hini) Hini); lia].
      destruct (initial_loc l Hini) as [t ->]. destruct (Hin t) as (m & Hm & Em & _). assert (m = n) as -> by congruence.
      rewrite Em. unfold ino_initial. destruct t; cbn; lia.
    + lia.
  - intros i l Hil. apply initial_slots_type in Hil as [-> _]. destruct (Hin (slot_type i)) as (n & Hn' & _ & Et). by exists n.
  - intros l n Hl Hini. specialize (Ho l n (Hown l n Hl Hini) Hini). lia.
Qed.

(** ** Rejoining *)

Definition alloc (n : namespace) (p : nsproxy) : nsproxy := mk_np (slots p) (<[next_loc p := n]> (heap p)) (next_ino p) (next_loc p + 1).

(** Both pointers of a type. *)
Definition set_both (t : ns_type) (l : Z) (p : nsproxy) : nsproxy :=
  let p := set_slot (ns_index t) l p in
  match t with NS_TIME => set_slot TIME_FOR_CHILDREN l p | NS_PID => set_slot PID_FOR_CHILDREN l p | _ => p end.

Definition ino_in (inos : list Z) (t : ns_type) : Z := default 0 (inos !! ns_index t).

(** A process that has not left the initial namespace of a type takes its
    parent's. *)
Lemma rejoin_eq inos t p : typed p → slot (ns_index t) p = Z.of_nat (ns_index t) →
  rejoin inos t p = Ret (if ino_in inos t =? ino_initial t then p else set_both t (next_loc p) (alloc (blank_ns t (ino_in inos t)) p)).
Proof.
  intros Ht Hs. unfold rejoin, deref. fold (ino_in inos t). rewrite Hs. destruct (tp_init _ Ht t) as (n & Hn & Ei & _). rewrite Hn.
  cbn [mbind outcome_bind]. rewrite Ei. destruct (_ =? _); [done|].
  change (slot (ns_index t) (mk_np (slots p) ?h ?a ?b)) with (slot (ns_index t) p). rewrite Hs. unfold ns_put.
  assert (is_initial (Z.of_nat (ns_index t)) = true) as -> by (by destruct t). cbn [mbind outcome_bind]. by destruct t.
Qed.

Lemma set_both_slot t l p j : (j < 10)%nat → length (slots p) = 10%nat →
  slot j (set_both t l p) = if decide (j = ns_index t ∨ j = target t) then l else slot j p.
Proof.
  intros Hj Hlen. unfold set_both, slot. destruct t; cbn [slots set_slot]; cbn [ns_index target]; unfold TIME_FOR_CHILDREN, PID_FOR_CHILDREN;
    case_decide as E; rewrite ?list_lookup_insert; rewrite ?length_insert, ?Hlen;
    repeat case_decide; try done; try lia; intuition congruence.
Qed.

Lemma alloc_typed n p : typed p → typed (alloc n p) ∧ heap (alloc n p) !! next_loc p = Some n ∧
  (∀ j, (j < 10)%nat → seen j (alloc n p) = seen j p) ∧ slots (alloc n p) = slots p.
Proof.
  intros Ht. assert (∀ l m, heap p !! l = Some m → next_loc p ≠ l) as Hne.
  { intros l m Hm <-. apply (tp_fresh _ Ht) in Hm. lia. }
  split_and!; [|apply lookup_insert_eq| |done].
  - destruct Ht as [Hlen Hty Hin Hf Hn]. split; cbn; [done| | | |lia].
    + intros i l Hil. destruct (Hty i l Hil) as (m & Hm & Et). exists m. by rewrite lookup_insert_ne by (by eapply Hne).
    + intros t. destruct (Hin t) as (m & Hm & Et). exists m. by rewrite lookup_insert_ne by (by eapply Hne).
    + intros l m Hm. apply lookup_insert_Some in Hm as [[<- _]|[_ Hm]]; [lia|]. apply Hf in Hm. lia.
  - intros j Hj. destruct (typed_slot p j Ht Hj) as (_ & m & Hm & _). unfold seen. change (slot j (alloc n p)) with (slot j p). cbn.
    by rewrite lookup_insert_ne by (by eapply Hne).
Qed.

Lemma set_both_typed t l n p : typed p → heap p !! l = Some n → n_type n = t →
  typed (set_both t l p) ∧ heap (set_both t l p) = heap p ∧ next_loc (set_both t l p) = next_loc p ∧ next_ino (set_both t l p) = next_ino p.
Proof.
  intros [Hlen Hty Hin Hf Hn] Hl Ht. assert (∀ i, slot_type i = t → (i < 10)%nat → ∀ q, length (slots q) = 10%nat → heap q = heap p →
    (∀ i l, slots q !! i = Some l → ∃ n, heap p !! l = Some n ∧ n_type n = slot_type i) →
    ∀ k x, slots (set_slot i l q) !! k = Some x → ∃ n, heap p !! x = Some n ∧ n_type n = slot_type k) as Hs.
  { intros i Hi Hi' q Hq Hh Hqt k x Hk. cbn in Hk. apply list_lookup_insert_Some in Hk as [(-> & <- & _)|[_ Hk]]; [exists n; split; congruence|by apply Hqt]. }
  assert (typed (set_slot (ns_index t) l p)) as H1.
  { split; cbn; [by rewrite length_insert|by apply (Hs (ns_index t)); try apply target_spec|done..]. }
  split; [|by destruct t]. destruct t; try done; unfold set_both; (split; cbn; [by rewrite !length_insert| |done..]).
  - apply (Hs PID_FOR_CHILDREN eq_refl ltac:(unfold PID_FOR_CHILDREN; lia) (set_slot 3 l p)); [cbn; by rewrite length_insert|done|apply H1].
  - apply (Hs TIME_FOR_CHILDREN eq_refl ltac:(unfold TIME_FOR_CHILDREN; lia) (set_slot 7 l p)); [cbn; by rewrite length_insert|done|apply H1].
Qed.

Definition set_next (n : Z) (p : nsproxy) : nsproxy := mk_np (slots p) (heap p) n (next_loc p).

(** What rejoining the types of [ts] comes to. *)
Record rejoined (inos : list Z) (ts : list ns_type) (p q : nsproxy) : Prop := {
  rj_typed : typed q;
  rj_ino : next_ino q = next_ino p;
  rj_in t i : t ∈ ts → i = ns_index t ∨ i = target t → ino i q = ino_in inos t;
  rj_both t : t ∈ ts → slot (target t) q = slot (ns_index t) q;
  rj_same j : (j < 10)%nat → (∀ t, t ∈ ts → j ≠ ns_index t ∧ j ≠ target t) → seen j q = seen j p ∧ slot j q = slot j p;
  rj_live N : (∀ t, t ∈ ts → ino_in inos t = ino_initial t ∨ t ≠ NS_TIME ∧ t ≠ NS_PID ∧ NS_INO_FIRST + 8 ≤ ino_in inos t < N) →
    live (set_next N p) → live (set_next N q);
}.

Lemma rejoin_one inos t p : typed p → slot (ns_index t) p = Z.of_nat (ns_index t) → slot (target t) p = Z.of_nat (ns_index t) →
  ∃ q, rejoin inos t p = Ret q ∧ rejoined inos [t] p q.
Proof.
  intros Ht Hs Hs'. eexists. split; [by apply rejoin_eq|]. destruct (ino_in inos t =? ino_initial t) eqn:E; bool_to_prop.
  - split; try done.
    + intros u i ->%list_elem_of_singleton [->| ->]; unfold ino; rewrite ?Hs, ?Hs'; destruct (tp_init _ Ht t) as (n & -> & Ei & _); congruence.
    + intros u ->%list_elem_of_singleton. congruence.
  - set (n := blank_ns t (ino_in inos t)). destruct (alloc_typed n p Ht) as (Ha & Hh & Hse & Hsl).
    destruct (set_both_typed t (next_loc p) n (alloc n p) Ha Hh eq_refl) as (Hb & Ehb & _ & Enb).
    destruct (target_spec t) as (Hti & _ & Hni & _). pose proof (tp_len _ Ha) as Hlen.
    assert (∀ i, i = ns_index t ∨ i = target t → slot i (set_both t (next_loc p) (alloc n p)) = next_loc p) as Hboth.
    { intros i Hi. rewrite set_both_slot; [by rewrite decide_True|by destruct Hi as [->| ->]|done]. }
    split.
    + done.
    + by rewrite Enb.
    + intros u i ->%list_elem_of_singleton Hi. unfold ino. rewrite Hboth, Ehb, Hh by done. done.
    + intros u ->%list_elem_of_singleton. rewrite !Hboth by auto. done.
    + intros j Hj Hne. destruct (Hne t) as [H1 H2]; [by left|].
      assert (slot j (set_both t (next_loc p) (alloc n p)) = slot j p) as Ej by (rewrite set_both_slot, decide_False by (done || tauto); done).
      split; [|done]. rewrite <- (Hse j Hj). unfold seen. by rewrite Ej, Ehb.
    + intros N HN Hl. destruct (HN t) as [?|(Hnt & Hnp & HbN)]; [by left|done|].
      destruct (alloc_live [] (set_next N p) n N Hl eq_refl) as (Hl1 & _ & Hh1); [cbn; lia|cbn; lia|].
      destruct (swap_slot [] (next_loc p) (ns_index t) n _ Hl1 Hni Hh1) as (p' & E' & Hl2 & _); [by destruct t|].
      change (slot (ns_index t) _) with (slot (ns_index t) p) in E'. rewrite Hs in E'. unfold ns_put in E'.
      assert (is_initial (Z.of_nat (ns_index t)) = true) as Hini by (by destruct t). rewrite Hini in E'. injection E' as <-.
      destruct t; done.
Qed.

Lemma index_apart t u : t ≠ u → ns_index t ≠ ns_index u ∧ ns_index t ≠ target u ∧ target t ≠ ns_index u ∧ target t ≠ target u.
Proof. intros Hne. destruct t, u; done. Qed.

Lemma rejoined_cons inos t ts p q1 q : t ∉ ts → rejoined inos [t] p q1 → rejoined inos ts q1 q → rejoined inos (t :: ts) p q.
Proof.
  intros Hnt [A1 A2 A3 A4 A5 A6] [B1 B2 B3 B4 B5 B6]. destruct (target_spec t) as (Ht & _ & Hn & _).
  assert (∀ u, u ∈ ts → t ≠ u) as Hne by (intros u Hu ->; done).
  assert (∀ i, i = ns_index t ∨ i = target t → seen i q = seen i q1 ∧ slot i q = slot i q1) as Hk.
  { intros i Hi. apply B5; [by destruct Hi as [->| ->]|]. intros u Hu. destruct (index_apart t u (Hne u Hu)) as (? & ? & ? & ?).
    by destruct Hi as [->| ->]. }
  split.
  - done.
  - congruence.
  - intros u i [->|Hu]%elem_of_cons Hi; [|by apply B3]. destruct (Hk i Hi) as [Hs _]. rewrite (seen_ino _ _ _ Hs). apply A3; [by left|done].
  - intros u [->|Hu]%elem_of_cons; [|by apply B4]. destruct (Hk (target t)) as [_ ->]; [by right|]. destruct (Hk (ns_index t)) as [_ ->]; [by left|].
    apply A4. by left.
  - intros j Hj Hjt. destruct (B5 j Hj) as [-> ->]; [intros u Hu; apply Hjt; by right|]. apply A5; [done|].
    intros u ->%list_elem_of_singleton. apply Hjt. by left.
  - intros N HN Hl. apply B6; [intros u Hu; apply HN; by right|]. apply A6; [|done]. intros u ->%list_elem_of_singleton. apply HN. by left.
Qed.

Lemma rejoin_loop inos ts : NoDup ts → ∀ p, typed p →
  (∀ t, t ∈ ts → slot (ns_index t) p = Z.of_nat (ns_index t) ∧ slot (target t) p = Z.of_nat (ns_index t)) →
  ∃ q, for_each (rejoin inos) ts p = Ret q ∧ rejoined inos ts p q.
Proof.
  induction 1 as [|t ts Hnt Hts IH]; intros p Hp Hs.
  { exists p. split; [done|]. split; try done; intros; match goal with H : _ ∈ [] |- _ => by apply elem_of_nil in H end. }
  cbn [for_each]. destruct (Hs t) as [H1 H2]; [by left|]. destruct (rejoin_one inos t p Hp H1 H2) as (q1 & -> & Hr1). cbn [mbind outcome_bind].
  destruct (IH q1) as (q & E & Hr).
  - apply Hr1.
  - intros u Hu. assert (t ≠ u) as Hne by (intros ->; done). destruct (index_apart t u Hne) as (? & ? & ? & ?).
    destruct (target_spec u) as (Hu1 & _ & Hu2 & _).
    destruct (rj_same _ _ _ _ Hr1 (ns_index u) Hu2) as [_ ->]; [intros v ->%list_elem_of_singleton; by split; apply not_eq_sym|].
    destruct (rj_same _ _ _ _ Hr1 (target u) Hu1) as [_ ->]; [intros v ->%list_elem_of_singleton; by split; apply not_eq_sym|].
    apply Hs. by right.
  - exists q. split; [done|]. by apply (rejoined_cons _ _ _ _ q1).
Qed.

(** ** The files *)

(** What rebuilding a process does to the files: the offsets of its time
    namespace are frozen, a hostname that was not there may be written, and
    nothing else changes. *)
Record rebuilt (time : Z) (d d' : nsfiles) : Prop := {
  rb_open : d_open d' = d_open d;
  rb_rest : (d_user d', d_cgroup d', d_pid d', d_mnt d', d_ipc d') = (d_user d, d_cgroup d, d_pid d, d_mnt d, d_ipc d);
  rb_time k : d_time d' !! k = if decide (k = time ∧ d_open d = true) then set_frozen true <$> d_time d !! k else d_time d !! k;
  rb_uts k u : d_uts d !! k = Some u → d_uts d' !! k = Some u;
}.

Lemma init_files host s : let d := s_fs s in let d' := s_fs (nsproxy_init host s) in
  d_time d' = d_time d ∧ d_open d' = d_open d ∧
  (d_user d', d_cgroup d', d_pid d', d_mnt d', d_ipc d') = (d_user d, d_cgroup d, d_pid d, d_mnt d, d_ipc d) ∧
  (∀ k u, d_uts d !! k = Some u → d_uts d' !! k = Some u).
Proof.
  unfold nsproxy_init, uts_load. destruct (d_uts (s_fs s) !! ino_initial NS_UTS) as [u|] eqn:E; [done|]. cbn.
  unfold uts_store. destruct (d_open (s_fs s)) eqn:Eo; [|by rewrite Eo]. split_and!; try done. intros k v Hk. cbn. rewrite lookup_insert_ne; [done|].
  intros <-. congruence.
Qed.

Lemma update_id l n p : heap p !! l = Some n → update l n p = p.
Proof. intros Hl. unfold update, set_heap. rewrite insert_id by done. by destruct p. Qed.

Lemma freeze_spec s : typed (s_np s) → ∃ n n' s', heap (s_np s) !! slot (ns_index NS_TIME) (s_np s) = Some n ∧ same_ns n n' ∧
  n_refcount n' = n_refcount n ∧ freeze s = Ret s' ∧ s_np s' = update (slot (ns_index NS_TIME) (s_np s)) n' (s_np s) ∧
  rebuilt (n_ino n) (s_fs s) (s_fs s').
Proof.
  intros Ht. destruct (typed_slot _ (ns_index NS_TIME) Ht) as (_ & n & Hn & _); [cbn; lia|]. unfold freeze, deref. rewrite Hn.
  cbn [mbind outcome_bind]. unfold timens_load. exists n. destruct (d_time (s_fs s) !! n_ino n) as [t|] eqn:Et; [destruct (frozen t) eqn:Ef|].
  - exists (set_time t n). eexists. split_and!; try done. split; try done. intros k. case_decide as E; [|done]. destruct E as [-> _].
    rewrite Et. cbn. do 2 f_equal. destruct t; cbn in *; by subst.
  - exists (set_time (set_frozen true t) n). eexists. split_and!; try done. cbn. unfold timens_store.
    destruct (d_open (s_fs s)) eqn:Eo; [|split; try done; intros k; rewrite decide_False by (intros [_ ?]; congruence); done].
    split; cbn; try done. intros k. case_decide as E; [destruct E as [-> _]; by rewrite lookup_insert_eq, Et|].
    rewrite lookup_insert_ne; [done|]. intros <-. tauto.
  - exists n. eexists. split_and!; [done|done|done|done|by rewrite update_id|]. split; try done. intros k. case_decide as E; [|done].
    destruct E as [-> _]. by rewrite Et.
Qed.

Lemma reload_spec uts s : typed (s_np s) → ∃ n n' s', heap (s_np s) !! slot (ns_index NS_UTS) (s_np s) = Some n ∧ same_ns n n' ∧
  n_refcount n' = n_refcount n ∧ reload_uts uts s = Ret s' ∧ s_np s' = update (slot (ns_index NS_UTS) (s_np s)) n' (s_np s) ∧
  d_time (s_fs s') = d_time (s_fs s) ∧ d_open (s_fs s') = d_open (s_fs s) ∧
  (let d := s_fs s in let d' := s_fs s' in
   (d_user d', d_cgroup d', d_pid d', d_mnt d', d_ipc d') = (d_user d, d_cgroup d, d_pid d, d_mnt d, d_ipc d)) ∧
  (∀ k u, d_uts (s_fs s) !! k = Some u → d_uts (s_fs s') !! k = Some u).
Proof.
  intros Ht. destruct (typed_slot _ (ns_index NS_UTS) Ht) as (_ & n & Hn & _); [cbn; lia|]. unfold reload_uts, deref. rewrite Hn.
  cbn [mbind outcome_bind]. unfold uts_load. exists n. destruct (d_uts (s_fs s) !! n_ino n) as [u|] eqn:Eu; cbn [fmap option_fmap option_map].
  - eexists (set_uts _ n), _. split_and!; done.
  - exists (set_uts uts n). eexists. split_and!; try done; cbn; unfold uts_store; destruct (d_open (s_fs s)) eqn:Eo; try done.
    intros k v Hk. cbn. rewrite lookup_insert_ne; [done|]. intros <-. congruence.
Qed.

(** ** A rebuilt process *)

Lemma bump_ge inos : ∀ n, n ≤ foldl (λ n i, bump i n) n inos ∧ (∀ i, i ∈ inos → i < foldl (λ n i, bump i n) n inos).
Proof.
  induction inos as [|i inos IH]; intros n; cbn; [split; [lia|by intros ? ?%elem_of_nil]|]. destruct (IH (bump i n)) as [H1 H2].
  assert (n ≤ bump i n ∧ i < bump i n) as [Hb1 Hb2] by (unfold bump; case_bool; bool_to_prop; lia).
  split; [lia|]. intros j [->|Hj]%elem_of_cons; [lia|by apply H2].
Qed.

Lemma live_next extra N p : live_with extra p → next_ino p ≤ N → live_with extra (set_next N p).
Proof.
  intros [Hlen [H1 H2 H3 H4] Hty Hin Hd] HN. split; try done. split; try done; cbn; [|lia]. intros l n Hl. apply H3 in Hl. lia.
Qed.

Lemma typed_next N p : typed p → typed (set_next N p).
Proof. by intros []. Qed.

Lemma rebuilt_trans time a b c d :
  d_time b = d_time a → d_open b = d_open a → (d_user b, d_cgroup b, d_pid b, d_mnt b, d_ipc b) = (d_user a, d_cgroup a, d_pid a, d_mnt a, d_ipc a) →
  (∀ k u, d_uts a !! k = Some u → d_uts b !! k = Some u) → rebuilt time b c →
  d_time d = d_time c → d_open d = d_open c → (d_user d, d_cgroup d, d_pid d, d_mnt d, d_ipc d) = (d_user c, d_cgroup c, d_pid c, d_mnt c, d_ipc c) →
  (∀ k u, d_uts c !! k = Some u → d_uts d !! k = Some u) → rebuilt time a d.
Proof.
  intros Et Eo Er Hu [Ro Rr Rt Ru] Et' Eo' Er' Hu'. split; [congruence..| |auto].
  intros k. rewrite Et', Rt, Et, Eo. done.
Qed.

Lemma in_inos inos t : length inos = 8%nat → ino_in inos t ∈ inos.
Proof.
  intros Hlen. unfold ino_in. destruct (inos !! ns_index t) as [i|] eqn:E; [by eapply list_elem_of_lookup_2|].
  apply lookup_ge_None in E. destruct t; cbn in E; lia.
Qed.

(** A process rebuilt from its parent's numbers is in the namespaces with these
    numbers, and so will its children be; it will not hand out one of them; and
    its references are counted when it is in the initial time and pid
    namespaces. *)
Lemma restore_spec host inos uts s : base (s_np s) → length inos = 8%nat →
  ∃ s', nsproxy_restore host inos uts s = Ret s' ∧ typed (s_np s') ∧
    (∀ t i, i = ns_index t ∨ i = target t → ino i (s_np s') = ino_in inos t) ∧
    (∀ t, slot (target t) (s_np s') = slot (ns_index t) (s_np s')) ∧
    next_ino (s_np s) ≤ next_ino (s_np s') ∧ (∀ t, ino_in inos t < next_ino (s_np s')) ∧
    rebuilt (ino_in inos NS_TIME) (s_fs s) (s_fs s') ∧
    ((∀ t, ino_in inos t = ino_initial t ∨ t ≠ NS_TIME ∧ t ≠ NS_PID ∧ NS_INO_FIRST + 8 ≤ ino_in inos t) → live (s_np s')).
Proof.
  intros Hb Hlen. unfold nsproxy_restore. cbv zeta. set (s0 := nsproxy_init host s). pose proof (init_live host s Hb) as Hl0. fold s0 in Hl0.
  destruct (init_slots host s) as (Es & Ei & _). fold s0 in Es, Ei. destruct (init_files host s) as (F1 & F2 & F3 & F4). fold s0 in F1, F2, F3, F4.
  destruct (rejoin_loop inos all_types ltac:(refine (bool_decide_unpack _ _); vm_compute; exact I) (s_np s0) (live_typed _ _ Hl0)) as (q & Eq & Hr).
  { intros t _. unfold slot. rewrite Es. by destruct t. }
  rewrite Eq. cbn [mbind outcome_bind]. destruct (freeze_spec (set_np q s0) (rj_typed _ _ _ _ Hr)) as (n & n' & s1 & Hn & Hsn & Hrn & E1 & Enp1 & Hr1).
  rewrite E1. cbn [mbind outcome_bind]. cbn [set_np s_np s_fs] in Hn, Enp1, Hr1.
  assert (typed (s_np s1)) as Ht1 by (rewrite Enp1; apply (typed_update _ n); [apply Hr|done|done]).
  destruct (reload_spec uts s1 Ht1) as (m & m' & s2 & Hm & Hsm & Hrm & E2 & Enp2 & G1 & G2 & G3 & G4). rewrite E2. cbn [mbind outcome_bind].
  assert (∀ t : ns_type, t ∈ all_types) as Hall by (intros t; destruct t; repeat first [left|right]).
  assert (∀ i, ino i (s_np s2) = ino i q ∧ slot i (s_np s2) = slot i q) as Hq.
  { intros i. rewrite Enp2. rewrite (update_ino _ m) by done. rewrite Enp1. rewrite (update_ino _ n) by done. done. }
  assert (next_ino (s_np s2) = next_ino (s_np s)) as En2 by (rewrite Enp2, Enp1; cbn; rewrite (rj_ino _ _ _ _ Hr); done).
  destruct (bump_ge inos (next_ino (s_np s2))) as [Hge Hlt]. set (N := foldl _ _ inos) in *.
  eexists. split; [done|]. change (s_np (set_np ?x s2)) with x. change (mk_np _ _ N _) with (set_next N (s_np s2)).
  split_and!.
  - apply typed_next. rewrite Enp2. by apply (typed_update _ m).
  - intros t i Hi. change (ino i (set_next N (s_np s2))) with (ino i (s_np s2)). destruct (Hq i) as [-> _]. by apply (rj_in _ _ _ _ Hr).
  - intros t. change (slot ?i (set_next N (s_np s2))) with (slot i (s_np s2)). destruct (Hq (target t)) as [_ ->], (Hq (ns_index t)) as [_ ->].
    by apply (rj_both _ _ _ _ Hr).
  - cbn. lia.
  - intros t. cbn. apply Hlt. by apply in_inos.
  - apply (rebuilt_trans _ _ (s_fs s0) (s_fs s1)); try done.
    assert (ino_in inos NS_TIME = n_ino n) as ->; [|done]. rewrite <- (rj_in _ _ _ _ Hr NS_TIME (ns_index NS_TIME)) by (done || by left).
    unfold ino. by rewrite Hn.
  - intros Hval. assert (live (set_next N q)) as HlN.
    { apply (rj_live _ _ _ _ Hr); [|apply live_next; [done|lia]]. intros t _. destruct (Hval t) as [->|(? & ? & ?)]; [by left|right].
      split_and!; [done..|]. apply Hlt. by apply in_inos. }
    rewrite Enp2, Enp1. change (set_next N (update ?a ?b (update ?c ?d q))) with (update a b (update c d (set_next N q))).
    rewrite Enp1 in Hm. apply (update_live [] (update _ n' (set_next N q)) _ m); [|done..]. by apply (update_live [] (set_next N q) _ n).
Qed.

(** * No call uses what was freed *)

Lemma put_set_slot l i x p : ns_put l (set_slot i x p) = (q ← ns_put l p; Ret (set_slot i x q)).
Proof.
  unfold ns_put, deref. destruct (is_initial l); [done|]. cbn. destruct (heap p !! l); [|done]. cbn. by case_bool.
Qed.

Lemma get_set_slot l i x p : ns_get l (set_slot i x p) = (q ← ns_get l p; Ret (set_slot i x q)).
Proof. unfold ns_get, deref. cbn. by destruct (heap p !! l). Qed.

Lemma put_get_comm old l p p1 p2 : old ≠ l → ns_get l p = Ret p1 → ns_put old p1 = Ret p2 →
  ∃ p0, ns_put old p = Ret p0 ∧ ns_get l p0 = Ret p2.
Proof.
  intros Hne. unfold ns_get, ns_put, deref. destruct (heap p !! l) as [n|] eqn:En; [|done]. cbn. intros [= <-]. cbn.
  destruct (is_initial old); [intros [= <-]; exists p; by rewrite En|]. rewrite lookup_insert_ne by done.
  destruct (heap p !! old) as [m|] eqn:Em; [|done]. cbn. case_bool; intros [= <-]; eexists; (split; [done|]); cbn.
  - rewrite lookup_delete_ne, En by done. unfold update, set_heap. cbn. by rewrite delete_insert_ne by done.
  - rewrite lookup_insert_ne, En by done. unfold update, set_heap. cbn. by rewrite insert_insert_ne.
Qed.

(** Counting one more reference. *)
Lemma get_live extra l p : live_with extra p → l ∈ extra ++ slots p → (length extra < 2)%nat →
  ∃ n n', heap p !! l = Some n ∧ same_ns n n' ∧ ns_get l p = Ret (update l n' p) ∧ live_with (l :: extra) (update l n' p) ∧
    (∀ i, seen i (update l n' p) = seen i p).
Proof.
  intros Hl Hin He. destruct (ct_live _ _ (lv_count _ _ Hl) l Hin) as [n Hn]. exists n, (set_refcount (u32 (n_refcount n + 1)) n).
  assert (ns_get l p = Ret (update l (set_refcount (u32 (n_refcount n + 1)) n) p)) as E by (unfold ns_get, deref; by rewrite Hn).
  destruct (ns_get_counted l (extra ++ slots p) p) as (p' & E' & Hc & _); [apply Hl|done|rewrite length_app, (lv_len _ _ Hl); lia|].
  rewrite E in E'. injection E' as <-. split_and!; [done|done|done| |].
  - pose proof (typed_update l n (set_refcount (u32 (n_refcount n + 1)) n) p (live_typed _ _ Hl) Hn ltac:(done)) as [T1 T2 T3 _ _].
    split; [done|done|done|done|]. intros k m Hk Hi. cbn in Hk. apply lookup_insert_Some in Hk as [[<- <-]|[_ Hk]];
      [by apply (lv_dyn _ _ Hl l n)|by apply (lv_dyn _ _ Hl k m)].
  - intros i. unfold seen. change (slot i (update _ _ p)) with (slot i p). cbn. destruct (decide (l = slot i p)) as [<-|Hne];
      [by rewrite lookup_insert_eq, Hn|by rewrite lookup_insert_ne].
Qed.

(** Pointing [i] at what [j] points at. *)
Lemma move_slot i j p : live p → (i < 10)%nat → (j < 10)%nat → slot i p ≠ slot j p → slot_type i = slot_type j →
  ∃ p0 p1, ns_put (slot i p) p = Ret p0 ∧ ns_get (slot j p) p0 = Ret p1 ∧ live (set_slot i (slot j p) p1) ∧
    next_ino p1 = next_ino p ∧ (∀ k, (k < 10)%nat → k ≠ i → ino k (set_slot i (slot j p) p1) = ino k p) ∧
    ino i (set_slot i (slot j p) p1) = ino j p ∧ slots p1 = slots p.
Proof.
  intros Hl Hi Hj Hne Hty. destruct (live_slot _ _ _ Hl Hj) as (Hsj & n & Hn & Htn).
  destruct (get_live [] (slot j p) p Hl) as (m & n' & Hm & Hsame & Eg & Hl1 & Hs1); [by eapply list_elem_of_lookup_2|cbn; lia|].
  assert (m = n) as -> by congruence. destruct Hsame as [Ei' Et'].
  destruct (swap_slot [] (slot j p) i n' _ Hl1 Hi) as (p2 & E2 & Hl2 & N1 & N2 & N3 & S1 & S2); [apply lookup_insert_eq|congruence|].
  change (slot i (update _ _ p)) with (slot i p) in E2. destruct (put_get_comm _ _ _ _ _ Hne Eg E2) as (p0 & Ep & Eg').
  exists p0, p2. split_and!; [done|done|done|done| | |done].
  - intros k Hk Hki. apply seen_ino. by rewrite S1, Hs1.
  - rewrite (seen_some _ _ _ S2). cbn. rewrite Ei'. unfold ino. by rewrite Hn.
Qed.

Definition pid_ok (d : nsfiles) : Prop := PidNs.tables_ok (d_pid d) ∧ PidNs.nested (d_pid d).
Definition good (s : st) : Prop := live (s_np s) ∧ pid_ok (s_fs s).

Section Safe.
Context (boot pid euid : Z) (cgroup_current : cstr) (gethostname : option cstr) {G : Type} `{GuestMem G}.

Lemma made_pid t f i d : pid_ok d → n_ino f < i → pid_ok (made boot pid euid cgroup_current t f i d).
Proof.
  intros [Hok Hn] Hi. assert (t = NS_PID ∨ d_pid (made boot pid euid cgroup_current t f i d) = d_pid d) as [->|E].
  { unfold made. destruct t; [right|right|right|by left|right..]; (case_decide; [try done|try done]); cbn;
      unfold uts_store, timens_store, userns_store, cgroup_ns_create; try done; by destruct (d_open d). }
  - unfold made, pid_ok. rewrite decide_False by done. cbn. unfold PidNs.pidns_create. split.
    + intros k g Hg. apply lookup_insert_Some in Hg as [[<- <-]|[_ Hg]]; [|by apply (Hok k)]. by split; cbn; try lia; constructor.
    + intros k g Hg. apply lookup_insert_Some in Hg as [[<- <-]|[_ Hg]]; [by right; right|by apply (Hn k)].
  - unfold pid_ok. by rewrite E.
Qed.

Lemma good_unshare_one t s : good s → ∃ s', unshare_one boot pid euid cgroup_current t s = Ret s' ∧ good s'.
Proof.
  intros [Hl Hp]. destruct (unshare_one_spec boot pid euid cgroup_current t s Hl) as (f & s' & Hf & E & Hl' & _ & Hfs & _).
  exists s'. split; [done|]. split; [done|]. rewrite Hfs. apply made_pid; [done|]. by apply (ct_fresh _ _ (lv_count _ _ Hl)) in Hf as [_ ?].
Qed.

Lemma good_unshare flags s : good s → ∃ r s', nsproxy_unshare boot pid euid cgroup_current flags s = Ret (r, s') ∧ good s'.
Proof.
  intros Hg. unfold nsproxy_unshare. cbv zeta. case_bool; [by exists 0, s|]. case_bool; [by exists (- EINVAL), s|].
  assert (∀ ts s, good s → ∃ s', for_each (λ t s, if asked (Z.land flags NS_ALL_FLAGS) t then unshare_one boot pid euid cgroup_current t s else Ret s) ts s =
    Ret s' ∧ good s') as Hloop.
  { induction ts as [|t ts IH]; intros s1 H1; [by exists s1|]. cbn [for_each]. case_bool; [|by apply IH].
    destruct (good_unshare_one t s1 H1) as (s2 & -> & H2). by apply IH. }
  destruct (Hloop all_types s Hg) as (s' & -> & Hg'). by exists 0, s'.
Qed.

Lemma good_become_pid1 s : good s → ∃ r s', nsproxy_become_pid1 pid euid cgroup_current s = Ret (r, s') ∧ good s'.
Proof.
  intros [Hl Hp]. unfold nsproxy_become_pid1. set (i3 := ns_index NS_PID). set (i9 := PID_FOR_CHILDREN).
  destruct (ns_new_live euid cgroup_current [] NS_PID i3 s Hl ltac:(cbn; lia)) as (f & Hf & Hn).
  pose proof (made_pid NS_PID f (next_ino (s_np s)) (s_fs s) Hp) as Hpid. unfold made in Hpid. rewrite decide_False in Hpid by done.
  destruct (ns_contents euid cgroup_current NS_PID f _ _) as [n d] eqn:Ec. cbn [snd] in Hpid.
  assert (n_type n = NS_PID) as Hnt by (pose proof (contents_spec euid cgroup_current NS_PID f (next_ino (s_np s)) (s_fs s)) as Hc; by rewrite Ec in Hc; destruct Hc).
  destruct Hn as (p1 & -> & Hl1 & _ & _ & _ & Hh1). cbn [mbind outcome_bind s_np s_fs]. set (l := next_loc (s_np s)) in *.
  destruct (get_live [l] l p1 Hl1) as (n0 & n' & Hn0 & Hsame & -> & Hl2 & _); [by left|cbn; lia|]. assert (n0 = n) as -> by congruence.
  cbn [mbind outcome_bind]. set (p2 := update l n' p1) in *. assert (heap p2 !! l = Some n') as Hh2 by apply lookup_insert_eq.
  destruct (swap_slot [l] l i9 n' p2 Hl2 ltac:(unfold i9, PID_FOR_CHILDREN; lia) Hh2) as (p3 & E3 & Hl3 & _ & _ & Es3 & _ & S3); [by rewrite (proj2 Hsame), Hnt|].
  rewrite E3. cbn [mbind outcome_bind].
  assert (∃ n3, heap p3 !! l = Some n3 ∧ n_type n3 = NS_PID) as (n3 & Hh3 & Ht3).
  { destruct (live_slot _ _ i9 Hl3) as (Hs9 & n3 & Hn3 & Ht3); [unfold i9, PID_FOR_CHILDREN; lia|]. exists n3.
    rewrite slot_insert_eq in Hn3 by (rewrite Es3, (lv_len _ _ Hl2); unfold i9, PID_FOR_CHILDREN; lia). done. }
  destruct (swap_slot [] l i3 n3 (set_slot i9 l p3) Hl3 ltac:(cbn; lia) Hh3 Ht3) as (p4 & E4 & Hl4 & _).
  rewrite slot_insert in E4 by done. rewrite put_set_slot in E4. destruct (ns_put (slot i3 p3) p3) as [p4'|] eqn:E5; [|done].
  cbn [mbind outcome_bind] in *. injection E4 as <-. rewrite (ino_at_live [] _ i3 Hl4) by (cbn; lia). cbn [mbind outcome_bind].
  rewrite (ino_at_live [] _ i9 Hl4) by (unfold i9, PID_FOR_CHILDREN; lia). cbn [mbind outcome_bind].
  destruct Hpid as [Hok Hne]; [by apply (ct_fresh _ _ (lv_count _ _ Hl)) in Hf as [_ ?]|]. unfold PidNs.pidns_add_child.
  destruct (PidNs.add_to_ancestors_spec (S (size (d_pid d))) (ino i9 (set_slot i3 l (set_slot i9 l p4'))) pid (d_pid d) Hok Hne (PidNs.older_size _ _))
    as (fs' & E & Hok' & Hn' & _).
  rewrite E. cbn [mbind outcome_bind]. eexists _, _. by split; [done|].
Qed.

Lemma good_setns note nstype s : good s → ∃ r s', sys_setns note nstype s = Ret (r, s') ∧ good s'.
Proof.
  intros [Hl Hp]. unfold sys_setns. destruct note as [[t i]|]; [|by exists (- EINVAL), s]. case_bool; [by exists (- EINVAL), s|].
  case_bool; [by exists (- EINVAL), s|]. unfold ns_ino_of. destruct (target_spec t) as (_ & _ & Hi & _).
  rewrite (ino_at_live [] _ _ Hl Hi). cbn [mbind outcome_bind]. destruct (_ =? i) eqn:Em.
  - case_decide; [|by exists 0, s]. unfold setns_children. cbv zeta. case_bool; [by exists 0, s|]. bool_to_prop.
    destruct (move_slot TIME_FOR_CHILDREN (ns_index NS_TIME) (s_np s) Hl) as (p0 & p1 & -> & Eg & Hl1 & _); [unfold TIME_FOR_CHILDREN; lia|cbn; lia|done|done|].
    cbn [mbind outcome_bind]. rewrite get_set_slot, Eg. cbn [mbind outcome_bind]. by eexists _, _.
  - rewrite (ino_at_live [] _ _ Hl) by (unfold TIME_FOR_CHILDREN; lia). cbn [mbind outcome_bind].
    destruct (bool_decide (t = NS_TIME) && _) eqn:Ec; [|by exists (- EINVAL), s]. apply andb_true_iff in Ec as [->%bool_decide_eq_true Ec]. bool_to_prop.
    unfold setns_join_time. cbv zeta. destruct (live_slot _ _ TIME_FOR_CHILDREN Hl) as (_ & n & Hn & _); [unfold TIME_FOR_CHILDREN; lia|].
    unfold deref at 1. rewrite Hn. cbn [mbind outcome_bind]. set (u := set_frozen true _). set (p := update _ _ (s_np s)).
    assert (live p) as Hlp by (by apply (update_live [] (s_np s) _ n)).
    assert (slot (ns_index NS_TIME) p ≠ slot TIME_FOR_CHILDREN p) as Hne.
    { intros Hsl. apply Em. rewrite <- Ec. unfold ino. change (slot ?k p) with (slot k (s_np s)) in Hsl. by rewrite Hsl. }
    destruct (move_slot (ns_index NS_TIME) TIME_FOR_CHILDREN p Hlp) as (p0 & p1 & Ep0 & Eg & Hl1 & _); [cbn; lia|unfold TIME_FOR_CHILDREN; lia|done|done|].
    change (slot ?k (s_np s)) with (slot k p). rewrite Ep0. cbn [mbind outcome_bind]. rewrite Eg. cbn [mbind outcome_bind].
    eexists _, _. split; [done|]. split; [done|]. cbn. unfold timens_store. by destruct (d_open (s_fs s)).
Qed.

(** Writing to a namespace through a pointer, and to its file. *)
Lemma good_write i n n' d s : good s → heap (s_np s) !! slot i (s_np s) = Some n → same_ns n n' → n_refcount n' = n_refcount n →
  d_pid d = d_pid (s_fs s) → good (mk_st (update (slot i (s_np s)) n' (s_np s)) d).
Proof. intros [Hl Hp] Hn Hs Hr Ed. split; [by apply (update_live [] _ _ n)|]. unfold pid_ok. cbn. by rewrite Ed. Qed.

Lemma good_uts_set ptr len set (g : G) s : good s → ∃ r s', uts_set euid ptr len set g s = Ret (r, s') ∧ good s'.
Proof.
  intros Hg. pose proof Hg as [Hl Hp]. unfold uts_set, current_uts. cbv zeta. set (i := ns_index NS_UTS).
  destruct (live_slot _ _ i Hl) as (_ & n & Hn & _); [cbn; lia|]. unfold deref. rewrite Hn. cbn [mbind outcome_bind].
  set (u := default _ _). assert (good (set_np (update (slot i (s_np s)) (set_uts u n) (s_np s)) s)) as Hg1 by (by apply (good_write i n)).
  case_bool; [by eexists _, _|]. case_bool; [by eexists _, _|]. destruct (copy_in ptr len g) as [l|]; [|by eexists _, _].
  cbn [s_np set_np]. change (slot i (update ?a ?b ?c)) with (slot i c). cbn [heap update set_heap]. rewrite lookup_insert_eq. cbn [mbind outcome_bind].
  unfold current_uts_commit, deref. cbn [s_np set_np]. fold i. change (slot i (update ?a ?b ?c)) with (slot i c).
  cbn [heap update set_heap]. rewrite lookup_insert_eq. cbn [mbind outcome_bind]. eexists _, _. split; [done|].
  destruct Hg1 as [Hl1 _]. split; [|cbn; unfold uts_store; by destruct (d_open (s_fs s))].
  apply (update_live [] (update (slot i (s_np s)) (set_uts u n) (s_np s)) (slot i (s_np s)) (set_uts u n)); [done|apply lookup_insert_eq|done|done].
Qed.

Lemma good_offsets_write text s : good s → ∃ r s', timens_offsets_write text s = Ret (r, s') ∧ good s'.
Proof.
  intros Hg. pose proof Hg as [Hl Hp]. unfold timens_offsets_write. cbv zeta. case_bool; [by eexists _, _|].
  destruct (live_slot _ _ TIME_FOR_CHILDREN Hl) as (_ & n & Hn & _); [unfold TIME_FOR_CHILDREN; lia|]. unfold deref. rewrite Hn. cbn [mbind outcome_bind].
  case_bool; [by eexists _, _|]. destruct (skip_while blank text) as [|c t]; [by eexists _, _|].
  destruct (parse_offsets_total (parse_fuel (c :: t)) (c :: t) (default (n_time n) (timens_load (n_ino n) (s_fs s)))) as [[e|o] ->]; [done|by eexists _, _|].
  cbn [mbind outcome_bind]. eexists _, _. split; [done|]. apply (good_write _ n); try done. unfold timens_store. by destruct (d_open (s_fs s)).
Qed.

Lemma good_commit u s : good s → ∃ s', userns_commit u s = Ret s' ∧ good s'.
Proof.
  intros Hg. pose proof Hg as [Hl Hp]. unfold userns_commit. cbv zeta. destruct (live_slot _ _ (ns_index NS_USER) Hl) as (_ & n & Hn & _); [cbn; lia|].
  unfold deref. rewrite Hn. cbn [mbind outcome_bind]. eexists. split; [done|]. apply (good_write _ n); try done. unfold userns_store. by destruct (d_open (s_fs s)).
Qed.

Lemma good_current s : good s → ∃ u, userns_current s = Ret u.
Proof.
  intros [Hl Hp]. unfold userns_current. destruct (live_slot _ _ (ns_index NS_USER) Hl) as (_ & n & Hn & _); [cbn; lia|].
  unfold deref. rewrite Hn. by eexists.
Qed.

Lemma good_write_map g text egid s : good s → ∃ r s', write_map euid g text egid s = Ret (r, s') ∧ good s'.
Proof.
  intros Hg. unfold write_map. destruct (good_current s Hg) as [u ->]. cbn [mbind outcome_bind].
  destruct (map_write_total (userns_active (s_np s)) g text euid egid u) as (r & u' & ->). cbn [mbind outcome_bind].
  case_bool; [|by eexists _, _]. destruct (good_commit u' s Hg) as (s' & -> & Hg'). by eexists _, _.
Qed.

Lemma good_write_setgroups text s : good s → ∃ r s', write_setgroups text s = Ret (r, s') ∧ good s'.
Proof.
  intros Hg. unfold write_setgroups. destruct (good_current s Hg) as [u ->]. cbn [mbind outcome_bind].
  destruct (userns_setgroups_write _ text u) as [r u']. case_bool; [|by eexists _, _].
  destruct (good_commit u' s Hg) as (s' & -> & Hg'). by eexists _, _.
Qed.
End Safe.

(** ** The calls of a process *)

(** What a process does with its namespaces, with what other processes do to
    the files in between; the guest's memory is that of the call. *)
Inductive ns_op (G : Type) :=
  | Unshare (flags : Z)
  | BecomePid1
  | Setns (note : option (ns_type * Z)) (nstype : Z)
  | Sethostname (ptr len : Z) (g : G)
  | Setdomainname (ptr len : Z) (g : G)
  | WriteOffsets (text : cstr)
  | WriteMap (groups : bool) (text : cstr) (egid : Z)
  | WriteSetgroups (text : cstr)
  | Elsewhere (d : nsfiles).
Arguments Unshare {G}. Arguments BecomePid1 {G}. Arguments Setns {G}. Arguments Sethostname {G}. Arguments Setdomainname {G}.
Arguments WriteOffsets {G}. Arguments WriteMap {G}. Arguments WriteSetgroups {G}. Arguments Elsewhere {G}.

Section Ops.
Context (boot pid euid : Z) (cgroup_current : cstr) {G : Type} `{GuestMem G}.

Definition answer_ns_op (o : ns_op G) (s : st) : outcome (Z * st) :=
  match o with
  | Unshare flags => nsproxy_unshare boot pid euid cgroup_current flags s
  | BecomePid1 => nsproxy_become_pid1 pid euid cgroup_current s
  | Setns note nstype => sys_setns note nstype s
  | Sethostname ptr len g => sys_sethostname euid ptr len g s
  | Setdomainname ptr len g => sys_setdomainname euid ptr len g s
  | WriteOffsets text => timens_offsets_write text s
  | WriteMap g text egid => write_map euid g text egid s
  | WriteSetgroups text => write_setgroups text s
  | Elsewhere d => Ret (0, set_fs d s)
  end.

Definition do_ns_op (o : ns_op G) (s : st) : outcome st := '(_, s) ← answer_ns_op o s; Ret s.

(** Other processes leave the tables of pids sound. *)
Definition op_ok (o : ns_op G) : Prop := match o with Elsewhere d => pid_ok d | _ => True end.

Lemma good_op o s : op_ok o → good s → ∃ r s', answer_ns_op o s = Ret (r, s') ∧ good s'.
Proof.
  intros Ho Hg. destruct o; cbn [answer_ns_op].
  - by apply good_unshare.
  - by apply good_become_pid1.
  - by apply good_setns.
  - by apply good_uts_set.
  - by apply good_uts_set.
  - by apply good_offsets_write.
  - by apply good_write_map.
  - by apply good_write_setgroups.
  - eexists _, _. split; [done|]. split; [apply Hg|done].
Qed.

Lemma good_ops os : Forall op_ok os → ∀ s, good s → ∃ s', for_each do_ns_op os s = Ret s' ∧ good s'.
Proof.
  induction 1 as [|o os Ho _ IH]; intros s Hg; [by exists s|]. cbn [for_each].
  destruct (good_op o s Ho Hg) as (r & s1 & E1 & Hg1). assert (do_ns_op o s = Ret s1) as -> by (unfold do_ns_op; by rewrite E1).
  cbn [mbind outcome_bind]. by apply IH.
Qed.
End Ops.

(** The pointers and their counts are right: each of the ten leads to a
    namespace of its type, and one that was allocated and is pointed to counts
    how often it is. *)
Definition sound (p : nsproxy) : Prop :=
  (∀ i, (i < 10)%nat → ∃ n, heap p !! slot i p = Some n ∧ n_type n = slot_type i) ∧
  (∀ l n, heap p !! l = Some n → is_initial l = false → l ∈ slots p → n_refcount n = Z.of_nat (holders l (slots p))).

Lemma live_sound p : live p → sound p.
Proof.
  intros Hl. split; [intros i Hi; by apply (live_slot [])|]. intros l n Hn Hi Hin. destruct (ct_count _ _ (lv_count _ _ Hl) l n Hn Hi) as [[Hz|?] _]; [|done].
  by apply holders_in in Hin.
Qed.

(** C16: no call uses a namespace that was freed, in the first process as it
    starts, or one rebuilt from a checkpoint in the initial time and pid
    namespaces and any others: every sequence of unshare, setns, becoming
    process 1, sethostname, setdomainname, and writes of clock offsets, id maps
    and setgroups, with the files changed by others in between, answers, and
    leaves every pointer at a namespace of its type that counts its references.
    A process rebuilt in another time or pid namespace is left out, and so is
    clone: see [rebuilt_in_a_time_namespace_dangles] and
    [rebuilt_in_a_pid_namespace_dangles]. *)
Theorem namespaces_never_dangle boot pid euid cgroup {G} `{GuestMem G} host d inos uts s os :
  pid_ok d → length inos = 8%nat →
  (∀ t, ino_in inos t = ino_initial t ∨ t ≠ NS_TIME ∧ t ≠ NS_PID ∧ NS_INO_FIRST + 8 ≤ ino_in inos t) →
  s = nsproxy_init host (mk_st np_start d) ∨ nsproxy_restore host inos uts (mk_st np_start d) = Ret s →
  Forall op_ok os →
  ∃ s', for_each (do_ns_op (G := G) boot pid euid cgroup) os s = Ret s' ∧ sound (s_np s').
Proof.
  intros Hd Hlen Hinos Hs Hos. assert (good s) as Hg.
  { destruct Hs as [->|Hs].
    - split; [by apply init_live, base_start|]. destruct (init_files host (mk_st np_start d)) as (_ & _ & E & _). unfold pid_ok. by injection E as _ _ -> _ _.
    - destruct (restore_spec host inos uts (mk_st np_start d) base_start Hlen) as (s1 & E1 & _ & _ & _ & _ & _ & Hr & Hl).
      rewrite Hs in E1. injection E1 as <-. split; [by apply Hl|]. unfold pid_ok. pose proof (rb_rest _ _ _ Hr) as E. by injection E as _ _ -> _ _. }
  destruct (good_ops boot pid euid cgroup os Hos s Hg) as (s' & E & Hg'). exists s'. split; [done|]. by apply live_sound, Hg'.
Qed.

(** * A new process *)










(** ** clone *)

Section Clone.
Context (boot pid euid : Z) (cgroup_current : cstr) (gethostname : option cstr).





End Clone.



(** * Hostnames *)

(** The hostname and domain name a process has. *)
Definition uts_of (p : nsproxy) (d : nsfiles) : uts_namespace :=
  default (mk_uts [] []) (n ← heap p !! slot (ns_index NS_UTS) p; Some (default (n_uts n) (uts_load (n_ino n) d))).

Lemma current_uts_spec p d : live p → ∃ p', current_uts (mk_st p d) = Ret (uts_of p d, mk_st p' d).
Proof.
  intros Hl. unfold current_uts, uts_of. destruct (live_slot [] _ (ns_index NS_UTS) Hl) as (_ & n & Hn & _); [cbn; lia|].
  cbv zeta. unfold deref. cbn [s_np s_fs]. rewrite Hn. cbn. by eexists.
Qed.

Lemma up_to_nul_length l : (length (up_to_nul l) ≤ length l)%nat.
Proof. unfold up_to_nul. rewrite length_fmap, length_take. lia. Qed.

(** C29: A hostname that a process sets is that of the processes in the same uts
    namespace, and of no other: reading it anywhere gives the new name and the
    domain name there was if the namespaces are the same, and what it gave
    before if they are not. *)
Theorem hostname_seen_in_namespace euid {G} `{GuestLaws G} ptr len (g : G) name p q d s' :
  live p → live q → d_open d = true → own g ptr len → copy_in ptr len g = Some name →
  sys_sethostname euid ptr len g (mk_st p d) = Ret (0, s') →
  ∃ u q', current_uts (mk_st q (s_fs s')) = Ret (u, mk_st q' (s_fs s')) ∧
    if ino (ns_index NS_UTS) q =? ino (ns_index NS_UTS) p
    then u = mk_uts (up_to_nul name) (take (UTS_LEN - 1) (domainname (uts_of p d)))
    else u = uts_of q d.
Proof.
  intros Hp Hq Ho Hown Hc E. destruct (current_uts_spec q (s_fs s') Hq) as [q' Eq]. exists (uts_of q (s_fs s')), q'. split; [done|].
  unfold sys_sethostname, uts_set, current_uts in E. cbv zeta in E. unfold ino, uts_of. destruct (live_slot [] _ (ns_index NS_UTS) Hp) as (_ & n & Hn & _); [cbn; lia|].
  destruct (live_slot [] _ (ns_index NS_UTS) Hq) as (_ & m & Hm & _); [cbn; lia|]. set (i := ns_index NS_UTS) in *. rewrite Hn, Hm. cbn [mbind option_bind default].
  unfold deref in E. cbn [s_np s_fs] in E. rewrite Hn in E. cbn [mbind outcome_bind] in E.
  destruct (Z.of_nat UTS_LEN - 1 <? len) eqn:El; [done|]. destruct (negb (euid =? 0)); [done|]. rewrite Hc in E. bool_to_prop. apply copy_in_length in Hc; [|done].
  cbn [s_np set_np] in E. change (slot i (update ?a ?b ?c)) with (slot i c) in E. cbn [heap update set_heap] in E. rewrite lookup_insert_eq in E. cbn [mbind outcome_bind] in E.
  unfold current_uts_commit, deref in E. cbn [s_np set_np] in E. fold i in E. change (slot i (update ?a ?b ?c)) with (slot i c) in E.
  cbn [heap update set_heap] in E. rewrite lookup_insert_eq in E. cbn [mbind outcome_bind] in E. injection E as <-.
  cbn [s_fs set_fs set_np n_ino n_uts set_uts domainname]. unfold uts_store. rewrite Ho. unfold uts_load. cbn [d_uts with_uts].
  destruct (n_ino m =? n_ino n) eqn:Ei; bool_to_prop.
  - rewrite Ei, lookup_insert_eq. cbn [fmap option_fmap option_map default nodename domainname]. rewrite (take_ge (up_to_nul name)); [done|].
    pose proof (up_to_nul_length name). unfold UTS_LEN in *. lia.
  - by rewrite lookup_insert_ne by congruence.
Qed.

(** * Clocks *)




Section Steady.
Context (boot pid euid : Z) (cgroup_current : cstr) {G : Type} `{GuestMem G} (k : Z) (t : time_namespace).
Hypothesis Hfrozen : frozen t = true.










End Steady.

(** ** Many processes *)

(** A call of one of the processes, as whom it is made. *)
Record event (G : Type) := mk_event { e_proc : nat; e_pid : Z; e_euid : Z; e_cgroup : cstr; e_op : ns_op G }.
Arguments mk_event {G}. Arguments e_proc {G}. Arguments e_pid {G}. Arguments e_euid {G}. Arguments e_cgroup {G}. Arguments e_op {G}.

(** The processes, each with its own pointers, over the files they share. *)
Definition system_step (boot : Z) {G} `{GuestMem G} (e : event G) (w : list nsproxy * nsfiles) : outcome (list nsproxy * nsfiles) :=
  match w.1 !! e_proc e with
  | None => Ret w
  | Some p =>
      s ← do_ns_op boot (e_pid e) (e_euid e) (e_cgroup e) (e_op e) (mk_st p w.2);
      Ret (<[e_proc e := s_np s]> w.1, s_fs s)
  end.

Section System.
Context (boot : Z) {G : Type} `{GuestMem G} (k : Z) (t : time_namespace).
Hypothesis Hfrozen : frozen t = true.



End System.


(** * Examples *)

Definition demo_nsfiles : nsfiles := mk_files ∅ ∅ ∅ ∅ ∅ ∅ ∅ true.
Definition demo_st : st := nsproxy_init (Some (lit "mac")) (mk_st np_start demo_nsfiles).
Definition demo_name (l : list Z) : flat := list_to_map (zip (counter 1 (Z.of_nat (length l))) l).

(** The first number there is to give out. *)
Abbreviation first_ino := (NS_INO_FIRST + 8).

Lemma demo_pid_ok : pid_ok demo_nsfiles.
Proof. done. Qed.

Lemma demo_good : good demo_st.
Proof. split; [apply init_live, base_start|done]. Qed.




(** A process rebuilt in another uts namespace goes through time namespaces. *)
Definition demo_ops : list (ns_op flat) :=
  [Unshare LINUX_CLONE_NEWTIME; WriteOffsets (lit "monotonic 10 0"); Setns (Some (NS_TIME, first_ino + 1)) 0;
   Elsewhere demo_nsfiles; Unshare 0x24000080; BecomePid1; Setns (Some (NS_TIME, first_ino + 1)) 0].

Definition demo_inos : list Z := <[1%nat := first_ino]> (ino_initial <$> all_types).

Lemma namespaces_never_dangle_witness : ∃ s s',
  nsproxy_restore None demo_inos (mk_uts (lit "box") []) (mk_st np_start demo_nsfiles) = Ret s ∧
  for_each (do_ns_op 1 100 0 (lit "/")) demo_ops s = Ret s' ∧ sound (s_np s') ∧ n_refcount <$> heap (s_np s') !! slot 7 (s_np s') = Some 2.
Proof.
  destruct (nsproxy_restore None demo_inos (mk_uts (lit "box") []) (mk_st np_start demo_nsfiles)) as [s|] eqn:E; [|by vm_compute in E].
  destruct (namespaces_never_dangle 1 100 0 (lit "/") (G := flat) None demo_nsfiles demo_inos (mk_uts (lit "box") []) s demo_ops) as (s' & E' & Hs).
  - exact demo_pid_ok.
  - reflexivity.
  - intros []; [by left|right; split_and!; [discriminate|discriminate|vm_compute; discriminate]|by left..].
  - right. exact E.
  - repeat (apply Forall_cons; split; [first [exact I|exact demo_pid_ok]|]). apply Forall_nil_2.
  - exists s, s'. split; [reflexivity|]. split; [exact E'|]. split; [exact Hs|].
    vm_compute in E. injection E as <-. vm_compute in E'. injection E' as <-. vm_compute. reflexivity.
Defined.


(** Two processes of the initial uts namespace. *)
Lemma hostname_seen_in_namespace_witness : ∃ s' u q',
  sys_sethostname 0 0 3 (demo_name [98; 111; 120]) demo_st = Ret (0, s') ∧
  current_uts (mk_st (s_np demo_st) (s_fs s')) = Ret (u, mk_st q' (s_fs s')) ∧ nodename u = lit "box".
Proof.
  destruct (sys_sethostname 0 0 3 (demo_name [98; 111; 120]) demo_st) as [[r s']|] eqn:E; [|by vm_compute in E].
  assert (r = 0) as -> by (vm_compute in E; by injection E as <- _).
  destruct (hostname_seen_in_namespace 0 0 3 (demo_name [98; 111; 120]) [98; 111; 120] (s_np demo_st) (s_np demo_st) (s_fs demo_st) s') as (u & q' & E' & Hu);
    [exact (proj1 demo_good)|exact (proj1 demo_good)|reflexivity|cbn; lia|reflexivity|exact E|].
  exists s', u, q'. split; [reflexivity|]. split; [exact E'|]. rewrite Z.eqb_refl in Hu. rewrite Hu. reflexivity.
Defined.

Definition demo_joins : list (ns_op flat) :=
  [Unshare LINUX_CLONE_NEWTIME; WriteOffsets (lit "monotonic 10 0"); Setns (Some (NS_TIME, first_ino)) 0].
Definition demo_timed : st := match for_each (do_ns_op 1 100 0 (lit "/")) demo_joins demo_st with Ret s => s | Stop _ => demo_st end.




(** * What the code does not keep *)

(** A process rebuilt in a time namespace that is not the initial one has two
    pointers to it and a count of one: an unshare frees the namespace it is in,
    and its next look at the clock goes through the freed pointer. *)
Example rebuilt_in_a_time_namespace_dangles :
  let inos := <[7%nat := first_ino]> (ino_initial <$> all_types) in
  let s := ret_or demo_st (nsproxy_restore None inos (mk_uts [] []) (mk_st np_start demo_nsfiles)) in
  let s' := (ret_or (0, demo_st) (nsproxy_unshare 1 100 0 (lit "/") LINUX_CLONE_NEWTIME s)).2 in
  ino (ns_index NS_TIME) (s_np s) = first_ino ∧ timens_current s = Ret time_zero ∧ timens_current s' = Stop Faulted.
Proof. vm_compute. done. Qed.

(** The same in a pid namespace: its number cannot be read any more. *)
Example rebuilt_in_a_pid_namespace_dangles :
  let inos := <[3%nat := first_ino]> (ino_initial <$> all_types) in
  let s := ret_or demo_st (nsproxy_restore None inos (mk_uts [] []) (mk_st np_start demo_nsfiles)) in
  let s' := (ret_or (0, demo_st) (nsproxy_unshare 1 100 0 (lit "/") LINUX_CLONE_NEWPID s)).2 in
  ns_ino_of NS_PID (s_np s) = Ret first_ino ∧ ns_ino_of NS_PID (s_np s') = Stop Faulted.
Proof. vm_compute. done. Qed.

(** Every process counts its new namespaces from the same number: two that
    unshare their hostnames one after the other get one namespace, and the name
    the second sets is the first's. *)
Example siblings_share_a_new_namespace :
  let p := s_np demo_st in
  let ev i o := mk_event i (100 + Z.of_nat i) 0 (lit "/") o in
  let '(ps, d) := ret_or ([], demo_nsfiles) (for_each (system_step 1)
    [ev 0%nat (Unshare LINUX_CLONE_NEWUTS); ev 0%nat (Sethostname 0 1 (demo_name [97])); ev 1%nat (Unshare LINUX_CLONE_NEWUTS);
     ev 1%nat (Sethostname 0 1 (demo_name [98]))] ([p; p], s_fs demo_st)) in
  (λ q, (ino (ns_index NS_UTS) q, nodename (uts_of q d))) <$> ps = [(first_ino, lit "b"); (first_ino, lit "b")].
Proof. vm_compute. done. Qed.

(** Even one that somebody runs by: a second process makes a time namespace of
    the same number, and the clock of the first is set back by ten seconds. *)
Example sibling_unfreezes_a_clock :
  let read w := (λ q, clock_gettime_ns LINUX_CLOCK_MONOTONIC (inr (mk_ts 5 0)) (mk_st q w.2)) <$> head w.1 in
  let w := ([s_np demo_timed; s_np demo_st], s_fs demo_timed) in
  let w' := ret_or w (for_each (system_step 1) [mk_event 1 101 0 (lit "/") (Unshare LINUX_CLONE_NEWTIME);
    mk_event 1 101 0 (lit "/") (WriteOffsets (lit "monotonic 0 0"))] w) in
  read w = Some (Ret (inr (mk_ts 15 0))) ∧ read w' = Some (Ret (inr (mk_ts 5 0))).
Proof. vm_compute. done. Qed.

(** A process that has unshared its children's time namespace goes there itself
    when it clones with another namespace flag: it is put back to where its
    children would be. *)
Example clone_moves_a_parent_that_unshared :
  let s := (ret_or (0, demo_st) (nsproxy_unshare 1 100 0 (lit "/") LINUX_CLONE_NEWTIME demo_st)).2 in
  let s' := (ret_or (0, None, demo_st) (sys_clone 1 100 0 (lit "/") None 0x04000011 200 s)).2 in
  ino (ns_index NS_TIME) (s_np s) = ino_initial NS_TIME ∧ ino (ns_index NS_TIME) (s_np s') = first_ino.
Proof. vm_compute. done. Qed.

(** A clone refused for its flags leaves the parent in the namespaces meant for
    the child. *)
Example refused_clone_moves_the_parent :
  let '(r, child, s') := ret_or (0, None, demo_st) (sys_clone 1 100 0 (lit "/") None 0x04101011 200 demo_st) in
  r = - EINVAL ∧ child = None ∧ ino (ns_index NS_UTS) (s_np s') = first_ino.
Proof. vm_compute. done. Qed.
